(* ===== verification/_CoqProject ===== *)
-Q . S2P
Prelude.v
VecSpec.v
Chunk.v
ChunkedVec.v
VecIter.v
VecRefine.v
Txn.v
Mvto.v
Protocol.v
DictSpec.v
IndexSpec.v
StringPool.v
Dict.v
Literals.v
Property.v
PropertyList.v
PropertyMap.v
PropertyTable.v
Demo.v
GraphState.v
GraphOps.v
QueryCtx.v
Bfs.v
ShortestPath.v
QResult.v
Expr.v
Qop.v
QopJoins.v
QopAggregates.v
QopUpdates.v
GraphIndex.v
QopScans.v
GraphCommit.v
GraphIndexFacts.v
GraphFacts.v
ExprFacts.v
QopFacts.v
QopJoinFacts.v
GraphNodes.v
GraphRefine.v
GraphLists.v
GraphImport.v
GraphImportFacts.v
QueryFacts.v
ParallelFacts.v
QueryTraversal.v
SearchFacts.v
ShortestFacts.v
IndexCreate.v
BTree.v
BTreeNodes.v
BTreeTree.v
BTreeInsert.v
BTreeErase.v
IndexMap.v
GraphDemo.v
QueryDemo.v
ExprDemo.v
ImportDemo.v
LruList.v
PagedFile.v
PagedFileFacts.v
BufferPool.v
BufferPoolInv.v
BufferPoolRefine.v
BufferedVec.v
BufferedVecFacts.v
PagedPool.v
BufferPoolDemo.v
WalLog.v
WalFacts.v
Recovery.v
RecoveryFacts.v
Csr.v
CsrFacts.v
CsrBuild.v
QopAlgorithms.v
AnalyticsDemo.v
QueryPlan.v
PlanFacts.v
