(* ===== verification/Prelude.v ===== *)
(** * Poseidon core: a verification library

    Poseidon is a graph database: nodes and relationships with properties, read
    and changed by transactions under multiversion timestamp ordering, and
    queried through pipelines of operators.  This library models its core in
    the configuration USE_IN_MEMORY (no USE_PMDK, no USE_LLVM), together with
    the storage of the configuration with paged files (USE_PFILES: files, page
    cache, paged vector and string pool, write-ahead log, recovery) and the
    delta store of CSR_DELTA, and proves what the parts promise to each other.

    ** The program and the files

    Storage of records.  src/vec/mem_chunked_vec.hpp keeps records in chunks
    with a bitmap of used slots ([Chunk]) and a free list of chunks
    ([ChunkedVec]), scanned by iterators ([VecIter]).  [VecSpec] is the
    interface ([Class Vec] with [VecScan], [VecUsed], [VecRedo] for what
    scans, analytics and recovery need in addition) against which everything
    above is proved; [VecRefine] shows that the chunked vector is a finite map.

    Transactions.  src/tx/txn_data.hpp is one multiversion object: lock word,
    timestamps, list of dirty versions, garbage collection ([Txn]).  What
    [graph_db] does to one object is in [Mvto], and the protocol of many
    transactions on one object, with a ghost history, in [Protocol].

    Strings.  src/dict/ is the dictionary: string pool ([StringPool]), code
    table and [dict] ([Dict]); [DictSpec] is the interface the graph uses.

    Properties.  src/storage/properties.{hpp,cpp}: the tests which strings are
    numbers and dates ([Literals]), items ([Property]), chains of records of
    three items ([PropertyList]); [PropertyMap] and [PropertyTable] see them as
    maps from names to values.

    Graph.  src/storage/nodes.*, relationships.*, graph_db.*, graph_db_gc.cpp:
    the state ([GraphState]), the operations ([GraphOps]), commit, abort and
    vacuum ([GraphCommit]), index maintenance ([GraphIndex], against the
    interface [IndexSpec]), bulk import ([GraphImport]).  [gdb V D X] is the
    database over any vector class [V], dictionary [D] and index map [X]; its
    operations live in the state-and-exception monad [M] of this file.

    Indexes.  src/btree/imbtree.hpp is a B+ tree over a heap of nodes ([BTree]),
    src/btree/index_map.cpp the map of indexes ([IndexMap]), which is an
    instance of [IndexSpec].

    Reading.  src/query/interp/query_ctx.cpp: scans, traversals, and scans by
    several threads ([QueryCtx]); src/analytics: [Bfs], [ShortestPath] with the
    search for several paths, and the graph as arrays of compressed rows with
    the delta store of src/storage/csr_delta.* ([Csr]).  The consumers and predicates of the caller are functions
    on the database and a state of their own.

    Queries.  src/query/utils/qresult.* ([QResult]), src/query/expr and the
    interpreter of expressions, a machine with a stack of values ([Expr]),
    src/query/plan_op: operators that push tuples ([Qop] with sorting,
    [QopScans], [QopJoins], [QopAggregates], [QopUpdates], [QopProjection],
    [QopAlgorithms]).
    An operator is a pair of its [consume_] and [finish_] over its own state and
    that of the operators behind it; an operator with two inputs is two such
    pairs over one state.  src/query/parser/query_planner.cpp, from the parse
    tree to a graph of operators named by address, with query_pipeline.cpp,
    query_batch.cpp, src/query/interp/qinterp.cpp and query_proc.cpp: pipelines,
    the batch and the order of its execution ([QueryPlan]).

    Pages.  src/bp_file: the list of pages by last use ([LruList]), files of
    pages ([PagedFile]) and the page cache over them ([BufferPool]);
    src/vec/buffered_vec.hpp: the vector whose chunks are pages ([BufferedVec]);
    src/dict/paged_string_pool.cpp: the string pool on pages ([PagedPool]).

    Recovery.  src/log/walog.*: the write-ahead log as a file of bytes
    ([WalLog]); src/storage/graph_db_recovery.cpp: redoing it ([Recovery]), for
    every vector with the laws of [VecRedo].

    ** The theorems

    - One object: a transaction reads the version of its snapshot, reads again
      what it read, writers exclude each other, the latest version can be read,
      collection keeps what is visible ([Protocol], [Txn]); all but the last as
      long as no transaction is refused to delete a node it has written itself,
      because the code then unlocks what is not committed.
    - The graph refines that protocol: every operation on a node is a step on
      its object ([GraphRefine]); added and committed nodes are read back
      ([GraphNodes]); the lists of relationships stay lists under linking and
      collection ([GraphLists]); imported nodes and relationships are what
      transactions see ([GraphImportFacts]); indexes lead to the nodes
      ([GraphIndexFacts], [IndexCreate]).
    - Scans deliver the visible nodes, in order, whoever runs them
      ([QueryFacts], [ParallelFacts]); traversals and searches are walks,
      reachability and shortest paths in the graph the transaction sees
      ([QueryTraversal], [SearchFacts], [ShortestFacts]), and so are the results
      of the operators that call them ([QopAlgorithms]).
    - Analytics: the arrays of compressed rows hold the neighbours and weights
      the transaction sees, within their bounds; an update with the merged
      records of the delta store equals a new build ([CsrFacts], [CsrBuild]).
    - Expressions: the stack machine computes the value of a reference
      evaluator, and a value of the deduced type ([ExprFacts]).
    - Operators: pipelines as functions on lists of tuples, joins against the
      nested loop, sorting with limits, grouping ([QopFacts], [QopJoinFacts]).
    - Plans: a pipeline per producer, ending at the root of the query, with the
      priority of the joins above it; walks along the operators end; the order
      in which pipelines are started; how chains of additions and
      multiplications are planned ([PlanFacts]).
    - Data structures against their abstract values: the vector and the page
      cache are maps ([VecRefine], [BufferPoolRefine]), the B+ tree a sorted
      association ([BTreeInsert]), the paged vector a list ([BufferedVecFacts]), the
      paged string pool a list of strings that survives evictions and a restart
      ([PagedPool]),
      the dictionary and the property lists give back what was stored ([Dict],
      [StringPool], [PropertyMap]).
    - Crashes: a log that is cut off anywhere gives back the records that were
      written completely ([WalFacts]); recovery replays those behind the last
      checkpoint in the tables ([RecoveryFacts]).
    - Errors: where the code does something else than it means to, as theorems
      about the situations (a group per hash instead of per key, joins that
      starve a sort, comparisons that take an operand from their context,
      deletions undone by abort, a refused deletion that unlocks its object,
      assignments lost with their page, commits undone by a second recovery,
      sums planned in the wrong order, and others).
    - The files ending in Demo evaluate the definitions at concrete databases
      and apply every theorem that has hypotheses there.

    ** Loops and fuel

    Loops whose bound is not structural take fuel and throw [no_return] when it
    runs out; the theorems show that it does not.  Scans of a vector take one
    round per slot of its capacity, walks of an object list one per entry of
    the heap plus one, the leaves of a tree one per leaf plus one; searches by
    breadth one plus the sum of the out-degrees (every entry of the frontier is
    paid by a relationship), the unweighted search the number of nodes, the
    weighted one [num_nodes] rounds, the trace of parents the length of the
    array plus one; traversals with a number of hops one round per entry their
    lists can produce.  A loop over a paged vector takes one round per slot plus
    one, a loop over the log one per byte plus one (a record has at least 32).
    Where the code may really not end, [no_return] is an
    outcome: waiting for a lock that nobody returns, and cyclic lists.  Steps of
    threads are explicit schedules: the transition system of [Protocol], the
    choices of [pool_run] in [QueryCtx].

    ** Machine level

    Words are [Z] with [u32], [u64], [s32] where the code can wrap around;
    doubles and dates are their 64 bits, converted by functions on the bits
    where the language defines the conversion.  Sharing is explicit where it
    matters: dirty versions, nodes of lists and trees are named by address in a
    heap.  Failed [assert]s, null pointers and accesses out of range are the
    outcomes [assertion_failed] and [undefined_behaviour].

    ** Parameters

    Code of other projects is a parameter: Boost's dates, the CSV parser,
    regular expressions inside queries, the functions users register; the hash
    functions, iteration orders and the order of equal elements in [std::sort]
    of the standard library as well.

    ** Not modelled

    - nvm_chunked_vec.hpp, pbtree.hpp, fptree.hpp, log/pm_ulog.*: variants over
      the persistent memory of PMDK (persistent pointers, transactions of that
      library), which the modelled configuration leaves out.
    - pfbtree.hpp: the tree over the page cache.  The page cache, the vector and
      the string pool over it are modelled.
    - graph_db_analytics.cu, gunrock, the parallel build of the arrays: calls of
      CUDA and Gunrock, and a query over the arrays.
    - antlr4_generated, antlr4_cpp_runtime, query/compile: the generated parser
      (the planner starts from its tree) and the LLVM compiler.
    - The conversion of results to strings, printing and profiling.
    - graph_pool, materialized views, radix index and other small structures no
      modelled part uses.
    - src/upmem (code for processing in memory), src/py, src/cmds (bindings and
      commands), robin_hood.h (a vendored hash map).
*)

From Stdlib Require Export ZArith Lia.
From stdpp Require Export base tactics numbers option list list_numbers strings gmap.

#[global] Set Default Goal Selector "!".
#[global] Open Scope Z_scope.

Declare Scope poseidon_scope.
Delimit Scope poseidon_scope with pos.
#[global] Open Scope poseidon_scope.

(** The hint database of the development. *)
Create HintDb poseidon discriminated.

(** ** Machine words

    Unsigned machine integers are [Z] with their wrap-around written out.
    [defs.hpp] fixes the widths: [dcode_t] is 32 bits, [offset_t], [xid_t] and
    [timestamp_t] are 64 bits. *)

Definition two32 : Z := 2 ^ 32.
Definition two64 : Z := 2 ^ 64.

Definition u32 (x : Z) : Z := x mod two32.
Definition u64 (x : Z) : Z := x mod two64.

(** The signed reading of the low 32 bits (a C++ [int]). *)
Definition s32 (x : Z) : Z :=
  let y := u32 x in if bool_decide (y < 2 ^ 31) then y else y - two32.

Lemma s32_small x : 0 ≤ x < 2 ^ 31 → s32 x = x.
Proof. intros Hx. unfold s32, u32. rewrite Z.mod_small by (unfold two32; lia). cbv zeta. rewrite bool_decide_eq_true_2 by lia. done. Qed.

(** [UNKNOWN] and [UNKNOWN_CODE] of defs.hpp, [INF] of transaction.hpp. *)
Definition UNKNOWN : Z := two64 - 1.
Definition UNKNOWN_CODE : Z := two32 - 1.
Definition INF : Z := two64 - 1.

(** A [std::string]: its bytes. *)
Notation str := (list Ascii.ascii).

(** ** Exceptions

    The classes of exceptions.hpp and of the standard library the modelled code
    throws, and three outcomes that have no handler: a failed [assert],
    undefined behaviour (a null or dangling pointer, an access outside an
    array), and a loop that never ends. *)
Inductive exn : Type :=
  | unknown_id | unknown_index | index_out_of_range | unknown_property
  | invalid_typecast | transaction_abort | out_of_transaction_scope
  | invalid_nested_transaction | orphaned_relationship | bufferpool_overrun
  | query_processing_error | udf_not_found | regex_error | invalid_csr_update | bad_get | bad_optional_access | bad_function_call | out_of_range_std | bad_any_cast | invalid_argument_std
  | assertion_failed | undefined_behaviour | no_return.

#[export] Instance exn_eq_dec : EqDecision exn.
Proof. solve_decision. Defined.

Inductive res (A : Type) : Type :=
  | Val (a : A)
  | Exn (e : exn).
Arguments Val {A} a.
Arguments Exn {A} e.

#[export] Instance res_eq_dec {A} `{EqDecision A} : EqDecision (res A).
Proof. solve_decision. Defined.

#[export] Instance res_ret : MRet res := λ A a, Val a.
#[export] Instance res_bind : MBind res :=
  λ A B f m, match m with Val a => f a | Exn e => Exn e end.

(** ** Stateful code

    A method that changes the state and may throw is a function from the state
    to the new state and an outcome.  A C++ exception does not undo the
    assignments made before it, so the state is returned in both cases. *)
Definition M (S A : Type) : Type := S → S * res A.

#[export] Instance M_ret {S} : MRet (M S) := λ A a s, (s, Val a).
#[export] Instance M_bind {S} : MBind (M S) :=
  λ A B f m s, match m s with
               | (s', Val a) => f a s'
               | (s', Exn e) => (s', Exn e)
               end.

Definition throw {S A} (e : exn) : M S A := λ s, (s, Exn e).
Definition get_st {S} : M S S := λ s, (s, Val s).
Definition gets {S A} (f : S → A) : M S A := λ s, (s, Val (f s)).
Definition modify {S} (f : S → S) : M S unit := λ s, (f s, Val tt).
Definition lift_res {S A} (r : res A) : M S A := λ s, (s, r).
(** [try { m } catch (e&) { h }] for the one exception class [e]. *)
Definition try_catch {S A} (m : M S A) (e : exn) (h : M S A) : M S A := λ s,
  match m s with
  | (s', Exn e') => if bool_decide (e' = e) then h s' else (s', Exn e')
  | r => r
  end.
(** [assert(b)]: the debug build stops when [b] is false. *)
Definition assert_ {S} (b : bool) : M S unit :=
  if b then mret tt else throw assertion_failed.
Definition when {S} (b : bool) (m : M S unit) : M S unit :=
  if b then m else mret tt.
Fixpoint for_each {S A} (f : A → M S unit) (l : list A) : M S unit :=
  match l with
  | [] => mret tt
  | x :: l' => f x;; for_each f l'
  end.

(** Running a sequence step by step. *)
Lemma bind_val {S A B} (m : M S A) (f : A → M S B) s s' a :
  m s = (s', Val a) → (m ≫= f) s = f a s'.
Proof. intros Hm. unfold mbind, M_bind. by rewrite Hm. Qed.
Lemma bind_exn {S A B} (m : M S A) (f : A → M S B) s s' e :
  m s = (s', Exn e) → (m ≫= f) s = (s', Exn e).
Proof. intros Hm. unfold mbind, M_bind. by rewrite Hm. Qed.
Lemma bind_inv {S A B} (m : M S A) (k : A → M S B) s s' b :
  (m ≫= k) s = (s', Val b) → ∃ s1 a, m s = (s1, Val a) ∧ k a s1 = (s', Val b).
Proof. unfold mbind, M_bind. destruct (m s) as [s1 [a|e]]; [by eauto|done]. Qed.
Lemma bind_ret {S A B} (a : A) (f : A → M S B) s : (mret a ≫= f) s = f a s.
Proof. done. Qed.
Lemma bind_get {S B} (f : S → M S B) s : (get_st ≫= f) s = f s s.
Proof. done. Qed.
Lemma bind_lift {S A B} (a : A) (f : A → M S B) s : (lift_res (Val a) ≫= f) s = f a s.
Proof. done. Qed.
Lemma bind_modify {S B} (g : S → S) (f : unit → M S B) s : (modify g ≫= f) s = f tt (g s).
Proof. done. Qed.
Lemma bind_assoc {S A B C} (m : M S A) (f : A → M S B) (k : B → M S C) s :
  ((m ≫= f) ≫= k) s = (m ≫= λ a, f a ≫= k) s.
Proof. unfold mbind, M_bind. by destruct (m s) as [s' [a|e]]. Qed.
Lemma for_each_nil {S A} (f : A → M S unit) s : for_each f [] s = (s, Val tt).
Proof. done. Qed.
Lemma for_each_cons {S A} (f : A → M S unit) x l s : for_each f (x :: l) s = (f x;; for_each f l) s.
Proof. done. Qed.
Lemma for_each_app {S A} (f : A → M S unit) l1 l2 s : for_each f (l1 ++ l2) s = (for_each f l1;; for_each f l2) s.
Proof.
  revert s. induction l1 as [|x l1 IH]; intros s; [done|]. cbn [app for_each].
  rewrite bind_assoc. unfold mbind, M_bind. destruct (f x s) as [s' [[]|e]]; [|done]. apply IH.
Qed.

(** ** Vectors of the standard library: [v[i]], [v.back()] *)
Definition elem {A} (l : list A) (i : Z) : res A :=
  if bool_decide (0 ≤ i) then match l !! Z.to_nat i with Some x => Val x | None => Exn undefined_behaviour end
  else Exn undefined_behaviour.
Definition back {A} (l : list A) : res A := match last l with Some x => Val x | None => Exn undefined_behaviour end.

(** ** Lists *)

(** An in-place update of an entry that exists is an insertion. *)
Lemma list_alter_Some_insert {A} (l : list A) k f x :
  l !! k = Some x → alter f k l = <[k := f x]> l.
Proof.
  intros Hk. apply list_eq. intros i. destruct (decide (i = k)) as [->|].
  - rewrite list_lookup_insert_eq by (by eapply lookup_lt_Some).
    by rewrite list_lookup_alter_eq, Hk.
  - by rewrite list_lookup_insert_ne, list_lookup_alter_ne.
Qed.
