(* ===== verification/VecSpec.v ===== *)
(** * VecSpec: what the record tables need of a vector

    [vec.hpp] selects one of three vector classes at build time; the tables of
    nodes, relationships and property sets are templates over it.  The class
    [Vec] is that interface: the operations the tables call and the laws they
    rely on (among them that writing back a record as it was read changes
    nothing).  [ChunkedVec] gives the in-memory implementation. *)

From Stdlib Require Import Sorting.Sorted.
From S2P Require Import Prelude.

(** The address of a record in a vector (chunk or page, slot): a [T&] or [T*]. *)
Definition loc : Type := nat * nat.

Class Vec (V : Type → Type) := {
  vec_new {T} : V T;
  vec_store {T} `{Inhabited T} : T → M (V T) (Z * loc);
  vec_append {T} `{Inhabited T} : T → M (V T) (Z * loc);
  vec_erase {T} : Z → M (V T) unit;
  vec_at {T} : V T → Z → res loc;
  vec_read {T} : V T → loc → option T;
  vec_write {T} : loc → T → V T → V T;
  vec_capacity {T} : V T → Z;
  vec_is_full {T} : V T → bool;
  vec_resize {T} `{Inhabited T} : nat → V T → V T;
  vec_first_available {T} : V T → Z;
  vec_store_at {T} : Z → T → M (V T) unit;

  (** what readers rely on, the full invariant, the records stored, the records
      that can be erased without leaving the invariant, and how much the
      capacity grows at most when a record is added *)
  vec_rd {T} : V T → Prop;
  vec_ok {T} : V T → Prop;
  vec_get {T} : V T → Z → option T;
  vec_erasable {T} : V T → Z → Prop;
  vec_grow : Z;

  vec_grow_pos : 0 ≤ vec_grow;
  vec_ok_rd {T} (v : V T) : vec_ok v → vec_rd v;
  vec_new_ok {T} : vec_ok (vec_new (T:=T));
  vec_new_get {T} id : vec_get (vec_new (T:=T)) id = None;
  vec_store_ok {T} `{Inhabited T} (v : V T) o :
    vec_ok v → ∃ id l v', vec_store o v = (v', Val (id, l)) ∧ vec_ok v'
      ∧ 0 ≤ id ∧ vec_get v id = None ∧ vec_at v' id = Val l
      ∧ (∀ j, vec_get v' j = if decide (j = id) then Some o else vec_get v j)
      ∧ vec_capacity v ≤ vec_capacity v' ∧ vec_capacity v' ≤ vec_capacity v + vec_grow;
  vec_append_ok {T} `{Inhabited T} (v : V T) o :
    vec_ok v → ∃ id l v', vec_append o v = (v', Val (id, l)) ∧ vec_ok v'
      ∧ 0 ≤ id ∧ vec_get v id = None ∧ vec_at v' id = Val l
      ∧ (∀ j, vec_get v' j = if decide (j = id) then Some o else vec_get v j)
      ∧ vec_capacity v ≤ vec_capacity v' ∧ vec_capacity v' ≤ vec_capacity v + vec_grow;
  (** [if (is_full()) resize(1); id = first_available(); store_at(id, o)] *)
  vec_fill_ok {T} `{Inhabited T} (v : V T) o :
    vec_rd v → vec_capacity v + vec_grow ≤ UNKNOWN →
    let v1 := if vec_is_full v then vec_resize 1 v else v in
    let id := vec_first_available v1 in
    id ≠ UNKNOWN ∧ 0 ≤ id ∧ vec_get v id = None
    ∧ ∃ v', vec_store_at id o v1 = (v', Val tt) ∧ vec_rd v'
      ∧ (∀ j, vec_get v' j = if decide (j = id) then Some o else vec_get v j)
      ∧ vec_capacity v ≤ vec_capacity v' ≤ vec_capacity v + vec_grow;
  vec_at_Some {T} (v : V T) id x :
    vec_rd v → vec_get v id = Some x → ∃ l, vec_at v id = Val l ∧ vec_read v l = Some x;
  vec_at_None {T} (v : V T) id :
    vec_rd v → 0 ≤ id → id < vec_capacity v → vec_get v id = None →
    vec_at v id = Exn unknown_id;
  vec_at_out {T} (v : V T) id :
    vec_rd v → vec_capacity v ≤ id → vec_at v id = Exn index_out_of_range;
  vec_write_ok {T} (v : V T) id l o :
    vec_rd v → 0 ≤ id → vec_at v id = Val l →
    vec_rd (vec_write l o v) ∧ (vec_ok v → vec_ok (vec_write l o v))
    ∧ vec_capacity (vec_write l o v) = vec_capacity v
    ∧ (∀ j, vec_get (vec_write l o v) j = if decide (j = id) then Some o else vec_get v j)
    ∧ (∀ j, vec_at (vec_write l o v) j = vec_at v j);
  vec_write_same {T} (v : V T) l o : vec_read v l = Some o → vec_write l o v = v;
  vec_get_bounds {T} (v : V T) id x :
    vec_rd v → vec_get v id = Some x → 0 ≤ id < vec_capacity v;
  vec_erase_ok {T} (v : V T) id :
    vec_rd v → is_Some (vec_get v id) →
    ∃ v', vec_erase id v = (v', Val tt)
      ∧ (∀ j, vec_get v' j = if decide (j = id) then None else vec_get v j)
      ∧ vec_rd v' ∧ (vec_ok v → vec_erasable v id → vec_ok v')
}.

#[export] Hint Resolve vec_ok_rd : poseidon.

(** ** Loops over a vector

    [for (auto &x : vec)]: the iterator is at a record or at the end.
    [vec_dense]: what the iterator assumes of the vector.  [range(first, last)]
    visits the chunks from [first] to [last]; its iterator [rng] is a state of
    its own, and the first record of the chunk [first] is taken to be in use. *)
Class VecScan (V : Type → Type) `{!Vec V} := {
  vec_first {T} : V T → option loc;
  vec_next {T} : V T → loc → res (option loc);
  vec_dense {T} : V T → Prop;

  vec_scan_ok {T} (v : V T) : vec_rd v → vec_dense v → ∃ ids ls,
    StronglySorted Z.lt ids ∧ (∀ id, id ∈ ids ↔ is_Some (vec_get v id))
    ∧ Forall2 (λ id l, vec_at v id = Val l) ids ls
    ∧ vec_first v = head ls ∧ (∀ i l, ls !! i = Some l → vec_next v l = Val (ls !! S i));
  vec_write_scan {T} (v : V T) id l o : vec_rd v → 0 ≤ id → vec_at v id = Val l →
    vec_first (vec_write l o v) = vec_first v
    ∧ (∀ l', vec_next (vec_write l o v) l' = vec_next v l')
    ∧ (vec_dense v → vec_dense (vec_write l o v));

  rng : Type;
  vec_chunks {T} : V T → nat;
  vec_chunk : nat;
  vec_range {T} : V T → nat → nat → res rng;
  rng_valid : rng → bool;
  rng_loc : rng → loc;
  rng_incr {T} : V T → rng → res rng;

  vec_get_chunk {T} (v : V T) id x : vec_rd v → vec_get v id = Some x →
    id < Z.of_nat (vec_chunks v) * Z.of_nat vec_chunk;
  vec_range_ok {T} (v : V T) first last : vec_rd v → (first < vec_chunks v)%nat → (first ≤ last)%nat →
    is_Some (vec_get v (Z.of_nat first * Z.of_nat vec_chunk)) → ∃ its ids ls e,
    vec_range v first last = Val (default e (head its)) ∧ rng_valid e = false
    ∧ StronglySorted Z.lt ids
    ∧ (∀ id, id ∈ ids ↔ Z.of_nat first * Z.of_nat vec_chunk ≤ id < Z.of_nat (S last) * Z.of_nat vec_chunk
                        ∧ is_Some (vec_get v id))
    ∧ Forall2 (λ id l, vec_at v id = Val l) ids ls
    ∧ Forall2 (λ it l, rng_valid it = true ∧ rng_loc it = l) its ls
    ∧ (∀ i it, its !! i = Some it → rng_incr v it = Val (default e (its !! S i)));
  vec_write_range {T} (v : V T) id l o : vec_rd v → 0 ≤ id → vec_at v id = Val l →
    vec_chunks (vec_write l o v) = vec_chunks v
    ∧ (∀ first last, vec_range (vec_write l o v) first last = vec_range v first last)
    ∧ (∀ it, rng_incr (vec_write l o v) it = rng_incr v it)
}.
Arguments rng V {_ _}.

(** ** What recovery needs of a vector

    [store_at] and [erase] at any position that exists, used or not. *)
Class VecRedo (V : Type → Type) `{!Vec V} := {
  vec_store_at_ok {T} (v : V T) id o : vec_rd v → 0 ≤ id < vec_capacity v →
    ∃ v', vec_store_at id o v = (v', Val tt) ∧ vec_rd v' ∧ vec_capacity v' = vec_capacity v
      ∧ ∀ j, vec_get v' j = if decide (j = id) then Some o else vec_get v j;
  vec_store_at_out {T} (v : V T) id o : vec_rd v → vec_capacity v ≤ id → vec_store_at id o v = (v, Exn index_out_of_range);
  vec_erase_any {T} (v : V T) id : vec_rd v → 0 ≤ id < vec_capacity v →
    ∃ v', vec_erase id v = (v', Val tt) ∧ vec_rd v' ∧ vec_capacity v' = vec_capacity v
      ∧ ∀ j, vec_get v' j = if decide (j = id) then None else vec_get v j
}.

(** ** What loops over all positions need

    [last_used() + 1] is a bound of the ids, [is_used] tells the records apart. *)
Class VecUsed (V : Type → Type) `{!Vec V} := {
  vec_last_used {T} : V T → Z;
  vec_is_used {T} : V T → Z → res bool;
  vec_last_used_ok {T} (v : V T) : vec_rd v → vec_capacity v ≤ UNKNOWN →
    0 ≤ u64 (vec_last_used v + 1) ≤ vec_capacity v ∧ ∀ id, is_Some (vec_get v id) → id < u64 (vec_last_used v + 1);
  vec_is_used_ok {T} (v : V T) id : vec_rd v → 0 ≤ id < vec_capacity v →
    vec_is_used v id = Val (bool_decide (is_Some (vec_get v id)))
}.
