(* ===== verification/Chunk.v ===== *)
(** * Chunk: the fixed-size record buffer with a slot bitmap

    [chunk] of src/vec/mem_chunked_vec.hpp and [bchunk] of
    src/vec/buffered_vec.hpp (the two structs have the same members and the
    same code, up to the [next_] pointer): an array of records, one bit per
    record telling whether the slot is used, and a cached index [first_] that
    is meant to be the first unused slot.  The invariant [chunk_wf] says the
    cache is exact; every operation keeps it. *)

From S2P Require Import Prelude.

Section chunk.
  Context {T : Type} `{Inhabited T}.
  (** the template parameter [num_records] *)
  Variable num_records : nat.

Record chunk : Type := mk_chunk {
  data_ : list T;        (* the array of data *)
  slots_ : list bool;    (* used (true) / available (false) *)
  first_ : nat           (* the index of the first available slot *)
}.

(** [chunk()]: the default-constructed array, an all-zero bitset, [first_ = 0]. *)
Definition new_chunk : chunk :=
  mk_chunk (replicate num_records inhabitant) (replicate num_records false) 0.

(** [is_used(i)]: [bitset::test] throws when [i] is out of range. *)
Definition chunk_is_used (c : chunk) (i : nat) : res bool :=
  match slots_ c !! i with Some b => Val b | None => Exn out_of_range_std end.

(** The loop [for (j = from; j < num_records; j++) if (!slots_.test(j)) ...]. *)
Definition scan_free (slots : list bool) (from : nat) : option nat :=
  match list_find (λ b, b = false) (drop from slots) with
  | Some (k, _) => Some (from + k)%nat
  | None => None
  end.

(** [set(i, b)] *)
Definition chunk_set (c : chunk) (i : nat) (b : bool) : chunk :=
  let slots := <[i := b]> (slots_ c) in
  if negb b && (i <? first_ c)%nat then mk_chunk (data_ c) slots i
  else if b && (i =? first_ c)%nat then
    match scan_free slots (first_ c) with
    | Some j => mk_chunk (data_ c) slots j
    | None => mk_chunk (data_ c) slots num_records
    end
  else mk_chunk (data_ c) slots (first_ c).

(** [is_full()] is [slots_.all()], [is_empty()] is [slots_.none()]. *)
Definition chunk_is_full (c : chunk) : bool := forallb id (slots_ c).
Definition chunk_is_empty (c : chunk) : bool := forallb negb (slots_ c).

(** [first_available()]; [None] stands for [SIZE_MAX]. *)
Definition chunk_first_available (c : chunk) : option nat :=
  if chunk_is_full c then None else scan_free (slots_ c) (first_ c).

(** [last_used()]; [None] stands for [SIZE_MAX]. *)
Definition chunk_last_used (c : chunk) : option nat :=
  if chunk_is_empty c then None
  else match list_find (λ b, b = true) (reverse (slots_ c)) with
       | Some (k, _) => Some (num_records - 1 - k)%nat
       | None => None
       end.

(** [data_[i] = o] through a pointer into the chunk. *)
Definition chunk_write (c : chunk) (i : nat) (o : T) : chunk :=
  mk_chunk (<[i := o]> (data_ c)) (slots_ c) (first_ c).

(** What the chunk stores: the record of every used slot. *)
Definition chunk_lookup (c : chunk) (i : nat) : option T :=
  match slots_ c !! i with Some true => data_ c !! i | _ => None end.

Definition chunk_nfree (c : chunk) : nat := length (filter (λ b, b = false) (slots_ c)).

(** The invariant: both arrays have [num_records] entries, every slot below
    [first_] is used, and the slot at [first_], if there is one, is free. *)
Record chunk_wf (c : chunk) : Prop := {
  wf_data : length (data_ c) = num_records;
  wf_slots : length (slots_ c) = num_records;
  wf_first : (first_ c ≤ num_records)%nat;
  wf_below : ∀ j, (j < first_ c)%nat → slots_ c !! j = Some true;
  wf_at : (first_ c < num_records)%nat → slots_ c !! first_ c = Some false
}.

(** ** Lemmas *)

Lemma scan_free_Some slots from j :
  scan_free slots from = Some j →
  (from ≤ j)%nat ∧ slots !! j = Some false
  ∧ ∀ k, (from ≤ k < j)%nat → slots !! k = Some true.
Proof.
  unfold scan_free. destruct (list_find _ _) as [[k b]|] eqn:E; [|done].
  intros [= <-]. apply list_find_Some in E as (Hk & -> & Hmin).
  rewrite lookup_drop in Hk. split; [lia|]. split; [done|].
  intros i Hi.
  destruct (slots !! i) as [[]|] eqn:Ei; [done| |].
  - destruct (Hmin (i - from)%nat false); [|lia|done].
    rewrite lookup_drop. by replace (from + (i - from))%nat with i by lia.
  - apply lookup_ge_None_1 in Ei. apply lookup_lt_Some in Hk. lia.
Qed.

Lemma scan_free_None slots from :
  scan_free slots from = None →
  ∀ k, (from ≤ k < length slots)%nat → slots !! k = Some true.
Proof.
  unfold scan_free. destruct (list_find _ _) as [[k b]|] eqn:E; [done|].
  intros _ k Hk. apply list_find_None in E.
  destruct (slots !! k) as [[]|] eqn:Ek; [done| |].
  - rewrite Forall_lookup in E. exfalso. apply (E (k - from)%nat false); [|done].
    rewrite lookup_drop. by replace (from + (k - from))%nat with k by lia.
  - apply lookup_ge_None_1 in Ek. lia.
Qed.

Lemma chunk_is_full_spec c :
  chunk_is_full c = true ↔ ∀ i, (i < length (slots_ c))%nat → slots_ c !! i = Some true.
Proof.
  unfold chunk_is_full. rewrite forallb_forall. split.
  - intros Hall i [b Hb]%lookup_lt_is_Some. rewrite Hb. f_equal.
    apply Hall, list_elem_of_In, list_elem_of_lookup. eauto.
  - intros Hall b [i Hb]%list_elem_of_In%list_elem_of_lookup.
    pose proof (Hall i (lookup_lt_Some _ _ _ Hb)). naive_solver.
Qed.

Lemma chunk_is_full_wf c :
  chunk_wf c → chunk_is_full c = true ↔ first_ c = num_records.
Proof.
  intros []. rewrite chunk_is_full_spec. split.
  - intros Hall. destruct (decide (first_ c = num_records)); [done|].
    assert (first_ c < num_records)%nat as Hlt by lia.
    specialize (wf_at0 Hlt). rewrite Hall in wf_at0 by lia. done.
  - intros Heq i Hi. apply wf_below0. lia.
Qed.

(** The cache is exact: [first_available] returns [first_]. *)
Lemma chunk_first_available_wf c :
  chunk_wf c →
  chunk_first_available c =
    if decide (first_ c < num_records)%nat then Some (first_ c) else None.
Proof.
  intros Hwf. unfold chunk_first_available.
  destruct (chunk_is_full c) eqn:Efull.
  - apply chunk_is_full_wf in Efull; [|done]. rewrite decide_False by lia. done.
  - assert (first_ c ≠ num_records) as Hne.
    { intros Heq%chunk_is_full_wf; [congruence|done]. }
    destruct Hwf. rewrite decide_True by lia.
    destruct (scan_free _ _) as [j|] eqn:E.
    + apply scan_free_Some in E as (Hle & Hj & Hmin).
      destruct (decide (j = first_ c)) as [->|]; [done|].
      specialize (Hmin (first_ c)). rewrite wf_at0 in Hmin by lia.
      by discriminate Hmin; lia.
    + specialize (scan_free_None _ _ E (first_ c)) as Hn.
      rewrite wf_at0 in Hn by lia. discriminate Hn; lia.
Qed.

Lemma chunk_not_full_first c :
  chunk_wf c → chunk_is_full c = false →
  (first_ c < num_records)%nat ∧ chunk_first_available c = Some (first_ c).
Proof.
  intros Hwf Hfull.
  assert (first_ c < num_records)%nat as Hlt.
  { destruct (decide (first_ c = num_records)) as [E|]; [|destruct Hwf; lia].
    apply (chunk_is_full_wf c Hwf) in E. congruence. }
  split; [done|]. rewrite chunk_first_available_wf by done. by rewrite decide_True.
Qed.

Lemma chunk_set_slots c i b : slots_ (chunk_set c i b) = <[i := b]> (slots_ c).
Proof.
  unfold chunk_set. repeat case_match; done.
Qed.

Lemma chunk_set_data c i b : data_ (chunk_set c i b) = data_ c.
Proof.
  unfold chunk_set. repeat case_match; done.
Qed.

Lemma chunk_set_data_length c i b : length (slots_ (chunk_set c i b)) = length (slots_ c).
Proof. rewrite chunk_set_slots. apply length_insert. Qed.

Lemma new_chunk_wf : chunk_wf new_chunk.
Proof.
  split; simpl; rewrite ?length_replicate; try lia.
  intros. by apply lookup_replicate_2.
Qed.

Lemma chunk_write_wf c i o : chunk_wf c → chunk_wf (chunk_write c i o).
Proof. intros []. split; simpl; rewrite ?length_insert; done. Qed.

(** [set] keeps the cached index exact, whichever slot and value is given. *)
Lemma chunk_set_wf c i b :
  chunk_wf c → (i < num_records)%nat → chunk_wf (chunk_set c i b).
Proof.
  intros [Hd Hs Hf Hb Ha] Hi. unfold chunk_set.
  destruct (negb b && _) eqn:E1; [|destruct (b && _) eqn:E2].
  - apply andb_true_iff in E1 as [->%negb_true_iff E1%Nat.ltb_lt].
    split; simpl; rewrite ?length_insert; try lia.
    + intros j Hj. rewrite list_lookup_insert_ne by lia. apply Hb. lia.
    + intros _. apply list_lookup_insert_eq. lia.
  - apply andb_true_iff in E2 as [-> ->%Nat.eqb_eq].
    destruct (scan_free _ _) as [j|] eqn:E; split; simpl; rewrite ?length_insert; try lia.
    + apply scan_free_Some in E as (? & E%lookup_lt_Some & _). rewrite length_insert in E. lia.
    + intros k Hk. apply scan_free_Some in E as (? & ? & Hmin).
      destruct (decide (k < first_ c)%nat).
      * rewrite list_lookup_insert_ne by lia. by apply Hb.
      * apply Hmin. lia.
    + intros _. by apply scan_free_Some in E as (? & ? & _).
    + intros k Hk. destruct (decide (k < first_ c)%nat).
      * rewrite list_lookup_insert_ne by lia. by apply Hb.
      * eapply scan_free_None; [done|]. rewrite length_insert. lia.
  - split; simpl; rewrite ?length_insert; try lia.
    + intros j Hj. rewrite list_lookup_insert. case_decide as E; [|by apply Hb].
      destruct E as [-> ?]. destruct b; [done|]. simpl in E1.
      apply Nat.ltb_ge in E1. lia.
    + intros Hlt. rewrite list_lookup_insert. case_decide as E; [|by apply Ha].
      destruct E as [-> _]. destruct b; [|done]. simpl in E2. apply Nat.eqb_neq in E2. lia.
Qed.

Lemma filter_insert_false (l : list bool) (i : nat) (b : bool) :
  (i < length l)%nat →
  (length (filter (λ b, b = false) (<[i := b]> l)) + (if decide (l !! i = Some false) then 1 else 0)
   = length (filter (λ b, b = false) l) + (if b then 0 else 1))%nat.
Proof.
  revert i. induction l as [|x l IH]; intros i Hi; simpl in *; [lia|].
  destruct i as [|i]; simpl.
  - rewrite !filter_cons. destruct b, x; repeat case_decide; simpl; first [lia | congruence].
  - specialize (IH i ltac:(lia)). rewrite !filter_cons. repeat case_decide; simpl in *; lia.
Qed.

(** Setting a slot changes the number of free slots by what the slot was. *)
Lemma chunk_nfree_set c i b :
  (i < length (slots_ c))%nat →
  (chunk_nfree (chunk_set c i b) + (if decide (slots_ c !! i = Some false) then 1 else 0)
   = chunk_nfree c + (if b then 0 else 1))%nat.
Proof.
  intros Hi. unfold chunk_nfree. rewrite chunk_set_slots. by apply filter_insert_false.
Qed.

Lemma chunk_nfree_new : chunk_nfree new_chunk = num_records.
Proof.
  unfold chunk_nfree, new_chunk; simpl. induction num_records as [|m IH]; [done|].
  rewrite replicate_S, filter_cons_True by done. simpl. by rewrite IH.
Qed.

Lemma chunk_lookup_new i : chunk_lookup new_chunk i = None.
Proof.
  unfold chunk_lookup, new_chunk; simpl. destruct (replicate _ false !! i) as [b|] eqn:E; [|done].
  by apply lookup_replicate in E as [-> _].
Qed.

Lemma chunk_lookup_set_true c i j :
  chunk_lookup (chunk_set c i true) j =
    if decide (i = j ∧ j < length (slots_ c))%nat then data_ c !! j else chunk_lookup c j.
Proof.
  unfold chunk_lookup. rewrite chunk_set_slots, chunk_set_data.
  rewrite list_lookup_insert. repeat case_decide; naive_solver.
Qed.

Lemma chunk_lookup_set_false c i j :
  (i < length (slots_ c))%nat →
  chunk_lookup (chunk_set c i false) j = if decide (i = j) then None else chunk_lookup c j.
Proof.
  intros Hi. unfold chunk_lookup. rewrite chunk_set_slots, chunk_set_data.
  rewrite list_lookup_insert. repeat case_decide; naive_solver.
Qed.

Lemma chunk_lookup_write c i j o :
  (i < length (data_ c))%nat →
  chunk_lookup (chunk_write c i o) j =
    if decide (i = j) then (if decide (slots_ c !! j = Some true) then Some o else None)
    else chunk_lookup c j.
Proof.
  intros Hi. unfold chunk_lookup, chunk_write; simpl. destruct (decide (i = j)) as [->|Hne].
  - rewrite list_lookup_insert_eq by done.
    destruct (slots_ c !! j) as [[]|]; case_decide; congruence.
  - by rewrite list_lookup_insert_ne.
Qed.

(** [last_used] finds the last record. *)
Lemma chunk_last_used_ok c j : chunk_wf c → is_Some (chunk_lookup c j) →
  ∃ p, chunk_last_used c = Some p ∧ (j ≤ p < num_records)%nat.
Proof.
  intros Hwf [x Hx]. unfold chunk_lookup in Hx. destruct (slots_ c !! j) as [[]|] eqn:Ej; [|done..].
  pose proof (wf_slots _ Hwf) as Hl. pose proof (lookup_lt_Some _ _ _ Ej) as Hj. unfold chunk_last_used.
  assert (chunk_is_empty c = false) as ->.
  { apply not_true_iff_false. unfold chunk_is_empty. rewrite forallb_forall. intros Hall.
    specialize (Hall true). rewrite <-list_elem_of_In in Hall. by discriminate (Hall (list_elem_of_lookup_2 _ _ _ Ej)). }
  assert (reverse (slots_ c) !! (num_records - 1 - j)%nat = Some true) as Er.
  { rewrite reverse_lookup by lia. rewrite Hl. by replace (num_records - S (num_records - 1 - j))%nat with j by lia. }
  destruct (list_find _ _) as [[k b]|] eqn:E.
  - exists (num_records - 1 - k)%nat. split; [done|]. apply list_find_Some in E as (_ & _ & Hmin).
    destruct (decide (num_records - 1 - j < k)%nat) as [Hlt|]; [|lia]. by destruct (Hmin _ _ Er Hlt).
  - apply list_find_None in E. rewrite Forall_lookup in E. by destruct (E _ _ Er).
Qed.
Lemma chunk_last_used_lt c p : (0 < num_records)%nat → chunk_last_used c = Some p → (p < num_records)%nat.
Proof. unfold chunk_last_used. destruct (chunk_is_empty c); [done|]. destruct (list_find _ _) as [[k b]|]; [|done]. intros ? [= <-]. lia. Qed.
End chunk.
Arguments chunk : clear implicits.
#[export] Hint Resolve new_chunk_wf chunk_set_wf chunk_write_wf : poseidon.
