(* ===== verification/ChunkedVec.v ===== *)
(** * ChunkedVec: the in-memory record vector (src/vec/mem_chunked_vec.hpp)

    A vector as a list of chunks, with a free list of the chunks that still
    have room.  Record ids are positions [chunk * elems_per_chunk + slot].  The
    chunks' [next_] pointers always link consecutive entries of [chunk_list_]
    ([resize] is the only place that sets them), so the model keeps the list
    and reads "next" as "the following entry".  The shared mutex serialises the
    operations; each operation is one step of the model.  Undo-log callbacks
    are null in the modelled configurations. *)

From S2P Require Import Prelude Chunk VecSpec.

Section vec.
  Context {T : Type} `{Inhabited T}.
  (** [elems_per_chunk_ = num_entries = (DEFAULT_CHUNK_SIZE - 128) / sizeof(T)] *)
  Variable elems_per_chunk : nat.

Record mem_chunked_vec : Type := mk_vec {
  capacity_ : Z;               (* total capacity in records *)
  available_slots_ : Z;        (* total number of available slots *)
  chunk_list_ : list (chunk T);
  free_list_ : list Z          (* offsets of chunks with empty slots *)
}.

(** [mem_chunked_vec()] and [clear()] *)
Definition new_vec : mem_chunked_vec := mk_vec 0 0 [] [].

Definition clear (v : mem_chunked_vec) : mem_chunked_vec := mk_vec 0 0 [] [].

Definition set_chunks (f : list (chunk T) → list (chunk T)) (v : mem_chunked_vec) :=
  mk_vec (capacity_ v) (available_slots_ v) (f (chunk_list_ v)) (free_list_ v).
Definition set_available (f : Z → Z) (v : mem_chunked_vec) :=
  mk_vec (capacity_ v) (f (available_slots_ v)) (chunk_list_ v) (free_list_ v).
Definition set_free_list (f : list Z → list Z) (v : mem_chunked_vec) :=
  mk_vec (capacity_ v) (available_slots_ v) (chunk_list_ v) (f (free_list_ v)).

Definition is_full (v : mem_chunked_vec) : bool := bool_decide (available_slots_ v = 0).
Definition num_chunks (v : mem_chunked_vec) : nat := length (chunk_list_ v).

(** [add_to_free_list], [remove_from_free_list], [find_in_free_list] ([front()]
    of an empty vector is undefined). *)
Definition add_to_free_list (idx : Z) : mem_chunked_vec → mem_chunked_vec :=
  set_free_list (λ l, l ++ [idx]).
Definition remove_from_free_list (idx : Z) : mem_chunked_vec → mem_chunked_vec :=
  set_free_list (λ l, filter (λ i, i ≠ idx) l).
Definition find_in_free_list (v : mem_chunked_vec) : res Z :=
  match free_list_ v with [] => Exn undefined_behaviour | i :: _ => Val i end.

(** [find_chunk(idx)] and the position of [idx] on its chunk. *)
Definition find_chunk (v : mem_chunked_vec) (idx : Z) : res nat :=
  let k := Z.to_nat (idx / Z.of_nat elems_per_chunk) in
  if (length (chunk_list_ v) <=? k)%nat then Exn index_out_of_range else Val k.
Definition slot_of (idx : Z) : nat := Z.to_nat (idx mod Z.of_nat elems_per_chunk).

Definition chunk_at (v : mem_chunked_vec) (k : nat) : res (chunk T) :=
  match chunk_list_ v !! k with Some c => Val c | None => Exn undefined_behaviour end.

(** [resize(nchunks)] *)
Definition add_chunk (v : mem_chunked_vec) : mem_chunked_vec :=
  let v1 := set_chunks (λ l, l ++ [new_chunk elems_per_chunk]) v in
  let n := Z.of_nat elems_per_chunk in
  let v2 := mk_vec (capacity_ v1 + n) (u64 (available_slots_ v1 + n))
                   (chunk_list_ v1) (free_list_ v1) in
  add_to_free_list (Z.of_nat ((num_chunks v2 - 1) * elems_per_chunk)) v2.

Definition resize (nchunks : nat) (v : mem_chunked_vec) : mem_chunked_vec :=
  let n := Z.of_nat elems_per_chunk in
  if bool_decide (chunk_list_ v = []) then
    Nat.iter (nchunks - 1) add_chunk
      (add_to_free_list 0 (mk_vec n n [new_chunk elems_per_chunk] (free_list_ v)))
  else Nat.iter nchunks add_chunk v.

(** [ch->set(pos, b)] and [ch->data_[pos] = o] on the [k]-th chunk. *)
Definition set_slot (k pos : nat) (b : bool) : mem_chunked_vec → mem_chunked_vec :=
  set_chunks (alter (λ c, chunk_set elems_per_chunk c pos b) k).
Definition write_loc (l : loc) (o : T) : mem_chunked_vec → mem_chunked_vec :=
  set_chunks (alter (λ c, chunk_write c l.2 o) l.1).
Definition read_loc (v : mem_chunked_vec) (l : loc) : option T :=
  c ← chunk_list_ v !! l.1; data_ c !! l.2.

(** [store_at(idx, o)] *)
Definition store_at (idx : Z) (o : T) : M mem_chunked_vec unit := λ v,
  match find_chunk v idx with
  | Exn e => (v, Exn e)
  | Val k =>
    let pos := slot_of idx in
    let v1 := write_loc (k, pos) o v in
    match (c ← chunk_at v1 k; chunk_is_used c pos) : res bool with
    | Exn e => (v1, Exn e)
    | Val is_used =>
      let v2 := set_slot k pos true v1 in
      let v3 := if is_used then v2 else set_available (λ a, u64 (a - 1)) v2 in
      match chunk_at v3 k with
      | Exn e => (v3, Exn e)
      | Val c => (if chunk_is_full c then remove_from_free_list idx v3 else v3, Val tt)
      end
    end
  end.

(** The common tail of [append] and [store]: reserve the first available slot
    of the [k]-th chunk, whose records start at offset [offs].  The returned
    pair is the offset handed out and the address of the record. *)
Definition put_in_chunk (k : nat) (offs : Z) (o : T) : M mem_chunked_vec (Z * loc) := λ v,
  match chunk_at v k with
  | Exn e => (v, Exn e)
  | Val c =>
    match chunk_first_available c with
    | None => (v, Exn assertion_failed)
    | Some pos =>
      let v1 := set_available (λ a, u64 (a - 1)) v in
      let v2 := write_loc (k, pos) o (set_slot k pos true v1) in
      match chunk_at v2 k with
      | Exn e => (v2, Exn e)
      | Val c' =>
        (if chunk_is_full c' then remove_from_free_list offs v2 else v2,
         Val (offs + Z.of_nat pos, (k, pos)))
      end
    end
  end.

(** [append(o)] *)
Definition append (o : T) : M mem_chunked_vec (Z * loc) := λ v,
  let v1 := if is_full v then resize 1 v else v in
  match chunk_at v1 (num_chunks v1 - 1) with
  | Exn e => (v1, Exn e)
  | Val tail =>
    let v2 := if chunk_is_full tail then resize 1 v1 else v1 in
    put_in_chunk (num_chunks v2 - 1) (Z.of_nat ((num_chunks v2 - 1) * elems_per_chunk)) o v2
  end.

(** [store(o)] *)
Definition store (o : T) : M mem_chunked_vec (Z * loc) := λ v,
  if bool_decide (free_list_ v = []) then
    let v1 := resize 1 v in
    match find_in_free_list v1 with
    | Exn e => (v1, Exn e)
    | Val idx => put_in_chunk (num_chunks v1 - 1) idx o v1
    end
  else
    match find_in_free_list v with
    | Exn e => (v, Exn e)
    | Val idx =>
      match find_chunk v idx with
      | Exn e => (v, Exn e)
      | Val k => put_in_chunk k idx o v
      end
    end.

(** [erase(idx)] *)
Definition erase (idx : Z) : M mem_chunked_vec unit := λ v,
  match find_chunk v idx with
  | Exn e => (v, Exn e)
  | Val k =>
    match chunk_at v k with
    | Exn e => (v, Exn e)
    | Val c =>
      let was_full := chunk_is_full c in
      let pos := slot_of idx in
      match chunk_is_used c pos with
      | Exn e => (v, Exn e)
      | Val used =>
        let v1 := if used then set_available (λ a, u64 (a + 1)) v else v in
        let v2 := set_slot k pos false v1 in
        (if was_full then add_to_free_list idx v2 else v2, Val tt)
      end
    end
  end.

(** [first_available()] ([UNKNOWN] when there is none) *)
Fixpoint first_available_from (l : list (chunk T)) (offs : Z) : Z :=
  match l with
  | [] => UNKNOWN
  | c :: l' =>
    match chunk_first_available c with
    | Some first => offs + Z.of_nat first
    | None => first_available_from l' (offs + Z.of_nat elems_per_chunk)
    end
  end.
Definition first_available (v : mem_chunked_vec) : Z :=
  if bool_decide (available_slots_ v = 0) then UNKNOWN
  else first_available_from (chunk_list_ v) 0.

(** [last_used()]; the [SIZE_MAX] of an empty last chunk is added modulo 2^64. *)
Definition last_used (v : mem_chunked_vec) : Z :=
  match last (chunk_list_ v) with
  | None => UNKNOWN
  | Some ch =>
    let lu := match chunk_last_used elems_per_chunk ch with
              | Some p => Z.of_nat p | None => two64 - 1 end in
    u64 (Z.of_nat ((num_chunks v - 1) * elems_per_chunk) + lu)
  end.

(** [is_used(i)] *)
Definition is_used (v : mem_chunked_vec) (i : Z) : res bool :=
  k ← find_chunk v i; c ← chunk_at v k; chunk_is_used c (slot_of i).

(** [at(idx)] and [const_at(idx)]: the address of the record. *)
Definition at_ (v : mem_chunked_vec) (idx : Z) : res loc :=
  k ← find_chunk v idx;
  c ← chunk_at v k;
  b ← chunk_is_used c (slot_of idx);
  if (b : bool) then Val (k, slot_of idx) else Exn unknown_id.

(** ** What the vector stores *)
Definition vec_lookup (v : mem_chunked_vec) (id : Z) : option T :=
  if bool_decide (0 ≤ id) then
    c ← chunk_list_ v !! Z.to_nat (id / Z.of_nat elems_per_chunk);
    chunk_lookup c (slot_of id)
  else None.

Definition total_free (l : list (chunk T)) : nat := sum_list (chunk_nfree <$> l).

(** What readers rely on: every chunk is well formed and both counters are what
    the chunks say (the available slots modulo 2^64, as that counter is also
    decremented). *)
Record mvec_rd (v : mem_chunked_vec) : Prop := {
  wf_chunks : Forall (chunk_wf elems_per_chunk) (chunk_list_ v);
  wf_capacity : capacity_ v = Z.of_nat (num_chunks v * elems_per_chunk);
  wf_available : available_slots_ v = u64 (Z.of_nat (total_free (chunk_list_ v)))
}.

(** The invariant: in addition, the free list is exactly the start offsets of
    the chunks with room, without repetitions. *)
Record vec_wf (v : mem_chunked_vec) : Prop := {
  wf_rd :> mvec_rd v;
  wf_nodup : NoDup (free_list_ v);
  wf_free_list : ∀ x, x ∈ free_list_ v ↔
    ∃ k c, chunk_list_ v !! k = Some c ∧ chunk_is_full c = false
           ∧ x = Z.of_nat (k * elems_per_chunk)
}.

(** ** Lemmas *)
Context (Hn : (0 < elems_per_chunk)%nat) (Hn64 : Z.of_nat elems_per_chunk < two64).

Definition id_of (k p : nat) : Z := Z.of_nat (k * elems_per_chunk) + Z.of_nat p.

Lemma id_of_chunk k p :
  (p < elems_per_chunk)%nat → Z.to_nat (id_of k p / Z.of_nat elems_per_chunk) = k.
Proof.
  intros Hp. unfold id_of. rewrite Nat2Z.inj_mul, Z.add_comm, Z.div_add, Z.div_small by lia. lia.
Qed.

Lemma id_of_slot k p : (p < elems_per_chunk)%nat → slot_of (id_of k p) = p.
Proof.
  intros Hp. unfold slot_of, id_of.
  rewrite Nat2Z.inj_mul, Z.add_comm, Z.mod_add, Z.mod_small by lia. lia.
Qed.

Lemma id_of_split id :
  0 ≤ id → ∃ k p, (p < elems_per_chunk)%nat ∧ id = id_of k p.
Proof.
  intros Hid. exists (Z.to_nat (id / Z.of_nat elems_per_chunk)), (slot_of id).
  unfold slot_of, id_of.
  pose proof (Z.mod_pos_bound id (Z.of_nat elems_per_chunk) ltac:(lia)).
  pose proof (Z.div_pos id (Z.of_nat elems_per_chunk) Hid ltac:(lia)).
  pose proof (Z.div_mod id (Z.of_nat elems_per_chunk) ltac:(lia)). split; [lia|].
  rewrite Nat2Z.inj_mul, !Z2Nat.id by lia. lia.
Qed.

Lemma id_of_inj k p k' p' :
  (p < elems_per_chunk)%nat → (p' < elems_per_chunk)%nat →
  id_of k p = id_of k' p' → k = k' ∧ p = p'.
Proof.
  intros Hp Hp' Heq. split.
  - by rewrite <-(id_of_chunk k p), Heq, id_of_chunk.
  - by rewrite <-(id_of_slot k p), Heq, id_of_slot.
Qed.

Lemma id_of_nonneg k p : 0 ≤ id_of k p.
Proof. unfold id_of. lia. Qed.

Lemma find_chunk_id v k p :
  (p < elems_per_chunk)%nat → (k < num_chunks v)%nat → find_chunk v (id_of k p) = Val k.
Proof.
  intros Hp Hk. unfold find_chunk. rewrite id_of_chunk by done.
  unfold num_chunks in Hk. by rewrite (proj2 (Nat.leb_gt _ _)).
Qed.

Lemma vec_lookup_id v k p :
  (p < elems_per_chunk)%nat →
  vec_lookup v (id_of k p) = c ← chunk_list_ v !! k; chunk_lookup c p.
Proof.
  intros Hp. unfold vec_lookup. rewrite bool_decide_eq_true_2 by apply id_of_nonneg.
  by rewrite id_of_chunk, id_of_slot.
Qed.

Lemma vec_lookup_neg v id : id < 0 → vec_lookup v id = None.
Proof. intros. unfold vec_lookup. by rewrite bool_decide_eq_false_2 by lia. Qed.

(** Two vectors store the same records when their chunks do. *)
Lemma vec_lookup_ext v v' :
  (∀ k p, (p < elems_per_chunk)%nat →
    (c ← chunk_list_ v !! k; chunk_lookup c p) = (c ← chunk_list_ v' !! k; chunk_lookup c p)) →
  ∀ id, vec_lookup v id = vec_lookup v' id.
Proof.
  intros Hext id. destruct (decide (0 ≤ id)).
  - destruct (id_of_split id) as (k & q & ? & ->); [done|]. rewrite !vec_lookup_id by done. auto.
  - by rewrite !vec_lookup_neg by lia.
Qed.

(** Changing what one chunk stores in one slot changes one record. *)
Lemma vec_lookup_replace v v' k p c c' (r : option T) :
  (p < elems_per_chunk)%nat → chunk_list_ v !! k = Some c →
  chunk_list_ v' = <[k := c']> (chunk_list_ v) →
  (∀ j, chunk_lookup c' j = if decide (j = p) then r else chunk_lookup c j) →
  ∀ j, vec_lookup v' j = if decide (j = id_of k p) then r else vec_lookup v j.
Proof.
  intros Hp Hk Hcl Hlook j. destruct (decide (0 ≤ j)) as [Hj|Hj].
  - destruct (id_of_split j Hj) as (k' & p' & Hp' & ->). rewrite !vec_lookup_id, Hcl by done.
    destruct (decide (k' = k)) as [->|Hne].
    + rewrite list_lookup_insert_eq, Hk by (by eapply lookup_lt_Some). simpl. rewrite Hlook.
      destruct (decide (p' = p)) as [->|]; [by rewrite decide_True|].
      rewrite decide_False; [done|]. by intros [_ ?]%id_of_inj.
    + rewrite list_lookup_insert_ne by done. rewrite decide_False; [done|].
      by intros [? _]%id_of_inj.
  - rewrite !vec_lookup_neg by lia. rewrite decide_False; [done|].
    pose proof (id_of_nonneg k p). lia.
Qed.

Lemma total_free_insert (l : list (chunk T)) k c c' :
  l !! k = Some c →
  (total_free (<[k := c']> l) + chunk_nfree c = total_free l + chunk_nfree c')%nat.
Proof.
  unfold total_free. revert k. induction l as [|x l IH]; intros [|k] Hk; simplify_eq/=; [lia|].
  specialize (IH _ Hk). lia.
Qed.

Lemma total_free_app (l1 l2 : list (chunk T)) :
  total_free (l1 ++ l2) = (total_free l1 + total_free l2)%nat.
Proof. unfold total_free. by rewrite fmap_app, sum_list_with_app. Qed.

Lemma chunk_not_full_nfree c : chunk_is_full (T:=T) c = false → (0 < chunk_nfree c)%nat.
Proof.
  unfold chunk_is_full, chunk_nfree. induction (slots_ c) as [|[] l IH]; [done| |].
  - intros. rewrite filter_cons_False by done. auto.
  - intros _. rewrite filter_cons_True by done. simpl. lia.
Qed.

Lemma new_chunk_not_full : chunk_is_full (T:=T) (new_chunk elems_per_chunk) = false.
Proof. unfold chunk_is_full, new_chunk; simpl. destruct elems_per_chunk; [lia|done]. Qed.

(** Adding one chunk, in whichever branch of [resize]. *)
Lemma resize_1 v :
  mvec_rd v →
  resize 1 v = mk_vec (Z.of_nat (S (num_chunks v) * elems_per_chunk))
    (u64 (Z.of_nat (total_free (chunk_list_ v) + elems_per_chunk)))
    (chunk_list_ v ++ [new_chunk elems_per_chunk])
    (free_list_ v ++ [Z.of_nat (num_chunks v * elems_per_chunk)]).
Proof.
  intros [Hc Hcap Hav]. unfold resize, num_chunks in *. case_bool_decide as E.
  - simpl. unfold add_to_free_list, set_free_list; simpl. rewrite E. simpl.
    f_equal; [lia|]. unfold u64. rewrite Z.mod_small; lia.
  - simpl. unfold add_chunk, add_to_free_list, set_free_list, set_chunks, num_chunks; simpl.
    rewrite Hcap, Hav, length_app; simpl. f_equal.
    + lia.
    + unfold u64. rewrite Zplus_mod_idemp_l. f_equal. lia.
    + do 3 f_equal. lia.
Qed.

Lemma resize_1_rd v : mvec_rd v → mvec_rd (resize 1 v).
Proof.
  intros Hwf. rewrite resize_1 by done. destruct Hwf as [Hc Hcap Hav].
  split; simpl; unfold num_chunks in *; simpl.
  - apply Forall_app_2; [done|]. repeat constructor; apply new_chunk_wf.
  - rewrite length_app. simpl. lia.
  - rewrite total_free_app. assert (total_free [new_chunk (T:=T) elems_per_chunk] = elems_per_chunk) as ->.
    { unfold total_free. cbn -[new_chunk chunk_nfree]. rewrite chunk_nfree_new. lia. }
    done.
Qed.

Lemma resize_1_wf v : vec_wf v → vec_wf (resize 1 v).
Proof.
  intros Hwf. split; [by apply resize_1_rd, Hwf| |]; rewrite resize_1 by apply Hwf;
    destruct Hwf as [[Hc Hcap Hav] Hnd Hfl]; simpl; unfold num_chunks in *; simpl.
  - apply NoDup_app. split; [done|]. split; [|apply NoDup_singleton].
    intros x (k & c & Hk & _ & ->)%Hfl Hin%list_elem_of_singleton.
    apply lookup_lt_Some in Hk. nia.
  - intros x. rewrite elem_of_app, Hfl, list_elem_of_singleton. split.
    + intros [(k & c & Hk & ? & ->)| ->].
      * exists k, c. split; [|done]. by apply lookup_app_l_Some.
      * eexists _, _. split; [apply list_lookup_middle; reflexivity|].
        split; [apply new_chunk_not_full|done].
    + intros (k & c & [Hk|[Hk1 Hk2]]%lookup_app_Some & Hfull & ->); [by left; eauto|].
      right. apply list_lookup_singleton_Some in Hk2 as [Hk2 _].
      do 2 f_equal. lia.
Qed.

Lemma resize_1_lookup v id : mvec_rd v → vec_lookup (resize 1 v) id = vec_lookup v id.
Proof.
  intros Hwf. apply vec_lookup_ext. intros k p Hp. rewrite resize_1 by done. simpl.
  destruct (decide (k < length (chunk_list_ v))%nat) as [Hlt|Hge].
  - by rewrite lookup_app_l.
  - rewrite lookup_app_r, (lookup_ge_None_2 (chunk_list_ v)) by lia.
    destruct (k - _)%nat as [|k']; simpl; [apply chunk_lookup_new|done].
Qed.

Lemma write_set_slot v k p o c :
  chunk_list_ v !! k = Some c →
  write_loc (k, p) o (set_slot k p true v) =
    set_chunks (insert k (chunk_write (chunk_set elems_per_chunk c p true) p o)) v.
Proof.
  intros Hk. unfold write_loc, set_slot, set_chunks; simpl.
  rewrite (list_alter_Some_insert (chunk_list_ v) _ _ c) by done.
  erewrite list_alter_Some_insert by (apply list_lookup_insert_eq; by eapply lookup_lt_Some).
  by rewrite list_insert_insert_eq.
Qed.

(** The common tail of [append] and [store], whatever offset it is given. *)
Lemma put_in_chunk_eq v k c offs o :
  chunk_wf elems_per_chunk c → chunk_list_ v !! k = Some c → chunk_is_full c = false →
  let p := first_ c in
  let c' := chunk_write (chunk_set elems_per_chunk c p true) p o in
  put_in_chunk k offs o v =
    (mk_vec (capacity_ v) (u64 (available_slots_ v - 1)) (<[k := c']> (chunk_list_ v))
       (if chunk_is_full c' then filter (λ i, i ≠ offs) (free_list_ v) else free_list_ v),
     Val (offs + Z.of_nat p, (k, p))).
Proof.
  intros Hcw Hk Hfull p c'.
  destruct (chunk_not_full_first elems_per_chunk c Hcw Hfull) as [Hlt Hfa].
  unfold put_in_chunk. unfold chunk_at at 1. rewrite Hk, Hfa. cbv zeta.
  rewrite (write_set_slot _ _ _ _ c) by done. fold p c'.
  unfold chunk_at; simpl. rewrite list_lookup_insert_eq by (by eapply lookup_lt_Some).
  unfold remove_from_free_list, set_free_list; simpl.
  by destruct (chunk_is_full c').
Qed.

(** Reserving a slot on a chunk with room: what [put_in_chunk] does. *)
Lemma put_in_chunk_spec v k c o :
  vec_wf v → chunk_list_ v !! k = Some c → chunk_is_full c = false →
  ∃ p c', (p < elems_per_chunk)%nat
    ∧ chunk_lookup c p = None
    ∧ (∀ j, chunk_lookup c' j = if decide (j = p) then Some o else chunk_lookup c j)
    ∧ chunk_wf elems_per_chunk c' ∧ S (chunk_nfree c') = chunk_nfree c
    ∧ let offs := Z.of_nat (k * elems_per_chunk) in
      put_in_chunk k offs o v =
        (mk_vec (capacity_ v) (u64 (available_slots_ v - 1)) (<[k := c']> (chunk_list_ v))
           (if chunk_is_full c' then filter (λ i, i ≠ offs) (free_list_ v) else free_list_ v),
         Val (id_of k p, (k, p))).
Proof.
  intros Hwf Hk Hfull.
  assert (chunk_wf elems_per_chunk c) as Hcw.
  { eapply Forall_lookup_1; [apply (wf_chunks _ Hwf)|done]. }
  destruct (chunk_not_full_first elems_per_chunk c Hcw Hfull) as [Hlt Hfa].
  pose proof Hcw as [Hd Hs Hf Hb Ha].
  specialize (Ha Hlt). set (p := first_ c) in *.
  set (c' := chunk_write (chunk_set elems_per_chunk c p true) p o).
  exists p, c'. split_and!; [done| | | | |].
  - unfold chunk_lookup. by rewrite Ha.
  - intros j. unfold c'. rewrite chunk_lookup_write by (rewrite chunk_set_data; lia).
    destruct (decide (p = j)) as [->|Hne].
    + rewrite (decide_True (P := j = j)) by done. rewrite chunk_set_slots.
      by rewrite list_lookup_insert_eq by lia.
    + rewrite (decide_False (P := j = p)) by done.
      rewrite chunk_lookup_set_true. by rewrite decide_False by naive_solver.
  - unfold c'. auto with poseidon.
  - pose proof (chunk_nfree_set elems_per_chunk c p true ltac:(lia)) as Hnf.
    rewrite decide_True in Hnf by done. unfold c'. unfold chunk_nfree in *. simpl in *. lia.
  - cbv zeta. by apply put_in_chunk_eq.
Qed.

Lemma u64_pred (m : nat) : u64 (u64 (Z.of_nat (S m)) - 1) = u64 (Z.of_nat m).
Proof. unfold u64. rewrite Zminus_mod_idemp_l. f_equal. lia. Qed.

Lemma u64_succ (m : nat) : u64 (u64 (Z.of_nat m) + 1) = u64 (Z.of_nat (S m)).
Proof. unfold u64. rewrite Zplus_mod_idemp_l. f_equal. lia. Qed.

Lemma replace_chunk_rd v k c c' avail fl :
  mvec_rd v → chunk_list_ v !! k = Some c → chunk_wf elems_per_chunk c' →
  avail = u64 (Z.of_nat (total_free (<[k := c']> (chunk_list_ v)))) →
  mvec_rd (mk_vec (capacity_ v) avail (<[k := c']> (chunk_list_ v)) fl).
Proof.
  intros [Hc Hcap Hav] Hk Hc' ->.
  split; unfold num_chunks in *; simpl; [by apply Forall_insert|by rewrite length_insert|done].
Qed.

(** Replacing one chunk, with the free list kept exact, keeps the invariant. *)
Lemma replace_chunk_wf v k c c' avail fl :
  vec_wf v → chunk_list_ v !! k = Some c → chunk_wf elems_per_chunk c' →
  avail = u64 (Z.of_nat (total_free (<[k := c']> (chunk_list_ v)))) →
  NoDup fl →
  (∀ x, x ∈ fl ↔ (x ∈ free_list_ v ∧ x ≠ Z.of_nat (k * elems_per_chunk))
                 ∨ (chunk_is_full c' = false ∧ x = Z.of_nat (k * elems_per_chunk))) →
  vec_wf (mk_vec (capacity_ v) avail (<[k := c']> (chunk_list_ v)) fl).
Proof.
  intros [Hrd Hnd Hfl] Hk Hc' Hav' Hnd' Hfl'. split; [by eapply replace_chunk_rd|done|]. simpl.
  intros x. rewrite Hfl', Hfl. split.
  - intros [[(i & ci & Hi & ? & ->) Hne]|[? ->]].
    + exists i, ci. rewrite list_lookup_insert_ne; [done|]. intros ->. done.
    + exists k, c'. by rewrite list_lookup_insert_eq by (by eapply lookup_lt_Some).
  - intros (i & ci & Hi & ? & ->). destruct (decide (i = k)) as [->|Hne].
    + rewrite list_lookup_insert_eq in Hi by (by eapply lookup_lt_Some). naive_solver.
    + rewrite list_lookup_insert_ne in Hi by done. left. split; [by eauto|]. nia.
Qed.

Lemma put_in_chunk_wf v k c o v' r :
  vec_wf v → chunk_list_ v !! k = Some c → chunk_is_full c = false →
  put_in_chunk k (Z.of_nat (k * elems_per_chunk)) o v = (v', r) →
  ∃ p, (p < elems_per_chunk)%nat ∧ r = Val (id_of k p, (k, p))
    ∧ vec_lookup v (id_of k p) = None
    ∧ (∀ j, vec_lookup v' j = if decide (j = id_of k p) then Some o else vec_lookup v j)
    ∧ vec_wf v' ∧ num_chunks v' = num_chunks v.
Proof.
  intros Hwf Hk Hfull Hput.
  destruct (put_in_chunk_spec v k c o Hwf Hk Hfull)
    as (p & c' & Hp & Hnone & Hlook & Hcw & Hnf & Heq).
  rewrite Heq in Hput. simplify_eq. exists p. split_and!; try done.
  - rewrite vec_lookup_id, Hk by done. done.
  - by eapply vec_lookup_replace.
  - eapply replace_chunk_wf; [done|done|done| | |].
    + pose proof (total_free_insert _ _ _ c' Hk). rewrite (wf_available _ Hwf).
      replace (total_free (chunk_list_ v)) with (S (total_free (<[k:=c']> (chunk_list_ v)))) by lia.
      apply u64_pred.
    + destruct (chunk_is_full c'); [apply NoDup_filter|]; apply Hwf.
    + assert (Z.of_nat (k * elems_per_chunk) ∈ free_list_ v) by (apply Hwf; eauto).
      intros x. destruct (chunk_is_full c'); [rewrite list_elem_of_filter; naive_solver|].
      destruct (decide (x = Z.of_nat (k * elems_per_chunk))); naive_solver.
  - unfold num_chunks; simpl. by rewrite length_insert.
Qed.

(** [store] hands out an unused id, records the value there, touches no other
    record, and keeps the invariant; it does not fail. *)
Lemma store_correct v o :
  vec_wf v →
  ∃ k p v', store o v = (v', Val (id_of k p, (k, p))) ∧ (p < elems_per_chunk)%nat
    ∧ vec_lookup v (id_of k p) = None
    ∧ (∀ j, vec_lookup v' j = if decide (j = id_of k p) then Some o else vec_lookup v j)
    ∧ vec_wf v' ∧ (k < num_chunks v')%nat ∧ (num_chunks v ≤ num_chunks v' ≤ S (num_chunks v))%nat.
Proof.
  intros Hwf. unfold store. case_bool_decide as Hfl.
  - rewrite resize_1 by apply Hwf. rewrite Hfl. simpl.
    pose proof (resize_1_wf v Hwf) as Hwf1. rewrite resize_1, Hfl in Hwf1 by apply Hwf. simpl in Hwf1.
    destruct (put_in_chunk _ _ _ _) as [v' r] eqn:Hput.
    unfold num_chunks at 1 in Hput; simpl in Hput. rewrite length_app in Hput; simpl in Hput.
    rewrite Nat.add_sub in Hput. fold (num_chunks v) in Hput.
    apply (put_in_chunk_wf _ _ (new_chunk elems_per_chunk)) in Hput
      as (p & Hp & -> & Hnone & Hlook & Hwf' & Hnum); [|done| |apply new_chunk_not_full].
    2:{ apply list_lookup_middle. done. }
    exists (num_chunks v), p, v'. split; [done|]. split; [done|].
    rewrite <-(resize_1_lookup v) by apply Hwf. rewrite resize_1, Hfl by apply Hwf. split; [done|].
    split; [|split; [done|]].
    + intros j. rewrite Hlook. rewrite <-(resize_1_lookup v) by apply Hwf. rewrite resize_1, Hfl by apply Hwf. done.
    + rewrite Hnum. unfold num_chunks; simpl. rewrite length_app. simpl. lia.
  - destruct (free_list_ v) as [|x fl] eqn:Efl; [done|]. unfold find_in_free_list. rewrite Efl.
    destruct (proj1 (wf_free_list _ Hwf x)) as (k & c & Hk & Hfull & ->);
      [rewrite Efl; by left|].
    pose proof (lookup_lt_Some _ _ _ Hk) as Hlt.
    pose proof (find_chunk_id v k 0 Hn Hlt) as Hfind. unfold id_of in Hfind.
    rewrite Z.add_0_r in Hfind. rewrite Hfind.
    destruct (put_in_chunk _ _ _ _) as [v' r] eqn:Hput.
    apply (put_in_chunk_wf _ _ c) in Hput
      as (p & Hp & -> & Hnone & Hlook & Hwf' & Hnum); [|done..].
    exists k, p, v'. rewrite Hnum. split_and!; done || lia.
Qed.

(** The record at an id: [at] finds the address of exactly the used records. *)
Lemma at_correct v id :
  mvec_rd v → 0 ≤ id →
  match vec_lookup v id with
  | Some x => ∃ l, at_ v id = Val l ∧ read_loc v l = Some x
  | None => at_ v id = Exn (if bool_decide (id < Z.of_nat (num_chunks v * elems_per_chunk))
                           then unknown_id else index_out_of_range)
  end.
Proof.
  intros Hwf Hid. destruct (id_of_split id Hid) as (k & p & Hp & ->).
  rewrite vec_lookup_id by done. unfold at_.
  destruct (decide (k < num_chunks v)%nat) as [Hlt|Hge].
  - rewrite find_chunk_id by done. simpl. unfold chunk_at.
    destruct (lookup_lt_is_Some_2 (chunk_list_ v) k Hlt) as [c Hk]. rewrite Hk. simpl.
    assert (chunk_wf elems_per_chunk c) as [Hd Hs _ _ _]
      by (eapply Forall_lookup_1; [apply (wf_chunks _ Hwf)|done]).
    rewrite id_of_slot by done. unfold chunk_is_used, chunk_lookup.
    destruct (lookup_lt_is_Some_2 (slots_ c) p ltac:(lia)) as [b Hb].
    destruct (lookup_lt_is_Some_2 (data_ c) p ltac:(lia)) as [x Hx]. rewrite Hb. simpl.
    destruct b; [rewrite Hx|].
    + eexists; split; [done|]. unfold read_loc; simpl. by rewrite Hk.
    + rewrite bool_decide_eq_true_2; [done|]. unfold id_of. nia.
  - unfold num_chunks in *. rewrite lookup_ge_None_2 by lia. simpl.
    unfold find_chunk. rewrite id_of_chunk by done. rewrite (proj2 (Nat.leb_le _ _)) by lia.
    rewrite bool_decide_eq_false_2; [done|]. unfold id_of. nia.
Qed.

(** Assigning through a reference changes that record and nothing else. *)
Lemma write_loc_eq v id l o :
  mvec_rd v → 0 ≤ id → at_ v id = Val l →
  ∃ k p c, id = id_of k p ∧ (p < elems_per_chunk)%nat ∧ chunk_list_ v !! k = Some c
    ∧ chunk_wf elems_per_chunk c ∧ slots_ c !! p = Some true
    ∧ write_loc l o v = mk_vec (capacity_ v) (available_slots_ v)
        (<[k := chunk_write c p o]> (chunk_list_ v)) (free_list_ v).
Proof.
  intros Hwf Hid Hat. destruct (id_of_split id Hid) as (k & p & Hp & ->).
  unfold at_ in Hat. destruct (decide (k < num_chunks v)%nat) as [Hlt|Hge].
  2:{ unfold find_chunk, num_chunks in *. rewrite id_of_chunk in Hat by done.
      by rewrite (proj2 (Nat.leb_le _ _)) in Hat by lia. }
  destruct (lookup_lt_is_Some_2 (chunk_list_ v) k Hlt) as [c Hk].
  rewrite find_chunk_id in Hat by done. simpl in Hat.
  unfold chunk_at in Hat. rewrite Hk, id_of_slot in Hat by done. simpl in Hat.
  unfold chunk_is_used in Hat. destruct (slots_ c !! p) as [[]|] eqn:Hs; simplify_eq/=.
  exists k, p, c. split_and!; try done.
  - eapply Forall_lookup_1; [apply (wf_chunks _ Hwf)|done].
  - unfold write_loc, set_chunks; simpl. f_equal. by apply (list_alter_Some_insert _ _ (λ c, chunk_write c p o)).
Qed.

Lemma write_loc_lookup v id l o :
  mvec_rd v → 0 ≤ id → at_ v id = Val l →
  mvec_rd (write_loc l o v) ∧ num_chunks (write_loc l o v) = num_chunks v
  ∧ ∀ j, vec_lookup (write_loc l o v) j = if decide (j = id) then Some o else vec_lookup v j.
Proof.
  intros Hwf Hid Hat. destruct (write_loc_eq v id l o Hwf Hid Hat) as (k & p & c & -> & Hp & Hk & Hcw & Hs & ->).
  split_and!; [|by unfold num_chunks; simpl; rewrite length_insert|].
  - eapply replace_chunk_rd; [done|done|auto with poseidon|].
    pose proof (total_free_insert _ _ _ (chunk_write c p o) Hk) as Hfree.
    unfold chunk_nfree in Hfree; simpl in Hfree. rewrite (wf_available _ Hwf). do 2 f_equal. lia.
  - eapply vec_lookup_replace; [done|done|done|]. intros j.
    rewrite chunk_lookup_write by (destruct Hcw; lia).
    destruct (decide (p = j)) as [<-|]; [rewrite (decide_True (P := p = p)) by done|].
    + by rewrite decide_True.
    + by rewrite decide_False.
Qed.

Lemma write_loc_correct v id l o :
  vec_wf v → 0 ≤ id → at_ v id = Val l → vec_wf (write_loc l o v).
Proof.
  intros Hwf Hid Hat. destruct (write_loc_lookup v id l o Hwf Hid Hat) as (Hrd & _).
  destruct (write_loc_eq v id l o Hwf Hid Hat) as (k & p & c & -> & Hp & Hk & Hcw & Hs & Heq).
  rewrite Heq in *. eapply replace_chunk_wf; [done|done|auto with poseidon| |apply Hwf|].
  - exact (wf_available _ Hrd).
  - intros y. unfold chunk_is_full; simpl. fold (chunk_is_full c).
    destruct (decide (y = Z.of_nat (k * elems_per_chunk))) as [->|]; [|naive_solver].
    rewrite (wf_free_list _ Hwf). split; [|naive_solver].
    intros (i & ci & Hi & Hfi & Heq'). assert (i = k) as -> by nia. naive_solver.
Qed.

(** What [erase] does to a record of an existing chunk. *)
Lemma erase_spec v k p c :
  mvec_rd v → (p < elems_per_chunk)%nat → chunk_list_ v !! k = Some c →
  erase (id_of k p) v =
    (mk_vec (capacity_ v)
       (if decide (slots_ c !! p = Some true) then u64 (available_slots_ v + 1)
        else available_slots_ v)
       (<[k := chunk_set elems_per_chunk c p false]> (chunk_list_ v))
       (if chunk_is_full c then free_list_ v ++ [id_of k p] else free_list_ v), Val tt).
Proof.
  intros Hwf Hp Hk. unfold erase.
  assert (chunk_wf elems_per_chunk c) as Hcw by (eapply Forall_lookup_1; [apply Hwf|done]).
  rewrite find_chunk_id by (try done; by eapply lookup_lt_Some).
  unfold chunk_at. rewrite Hk. cbv zeta. rewrite id_of_slot by done. unfold chunk_is_used.
  destruct (lookup_lt_is_Some_2 (slots_ c) p) as [b Hb]; [destruct Hcw; lia|]. rewrite Hb.
  unfold set_slot, set_chunks, set_available, add_to_free_list, set_free_list; simpl.
  destruct b; [rewrite decide_True by done|rewrite decide_False by done]; simpl;
    rewrite (list_alter_Some_insert (chunk_list_ v) _ _ c) by done;
    by destruct (chunk_is_full c).
Qed.

Lemma chunk_set_false_not_full c p :
  (p < length (slots_ (T:=T) c))%nat → chunk_is_full (chunk_set elems_per_chunk c p false) = false.
Proof.
  intros Hp. apply not_true_iff_false. rewrite chunk_is_full_spec. intros Hall.
  specialize (Hall p). rewrite chunk_set_slots, length_insert, list_lookup_insert_eq in Hall by done.
  naive_solver.
Qed.

Lemma chunk_full_set_false_first c p :
  chunk_wf (T:=T) elems_per_chunk c → chunk_is_full c = true → (p < elems_per_chunk)%nat →
  first_ (chunk_set elems_per_chunk c p false) = p.
Proof.
  intros Hcw Hfull%(chunk_is_full_wf _ _ Hcw) Hp. unfold chunk_set. rewrite Hfull. simpl.
  by rewrite (proj2 (Nat.ltb_lt _ _)).
Qed.

(** No chunk on the free list: all of them are full. *)
Lemma wf_free_list_nil v k c :
  vec_wf v → free_list_ v = [] → chunk_list_ v !! k = Some c → chunk_is_full c = true.
Proof.
  intros Hwf Hfl Hc. destruct (chunk_is_full c) eqn:E; [done|].
  assert (Z.of_nat (k * elems_per_chunk) ∈ free_list_ v) as Hin by (apply (wf_free_list _ Hwf); eauto).
  rewrite Hfl in Hin. by apply elem_of_nil in Hin.
Qed.

(** [erase] makes the id unused and touches no other record.  It keeps the
    invariant when the chunk was not full, or when the record is the first of
    its chunk. *)
Lemma erase_correct v k p c :
  mvec_rd v → (p < elems_per_chunk)%nat → chunk_list_ v !! k = Some c →
  ∃ v', erase (id_of k p) v = (v', Val tt)
    ∧ (∀ j, vec_lookup v' j = if decide (j = id_of k p) then None else vec_lookup v j)
    ∧ num_chunks v' = num_chunks v ∧ mvec_rd v'
    ∧ (vec_wf v → chunk_is_full c = false ∨ p = 0%nat → vec_wf v').
Proof.
  intros Hrd Hp Hk. rewrite (erase_spec v k p c) by done. eexists; split; [done|].
  assert (chunk_wf elems_per_chunk c) as Hcw by (eapply Forall_lookup_1; [apply Hrd|done]).
  assert (p < length (slots_ c))%nat as Hps by (destruct Hcw; lia).
  assert ((if decide (slots_ c !! p = Some true) then u64 (available_slots_ v + 1) else available_slots_ v)
    = u64 (Z.of_nat (total_free (<[k:=chunk_set elems_per_chunk c p false]> (chunk_list_ v))))) as Hav.
  { pose proof (total_free_insert _ _ _ (chunk_set elems_per_chunk c p false) Hk) as Ht.
    pose proof (chunk_nfree_set elems_per_chunk c p false Hps) as Hnf.
    rewrite (wf_available _ Hrd). destruct (lookup_lt_is_Some_2 (slots_ c) p Hps) as [b Hb].
    rewrite Hb in *. destruct b.
    - rewrite decide_True by done. rewrite decide_False in Hnf by done.
      rewrite u64_succ. do 2 f_equal. lia.
    - rewrite decide_False by done. rewrite decide_True in Hnf by done. do 2 f_equal. lia. }
  split_and!.
  - eapply vec_lookup_replace; [done|done|done|]. intros j.
    rewrite chunk_lookup_set_false by done.
    destruct (decide (p = j)) as [<-|]; [by rewrite decide_True|by rewrite decide_False].
  - unfold num_chunks; simpl. by rewrite length_insert.
  - eapply replace_chunk_rd; [done|done|auto with poseidon|done].
  - intros Hwf Hcase. eapply replace_chunk_wf; [done|done|auto with poseidon|done| |].
    + destruct (chunk_is_full c) eqn:Hfull; [|apply Hwf]. destruct Hcase as [?| ->]; [done|].
      apply NoDup_app. split; [apply Hwf|]. split; [|apply NoDup_singleton].
      intros x Hx ->%list_elem_of_singleton.
      apply (wf_free_list _ Hwf) in Hx as (i & ci & Hi & Hfi & Heq).
      unfold id_of in Heq. assert (i = k) as -> by nia. congruence.
    + intros x. rewrite chunk_set_false_not_full by done.
      destruct (chunk_is_full c) eqn:Hfull.
      * destruct Hcase as [?| ->]; [done|].
        rewrite elem_of_app, list_elem_of_singleton. unfold id_of. rewrite Z.add_0_r.
        destruct (decide (x = Z.of_nat (k * elems_per_chunk))); naive_solver.
      * assert (Z.of_nat (k * elems_per_chunk) ∈ free_list_ v) by (apply Hwf; eauto).
        destruct (decide (x = Z.of_nat (k * elems_per_chunk))); naive_solver.
Qed.

(** [append] writes behind the last chunk's used records, growing the vector
    when there is no room; like [store] it hands out an unused id. *)
Lemma append_correct v o :
  vec_wf v →
  ∃ k p v', append o v = (v', Val (id_of k p, (k, p))) ∧ (p < elems_per_chunk)%nat
    ∧ vec_lookup v (id_of k p) = None
    ∧ (∀ j, vec_lookup v' j = if decide (j = id_of k p) then Some o else vec_lookup v j)
    ∧ vec_wf v' ∧ k = (num_chunks v' - 1)%nat ∧ (num_chunks v ≤ num_chunks v' ≤ S (num_chunks v))%nat.
Proof.
  intros Hwf. unfold append.
  set (v1 := if is_full v then resize 1 v else v).
  assert (vec_wf v1 ∧ (0 < num_chunks v1)%nat
          ∧ (num_chunks v1 = num_chunks v ∨ num_chunks v1 = S (num_chunks v)
             ∧ chunk_list_ v1 !! num_chunks v = Some (new_chunk elems_per_chunk))%nat
          ∧ ∀ j, vec_lookup v1 j = vec_lookup v j) as (Hwf1 & Hnum1 & Hle1 & Hlook1).
  { unfold v1, is_full. case_bool_decide as E.
    - split; [by apply resize_1_wf|]. rewrite resize_1 by apply Hwf. unfold num_chunks; simpl.
      rewrite length_app; simpl. split; [lia|].
      split; [right; split; [lia|by apply list_lookup_middle]|].
      intros j. rewrite <-(resize_1_lookup v j) by apply Hwf. rewrite resize_1 by apply Hwf. done.
    - split; [done|]. split; [|by auto]. unfold num_chunks.
      destruct (chunk_list_ v) eqn:El; [|simpl; lia].
      destruct E. rewrite (wf_available _ Hwf), El. done. }
  destruct (lookup_lt_is_Some_2 (chunk_list_ v1) (num_chunks v1 - 1)) as [tail Htail];
    [unfold num_chunks in *; lia|].
  unfold chunk_at. rewrite Htail.
  set (v2 := if chunk_is_full tail then resize 1 v1 else v1).
  assert (vec_wf v2 ∧ (num_chunks v ≤ num_chunks v2 ≤ S (num_chunks v))%nat
          ∧ (∀ j, vec_lookup v2 j = vec_lookup v1 j)
          ∧ ∃ c, chunk_list_ v2 !! (num_chunks v2 - 1)%nat = Some c ∧ chunk_is_full c = false)
    as (Hwf2 & Hle2 & Hlook2 & c & Hc & Hcfull).
  { unfold v2. destruct (chunk_is_full tail) eqn:Etail.
    2:{ split; [done|]. split; [lia|]. eauto 10. }
    split; [by apply resize_1_wf|]. split; [|split; [intros; apply resize_1_lookup, Hwf1|]].
    - rewrite resize_1 by apply Hwf1. destruct Hle1 as [Hle1|[Hle1 Hnew]].
      + unfold num_chunks in *; simpl. rewrite length_app. simpl. lia.
      + exfalso. rewrite Hle1, Nat.sub_1_r in Htail. simpl in Htail. rewrite Hnew in Htail.
        injection Htail as <-. by rewrite new_chunk_not_full in Etail.
    - exists (new_chunk elems_per_chunk). split; [|apply new_chunk_not_full].
      rewrite resize_1 by apply Hwf1. unfold num_chunks; simpl. rewrite length_app. simpl.
      apply list_lookup_middle. lia. }
  destruct (put_in_chunk _ _ _ _) as [v' r] eqn:Hput.
  apply (put_in_chunk_wf _ _ c) in Hput as (p & Hp & -> & Hnone & Hlook & Hwf' & Hnum); [|done..].
  exists (num_chunks v2 - 1)%nat, p, v'. rewrite Hnum. split_and!; try done; [| |lia..].
  - by rewrite <-Hlook1, <-Hlook2.
  - intros j. by rewrite Hlook, Hlook2, Hlook1.
Qed.

Lemma at_write_loc v l o j : at_ (write_loc l o v) j = at_ v j.
Proof.
  unfold at_, find_chunk, chunk_at, write_loc, set_chunks; simpl. rewrite length_alter.
  destruct (_ <=? _)%nat; [done|]. simpl.
  destruct (decide (l.1 = Z.to_nat (j / Z.of_nat elems_per_chunk))) as [->|Hne].
  - rewrite list_lookup_alter_eq. by destruct (chunk_list_ v !! _).
  - by rewrite list_lookup_alter_ne.
Qed.

Lemma vec_lookup_bounds v id x :
  mvec_rd v → vec_lookup v id = Some x → 0 ≤ id < capacity_ v.
Proof.
  intros Hwf Hx. destruct (decide (0 ≤ id)) as [Hid|]; [|by rewrite vec_lookup_neg in Hx by lia].
  destruct (id_of_split id Hid) as (k & p & Hp & ->). rewrite vec_lookup_id in Hx by done.
  destruct (chunk_list_ v !! k) as [c|] eqn:Hk; [|done].
  rewrite (wf_capacity _ Hwf). apply lookup_lt_Some in Hk. unfold id_of, num_chunks in *. nia.
Qed.

Lemma new_vec_wf : vec_wf new_vec.
Proof.
  split; simpl; [by split|constructor|]. intros x. split; [by intros ?%elem_of_nil|].
  intros (? & ? & [=] & _).
Qed.

(** ** Filling the first available slot *)
Lemma chunk_set_write c p b o :
  chunk_set elems_per_chunk (chunk_write (T:=T) c p o) p b = chunk_write (chunk_set elems_per_chunk c p b) p o.
Proof.
  unfold chunk_set, chunk_write; simpl. destruct (_ && _); [done|]. destruct (_ && _); [|done].
  by destruct (scan_free _ _).
Qed.

Lemma first_available_from_spec l offs :
  Forall (chunk_wf elems_per_chunk) l → (0 < total_free l)%nat →
  ∃ k c, l !! k = Some c ∧ chunk_is_full c = false
    ∧ first_available_from l offs = offs + Z.of_nat (k * elems_per_chunk) + Z.of_nat (first_ c).
Proof.
  intros Hwf. revert offs. induction Hwf as [|c l Hc _ IH]; intros offs Hfree; [unfold total_free in Hfree; simpl in Hfree; lia|].
  simpl. destruct (chunk_is_full c) eqn:E.
  - assert (chunk_first_available c = None) as ->.
    { unfold chunk_first_available. by rewrite E. }
    assert (chunk_nfree c = 0%nat) as Hn0.
    { destruct (chunk_nfree c) eqn:En; [done|]. exfalso. rewrite chunk_is_full_spec in E.
      unfold chunk_nfree in En. destruct (filter _ _) as [|b fl] eqn:Ef; [done|].
      assert (b ∈ filter (λ b, b = false) (slots_ c)) as Hb by (rewrite Ef; constructor).
      apply list_elem_of_filter in Hb as [-> [i Hi]%list_elem_of_lookup].
      rewrite E in Hi by (by eapply lookup_lt_Some). done. }
    change (total_free (c :: l)) with (chunk_nfree c + total_free l)%nat in Hfree.
    destruct (IH (offs + Z.of_nat elems_per_chunk)) as (k & c' & Hk & Hf & ->); [lia|].
    exists (S k), c'. split_and!; [done|done|lia].
  - destruct (chunk_not_full_first elems_per_chunk c Hc E) as [_ ->]. exists 0%nat, c.
    split_and!; [done|done|lia].
Qed.

(** What [store_at] does to a slot of an existing chunk, used or not. *)
Lemma store_at_any v k p c o :
  mvec_rd v → (p < elems_per_chunk)%nat → chunk_list_ v !! k = Some c →
  ∃ v', store_at (id_of k p) o v = (v', Val tt) ∧ mvec_rd v'
    ∧ (∀ j, vec_lookup v' j = if decide (j = id_of k p) then Some o else vec_lookup v j)
    ∧ chunk_list_ v' = <[k := chunk_write (chunk_set elems_per_chunk c p true) p o]> (chunk_list_ v)
    ∧ free_list_ v' =
        if chunk_is_full (chunk_set elems_per_chunk c p true)
        then filter (λ i, i ≠ id_of k p) (free_list_ v) else free_list_ v.
Proof.
  intros Hrd Hp Hk.
  assert (chunk_wf elems_per_chunk c) as Hcw by (eapply Forall_lookup_1; [apply Hrd|done]).
  pose proof Hcw as [Hd Hs _ _ _]. assert (p < length (slots_ c))%nat as Hps by lia.
  destruct (lookup_lt_is_Some_2 (slots_ c) p Hps) as [b Hb].
  set (c' := chunk_write (chunk_set elems_per_chunk c p true) p o).
  assert (store_at (id_of k p) o v =
    (mk_vec (capacity_ v) (if b then available_slots_ v else u64 (available_slots_ v - 1)) (<[k := c']> (chunk_list_ v))
       (if chunk_is_full c' then filter (λ i, i ≠ id_of k p) (free_list_ v) else free_list_ v), Val tt)) as ->.
  { unfold store_at. rewrite find_chunk_id by (done || by eapply lookup_lt_Some). cbv zeta.
    rewrite id_of_slot by done. unfold write_loc, set_chunks; simpl.
    rewrite (list_alter_Some_insert (chunk_list_ v) k (λ c, chunk_write c p o) c) by done.
    unfold chunk_at at 1; simpl. rewrite list_lookup_insert_eq by (by eapply lookup_lt_Some). simpl.
    unfold chunk_is_used; simpl. rewrite Hb. unfold set_slot, set_chunks, set_available; simpl.
    rewrite (list_alter_Some_insert _ k (λ c, chunk_set elems_per_chunk c p true) (chunk_write c p o))
      by (apply list_lookup_insert_eq; by eapply lookup_lt_Some).
    rewrite list_insert_insert_eq, chunk_set_write. fold c'. destruct b; unfold chunk_at; simpl.
    all: rewrite list_lookup_insert_eq by (by eapply lookup_lt_Some).
    all: unfold remove_from_free_list, set_free_list; simpl; by destruct (chunk_is_full c'). }
  eexists. split; [done|]. split_and!; [| |done|done].
  - eapply replace_chunk_rd; [done|done|unfold c'; auto with poseidon|].
    pose proof (total_free_insert _ _ _ c' Hk) as Ht.
    pose proof (chunk_nfree_set elems_per_chunk c p true Hps) as Hnf.
    assert (chunk_nfree c' = chunk_nfree (chunk_set elems_per_chunk c p true)) as Heq by done.
    rewrite Hb in Hnf. rewrite (wf_available _ Hrd). destruct b.
    + rewrite decide_False in Hnf by done. do 2 f_equal. lia.
    + rewrite decide_True in Hnf by done.
      replace (total_free (chunk_list_ v)) with (S (total_free (<[k:=c']> (chunk_list_ v)))) by lia.
      apply u64_pred.
  - eapply vec_lookup_replace; [done|done|done|]. intros j. unfold c'.
    rewrite chunk_lookup_write by (rewrite chunk_set_data; lia).
    destruct (decide (p = j)) as [<-|Hne].
    + rewrite chunk_set_slots. rewrite list_lookup_insert_eq by lia. by rewrite !decide_True.
    + rewrite (decide_False (P := j = p)) by done.
      rewrite chunk_lookup_set_true. by rewrite decide_False by naive_solver.
Qed.
Lemma store_at_spec v k c o :
  mvec_rd v → chunk_list_ v !! k = Some c → chunk_is_full c = false →
  ∃ v', store_at (id_of k (first_ c)) o v = (v', Val tt) ∧ mvec_rd v'
    ∧ (∀ j, vec_lookup v' j = if decide (j = id_of k (first_ c)) then Some o else vec_lookup v j)
    ∧ chunk_list_ v' =
        <[k := chunk_write (chunk_set elems_per_chunk c (first_ c) true) (first_ c) o]> (chunk_list_ v)
    ∧ free_list_ v' =
        if chunk_is_full (chunk_set elems_per_chunk c (first_ c) true)
        then filter (λ i, i ≠ id_of k (first_ c)) (free_list_ v) else free_list_ v.
Proof.
  intros Hrd Hk Hfull. apply store_at_any; [done| |done].
  apply chunk_not_full_first; [|done]. eapply Forall_lookup_1; [apply Hrd|done].
Qed.

Lemma fill_correct v o :
  mvec_rd v → capacity_ v + Z.of_nat elems_per_chunk ≤ UNKNOWN →
  let v1 := if is_full v then resize 1 v else v in
  let id := first_available v1 in
  id ≠ UNKNOWN ∧ 0 ≤ id ∧ vec_lookup v id = None
  ∧ ∃ v', store_at id o v1 = (v', Val tt) ∧ mvec_rd v'
    ∧ (∀ j, vec_lookup v' j = if decide (j = id) then Some o else vec_lookup v j)
    ∧ capacity_ v ≤ capacity_ v' ≤ capacity_ v + Z.of_nat elems_per_chunk.
Proof.
  intros Hrd Hroom v1 id.
  assert (mvec_rd v1 ∧ (∀ j, vec_lookup v1 j = vec_lookup v j) ∧ capacity_ v1 ≤ UNKNOWN
          ∧ (0 < total_free (chunk_list_ v1))%nat ∧ available_slots_ v1 ≠ 0)
    as (Hrd1 & Hlook1 & Hcap1 & Hfree1 & Hav1).
  { unfold v1, is_full. case_bool_decide as E.
    - split; [by apply resize_1_rd|]. split; [intros; by apply resize_1_lookup|].
      rewrite resize_1 by done; simpl. rewrite (wf_available _ Hrd) in E. rewrite (wf_capacity _ Hrd) in Hroom.
      assert (total_free (chunk_list_ v ++ [new_chunk elems_per_chunk])
              = total_free (chunk_list_ v) + elems_per_chunk)%nat as ->.
      { rewrite total_free_app. f_equal. unfold total_free. cbn -[new_chunk chunk_nfree].
        rewrite chunk_nfree_new. lia. }
      split_and!; [nia|lia|]. unfold u64 in *. rewrite Nat2Z.inj_add, <-Zplus_mod_idemp_l, E.
      rewrite Z.mod_small by lia. lia.
    - split; [done|]. split; [done|]. split; [lia|]. rewrite (wf_available _ Hrd) in *.
      split; [|done]. destruct (total_free (chunk_list_ v)); [done|lia]. }
  destruct (first_available_from_spec (chunk_list_ v1) 0) as (k & c & Hk & Hf & Hid);
    [apply Hrd1|done|].
  assert (id = id_of k (first_ c)) as Heq.
  { unfold id, first_available. rewrite bool_decide_eq_false_2 by done. rewrite Hid. unfold id_of. lia. }
  assert (chunk_wf elems_per_chunk c) as Hcw by (eapply Forall_lookup_1; [apply Hrd1|done]).
  destruct (chunk_not_full_first elems_per_chunk c Hcw Hf) as [Hlt _].
  rewrite Heq. split_and!.
  - rewrite (wf_capacity _ Hrd1) in Hcap1. apply lookup_lt_Some in Hk. unfold id_of, num_chunks in *. nia.
  - apply id_of_nonneg.
  - rewrite <-Hlook1, vec_lookup_id, Hk by done. simpl. unfold chunk_lookup.
    by rewrite (wf_at _ _ Hcw) by done.
  - destruct (store_at_spec v1 k c o Hrd1 Hk Hf) as (v' & Hst & Hrd' & Hlook & Hch & _).
    exists v'. split; [done|]. split; [done|]. split; [intros j; by rewrite Hlook, Hlook1|].
    rewrite (wf_capacity _ Hrd'). unfold num_chunks. rewrite Hch, length_insert.
    fold (num_chunks v1). rewrite <-(wf_capacity _ Hrd1). unfold v1.
    destruct (is_full v); [|lia]. rewrite resize_1 by done. simpl. rewrite (wf_capacity _ Hrd). lia.
Qed.

(** Writing back what was read changes nothing. *)
Lemma write_loc_same (v : mem_chunked_vec) l o : read_loc v l = Some o → write_loc l o v = v.
Proof.
  unfold read_loc, write_loc, set_chunks. intros (c & Hc & Ho)%bind_Some.
  rewrite (list_alter_Some_insert (chunk_list_ v) _ _ c) by done.
  unfold chunk_write. rewrite (list_insert_id (data_ c)) by done.
  replace (mk_chunk (data_ c) (slots_ c) (first_ c)) with c by (by destruct c).
  rewrite list_insert_id by done. by destruct v.
Qed.

(** A record can be erased without misaligning the free list when its chunk is
    not full or when it is the first record of its chunk. *)
Definition erasable (v : mem_chunked_vec) (id : Z) : Prop :=
  slot_of id = 0%nat ∨
  ∃ c, chunk_list_ v !! Z.to_nat (id / Z.of_nat elems_per_chunk) = Some c
       ∧ chunk_is_full c = false.
End vec.
Arguments mem_chunked_vec : clear implicits.

(** ** The implementation meets the interface *)
#[export, refine] Instance chunked_vec_Vec (n : nat) (Hn : (0 < n)%nat)
    (Hn64 : Z.of_nat n < two64) : Vec mem_chunked_vec := {|
  vec_new T := new_vec;
  vec_store T _ := store n;
  vec_append T _ := append n;
  vec_erase T := erase n;
  vec_at T := at_ n;
  vec_read T := read_loc;
  vec_write T := write_loc;
  vec_capacity T := capacity_;
  vec_is_full T := is_full;
  vec_resize T _ := resize n;
  vec_first_available T := first_available n;
  vec_store_at T := store_at n;
  vec_rd T := mvec_rd n;
  vec_ok T := vec_wf n;
  vec_get T := vec_lookup n;
  vec_erasable T := erasable n;
  vec_grow := Z.of_nat n
|}.
Proof.
  - lia.
  - intros. by apply wf_rd.
  - intros. apply new_vec_wf.
  - intros. unfold vec_lookup, new_vec; simpl. by case_bool_decide.
  - intros T ? v o Hwf.
    destruct (store_correct n Hn Hn64 v o Hwf) as (k & p & v' & Hst & Hp & Hnone & Hlook & Hwf' & Hk & Hnum).
    exists (id_of n k p), (k, p), v'. split_and!; [done|done|by apply id_of_nonneg|done| |done| |];
      [|rewrite (wf_capacity n v Hwf), (wf_capacity n v' Hwf'); nia..].
    pose proof (at_correct n Hn v' (id_of n k p) Hwf' (id_of_nonneg n Hn k p)) as Hat.
    rewrite Hlook, decide_True in Hat by done. destruct Hat as (l & Hl & _). rewrite Hl.
    unfold at_ in Hl. rewrite find_chunk_id in Hl by done. simpl in Hl.
    destruct (chunk_at v' k) as [c|]; [|done]. simpl in Hl.
    destruct (chunk_is_used c _) as [[]|]; simplify_eq/=. by rewrite id_of_slot.
  - intros T ? v o Hwf.
    destruct (append_correct n Hn Hn64 v o Hwf) as (k & p & v' & Hst & Hp & Hnone & Hlook & Hwf' & Hk & Hnum).
    exists (id_of n k p), (k, p), v'. split_and!; [done|done|by apply id_of_nonneg|done| |done| |];
      [|rewrite (wf_capacity n v Hwf), (wf_capacity n v' Hwf'); nia..].
    pose proof (at_correct n Hn v' (id_of n k p) Hwf' (id_of_nonneg n Hn k p)) as Hat.
    rewrite Hlook, decide_True in Hat by done. destruct Hat as (l & Hl & _). rewrite Hl.
    unfold at_ in Hl. destruct (find_chunk n v' _) as [k'|] eqn:Hf; [|done]. simpl in Hl.
    destruct (chunk_at v' k') as [c|]; [|done]. simpl in Hl.
    destruct (chunk_is_used c _) as [[]|]; simplify_eq/=. rewrite id_of_slot by done.
    unfold find_chunk in Hf. rewrite id_of_chunk in Hf by done. by destruct (_ <=? _)%nat; simplify_eq.
  - intros T ? v o Hrd Hroom. by apply fill_correct.
  - intros T v id x Hwf Hx. pose proof (vec_lookup_bounds n Hn v id x Hwf Hx) as [Hid _].
    pose proof (at_correct n Hn v id Hwf Hid) as Hat. by rewrite Hx in Hat.
  - intros T v id Hwf Hid Hcap Hx. pose proof (at_correct n Hn v id Hwf Hid) as Hat.
    rewrite Hx in Hat. rewrite Hat. rewrite (wf_capacity n v Hwf) in Hcap.
    by rewrite bool_decide_eq_true_2.
  - intros T v id Hwf Hcap. rewrite (wf_capacity n v Hwf) in Hcap.
    pose proof (at_correct n Hn v id Hwf ltac:(lia)) as Hat.
    destruct (vec_lookup n v id) as [x|] eqn:Hx.
    + pose proof (vec_lookup_bounds n Hn v id x Hwf Hx) as Hb. rewrite (wf_capacity n v Hwf) in Hb. lia.
    + rewrite Hat. by rewrite bool_decide_eq_false_2 by lia.
  - intros T v id l o Hwf Hid Hat.
    destruct (write_loc_lookup n Hn v id l o Hwf Hid Hat) as (? & ? & ?).
    split_and!; try done.
    + intros Hok. by eapply write_loc_correct.
    + intros. apply at_write_loc.
  - intros T v l o. by apply write_loc_same.
  - intros T v id x. by apply vec_lookup_bounds.
  - intros T v id Hwf [x Hx]. pose proof (vec_lookup_bounds n Hn v id x Hwf Hx) as [Hid _].
    destruct (id_of_split n Hn id Hid) as (k & p & Hp & ->).
    pose proof Hx as Hx'. rewrite vec_lookup_id in Hx' by done.
    destruct (chunk_list_ v !! k) as [c|] eqn:Hk; [|done].
    destruct (erase_correct n Hn v k p c Hwf Hp Hk) as (v' & He & Hlook & _ & Hrd' & Hwf').
    exists v'. split_and!; [done|done|done|]. intros Hok Her. apply Hwf'; [done|]. unfold erasable in Her.
    rewrite id_of_slot, id_of_chunk, Hk in Her by done. naive_solver.
Defined.

#[export, refine] Instance chunked_vec_Redo (n : nat) (Hn : (0 < n)%nat) (Hn64 : Z.of_nat n < two64) :
  VecRedo mem_chunked_vec (Vec0 := chunked_vec_Vec n Hn Hn64) := {| vec_store_at_ok := _ |}.
Proof.
  - intros T v id o Hrd Hid. change (mvec_rd n v) in Hrd. change (vec_capacity v) with (capacity_ v) in *.
    destruct (id_of_split n Hn id) as (k & p & Hp & ->); [lia|].
    destruct (lookup_lt_is_Some_2 (chunk_list_ v) k) as [c Hk].
    { rewrite (wf_capacity n v Hrd) in Hid. unfold id_of, num_chunks in *. nia. }
    destruct (store_at_any n Hn v k p c o Hrd Hp Hk) as (v' & E & Hrd' & Hl & Hch & _).
    exists v'. split_and!; [done|done| |done]. change (vec_capacity v') with (capacity_ v').
    rewrite (wf_capacity n v' Hrd'), (wf_capacity n v Hrd). unfold num_chunks. by rewrite Hch, length_insert.
  - intros T v id o Hrd Hid. change (mvec_rd n v) in Hrd. change (vec_capacity v) with (capacity_ v) in *.
    rewrite (wf_capacity n v Hrd) in Hid.
    change (store_at n id o v = (v, Exn index_out_of_range)). unfold store_at, find_chunk.
    assert (length (chunk_list_ v) ≤ Z.to_nat (id / Z.of_nat n))%nat as Hle.
    { apply Nat2Z.inj_le. rewrite Z2Nat.id by (apply Z.div_pos; lia). apply Z.div_le_lower_bound; [lia|]. unfold num_chunks in Hid. lia. }
    by apply Nat.leb_le in Hle as ->.
  - intros T v id Hrd Hid. change (mvec_rd n v) in Hrd. change (vec_capacity v) with (capacity_ v) in *.
    destruct (id_of_split n Hn id) as (k & p & Hp & ->); [lia|].
    destruct (lookup_lt_is_Some_2 (chunk_list_ v) k) as [c Hk].
    { rewrite (wf_capacity n v Hrd) in Hid. unfold id_of, num_chunks in *. nia. }
    destruct (erase_correct n Hn v k p c Hrd Hp Hk) as (v' & E & Hl & Hnum & Hrd' & _).
    exists v'. split_and!; [done|done| |done]. change (vec_capacity v') with (capacity_ v').
    by rewrite (wf_capacity n v' Hrd'), (wf_capacity n v Hrd), Hnum.
Qed.

(** [last_used() + 1] for a vector with chunks. *)
Lemma last_used_next {T} n (v : mem_chunked_vec T) c : (0 < n)%nat → mvec_rd n v → capacity_ v ≤ UNKNOWN → last (chunk_list_ v) = Some c →
  u64 (last_used n v + 1) = Z.of_nat ((num_chunks v - 1) * n) + match chunk_last_used n c with Some p => Z.of_nat p + 1 | None => 0 end
  ∧ (0 < num_chunks v)%nat.
Proof.
  intros Hn Hrd Hcap Hc. pose proof (wf_capacity n v Hrd) as Hw. assert (0 < num_chunks v)%nat as Hpos.
  { unfold num_chunks. destruct (chunk_list_ v); [done|cbn; lia]. }
  split; [|done]. unfold last_used. rewrite Hc. unfold u64. rewrite Zplus_mod_idemp_l.
  assert (Z.of_nat ((num_chunks v - 1) * n) + Z.of_nat n = capacity_ v) as Hsum by (rewrite Hw; nia).
  clear Hw. pose proof (Nat2Z.is_nonneg ((num_chunks v - 1) * n)) as H0. revert Hsum H0. generalize (Z.of_nat ((num_chunks v - 1) * n)). intros a Hsum H0.
  unfold UNKNOWN in *. destruct (chunk_last_used n c) as [p|] eqn:E.
  - apply chunk_last_used_lt in E; [|done]. rewrite Z.mod_small; lia.
  - replace (a + (two64 - 1) + 1) with (a + 1 * two64) by lia. rewrite Z_mod_plus_full, Z.mod_small; lia.
Qed.
#[export, refine] Instance chunked_vec_Used (n : nat) (Hn : (0 < n)%nat) (Hn64 : Z.of_nat n < two64) :
  VecUsed mem_chunked_vec (Vec0 := chunked_vec_Vec n Hn Hn64) :=
  {| vec_last_used T := last_used n; vec_is_used T := is_used n |}.
Proof.
  - intros T v Hrd Hcap. change (mvec_rd n v) in Hrd. change (vec_capacity v) with (capacity_ v) in *. change (vec_get v) with (vec_lookup n v).
    pose proof (wf_capacity n v Hrd) as Hw. destruct (last (chunk_list_ v)) as [c|] eqn:Hc.
    + destruct (last_used_next n v c Hn Hrd Hcap Hc) as [-> Hpos]. split.
      { destruct (chunk_last_used n c) as [p|] eqn:E; [apply chunk_last_used_lt in E; [|done]|]; nia. }
      intros id Hid. pose proof Hid as [x Hx]. destruct (vec_lookup_bounds n Hn v id x Hrd Hx) as [H0 H1].
      destruct (id_of_split n Hn id H0) as (k & p & Hp & ->). rewrite vec_lookup_id in Hid by done.
      destruct (chunk_list_ v !! k) as [d|] eqn:Hk; [|by destruct Hid]. cbn in Hid. pose proof (lookup_lt_Some _ _ _ Hk) as Hlt. fold (num_chunks v) in Hlt.
      unfold id_of. destruct (decide (k = num_chunks v - 1)%nat) as [->|].
      * rewrite last_lookup in Hc. change (pred (length (chunk_list_ v))) with (pred (num_chunks v)) in Hc. rewrite <-Nat.sub_1_r, Hk in Hc. injection Hc as ->.
        destruct (chunk_last_used_ok n c p) as (q & -> & Hq); [by eapply Forall_lookup_1; [apply Hrd|]|done|]. lia.
      * assert (S k * n ≤ (num_chunks v - 1) * n)%nat by (apply Nat.mul_le_mono_r; lia). destruct (chunk_last_used n c); lia.
    + apply last_None in Hc. assert (last_used n v = UNKNOWN) as -> by (unfold last_used; by rewrite Hc).
      change (u64 (UNKNOWN + 1)) with 0. split; [lia|]. intros id [x Hx]. destruct (vec_lookup_bounds n Hn v id x Hrd Hx) as [H0 H1].
      rewrite Hw in H1. unfold num_chunks in H1. rewrite Hc in H1. cbn in H1. lia.
  - intros T v id Hrd Hid. change (mvec_rd n v) in Hrd. change (vec_capacity v) with (capacity_ v) in *. change (vec_get v) with (vec_lookup n v).
    destruct (id_of_split n Hn id) as (k & p & Hp & ->); [lia|].
    destruct (lookup_lt_is_Some_2 (chunk_list_ v) k) as [c Hk]. { rewrite (wf_capacity n v Hrd) in Hid. unfold id_of, num_chunks in *. nia. }
    assert (chunk_wf n c) as Hcw by (eapply Forall_lookup_1; [apply Hrd|done]).
    unfold is_used. rewrite find_chunk_id by (done || by eapply lookup_lt_Some). cbn. unfold chunk_at. rewrite Hk. cbn. rewrite id_of_slot by done.
    rewrite vec_lookup_id, Hk by done. cbn. unfold chunk_is_used, chunk_lookup.
    destruct (lookup_lt_is_Some_2 (slots_ c) p) as [b Hb]; [destruct Hcw; lia|]. destruct (lookup_lt_is_Some_2 (data_ c) p) as [d Hd]; [destruct Hcw; lia|].
    rewrite Hb, Hd. destruct b; [by rewrite bool_decide_eq_true_2|by rewrite bool_decide_eq_false_2 by (by intros [? ?])].
Defined.

#[export] Hint Resolve new_vec_wf : poseidon.

(** ** Properties *)
Section properties.
  Context {T : Type} `{Inhabited T}.
  Variable n : nat.
  Context (Hn : (0 < n)%nat) (Hn64 : Z.of_nat n < two64).
  Implicit Types v : mem_chunked_vec T.

(** [store] on a vector that is in order never fails: it hands out an id
    that no stored record has, the record can be read back under it, every
    other record is as before, and the vector stays in order. *)
Theorem store_hands_out_fresh_id v o :
  vec_wf n v →
  ∃ id l v', store n o v = (v', Val (id, l))
    ∧ vec_lookup n v id = None ∧ at_ n v' id = Val l ∧ read_loc v' l = Some o
    ∧ (∀ j, j ≠ id → vec_lookup n v' j = vec_lookup n v j)
    ∧ vec_wf n v'.
Proof.
  intros Hwf.
  destruct (store_correct n Hn Hn64 v o Hwf) as (k & p & v' & Hst & Hp & Hnone & Hlook & Hwf' & Hk & _).
  pose proof (at_correct n Hn v' (id_of n k p) Hwf' (id_of_nonneg n Hn k p)) as Hat.
  rewrite Hlook, decide_True in Hat by done. destruct Hat as (l & Hl & Hr).
  assert (l = (k, p)) as ->.
  { unfold at_ in Hl. rewrite find_chunk_id in Hl by done. simpl in Hl.
    destruct (chunk_at v' k) as [c|]; [|done]. simpl in Hl.
    destruct (chunk_is_used c _) as [[]|]; [|done..]. simpl in Hl. injection Hl as <-.
    by rewrite id_of_slot. }
  exists (id_of n k p), (k, p), v'. split_and!; try done.
  intros j Hj. by rewrite Hlook, decide_False.
Qed.

(** When no chunk has room and a record that is not the first of its chunk
    is erased, the free list holds that record's own offset instead of the
    chunk's, and the next [store] reuses the slot but hands out an id that is
    too large by the slot number: the record is not found under it. *)
Theorem erase_full_chunk_misaligns_store v k p o :
  vec_wf n v → free_list_ v = [] → (k < num_chunks v)%nat → (0 < p < n)%nat →
  ∃ v1 v2, erase n (id_of n k p) v = (v1, Val tt)
    ∧ store n o v1 = (v2, Val (id_of n k p + Z.of_nat p, (k, p)))
    ∧ ∀ j, vec_lookup n v2 j = if decide (j = id_of n k p) then Some o else vec_lookup n v j.
Proof.
  intros Hwf Hfl Hk Hp. destruct (lookup_lt_is_Some_2 (chunk_list_ v) k Hk) as [c Hc].
  assert (chunk_wf n c) as Hcw by (eapply Forall_lookup_1; [apply (wf_chunks _ _ Hwf)|done]).
  assert (chunk_is_full c = true) as Hfull by (by eapply wf_free_list_nil).
  rewrite (erase_spec n Hn v k p c) by (done || lia || apply Hwf). rewrite Hfull, Hfl.
  set (c' := chunk_set n c p false). eexists _, _. split; [done|].
  assert (chunk_wf n c') as Hcw' by (apply chunk_set_wf; [done|lia]).
  assert (first_ c' = p) as Hfirst by (apply chunk_full_set_false_first; [done..|lia]).
  assert (p < length (slots_ c))%nat as Hps by (destruct Hcw; lia).
  unfold store; simpl. unfold find_in_free_list; simpl.
  rewrite find_chunk_id by (try lia; unfold num_chunks in *; simpl; by rewrite length_insert).
  rewrite (put_in_chunk_eq n _ _ c') by
    first [done | by apply list_lookup_insert_eq | by apply chunk_set_false_not_full].
  rewrite Hfirst. split; [done|]. eapply (vec_lookup_replace n Hn v); [lia|done|..].
  - simpl. by rewrite list_insert_insert_eq.
  - intros j. rewrite chunk_lookup_write by (unfold c'; rewrite !chunk_set_data; destruct Hcw; lia).
    rewrite chunk_set_slots. unfold c'. rewrite chunk_lookup_set_true, chunk_lookup_set_false by done.
    destruct (decide (p = j)) as [<-|]; [|by rewrite !decide_False by naive_solver].
    rewrite (decide_True (P := p = p)) by done. rewrite decide_True; [by rewrite ?decide_True|]. rewrite !chunk_set_slots. apply list_lookup_insert_eq. by rewrite length_insert.
Qed.

(** Filling the last free slot of a chunk with [store_at] leaves the chunk
    on the free list (the record's offset is removed, not the chunk's), and the
    next [store] picks the full chunk and stops at its assertion. *)
Theorem store_at_last_slot_breaks_store v k c l o o' :
  vec_wf n v → free_list_ v = Z.of_nat (k * n) :: l → chunk_list_ v !! k = Some c →
  (0 < first_ c)%nat → chunk_nfree c = 1%nat →
  ∃ v', store_at n (id_of n k (first_ c)) o v = (v', Val tt)
    ∧ store n o' v' = (v', Exn assertion_failed).
Proof.
  intros Hwf Hfl Hk Hfirst Hnf.
  assert (chunk_wf n c) as Hcw by (eapply Forall_lookup_1; [apply (wf_chunks _ _ Hwf)|done]).
  assert (chunk_is_full c = false) as Hfull.
  { assert (Z.of_nat (k * n) ∈ free_list_ v) as Hin by (rewrite Hfl; constructor).
    apply (wf_free_list _ _ Hwf) in Hin as (k' & c' & Hk' & Hf & Heq).
    assert (k' = k) as -> by nia. congruence. }
  destruct (chunk_not_full_first n c Hcw Hfull) as [Hlt _].
  destruct (store_at_spec n Hn v k c o Hwf Hk Hfull) as (v' & Hst & _ & _ & Hcl & Hfl').
  exists v'. split; [done|].
  set (c1 := chunk_set n c (first_ c) true) in *.
  assert (chunk_is_full c1 = true) as Hfull1.
  { destruct (chunk_is_full c1) eqn:E; [done|]. apply (chunk_not_full_nfree n Hn) in E.
    pose proof (chunk_nfree_set n c (first_ c) true) as Hs.
    rewrite decide_True in Hs by (by apply (wf_at _ _ Hcw)). unfold c1 in *.
    destruct Hcw as [_ Hlen _ _ _]. specialize (Hs ltac:(lia)). lia. }
  assert (free_list_ v' = Z.of_nat (k * n) :: filter (λ i, i ≠ id_of n k (first_ c)) l) as Hfl2.
  { rewrite Hfl', Hfull1, Hfl. rewrite filter_cons_True; [done|]. unfold id_of. lia. }
  unfold store. rewrite Hfl2. simpl. unfold find_in_free_list. rewrite Hfl2.
  assert (find_chunk n v' (Z.of_nat (k * n)) = Val k) as ->.
  { replace (Z.of_nat (k * n)) with (id_of n k 0) by (unfold id_of; lia).
    apply find_chunk_id; [done|lia|]. unfold num_chunks. rewrite Hcl, length_insert.
    by eapply lookup_lt_Some. }
  unfold put_in_chunk, chunk_at. rewrite Hcl, list_lookup_insert_eq by (by eapply lookup_lt_Some).
  unfold chunk_first_available. change (chunk_is_full (chunk_write c1 _ o)) with (chunk_is_full c1).
  by rewrite Hfull1.
Qed.
End properties.
