(* ===== verification/VecIter.v ===== *)
(** * VecIter: scanning a chunked vector (src/vec/mem_chunked_vec.hpp)

    [iter] is the iterator of a [for] loop over a vector; [range_iter] visits
    the chunks [first .. last] and is what parallel scans are built from.  The
    iterators are states here; a loop is the list of record addresses it
    dereferences.  The loops are bounded by fuel; [slots v] steps are enough. *)

From Stdlib Require Import Sorting.Sorted.
From stdpp Require Import sorting.
From S2P Require Import Prelude Chunk VecSpec ChunkedVec.

Section iter.
  Context {T : Type} `{Inhabited T}.
  Variable n : nat.   (* num_entries *)
  Implicit Types v : mem_chunked_vec T.

Definition slot_used (v : mem_chunked_vec T) (k p : nat) : bool :=
  match chunk_list_ v !! k with
  | Some c => match slots_ c !! p with Some b => b | None => false end
  | None => false
  end.

(** [ptr->next_] *)
Definition next_chunk (v : mem_chunked_vec T) (k : nat) : option nat :=
  if (S k <? num_chunks v)%nat then Some (S k) else None.

(** The state of [iter]; [None] is the end iterator [iter(nullptr)]. *)
Definition iter : Type := option loc.

(** [iter(ptr, p)]: skip to the first used slot of this chunk. *)
Fixpoint iter_skip (fuel : nat) (v : mem_chunked_vec T) (k p : nat) : iter :=
  match fuel with
  | O => None
  | S f => if slot_used v k p then Some (k, p) else iter_skip f v k (S p)
  end.

Definition vec_begin (v : mem_chunked_vec T) : iter :=
  match chunk_list_ v with [] => None | _ => iter_skip n v 0 0 end.

(** [operator++]; the outer [None] is missing fuel. *)
Fixpoint iter_incr (fuel : nat) (v : mem_chunked_vec T) (l : loc) : option iter :=
  match fuel with
  | O => None
  | S f =>
    let '(k, p) := l in
    if (S p =? n)%nat then
      match next_chunk v k with
      | None => Some None
      | Some k' => if slot_used v k' 0 then Some (Some (k', 0%nat)) else iter_incr f v (k', 0%nat)
      end
    else if slot_used v k (S p) then Some (Some (k, S p)) else iter_incr f v (k, S p)
  end.

(** [for (auto &x : vec) ...]: the records visited. *)
Fixpoint iter_list (fuel : nat) (v : mem_chunked_vec T) (it : iter) : option (list loc) :=
  match it with
  | None => Some []
  | Some l =>
    match fuel with
    | O => None
    | S f => it' ← iter_incr fuel v l; rest ← iter_list f v it'; Some (l :: rest)
    end
  end.

Record range_iter : Type := mk_range {
  range_ : nat * nat;
  current_chunk_ : nat;
  cptr_ : option nat;
  pos_ : nat
}.

(** [range(first, last, pos)] ([chunk_list_[first]] is undefined out of range). *)
Definition range (v : mem_chunked_vec T) (first last pos : nat) : res range_iter :=
  if (0 <? num_chunks v)%nat then
    if (first <? num_chunks v)%nat then Val (mk_range (first, last) first (Some first) pos)
    else Exn undefined_behaviour
  else Val (mk_range (first, last) first None pos).

(** [operator bool] *)
Definition range_valid (it : range_iter) : bool :=
  (current_chunk_ it <=? (range_ it).2)%nat && bool_decide (is_Some (cptr_ it)).

(** [operator++] *)
Fixpoint range_incr (fuel : nat) (v : mem_chunked_vec T) (it : range_iter) : option range_iter :=
  match fuel, cptr_ it with
  | O, _ => None
  | _, None => Some it
  | S f, Some k =>
    let it' :=
      if (S (pos_ it) =? n)%nat
      then mk_range (range_ it) (S (current_chunk_ it)) (next_chunk v k) 0
      else mk_range (range_ it) (current_chunk_ it) (Some k) (S (pos_ it)) in
    if range_valid it' && negb (match cptr_ it' with Some k' => slot_used v k' (pos_ it')
                                                   | None => false end)
    then range_incr f v it' else Some it'
  end.

(** [for (; iter; ++iter) ...]: the records visited. *)
Fixpoint range_list (fuel : nat) (v : mem_chunked_vec T) (it : range_iter) : option (list loc) :=
  if range_valid it then
    match fuel, cptr_ it with
    | S f, Some k =>
      it' ← range_incr fuel v it; rest ← range_list f v it'; Some ((k, pos_ it) :: rest)
    | _, _ => None
    end
  else Some [].

(** ** What a scan should visit *)
Context (Hn : (0 < n)%nat).

Definition loc_of (i : nat) : loc := ((i / n)%nat, (i mod n)%nat).
Definition idx_used (v : mem_chunked_vec T) (i : nat) : bool :=
  slot_used v (loc_of i).1 (loc_of i).2.

(** The used slots of the positions [lo .. hi-1], in order. *)
Definition used_between (v : mem_chunked_vec T) (lo hi : nat) : list nat :=
  filter (λ i, idx_used v i = true) (seq lo (hi - lo)).

Definition slots (v : mem_chunked_vec T) : nat := (num_chunks v * n)%nat.

Lemma used_between_nil v lo hi : (hi ≤ lo)%nat → used_between v lo hi = [].
Proof. intros. unfold used_between. by replace (hi - lo)%nat with 0%nat by lia. Qed.

Lemma used_between_cons v lo hi :
  (lo < hi)%nat →
  used_between v lo hi =
    if idx_used v lo then lo :: used_between v (S lo) hi else used_between v (S lo) hi.
Proof.
  intros. unfold used_between. replace (hi - lo)%nat with (S (hi - S lo)) by lia. simpl.
  rewrite filter_cons. destruct (idx_used v lo); by case_decide.
Qed.

Lemma loc_of_succ i :
  loc_of (S i) = if (S (i mod n) =? n)%nat then (S (i / n), 0)%nat else (i / n, S (i mod n))%nat.
Proof.
  unfold loc_of. pose proof (Nat.div_mod_eq i n).
  pose proof (Nat.mod_upper_bound i n ltac:(lia)).
  destruct (Nat.eqb_spec (S (i mod n)) n).
  - assert (S i = S (i / n) * n)%nat as -> by nia. by rewrite Nat.div_mul, Nat.Div0.mod_mul by lia.
  - assert (S i = (i / n) * n + S (i mod n))%nat as -> by nia.
    rewrite Nat.div_add_l, (Nat.div_small (S _)), Nat.add_0_r by lia.
    f_equal. rewrite Nat.add_comm, Nat.Div0.mod_add. apply Nat.mod_small. lia.
Qed.

Lemma loc_of_lt v i : (i < slots v)%nat ↔ (i / n < num_chunks v)%nat.
Proof.
  unfold slots. split; intros.
  - apply Nat.Div0.div_lt_upper_bound. lia.
  - pose proof (Nat.div_mod_eq i n). pose proof (Nat.mod_upper_bound i n ltac:(lia)). nia.
Qed.

(** One step of the iterator, in positions. *)
Lemma iter_incr_step f v i :
  (i < slots v)%nat →
  iter_incr (S f) v (loc_of i) =
    if decide (S i < slots v)%nat then
      if idx_used v (S i) then Some (Some (loc_of (S i))) else iter_incr f v (loc_of (S i))
    else Some None.
Proof.
  intros Hi. unfold idx_used. pose proof (loc_of_succ i) as Hs.
  pose proof (loc_of_lt v (S i)) as Hlt. pose proof (proj1 (loc_of_lt v i) Hi) as Hk.
  assert ((S i / n)%nat = (loc_of (S i)).1) as Hd by done. rewrite Hd, Hs in Hlt. rewrite Hs.
  unfold loc_of at 1. cbn [iter_incr]. unfold next_chunk.
  destruct (Nat.eqb_spec (S (i mod n)) n); cbn [fst snd] in *.
  - destruct (Nat.ltb_spec (S (i / n)) (num_chunks v)).
    + by rewrite decide_True by (apply Hlt; lia).
    + by rewrite decide_False by (rewrite Hlt; lia).
  - by rewrite decide_True by (apply Hlt; lia).
Qed.

Lemma iter_incr_spec f v i :
  (i < slots v)%nat → (slots v - i ≤ f)%nat →
  iter_incr f v (loc_of i) = Some (loc_of <$> head (used_between v (S i) (slots v))).
Proof.
  revert i. induction f as [|f IH]; intros i Hi Hf; [lia|].
  rewrite iter_incr_step by done. case_decide.
  - rewrite used_between_cons by lia. destruct (idx_used v (S i)); [done|]. apply IH; lia.
  - by rewrite used_between_nil by lia.
Qed.

Lemma used_between_head v lo hi i l :
  used_between v lo hi = i :: l →
  (lo ≤ i < hi)%nat ∧ idx_used v i = true ∧ l = used_between v (S i) hi.
Proof.
  remember (hi - lo)%nat as d eqn:Hd. revert lo Hd.
  induction d as [|d IH]; intros lo Hd; [by rewrite used_between_nil by lia|].
  rewrite used_between_cons by lia. destruct (idx_used v lo) eqn:E.
  - intros [= <- <-]. split; [lia|done].
  - intros Hu. apply IH in Hu; [|lia]. destruct Hu as (? & ? & ?). split; [lia|done].
Qed.

Lemma iter_list_spec f v lo :
  (slots v - lo ≤ f)%nat →
  iter_list f v (loc_of <$> head (used_between v lo (slots v))) =
    Some (loc_of <$> used_between v lo (slots v)).
Proof.
  revert lo. induction f as [|f IH]; intros lo Hf.
  - by rewrite used_between_nil by lia.
  - destruct (used_between v lo (slots v)) as [|i l] eqn:E; [done|].
    apply used_between_head in E as (Hi & _ & ->). cbn [head fmap option_fmap option_map list_fmap].
    cbn [iter_list]. rewrite iter_incr_spec by lia. simpl. rewrite IH by lia. done.
Qed.

Lemma loc_of_small p : (p < n)%nat → loc_of p = (0%nat, p).
Proof. intros. unfold loc_of. by rewrite Nat.div_small, Nat.mod_small. Qed.

Lemma iter_skip_spec f v p :
  (0 < num_chunks v)%nat → (p + f)%nat = n →
  iter_skip f v 0 p = loc_of <$> head (used_between v p n).
Proof.
  intros Hc. revert p. induction f as [|f IH]; intros p Hp.
  - by rewrite used_between_nil by lia.
  - rewrite used_between_cons by lia. unfold idx_used. rewrite loc_of_small by lia. simpl.
    destruct (slot_used v 0 p); [simpl; by rewrite loc_of_small by lia|]. apply IH. lia.
Qed.

Lemma used_between_app v lo mid hi :
  (lo ≤ mid ≤ hi)%nat →
  used_between v lo hi = used_between v lo mid ++ used_between v mid hi.
Proof.
  intros. unfold used_between. replace (hi - lo)%nat with ((mid - lo) + (hi - mid))%nat by lia.
  rewrite seq_app, filter_app. by replace (lo + (mid - lo))%nat with mid by lia.
Qed.

(** *** [range_iter] *)
Definition range_at (v : mem_chunked_vec T) (first last i : nat) : range_iter :=
  mk_range (first, last) (i / n) (if (i / n <? num_chunks v)%nat then Some (i / n)%nat else None)
    (i mod n).

Definition range_hi (v : mem_chunked_vec T) (last : nat) : nat := (slots v `min` (S last * n))%nat.

Lemma range_at_valid v first last i :
  range_valid (range_at v first last i) = true ↔ (i < range_hi v last)%nat.
Proof.
  unfold range_valid, range_at, range_hi; simpl. rewrite andb_true_iff, Nat.leb_le, bool_decide_eq_true.
  rewrite Nat.min_glb_lt_iff, loc_of_lt.
  assert (i < S last * n ↔ i / n ≤ last)%nat as ->.
  { pose proof (Nat.div_mod_eq i n). pose proof (Nat.mod_upper_bound i n ltac:(lia)). split; nia. }
  destruct (Nat.ltb_spec (i / n) (num_chunks v)).
  - split; [intros [? _]; done|]. intros [? ?]; eauto.
  - split; [intros [_ [? ?]]; done|lia].
Qed.

Lemma range_incr_step f v first last i :
  (i < range_hi v last)%nat →
  range_incr (S f) v (range_at v first last i) =
    if decide (S i < range_hi v last)%nat then
      if idx_used v (S i) then Some (range_at v first last (S i))
      else range_incr f v (range_at v first last (S i))
    else Some (range_at v first last (S i)).
Proof.
  intros Hi. pose proof (loc_of_succ i) as Hs.
  assert (i / n < num_chunks v)%nat as Hk by (apply loc_of_lt; unfold range_hi in *; lia).
  assert ((if (S (i mod n) =? n)%nat
    then mk_range (first, last) (S (i / n)) (next_chunk v (i / n)) 0
    else mk_range (first, last) (i / n) (Some (i / n)%nat) (S (i mod n)))
    = range_at v first last (S i)) as Hst.
  { unfold range_at, loc_of in *. unfold next_chunk.
    destruct (Nat.eqb_spec (S (i mod n)) n); injection Hs as -> ->; [done|].
    by rewrite (proj2 (Nat.ltb_lt _ _)). }
  unfold range_at at 1. cbn [range_incr cptr_ pos_ range_ current_chunk_].
  rewrite (proj2 (Nat.ltb_lt _ _)) by done. rewrite Hst.
  pose proof (range_at_valid v first last (S i)) as Hv. case_decide as Hd.
  - rewrite (proj2 Hv) by done. unfold idx_used, range_at, loc_of at 1; simpl.
    rewrite (proj2 (Nat.ltb_lt _ _)) by (apply loc_of_lt; unfold range_hi in *; lia).
    unfold loc_of. simpl. destruct (slot_used v _ _); done.
  - destruct (range_valid _); [|done]. exfalso. apply Hd. tauto.
Qed.

Lemma range_incr_spec f v first last i :
  (i < range_hi v last)%nat → (range_hi v last - i ≤ f)%nat →
  range_incr f v (range_at v first last i) =
    Some (range_at v first last
      (default (range_hi v last) (head (used_between v (S i) (range_hi v last))))).
Proof.
  revert i. induction f as [|f IH]; intros i Hi Hf; [lia|].
  rewrite range_incr_step by done. case_decide.
  - rewrite used_between_cons by lia. destruct (idx_used v (S i)); [done|]. apply IH; lia.
  - rewrite used_between_nil by lia. simpl. do 2 f_equal. lia.
Qed.

Lemma range_list_spec f v first last i :
  (i < range_hi v last)%nat → (range_hi v last - i ≤ f)%nat →
  range_list f v (range_at v first last i) =
    Some (loc_of i :: (loc_of <$> used_between v (S i) (range_hi v last))).
Proof.
  revert i. induction f as [|f IH]; intros i Hi Hf; [lia|].
  cbn [range_list]. rewrite (proj2 (range_at_valid _ _ _ _)) by done.
  rewrite range_incr_spec by lia. unfold range_at at 1. cbn [cptr_ pos_].
  rewrite (proj2 (Nat.ltb_lt _ _)) by (apply loc_of_lt; unfold range_hi in *; lia).
  destruct (used_between v (S i) _) as [|j l] eqn:E; simpl.
  - assert (range_valid (range_at v first last (range_hi v last)) = false) as Hv.
    { apply not_true_iff_false. rewrite range_at_valid. lia. }
    destruct f; cbn [range_list]; by rewrite Hv.
  - apply used_between_head in E as (Hj & _ & ->). rewrite IH by lia. done.
Qed.

(** *** The positions visited are the records stored *)
Lemma idx_used_lookup v i :
  mvec_rd n v → idx_used v i = true ↔ is_Some (vec_lookup n v (Z.of_nat i)).
Proof.
  intros Hwf. unfold idx_used, slot_used, vec_lookup, loc_of, slot_of; cbn [fst snd].
  rewrite bool_decide_eq_true_2 by lia. rewrite <-Nat2Z.inj_div, <-Nat2Z.inj_mod, !Nat2Z.id.
  destruct (chunk_list_ v !! (i / n)%nat) as [c|] eqn:Hc; simpl;
    [|split; [done|by intros [? ?]]].
  assert (chunk_wf n c) as [Hd Hs _ _ _] by (eapply Forall_lookup_1; [apply (wf_chunks _ _ Hwf)|done]).
  unfold chunk_lookup. pose proof (Nat.mod_upper_bound i n ltac:(lia)).
  destruct (lookup_lt_is_Some_2 (slots_ c) (i mod n)) as [b Hb]; [lia|].
  destruct (lookup_lt_is_Some_2 (data_ c) (i mod n)) as [x Hx]; [lia|].
  rewrite Hb, Hx. destruct b; split; first [done | by intros [? ?] | eauto].
Qed.

Lemma elem_of_used_between v lo hi i :
  mvec_rd n v →
  i ∈ used_between v lo hi ↔ (lo ≤ i < hi)%nat ∧ is_Some (vec_lookup n v (Z.of_nat i)).
Proof.
  intros Hwf. unfold used_between. rewrite list_elem_of_filter, idx_used_lookup by done.
  rewrite elem_of_seq. split; intros [? ?]; split; try done; lia.
Qed.

Lemma lookup_slots v i x :
  mvec_rd n v → vec_lookup n v (Z.of_nat i) = Some x → (i < slots v)%nat.
Proof.
  intros Hwf Hx. pose proof (vec_lookup_bounds n Hn v _ _ Hwf Hx) as Hb.
  rewrite (wf_capacity _ _ Hwf) in Hb. unfold slots. lia.
Qed.

Lemma used_between_sorted v lo hi : StronglySorted lt (used_between v lo hi).
Proof.
  unfold used_between. generalize (hi - lo)%nat. intros d. revert lo.
  induction d as [|d IH]; intros lo; [constructor|]. simpl. rewrite filter_cons.
  assert (Forall (lt lo) (filter (λ i, idx_used v i = true) (seq (S lo) d))).
  { apply Forall_forall. intros j [_ Hj%elem_of_seq]%list_elem_of_filter. lia. }
  case_decide; [by constructor|done].
Qed.

Lemma vec_begin_spec v :
  (0 < num_chunks v)%nat → vec_begin v = loc_of <$> head (used_between v 0 n).
Proof.
  intros Hc. unfold vec_begin. rewrite <-(iter_skip_spec n) by lia.
  unfold num_chunks in Hc. destruct (chunk_list_ v); [simpl in Hc; lia|done].
Qed.

(** Scanning follows the used positions. *)
Definition dense (v : mem_chunked_vec T) : Prop :=
  (num_chunks v = 0 ∨ ∃ i, i < n ∧ is_Some (vec_lookup n v (Z.of_nat i)))%nat.

Lemma begin_used v : mvec_rd n v → dense v → vec_begin v = loc_of <$> head (used_between v 0 (slots v)).
Proof.
  intros Hrd Hcase. destruct (decide (num_chunks v = 0%nat)) as [E|].
  - rewrite used_between_nil by (unfold slots; lia). unfold vec_begin, num_chunks in *.
    by destruct (chunk_list_ v).
  - rewrite vec_begin_spec by lia. f_equal. rewrite (used_between_app v 0 n (slots v)) by (unfold slots; nia).
    destruct (used_between v 0 n) eqn:E; [|done]. exfalso. destruct Hcase as [?|(i & Hi & His)]; [done|].
    apply (not_elem_of_nil i). rewrite <-E. apply elem_of_used_between; [done|]. split; [lia|done].
Qed.

Lemma at_loc_of v i : mvec_rd n v → is_Some (vec_lookup n v (Z.of_nat i)) →
  at_ n v (Z.of_nat i) = Val (loc_of i) ∧ read_loc v (loc_of i) = vec_lookup n v (Z.of_nat i).
Proof.
  intros Hwf [x Hx]. rewrite Hx. pose proof (at_correct n Hn v (Z.of_nat i) Hwf ltac:(lia)) as Hat.
  rewrite Hx in Hat. destruct Hat as (l & Hl & Hr).
  assert (l = loc_of i) as ->; [|done]. clear Hr. unfold at_, find_chunk, slot_of in Hl.
  rewrite <-Nat2Z.inj_div, <-Nat2Z.inj_mod, !Nat2Z.id in Hl. destruct (_ <=? _)%nat; [done|].
  simpl in Hl. destruct (chunk_at v _); [|done]. simpl in Hl.
  destruct (chunk_is_used _ _) as [[]|]; by simplify_eq/=.
Qed.

Lemma used_next v lo hi i j : used_between v lo hi !! i = Some j →
  head (used_between v (S j) hi) = used_between v lo hi !! S i.
Proof.
  remember (hi - lo)%nat as d eqn:Hd. revert lo i Hd.
  induction d as [|d IH]; intros lo i Hd; [by rewrite used_between_nil by lia|].
  rewrite used_between_cons by lia. destruct (idx_used v lo).
  - destruct i as [|i]; simpl.
    + intros [= ->]. by destruct (used_between v (S j) hi).
    + intros Hj. by apply IH; [lia|].
  - intros Hj. by apply IH; [lia|].
Qed.

(** A [for] loop over a vector whose first chunk is not empty visits the
    stored records, all of them, each once, in the order of their ids. *)
Theorem iter_visits_used v :
  mvec_rd n v →
  (num_chunks v = 0 ∨ ∃ i, i < n ∧ is_Some (vec_lookup n v (Z.of_nat i)))%nat →
  ∃ ids, iter_list (slots v) v (vec_begin v) = Some (loc_of <$> ids)
    ∧ StronglySorted lt ids
    ∧ (∀ i, i ∈ ids ↔ is_Some (vec_lookup n v (Z.of_nat i)))
    ∧ (∀ i, i ∈ ids → read_loc v (loc_of i) = vec_lookup n v (Z.of_nat i)).
Proof.
  intros Hwf Hcase. exists (used_between v 0 (slots v)). split_and!.
  - rewrite (begin_used v Hwf Hcase). apply iter_list_spec. lia.
  - apply used_between_sorted.
  - intros i. rewrite elem_of_used_between; [|exact Hwf]. split; [tauto|]. intros [x Hx].
    split; [|eauto]. split; [lia|]. eapply lookup_slots; [exact Hwf|done].
  - intros i [_ Hx]%elem_of_used_between; [|exact Hwf]. by apply at_loc_of; [exact Hwf|].
Qed.

(** the loop ends at once when the first chunk holds no record, whatever
    the later chunks hold (the constructor's comment: "we assume that we don't
    have empty chunks"). *)
Theorem iter_stops_at_empty_chunk v :
  mvec_rd n v → (∀ i, (i < n)%nat → vec_lookup n v (Z.of_nat i) = None) →
  iter_list (slots v) v (vec_begin v) = Some [].
Proof.
  intros Hwf Hnone. destruct (decide (num_chunks v = 0%nat)) as [E|].
  - unfold vec_begin, num_chunks in *. destruct (chunk_list_ v); [|done]. by destruct (slots v).
  - rewrite vec_begin_spec by lia.
    destruct (used_between v 0 n) as [|i l] eqn:E; [by destruct (slots v)|].
    assert (i ∈ used_between v 0 n) as Hi by (rewrite E; constructor).
    apply elem_of_used_between in Hi as [Hi [x Hx]]; [|done]. rewrite Hnone in Hx by lia. done.
Qed.

(** A range scan of the chunks [first .. last] that starts at a used slot
    visits exactly the records stored there from the start position on. *)
Theorem range_visits_used v first last start :
  mvec_rd n v → (start < n)%nat → (first < num_chunks v)%nat → (first ≤ last)%nat →
  is_Some (vec_lookup n v (Z.of_nat (first * n + start))) →
  ∃ it ids, range v first last start = Val it
    ∧ range_list (slots v) v it = Some (loc_of <$> ids)
    ∧ StronglySorted lt ids
    ∧ ∀ i, i ∈ ids ↔ (first * n + start ≤ i < S last * n)%nat ∧ is_Some (vec_lookup n v (Z.of_nat i)).
Proof.
  intros Hwf Hs Hf Hl Hused. set (i0 := (first * n + start)%nat).
  assert (i0 / n = first ∧ i0 mod n = start)%nat as [Hd Hm].
  { unfold i0. rewrite Nat.div_add_l, (Nat.div_small start), (Nat.add_comm _ start), Nat.Div0.mod_add by lia.
    rewrite Nat.mod_small by lia. lia. }
  assert (i0 < range_hi v last)%nat as Hi0 by (unfold range_hi, slots, i0; nia).
  exists (range_at v first last i0), (i0 :: used_between v (S i0) (range_hi v last)). split_and!.
  - unfold range, range_at. rewrite Hd, Hm, !(proj2 (Nat.ltb_lt _ _)) by lia. done.
  - rewrite range_list_spec; [done|done|]. unfold range_hi. lia.
  - constructor; [apply used_between_sorted|]. apply Forall_forall.
    intros j [? _]%elem_of_used_between; [lia|done].
  - intros i. rewrite elem_of_cons, elem_of_used_between by done.
    assert (i < range_hi v last ∧ is_Some (vec_lookup n v (Z.of_nat i))
            ↔ i < S last * n ∧ is_Some (vec_lookup n v (Z.of_nat i)))%nat as Hhi.
    { unfold range_hi. split; intros [? [x Hx]]; (split; [|eauto]); [lia|].
      pose proof (lookup_slots v i x Hwf Hx). lia. }
    destruct (decide (i = i0)) as [->|]; [|naive_solver lia].
    split; [|by left]. intros _. split; [|done]. unfold range_hi in Hi0. lia.
Qed.
End iter.

(** Writing a record does not move an iterator. *)
Section write.
  Context {T : Type}.
  Implicit Types v : mem_chunked_vec T.

Lemma write_slots v (l : loc) (o : T) :
  (∀ k p, slot_used (write_loc l o v) k p = slot_used v k p) ∧ num_chunks (write_loc l o v) = num_chunks v.
Proof.
  unfold slot_used, num_chunks, write_loc, set_chunks. cbn [chunk_list_]. split; [|by rewrite length_alter].
  intros k p. destruct (decide (k = l.1)) as [->|Hk].
  - rewrite list_lookup_alter_eq. by destruct (chunk_list_ v !! l.1).
  - by rewrite list_lookup_alter_ne.
Qed.

Lemma iter_skip_same f v v' k p : (∀ k p, slot_used v' k p = slot_used v k p) →
  iter_skip f v' k p = iter_skip f v k p.
Proof. intros E. revert p. induction f as [|f IH]; intros p; simpl; [done|]. by rewrite E, IH. Qed.
Lemma iter_incr_same n f v v' l : (∀ k p, slot_used v' k p = slot_used v k p) → num_chunks v' = num_chunks v →
  iter_incr n f v' l = iter_incr n f v l.
Proof.
  intros E En. revert l. induction f as [|f IH]; intros [k p]; [done|]. cbn [iter_incr]. unfold next_chunk.
  rewrite En. destruct (S p =? n)%nat, (S k <? num_chunks v)%nat; rewrite ?E, ?IH; done.
Qed.
Lemma range_incr_same n f v v' it : (∀ k p, slot_used v' k p = slot_used v k p) → num_chunks v' = num_chunks v →
  range_incr n f v' it = range_incr n f v it.
Proof.
  intros E En. revert it. induction f as [|f IH]; intros it; [done|]. cbn [range_incr]. unfold next_chunk.
  destruct (cptr_ it) as [k|]; [|done]. rewrite En, IH. destruct (_ =? n)%nat; cbn [cptr_ pos_]; rewrite ?E; [|done].
  destruct (S k <? num_chunks v)%nat; by rewrite ?E.
Qed.
End write.

(** The iterator's side of the interface [VecScan]. *)
#[export, refine] Instance chunked_vec_VecScan (n : nat) (Hn : (0 < n)%nat) (Hn64 : Z.of_nat n < two64) :
  VecScan mem_chunked_vec (Vec0:=chunked_vec_Vec n Hn Hn64) := {|
  vec_first T := vec_begin n;
  vec_next T v l := match iter_incr n (slots n v) v l with Some it => Val it | None => Exn no_return end;
  vec_dense T := dense n;
  rng := range_iter;
  vec_chunks T := num_chunks;
  vec_chunk := n;
  vec_range T v first last := range v first last 0;
  rng_valid := range_valid;
  rng_loc it := (default 0%nat (cptr_ it), pos_ it);
  rng_incr T v it := match range_incr n (slots n v) v it with Some it' => Val it' | None => Exn no_return end
|}.
Proof.
  - intros T v Hrd Hd. set (us := used_between n v 0 (slots n v)).
    exists (Z.of_nat <$> us), (loc_of n <$> us). split_and!.
    + apply (StronglySorted_fmap _ lt); [intros; lia|apply used_between_sorted; exact Hn].
    + assert (∀ i, i ∈ us ↔ (0 ≤ i < slots n v)%nat ∧ is_Some (vec_lookup n v (Z.of_nat i))) as Hin
        by (intros i; apply (elem_of_used_between n Hn); exact Hrd).
      intros id. rewrite list_elem_of_fmap. setoid_rewrite Hin. split.
      * by intros (i & -> & _ & Hi).
      * intros [x Hx]. destruct (vec_lookup_bounds n Hn v id x Hrd Hx).
        exists (Z.to_nat id). rewrite Z2Nat.id by done. split; [done|]. split; [|eauto]. split; [lia|].
        eapply (lookup_slots n Hn); [exact Hrd|]. by rewrite Z2Nat.id.
    + apply Forall2_fmap_l, Forall2_fmap_r, Forall_Forall2_diag, Forall_forall.
      intros i Hi. apply (elem_of_used_between n Hn) in Hi as [_ Hi]; [|exact Hrd]. by apply at_loc_of.
    + etrans; [by apply begin_used|]. subst us. by destruct (used_between n v 0 (slots n v)).
    + intros i l Hl. rewrite list_lookup_fmap in *. destruct (us !! i) as [j|] eqn:Ej; [|done].
      injection Hl as <-. rewrite (iter_incr_spec n Hn).
      * do 2 f_equal. unfold us. by apply used_next.
      * apply list_elem_of_lookup_2 in Ej. apply (elem_of_used_between n Hn) in Ej as [? _]; [lia|exact Hrd].
      * lia.
  - intros T v id l o Hrd Hid Hat. destruct (write_slots v l o) as [Es En].
    destruct (write_loc_lookup n Hn v id l o Hrd Hid Hat) as (_ & _ & Hg). split_and!.
    + change (vec_begin n (write_loc l o v) = vec_begin n v). unfold vec_begin.
      rewrite (iter_skip_same n _ _ 0 0 Es). unfold num_chunks in En.
      by destruct (chunk_list_ v), (chunk_list_ (write_loc l o v)).
    + intros l'. change (vec_write l o v) with (write_loc l o v). unfold slots. by rewrite En, (iter_incr_same _ _ _ _ _ Es En).
    + change (dense n v → dense n (write_loc l o v)). unfold dense. rewrite En. intros [?|(i & Hi & Hx)]; [by left|right]. exists i. split; [done|].
      rewrite Hg. by case_decide.
  - intros T v id x Hrd Hx. destruct (vec_lookup_bounds n Hn v id x Hrd Hx) as [H0 H1].
    pose proof (lookup_slots n Hn v (Z.to_nat id) x Hrd) as H2. rewrite Z2Nat.id in H2 by done.
    specialize (H2 Hx). unfold slots in H2. lia.
  - intros T v first last Hrd Hf Hl Hused. set (i0 := (first * n)%nat). set (hi := range_hi n v last).
    assert (i0 / n = first ∧ i0 mod n = 0)%nat as [Hd Hm] by (unfold i0; rewrite Nat.div_mul, Nat.Div0.mod_mul by lia; done).
    assert (i0 < hi)%nat as Hi0 by (unfold hi, range_hi, slots, i0; nia).
    set (us := used_between n v i0 hi).
    assert (us = i0 :: used_between n v (S i0) hi) as Eus.
    { unfold us. rewrite used_between_cons by done. rewrite (proj2 (idx_used_lookup n Hn v i0 Hrd)); [done|].
      unfold i0. by rewrite Nat2Z.inj_mul. }
    exists (range_at n v first last <$> us), (Z.of_nat <$> us), (loc_of n <$> us), (range_at n v first last hi).
    assert (∀ i, i ∈ us ↔ (i0 ≤ i < hi)%nat ∧ is_Some (vec_lookup n v (Z.of_nat i))) as Hin
      by (intros i; apply (elem_of_used_between n Hn); exact Hrd).
    split_and!.
    + rewrite Eus. simpl. unfold range, range_at. by rewrite Hd, Hm, !(proj2 (Nat.ltb_lt _ _)) by lia.
    + apply not_true_iff_false. rewrite (range_at_valid n Hn). unfold hi. lia.
    + apply (StronglySorted_fmap _ lt); [intros; lia|apply used_between_sorted; exact Hn].
    + intros id. rewrite list_elem_of_fmap. setoid_rewrite Hin. split.
      * intros (i & -> & Hi & Hx). split; [|done]. unfold hi, range_hi, i0 in Hi. lia.
      * intros [Hi [x Hx]]. pose proof (lookup_slots n Hn v (Z.to_nat id) x Hrd) as H2. rewrite Z2Nat.id in H2 by lia.
        specialize (H2 Hx). exists (Z.to_nat id). rewrite Z2Nat.id by lia. split; [done|]. split; [|eauto].
        unfold hi, range_hi, i0. lia.
    + apply Forall2_fmap_l, Forall2_fmap_r, Forall_Forall2_diag, Forall_forall.
      intros i [_ Hi]%Hin. by apply at_loc_of.
    + apply Forall2_fmap_l, Forall2_fmap_r, Forall_Forall2_diag, Forall_forall. intros i [Hi _]%Hin. split.
      * apply (range_at_valid n Hn). fold hi. lia.
      * unfold range_at, loc_of. cbn [cptr_ pos_]. rewrite (proj2 (Nat.ltb_lt _ _)); [done|].
        apply (loc_of_lt n Hn). unfold hi, range_hi in Hi. lia.
    + intros i it Hit. rewrite list_lookup_fmap in *. destruct (us !! i) as [j|] eqn:Ej; [|done]. injection Hit as <-.
      pose proof (list_elem_of_lookup_2 _ _ _ Ej) as [Hj _]%Hin.
      rewrite (range_incr_spec n Hn) by (fold hi; unfold hi, range_hi in *; lia). fold hi.
      do 2 f_equal. rewrite (used_next n Hn _ _ _ _ _ Ej). unfold us. by destruct (_ !! S i).
  - intros T v id l o Hrd Hid Hat. destruct (write_slots v l o) as [Es En]. split_and!.
    + exact En.
    + intros first last. change (range (write_loc l o v) first last 0 = range v first last 0). unfold range. by rewrite En.
    + intros it. change (vec_write l o v) with (write_loc l o v). unfold slots. by rewrite En, (range_incr_same _ _ _ _ _ Es En).
Defined.
