(* ===== verification/VecRefine.v ===== *)
(** * VecRefine: the chunked vector refines a finite map

    The abstract specification of a record vector: a finite map from ids to
    records where a store picks any id that is not in use.  The chunked vector
    of src/vec/mem_chunked_vec.hpp implements it for whole sequences of calls,
    as long as no record that is not the first of its chunk is erased from a
    full chunk ([erase_full_chunk_misaligns_store] of [ChunkedVec] shows what
    happens then).  The file also instantiates the vector theorems on small
    vectors. *)

From S2P Require Import Prelude Chunk VecSpec ChunkedVec VecIter.

(** A call of a client and what it observes. *)
Inductive vec_op (T : Type) : Type :=
  | OpStore (o : T) | OpAppend (o : T) | OpErase (id : Z) | OpRead (id : Z) | OpWrite (id : Z) (o : T).
Arguments OpStore {T}. Arguments OpAppend {T}. Arguments OpErase {T}.
Arguments OpRead {T}. Arguments OpWrite {T}.

Inductive vec_resp (T : Type) : Type :=
  | RespId (id : Z) | RespUnit | RespRec (o : T) | RespExn (e : exn).
Arguments RespId {T}. Arguments RespUnit {T}. Arguments RespRec {T}. Arguments RespExn {T}.

(** ** The abstract specification *)
Section spec.
  Context {T : Type}.

Definition not_there (e : exn) : Prop := e = unknown_id ∨ e = index_out_of_range.

Inductive vec_spec (m : gmap Z T) : vec_op T → vec_resp T → gmap Z T → Prop :=
  | spec_store o id : 0 ≤ id → m !! id = None → vec_spec m (OpStore o) (RespId id) (<[id := o]> m)
  | spec_append o id : 0 ≤ id → m !! id = None → vec_spec m (OpAppend o) (RespId id) (<[id := o]> m)
  | spec_erase id : vec_spec m (OpErase id) RespUnit (delete id m)
  | spec_erase_out id : m !! id = None → vec_spec m (OpErase id) (RespExn index_out_of_range) m
  | spec_read id o : m !! id = Some o → vec_spec m (OpRead id) (RespRec o) m
  | spec_read_none id e : m !! id = None → not_there e → vec_spec m (OpRead id) (RespExn e) m
  | spec_write id o : is_Some (m !! id) → vec_spec m (OpWrite id o) RespUnit (<[id := o]> m)
  | spec_write_none id o e : m !! id = None → not_there e →
      vec_spec m (OpWrite id o) (RespExn e) m.

Inductive vec_spec_steps : gmap Z T → list (vec_op T) → list (vec_resp T) → gmap Z T → Prop :=
  | spec_nil m : vec_spec_steps m [] [] m
  | spec_cons m op r m' ops rs m'' :
      vec_spec m op r m' → vec_spec_steps m' ops rs m'' →
      vec_spec_steps m (op :: ops) (r :: rs) m''.
End spec.

(** ** The calls on a chunked vector *)
Section run.
  Variable elems_per_chunk : nat.
  Hypothesis Hn : (0 < elems_per_chunk)%nat.
  Hypothesis Hn64 : Z.of_nat elems_per_chunk < two64.
  Context {T : Type} `{Inhabited T}.
  Notation V := (mem_chunked_vec T).

Definition run_op (op : vec_op T) (v : V) : V * vec_resp T :=
  match op with
  | OpStore o => match store elems_per_chunk o v with
                 | (v', Val (id, _)) => (v', RespId id) | (v', Exn e) => (v', RespExn e) end
  | OpAppend o => match append elems_per_chunk o v with
                  | (v', Val (id, _)) => (v', RespId id) | (v', Exn e) => (v', RespExn e) end
  | OpErase id => match erase elems_per_chunk id v with
                  | (v', Val _) => (v', RespUnit) | (v', Exn e) => (v', RespExn e) end
  | OpRead id => match at_ elems_per_chunk v id with
                 | Val l => (v, match read_loc v l with Some o => RespRec o
                                                      | None => RespExn undefined_behaviour end)
                 | Exn e => (v, RespExn e) end
  | OpWrite id o => match at_ elems_per_chunk v id with
                    | Val l => (write_loc l o v, RespUnit)
                    | Exn e => (v, RespExn e) end
  end.

Fixpoint run_ops (ops : list (vec_op T)) (v : V) : V * list (vec_resp T) :=
  match ops with
  | [] => (v, [])
  | op :: ops' => let '(v1, r) := run_op op v in let '(v2, rs) := run_ops ops' v1 in (v2, r :: rs)
  end.

(** What the client must respect: ids are not negative, and only the first
    record of a chunk is erased while the chunk is full. *)
Definition op_ok (v : V) (op : vec_op T) : Prop :=
  match op with
  | OpErase id => 0 ≤ id ∧ ∀ c, chunk_list_ v !! Z.to_nat (id / Z.of_nat elems_per_chunk) = Some c →
      chunk_is_full c = true → slot_of elems_per_chunk id = 0%nat
  | OpRead id | OpWrite id _ => 0 ≤ id
  | _ => True
  end.

Fixpoint ops_ok (v : V) (ops : list (vec_op T)) : Prop :=
  match ops with
  | [] => True
  | op :: ops' => op_ok v op ∧ ops_ok (run_op op v).1 ops'
  end.

(** The abstraction relation. *)
Definition vec_abs (v : V) (m : gmap Z T) : Prop :=
  vec_wf elems_per_chunk v ∧ ∀ id, vec_lookup elems_per_chunk v id = m !! id.

Lemma at_missing (v : V) id :
  vec_wf elems_per_chunk v → 0 ≤ id → vec_lookup elems_per_chunk v id = None →
  ∃ e, at_ elems_per_chunk v id = Exn e ∧ not_there e.
Proof.
  intros Hwf Hid Hx. pose proof (at_correct _ Hn v id (wf_rd _ _ Hwf) Hid) as Hat. rewrite Hx in Hat.
  rewrite Hat. eexists; split; [done|]. case_bool_decide; [by left|by right].
Qed.

Lemma erase_refines (v : V) m id :
  vec_abs v m → op_ok v (OpErase id) →
  ∃ m', vec_spec m (OpErase id) (run_op (OpErase id) v).2 m' ∧ vec_abs (run_op (OpErase id) v).1 m'.
Proof.
  intros [Hwf Habs] [Hid Hfull]. destruct (id_of_split _ Hn id Hid) as (k & p & Hp & ->).
  rewrite id_of_chunk, id_of_slot in Hfull by done. simpl.
  destruct (chunk_list_ v !! k) as [c|] eqn:Hk.
  - destruct (erase_correct _ Hn v k p c (wf_rd _ _ Hwf) Hp Hk) as (v' & -> & Hlook & _ & _ & Hwf').
    exists (delete (id_of elems_per_chunk k p) m). split; [constructor|]. split.
    + apply Hwf'; [done|]. destruct (chunk_is_full c) eqn:Hf; [right; by apply (Hfull c)|by left].
    + intros j. by rewrite Hlook, Habs, lookup_delete; repeat case_decide.
  - pose proof (proj1 (lookup_ge_None _ _) Hk) as Hge. exists m. unfold erase, find_chunk. rewrite id_of_chunk by done.
    rewrite (proj2 (Nat.leb_le _ _) Hge). split; [constructor|done].
    destruct (m !! id_of elems_per_chunk k p) as [x|] eqn:Hx; [|done].
    by rewrite <-Habs, vec_lookup_id, Hk in Hx by done.
Qed.

Lemma run_op_refines (v : V) m op :
  vec_abs v m → op_ok v op →
  ∃ m', vec_spec m op (run_op op v).2 m' ∧ vec_abs (run_op op v).1 m'.
Proof.
  intros Hv Hop. destruct op as [o|o|id|id|id o]; [| |by apply erase_refines| |];
    destruct Hv as [Hwf Habs]; simpl in *.
  - destruct (store_correct _ Hn Hn64 v o Hwf) as (k & p & v' & -> & Hp & Hnone & Hlook & Hwf' & _).
    exists (<[id_of elems_per_chunk k p := o]> m).
    split; [constructor; [by apply id_of_nonneg|by rewrite <-Habs]|]. split; [done|].
    intros j. by rewrite Hlook, Habs, lookup_insert; repeat case_decide.
  - destruct (append_correct _ Hn Hn64 v o Hwf) as (k & p & v' & -> & Hp & Hnone & Hlook & Hwf' & _).
    exists (<[id_of elems_per_chunk k p := o]> m).
    split; [constructor; [by apply id_of_nonneg|by rewrite <-Habs]|]. split; [done|].
    intros j. by rewrite Hlook, Habs, lookup_insert; repeat case_decide.
  - pose proof (at_correct _ Hn v id (wf_rd _ _ Hwf) Hop) as Hat. exists m.
    destruct (vec_lookup _ v id) as [x|] eqn:Hx.
    + destruct Hat as (l & -> & ->). split; [constructor; by rewrite <-Habs|done].
    + destruct (at_missing v id Hwf Hop Hx) as (e & -> & He).
      split; [constructor; by rewrite <-?Habs|done].
  - destruct (vec_lookup elems_per_chunk v id) as [x|] eqn:Hx.
    + pose proof (at_correct _ Hn v id (wf_rd _ _ Hwf) Hop) as Hat. rewrite Hx in Hat.
      destruct Hat as (l & Hl & _). rewrite Hl.
      destruct (write_loc_lookup _ Hn v id l o (wf_rd _ _ Hwf) Hop Hl) as (_ & _ & Hlook).
      exists (<[id := o]> m). split; [constructor; rewrite <-Habs, Hx; eauto|].
      split; [by eapply write_loc_correct|].
      intros j. by rewrite Hlook, Habs, lookup_insert; repeat case_decide.
    + destruct (at_missing v id Hwf Hop Hx) as (e & -> & He). exists m.
      split; [constructor; by rewrite <-?Habs|done].
Qed.

(** C32: whatever sequence of stores, appends, reads, in-place writes and erases
    a client makes on a chunked vector, of any chunk size, the vector behaves
    like a finite map from ids to records: the responses are those of the map
    specification (a store or append hands out an id that was not in use, a
    read or write of an id not in use throws) and the vector ends up holding
    the records the map holds.  Excluded ([ops_ok]) are negative ids and erases
    of a record that is not the first of its chunk while the chunk is full. *)
Theorem run_ops_refines (v : V) m ops :
  vec_abs v m → ops_ok v ops →
  ∃ m', vec_spec_steps m ops (run_ops ops v).2 m' ∧ vec_abs (run_ops ops v).1 m'.
Proof.
  revert v m. induction ops as [|op ops IH]; intros v m Habs Hok; simpl.
  - exists m. by split; [constructor|].
  - destruct Hok as [Hop Hok]. destruct (run_op_refines v m op Habs Hop) as (m1 & Hs & Habs1).
    destruct (run_op op v) as [v1 r]. destruct (IH v1 m1 Habs1 Hok) as (m' & Hss & Habs').
    destruct (run_ops ops v1) as [v2 rs]. exists m'. split; [by econstructor|done].
Qed.

Lemma run_ops_abs (v : V) m ops :
  vec_abs v m → ops_ok v ops → ∃ m', vec_abs (run_ops ops v).1 m'.
Proof.
  revert v m. induction ops as [|op ops IH]; intros v m Habs Hok; simpl; [by eexists|].
  destruct Hok as [Hop Hok]. destruct (run_op_refines v m op Habs Hop) as (m1 & _ & Habs1).
  destruct (run_op op v) as [v1 r]. specialize (IH v1 m1 Habs1 Hok).
  by destruct (run_ops ops v1).
Qed.

Lemma vec_abs_new : vec_abs new_vec ∅.
Proof.
  split; [by apply new_vec_wf|]. intros id. rewrite lookup_empty. unfold vec_lookup, new_vec; simpl.
  by case_bool_decide.
Qed.
End run.

(** ** Instances on small vectors *)
Definition three : nat := 3.
Lemma three_pos : (0 < three)%nat. Proof. unfold three. lia. Qed.
Lemma three_small : Z.of_nat three < two64. Proof. done. Qed.

(** The side conditions of concrete calls. *)
Ltac calls_ok :=
  lazymatch goal with |- ops_ok _ _ ?l => let l' := eval compute in l in change l with l' end;
  cbn [ops_ok op_ok]; repeat match goal with |- _ ∧ _ => split | |- True => exact I end;
  vm_compute; intros; first [reflexivity|discriminate|by simplify_eq].

(** The vector after some calls. *)
Definition demo (ops : list (vec_op Z)) : mem_chunked_vec Z := (run_ops three ops new_vec).1.

Lemma demo_wf ops : ops_ok three new_vec ops → vec_wf three (demo ops).
Proof.
  intros Hok.
  by destruct (run_ops_abs three three_pos three_small _ _ ops (vec_abs_new three) Hok) as (m & ? & _).
Qed.

Definition demo_ops : list (vec_op Z) :=
  [OpStore 10; OpStore 11; OpErase 1; OpStore 12; OpWrite 0 9; OpRead 0; OpRead 2; OpAppend 13;
   OpErase 0; OpStore 14; OpRead 7; OpErase 7].

Lemma run_ops_refines_witness :
  (run_ops three demo_ops new_vec).2
    = [RespId 0; RespId 1; RespUnit; RespId 1; RespUnit; RespRec 9; RespExn unknown_id;
       RespId 2; RespUnit; RespId 0; RespExn index_out_of_range; RespExn index_out_of_range]
  ∧ ∃ m', vec_spec_steps ∅ demo_ops (run_ops three demo_ops new_vec).2 m'
          ∧ vec_abs three (demo demo_ops) m'.
Proof.
  split; [vm_compute; reflexivity|].
  apply (run_ops_refines three three_pos three_small new_vec); [by apply vec_abs_new|].
  calls_ok.
Defined.

Definition store_three : list (vec_op Z) := [OpStore 10; OpStore 11; OpStore 12].

Lemma store_hands_out_fresh_id_witness :
  ∃ id l v', store three 13 (demo store_three) = (v', Val (id, l))
    ∧ vec_lookup three (demo store_three) id = None ∧ at_ three v' id = Val l
    ∧ read_loc v' l = Some 13
    ∧ (∀ j, j ≠ id → vec_lookup three v' j = vec_lookup three (demo store_three) j)
    ∧ vec_wf three v'.
Proof.
  apply (store_hands_out_fresh_id three three_pos three_small (demo store_three) 13).
  apply demo_wf. calls_ok.
Defined.

Lemma erase_full_chunk_misaligns_store_witness :
  let v := demo store_three in
  ∃ v1 v2, erase three 2 v = (v1, Val tt) ∧ store three 13 v1 = (v2, Val (4, (0, 2)%nat))
    ∧ ∀ j, vec_lookup three v2 j = if decide (j = 2) then Some 13 else vec_lookup three v j.
Proof.
  apply (erase_full_chunk_misaligns_store three three_pos (demo store_three) 0 2 13);
    [apply demo_wf; calls_ok|reflexivity|vm_compute; lia|unfold three; lia].
Defined.

Lemma store_at_last_slot_breaks_store_witness :
  ∃ v', store_at three 2 12 (demo [OpStore 10; OpStore 11]) = (v', Val tt)
    ∧ store three 13 v' = (v', Exn assertion_failed).
Proof.
  apply (store_at_last_slot_breaks_store three three_pos (demo [OpStore 10; OpStore 11]) 0
           (mk_chunk [10; 11; 1] [true; true; false] 2) [] 12 13);
    [apply demo_wf; calls_ok|reflexivity|reflexivity|simpl; lia|reflexivity].
Defined.

Definition store_four : list (vec_op Z) := store_three ++ [OpStore 13; OpErase 3; OpStore 14].

Lemma iter_visits_used_witness :
  ∃ ids, iter_list three (slots three (demo store_four)) (demo store_four) (vec_begin three (demo store_four))
      = Some (loc_of three <$> ids)
    ∧ Sorted.StronglySorted lt ids
    ∧ (∀ i, i ∈ ids ↔ is_Some (vec_lookup three (demo store_four) (Z.of_nat i)))
    ∧ (∀ i, i ∈ ids → read_loc (demo store_four) (loc_of three i)
                       = vec_lookup three (demo store_four) (Z.of_nat i)).
Proof.
  apply (iter_visits_used three three_pos (demo store_four)).
  - apply wf_rd, demo_wf. calls_ok.
  - right. exists 0%nat. split; [unfold three; lia|]. eexists. vm_compute. reflexivity.
Defined.

Definition only_second_chunk : list (vec_op Z) :=
  store_three ++ [OpStore 13; OpErase 0; OpErase 1; OpErase 2].

Lemma iter_stops_at_empty_chunk_witness :
  vec_lookup three (demo only_second_chunk) 3 = Some 13
  ∧ iter_list three (slots three (demo only_second_chunk)) (demo only_second_chunk)
      (vec_begin three (demo only_second_chunk)) = Some [].
Proof.
  split; [vm_compute; reflexivity|].
  apply (iter_stops_at_empty_chunk three three_pos (demo only_second_chunk)).
  - apply wf_rd, demo_wf. calls_ok.
  - intros i Hi. unfold three in Hi. destruct i as [|[|[|]]]; [vm_compute; reflexivity..|lia].
Defined.

Lemma range_visits_used_witness :
  ∃ it ids, range (demo store_four) 0 1 1 = Val it
    ∧ range_list three (slots three (demo store_four)) (demo store_four) it = Some (loc_of three <$> ids)
    ∧ Sorted.StronglySorted lt ids
    ∧ ∀ i, i ∈ ids ↔ (0 * three + 1 ≤ i < 2 * three)%nat
                     ∧ is_Some (vec_lookup three (demo store_four) (Z.of_nat i)).
Proof.
  apply (range_visits_used three three_pos (demo store_four) 0 1 1);
    [|unfold three; lia|vm_compute; lia|lia|eexists; vm_compute; reflexivity].
  apply wf_rd, demo_wf. calls_ok.
Defined.
