(* ===== verification/Txn.v ===== *)
(** * Txn: multiversion objects (src/tx/txn_data.hpp)

    A node or a relationship is a transactional object: a lock word, begin,
    commit and read timestamps, and a pointer [d_] to volatile data with the
    dirty flag and the list of dirty versions.  The dirty versions are objects
    themselves and all share one list with the object they are versions of.
    The model keeps an object together with its list ([tobj]) and names its
    versions by address, because clients hold references to versions while the
    list changes.  (The copies [bts_], [cts_], [rts_] inside [txn_data] are
    never read and are left out.) *)

From S2P Require Import Prelude.

Section txn.
  (** the fields of the derived class, and its list of property items *)
  Context {B P : Type}.

(** [txn<T>]; [d_ = None] is the null pointer, [Some b] volatile data whose
    [is_dirty_] is [b]. *)
Record obj : Type := mk_obj {
  txn_id_ : Z;      (* transaction id if locked, 0 otherwise *)
  bts_ : Z;         (* begin timestamp *)
  cts_ : Z;         (* commit timestamp *)
  rts_ : Z;         (* read timestamp *)
  d_ : option bool; (* volatile data *)
  body_ : B
}.

(** [dirty_object<T>] with the address the list gave it. *)
Record dirty_object : Type := mk_dirty {
  update_mode_ : bool;
  elem_ : obj;
  properties_ : P;
  addr_ : nat
}.

(** A persistent object with its dirty list ([None] is the null pointer). *)
Record tobj : Type := mk_tobj {
  main_ : obj;
  dirty_list_ : option (list dirty_object);
  next_addr_ : nat
}.

(** [txn()] with the fields of the derived class. *)
Definition new_obj (b : B) : obj := mk_obj 0 0 INF 0 None b.
Definition new_tobj (b : B) : tobj := mk_tobj (new_obj b) None 0.

(** [runtime_initialize()] *)
Definition runtime_initialize (o : obj) : obj := mk_obj 0 0 INF 0 None (body_ o).

(** ** Timestamps and the lock *)
Definition set_txn_id (x : Z) (o : obj) : obj :=
  mk_obj x (bts_ o) (cts_ o) (rts_ o) (d_ o) (body_ o).
Definition set_timestamps (beg en : Z) (o : obj) : obj :=
  mk_obj (txn_id_ o) beg en (rts_ o) (d_ o) (body_ o).
Definition set_cts (en : Z) (o : obj) : obj :=
  mk_obj (txn_id_ o) (bts_ o) en (rts_ o) (d_ o) (body_ o).
Definition set_rts (en : Z) (o : obj) : obj :=
  if bool_decide (rts_ o < en)
  then mk_obj (txn_id_ o) (bts_ o) (cts_ o) en (d_ o) (body_ o) else o.
Definition set_d (d : option bool) (o : obj) : obj :=
  mk_obj (txn_id_ o) (bts_ o) (cts_ o) (rts_ o) d (body_ o).
Definition set_body (f : B → B) (o : obj) : obj :=
  mk_obj (txn_id_ o) (bts_ o) (cts_ o) (rts_ o) (d_ o) (f (body_ o)).

Definition is_locked (o : obj) : bool := bool_decide (txn_id_ o ≠ 0).
Definition is_locked_by (o : obj) (xid : Z) : bool := bool_decide (txn_id_ o = xid).

(** [compare_exchange(expected, desired)] on the lock word: the new word, the
    new [expected] and the result. *)
Definition compare_exchange (word expected desired : Z) : Z * Z * bool :=
  if bool_decide (word = expected) then (desired, expected, true) else (word, word, false).

Definition try_lock (xid : Z) (o : obj) : obj * bool :=
  let '(w, _, b) := compare_exchange (txn_id_ o) 0 xid in (set_txn_id w o, b).

(** [lock(xid)]: the loop, for a lock word nobody else changes meanwhile; two
    rounds are enough, as the second exchange expects the word it read. *)
Fixpoint lock_loop (fuel : nat) (xid expected : Z) (o : obj) : option obj :=
  match fuel with
  | O => None
  | S f =>
    let '(w, e, b) := compare_exchange (txn_id_ o) expected xid in
    let o' := set_txn_id w o in
    if negb b && bool_decide (e ≠ xid) then lock_loop f xid e o' else Some o'
  end.
Definition lock (xid : Z) (o : obj) : option obj := lock_loop 2 xid 0 o.
Definition unlock (o : obj) : obj := set_txn_id 0 o.

(** [prepare()]: create the volatile data; [set_dirty()] and [is_dirty()]
    ([set_dirty] dereferences [d_]). *)
Definition prepare (o : obj) : obj :=
  match d_ o with None => set_d (Some false) o | Some _ => o end.
Definition set_dirty (o : obj) : res obj :=
  match d_ o with None => Exn undefined_behaviour | Some _ => Val (set_d (Some true) o) end.
Definition is_dirty (o : obj) : bool := match d_ o with None => false | Some b => b end.

Definition is_valid_for (o : obj) (xid : Z) : bool :=
  bool_decide (d_ o = None) || bool_decide (bts_ o ≤ xid ∧ xid < cts_ o).
Definition is_valid (o : obj) : bool := bool_decide (cts_ o = INF).

(** ** References to versions *)
Inductive vref : Type :=
  | Main             (* the persistent object *)
  | Dirty (a : nat). (* the [elem_] of the dirty object at address [a] *)

#[global] Instance vref_eq_dec : EqDecision vref.
Proof. solve_decision. Defined.

Definition versions (t : tobj) : list dirty_object := default [] (dirty_list_ t).

Definition set_main (f : obj → obj) (t : tobj) : tobj :=
  mk_tobj (f (main_ t)) (dirty_list_ t) (next_addr_ t).
Definition set_list (f : list dirty_object → list dirty_object) (t : tobj) : tobj :=
  mk_tobj (main_ t) (f <$> dirty_list_ t) (next_addr_ t).
Definition set_elem (f : obj → obj) (d : dirty_object) : dirty_object :=
  mk_dirty (update_mode_ d) (f (elem_ d)) (properties_ d) (addr_ d).
Definition set_props (f : P → P) (d : dirty_object) : dirty_object :=
  mk_dirty (update_mode_ d) (elem_ d) (f (properties_ d)) (addr_ d).
(** A change of the dirty object at one address. *)
Definition on_dirty (a : nat) (f : dirty_object → dirty_object) : tobj → tobj :=
  set_list (fmap (λ d, if bool_decide (addr_ d = a) then f d else d)).

Definition at_addr (t : tobj) (a : nat) : option dirty_object :=
  snd <$> list_find (λ d, addr_ d = a) (versions t).

Definition deref (t : tobj) (r : vref) : option obj :=
  match r with Main => Some (main_ t) | Dirty a => elem_ <$> at_addr t a end.

(** [*this] for a reference (a dangling one is undefined behaviour), and an
    assignment to one of its members. *)
Definition self (r : vref) : M tobj obj := λ t,
  match deref t r with Some o => (t, Val o) | None => (t, Exn undefined_behaviour) end.
Definition put (r : vref) (f : obj → obj) : M tobj unit :=
  _ ← self r;
  modify (match r with Main => set_main f | Dirty a => on_dirty a (set_elem f) end).

(** ** Dirty versions *)

(** [has_dirty_versions()] on a version; the list is shared by all of them. *)
Definition has_dirty_versions (t : tobj) (o : obj) : bool :=
  bool_decide (is_Some (d_ o)) && bool_decide (versions t ≠ []).

(** The loop of [find_valid_version]. *)
Fixpoint find_valid (xid : Z) (abort : bool) (l : list dirty_object) : res dirty_object :=
  match l with
  | [] => Exn (if abort then transaction_abort else unknown_id)
  | dn :: l' =>
    let e := elem_ dn in
    if negb (is_locked e) || is_locked_by e xid then
      if is_valid_for e xid then Val dn
      else if is_locked_by e xid && bool_decide (bts_ e = cts_ e) then Exn unknown_id
      else find_valid xid true l'
    else find_valid xid abort l'
  end.
Definition find_valid_version (t : tobj) (o : obj) (xid : Z) : res dirty_object :=
  if has_dirty_versions t o then find_valid xid false (versions t) else Exn unknown_id.

Fixpoint has_valid (xid : Z) (l : list dirty_object) : bool :=
  match l with
  | [] => false
  | dn :: l' =>
    let e := elem_ dn in
    if negb (is_locked e) || is_locked_by e xid then
      if is_valid_for e xid then true
      else if is_locked_by e xid && bool_decide (bts_ e = cts_ e) then false
      else has_valid xid l'
    else has_valid xid l'
  end.
Definition has_valid_version (t : tobj) (o : obj) (xid : Z) : bool :=
  has_dirty_versions t o && has_valid xid (versions t).

(** [get_dirty_version(xid)]: the first version locked by [xid]. *)
Definition own_version (xid : Z) (l : list dirty_object) : option dirty_object :=
  snd <$> list_find (λ d, txn_id_ (elem_ d) = xid) l.
Definition get_dirty_version (t : tobj) (o : obj) (xid : Z) : res dirty_object :=
  if has_dirty_versions t o then
    match own_version xid (versions t) with Some d => Val d | None => Exn unknown_id end
  else Exn unknown_id.

(** [remove_dirty_version(xid)] *)
Definition remove_dirty_version (r : vref) (xid : Z) : M tobj unit :=
  o ← self r;
  t ← get_st;
  when (has_dirty_versions t o)
    (modify (set_list (filter (λ d, ¬ (txn_id_ (elem_ d) = xid ∧ cts_ (elem_ d) = INF))))).

(** [dirty_object(n, p, updated)] for the version [n] refers to: all members
    are copied, the volatile data into a new one. *)
Definition copy_version (o : obj) (p : P) (updated : bool) : dirty_object :=
  mk_dirty updated o p 0.

(** [add_dirty_version(tptr)]: prepare the object and the copy, create the
    list on first use, and put the copy in front; returns its address. *)
Definition add_dirty_version (r : vref) (dn : dirty_object) : M tobj nat :=
  put r prepare;;
  t ← get_st;
  let a := next_addr_ t in
  let dn' := mk_dirty (update_mode_ dn) (prepare (elem_ dn)) (properties_ dn) a in
  modify (λ t, mk_tobj (main_ t) (Some (dn' :: versions t)) (S a));;
  mret a.

(** [updated_in_version(xid)] reads the list through [d_]. *)
Definition updated_in_version (t : tobj) (o : obj) (xid : Z) : res bool :=
  match d_ o with
  | None => Exn undefined_behaviour
  | Some _ => Val (match own_version xid (versions t) with Some d => update_mode_ d | None => false end)
  end.

(** [gc(oldest)]: drop the versions no active transaction needs, then the list
    itself when it is empty ([delete_dirty_list] dereferences [d_]). *)
Definition gc (oldest : Z) : M tobj unit :=
  t ← get_st;
  when (has_dirty_versions t (main_ t))
    (modify (set_list (filter (λ d, ¬ (cts_ (elem_ d) ≤ oldest)))));;
  t' ← get_st;
  if has_dirty_versions t' (main_ t') then mret tt
  else match d_ (main_ t') with
       | None => throw undefined_behaviour
       | Some _ => modify (λ t, mk_tobj (main_ t) None (next_addr_ t))
       end.
End txn.
Arguments obj : clear implicits.
Arguments dirty_object : clear implicits.
Arguments tobj : clear implicits.

(** ** Lemmas *)
Section lemmas.
  Context {B P : Type}.
  Implicit Types (o : obj B) (t : tobj B P) (d : dirty_object B P).

Lemma is_locked_true o : is_locked o = true ↔ txn_id_ o ≠ 0.
Proof. unfold is_locked. by rewrite bool_decide_eq_true. Qed.

Lemma is_locked_by_true o xid : is_locked_by o xid = true ↔ txn_id_ o = xid.
Proof. unfold is_locked_by. by rewrite bool_decide_eq_true. Qed.

Lemma is_valid_for_true o xid :
  is_valid_for o xid = true ↔ d_ o = None ∨ (bts_ o ≤ xid < cts_ o).
Proof. unfold is_valid_for. by rewrite orb_true_iff, !bool_decide_eq_true. Qed.

(** What [find_valid_version] returns is a version in the list that the
    transaction may read: not locked by another transaction, and valid for it. *)
Lemma find_valid_sound xid ab l d :
  find_valid xid ab l = Val d →
  d ∈ l ∧ (txn_id_ (elem_ d) = 0 ∨ txn_id_ (elem_ d) = xid) ∧ is_valid_for (elem_ d) xid = true.
Proof.
  revert ab. induction l as [|dn l IH]; intros ab; [done|]. simpl.
  destruct (negb (is_locked (elem_ dn)) || is_locked_by (elem_ dn) xid) eqn:El.
  - destruct (is_valid_for (elem_ dn) xid) eqn:Ev.
    + intros [= <-]. split; [constructor|]. split; [|done].
      unfold is_locked, is_locked_by in El. apply orb_true_iff in El as [El|El].
      * left. by apply negb_true_iff, bool_decide_eq_false, dec_stable in El.
      * right. by apply bool_decide_eq_true in El.
    + destruct (is_locked_by _ _ && _); [done|]. intros H%IH. split; [right; apply H|apply H].
  - intros H%IH. split; [right; apply H|apply H].
Qed.

(** Its failures are the two exceptions of the code. *)
Lemma find_valid_exn xid ab l e :
  find_valid (B:=B) (P:=P) xid ab l = Exn e → e = unknown_id ∨ e = transaction_abort.
Proof.
  revert ab. induction l as [|dn l IH]; intros ab; simpl.
  - intros [= <-]. destruct ab; auto.
  - destruct (negb _ || _); [|apply IH]. destruct (is_valid_for (elem_ dn) xid); [done|].
    destruct (is_locked_by _ _ && _); [intros [= <-]; by left|apply IH].
Qed.

(** The flag only chooses between the exceptions. *)
Lemma find_valid_flag xid ab ab' l d :
  find_valid xid ab l = Val d → find_valid xid ab' l = Val d.
Proof.
  revert ab ab'. induction l as [|dn l IH]; intros ab ab'; [done|]. simpl.
  destruct (negb _ || _); [|apply IH]. destruct (is_valid_for (elem_ dn) xid); [done|].
  destruct (is_locked_by _ _ && _); [done|apply IH].
Qed.

(** Dropping versions that are not valid for [xid] keeps what it finds. *)
Lemma find_valid_filter xid (Q : dirty_object B P → Prop) `{∀ d, Decision (Q d)} ab l d :
  (∀ d, d ∈ l → is_valid_for (elem_ d) xid = true → Q d) →
  find_valid xid ab l = Val d → find_valid xid ab (filter Q l) = Val d.
Proof.
  revert ab. induction l as [|dn l IH]; intros ab HQ; [done|]. cbn [find_valid].
  assert (∀ ab, find_valid xid ab l = Val d → find_valid xid ab (filter Q l) = Val d) as IH'.
  { intros ab' Hf. apply IH; [|done]. intros d' Hd'. apply HQ. by right. }
  rewrite filter_cons.
  destruct (negb (is_locked (elem_ dn)) || is_locked_by (elem_ dn) xid) eqn:El.
  - destruct (is_valid_for (elem_ dn) xid) eqn:Ev.
    + intros [= <-]. rewrite decide_True by (apply HQ; [constructor|done]). cbn [find_valid].
      by rewrite El, Ev.
    + destruct (is_locked_by _ _ && _) eqn:Ed; [done|]. intros Hf%IH'.
      destruct (decide (Q dn)); [|by eapply find_valid_flag]. cbn [find_valid]. by rewrite El, Ev, Ed.
  - intros Hf%IH'. destruct (decide (Q dn)); [|done]. cbn [find_valid]. by rewrite El.
Qed.

(** [has_valid] is the success of [find_valid]. *)
Lemma has_valid_find xid ab l :
  has_valid (B:=B) (P:=P) xid l = true ↔ ∃ d, find_valid xid ab l = Val d.
Proof.
  revert ab. induction l as [|dn l IH]; intros ab; simpl.
  - split; [done|by intros [? ?]].
  - destruct (negb _ || _); [|apply IH]. destruct (is_valid_for (elem_ dn) xid); [split; eauto|].
    destruct (is_locked_by _ _ && _); [split; [done|by intros [? ?]]|apply IH].
Qed.

(** ** Properties *)

(** [try_lock] gives the lock to at most one transaction: it succeeds
    exactly when the object is unlocked, and then the object is locked by the
    caller; otherwise the lock word keeps its owner. *)
Theorem try_lock_exclusive xid o o' b :
  xid ≠ 0 → try_lock xid o = (o', b) →
  (b = true ↔ is_locked o = false)
  ∧ (if b then is_locked_by o' xid = true else o' = o ∧ ∃ y, y ≠ 0 ∧ is_locked_by o y = true).
Proof.
  intros Hx. unfold try_lock, compare_exchange. case_bool_decide as E; intros [= <- <-].
  - unfold is_locked. rewrite E. split; [done|]. by apply is_locked_by_true.
  - split; [split; [done|]|].
    + intros Hl. destruct E. unfold is_locked in Hl. by apply bool_decide_eq_false, dec_stable in Hl.
    + split; [by destruct o|]. exists (txn_id_ o). split; [done|]. by apply is_locked_by_true.
Qed.

(** The blocking [lock] does not wait for the owner: its second exchange
    expects the word the first one read, so it takes over an object that
    another transaction has locked. *)
Theorem lock_takes_over xid o :
  xid ≠ 0 → lock xid o = Some (set_txn_id xid o).
Proof.
  intros Hx. unfold lock, lock_loop, compare_exchange.
  case_bool_decide as E0; simpl; [done|]. case_bool_decide as E1; simpl.
  - by rewrite bool_decide_eq_true_2.
  - by rewrite E1.
Qed.

(** A read never returns a version that another transaction has not
    committed, and only a version valid for the reader's timestamp; when there
    is none it fails with one of the code's two exceptions. *)
Theorem find_valid_version_visible t o xid :
  match find_valid_version t o xid with
  | Val d => d ∈ versions t ∧ (is_locked (elem_ d) = false ∨ is_locked_by (elem_ d) xid = true)
             ∧ is_valid_for (elem_ d) xid = true
  | Exn e => e = unknown_id ∨ e = transaction_abort
  end.
Proof.
  unfold find_valid_version. destruct (has_dirty_versions t o); [|by left].
  destruct (find_valid _ _ _) as [d|e] eqn:E; [|by eapply find_valid_exn].
  apply find_valid_sound in E as (Hd & Hl & Hv). split; [done|]. split; [|done].
  rewrite is_locked_by_true. unfold is_locked. rewrite bool_decide_eq_false.
  destruct Hl; [left|right]; naive_solver.
Qed.

(** C39: garbage collection never takes a version away from a transaction at
    least as young as the oldest active one: what it could read before it reads
    after, for every object whose dirty versions have their volatile data. *)
Theorem gc_keeps_visible_versions oldest xid t t' d :
  gc oldest t = (t', Val tt) →
  Forall (λ d, is_Some (d_ (elem_ d))) (versions t) →
  oldest ≤ xid →
  find_valid_version t (main_ t) xid = Val d →
  find_valid_version t' (main_ t') xid = Val d.
Proof.
  intros Hgc Hd Hx Hf. unfold find_valid_version in Hf.
  destruct (has_dirty_versions t (main_ t)) eqn:Ehd; [|done].
  set (l' := filter (λ d, ¬ cts_ (elem_ d) ≤ oldest) (versions t)).
  assert (find_valid xid false l' = Val d) as Hf'.
  { apply find_valid_filter; [|done]. intros d' Hin Hv Hle.
    apply is_valid_for_true in Hv as [Hv|Hv]; [|lia].
    rewrite Forall_forall in Hd. destruct (Hd _ Hin). congruence. }
  assert (l' ≠ []) as Hne by (by intros ->).
  unfold gc, mbind, M_bind, get_st, when, modify in Hgc. rewrite Ehd in Hgc.
  assert (versions (set_list (filter (λ d, ¬ cts_ (elem_ d) ≤ oldest)) t) = l') as Hv'.
  { unfold l', versions, set_list; simpl. by destruct (dirty_list_ t). }
  assert (has_dirty_versions (set_list (filter (λ d, ¬ cts_ (elem_ d) ≤ oldest)) t) (main_ t) = true) as Hhd.
  { unfold has_dirty_versions in *. rewrite Hv'. apply andb_true_iff in Ehd as [-> _].
    simpl. by apply bool_decide_eq_true_2. }
  simpl in Hgc. rewrite Hhd in Hgc. injection Hgc as <-.
  unfold find_valid_version. simpl. by rewrite Hhd, Hv'.
Qed.
End lemmas.

#[export] Hint Resolve find_valid_exn : poseidon.

(** ** Instances *)
Definition demo_version (a : nat) (txn bts cts : Z) : dirty_object unit unit :=
  mk_dirty true (mk_obj txn bts cts cts (Some true) tt) tt a.
Definition demo_versions : tobj unit unit :=
  mk_tobj (mk_obj 9 7 INF 9 (Some false) tt)
    (Some [demo_version 3 9 9 INF; demo_version 2 0 7 9; demo_version 1 0 5 7; demo_version 0 0 1 5]) 4.

Lemma try_lock_exclusive_witness :
  (false = true ↔ is_locked (main_ demo_versions) = false)
  ∧ main_ demo_versions = main_ demo_versions
  ∧ ∃ y, y ≠ 0 ∧ is_locked_by (main_ demo_versions) y = true.
Proof. apply (try_lock_exclusive 3 (main_ demo_versions) (main_ demo_versions) false); done. Defined.

Lemma lock_takes_over_witness :
  is_locked_by (main_ demo_versions) 9 = true
  ∧ lock 3 (main_ demo_versions) = Some (set_txn_id 3 (main_ demo_versions)).
Proof. split; [done|]. by apply (lock_takes_over 3). Defined.

Lemma gc_keeps_visible_versions_witness :
  let t' := (gc 6 demo_versions).1 in
  length (versions t') = 3%nat
  ∧ find_valid_version t' (main_ t') 6 = Val (demo_version 1 0 5 7).
Proof.
  split; [by vm_compute|].
  apply (gc_keeps_visible_versions 6 6 demo_versions); [by vm_compute| |done|by vm_compute].
  repeat (constructor; [by eexists|]). constructor.
Defined.
