(* ===== verification/Mvto.v ===== *)
(** * Mvto: reading and writing versions (src/storage/graph_db.cpp)

    The parts of [graph_db]'s operations that work on one object: which version
    a transaction reads, how a writer takes the lock and adds versions, what
    commit and abort do to the object's versions.  Nodes and relationships go
    through the same code, so it is written once for both; [GraphOps] and
    [GraphCommit] add the tables, the dictionary and the properties. *)

From S2P Require Import Prelude Txn.

Section mvto.
  Context {B P : Type}.
  (** what commit copies from a version's fields to the object's *)
  Variable copy_fields : B → B → B.

(** [get_valid_node_version], [get_valid_rship_version] *)
Definition get_valid_version (xid : Z) : M (tobj B P) vref := λ t,
  let n := main_ t in
  if is_locked_by n xid then
    if has_dirty_versions t n then
      (t, d ← find_valid_version t n xid; Val (Dirty (addr_ d)))
    else (t, Exn assertion_failed)
  else if negb (is_locked n) then
    (t, if is_valid_for n xid then Val Main
        else d ← find_valid_version t n xid; Val (Dirty (addr_ d)))
  else
    (t, d ← find_valid_version t n xid;
        if negb (is_locked (elem_ d)) || is_locked_by (elem_ d) xid then Val (Dirty (addr_ d))
        else Exn transaction_abort).

(** [node_by_id], [rship_by_id] once the object is found in its table. *)
Definition fetch (xid : Z) : M (tobj B P) vref :=
  put Main prepare;; put Main (set_rts xid);; get_valid_version xid.

(** The beginning of every writing operation: the read timestamp check, and the
    lock unless it is held already. *)
Definition acquire (r : vref) (xid : Z) : M (tobj B P) unit :=
  o ← self r;
  if bool_decide (rts_ o > xid) then throw transaction_abort
  else if is_locked_by o xid then mret tt
  else
    let '(o', b) := try_lock xid o in
    if (b : bool) then put r (λ _, o') else throw transaction_abort.

(** [add_dirty_version(make_unique<dirty_node>(n, pitems, updated))] *)
Definition add_copy (r : vref) (p : P) (updated : bool) : M (tobj B P) nat :=
  o ← self r; add_dirty_version r (copy_version o p updated).

(** [v->elem_.set_dirty()] *)
Definition set_dirty_at (a : nat) : M (tobj B P) unit :=
  o ← self (Dirty a); o' ← lift_res (set_dirty o); put (Dirty a) (λ _, o').

(** The copy of the current version for readers: unlocked, valid until [xid]. *)
Definition add_old_version (r : vref) (xid : Z) (p : P) : M (tobj B P) unit :=
  a ← add_copy r p true;
  o ← self r;
  put (Dirty a) (set_timestamps (bts_ o) xid);;
  set_dirty_at a;;
  put (Dirty a) unlock.

(** The new version; [f] is the change of its fields. *)
Definition add_new_version (r : vref) (xid : Z) (p : P) (f : B → B) : M (tobj B P) unit :=
  a ← add_copy r p true;
  put (Dirty a) (set_timestamps xid INF);;
  set_dirty_at a;;
  put (Dirty a) (set_body f).

(** The new version of a delete: valid nowhere. *)
Definition add_deleted_version (r : vref) (xid : Z) (p : P) : M (tobj B P) nat :=
  a ← add_copy r p true;
  put (Dirty a) (set_timestamps xid xid);;
  set_dirty_at a;;
  mret a.

(** [try { dn = n.get_dirty_version(txid); ... } catch (unknown_id&) {}] *)
Definition own_dirty (r : vref) (xid : Z) : M (tobj B P) (option (dirty_object B P)) :=
  o ← self r; t ← get_st;
  mret (match get_dirty_version t o xid with Val d => Some d | Exn _ => None end).

(** An update with the lock held: in place when the transaction has a version
    already, else the old and the new version; returns [first_update].  [p] are
    the properties the object has in its table. *)
Definition write_version (r : vref) (xid : Z) (p : P) (g : P → P) (f : B → B) : M (tobj B P) bool :=
  own ← own_dirty r xid;
  match own with
  | Some d => modify (on_dirty (addr_ d) (λ d, set_props g (set_elem (set_body f) d)));; mret false
  | None => add_old_version r xid p;; add_new_version r xid (g p) f;; mret true
  end.

(** [dirty_list()->pop_front()] and [dirty_list()->front()->elem_.unlock()] *)
Definition pop_front : M (tobj B P) unit := modify (set_list tail).
Definition unlock_front : M (tobj B P) unit :=
  t ← get_st;
  match versions t with [] => throw undefined_behaviour | d :: _ => put (Dirty (addr_ d)) unlock end.

(** What commit does with the object: an insert, a delete or an update,
    depending on the front of the dirty list. *)
Inductive commit_case : Type :=
  | already_deleted | no_version
  | commit_insert (d : dirty_object B P) | commit_delete (d : dirty_object B P)
  | commit_update (d : dirty_object B P).

Definition classify (t : tobj B P) : commit_case :=
  if bool_decide (cts_ (main_ t) ≠ INF) then already_deleted
  else if negb (has_dirty_versions t (main_ t)) then no_version
  else match versions t with
       | [] => no_version
       | dn :: _ =>
         if negb (update_mode_ dn) then commit_insert dn
         else if bool_decide (bts_ (elem_ dn) = cts_ (elem_ dn)) then commit_delete dn
         else commit_update dn
       end.

(** [commit_dirty_node] without the property, index and log operations. *)
Definition commit_version (xid oldest : Z) : M (tobj B P) unit :=
  t ← get_st;
  match classify t with
  | already_deleted => remove_dirty_version Main 0
  | no_version => throw transaction_abort
  | commit_insert dn =>
    put Main (λ n, set_timestamps xid INF (set_body (λ b, copy_fields b (body_ (elem_ dn))) n));;
    pop_front;; put Main unlock;; gc oldest
  | commit_delete dn =>
    put Main (set_cts xid);; pop_front;; unlock_front;; put Main unlock;; gc oldest
  | commit_update dn =>
    put Main (λ n, set_timestamps xid INF (set_body (λ b, copy_fields b (body_ (elem_ dn))) n));;
    t' ← get_st;
    assert_ (bool_decide (1 < length (versions t'))%nat);;
    pop_front;; unlock_front;; put Main unlock;; gc oldest
  end.

(** The loop body of [abort_transaction]; returns [was_updated]. *)
Definition abort_version (xid : Z) : M (tobj B P) bool :=
  t ← get_st;
  was_updated ← lift_res (updated_in_version t (main_ t) xid);
  remove_dirty_version Main xid;;
  put Main unlock;;
  mret was_updated.

(** An update and a delete through [node_by_id]; [p] are the properties in the
    object's table.  [connected] is what the search for relationships of the
    node that the transaction can see has found: then the version that was read
    is unlocked, and the delete is refused. *)
Definition update_op (xid : Z) (p : P) (g : P → P) (f : B → B) : M (tobj B P) bool :=
  r ← fetch xid; acquire r xid;; write_version r xid p g f.

Definition delete_op (connected : bool) (xid : Z) (p q : P) : M (tobj B P) nat :=
  r ← fetch xid; acquire r xid;;
  if connected then put r unlock;; throw orphaned_relationship
  else add_old_version r xid p;; add_deleted_version r xid q.

(** [get_node_description]: the fields and the properties of the version read.
    [p] are the properties in the object's table; a version that is not the
    object itself carries its own. *)
Definition describe (xid : Z) (p : P) : M (tobj B P) (B * P) :=
  r ← fetch xid;
  n ← self r;
  t ← get_st;
  let from_list := d ← find_valid_version t n xid; Val (body_ (elem_ d), properties_ d) in
  lift_res
    (if negb (has_dirty_versions t n) then Val (body_ n, p)
     else if negb (is_dirty n) && is_valid_for n xid then
       if bool_decide (cts_ n = INF) then Val (body_ n, p) else from_list
     else from_list).
End mvto.

(** ** What the blocks do *)
Section lemmas.
  Context {B P : Type}.
  Implicit Types (o : obj B) (t : tobj B P) (d : dirty_object B P) (l : list (dirty_object B P)).

(** Addresses in use are below the next one, and all different. *)
Definition addrs_ok (t : tobj B P) : Prop :=
  NoDup (addr_ <$> versions t) ∧ Forall (λ d, (addr_ d < next_addr_ t)%nat) (versions t).

Lemma on_dirty_fresh a f l :
  Forall (λ d, (addr_ d < a)%nat) l →
  ((λ d, if bool_decide (addr_ d = a) then f d else d) <$> l) = l.
Proof.
  induction 1 as [|d l Hd _ IH]; [done|]. rewrite fmap_cons, IH, bool_decide_eq_false_2 by lia. done.
Qed.

Lemma on_dirty_head f m d l n :
  Forall (λ d', (addr_ d' < addr_ d)%nat) l →
  on_dirty (addr_ d) f (mk_tobj m (Some (d :: l)) n) = mk_tobj m (Some (f d :: l)) n.
Proof.
  intros Hl. unfold on_dirty, set_list; simpl. by rewrite on_dirty_fresh, bool_decide_eq_true_2.
Qed.

Lemma at_addr_head m d l n : at_addr (mk_tobj m (Some (d :: l)) n) (addr_ d) = Some d.
Proof. unfold at_addr, versions; simpl. by rewrite decide_True. Qed.

Lemma at_addr_In t a d : at_addr t a = Some d → d ∈ versions t ∧ addr_ d = a.
Proof.
  unfold at_addr. destruct (list_find _ _) as [[i d']|] eqn:E; [|done]. intros [= <-].
  apply list_find_Some in E as (Hi & ? & _). split; [by eapply list_elem_of_lookup_2|done].
Qed.

Lemma deref_push t m d r o :
  addrs_ok t → addr_ d = next_addr_ t → m = main_ t → deref t r = Some o →
  deref (mk_tobj m (Some (d :: versions t)) (S (next_addr_ t))) r = Some o.
Proof.
  intros [_ Hf] Ha -> Hr. destruct r as [|a]; [done|]. unfold deref in *.
  destruct (at_addr t a) as [d'|] eqn:Hat; [|done]. simplify_eq/=.
  pose proof (at_addr_In _ _ _ Hat) as [Hin Hd']. rewrite Forall_forall in Hf. specialize (Hf _ Hin).
  unfold at_addr, versions in *; simpl. rewrite decide_False by lia.
  destruct (list_find _ (default [] (dirty_list_ t))) as [[i x]|]; [|done]. simpl in *. by simplify_eq.
Qed.

Lemma put_eq t r f o :
  deref t r = Some o →
  put r f t = ((match r with Main => set_main f t | Dirty a => on_dirty a (set_elem f) t end), Val tt).
Proof. intros Hr. unfold put, mbind, M_bind, self. rewrite Hr. by destruct r. Qed.

Lemma fetch_eq x t b :
  d_ (main_ t) = Some b →
  fetch x t = get_valid_version x (set_main (set_rts x) t).
Proof.
  intros Hd. unfold fetch, mbind, M_bind. rewrite (put_eq t Main prepare (main_ t)) by done.
  assert (set_main prepare t = t) as -> by (unfold set_main, prepare; rewrite Hd; by destruct t).
  by rewrite (put_eq t Main (set_rts x) (main_ t)).
Qed.

(** Choosing a version changes nothing. *)
Lemma get_valid_version_state x (t : tobj B P) : (get_valid_version x t).1 = t.
Proof. unfold get_valid_version. repeat (case_match; try done). Qed.

(** Preparing an object that has its volatile data changes nothing. *)
Lemma put_prepare t r o :
  NoDup (addr_ <$> versions t) → deref t r = Some o → is_Some (d_ o) → put r prepare t = (t, Val tt).
Proof.
  intros Hnd Hr [b Hb]. rewrite (put_eq _ _ _ o) by done. f_equal. destruct r as [|a].
  - injection Hr as <-. unfold set_main, prepare. rewrite Hb. by destruct t.
  - simpl in Hr. destruct (at_addr t a) as [d|] eqn:Hat; [|done]. injection Hr as <-.
    apply at_addr_In in Hat as [Hin Ha]. destruct t as [m [l|] n]; [|done].
    unfold on_dirty, set_list, versions in *; simpl in *. f_equal. f_equal.
    rewrite <-(list_fmap_id l) at 2. apply list_fmap_ext. intros i d' Hi.
    case_bool_decide as E; [|done]. assert (d' = d) as ->.
    { apply list_elem_of_lookup in Hin as [j Hj]. assert (i = j) as ->.
      { eapply (NoDup_lookup _ i j (addr_ d')); [done| |]; rewrite list_lookup_fmap.
        - by rewrite Hi. - rewrite Hj; simpl. by rewrite E, Ha. }
      congruence. }
    unfold set_elem, prepare. rewrite Hb. by destruct d.
Qed.

(** The objects the blocks add. *)
Definition old_copy (o : obj B) (xid : Z) (p : P) (a : nat) : dirty_object B P :=
  mk_dirty true (mk_obj 0 (bts_ o) xid (rts_ o) (Some true) (body_ o)) p a.
Definition new_copy (o : obj B) (xid cts : Z) (p : P) (f : B → B) (a : nat) : dirty_object B P :=
  mk_dirty true (mk_obj (txn_id_ o) xid cts (rts_ o) (Some true) (f (body_ o))) p a.

Definition push (d : dirty_object B P) (t : tobj B P) : tobj B P :=
  mk_tobj (main_ t) (Some (d :: versions t)) (S (next_addr_ t)).

Lemma addrs_ok_push d t : addrs_ok t → addr_ d = next_addr_ t → addrs_ok (push d t).
Proof.
  intros [Hnd Hf] Ha. unfold addrs_ok, push, versions at 1 3; simpl. split.
  - constructor; [|done]. intros (d' & Heq & Hin)%list_elem_of_fmap.
    rewrite Forall_forall in Hf. specialize (Hf _ Hin). simpl in Hf. lia.
  - constructor; [lia|]. eapply Forall_impl; [done|]. simpl. lia.
Qed.

Lemma add_copy_eq t r o p up :
  addrs_ok t → deref t r = Some o → is_Some (d_ o) →
  add_copy r p up t = (push (mk_dirty up o p (next_addr_ t)) t, Val (next_addr_ t)).
Proof.
  intros [Hnd Hf] Hr Hd. unfold add_copy, mbind, M_bind, self at 1. rewrite Hr.
  unfold add_dirty_version, mbind, M_bind. rewrite (put_prepare _ _ o) by done.
  unfold get_st, modify, mret, M_ret, push, copy_version, prepare; simpl.
  destruct Hd as [b ->]. done.
Qed.

Lemma put_head f d t :
  addrs_ok t → addr_ d = next_addr_ t →
  put (Dirty (next_addr_ t)) f (push d t) = (push (set_elem f d) t, Val tt).
Proof.
  intros [_ Hf] Ha. rewrite <-Ha.
  rewrite (put_eq _ _ _ (elem_ d)) by (unfold push, deref; by rewrite at_addr_head).
  unfold push. rewrite on_dirty_head by (by rewrite Ha). done.
Qed.

Lemma self_head d t :
  addr_ d = next_addr_ t → self (Dirty (next_addr_ t)) (push d t) = (push d t, Val (elem_ d)).
Proof. intros Ha. unfold self, push, deref. rewrite <-Ha. by rewrite at_addr_head. Qed.

Lemma set_dirty_at_head d t b :
  addrs_ok t → addr_ d = next_addr_ t → d_ (elem_ d) = Some b →
  set_dirty_at (next_addr_ t) (push d t) = (push (set_elem (set_d (Some true)) d) t, Val tt).
Proof.
  intros Hok Ha Hd. unfold set_dirty_at, mbind, M_bind. rewrite self_head by done.
  unfold set_dirty, lift_res. rewrite Hd. by rewrite put_head.
Qed.

Lemma add_old_version_eq t r o xid p :
  addrs_ok t → deref t r = Some o → is_Some (d_ o) →
  add_old_version r xid p t = (push (old_copy o xid p (next_addr_ t)) t, Val tt).
Proof.
  intros Hok Hr [b Hd]. unfold add_old_version, mbind, M_bind.
  rewrite (add_copy_eq t r o) by (done || by eexists).
  unfold self at 1, push at 1. rewrite (deref_push t _ _ r o) by done.
  rewrite put_head by done. rewrite (set_dirty_at_head _ _ b) by done. by rewrite put_head.
Qed.

Lemma add_new_version_eq t r o xid p f :
  addrs_ok t → deref t r = Some o → is_Some (d_ o) →
  add_new_version r xid p f t = (push (new_copy o xid INF p f (next_addr_ t)) t, Val tt).
Proof.
  intros Hok Hr [b Hd]. unfold add_new_version, mbind, M_bind.
  rewrite (add_copy_eq t r o) by (done || by eexists).
  rewrite put_head by done. rewrite (set_dirty_at_head _ _ b) by done. by rewrite put_head.
Qed.

Lemma add_deleted_version_eq t r o xid p :
  addrs_ok t → deref t r = Some o → is_Some (d_ o) →
  add_deleted_version r xid p t = (push (new_copy o xid xid p id (next_addr_ t)) t, Val (next_addr_ t)).
Proof.
  intros Hok Hr [b Hd]. unfold add_deleted_version, mbind, M_bind.
  rewrite (add_copy_eq t r o) by (done || by eexists).
  rewrite put_head by done. by rewrite (set_dirty_at_head _ _ b) by done.
Qed.

Lemma deref_push' d t r o :
  addrs_ok t → addr_ d = next_addr_ t → deref t r = Some o → deref (push d t) r = Some o.
Proof. intros. by apply deref_push. Qed.

(** A first update adds an old and a new version in front. *)
Lemma write_version_first t r o xid p g f :
  addrs_ok t → deref t r = Some o → is_Some (d_ o) → own_version xid (versions t) = None →
  write_version r xid p g f t =
    (push (new_copy o xid INF (g p) f (S (next_addr_ t))) (push (old_copy o xid p (next_addr_ t)) t),
     Val true).
Proof.
  intros Hok Hr Hd Hown. unfold write_version, own_dirty, mbind, M_bind, self at 1. rewrite Hr.
  unfold get_st, mret, M_ret. unfold get_dirty_version. rewrite Hown.
  assert ((if has_dirty_versions t o then Exn unknown_id else Exn unknown_id)
          = (Exn unknown_id : res (dirty_object B P))) as -> by by destruct (has_dirty_versions t o).
  rewrite (add_old_version_eq t r o) by done.
  set (t1 := push (old_copy o xid p (next_addr_ t)) t).
  assert (addrs_ok t1) by by apply addrs_ok_push.
  by rewrite (add_new_version_eq t1 r o) by (try done; by apply deref_push').
Qed.

Lemma delete_versions_eq t r o xid p q :
  addrs_ok t → deref t r = Some o → is_Some (d_ o) →
  (add_old_version r xid p;; add_deleted_version r xid q) t =
    (push (new_copy o xid xid q id (S (next_addr_ t))) (push (old_copy o xid p (next_addr_ t)) t),
     Val (S (next_addr_ t))).
Proof.
  intros Hok Hr Hd. unfold mbind, M_bind. rewrite (add_old_version_eq t r o) by done.
  set (t1 := push (old_copy o xid p (next_addr_ t)) t).
  assert (addrs_ok t1) by by apply addrs_ok_push.
  by rewrite (add_deleted_version_eq t1 r o) by (try done; by apply deref_push').
Qed.
(** Taking the lock. *)
Lemma acquire_eq r x (t : tobj B P) o :
  deref t r = Some o →
  acquire r x t =
    if decide (rts_ o > x) then (t, Exn transaction_abort)
    else if decide (txn_id_ o = x) then (t, Val tt)
    else if decide (txn_id_ o = 0) then put r (λ _, set_txn_id x o) t
    else (t, Exn transaction_abort).
Proof.
  intros Hr. unfold acquire, mbind, M_bind, self at 1. rewrite Hr.
  unfold is_locked_by, try_lock, compare_exchange.
  repeat case_bool_decide; repeat case_decide; try done.
Qed.

Lemma on_dirty_hd f (m : obj B) (d : dirty_object B P) l n :
  NoDup (addr_ <$> d :: l) →
  on_dirty (addr_ d) f (mk_tobj m (Some (d :: l)) n) = mk_tobj m (Some (f d :: l)) n.
Proof.
  intros Hnd. unfold on_dirty, set_list; simpl. rewrite bool_decide_eq_true_2 by done.
  do 3 f_equal. rewrite <-(list_fmap_id l) at 2. apply list_fmap_ext. intros i d' Hi.
  rewrite bool_decide_eq_false_2; [done|]. intros Heq. apply NoDup_cons in Hnd as [Hn _].
  apply Hn, list_elem_of_fmap. exists d'. split; [done|by eapply list_elem_of_lookup_2].
Qed.

Lemma own_version_front x w l :
  txn_id_ (elem_ w) = x → own_version x (w :: l) = Some w.
Proof. intros Hw. unfold own_version; simpl. by rewrite decide_True. Qed.

End lemmas.
