(* ===== verification/Protocol.v ===== *)
(** * Protocol: the multiversion protocol on one object

    The steps that transactions take on one committed object, as a transition
    system built from the code's operations ([Mvto]), with a ghost history of
    the committed contents.  The invariant relates every version the object
    keeps to that history; from it follow what a transaction reads, that it
    reads the same content again, and that uncommitted work is never read.
    One path is left out: a transaction that has written the object and is
    refused to delete it unlocks its uncommitted version in [delete_node];
    [refused_delete_leaks] shows that the others then see it.
    Deleting uses [delete_node]'s versions; what the variants in
    [delete_relationship] and [detach_delete_node] do differently is in
    [GraphOps]. *)

From Stdlib Require Import Sorting.Sorted.
From S2P Require Import Prelude Txn Mvto.

Section protocol.
  Context {B P K : Type}.
  Variable copy_fields : B → B → B.
  (** what clients see of the fields; commit copies all of it *)
  Variable key : B → K.
  Context (copy_key : ∀ b b', key (copy_fields b b') = key b').

Definition content : Type := K * P.
Definition version_content (d : dirty_object B P) : content :=
  (key (body_ (elem_ d)), properties_ d).

(** The object, the properties in its table, the committed contents with their
    commit timestamps (newest first), the finished transactions, and the
    largest timestamp garbage collection was run for. *)
Record mstate : Type := mk_ms {
  ob : tobj B P;
  mprops : P;
  hist : list (Z * content);
  finished : gset Z;
  horizon : Z
}.

(** The content a transaction should see: the last one committed before it. *)
Definition ver_at (h : list (Z * content)) (x : Z) : option content :=
  e ← snd <$> list_find (λ e, e.1 ≤ x) h; Some e.2.

Definition with_ob (t : tobj B P) (s : mstate) : mstate :=
  mk_ms t (mprops s) (hist s) (finished s) (horizon s).

(** A transaction that may still act. *)
Definition active (x : Z) (s : mstate) : Prop := 0 < x < INF ∧ x ∉ finished s.

(** The steps; every outcome of an operation is a step, exceptions included,
    but for one: a transaction that has written the object is not refused to
    delete it.  In the code it can be: [delete_node] then unlocks the version of
    the transaction, and others see it ([refused_delete_leaks] below). *)
Inductive mstep : Z → mstate → mstate → Prop :=
  | step_read x s t out :
      active x s → fetch x (ob s) = (t, out) → mstep x s (with_ob t s)
  | step_update x s t out g f :
      active x s → update_op x (mprops s) g f (ob s) = (t, out) → mstep x s (with_ob t s)
  | step_delete x s t out connected q :
      active x s → (connected = true → txn_id_ (main_ (ob s)) ≠ x) →
      delete_op connected x (mprops s) q (ob s) = (t, out) → mstep x s (with_ob t s)
  | step_commit x s t out oldest w l :
      active x s → txn_id_ (main_ (ob s)) = x → versions (ob s) = w :: l →
      commit_version copy_fields x oldest (ob s) = (t, out) →
      mstep x s
        (if bool_decide (bts_ (elem_ w) = cts_ (elem_ w))
         then mk_ms t (mprops s) (hist s) ({[x]} ∪ finished s) (Z.max oldest (horizon s))
         else mk_ms t (properties_ w) ((x, version_content w) :: hist s) ({[x]} ∪ finished s)
                (Z.max oldest (horizon s)))
  | step_abort x s t out :
      active x s → txn_id_ (main_ (ob s)) = x → abort_version x (ob s) = (t, out) →
      mstep x s (mk_ms t (mprops s) (hist s) ({[x]} ∪ finished s) (horizon s))
  | step_finish x s :
      active x s → txn_id_ (main_ (ob s)) ≠ x →
      mstep x s (mk_ms (ob s) (mprops s) (hist s) ({[x]} ∪ finished s) (horizon s))
  | step_gc x s t out oldest :
      txn_id_ (main_ (ob s)) = 0 → gc oldest (ob s) = (t, out) →
      mstep x s (mk_ms t (mprops s) (hist s) (finished s) (Z.max oldest (horizon s))).

(** ** The invariant *)

(** A version that readers may use. *)
Record free_ok (h : list (Z * content)) (m : obj B) (d : dirty_object B P) : Prop := {
  free_cts : cts_ (elem_ d) ≤ rts_ (elem_ d);
  free_rts : cts_ (elem_ d) ≤ rts_ m;
  free_owner : txn_id_ m ≠ 0 → cts_ (elem_ d) ≤ txn_id_ m;
  free_deleted : cts_ m ≠ INF → cts_ (elem_ d) ≤ cts_ m;
  free_hist : cts_ (elem_ d) ≤ bts_ (elem_ d)
    ∨ ((bts_ (elem_ d), version_content d) ∈ h
       ∧ ∀ b c, (b, c) ∈ h → bts_ (elem_ d) < b → cts_ (elem_ d) ≤ b)
}.

(** What the list looks like while [x] holds the lock. *)
Record owned (x : Z) (s : mstate) : Prop := {
  own_active : 0 < x < INF ∧ x ∉ finished s;
  own_cts : cts_ (main_ (ob s)) = INF;
  own_bts : bts_ (main_ (ob s)) < x;
  own_rts : x ≤ rts_ (main_ (ob s));
  own_front : ∃ w d l, versions (ob s) = w :: d :: l
    ∧ txn_id_ (elem_ w) = x ∧ update_mode_ w = true ∧ x ≤ rts_ (elem_ w)
    ∧ bts_ (elem_ w) = x ∧ (cts_ (elem_ w) = INF ∨ cts_ (elem_ w) = x)
    ∧ txn_id_ (elem_ d) = 0;
  own_old : ∃ d, d ∈ tail (versions (ob s)) ∧ txn_id_ (elem_ d) = 0
    ∧ bts_ (elem_ d) = bts_ (main_ (ob s)) ∧ cts_ (elem_ d) = x
}.

Record inv (s : mstate) : Prop := {
  inv_addrs : addrs_ok (ob s);
  inv_main : d_ (main_ (ob s)) = Some false;
  inv_dirty : Forall (λ d, d_ (elem_ d) = Some true) (versions (ob s));
  inv_hist : ∃ c h, hist s = (bts_ (main_ (ob s)), c) :: h ∧ c.1 = key (body_ (main_ (ob s)))
    ∧ (cts_ (main_ (ob s)) = INF → c.2 = mprops s);
  inv_sorted : StronglySorted (λ e e', e'.1 < e.1) (hist s);
  inv_finished : Forall (λ e, e.1 ∈ finished s) (hist s);
  inv_free : Forall (λ d, txn_id_ (elem_ d) = 0 → free_ok (hist s) (main_ (ob s)) d) (versions (ob s));
  inv_locked : Forall (λ d, txn_id_ (elem_ d) ≠ 0 →
    txn_id_ (elem_ d) ∈ finished s ∨ txn_id_ (elem_ d) = txn_id_ (main_ (ob s))) (versions (ob s));
  inv_owner : txn_id_ (main_ (ob s)) = 0 ∨ owned (txn_id_ (main_ (ob s))) s;
  inv_deleted : cts_ (main_ (ob s)) ≠ INF →
    txn_id_ (main_ (ob s)) = 0 ∧ cts_ (main_ (ob s)) ≤ rts_ (main_ (ob s)) ∧
    ((∃ d, d ∈ versions (ob s) ∧ txn_id_ (elem_ d) = 0 ∧ cts_ (elem_ d) = cts_ (main_ (ob s))) ∨ cts_ (main_ (ob s)) ≤ horizon s)
}.

(** An object right after its insert was committed. *)
Definition committed (t : tobj B P) (p : P) (fin : gset Z) : mstate :=
  mk_ms t p [(bts_ (main_ t), (key (body_ (main_ t)), p))] fin 0.

Lemma committed_inv t p fin :
  d_ (main_ t) = Some false → dirty_list_ t = None → txn_id_ (main_ t) = 0 →
  cts_ (main_ t) = INF → bts_ (main_ t) ∈ fin → inv (committed t p fin).
Proof.
  intros Hd Hl Ht Hc Hb. unfold committed.
  assert (versions t = []) as Hv by (unfold versions; by rewrite Hl).
  split; simpl; rewrite ?Hv; try done.
  - split; rewrite Hv; constructor.
  - by eexists _, _.
  - repeat constructor.
  - by repeat constructor.
  - by left.
Qed.

(** ** Reading *)
Lemma ver_at_intro h x b c :
  StronglySorted (λ e e', e'.1 < e.1) h → (b, c) ∈ h → b ≤ x →
  (∀ b' c', (b', c') ∈ h → b < b' → x < b') → ver_at h x = Some c.
Proof.
  intros Hs. unfold ver_at. induction Hs as [|[b0 c0] h Hs IH Hall]; [by intros ?%elem_of_nil|].
  intros Hin Hx Hb. simpl. destruct (decide (b0 ≤ x)) as [Hle|Hgt].
  - apply elem_of_cons in Hin as [[= -> ->]|Hin]; [done|].
    rewrite Forall_forall in Hall. specialize (Hall _ Hin). simpl in Hall.
    specialize (Hb b0 c0 ltac:(constructor) Hall). lia.
  - apply elem_of_cons in Hin as [[= -> ->]|Hin]; [done|].
    specialize (IH Hin Hx). destruct (list_find _ h) as [[i e]|]; simpl in *.
    + apply IH. intros b' c' ?. apply (Hb b' c'). by right.
    + discriminate IH. intros b' c' ?. apply (Hb b' c'). by right.
Qed.

(** A version the search returns to a transaction that does not own the object
    is a committed one, and holds the content of the reader's time. *)
Lemma find_valid_content s x ab d :
  inv s → active x s → txn_id_ (main_ (ob s)) ≠ x →
  find_valid x ab (versions (ob s)) = Val d →
  ver_at (hist s) x = Some (version_content d)
  ∧ (txn_id_ (main_ (ob s)) ≠ 0 → x < txn_id_ (main_ (ob s)))
  ∧ (cts_ (main_ (ob s)) ≠ INF → x < cts_ (main_ (ob s)))
  ∧ x < rts_ (elem_ d) ∧ txn_id_ (elem_ d) = 0.
Proof.
  intros Hinv [Hx Hfin] Hown Hf. apply find_valid_sound in Hf as (Hin & Hl & Hv).
  pose proof (inv_dirty _ Hinv) as Hd. rewrite Forall_forall in Hd. specialize (Hd _ Hin). simpl in Hd.
  apply is_valid_for_true in Hv as [Hv|Hv]; [congruence|].
  assert (txn_id_ (elem_ d) = 0) as Hfree.
  { destruct Hl as [?|Hl]; [done|]. pose proof (inv_locked _ Hinv) as Hlk.
    rewrite Forall_forall in Hlk. specialize (Hlk _ Hin). simpl in Hlk.
    destruct Hlk; [lia|rewrite Hl in *; naive_solver..]. }
  pose proof (inv_free _ Hinv) as Hok. rewrite Forall_forall in Hok.
  destruct (Hok _ Hin Hfree) as [H1 H2 H3 H4 [H5|[H5 H6]]]; [lia|].
  split_and!; [|intros ?%H3; lia|intros ?%H4; lia|lia|done].
  apply (ver_at_intro _ _ (bts_ (elem_ d))); [apply Hinv|done|lia|].
  intros b' c' Hbc Hlt. specialize (H6 _ _ Hbc Hlt). lia.
Qed.


Lemma set_rts_rts x (o : obj B) : rts_ (set_rts x o) = Z.max (rts_ o) x.
Proof. unfold set_rts. case_bool_decide; simpl; lia. Qed.
Lemma set_rts_fields x (o : obj B) :
  txn_id_ (set_rts x o) = txn_id_ o ∧ bts_ (set_rts x o) = bts_ o ∧ cts_ (set_rts x o) = cts_ o
  ∧ d_ (set_rts x o) = d_ o ∧ body_ (set_rts x o) = body_ o.
Proof. unfold set_rts. by case_bool_decide. Qed.

(** Raising the object's read timestamp keeps the invariant. *)
Definition touch (x : Z) (s : mstate) : mstate := with_ob (set_main (set_rts x) (ob s)) s.

Lemma inv_touch x s : inv s → inv (touch x s).
Proof.
  intros Hinv. pose proof (set_rts_fields x (main_ (ob s))) as (E1 & E2 & E3 & E4 & E5).
  pose proof (set_rts_rts x (main_ (ob s))) as E6.
  destruct Hinv as [Ha Hm Hd Hh Hs Hf Hfr Hl Ho Hde].
  split; simpl; rewrite ?E1, ?E2, ?E3, ?E4, ?E5, ?E6; try done.
  - eapply Forall_impl; [exact Hfr|]. intros d Hok H0. destruct (Hok H0) as [? ? ? ? ?].
    split; simpl; rewrite ?E1, ?E2, ?E3, ?E6; try done. lia.
  - destruct Ho as [?|[]]; [by left|right]. split; simpl; rewrite ?E1, ?E2, ?E3, ?E6; try done. lia.
  - intros H0. destruct (Hde H0) as (? & ? & ?). split_and!; [done|lia|done].
Qed.

(** ** Writing *)
Lemma own_version_None s x :
  inv s → active x s → txn_id_ (main_ (ob s)) ≠ x → own_version x (versions (ob s)) = None.
Proof.
  intros Hinv [Hx Hfin] Hne. unfold own_version.
  destruct (list_find _ _) as [[i d]|] eqn:E; [|done]. apply list_find_Some in E as (Hi & Hd & _).
  pose proof (Forall_lookup_1 _ _ _ _ (inv_locked _ Hinv) Hi) as Hl. simpl in Hl.
  rewrite Hd in Hl. destruct Hl; [lia|done|congruence].
Qed.

(** Two versions put in front, under the lock. *)
Lemma inv_write s x w d :
  let m := main_ (ob s) in
  inv s → active x s → (txn_id_ m = 0 ∨ txn_id_ m = x) →
  cts_ m = INF → bts_ m < x → x ≤ rts_ m →
  Forall (λ d, txn_id_ (elem_ d) = 0 → cts_ (elem_ d) ≤ x) (versions (ob s)) →
  txn_id_ (elem_ w) = x → update_mode_ w = true → x ≤ rts_ (elem_ w) → bts_ (elem_ w) = x →
  (cts_ (elem_ w) = INF ∨ cts_ (elem_ w) = x) → d_ (elem_ w) = Some true →
  txn_id_ (elem_ d) = 0 → d_ (elem_ d) = Some true → free_ok (hist s) (set_txn_id x m) d →
  (∃ d', d' ∈ d :: versions (ob s) ∧ txn_id_ (elem_ d') = 0 ∧ bts_ (elem_ d') = bts_ m
         ∧ cts_ (elem_ d') = x) →
  addr_ d = next_addr_ (ob s) → addr_ w = S (next_addr_ (ob s)) →
  inv (with_ob (push w (push d (set_main (set_txn_id x) (ob s)))) s).
Proof.
  intros m Hinv [Hx Hfin] Hlk Hcts Hbts Hrts Hle Hw1 Hw2 Hw3 Hw4 Hw5 Hw6 Hd1 Hd2 Hd3 Hold Ha1 Ha2.
  destruct Hinv as [Ha Hm Hd Hh Hs Hf Hfr Hl Ho Hde].
  split; simpl; try done.
  - apply addrs_ok_push; [by apply addrs_ok_push|done].
  - by repeat constructor.
  - constructor; [rewrite Hw1; lia|]. constructor; [done|].
    eapply Forall_impl; [apply Forall_and; split; [exact Hfr|exact Hle]|]. simpl.
    intros d' [Hok Hx'] H0. specialize (Hok H0). specialize (Hx' H0). destruct Hok. split; try done.
  - constructor; [by right|]. constructor; [done|]. eapply Forall_impl; [exact Hl|]. simpl.
    intros d' Hd' H0. destruct (Hd' H0) as [?|Heq]; [by left|]. right.
    destruct Hlk as [H1|H1]; fold m in Heq; congruence.
  - right. split; simpl; try done. exists w, d, (versions (ob s)). split_and!; try done.
Qed.

Lemma sorted_head b c h b' c' :
  StronglySorted (λ e e' : Z * content, e'.1 < e.1) ((b, c) :: h) → (b', c') ∈ (b, c) :: h → b' ≤ b.
Proof.
  intros Hs Hin. apply StronglySorted_inv in Hs as [_ Hall]. rewrite Forall_forall in Hall.
  apply elem_of_cons in Hin as [[= -> ->]|Hin]; [lia|]. specialize (Hall _ Hin). simpl in Hall. lia.
Qed.

(** The old version of the object itself is a committed one. *)
Lemma old_main_free s x a :
  let m := main_ (ob s) in
  inv s → cts_ m = INF → bts_ m < x → x = rts_ m →
  free_ok (hist s) (set_txn_id x m) (old_copy (set_txn_id x m) x (mprops s) a).
Proof.
  intros m Hinv Hcts Hbts Hrts. destruct (inv_hist _ Hinv) as (c & h & Hh & Hc1 & Hc2).
  fold m in Hh, Hc1, Hc2. split; simpl; try lia; right. split.
  - rewrite Hh. replace (version_content _) with c; [constructor|].
    unfold version_content; simpl. rewrite <-Hc1, <-(Hc2 Hcts). by destruct c.
  - intros b c' Hin Hlt. pose proof (inv_sorted _ Hinv) as Hs. rewrite Hh in *.
    pose proof (sorted_head _ _ _ _ _ Hs Hin). lia.
Qed.

(** The first write of a transaction: the lock and two versions. *)
Lemma inv_first_write s x f q en :
  let m := main_ (ob s) in
  inv s → active x s → txn_id_ m = 0 → bts_ m ≤ x < cts_ m → x = rts_ m → (en = INF ∨ en = x) →
  let t1 := set_main (set_txn_id x) (ob s) in
  inv (with_ob (push (new_copy (main_ t1) x en q f (S (next_addr_ (ob s))))
                  (push (old_copy (main_ t1) x (mprops s) (next_addr_ (ob s))) t1)) s).
Proof.
  intros m Hinv Hact Htx Hv Hrts Hen t1.
  assert (bts_ m < x) as Hlt.
  { destruct (inv_hist _ Hinv) as (c & h & Hh & _). pose proof (inv_finished _ Hinv) as Hf.
    rewrite Hh in Hf. apply Forall_inv in Hf. simpl in Hf. destruct Hact as [_ Hfin].
    destruct (decide (bts_ m = x)) as [E|]; [|lia]. destruct Hfin. by rewrite <-E. }
  assert (cts_ m = INF) as Hcts.
  { destruct (decide (cts_ m = INF)) as [?|Hne]; [done|].
    destruct (inv_deleted _ Hinv Hne) as (_ & ? & _). unfold m in Hv, Hrts; lia. }
  apply inv_write; try done; [by left|fold m; lia| |simpl; fold m; lia|by apply old_main_free|].
  - eapply Forall_impl; [apply (inv_free _ Hinv)|]. intros d Hok H0. destruct (Hok H0).
    fold m in free_rts0. lia.
  - eexists. split; [constructor|]. done.
Qed.

(** The result of reading a version's reference. *)
Lemma at_addr_elem (t : tobj B P) d :
  NoDup (addr_ <$> versions t) → d ∈ versions t → at_addr t (addr_ d) = Some d.
Proof.
  intros Hnd [i Hi]%list_elem_of_lookup. unfold at_addr.
  destruct (list_find _ _) as [[j d']|] eqn:E.
  - simpl. apply list_find_Some in E as (Hj & Ha & _). f_equal.
    assert (i = j) as ->; [|congruence]. eapply (NoDup_lookup _ i j (addr_ d)); [done| |].
    + by rewrite list_lookup_fmap, Hi.
    + by rewrite list_lookup_fmap, Hj, <-Ha.
  - apply list_find_None in E. exfalso. by apply (Forall_lookup_1 _ _ _ _ E Hi).
Qed.

Lemma versions_touch x s : versions (ob (touch x s)) = versions (ob s).
Proof. done. Qed.

(** What [get_valid_version] can return to an active transaction. *)
Lemma get_valid_cases s x t r :
  inv s → active x s → get_valid_version x (ob s) = (t, Val r) →
  t = ob s ∧
  ((r = Main ∧ txn_id_ (main_ (ob s)) = 0 ∧ bts_ (main_ (ob s)) ≤ x < cts_ (main_ (ob s)))
   ∨ ∃ d, r = Dirty (addr_ d) ∧ find_valid x false (versions (ob s)) = Val d).
Proof.
  intros Hinv Hact Hg. pose proof (get_valid_version_state x (ob s)) as Ht. rewrite Hg in Ht.
  simpl in Ht. split; [done|]. subst t. unfold get_valid_version, find_valid_version in Hg.
  destruct (is_locked_by (main_ (ob s)) x) eqn:E1.
  - destruct (has_dirty_versions _ _); [|done]. right.
    destruct (find_valid _ _ _) as [d|]; simplify_eq/=. eauto.
  - destruct (is_locked (main_ (ob s))) eqn:E2; simpl in Hg.
    + right. destruct (has_dirty_versions _ _); [|done].
      destruct (find_valid _ _ _) as [d|]; simplify_eq/=. destruct (_ || _); simplify_eq. eauto.
    + destruct (is_valid_for (main_ (ob s)) x) eqn:E3.
      * left. simplify_eq. apply is_valid_for_true in E3 as [E3|E3].
        { by rewrite (inv_main _ Hinv) in E3. }
        split; [done|]. split; [|done]. unfold is_locked in E2.
        by apply bool_decide_eq_false, dec_stable in E2.
      * right. destruct (has_dirty_versions _ _); [|done].
        destruct (find_valid _ _ _) as [d|]; simplify_eq/=. eauto.
Qed.

(** A transaction that holds the lock finds its own version, and nothing else. *)
Lemma find_valid_owner s x w l d ab :
  versions (ob s) = w :: l → txn_id_ (elem_ w) = x → d_ (elem_ w) = Some true →
  bts_ (elem_ w) = x → (cts_ (elem_ w) = INF ∨ cts_ (elem_ w) = x) → 0 < x < INF →
  find_valid x ab (versions (ob s)) = Val d → d = w ∧ cts_ (elem_ w) = INF.
Proof.
  intros Hv Hw Hd Hb Hc Hx. rewrite Hv. simpl.
  assert (is_locked_by (elem_ w) x = true) as -> by (by apply is_locked_by_true).
  rewrite orb_true_r. destruct (is_valid_for (elem_ w) x) eqn:E.
  - intros [= <-]. split; [done|]. apply is_valid_for_true in E as [E|E]; [congruence|].
    destruct Hc; [done|lia].
  - destruct Hc as [Hc|Hc].
    + unfold is_valid_for in E. apply orb_false_iff in E as [_ E]. apply bool_decide_eq_false in E.
      exfalso. apply E. lia.
    + simpl. rewrite bool_decide_eq_true_2 by congruence. done.
Qed.

(** Changing the own version in place. *)
Lemma inv_in_place s x w l g f :
  inv s → txn_id_ (main_ (ob s)) = x → x ≠ 0 → versions (ob s) = w :: l → txn_id_ (elem_ w) = x →
  inv (with_ob (on_dirty (addr_ w) (λ d, set_props g (set_elem (set_body f) d)) (ob s)) s).
Proof.
  intros Hinv Hm Hx Hv Hw.
  destruct (ob s) as [m dl n] eqn:Hob. destruct dl as [l'|]; [|done].
  unfold versions in Hv; simpl in Hv, Hm. subst l'.
  destruct Hinv as [Ha Hmn Hd Hh Hs Hf Hfr Hl Ho Hde]. rewrite Hob in *. simpl in *.
  rewrite on_dirty_hd by apply Ha. unfold versions in Hd, Hfr, Hl; simpl in Hd, Hfr, Hl.
  apply Forall_cons in Hd as [Hd1 Hd2]. apply Forall_cons in Hfr as [_ Hfr2].
  apply Forall_cons in Hl as [Hl1 Hl2].
  split; simpl; try done.
  - destruct Ha as [Ha1 Ha2]. split; [done|]. unfold versions in *; simpl in *.
    apply Forall_cons in Ha2 as [? ?]. by constructor.
  - by constructor.
  - constructor; [|done]. simpl. rewrite Hw. lia.
  - by constructor.
  - destruct Ho as [?|[H1 H2 H3 H4 H5 H6]]; [lia|]. right. rewrite Hob in *. split; simpl; try done.
    destruct H5 as (w' & d & l'' & Hv & ?). unfold versions in Hv; simpl in Hv. simplify_eq.
    by eexists _, d, l''.
  - intros Hc. destruct (Hde Hc) as (? & _). lia.
Qed.

(** After the read and the lock, a writer works on the object itself, which it
    has just locked, or on its own version; otherwise nothing has changed but
    the read timestamp. *)
Lemma fetch_acquire s x t r :
  inv s → active x s → (r' ← fetch x; acquire r' x;; mret r') (ob s) = (t, r) →
  match r with
  | Exn _ => t = ob (touch x s)
  | Val r =>
    (r = Main ∧ let m := main_ (ob (touch x s)) in
      txn_id_ m = 0 ∧ bts_ m ≤ x < cts_ m ∧ x = rts_ m
      ∧ t = set_main (set_txn_id x) (ob (touch x s)))
    ∨ (∃ w l, r = Dirty (addr_ w) ∧ versions (ob s) = w :: l ∧ txn_id_ (elem_ w) = x
        ∧ txn_id_ (main_ (ob s)) = x ∧ cts_ (elem_ w) = INF ∧ t = ob (touch x s))
  end.
Proof.
  intros Hinv Hact. unfold mbind, M_bind. rewrite (fetch_eq x (ob s) false) by apply Hinv.
  pose proof (inv_touch x s Hinv) as Hinv0. set (s0 := touch x s) in *.
  change (set_main (set_rts x) (ob s)) with (ob s0).
  assert (active x s0) as Hact0 by done.
  destruct (get_valid_version x (ob s0)) as [t1 [r1|e]] eqn:Hg.
  2:{ intros [= <- <-]. pose proof (get_valid_version_state x (ob s0)) as Ht. by rewrite Hg in Ht. }
  destruct (get_valid_cases s0 x t1 r1 Hinv0 Hact0 Hg) as [-> [(-> & Hfree & Hv)|(d & -> & Hf)]].
  - rewrite (acquire_eq Main x (ob s0) (main_ (ob s0))) by done.
    case_decide as Hr; [by intros [= <- <-]|]. destruct Hact as [Hx _].
    rewrite decide_False by lia. rewrite decide_True by done.
    rewrite (put_eq _ Main _ (main_ (ob s0))) by done. intros [= <- <-]. left. split; [done|].
    split_and!; try done; try lia. unfold s0, touch; simpl. rewrite set_rts_rts.
    unfold s0, touch in Hr; simpl in Hr. rewrite set_rts_rts in Hr. lia.
  - assert (at_addr (ob s0) (addr_ d) = Some d) as Hat.
    { apply at_addr_elem; [apply Hinv0|]. by apply find_valid_sound in Hf as [? _]. }
    rewrite (acquire_eq (Dirty (addr_ d)) x (ob s0) (elem_ d)) by (unfold deref; by rewrite Hat).
    case_decide as Hr; [by intros [= <- <-]|].
    destruct (decide (txn_id_ (main_ (ob s)) = x)) as [Hm|Hm].
    + destruct Hact as [Hx _].
      assert (owned x s0) as [_ _ _ _ (w & d2 & l & Hvs & Hw & _ & _ & Hb & Hc & _) _].
      { destruct (inv_owner _ Hinv0) as [H0|H0]; unfold s0, touch in H0; simpl in H0;
          pose proof (set_rts_fields x (main_ (ob s))) as (E1 & _); rewrite E1 in H0; [lia|].
        by rewrite Hm in H0. }
      assert (d_ (elem_ w) = Some true) as Hwd.
      { pose proof (inv_dirty _ Hinv0) as Hd. rewrite Hvs in Hd. by inversion Hd. }
      destruct (find_valid_owner s0 x w _ d false Hvs Hw Hwd Hb Hc Hx Hf) as [-> Hci].
      rewrite decide_True by done. intros [= <- <-]. right. exists w, (d2 :: l). done.
    + assert (txn_id_ (main_ (ob s0)) ≠ x) as Hm0.
      { unfold s0, touch; simpl. pose proof (set_rts_fields x (main_ (ob s))) as (E1 & _). by rewrite E1. }
      destruct (find_valid_content s0 x false d Hinv0 Hact0 Hm0 Hf) as (_ & _ & _ & ? & _). lia.
Qed.

Lemma fetch_acquire_bind {A} x (k : vref → M (tobj B P) A) (t : tobj B P) :
  (r ← fetch x; acquire r x;; k r) t =
  ((r ← (r' ← fetch x; acquire r' x;; mret r'); k r) : M (tobj B P) A) t.
Proof.
  unfold mbind, M_bind, mret, M_ret. destruct (fetch x t) as [t1 [r|e]]; [|done].
  by destruct (acquire r x t1) as [t2 [[]|e]].
Qed.

(** What a writer that got through did: [first] is the object under its lock
    with two new versions, [again] works on its own front version. *)
Lemma own_hat s x w l :
  inv s → versions (ob s) = w :: l → at_addr (ob (touch x s)) (addr_ w) = Some w.
Proof.
  intros Hinv Hvs. apply at_addr_elem; [apply (inv_touch x s Hinv)|].
  rewrite versions_touch, Hvs. constructor.
Qed.

Definition can_lock (x : Z) (s : mstate) : Prop :=
  let m := main_ (ob s) in txn_id_ m = 0 ∧ bts_ m ≤ x < cts_ m ∧ x = rts_ m.

Lemma update_spec s x g f t out :
  inv s → active x s → update_op x (mprops s) g f (ob s) = (t, out) →
  t = ob (touch x s)
  ∨ (can_lock x (touch x s) ∧
     let t1 := set_main (set_txn_id x) (ob (touch x s)) in
     t = push (new_copy (main_ t1) x INF (g (mprops s)) f (S (next_addr_ (ob s))))
           (push (old_copy (main_ t1) x (mprops s) (next_addr_ (ob s))) t1))
  ∨ (∃ w l, versions (ob s) = w :: l ∧ txn_id_ (elem_ w) = x ∧ txn_id_ (main_ (ob s)) = x
       ∧ t = on_dirty (addr_ w) (λ d, set_props g (set_elem (set_body f) d)) (ob (touch x s))).
Proof.
  intros Hinv Hact. unfold update_op. rewrite fetch_acquire_bind. unfold mbind at 1, M_bind at 1.
  destruct ((r' ← fetch x; acquire r' x;; mret r') (ob s)) as [t1 r] eqn:Hfa.
  pose proof (fetch_acquire s x t1 r Hinv Hact Hfa) as Hspec. pose proof (inv_touch x s Hinv) as Hinv0.
  destruct r as [r|e]; [|intros [= <- <-]; by left].
  destruct Hspec as [(-> & Hm & Hv & Hr & ->)|(w & l & -> & Hvs & Hw & Hm & Hc & ->)].
  - rewrite (write_version_first _ Main (set_txn_id x (main_ (ob (touch x s)))));
      [|apply Hinv0|done|change (is_Some (d_ (main_ (ob (touch x s))))); by rewrite (inv_main _ Hinv0)|].
    + intros [= <- <-]. right. left. done.
    + apply (own_version_None (touch x s)); [done|done|]. destruct Hact. lia.
  - unfold write_version, own_dirty, mbind, M_bind, self, deref.
    rewrite (own_hat s x w l Hinv Hvs). cbn [fmap option_fmap option_map].
    assert (has_dirty_versions (ob (touch x s)) (elem_ w) = true) as Hhd.
    { unfold has_dirty_versions. rewrite versions_touch, Hvs.
      pose proof (inv_dirty _ Hinv) as Hd. rewrite Hvs in Hd. apply Forall_inv in Hd. simpl in Hd.
      by rewrite Hd. }
    unfold get_st, mret, M_ret, get_dirty_version. rewrite Hhd, versions_touch, Hvs, own_version_front by done.
    unfold modify. intros [= <- <-]. right. right. eauto 10.
Qed.

Lemma unlock_locked x (t : tobj B P) : txn_id_ (main_ t) = 0 → set_main unlock (set_main (set_txn_id x) t) = t.
Proof. intros Ht. destruct t as [[] ? ?]. unfold set_main, unlock, set_txn_id. simpl in *. by subst. Qed.
Lemma delete_spec s x connected q t out :
  inv s → active x s → (connected = true → txn_id_ (main_ (ob s)) ≠ x) →
  delete_op connected x (mprops s) q (ob s) = (t, out) →
  t = ob (touch x s)
  ∨ (can_lock x (touch x s) ∧
     let t1 := set_main (set_txn_id x) (ob (touch x s)) in
     t = push (new_copy (main_ t1) x x q id (S (next_addr_ (ob s))))
           (push (old_copy (main_ t1) x (mprops s) (next_addr_ (ob s))) t1))
  ∨ (∃ w l, versions (ob s) = w :: l ∧ txn_id_ (elem_ w) = x ∧ txn_id_ (main_ (ob s)) = x
       ∧ t = push (new_copy (elem_ w) x x q id (S (next_addr_ (ob s))))
               (push (old_copy (elem_ w) x (mprops s) (next_addr_ (ob s))) (ob (touch x s)))).
Proof.
  intros Hinv Hact Hown. unfold delete_op. rewrite fetch_acquire_bind. unfold mbind at 1, M_bind at 1.
  destruct ((r' ← fetch x; acquire r' x;; mret r') (ob s)) as [t1 r] eqn:Hfa.
  pose proof (fetch_acquire s x t1 r Hinv Hact Hfa) as Hspec. pose proof (inv_touch x s Hinv) as Hinv0.
  destruct r as [r|e]; [|intros [= <- <-]; by left].
  destruct Hspec as [(-> & Hm & Hv & Hr & ->)|(w & l & -> & Hvs & Hw & Hm & Hc & ->)];
    (destruct connected; [|]).
  - intros [= <- <-]. left. by apply unlock_locked.
  - rewrite (delete_versions_eq _ Main (set_txn_id x (main_ (ob (touch x s)))));
      [|apply Hinv0|done|change (is_Some (d_ (main_ (ob (touch x s))))); by rewrite (inv_main _ Hinv0)].
    intros [= <- <-]. right. left. done.
  - by destruct Hown.
  - pose proof (inv_dirty _ Hinv) as Hd. rewrite Hvs in Hd. apply Forall_inv in Hd. simpl in Hd.
    rewrite (delete_versions_eq _ _ (elem_ w));
      [|apply Hinv0|unfold deref; by rewrite (own_hat s x w l)|by rewrite Hd].
    intros [= <- <-]. right. right. eauto 10.
Qed.

Lemma touch_txn x s : txn_id_ (main_ (ob (touch x s))) = txn_id_ (main_ (ob s)).
Proof. unfold touch; simpl. by pose proof (set_rts_fields x (main_ (ob s))) as (-> & _). Qed.

Lemma inv_owned s x : inv s → txn_id_ (main_ (ob s)) = x → 0 < x → owned x s.
Proof. intros Hinv Hx H0. destruct (inv_owner _ Hinv) as [?|Ho]; [lia|]. by rewrite Hx in Ho. Qed.

Lemma update_inv s x g f t out :
  inv s → active x s → update_op x (mprops s) g f (ob s) = (t, out) → inv (with_ob t s).
Proof.
  intros Hinv Hact Hu. pose proof (inv_touch x s Hinv) as Hinv0. pose proof Hact as [Hx _].
  destruct (update_spec s x g f t out Hinv Hact Hu) as [->|[[(Hm & Hv & Hr) ->]|(w & l & Hvs & Hw & Hm & ->)]].
  - done.
  - apply (inv_first_write (touch x s) x f (g (mprops s)) INF); try done. by left.
  - apply (inv_in_place (touch x s) x w l); try done; [|lia]. by rewrite touch_txn.
Qed.

Lemma delete_inv s x connected q t out :
  inv s → active x s → (connected = true → txn_id_ (main_ (ob s)) ≠ x) →
  delete_op connected x (mprops s) q (ob s) = (t, out) → inv (with_ob t s).
Proof.
  intros Hinv Hact Hown Hu. pose proof (inv_touch x s Hinv) as Hinv0. pose proof Hact as [Hx _].
  destruct (delete_spec s x connected q t out Hinv Hact Hown Hu) as [->|[[(Hm & Hv & Hr) ->]|(w & l & Hvs & Hw & Hm & ->)]].
  - done.
  - apply (inv_first_write (touch x s) x id q x); try done. by right.
  - rewrite <-(touch_txn x) in Hm.
    pose proof (inv_dirty _ Hinv) as Hd. rewrite Hvs in Hd. apply Forall_inv in Hd. simpl in Hd.
    destruct (inv_owned (touch x s) x Hinv0 Hm ltac:(lia)) as [_ Ho2 Ho3 Ho4
      (w' & d2 & l' & Hvs' & _ & Hwu & Hwr & Hwb & Hwc & Hd0) (d' & Hd'1 & Hd'2 & Hd'3 & Hd'4)].
    rewrite versions_touch, Hvs in Hvs'. injection Hvs' as <- ->.
    assert (set_main (set_txn_id x) (ob (touch x s)) = ob (touch x s)) as Hid.
    { unfold set_main, set_txn_id. rewrite <-Hm at 1. by destruct (ob (touch x s)) as [[]]. }
    pose proof (inv_write (touch x s) x (new_copy (elem_ w) x x q id (S (next_addr_ (ob s))))
      (old_copy (elem_ w) x (mprops s) (next_addr_ (ob s)))) as Hwr2.
    rewrite Hid in Hwr2. apply Hwr2; clear Hwr2 Hid; try done.
    + by right.
    + eapply Forall_impl; [apply (inv_free _ Hinv0)|]. intros d Hok H0. destruct (Hok H0).
      rewrite Hm in *. lia.
    + by right.
    + split; unfold old_copy, set_txn_id; cbn [elem_ cts_ bts_ rts_ txn_id_]; try lia.
    + exists d'. split; [|done]. right. revert Hd'1. rewrite versions_touch, Hvs. simpl. by right.
Qed.

(** ** Commit, abort and garbage collection *)
Lemma gc_eq oldest (t : tobj B P) b :
  d_ (main_ t) = Some b →
  ∃ dl, gc oldest t = (mk_tobj (main_ t) dl (next_addr_ t), Val tt)
    ∧ default [] dl = filter (λ d, ¬ cts_ (elem_ d) ≤ oldest) (versions t).
Proof.
  intros Hd. destruct t as [m l n]; simpl in Hd.
  unfold gc, mbind, M_bind, get_st, when, modify, mret, M_ret, throw.
  unfold has_dirty_versions, versions; simpl. rewrite Hd. simpl.
  destruct l as [l|]; simpl; [|rewrite Hd; by eexists].
  case_bool_decide as E1; simpl.
  - rewrite Hd. simpl. case_bool_decide as E2; simpl; [by eexists|].
    exists None. by rewrite E2.
  - subst l. rewrite Hd. by exists None.
Qed.

Lemma Forall_sublist {A} (Q : A → Prop) l l' : sublist l' l → Forall Q l → Forall Q l'.
Proof.
  intros Hs. rewrite !Forall_forall. intros HQ x Hx. apply HQ. by eapply elem_of_sublist.
Qed.

Lemma addrs_ok_sublist (m m' : obj B) l l' dl dl' n :
  default [] dl = l → default [] dl' = l' → sublist l' l →
  addrs_ok (mk_tobj (P:=P) m dl n) → addrs_ok (mk_tobj m' dl' n).
Proof.
  intros H1 H2 Hs [Hnd Hf]. unfold addrs_ok, versions in *; simpl in *. rewrite H1 in *. rewrite H2. split.
  - eapply sublist_NoDup; [exact Hnd|]. by apply fmap_sublist.
  - by eapply Forall_sublist.
Qed.

Lemma filter_sublist' (l : list (dirty_object B P)) (Q : dirty_object B P → Prop) `{∀ d, Decision (Q d)} :
  sublist (filter Q l) l.
Proof. induction l as [|d l IH]; [done|]. rewrite filter_cons. case_decide; by constructor. Qed.

(** Collecting versions of an unlocked object. *)
Lemma gc_inv s oldest t out :
  inv s → txn_id_ (main_ (ob s)) = 0 → gc oldest (ob s) = (t, out) →
  inv (mk_ms t (mprops s) (hist s) (finished s) (Z.max oldest (horizon s))).
Proof.
  intros Hinv Hm Hgc. destruct (gc_eq oldest (ob s) false) as (dl & Heq & Hdl); [apply Hinv|].
  rewrite Heq in Hgc. injection Hgc as <- <-.
  destruct Hinv as [Ha Hmn Hd Hh Hs Hf Hfr Hl Ho Hde].
  assert (sublist (default [] dl) (versions (ob s))) as Hsub by (rewrite Hdl; apply filter_sublist').
  split; simpl; try done.
  - eapply (addrs_ok_sublist (main_ (ob s)) _ (versions (ob s)) (default [] dl) (dirty_list_ (ob s)));
      [done|done|done|by destruct (ob s)].
  - by eapply Forall_sublist.
  - by eapply Forall_sublist.
  - by eapply Forall_sublist.
  - by left.
  - intros Hc. destruct (Hde Hc) as (_ & Hr & Hex). split_and!; [done|done|].
    destruct Hex as [(d & Hin & Hfree & Hcts)|Hle]; [|right; lia].
    destruct (decide (cts_ (main_ (ob s)) ≤ oldest)); [right; lia|].
    left. exists d. split; [|done]. unfold versions; simpl. rewrite Hdl.
    apply list_elem_of_filter. split; [by rewrite Hcts|done].
Qed.

Lemma versions_mk (m : obj B) (l : list (dirty_object B P)) n :
  versions (mk_tobj m (Some l) n) = l.
Proof. done. Qed.

Lemma unlock_front_eq (m : obj B) (d : dirty_object B P) l n :
  NoDup (addr_ <$> d :: l) → txn_id_ (elem_ d) = 0 →
  unlock_front (mk_tobj m (Some (d :: l)) n) = (mk_tobj m (Some (d :: l)) n, Val tt).
Proof.
  intros Hnd Hd. unfold unlock_front, mbind, M_bind, get_st, versions; simpl.
  rewrite (put_eq _ (Dirty (addr_ d)) unlock (elem_ d)) by (unfold deref; by rewrite at_addr_head).
  rewrite on_dirty_hd by done. do 4 f_equal. destruct d as [? [] ? ?]; simpl in *. by subst.
Qed.

(** The owner finishes: its front version goes, the lock is released, and the
    object becomes what the transaction made of it, or a deleted one. *)
Definition release_deleted (x : Z) (m : obj B) : obj B := unlock (set_cts x m).
Definition release_updated (x : Z) (m w : obj B) : obj B :=
  unlock (set_timestamps x INF (set_body (λ b, copy_fields b (body_ w)) m)).

Lemma inv_release_deleted s x w l n :
  inv s → owned x s → txn_id_ (main_ (ob s)) = x → versions (ob s) = w :: l →
  n = next_addr_ (ob s) →
  inv (mk_ms (mk_tobj (release_deleted x (main_ (ob s))) (Some l) n) (mprops s) (hist s)
         ({[x]} ∪ finished s) (horizon s)).
Proof.
  intros [Ha Hm Hd Hh Hs Hf Hfr Hl _ _] Ho Hx Hv ->.
  destruct Ho as [[Hox Hfin] Hoc Hob Hor _ (d & Hd1 & Hd2 & Hd3 & Hd4)].
  destruct Ha as [Ha1 Ha2]. rewrite Hv in *. simpl in Hd1.
  apply Forall_cons in Hd as [_ Hd]. apply Forall_cons in Hfr as [_ Hfr].
  apply Forall_cons in Hl as [_ Hl]. apply Forall_cons in Ha2 as [_ Ha2].
  split; simpl; rewrite ?versions_mk; try done.
  - split; [|done]. by apply NoDup_cons in Ha1 as [_ ?].
  - destruct Hh as (c & h & -> & Hc & _). exists c, h. split_and!; [done|done|]. lia.
  - eapply Forall_impl; [exact Hf|]. intros e ?. apply elem_of_union. by right.
  - eapply Forall_impl; [exact Hfr|]. intros d' Hok H0. destruct (Hok H0) as [? ? Ho ? ?].
    split; simpl; try done. intros _. rewrite Hx in Ho. apply Ho. lia.
  - eapply Forall_impl; [exact Hl|]. simpl. intros d' Hl' H0. left.
    apply elem_of_union. destruct (Hl' H0) as [?|Heq]; [by right|left]. rewrite Heq, Hx. by apply elem_of_singleton.
  - by left.
  - intros _. split_and!; [done|done|]. left. by exists d.
Qed.

Lemma inv_release_updated s x w l n :
  inv s → owned x s → txn_id_ (main_ (ob s)) = x → versions (ob s) = w :: l →
  n = next_addr_ (ob s) →
  inv (mk_ms (mk_tobj (release_updated x (main_ (ob s)) (elem_ w)) (Some l) n) (properties_ w)
         ((x, version_content w) :: hist s) ({[x]} ∪ finished s) (horizon s)).
Proof.
  intros [Ha Hm Hd Hh Hs Hf Hfr Hl _ _] Ho Hx Hv ->.
  destruct Ho as [[Hox Hfin] Hoc Hob Hor _ _].
  destruct Ha as [Ha1 Ha2]. rewrite Hv in *.
  apply Forall_cons in Hd as [_ Hd]. apply Forall_cons in Hfr as [_ Hfr].
  apply Forall_cons in Hl as [_ Hl]. apply Forall_cons in Ha2 as [_ Ha2].
  split; simpl; rewrite ?versions_mk; try done.
  - split; [|done]. by apply NoDup_cons in Ha1 as [_ ?].
  - eexists _, _. split_and!; [done| |done]. simpl. by rewrite copy_key.
  - constructor; [done|]. destruct Hh as (c & h & Hh & _). apply Forall_forall.
    intros [b' c'] Hin. rewrite Hh in Hin, Hs. pose proof (sorted_head _ _ _ _ _ Hs Hin). simpl. lia.
  - constructor; [apply elem_of_union; left; by apply elem_of_singleton|].
    eapply Forall_impl; [exact Hf|]. intros e ?. apply elem_of_union. by right.
  - eapply Forall_impl; [exact Hfr|]. intros d' Hok H0. destruct (Hok H0) as [? ? How ? Hhi].
    rewrite Hx in How. specialize (How ltac:(lia)). split; simpl; try done.
    destruct Hhi as [?|[Hin Hbc]]; [by left|right]. split; [by right|].
    intros b c [[= -> ->]|Hbc']%elem_of_cons; [done|by apply (Hbc b c)].
  - eapply Forall_impl; [exact Hl|]. simpl. intros d' Hl' H0. left.
    apply elem_of_union. destruct (Hl' H0) as [?|Heq]; [by right|left]. rewrite Heq, Hx. by apply elem_of_singleton.
  - by left.
Qed.

Lemma commit_eq s x oldest w l :
  inv s → active x s → txn_id_ (main_ (ob s)) = x → versions (ob s) = w :: l →
  let m' := if bool_decide (bts_ (elem_ w) = cts_ (elem_ w)) then release_deleted x (main_ (ob s))
            else release_updated x (main_ (ob s)) (elem_ w) in
  commit_version copy_fields x oldest (ob s) =
    gc oldest (mk_tobj m' (Some l) (next_addr_ (ob s))).
Proof.
  intros Hinv [Hx _] Hm Hv m'.
  destruct (inv_owned s x Hinv Hm ltac:(lia)) as [_ Hc _ _ (w' & d & l' & Hv' & _ & Hup & _ & _ & _ & Hd) _].
  rewrite Hv in Hv'. injection Hv' as <- ->.
  pose proof (inv_main _ Hinv) as Hdm. pose proof (inv_addrs _ Hinv) as [Hnd _]. rewrite Hv in Hnd.
  apply NoDup_cons in Hnd as [_ Hnd]. destruct (ob s) as [m dl next_addr_0]. simpl in *.
  destruct dl as [l|]; [|done]. unfold versions in Hv; simpl in Hv. subst l.
  set (t := mk_tobj m (Some (w :: d :: l')) next_addr_0).
  assert (classify t = if bool_decide (bts_ (elem_ w) = cts_ (elem_ w))
                       then commit_delete w else commit_update w) as Hcl.
  { unfold classify, has_dirty_versions, t; simpl. rewrite Hc, Hdm. simpl. by rewrite Hup. }
  unfold commit_version, mbind, M_bind, get_st. rewrite Hcl. unfold m'. case_bool_decide as E.
  - rewrite (put_eq t Main _ m) by done. unfold pop_front, modify, set_list, t; cbn -[gc put unlock_front].
    rewrite unlock_front_eq by done. by rewrite (put_eq _ Main _ (set_cts x m)).
  - rewrite (put_eq t Main _ m) by done. unfold assert_, t; cbn -[gc put unlock_front].
    rewrite bool_decide_eq_true_2 by lia. unfold pop_front, modify, set_list, set_main; cbn -[gc put unlock_front].
    rewrite unlock_front_eq by done. by erewrite (put_eq _ Main).
Qed.

Lemma commit_inv s x t out oldest w l :
  inv s → active x s → txn_id_ (main_ (ob s)) = x → versions (ob s) = w :: l →
  commit_version copy_fields x oldest (ob s) = (t, out) →
  inv (if bool_decide (bts_ (elem_ w) = cts_ (elem_ w))
       then mk_ms t (mprops s) (hist s) ({[x]} ∪ finished s) (Z.max oldest (horizon s))
       else mk_ms t (properties_ w) ((x, version_content w) :: hist s) ({[x]} ∪ finished s)
              (Z.max oldest (horizon s))).
Proof.
  intros Hinv Hact Hm Hv Hc. rewrite (commit_eq s x oldest w l) in Hc by done.
  pose proof Hact as [Hx _]. pose proof (inv_owned s x Hinv Hm ltac:(lia)) as Ho.
  case_bool_decide.
  - by eapply (gc_inv (mk_ms _ _ _ _ _)); [eapply inv_release_deleted| |].
  - by eapply (gc_inv (mk_ms _ _ _ _ _)); [eapply inv_release_updated| |].
Qed.

Lemma abort_eq s x :
  inv s → active x s → txn_id_ (main_ (ob s)) = x →
  ∃ b, abort_version x (ob s) =
    (mk_tobj (unlock (main_ (ob s)))
       (Some (filter (λ d, ¬ (txn_id_ (elem_ d) = x ∧ cts_ (elem_ d) = INF)) (versions (ob s))))
       (next_addr_ (ob s)), Val b).
Proof.
  intros Hinv [Hx _] Hm.
  destruct (inv_owned s x Hinv Hm ltac:(lia)) as [_ _ _ _ (w & d & l & Hv & _) _].
  pose proof (inv_main _ Hinv) as Hdm. destruct (ob s) as [m dl n]. simpl in *.
  destruct dl as [l'|]; [|done]. unfold versions in Hv; simpl in Hv. subst l'.
  unfold abort_version, mbind, M_bind, get_st, lift_res, updated_in_version, remove_dirty_version,
    mbind, M_bind, self, get_st, has_dirty_versions, versions; cbn -[put].
  rewrite Hdm. cbn -[put].
  unfold modify, set_list; cbn -[put]. rewrite (put_eq _ Main _ m) by done. by eexists.
Qed.

Lemma abort_inv s x t out :
  inv s → active x s → txn_id_ (main_ (ob s)) = x → abort_version x (ob s) = (t, out) →
  inv (mk_ms t (mprops s) (hist s) ({[x]} ∪ finished s) (horizon s)).
Proof.
  intros Hinv Hact Hm Hab. destruct (abort_eq s x Hinv Hact Hm) as [b Heq]. rewrite Heq in Hab.
  injection Hab as <- _. pose proof Hact as [Hx _].
  destruct (inv_owned s x Hinv Hm ltac:(lia)) as [_ Hc _ _ _ _].
  destruct Hinv as [Ha Hmn Hd Hh Hs Hf Hfr Hl _ _].
  set (l' := filter _ _). assert (sublist l' (versions (ob s))) as Hsub by apply filter_sublist'.
  split; simpl; rewrite ?versions_mk; try done.
  - eapply (addrs_ok_sublist (main_ (ob s)) _ (versions (ob s)) l' (dirty_list_ (ob s)));
      [done|done|done|by destruct (ob s)].
  - by eapply Forall_sublist.
  - eapply Forall_impl; [exact Hf|]. intros e ?. apply elem_of_union. by right.
  - eapply Forall_sublist; [done|]. eapply Forall_impl; [exact Hfr|]. intros d Hok H0.
    destruct (Hok H0). by split.
  - eapply Forall_sublist; [done|]. eapply Forall_impl; [exact Hl|]. simpl.
    intros d Hok H0. left.
    apply elem_of_union. destruct (Hok H0) as [?|Hy]; [by right|left]. rewrite Hy, Hm. by apply elem_of_singleton.
  - by left.
Qed.

Lemma finish_inv s x :
  inv s → active x s → txn_id_ (main_ (ob s)) ≠ x →
  inv (mk_ms (ob s) (mprops s) (hist s) ({[x]} ∪ finished s) (horizon s)).
Proof.
  intros [Ha Hm Hd Hh Hs Hf Hfr Hl Ho Hde] Hact Hne. split; simpl; try done.
  - eapply Forall_impl; [exact Hf|]. intros e ?. apply elem_of_union. by right.
  - eapply Forall_impl; [exact Hl|]. simpl. intros d Hok H0.
    destruct (Hok H0); [left; apply elem_of_union; by right|by right].
  - destruct Ho as [?|[[? ?] ? ? ? ? ?]]; [by left|right]. split; simpl; try done. split; [done|].
    intros [?%elem_of_singleton|?]%elem_of_union; naive_solver.
Qed.

(** Every step of the protocol keeps the invariant. *)
Lemma mstep_inv x s s' : inv s → mstep x s s' → inv s'.
Proof.
  intros Hinv Hst. destruct Hst.
  - rewrite (fetch_eq _ _ false) in H0 by apply Hinv.
    pose proof (get_valid_version_state x (set_main (set_rts x) (ob s))) as Ht. rewrite H0 in Ht.
    simpl in Ht. subst t. by apply inv_touch.
  - by eapply update_inv.
  - by eapply delete_inv.
  - by eapply commit_inv.
  - by eapply abort_inv.
  - by apply finish_inv.
  - by eapply gc_inv.
Qed.


Lemma describe_eq s x r :
  inv s → get_valid_version x (ob (touch x s)) = (ob (touch x s), Val r) →
  describe x (mprops s) (ob s) =
    (ob (touch x s),
     match deref (ob (touch x s)) r with
     | None => Exn undefined_behaviour
     | Some n =>
       let from_list := d ← find_valid_version (ob (touch x s)) n x; Val (body_ (elem_ d), properties_ d) in
       if negb (has_dirty_versions (ob (touch x s)) n) then Val (body_ n, mprops s)
       else if negb (is_dirty n) && is_valid_for n x then
         if bool_decide (cts_ n = INF) then Val (body_ n, mprops s) else from_list
       else from_list
     end).
Proof.
  intros Hinv Hg. unfold describe, mbind, M_bind. rewrite (fetch_eq _ _ false) by apply Hinv.
  change (set_main (set_rts x) (ob s)) with (ob (touch x s)). rewrite Hg.
  unfold self, get_st, lift_res. by destruct (deref _ r).
Qed.





(** A run of steps none of which is by [x]. *)
Inductive others (x : Z) : mstate → mstate → Prop :=
  | others_refl s : others x s s
  | others_step y s s' s'' : y ≠ x → mstep y s s' → others x s' s'' → others x s s''.



(** ** The states the protocol reaches *)
Inductive reach : mstate → Prop :=
  | reach_committed t p fin :
      d_ (main_ t) = Some false → dirty_list_ t = None → txn_id_ (main_ t) = 0 →
      cts_ (main_ t) = INF → bts_ (main_ t) ∈ fin → reach (committed t p fin)
  | reach_step x s s' : reach s → mstep x s s' → reach s'.

Lemma reach_inv s : reach s → inv s.
Proof. induction 1; [by apply committed_inv|by eapply mstep_inv]. Qed.

Lemma others_reach x s s' : reach s → others x s s' → reach s'.
Proof. intros Hr Ho. induction Ho; [done|]. apply IHHo. by eapply reach_step. Qed.


(** ** Properties *)





(** A transaction reads its own update before it commits. *)
Theorem own_update_read_back s x g f t b :
  reach s → active x s → txn_id_ (main_ (ob s)) = 0 →
  update_op x (mprops s) g f (ob s) = (t, Val b) →
  b = true ∧ ∃ t', describe x (mprops s) t = (t', Val (f (body_ (main_ (ob s))), g (mprops s))).
Proof.
  intros Hr%reach_inv Ha Hn. pose proof (inv_touch x s Hr) as Hinv0. pose proof Ha as [Hx _].
  unfold update_op. rewrite fetch_acquire_bind. unfold mbind at 1, M_bind at 1.
  destruct ((r' ← fetch x; acquire r' x;; mret r') (ob s)) as [t1 r] eqn:Hfa.
  pose proof (fetch_acquire s x t1 r Hr Ha Hfa) as Hspec. destruct r as [r|e]; [|done].
  destruct Hspec as [(-> & Hm & Hv & Hrt & ->)|(w & l & _ & _ & _ & Hm & _)]; [|lia].
  rewrite (write_version_first _ Main (set_txn_id x (main_ (ob (touch x s)))));
    [|apply Hinv0|done|change (is_Some (d_ (main_ (ob (touch x s))))); by rewrite (inv_main _ Hinv0)
     |apply (own_version_None (touch x s)); [done|done|lia]].
  intros [= <- <-]. split; [done|].
  set (m := set_txn_id x (main_ (ob (touch x s)))) in *.
  set (t1 := set_main (set_txn_id x) (ob (touch x s))).
  set (s1 := with_ob (push (new_copy m x INF (g (mprops s)) f (S (next_addr_ (ob s))))
                 (push (old_copy m x (mprops s) (next_addr_ (ob s))) t1)) s).
  assert (inv s1) as Hinv1.
  { apply (inv_first_write (touch x s) x f (g (mprops s)) INF); try done. by left. }
  set (w := new_copy m x INF (g (mprops s)) f (S (next_addr_ (ob s)))) in *.
  assert (find_valid x false (versions (ob s1)) = Val w) as Hf.
  { change (versions (ob s1)) with (w :: old_copy m x (mprops s) (next_addr_ (ob s)) :: versions (ob s)).
    cbn [find_valid]. assert (is_locked_by (elem_ w) x = true) as -> by (by apply is_locked_by_true).
    rewrite orb_true_r.
    assert (is_valid_for (elem_ w) x = true) as ->; [|done].
    apply is_valid_for_true. right. simpl. lia. }
  assert (∀ o, d_ o = Some true ∨ o = main_ (ob (touch x s1)) → has_dirty_versions (ob (touch x s1)) o = true) as Hhd.
  { intros o Ho. unfold has_dirty_versions. rewrite versions_touch.
    assert (is_Some (d_ o)) as Hs.
    { destruct Ho as [->| ->]; [by eexists|]. pose proof (inv_touch x s1 Hinv1) as Hi.
      rewrite (inv_main _ Hi). by eexists. }
    rewrite bool_decide_eq_true_2 by done. apply bool_decide_eq_true_2. done. }
  assert (get_valid_version x (ob (touch x s1)) = (ob (touch x s1), Val (Dirty (addr_ w)))) as Hg.
  { unfold get_valid_version, find_valid_version. pose proof (touch_txn x s1) as Ht.
    assert (is_locked_by (main_ (ob (touch x s1))) x = true) as -> by (apply is_locked_by_true; by rewrite Ht).
    rewrite Hhd by auto. by rewrite versions_touch, Hf. }
  exists (ob (touch x s1)). 
  change (describe x (mprops s1) (ob s1)
          = (ob (touch x s1), Val (f (body_ (main_ (ob s))), g (mprops s)))).
  rewrite (describe_eq s1 x _ Hinv1 Hg).
  unfold deref. rewrite (own_hat s1 x w (tail (versions (ob s1)))) by done. cbn [fmap option_fmap option_map].
  cbv zeta. rewrite Hhd by auto. unfold find_valid_version. rewrite Hhd, versions_touch, Hf by auto.
  assert (is_dirty (elem_ w) = true) as -> by done. simpl.
  by pose proof (set_rts_fields x (main_ (ob s))) as (_ & _ & _ & _ & ->).
Qed.
End protocol.

(** ** A run, for the witnesses: transaction 5 reads, 7 updates and commits *)
Ltac solve_active := split; [done|apply (bool_decide_unpack _); vm_compute; exact I].

Definition demo_obj : tobj Z Z := mk_tobj (mk_obj 0 1 INF 1 (Some false) 100) None 0.
Definition demo0 : mstate (B:=Z) (P:=Z) (K:=Z) := committed id demo_obj 200 {[1]}.
Definition demo1 := with_ob (describe 5 (mprops demo0) (ob demo0)).1 demo0.
Definition demo2 := with_ob (update_op 7 (mprops demo1) (Z.add 1) (Z.add 1) (ob demo1)).1 demo1.
Definition demo_commit (b b' : Z) : Z := b'.

Lemma demo0_reach : reach demo_commit id demo0.
Proof. apply reach_committed; done. Qed.

Lemma demo1_reach : reach demo_commit id demo1.
Proof.
  eapply (reach_step _ _ 5); [apply demo0_reach|].
  eapply (step_read _ _ 5 demo0 (ob demo1)).
  - solve_active.
  - vm_compute. reflexivity.
Qed.




(** Transaction 7 has updated the object and is refused to delete it; after that
    transaction 8 reads, and even overwrites, what 7 has not committed. *)
Lemma refused_delete_leaks :
  let t := (delete_op true 7 (mprops demo2) 0 (ob demo2)).1 in
  (delete_op true 7 (mprops demo2) 0 (ob demo2)).2 = Exn orphaned_relationship
  ∧ hist demo2 = [(1, (100, 200))] ∧ txn_id_ (main_ t) = 7
  ∧ (describe 8 (mprops demo2) t).2 = Val (101, 201)
  ∧ (update_op 8 (mprops demo2) (Z.add 1) (Z.add 1) t).2 = Val false.
Proof. vm_compute. repeat split. Qed.





Lemma own_update_read_back_witness :
  true = true ∧ ∃ t', describe 7 (mprops demo1) (ob demo2) = (t', Val (101, 201)).
Proof.
  apply (own_update_read_back demo_commit id (λ _ _, eq_refl) demo1 7 (Z.add 1) (Z.add 1));
    [apply demo1_reach| |by vm_compute|vm_compute; reflexivity].
  solve_active.
Defined.
