(* ===== verification/DictSpec.v ===== *)
(** * DictSpec: the interfaces around the string dictionary

    [Pool]: what the dictionary needs of the place where its strings are kept.
    [Dictionary]: what the tables of the graph need of the dictionary.
    [StringPool] and [Dict] implement them. *)

From Stdlib Require Import Ascii.
From S2P Require Import Prelude.

(** C strings end at the null character. *)
Definition NUL : ascii := "000".

Definition no_nul (s : str) : Prop := NUL ∉ s.

(** ** What the dictionary needs of a pool

    [pool_has p l]: the pool holds the strings of [l] under their codes. *)
Class Pool (P : Type) := {
  pool_add : str → M P Z;
  pool_extract : P → Z → res str;
  pool_scan : P → res (list (str * Z));
  pool_has : P → list (str * Z) → Prop;
  pool_fits : P → str → Prop;

  pool_codes p l : pool_has p l → NoDup l.*2;
  pool_code_range p l s c : pool_has p l → (s, c) ∈ l → 0 < c < UNKNOWN_CODE;
  pool_extract_ok p l s c : pool_has p l → (s, c) ∈ l → pool_extract p c = Val s;
  pool_scan_ok p l : pool_has p l → pool_scan p = Val l;
  pool_add_ok p l s : pool_has p l → no_nul s → pool_fits p s →
    ∃ p' c, pool_add s p = (p', Val c) ∧ pool_has p' (l ++ [(s, c)])
}.

(** ** What the graph needs of the dictionary

    [d_has d m]: the codes of [d] and their strings are the map [m]. *)
Class Dictionary (D : Type) := {
  d_insert : str → M D Z;
  d_lookup_string : D → str → Z;
  d_lookup_code : D → Z → res str;
  d_has : D → gmap Z str → Prop;
  d_fits : D → str → Prop;

  d_insert_ok d m s : d_has d m → no_nul s → d_fits d s →
    ∃ d' c, d_insert s d = (d', Val c) ∧ d_has d' (<[c := s]> m) ∧ 0 < c < UNKNOWN_CODE
      ∧ (m !! c = None ∨ m !! c = Some s) ∧ ∀ c', m !! c' = Some s → c' = c;
  d_known_ok d m s c : d_has d m → m !! c = Some s → d_insert s d = (d, Val c);
  d_lookup_ok d m s : d_has d m → d_fits d s →
    d_lookup_string d s = 0 ∨ m !! d_lookup_string d s = Some s;
  d_code_ok d m s c : d_has d m → m !! c = Some s →
    d_lookup_code d c = Val s ∧ d_lookup_string d s = c ∧ 0 < c < UNKNOWN_CODE
}.

