(* ===== verification/IndexSpec.v ===== *)
(** * IndexSpec: what the graph needs of its indexes

    The database keeps the indexes it has created in an [index_map]
    (src/btree/index_map.hpp) and works on the tree behind an [index_id]
    ([boost::blank] or a shared pointer to a tree).  The class [Indexes] is that
    interface; [IndexMap] implements it with the tree of [BTree]. *)

From S2P Require Import Prelude.

(** The variant [index_id] of btree.hpp: nothing, or the address of a tree. *)
Definition index_id : Type := option nat.

Class Indexes (X : Type) := {
  ix_make : M X nat;
  ix_insert : nat → Z → Z → M X unit;
  ix_erase : nat → Z → M X bool;
  ix_lookup : nat → Z → M X (option Z);
  ix_register : str → nat → M X unit;
  ix_unregister : str → M X unit;
  ix_get : X → str → res nat;
  ix_get_id : X → str → index_id;
  ix_has : X → str → bool;

  (** [ix_trees x m]: the trees of [x] hold the entries of [m]. *)
  ix_trees : X → gmap nat (gmap Z Z) → Prop;

  ix_get_tree x m s i : ix_trees x m → ix_get_id x s = Some i → is_Some (m !! i);
  ix_get_ok x s : ix_get x s = match ix_get_id x s with Some i => Val i | None => Exn unknown_index end;
  ix_has_ok x s : ix_has x s = bool_decide (is_Some (ix_get_id x s));
  ix_make_ok x m : ix_trees x m → ∃ x' i, ix_make x = (x', Val i) ∧ m !! i = None
    ∧ ix_trees x' (<[i := ∅]> m) ∧ ∀ s, ix_get_id x' s = ix_get_id x s;
  ix_insert_ok x m i t k v : ix_trees x m → m !! i = Some t → 0 ≤ k < two64 →
    ∃ x', ix_insert i k v x = (x', Val tt) ∧ ix_trees x' (<[i := <[k := v]> t]> m)
      ∧ ∀ s, ix_get_id x' s = ix_get_id x s;
  ix_lookup_ok x m i t k : ix_trees x m → m !! i = Some t → 0 ≤ k < two64 →
    ix_lookup i k x = (x, Val (t !! k));
  (** a name that is registered already keeps its tree *)
  ix_register_ok x m s i : ix_trees x m → is_Some (m !! i) →
    ∃ x', ix_register s i x = (x', Val tt) ∧ ix_trees x' m
      ∧ ∀ s', ix_get_id x' s' = if decide (s' = s ∧ ix_get_id x s = None) then Some i else ix_get_id x s';
  ix_unregister_ok x m s : ix_trees x m →
    if ix_get_id x s then
      ∃ x', ix_unregister s x = (x', Val tt) ∧ ix_trees x' m
        ∧ ∀ s', ix_get_id x' s' = if decide (s' = s) then None else ix_get_id x s'
    else ix_unregister s x = (x, Exn unknown_index)
}.
