(* ===== verification/StringPool.v ===== *)
(** * StringPool: where the dictionary keeps its strings

    [string_pool] of src/dict/string_pool.cpp: one growing memory area with
    zero-terminated strings; the position of a string is its code.  Memory is a
    list of characters; reading or writing outside it is undefined behaviour.
    Codes are 32 bits wide.  The pool implements the interface [Pool]. *)

From Stdlib Require Import Ascii.
From S2P Require Import Prelude DictSpec.

(** The C string at the beginning of some memory; none when it is not
    terminated inside it. *)
Fixpoint cstr (l : list ascii) : option (list ascii) :=
  match l with
  | [] => None
  | c :: l' => if bool_decide (c = NUL) then Some [] else cons c <$> cstr l'
  end.

(** [memcpy(&mem[off], bytes, n)] *)
Definition memcpy {A} (mem : list A) (off : nat) (bytes : list A) : option (list A) :=
  if (off + length bytes <=? length mem)%nat
  then Some (take off mem ++ bytes ++ drop (off + length bytes) mem) else None.

(** ** The pool in memory *)
Record string_pool : Type := mk_pool {
  pool_ : list ascii;
  size_ : Z;
  expand_ : Z;
  last_ : Z
}.

Definition new_string_pool (init_size exp_size : Z) : res string_pool :=
  match replicate (Z.to_nat init_size) NUL with
  | [] => Exn undefined_behaviour
  | _ :: l => Val (mk_pool ("#"%char :: l) init_size exp_size 1)
  end.

(** [extract(pos)]: a pointer to the string at [pos]. *)
Definition extract (p : string_pool) (pos : Z) : res (list ascii) :=
  if bool_decide (pos < last_ p) then
    match cstr (drop (Z.to_nat pos) (pool_ p)) with
    | Some s => Val s | None => Exn undefined_behaviour end
  else Exn assertion_failed.

(** [equal(pos, s)]: the loop compares from character [i] on; [i + pos] is a
    32-bit sum. *)
Definition at_pos (p : string_pool) (pos : Z) (i : nat) : res ascii :=
  match pool_ p !! Z.to_nat (u32 (pos + Z.of_nat i)) with
  | Some c => Val c | None => Exn undefined_behaviour end.
Fixpoint equal_from (p : string_pool) (pos : Z) (i : nat) (s : list ascii) : res bool :=
  match s with
  | c :: s' =>
    if bool_decide (u32 (Z.of_nat i + pos) < last_ p) then
      c' ← at_pos p pos i; if bool_decide (c' = c) then equal_from p pos (S i) s' else Val false
    else c' ← at_pos p pos i; Val (bool_decide (c' = NUL))
  | [] => c' ← at_pos p pos i; Val (bool_decide (c' = NUL))
  end.
Definition equal (p : string_pool) (pos : Z) (s : list ascii) : res bool := equal_from p pos 0 s.

(** [realloc]: [junk] is what the new memory holds. *)
Definition realloc (junk : ascii) (mem : list ascii) (n : nat) : list ascii :=
  take n mem ++ replicate (n - length mem) junk.

(** [add(str)] *)
Definition add (junk : ascii) (str : list ascii) : M string_pool Z := λ p,
  let pos := last_ p in
  let len := Z.of_nat (length str) in
  let p1 := if bool_decide (size_ p ≤ last_ p + len + 1)
            then let sz := u32 (size_ p + expand_ p) in
                 mk_pool (realloc junk (pool_ p) (Z.to_nat sz)) sz (expand_ p) (last_ p)
            else p in
  match memcpy (pool_ p1) (Z.to_nat (last_ p1)) str with
  | None => (p1, Exn undefined_behaviour)
  | Some mem =>
    let last := u32 (last_ p1 + (len + 1)) in
    match memcpy mem (Z.to_nat (u32 (last - 1))) [NUL] with
    | None => (p1, Exn undefined_behaviour)
    | Some mem' => (mk_pool mem' (size_ p1) (expand_ p1) last, Val pos)
    end
  end.

(** [scan(cb)]: the calls of [cb] are the pairs of the result. *)
Fixpoint scan_from (p : string_pool) (n : nat) (pos q : nat) : res (list (list ascii * Z)) :=
  match n with
  | O => Val []
  | S n' =>
    match pool_ p !! q with
    | None => Exn undefined_behaviour
    | Some c =>
      if bool_decide (c = NUL) then
        match cstr (drop pos (pool_ p)) with
        | None => Exn undefined_behaviour
        | Some s => l ← scan_from p n' (S q) (S q); Val ((s, Z.of_nat pos) :: l)
        end
      else scan_from p n' pos (S q)
    end
  end.
Definition scan (p : string_pool) : res (list (list ascii * Z)) :=
  scan_from p (Z.to_nat (last_ p - 1)) 1 1.

(** ** What a pool holds *)
Definition layout (strs : list (list ascii)) : list ascii := concat ((λ s, s ++ [NUL]) <$> strs).

(** The strings with their positions, the first one being at [off]. *)
Fixpoint coded (off : Z) (strs : list (list ascii)) : list (list ascii * Z) :=
  match strs with
  | [] => []
  | s :: strs' => (s, off) :: coded (off + Z.of_nat (length s) + 1) strs'
  end.

Record pool_holds (p : string_pool) (strs : list (list ascii)) : Prop := {
  ph_last : last_ p = 1 + Z.of_nat (length (layout strs));
  ph_size : Z.of_nat (length (pool_ p)) = size_ p;
  ph_fits : last_ p ≤ size_ p < two32;
  ph_mem : take (Z.to_nat (last_ p)) (pool_ p) = "#"%char :: layout strs;
  ph_nul : Forall no_nul strs
}.

Lemma cstr_app s l : no_nul s → cstr (s ++ NUL :: l) = Some s.
Proof.
  induction s as [|c s IH]; intros Hs; simpl; [done|].
  rewrite bool_decide_eq_false_2; [|intros ->; apply Hs; constructor].
  rewrite IH; [done|]. intros ?. apply Hs. by right.
Qed.

Lemma layout_cons s strs : layout (s :: strs) = s ++ NUL :: layout strs.
Proof. unfold layout; simpl. by rewrite <-app_assoc. Qed.

Lemma layout_app strs strs' : layout (strs ++ strs') = layout strs ++ layout strs'.
Proof. unfold layout. by rewrite fmap_app, concat_app. Qed.

Lemma coded_app off strs strs' :
  coded off (strs ++ strs') = coded off strs ++ coded (off + Z.of_nat (length (layout strs))) strs'.
Proof.
  revert off. induction strs as [|s strs IH]; intros off; simpl; [by rewrite Z.add_0_r|].
  rewrite IH, layout_cons, length_app; simpl. do 3 f_equal. lia.
Qed.

(** Every coded position is the beginning of its string in the layout. *)
Lemma coded_layout off strs s c :
  (s, c) ∈ coded off strs →
  ∃ pre post, layout strs = pre ++ s ++ NUL :: post ∧ c = off + Z.of_nat (length pre).
Proof.
  revert off. induction strs as [|s0 strs IH]; intros off; simpl; [by intros ?%elem_of_nil|].
  intros [[= -> ->]|Hin]%elem_of_cons.
  - exists [], (layout strs). split; [by rewrite layout_cons|simpl; lia].
  - destruct (IH _ Hin) as (pre & post & Hl & ->). exists (s0 ++ NUL :: pre), post.
    split; [by rewrite layout_cons, Hl, <-app_assoc|]. rewrite length_app. simpl. lia.
Qed.

Lemma coded_fst off strs : (coded off strs).*1 = strs.
Proof. revert off. induction strs as [|s strs IH]; intros off; simpl; [done|]. by rewrite IH. Qed.

Lemma coded_bounds off strs s c :
  (s, c) ∈ coded off strs → off ≤ c ∧ c + Z.of_nat (length s) < off + Z.of_nat (length (layout strs)).
Proof.
  intros (pre & post & -> & ->)%coded_layout. rewrite !length_app; simpl. lia.
Qed.

Lemma coded_snd_NoDup off strs : NoDup (coded off strs).*2.
Proof.
  revert off. induction strs as [|s strs IH]; intros off; simpl; [constructor|].
  constructor; [|apply IH]. intros ([s' c] & Heq & Hin)%list_elem_of_fmap. simpl in Heq. subst c.
  apply coded_bounds in Hin. lia.
Qed.

Lemma ph_drop p strs pos :
  pool_holds p strs → 0 ≤ pos →
  drop (Z.to_nat pos) (pool_ p) =
    drop (Z.to_nat pos) ("#"%char :: layout strs) ++ drop (Z.to_nat pos `max` Z.to_nat (last_ p)) (pool_ p)
  ∨ last_ p < pos.
Proof.
  intros Hp Hpos. destruct (decide (last_ p < pos)); [by right|left].
  rewrite <-(ph_mem _ _ Hp), Nat.max_r by lia.
  rewrite <-(take_drop (Z.to_nat (last_ p)) (pool_ p)) at 1.
  rewrite drop_app_le; [done|]. rewrite length_take. destruct Hp as [? ? ? ? ?]. lia.
Qed.

Lemma coded_no_nul p strs off s c : pool_holds p strs → (s, c) ∈ coded off strs → no_nul s.
Proof.
  intros Hp Hin. pose proof (ph_nul _ _ Hp) as Hn. rewrite Forall_forall in Hn. apply Hn.
  rewrite <-(coded_fst off strs). apply list_elem_of_fmap. by exists (s, c).
Qed.

(** The string at a code can be read back. *)
Lemma extract_coded p strs s c :
  pool_holds p strs → (s, c) ∈ coded 1 strs → extract p c = Val s.
Proof.
  intros Hp Hin. pose proof (coded_bounds _ _ _ _ Hin) as Hb. pose proof (ph_last _ _ Hp) as Hl.
  unfold extract. rewrite bool_decide_eq_true_2 by lia.
  destruct (ph_drop p strs c Hp) as [->|?]; [lia| |lia].
  apply coded_layout in Hin as Hc. destruct Hc as (pre & post & -> & ->).
  assert (no_nul s) as Hs by by eapply coded_no_nul.
  replace (Z.to_nat (1 + Z.of_nat (length pre))) with (S (length pre)) by lia. simpl.
  rewrite drop_app_length, <-app_assoc. simpl. by rewrite cstr_app.
Qed.

(** [add] appends a string that fits, at the old end of the pool. *)
Lemma add_correct junk p strs s :
  pool_holds p strs → no_nul s →
  let n := last_ p + Z.of_nat (length s) + 1 in
  0 ≤ expand_ p → (n < size_ p ∨ n ≤ size_ p + expand_ p < two32) →
  ∃ p', add junk s p = (p', Val (last_ p)) ∧ pool_holds p' (strs ++ [s]) ∧ expand_ p' = expand_ p.
Proof.
  intros Hp Hs n He Hfit. pose proof Hp as [Hl Hsz Hf Hm Hn].
  unfold add. set (p1 := if bool_decide _ then _ else _).
  assert (last_ p1 = last_ p ∧ expand_ p1 = expand_ p ∧ n ≤ size_ p1 < two32
    ∧ Z.of_nat (length (pool_ p1)) = size_ p1
    ∧ take (Z.to_nat (last_ p)) (pool_ p1) = "#"%char :: layout strs) as (E1 & E2 & E3 & E4 & E5).
  { unfold p1. case_bool_decide; simpl; [|split_and!; done || lia].
    assert (u32 (size_ p + expand_ p) = size_ p + expand_ p) as -> by (unfold u32; rewrite Z.mod_small; lia).
    unfold realloc. rewrite length_app, length_take, length_replicate. split_and!; try done; try lia.
    rewrite take_app_le by (rewrite length_take; lia). by rewrite take_take, Nat.min_l by lia. }
  unfold memcpy at 1. rewrite E1, (proj2 (Nat.leb_le _ _)) by lia.
  assert (u32 (last_ p + (Z.of_nat (length s) + 1)) = n) as -> by (unfold u32, n; rewrite Z.mod_small; lia).
  assert (u32 (n - 1) = n - 1) as -> by (unfold u32; rewrite Z.mod_small; lia).
  set (mem := take (Z.to_nat (last_ p)) (pool_ p1) ++ s ++ drop (Z.to_nat (last_ p) + length s) (pool_ p1)).
  assert (length mem = length (pool_ p1)) as Hml.
  { unfold mem. rewrite !length_app, length_take, length_drop. lia. }
  unfold memcpy. simpl length. rewrite (proj2 (Nat.leb_le _ _)) by lia.
  eexists. split; [done|]. split; [|done].
  assert (take (Z.to_nat (n - 1)) mem = ("#"%char :: layout strs) ++ s) as Htk.
  { unfold mem. rewrite E5, app_assoc. rewrite take_app_length'; [done|].
    rewrite length_app. simpl. lia. }
  split; simpl.
  - rewrite layout_app, length_app, layout_cons, length_app; simpl. unfold n. lia.
  - rewrite !length_app, length_take. simpl. rewrite length_drop. lia.
  - lia.
  - rewrite Htk, layout_app, layout_cons. change (layout []) with (@nil ascii).
    change (NUL :: drop (Z.to_nat (n - 1) + 1) mem) with ([NUL] ++ drop (Z.to_nat (n - 1) + 1) mem).
    rewrite app_assoc, take_app_length'; [by simpl; rewrite <-!app_assoc|].
    rewrite !length_app; simpl. unfold n. lia.
  - apply Forall_app_2; [done|]. by repeat constructor.
Qed.

(** The characters of a pool behind its first one. *)
Lemma ph_lookup p strs pre post :
  pool_holds p strs → layout strs = pre ++ post →
  ∀ i c, post !! i = Some c → pool_ p !! (1 + length pre + i)%nat = Some c.
Proof.
  intros Hp Hl i c Hc. rewrite <-(lookup_take_lt _ (Z.to_nat (last_ p))).
  - rewrite (ph_mem _ _ Hp), Hl. simpl. by rewrite lookup_app_r, Nat.add_sub_swap, Nat.sub_diag by lia.
  - apply lookup_lt_Some in Hc. rewrite (ph_last _ _ Hp), Hl, length_app. lia.
Qed.

Lemma scan_from_string p s1 s2 pos n rest :
  no_nul s2 →
  (∀ i c, (s2 ++ [NUL]) !! i = Some c → pool_ p !! (pos + length s1 + i)%nat = Some c) →
  cstr (drop pos (pool_ p)) = Some (s1 ++ s2) →
  scan_from p n (pos + length (s1 ++ s2) + 1) (pos + length (s1 ++ s2) + 1) = Val rest →
  scan_from p (length s2 + S n) pos (pos + length s1) = Val ((s1 ++ s2, Z.of_nat pos) :: rest).
Proof.
  revert s1. induction s2 as [|c s2 IH]; intros s1 Hn Hmem Hc Hr; simpl.
  - rewrite <-(Nat.add_0_r (pos + length s1)), (Hmem 0%nat NUL) by done.
    rewrite bool_decide_eq_true_2 by done. rewrite Hc.
    rewrite app_nil_r in Hr. rewrite Nat.add_0_r, <-Nat.add_1_r, Hr. by rewrite app_nil_r.
  - rewrite <-(Nat.add_0_r (pos + length s1)), (Hmem 0%nat c) by done.
    rewrite bool_decide_eq_false_2 by (intros ->; apply Hn; constructor).
    rewrite (cons_middle c s1 s2), app_assoc in Hc, Hr |- *.
    replace (S (pos + length s1 + 0)) with (pos + length (s1 ++ [c]))%nat
      by (rewrite length_app; simpl; lia).
    apply IH; [by intros ?; apply Hn; right| |done|done].
    intros i c' Hi. rewrite length_app. simpl.
    replace (pos + (length s1 + 1) + i)%nat with (pos + length s1 + S i)%nat by lia. by apply Hmem.
Qed.

Lemma drop_string s l q :
  (∀ i c, (s ++ [NUL]) !! i = Some c → l !! (q + i)%nat = Some c) →
  drop q l = s ++ NUL :: drop (length s + 1) (drop q l).
Proof.
  intros Hmem. rewrite <-(take_drop (length s + 1) (drop q l)) at 1.
  rewrite (cons_middle NUL), app_assoc. f_equal. apply list_eq. intros i.
  destruct (decide (i < length s + 1)%nat) as [Hi|Hi].
  - rewrite lookup_take_lt, lookup_drop by done.
    destruct ((s ++ [NUL]) !! i) as [c|] eqn:E; [by apply Hmem|].
    apply lookup_ge_None in E. rewrite length_app in E. simpl in E. lia.
  - rewrite lookup_take_ge by lia. symmetry. apply lookup_ge_None. rewrite length_app. simpl. lia.
Qed.

Lemma scan_from_layout p strs : pool_holds p strs → ∀ pre post, strs = pre ++ post →
  scan_from p (length (layout post)) (1 + length (layout pre)) (1 + length (layout pre))
  = Val (coded (1 + Z.of_nat (length (layout pre))) post).
Proof.
  intros Hp pre post. revert pre. induction post as [|s post IH]; intros pre ->; [done|].
  assert (no_nul s) as Hs.
  { pose proof (ph_nul _ _ Hp) as Hn. rewrite Forall_app, Forall_cons in Hn. apply Hn. }
  assert (∀ i c, (s ++ NUL :: layout post) !! i = Some c →
    pool_ p !! (1 + length (layout pre) + i)%nat = Some c) as Hmem.
  { apply ph_lookup with (pre ++ s :: post); [done|]. by rewrite layout_app, layout_cons. }
  rewrite layout_cons, length_app; simpl length; cbn [coded].
  pose proof (scan_from_string p [] s (1 + length (layout pre)) (length (layout post))
    (coded (1 + Z.of_nat (length (layout pre)) + Z.of_nat (length s) + 1) post) Hs) as H.
  rewrite !app_nil_l, (Nat.add_0_r (1 + _)) in H.
  replace (1 + Z.of_nat (length (layout pre)))
    with (Z.of_nat (1 + length (layout pre))) in H |- * by lia. apply H.
  - intros i c Hi. apply Hmem.
    apply (prefix_lookup_Some (s ++ [NUL])); [done|]. exists (layout post). by rewrite <-app_assoc.
  - rewrite (drop_string s); [by apply cstr_app|]. intros i c Hi. apply Hmem.
    apply (prefix_lookup_Some (s ++ [NUL])); [done|]. exists (layout post). by rewrite <-app_assoc.
  - specialize (IH (pre ++ [s])). rewrite <-app_assoc in IH.
    rewrite layout_app, layout_cons, !length_app in IH. simpl length in IH.
    replace (1 + length (layout pre) + length s + 1)%nat
      with (1 + (length (layout pre) + (length s + 1)))%nat by lia.
    rewrite IH by done. do 2 f_equal. lia.
Qed.

(** [scan] calls back with every string and its code, in order. *)
Lemma scan_correct p strs : pool_holds p strs → scan p = Val (coded 1 strs).
Proof.
  intros Hp. unfold scan. rewrite (ph_last _ _ Hp).
  replace (Z.to_nat (1 + Z.of_nat (length (layout strs)) - 1)) with (length (layout strs)) by lia.
  by apply (scan_from_layout _ _ Hp []).
Qed.

(** [equal] compares with the string at a code. *)
Lemma equal_coded p strs s c s' :
  pool_holds p strs → (s, c) ∈ coded 1 strs → no_nul s' → equal p c s' = Val (bool_decide (s = s')).
Proof.
  intros Hp Hin Hs'. pose proof (coded_bounds _ _ _ _ Hin) as Hb. pose proof Hp as [Hl _ Hf _ _].
  apply coded_layout in Hin as Hc. destruct Hc as (pre & post & Hlay & ->).
  pose proof (ph_lookup _ _ _ _ Hp Hlay) as Hmem. unfold equal.
  assert (∀ n, (n ≤ length s)%nat → ∀ s', no_nul s' →
    equal_from p (1 + Z.of_nat (length pre)) n s' = Val (bool_decide (drop n s = s'))) as H;
    [|by rewrite (H 0%nat) by (done || lia)].
  clear s' Hs'. intros n Hn s' Hs'. revert n Hn.
  assert (∀ n c, (n ≤ length s)%nat → (s ++ NUL :: post) !! n = Some c →
    at_pos p (1 + Z.of_nat (length pre)) n = Val c) as Hat.
  { intros n c Hn Hc. unfold at_pos, u32. rewrite Z.mod_small by lia.
    replace (Z.to_nat (1 + Z.of_nat (length pre) + Z.of_nat n)) with (1 + length pre + n)%nat by lia.
    by rewrite (Hmem _ _ Hc). }
  assert (no_nul s) as Hs by by eapply coded_no_nul.
  induction s' as [|c s' IH]; intros n Hn; cbn [equal_from];
    rewrite ?(bool_decide_eq_true_2 (u32 _ < _)) by (unfold u32; rewrite Z.mod_small; lia);
    (destruct (decide (n = length s)) as [->|Hne];
     [rewrite (Hat _ NUL) by (done || by apply list_lookup_middle); rewrite drop_all
     |destruct (lookup_lt_is_Some_2 s n) as [c0 Hc]; [lia|];
      rewrite (Hat _ c0) by (lia || by apply lookup_app_l_Some); rewrite (drop_S _ _ _ Hc)]);
    cbn [mbind res_bind].
  - done.
  - rewrite !bool_decide_eq_false_2; [done..|].
    intros ->. apply Hs. by eapply list_elem_of_lookup_2.
  - rewrite !bool_decide_eq_false_2; [done..|]. intros <-. apply Hs'. constructor.
  - apply not_elem_of_cons in Hs' as [_ Hs']. destruct (decide (c0 = c)) as [->|Hcc].
    + rewrite bool_decide_eq_true_2, IH by (done || lia). f_equal. apply bool_decide_ext. naive_solver.
    + rewrite !bool_decide_eq_false_2; [done|naive_solver..].
Qed.

(** The strings that [add] has room for: the area grows by [expand_] at most
    once. *)
Definition string_pool_fits (p : string_pool) (s : list ascii) : Prop :=
  last_ p + Z.of_nat (length s) + 1 < size_ p
  ∨ last_ p + Z.of_nat (length s) + 1 ≤ size_ p + expand_ p < two32.

Program Definition string_pool_Pool (junk : ascii) : Pool string_pool := {|
  pool_add := add junk;
  pool_extract := extract;
  pool_scan := scan;
  pool_has p l := ∃ strs, pool_holds p strs ∧ 0 ≤ expand_ p ∧ l = coded 1 strs;
  pool_fits := string_pool_fits
|}.
Next Obligation. intros junk p l (strs & _ & _ & ->). apply coded_snd_NoDup. Qed.
Next Obligation.
  intros junk p l s c (strs & [Hl _ Hf _ _] & _ & ->) Hb%coded_bounds.
  change UNKNOWN_CODE with (two32 - 1). lia.
Qed.
Next Obligation. intros junk p l s c (strs & Hp & _ & ->). by apply extract_coded. Qed.
Next Obligation. intros junk p l (strs & Hp & _ & ->). by apply scan_correct. Qed.
Next Obligation.
  intros junk p l s (strs & Hp & He & ->) Hs Hf.
  destruct (add_correct junk p strs s Hp Hs He Hf) as (p' & Ha & Hp' & He').
  exists p', (last_ p). split; [done|]. exists (strs ++ [s]). split_and!; [done|lia|].
  rewrite coded_app. simpl. do 3 f_equal. by rewrite (ph_last _ _ Hp).
Qed.

(** A new pool is empty. *)
Lemma new_string_pool_ok (init_size exp_size : Z) :
  1 ≤ init_size < two32 →
  ∃ p, new_string_pool init_size exp_size = Val p ∧ pool_holds p [] ∧ expand_ p = exp_size.
Proof.
  intros Hi. unfold new_string_pool.
  destruct (Z.to_nat init_size) as [|n] eqn:E; [lia|]. simpl.
  eexists. split; [done|]. split; [|done]. split; simpl; [done| |lia|done|constructor].
  rewrite length_replicate. lia.
Qed.

(** [add] of a string that does not fit even in the grown area writes behind
    the end of the area: growing by [expand_] once is not enough. *)
Theorem add_overflows junk p strs s :
  pool_holds p strs → 0 ≤ expand_ p → size_ p + expand_ p < two32 →
  size_ p + expand_ p < last_ p + Z.of_nat (length s) →
  (add junk s p).2 = Exn undefined_behaviour.
Proof.
  intros [Hl Hsz Hf Hm Hn] He Hlt Hs. unfold add. rewrite bool_decide_eq_true_2 by lia.
  assert (u32 (size_ p + expand_ p) = size_ p + expand_ p) as -> by (unfold u32; rewrite Z.mod_small; lia).
  unfold memcpy at 1. cbn [pool_ last_]. unfold realloc.
  rewrite length_app, length_take, length_replicate.
  by rewrite (proj2 (Nat.leb_gt _ _)) by lia.
Qed.

Lemma add_overflows_witness :
  (let p := match new_string_pool 4 2 with Val p => p | Exn _ => mk_pool [] 0 0 0 end in
   (add NUL (replicate 9 "a"%char) p).2) = Exn undefined_behaviour.
Proof.
  refine (add_overflows NUL (mk_pool ["#"%char; NUL; NUL; NUL] 4 2 1) [] (replicate 9 "a"%char) _ _ _ _).
  - split; [reflexivity|reflexivity|vm_compute; split; congruence|reflexivity|constructor].
  - vm_compute; congruence.
  - vm_compute; reflexivity.
  - vm_compute; reflexivity.
Defined.

(** The pool stores strings: after a sequence of [add]s every code that was
    handed out gives its string back, [equal] recognises exactly that string,
    and [scan] lists all strings with their codes in the order they came. *)
Theorem pool_stores_strings junk p strs s :
  pool_holds p strs → no_nul s → 0 ≤ expand_ p → string_pool_fits p s →
  ∃ p' c, add junk s p = (p', Val c) ∧ pool_holds p' (strs ++ [s])
    ∧ extract p' c = Val s
    ∧ (∀ s0 c0, (s0, c0) ∈ coded 1 strs → c0 ≠ c ∧ extract p' c0 = Val s0)
    ∧ (∀ s', no_nul s' → equal p' c s' = Val (bool_decide (s = s')))
    ∧ scan p' = Val (coded 1 strs ++ [(s, c)]).
Proof.
  intros Hp Hs He Hf. destruct (add_correct junk p strs s Hp Hs He Hf) as (p' & Ha & Hp' & _).
  assert (coded 1 (strs ++ [s]) = coded 1 strs ++ [(s, last_ p)]) as Hc.
  { rewrite coded_app. simpl. do 3 f_equal. by rewrite (ph_last _ _ Hp). }
  exists p', (last_ p). split; [done|]. split; [done|]. split_and!.
  - eapply extract_coded; [done|]. rewrite Hc. apply elem_of_app. right. constructor.
  - intros s0 c0 Hin. split.
    + intros ->. apply coded_bounds in Hin. rewrite (ph_last _ _ Hp) in Hin. lia.
    + eapply extract_coded; [done|]. rewrite Hc. apply elem_of_app. by left.
  - intros s' Hs'. eapply equal_coded; [done| |done]. rewrite Hc. apply elem_of_app. right. constructor.
  - by rewrite (scan_correct _ _ Hp'), Hc.
Qed.

Lemma pool_stores_strings_witness :
  ∃ p', add "x" ["a"%char; "b"%char] (mk_pool ["#"%char; NUL; NUL; NUL] 4 2 1) = (p', Val 1)
    ∧ extract p' 1 = Val ["a"%char; "b"%char].
Proof.
  edestruct (pool_stores_strings "x" (mk_pool ["#"%char; NUL; NUL; NUL] 4 2 1) [] ["a"%char; "b"%char])
    as (p' & c & Ha & _ & He & _).
  - split; [reflexivity|reflexivity|vm_compute; split; congruence|reflexivity|constructor].
  - apply (bool_decide_unpack _). vm_compute. exact I.
  - vm_compute; congruence.
  - right. split; [vm_compute; congruence|vm_compute; reflexivity].
  - vm_compute in Ha. injection Ha as <- <-. eexists. split; [vm_compute; reflexivity|exact He].
Defined.
