(* ===== verification/Dict.v ===== *)
(** * Dict: the string dictionary

    [code_table] of src/dict/code_table.cpp (a hash map from hash values of
    strings to codes) and [dict] of src/dict/dict.cpp, over a string pool.
    [hash] is [std::hash<std::string>]: the standard leaves the function open,
    so it is a parameter.  The dictionary implements the interface [Dictionary]
    that the graph relies on. *)

From Stdlib Require Import Ascii.
From S2P Require Import Prelude DictSpec StringPool.

(** ** The code table: hash values and codes *)
Notation code_table := (gmap Z Z).

Section code_table.
Context (hash : str → Z).

Definition ct_find (t : code_table) (s : str) : Z :=
  match t !! hash s with Some c => c | None => UNKNOWN_CODE end.
Definition ct_get (t : code_table) (id : Z) : Z := id.
(** [emplace] leaves an existing entry alone. *)
Definition ct_insert (s : str) (id : Z) (t : code_table) : code_table :=
  match t !! hash s with Some _ => t | None => <[hash s := id]> t end.
Definition ct_size (t : code_table) : nat := size t.

(** [rebuild]: the callback of the scan inserts every string. *)
Definition ct_fill (l : list (str * Z)) (t : code_table) : code_table :=
  foldl (λ t sc, ct_insert sc.1 sc.2 t) t l.

Lemma ct_insert_lookup s id t h :
  ct_insert s id t !! h = match t !! h with
    | Some c => Some c
    | None => if decide (h = hash s) then Some id else None end.
Proof.
  unfold ct_insert. destruct (t !! hash s) as [c|] eqn:E.
  - destruct (t !! h) eqn:Eh; [done|]. destruct (decide (h = hash s)); congruence.
  - destruct (decide (h = hash s)) as [->|Hne].
    + by rewrite E, lookup_insert_eq.
    + rewrite lookup_insert_ne by done. by destruct (t !! h).
Qed.

Lemma ct_fill_app l1 l2 t : ct_fill (l1 ++ l2) t = ct_fill l2 (ct_fill l1 t).
Proof. apply foldl_app. Qed.

Lemma ct_fill_old l t h c : t !! h = Some c → ct_fill l t !! h = Some c.
Proof.
  revert t. induction l as [|[s id] l IH]; intros t Ht; simpl; [done|].
  apply IH. by rewrite ct_insert_lookup, Ht.
Qed.

(** No two strings of a list share a hash value. *)
Definition no_collision (l : list str) : Prop := NoDup (hash <$> l).


Lemma ct_fill_Some l t s c :
  (∀ s' c', (s', c') ∈ l → t !! hash s' = None) → no_collision l.*1 → (s, c) ∈ l →
  ct_fill l t !! hash s = Some c.
Proof.
  revert t. induction l as [|[s0 c0] l IH]; intros t Ht Hn Hin; [by apply elem_of_nil in Hin|].
  unfold no_collision in Hn. cbn in Hn. apply NoDup_cons in Hn as [Hn0 Hn].
  apply elem_of_cons in Hin as [[= <- <-]|Hin]; simpl.
  - apply ct_fill_old. rewrite ct_insert_lookup, (Ht s c) by constructor. by rewrite decide_True.
  - apply IH; [|done|done]. intros s' c' Hin'. rewrite ct_insert_lookup, (Ht s' c') by by right.
    rewrite decide_False; [done|]. intros He. apply Hn0. rewrite <-He, <-list_fmap_compose.
    apply list_elem_of_fmap. by exists (s', c').
Qed.

Lemma ct_fill_None l t s :
  t !! hash s = None → hash s ∉ hash <$> l.*1 → ct_fill l t !! hash s = None.
Proof.
  revert t. induction l as [|[s0 c0] l IH]; intros t Ht Hn; simpl; [done|].
  cbn in Hn. apply not_elem_of_cons in Hn as [Hn0 Hn].
  apply IH; [|done]. by rewrite ct_insert_lookup, Ht, decide_False.
Qed.
End code_table.

(** ** The dictionary *)
Section dict.
Context {P : Type} `{!Pool P} (hash : str → Z).

Record dict : Type := mk_dict { pool : P; table : code_table }.

Definition ct_rebuild (d : dict) : res code_table :=
  l ← pool_scan (pool d); Val (ct_fill hash l (table d)).

Definition initialize (p : P) : res dict :=
  t ← ct_rebuild (mk_dict p ∅); Val (mk_dict p t).

Definition dict_size (d : dict) : nat := ct_size (table d).

Definition insert (s : str) : M dict Z := λ d,
  let pos := ct_find hash (table d) s in
  if bool_decide (pos ≠ UNKNOWN_CODE) then (d, Val (ct_get (table d) pos))
  else match pool_add s (pool d) with
       | (p', Exn e) => (mk_dict p' (table d), Exn e)
       | (p', Val id) => (mk_dict p' (ct_insert hash s id (table d)), Val id)
       end.

Definition lookup_string (d : dict) (s : str) : Z :=
  let k := ct_find hash (table d) s in
  if bool_decide (k ≠ UNKNOWN_CODE) then ct_get (table d) k else 0.

Definition lookup_code (d : dict) (code : Z) : res str := pool_extract (pool d) code.

Definition count_string_pool_size (d : dict) : res nat :=
  l ← pool_scan (pool d); Val (length l).

(** The dictionary holds the strings of [l]; its table is the one [rebuild]
    makes. *)
Record dict_holds (d : dict) (l : list (str * Z)) : Prop := {
  dh_pool : pool_has (pool d) l;
  dh_table : table d = ct_fill hash l ∅;
  dh_hash : no_collision hash l.*1
}.

Lemma dict_find_in d l s c : dict_holds d l → (s, c) ∈ l → ct_find hash (table d) s = c.
Proof.
  intros [Hp Ht Hh] Hin. unfold ct_find. rewrite Ht, (ct_fill_Some _ _ _ s c); [done| |done|done].
  intros. apply lookup_empty.
Qed.

Lemma dict_find_out d l s :
  dict_holds d l → hash s ∉ hash <$> l.*1 → ct_find hash (table d) s = UNKNOWN_CODE.
Proof.
  intros [Hp Ht Hh] Hn. unfold ct_find. by rewrite Ht, ct_fill_None.
Qed.

Lemma insert_known d l s c : dict_holds d l → (s, c) ∈ l → insert s d = (d, Val c).
Proof.
  intros Hd Hin. unfold insert. rewrite (dict_find_in _ _ _ _ Hd Hin), bool_decide_eq_true_2; [done|].
  pose proof (pool_code_range _ _ _ _ (dh_pool _ _ Hd) Hin). lia.
Qed.

Lemma insert_new d l s :
  dict_holds d l → hash s ∉ hash <$> l.*1 → no_nul s → pool_fits (pool d) s →
  ∃ d' c, insert s d = (d', Val c) ∧ dict_holds d' (l ++ [(s, c)]).
Proof.
  intros Hd Hh Hs Hf. pose proof Hd as [Hp Ht Hn]. unfold insert.
  rewrite (dict_find_out _ _ _ Hd Hh), bool_decide_eq_false_2 by tauto.
  destruct (pool_add_ok _ _ _ Hp Hs Hf) as (p' & c & -> & Hp').
  eexists _, c. split; [done|]. split; simpl; [done| |].
  - by rewrite ct_fill_app, Ht.
  - unfold no_collision. rewrite !fmap_app. apply NoDup_app. split_and!; [done| |apply NoDup_singleton].
    intros h Hin ->%list_elem_of_singleton. done.
Qed.

Lemma lookup_string_in d l s c : dict_holds d l → (s, c) ∈ l → lookup_string d s = c.
Proof.
  intros Hd Hin. unfold lookup_string. rewrite (dict_find_in _ _ _ _ Hd Hin), bool_decide_eq_true_2; [done|].
  pose proof (pool_code_range _ _ _ _ (dh_pool _ _ Hd) Hin). lia.
Qed.

Lemma lookup_string_out d l s : dict_holds d l → hash s ∉ hash <$> l.*1 → lookup_string d s = 0.
Proof.
  intros Hd Hh. unfold lookup_string. by rewrite (dict_find_out _ _ _ Hd Hh), bool_decide_eq_false_2 by tauto.
Qed.

Lemma lookup_code_in d l s c : dict_holds d l → (s, c) ∈ l → lookup_code d c = Val s.
Proof. intros Hd Hin. by eapply pool_extract_ok; [apply Hd|]. Qed.

(** Opening the dictionary on a pool rebuilds its table. *)
Lemma initialize_holds p l :
  pool_has p l → no_collision hash l.*1 → ∃ d, initialize p = Val d ∧ pool d = p ∧ dict_holds d l.
Proof.
  intros Hp Hn. unfold initialize, ct_rebuild. simpl. rewrite (pool_scan_ok _ _ Hp). simpl.
  eexists. split; [done|]. split; [done|]. by split.
Qed.

(** Two different strings with the same hash value get the same code. *)
Lemma insert_collision d l s s' c :
  dict_holds d l → (s', c) ∈ l → hash s = hash s' → insert s d = (d, Val c).
Proof.
  intros Hd Hin Hh. assert (ct_find hash (table d) s = c) as Hf.
  { rewrite <-(dict_find_in _ _ _ _ Hd Hin). unfold ct_find. by rewrite Hh. }
  unfold insert. rewrite Hf, bool_decide_eq_true_2; [done|].
  pose proof (pool_code_range _ _ _ _ (dh_pool _ _ Hd) Hin). lia.
Qed.
End dict.
Arguments dict P : clear implicits.

(** ** The dictionary implements its interface *)
Section dict_instance.
Context {P : Type} `{!Pool P} (hash : str → Z).

Definition codes (l : list (str * Z)) : gmap Z str := list_to_map (prod_swap <$> l).

Lemma codes_lookup l s c : NoDup l.*2 → codes l !! c = Some s ↔ (s, c) ∈ l.
Proof.
  intros Hn. unfold codes. rewrite <-elem_of_list_to_map.
  - rewrite list_elem_of_fmap. split.
    + intros ([s' c'] & [= -> ->] & Hin). done.
    + intros Hin. by exists (s, c).
  - rewrite <-list_fmap_compose. erewrite list_fmap_ext; [exact Hn|]. by intros ? [??].
Qed.

Program Definition dict_Dictionary : Dictionary (dict P) := {|
  d_insert := insert hash;
  d_lookup_string := lookup_string hash;
  d_lookup_code := lookup_code;
  d_has d m := ∃ l, dict_holds hash d l ∧ m = codes l;
  d_fits d s := pool_fits (pool d) s
    ∧ ∀ l, dict_holds hash d l → s ∈ l.*1 ∨ hash s ∉ hash <$> l.*1
|}.
Next Obligation.
  intros d m s (l & Hd & ->) Hs [Hf Hc]. pose proof (pool_codes _ _ (dh_pool _ _ _ Hd)) as Hnd.
  destruct (Hc _ Hd) as [([s' c] & -> & Hin)%list_elem_of_fmap|Hh]; simpl.
  - exists d, c. split; [by eapply insert_known|].
    assert (codes l !! c = Some s') as Hlk by by apply codes_lookup. split_and!.
    + exists l. split; [done|]. by rewrite insert_id.
    + by eapply pool_code_range; [apply Hd|].
    + by eapply pool_code_range; [apply Hd|].
    + by right.
    + intros c' Hc'%codes_lookup; [|done].
      rewrite <-(dict_find_in hash d l s' c'), <-(dict_find_in hash d l s' c); done.
  - destruct (insert_new hash d l s Hd Hh Hs Hf) as (d' & c & Hi & Hd').
    pose proof (pool_codes _ _ (dh_pool _ _ _ Hd')) as Hnd'.
    exists d', c. split; [done|].
    assert (0 < c < UNKNOWN_CODE) as Hr.
    { eapply pool_code_range; [apply Hd'|]. apply elem_of_app. right. constructor. }
    assert (codes l !! c = None) as Hnone.
    { destruct (codes l !! c) as [s'|] eqn:E; [|done]. apply codes_lookup in E; [|done].
      rewrite fmap_app in Hnd'. apply NoDup_app in Hnd' as (_ & Hx & _). exfalso.
      apply (Hx c); [apply list_elem_of_fmap; by exists (s', c)|constructor]. }
    split_and!; [|lia..|by left|].
    + exists (l ++ [(s, c)]). split; [done|]. apply map_eq. intros k. apply option_eq. intros s'.
      rewrite codes_lookup, elem_of_app, list_elem_of_singleton by done.
      destruct (decide (k = c)) as [->|Hne].
      * rewrite lookup_insert_eq. split; [intros [= <-]; auto|].
        intros [Hin|[= ->]]; [|done]. apply codes_lookup in Hin; [congruence|done].
      * rewrite lookup_insert_ne, codes_lookup by done. naive_solver.
    + intros c' Hc'%codes_lookup; [|done]. destruct Hh. apply list_elem_of_fmap. exists s.
      split; [done|]. apply list_elem_of_fmap. by exists (s, c').
Qed.
Next Obligation.
  intros d m s c (l & Hd & ->) Hc. apply codes_lookup in Hc; [|apply (pool_codes _ _ (dh_pool _ _ _ Hd))].
  by eapply insert_known.
Qed.
Next Obligation.
  intros d m s (l & Hd & ->) [_ Hc]. pose proof (pool_codes _ _ (dh_pool _ _ _ Hd)).
  destruct (Hc _ Hd) as [([s' c] & -> & Hin)%list_elem_of_fmap|Hh].
  - right. simpl. rewrite (lookup_string_in hash d l s' c) by done. by apply codes_lookup.
  - left. by eapply lookup_string_out.
Qed.
Next Obligation.
  intros d m s c (l & Hd & ->) Hc. apply codes_lookup in Hc; [|apply (pool_codes _ _ (dh_pool _ _ _ Hd))].
  split_and!; [by eapply lookup_code_in|by eapply lookup_string_in|..];
    by eapply pool_code_range; [apply Hd|].
Qed.

(** The dictionary is a bijection between the inserted strings and their
    codes: a new string gets a new code that is neither 0 nor [UNKNOWN_CODE];
    inserting it again returns that code and changes nothing; the string is
    found by its code and the code by its string; older entries stay. *)
Theorem insert_roundtrip (d : dict P) l s :
  dict_holds hash d l → hash s ∉ hash <$> l.*1 → no_nul s → pool_fits (pool d) s →
  ∃ d' c, insert hash s d = (d', Val c) ∧ 0 < c < UNKNOWN_CODE
    ∧ insert hash s d' = (d', Val c)
    ∧ lookup_code d' c = Val s ∧ lookup_string hash d' s = c
    ∧ (∀ s' c', (s', c') ∈ l → c' ≠ c ∧ lookup_code d' c' = Val s' ∧ lookup_string hash d' s' = c')
    ∧ dict_holds hash d' (l ++ [(s, c)]).
Proof.
  intros Hd Hh Hs Hf. destruct (insert_new hash d l s Hd Hh Hs Hf) as (d' & c & Hi & Hd').
  assert ((s, c) ∈ l ++ [(s, c)]) as Hin by (apply elem_of_app; right; constructor).
  exists d', c. split; [done|]. split_and!.
  - by eapply pool_code_range; [apply Hd'|].
  - by eapply pool_code_range; [apply Hd'|].
  - by eapply insert_known.
  - by eapply lookup_code_in.
  - by eapply lookup_string_in.
  - intros s' c' Hin'. assert ((s', c') ∈ l ++ [(s, c)]) as Hin'' by (apply elem_of_app; by left).
    split; [|split; [by eapply lookup_code_in|by eapply lookup_string_in]].
    intros ->. pose proof (pool_codes _ _ (dh_pool _ _ _ Hd')) as Hnd.
    rewrite fmap_app in Hnd. apply NoDup_app in Hnd as (_ & Hx & _).
    apply (Hx c); [apply list_elem_of_fmap; by exists (s', c)|constructor].
  - done.
Qed.

(** The table is not stored: opening the dictionary on the pool of an
    earlier one rebuilds a dictionary that answers every lookup as before. *)
Theorem initialize_recovers (d : dict P) l :
  dict_holds hash d l →
  ∃ d', initialize hash (pool d) = Val d' ∧ dict_size d' = dict_size d
    ∧ (∀ s, lookup_string hash d' s = lookup_string hash d s)
    ∧ (∀ c, lookup_code d' c = lookup_code d c).
Proof.
  intros [Hp Ht Hn]. destruct (initialize_holds hash (pool d) l Hp Hn) as (d' & Hi & Hpl & [Hp' Ht' Hn']).
  assert (d' = d) as -> by (destruct d, d'; simpl in *; congruence). by exists d.
Qed.

(** The table keeps hash values, not strings: a second string whose hash
    value is already there is taken for the first one, and its code gives the
    first string back. *)
Theorem insert_confuses_collisions (d : dict P) l s s' c :
  dict_holds hash d l → (s', c) ∈ l → s ≠ s' → hash s = hash s' →
  insert hash s d = (d, Val c) ∧ lookup_code d c = Val s'.
Proof.
  intros Hd Hin _ Hh. split; [by eapply insert_collision|by eapply lookup_code_in].
Qed.
End dict_instance.

(** ** Examples, with the pool in memory and a concrete hash function *)
Section examples.
#[local] Existing Instance string_pool_Pool.

Definition sum_hash (s : str) : Z := foldr (λ c h, Z.of_N (N_of_ascii c) + h) 0 s.
Definition ex_pool : string_pool := mk_pool ["#"%char; NUL; NUL; NUL] 4 8 1.
#[local] Instance ex_Pool : Pool string_pool := string_pool_Pool NUL.

Lemma ex_pool_holds : pool_has ex_pool [].
Proof.
  exists []. split_and!; [|vm_compute; congruence|reflexivity].
  split; [reflexivity|reflexivity|vm_compute; split; congruence|reflexivity|constructor].
Qed.

Lemma ex_dict_holds : dict_holds sum_hash (mk_dict ex_pool ∅) [].
Proof. split; [apply ex_pool_holds|reflexivity|constructor]. Qed.

Definition ex_ab : str := ["a"%char; "b"%char].
Definition ex_ba : str := ["b"%char; "a"%char].

Lemma insert_roundtrip_witness :
  ∃ d', insert sum_hash ex_ab (mk_dict ex_pool ∅) = (d', Val 1) ∧ lookup_code d' 1 = Val ex_ab.
Proof.
  edestruct (insert_roundtrip sum_hash (mk_dict ex_pool ∅) [] ex_ab) as (d' & c & Hi & _ & _ & Hl & _).
  - apply ex_dict_holds.
  - apply not_elem_of_nil.
  - apply (bool_decide_unpack _). vm_compute. exact I.
  - right. split; [vm_compute; congruence|vm_compute; reflexivity].
  - vm_compute in Hi. injection Hi as <- <-. eexists. split; [vm_compute; reflexivity|exact Hl].
Defined.

Definition ex_dict : dict string_pool := (insert sum_hash ex_ab (mk_dict ex_pool ∅)).1.

Lemma ex_dict_holds_ab : dict_holds sum_hash ex_dict [(ex_ab, 1)].
Proof.
  destruct (insert_new sum_hash (mk_dict ex_pool ∅) [] ex_ab ex_dict_holds) as (d' & c & Hi & Hd).
  - apply not_elem_of_nil.
  - apply (bool_decide_unpack _). vm_compute. exact I.
  - right. split; [vm_compute; congruence|vm_compute; reflexivity].
  - unfold ex_dict. rewrite Hi. vm_compute in Hi. by injection Hi as <- <-.
Qed.

Lemma initialize_recovers_witness :
  ∃ d', initialize sum_hash (pool ex_dict) = Val d' ∧ lookup_string sum_hash d' ex_ab = 1.
Proof.
  destruct (initialize_recovers sum_hash ex_dict _ ex_dict_holds_ab) as (d' & Hi & _ & Hs & _).
  exists d'. split; [exact Hi|]. rewrite Hs. vm_compute. reflexivity.
Defined.

Lemma insert_confuses_collisions_witness :
  insert sum_hash ex_ba ex_dict = (ex_dict, Val 1) ∧ lookup_code ex_dict 1 = Val ex_ab.
Proof.
  apply (insert_confuses_collisions sum_hash ex_dict _ ex_ba ex_ab 1 ex_dict_holds_ab).
  - constructor.
  - discriminate.
  - vm_compute. reflexivity.
Defined.
End examples.
