(* ===== verification/Literals.v ===== *)
(** * Literals: which strings are numbers and dates

    The regular expressions of src/storage/properties.cpp with their matcher,
    the tests built on them, and the conversions of the standard library that
    they guard ([stoi], [stoull], [stod]). *)

From Stdlib Require Import Ascii SpecFloat.
From S2P Require Import Prelude.

(** ** Regular expressions and full matches ([std::regex_match]) *)
Inductive regex : Type :=
  | Emp                           (* matches nothing *)
  | Eps
  | Class_ (f : ascii → bool)     (* a character class *)
  | Seq (r s : regex)
  | Alt (r s : regex)
  | Star (r : regex).

Fixpoint nullable (r : regex) : bool :=
  match r with
  | Emp | Class_ _ => false
  | Eps | Star _ => true
  | Seq r s => nullable r && nullable s
  | Alt r s => nullable r || nullable s
  end.
(** What remains to be matched after the character [c]. *)
Fixpoint deriv (c : ascii) (r : regex) : regex :=
  match r with
  | Emp | Eps => Emp
  | Class_ f => if f c then Eps else Emp
  | Seq r s => if nullable r then Alt (Seq (deriv c r) s) (deriv c s) else Seq (deriv c r) s
  | Alt r s => Alt (deriv c r) (deriv c s)
  | Star r => Seq (deriv c r) (Star r)
  end.
Fixpoint regex_match (r : regex) (s : str) : bool :=
  match s with [] => nullable r | c :: s' => regex_match (deriv c r) s' end.

(** The language of an expression. *)
Inductive matches : regex → str → Prop :=
  | m_eps : matches Eps []
  | m_class f c : f c = true → matches (Class_ f) [c]
  | m_seq r s u v : matches r u → matches s v → matches (Seq r s) (u ++ v)
  | m_alt_l r s u : matches r u → matches (Alt r s) u
  | m_alt_r r s u : matches s u → matches (Alt r s) u
  | m_star_nil r : matches (Star r) []
  | m_star_app r u v : matches r u → matches (Star r) v → matches (Star r) (u ++ v).

Lemma nullable_matches r : nullable r = true ↔ matches r [].
Proof.
  induction r as [| |f|r IHr s IHs|r IHr s IHs|r IHr]; simpl.
  - split; [done|by inversion 1].
  - split; [constructor|done].
  - split; [done|by inversion 1].
  - rewrite andb_true_iff, IHr, IHs. split.
    + intros [H1 H2]. by apply (m_seq _ _ [] []).
    + inversion 1 as [| |? ? u v H1 H2 E1 E2| | | |]; subst. by apply app_eq_nil in E2 as [-> ->].
  - rewrite orb_true_iff, IHr, IHs. split.
    + intros [?|?]; [by apply m_alt_l|by apply m_alt_r].
    + inversion 1; subst; auto.
  - split; [constructor|done].
Qed.

Lemma deriv_matches c r u : matches (deriv c r) u ↔ matches r (c :: u).
Proof.
  revert u. induction r as [| |f|r IHr s IHs|r IHr s IHs|r IHr]; intros u; simpl.
  - split; by inversion 1.
  - split; by inversion 1.
  - destruct (f c) eqn:Ef.
    + split; inversion 1; subst; by constructor.
    + split; [by inversion 1|]. inversion 1; congruence.
  - assert (matches (Seq (deriv c r) s) u ↔ ∃ u1 u2, u = u1 ++ u2 ∧ matches r (c :: u1) ∧ matches s u2) as Hs.
    { split.
      - inversion 1; subst. eexists _, _. split; [done|]. by rewrite <-IHr.
      - intros (u1 & u2 & -> & H1%IHr & H2). by constructor. }
    assert (matches (Seq r s) (c :: u) ↔
      (matches r [] ∧ matches s (c :: u)) ∨ ∃ u1 u2, u = u1 ++ u2 ∧ matches r (c :: u1) ∧ matches s u2) as Ht.
    { split.
      - inversion 1 as [| |? ? u1 u2 H1 H2 E1 E2| | | |]; subst. destruct u1 as [|c' u1]; simplify_eq/=; eauto 7.
      - intros [[H1 H2]|(u1 & u2 & -> & H1 & H2)]; [by apply (m_seq _ _ [])|by apply (m_seq _ _ (c :: u1))]. }
    rewrite Ht. destruct (nullable r) eqn:En.
    + apply nullable_matches in En. split.
      * inversion 1; subst; [right; by apply Hs|left; split; [done|by apply IHs]].
      * intros [[_ H]|H]; [apply m_alt_r; by apply IHs|apply m_alt_l; by apply Hs].
    + rewrite Hs. split; [by right|]. intros [[H _]|H]; [|done]. apply nullable_matches in H. congruence.
  - split.
    + inversion 1; subst; [apply m_alt_l; by apply IHr|apply m_alt_r; by apply IHs].
    + inversion 1; subst; [apply m_alt_l; by apply IHr|apply m_alt_r; by apply IHs].
  - split.
    + inversion 1 as [| |? ? u1 u2 H1 H2| | | |]; subst. apply (m_star_app r (c :: u1) u2); [by apply IHr|done].
    + intros H. remember (Star r) as q eqn:Eq. remember (c :: u) as w eqn:Ew. revert u Ew.
      induction H as [| | | | | |r' u1 u2 H1 _ H2 IH2]; intros u' Ew; simplify_eq/=.
      destruct u1 as [|c' u1]; simplify_eq/=; [by apply IH2|]. constructor; [by apply IHr|done].
Qed.

(** The matcher decides the language. *)
Lemma regex_match_correct r s : regex_match r s = true ↔ matches r s.
Proof.
  revert r. induction s as [|c s IH]; intros r; simpl; [apply nullable_matches|].
  by rewrite IH, deriv_matches.
Qed.

(** ** The expressions *)
Definition code (c : ascii) : Z := Z.of_N (N_of_ascii c).
Definition range (a b : ascii) (c : ascii) : bool :=
  bool_decide (code a ≤ code c) && bool_decide (code c ≤ code b).
Definition cc (a b : ascii) : regex := Class_ (range a b).
Definition lit (a : ascii) : regex := Class_ (λ c, bool_decide (c = a)).
Definition digit : regex := cc "0" "9".
Definition opt (r : regex) : regex := Alt Eps r.
Definition plus (r : regex) : regex := Seq r (Star r).
Fixpoint rep (n : nat) (r : regex) : regex :=
  match n with O => Eps | S n' => Seq r (rep n' r) end.
(** [.] matches everything but a line terminator. *)
Definition any_char : regex := Class_ (λ c, negb (bool_decide (code c = 10 ∨ code c = 13))).
Fixpoint seqs (l : list regex) : regex :=
  match l with [] => Eps | [r] => r | r :: l' => Seq r (seqs l') end.

Definition float_expr : regex := seqs [opt (lit "-"); plus digit; lit "."; plus digit].
Definition int_expr : regex := Alt (seqs [opt (lit "-"); cc "1" "9"; Star digit]) (lit "0").

Definition year_expr : regex :=
  Alt (seqs [lit "1"; lit "9"; cc "7" "9"; digit]) (seqs [lit "2"; lit "0"; digit; digit]).
Definition month_expr : regex :=
  Alt (Seq (lit "0") (cc "1" "9")) (Seq (lit "1") (Alt (lit "0") (Alt (lit "1") (lit "2")))).
Definition day_expr : regex :=
  Alt (Seq (lit "0") (cc "1" "9"))
    (Alt (Seq (Alt (lit "1") (lit "2")) digit) (Seq (lit "3") (Alt (lit "0") (lit "1")))).
Definition hour_expr : regex :=
  Alt (Seq (Alt (lit "0") (lit "1")) digit) (Seq (lit "2") (cc "0" "3")).
Definition sixty_expr : regex := Seq (cc "0" "5") digit.
Definition date_expr : regex := seqs [year_expr; lit "-"; month_expr; lit "-"; day_expr].
Definition dtime_expr : regex :=
  seqs [year_expr; lit "-"; month_expr; lit "-"; day_expr; lit "T"; hour_expr; lit ":";
        sixty_expr; lit ":"; sixty_expr; any_char; rep 3 digit; lit "+";
        Alt (rep 4 digit) (seqs [rep 2 digit; lit ":"; rep 2 digit])].

(** ** The tests *)

(** [s[i]]: the character behind the last one is the null character. *)
Definition char_at (s : str) (i : nat) : ascii := default "000"%char (s !! i).
Definition quoted_by (q : ascii) (s : str) : bool :=
  bool_decide (char_at s 0 = q) && bool_decide (char_at s (length s - 1) = q).
Definition is_quoted_string (s : str) : bool := quoted_by "034" s || quoted_by "'" s.
Definition is_float (s : str) : bool := regex_match float_expr s.
Definition is_int (s : str) : bool := regex_match int_expr s.
Definition is_date (s : str) : bool := regex_match date_expr s.
Definition is_dtime (s : str) : bool := regex_match dtime_expr s.

(** ** The conversions of the standard library

    All of them skip white space, read a sign and the longest run of digits. *)
Definition is_space (c : ascii) : bool := bool_decide (code c = 32 ∨ 9 ≤ code c ≤ 13).
Definition is_digit : ascii → bool := range "0" "9".
Definition digit_val (c : ascii) : Z := code c - 48.
Fixpoint skip_space (s : str) : str :=
  match s with c :: s' => if is_space c then skip_space s' else s | [] => [] end.
(** The value of a run of digits read after [acc], how many they were, and the
    rest. *)
Fixpoint digits (s : str) (acc : Z) : Z * nat * str :=
  match s with
  | c :: s' => if is_digit c then
                 let '(v, n, r) := digits s' (10 * acc + digit_val c) in (v, S n, r)
               else (acc, O, s)
  | [] => (acc, O, [])
  end.
Definition signed (s : str) : bool * str :=
  match s with
  | c :: s' => if bool_decide (c = "-"%char) then (true, s')
               else if bool_decide (c = "+"%char) then (false, s') else (false, s)
  | [] => (false, [])
  end.
Definition neg_if (b : bool) (v : Z) : Z := if b then - v else v.

Definition stoi (s : str) : res Z :=
  let '(neg, s1) := signed (skip_space s) in
  let '(v, n, _) := digits s1 0 in
  if bool_decide (n = O) then Exn invalid_argument_std
  else if bool_decide (- 2 ^ 31 ≤ neg_if neg v < 2 ^ 31) then Val (neg_if neg v)
  else Exn out_of_range_std.

(** [stoull] negates a number with a minus sign modulo 2^64. *)
Definition stoull (s : str) : res Z :=
  let '(neg, s1) := signed (skip_space s) in
  let '(v, n, _) := digits s1 0 in
  if bool_decide (n = O) then Exn invalid_argument_std
  else if bool_decide (v < two64) then Val (u64 (neg_if neg v))
  else Exn out_of_range_std.

(** Doubles are their 64 bits. *)
Definition sf_to_bits (f : spec_float) : Z :=
  let sign (b : bool) := if b then 2 ^ 63 else 0 in
  match f with
  | S754_zero s => sign s
  | S754_infinity s => sign s + 2047 * 2 ^ 52
  | S754_nan => 4095 * 2 ^ 51
  | S754_finite s m e =>
    if bool_decide (Zpos m < 2 ^ 52) then sign s + Zpos m
    else sign s + (e + 1075) * 2 ^ 52 + (Zpos m - 2 ^ 52)
  end.
Definition bits_to_sf (b : Z) : spec_float :=
  let s := Z.testbit b 63 in
  let e := (b / 2 ^ 52) mod 2 ^ 11 in
  let m := b mod 2 ^ 52 in
  if bool_decide (e = 2047) then (if bool_decide (m = 0) then S754_infinity s else S754_nan)
  else if bool_decide (e = 0) then
    match m with Zpos p => S754_finite s p (-1074) | _ => S754_zero s end
  else match m + 2 ^ 52 with Zpos p => S754_finite s p (e - 1075) | _ => S754_zero s end.

(** [n / 10^k], correctly rounded. *)
Definition decimal (neg : bool) (n : Z) (k : nat) : spec_float :=
  match n, 10 ^ Z.of_nat k with
  | Zpos p, Zpos q => SFdiv 53 1024 (S754_finite neg p 0) (S754_finite false q 0)
  | _, _ => S754_zero neg
  end.
(** [stod] on the strings that [is_float] accepts: digits, a dot, digits.
    Results outside the normal range set [ERANGE]. *)
Definition stod (s : str) : res Z :=
  let '(neg, s1) := signed s in
  let '(v, _, s2) := digits s1 0 in
  let '(n, k, _) := digits (tail s2) v in
  match decimal neg n k with
  | S754_infinity _ => Exn out_of_range_std
  | S754_finite _ m _ as f => if bool_decide (Zpos m < 2 ^ 52) then Exn out_of_range_std else Val (sf_to_bits f)
  | S754_zero _ as f => if bool_decide (n = 0) then Val (sf_to_bits f) else Exn out_of_range_std
  | S754_nan => Exn out_of_range_std
  end.

Definition is_uint64 (s : str) : bool :=
  if negb (is_int s) then false
  else match stoi s with
       | Exn out_of_range_std => match stoull s with Val _ => true | Exn _ => false end
       | _ => false
       end.

(** [(double) i], and [==] on doubles. *)
Definition int_to_sf (i : Z) : spec_float := binary_normalize 53 1024 i 0 false.
Definition double_eqb (a b : spec_float) : bool := SFeqb a b.

(** Conversions of doubles to integers drop the fraction; they are undefined when
    the number does not fit. *)
Definition double_trunc (bits : Z) : option Z :=
  match bits_to_sf bits with
  | S754_zero _ => Some 0
  | S754_finite s m e =>
    let a := if bool_decide (0 ≤ e) then Zpos m * 2 ^ e else Zpos m / 2 ^ (- e) in
    Some (if s then - a else a)
  | _ => None
  end.
Definition double_to (lo hi bits : Z) : res Z :=
  match double_trunc bits with
  | Some a => if bool_decide (lo ≤ a < hi) then Val a else Exn undefined_behaviour
  | None => Exn undefined_behaviour
  end.
Definition double_to_uint64 : Z → res Z := double_to 0 two64.
Definition double_to_int : Z → res Z := double_to (- 2 ^ 31) (2 ^ 31).

Example stod_1_5 : stod ["1";".";"5"]%char = Val 4609434218613702656.
Proof. vm_compute. reflexivity. Qed.
Example stod_0_1 : stod ["-";"0";".";"1"]%char = Val (2^63 + 4591870180066957722).
Proof. vm_compute. reflexivity. Qed.
Example dtime_ex : is_dtime (String.list_ascii_of_string "2012-02-29T23:59:00.123+0000") = true.
Proof. vm_compute. reflexivity. Qed.
