(* ===== verification/Property.v ===== *)
(** * Property: property items (src/storage/properties.hpp, properties.cpp)

    A [p_item] holds a property value in eight bytes with a type code, and the
    dictionary code of the property's name.  Values come in as [std::any].
    Dates and times are boost's [ptime]; its eight bytes and the functions that
    make and compare them are parameters. *)

From Stdlib Require Import Ascii SpecFloat.
From S2P Require Import Prelude DictSpec Literals.

(** ** Values *)

(** The [std::any] values the code looks for; [any_other] is any other type. *)
Inductive any : Type :=
  | any_none
  | any_int (i : Z) | any_double (bits : Z) | any_uint64 (u : Z) | any_dcode (c : Z)
  | any_string (s : str) | any_ptime (raw : Z)
  | any_other.

#[export] Instance any_eq_dec : EqDecision any.
Proof. solve_decision. Defined.

(** Values in the range of their C++ type. *)
Definition any_wf (v : any) : Prop :=
  match v with
  | any_int i => - 2 ^ 31 ≤ i < 2 ^ 31
  | any_double b | any_uint64 b | any_ptime b => 0 ≤ b < two64
  | any_dcode c => 0 ≤ c < two32
  | _ => True
  end.

(** ** Items *)

(** [value_] are the eight bytes read as one number. *)
Record p_item : Type := mk_item { value_ : Z; key_ : Z; flags_ : Z }.

#[export] Instance p_item_eq_dec : EqDecision p_item.
Proof. solve_decision. Defined.

Definition p_unused : Z := 224.
Definition p_int : Z := 32.
Definition p_double : Z := 64.
Definition p_dcode : Z := 96.
Definition p_uint64 : Z := 128.
Definition p_ptime : Z := 160.
Definition p_date : Z := 224.

Definition typecode (it : p_item) : Z := Z.land (flags_ it) 224.
Definition is_empty (it : p_item) : bool := bool_decide (typecode it = p_unused).
Definition get_raw (it : p_item) : Z := value_ it.
Definition item_eqb (a b : p_item) : bool :=
  bool_decide (value_ a = value_ b) && bool_decide (flags_ a = flags_ b).

Definition get_double (it : p_item) : res Z :=
  if bool_decide (typecode it = p_double) then Val (value_ it) else Exn assertion_failed.
Definition get_int (it : p_item) : res Z :=
  if bool_decide (typecode it = p_int) then Val (s32 (value_ it)) else Exn assertion_failed.
Definition get_dcode (it : p_item) : res Z :=
  if bool_decide (typecode it = p_dcode) then Val (u32 (value_ it)) else Exn assertion_failed.
Definition get_uint64 (it : p_item) : res Z :=
  if bool_decide (typecode it = p_uint64) then Val (value_ it) else Exn assertion_failed.
Definition get_ptime (it : p_item) : res Z :=
  if bool_decide (typecode it = p_ptime) then Val (value_ it) else Exn assertion_failed.

Definition set_double (v : Z) (it : p_item) : p_item := mk_item v (key_ it) p_double.
Definition set_int (v : Z) (it : p_item) : p_item := mk_item (u32 v) (key_ it) p_int.
Definition set_dcode (v : Z) (it : p_item) : p_item := mk_item v (key_ it) p_dcode.
Definition set_uint64 (v : Z) (it : p_item) : p_item := mk_item v (key_ it) p_uint64.
Definition set_ptime (v : Z) (it : p_item) : p_item := mk_item v (key_ it) p_ptime.

(** ** Comparisons *)
Definition equal_int (it : p_item) (i : Z) : res bool :=
  if bool_decide (typecode it = p_int) then x ← get_int it; Val (bool_decide (x = i))
  else if bool_decide (typecode it = p_double)
       then x ← get_double it; Val (double_eqb (bits_to_sf x) (int_to_sf i))
       else Exn invalid_typecast.
Definition equal_double (it : p_item) (d : Z) : res bool :=
  if bool_decide (typecode it = p_int)
  then x ← get_int it; Val (double_eqb (int_to_sf x) (bits_to_sf d))
  else if bool_decide (typecode it = p_double)
       then x ← get_double it; Val (double_eqb (bits_to_sf x) (bits_to_sf d))
       else Exn invalid_typecast.
Definition equal_dcode (it : p_item) (c : Z) : res bool :=
  if bool_decide (typecode it = p_dcode) then x ← get_dcode it; Val (bool_decide (x = c))
  else Exn invalid_typecast.
Definition equal_uint64 (it : p_item) (u : Z) : res bool :=
  if bool_decide (typecode it = p_uint64) then x ← get_uint64 it; Val (bool_decide (x = u))
  else Exn invalid_typecast.
(** [ptime_eqb] is boost's comparison. *)
Definition equal_ptime (ptime_eqb : Z → Z → bool) (it : p_item) (t : Z) : res bool :=
  if bool_decide (typecode it = p_ptime) then x ← get_ptime it; Val (ptime_eqb x t)
  else Exn invalid_typecast.

Section items.
(** What boost does with dates, and what uninitialised value bytes hold. *)
Context {D : Type} `{!Dictionary D}.
Variables (ptime_of_date time_from_string : str → res Z) (junk : Z).

(** [p_item(0)]: an unused item; its value is not initialised. *)
Definition unused_item : p_item := mk_item junk 0 p_unused.
(** [p_item()] as a temporary: all zero. *)
Definition zero_item : p_item := mk_item 0 0 0.

(** [p_item(k, tc, v)] with a typed value. *)
Definition typed_item (k tc : Z) (v : any) : res p_item :=
  let it := mk_item junk k 0 in
  if bool_decide (tc = p_int) then
    match v with any_int i => Val (set_int i it) | _ => Exn bad_any_cast end
  else if bool_decide (tc = p_double) then
    match v with any_double d => Val (set_double d it) | _ => Exn bad_any_cast end
  else if bool_decide (tc = p_dcode) then
    match v with any_dcode c => Val (set_dcode c it) | _ => Exn bad_any_cast end
  else if bool_decide (tc = p_uint64) then
    match v with any_uint64 u => Val (set_uint64 u it) | _ => Exn bad_any_cast end
  else if bool_decide (tc = p_ptime) || bool_decide (tc = p_date) then
    match v with any_ptime t => Val (set_ptime t it) | _ => Exn bad_any_cast end
  else Val it.

(** [s[s.find("T")] = ' '; s.substr(0, s.find("+"))] *)
Fixpoint blank_T (s : str) : str :=
  match s with
  | c :: s' => if bool_decide (c = "T"%char) then " "%char :: s' else c :: blank_T s'
  | [] => []
  end.
Fixpoint before_plus (s : str) : str :=
  match s with
  | c :: s' => if bool_decide (c = "+"%char) then [] else c :: before_plus s'
  | [] => []
  end.

Definition string_item (s : str) (it : p_item) : M D p_item :=
  if is_quoted_string s then c ← d_insert s; mret (set_dcode c it)
  else if is_int s then i ← lift_res (stoi s); mret (set_int i it)
  else if is_float s then d ← lift_res (stod s); mret (set_double d it)
  else if is_date s then t ← lift_res (ptime_of_date s); mret (set_ptime t it)
  else if is_dtime s then
    t ← lift_res (time_from_string (before_plus (blank_T s))); mret (set_ptime t it)
  else c ← d_insert s; mret (set_dcode c it).

(** [p_item(v, dct)]: the casts are tried one after the other. *)
Definition any_item (v : any) : M D p_item :=
  match v with
  | any_uint64 u => mret (set_uint64 u unused_item)
  | any_string s => string_item s unused_item
  | any_ptime t => mret (set_ptime t unused_item)
  | any_double d => mret (set_double d unused_item)
  | any_int i => mret (set_int i unused_item)
  | any_none | any_dcode _ | any_other => mret unused_item
  end.
(** [p_item(k, v, dct)] for a string key and for a code *)
Definition named_item (k : str) (v : any) : M D p_item :=
  it ← any_item v; c ← d_insert k; mret (mk_item (value_ it) c (flags_ it)).
Definition coded_item (k : Z) (v : any) : M D p_item :=
  it ← any_item v; mret (mk_item (value_ it) k (flags_ it)).

(** The value of an item as the [switch] of [all_properties] and
    [build_properties_from_pitems] makes it, for a way to look codes up; an
    unused item has none. *)
Definition item_value_with (look : Z → res str) (it : p_item) : res (option any) :=
  let tc := typecode it in
  if bool_decide (tc = p_int) then x ← get_int it; Val (Some (any_int x))
  else if bool_decide (tc = p_double) then x ← get_double it; Val (Some (any_double x))
  else if bool_decide (tc = p_uint64) then x ← get_uint64 it; Val (Some (any_uint64 x))
  else if bool_decide (tc = p_dcode) then
    x ← get_dcode it; s ← look x; Val (Some (any_string s))
  else if bool_decide (tc = p_ptime) then x ← get_ptime it; Val (Some (any_ptime x))
  else Val None.
Definition item_value (d : D) : p_item → res (option any) := item_value_with (d_lookup_code d).

(** ** What an item keeps of a value

    [None]: nothing; strings that are numbers or dates change their type. *)
Definition canon (v : any) : res (option any) :=
  match v with
  | any_string s =>
    if is_quoted_string s then Val (Some (any_string s))
    else if is_int s then i ← stoi s; Val (Some (any_int i))
    else if is_float s then b ← stod s; Val (Some (any_double b))
    else if is_date s then t ← ptime_of_date s; Val (Some (any_ptime t))
    else if is_dtime s then
      t ← time_from_string (before_plus (blank_T s)); Val (Some (any_ptime t))
    else Val (Some (any_string s))
  | any_uint64 _ | any_ptime _ | any_double _ | any_int _ => Val (Some v)
  | any_none | any_dcode _ | any_other => Val None
  end.
(** The string the dictionary has to take for a value. *)
Definition dict_string (v : any) : option str :=
  match v with
  | any_string s =>
    if is_quoted_string s || negb (is_int s || is_float s || is_date s || is_dtime s)
    then Some s else None
  | _ => None
  end.

(** ** Lemmas *)
Definition code_in (m : gmap Z str) (c : Z) : res str :=
  match m !! c with Some s => Val s | None => Exn undefined_behaviour end.
(** The item stands for the value [o] when codes mean what [m] says. *)
Definition item_means (m : gmap Z str) (it : p_item) (o : option any) : Prop :=
  item_value_with (code_in m) it = Val o.

(** The dictionary can take these strings one after the other. *)
Fixpoint dict_takes (d : D) (l : list str) : Prop :=
  match l with
  | [] => True
  | s :: l' => no_nul s ∧ d_fits d s ∧ dict_takes (d_insert s d).1 l'
  end.

Lemma item_means_mono m m' it o : m ⊆ m' → item_means m it o → item_means m' it o.
Proof.
  unfold item_means, item_value_with. intros Hm.
  repeat case_bool_decide; try done. unfold get_dcode. rewrite bool_decide_eq_true_2 by done. simpl.
  unfold code_in. destruct (m !! _) as [s|] eqn:E; [|done]. by rewrite (lookup_weaken _ _ _ _ E Hm).
Qed.

Lemma item_means_value d m it o : d_has d m → item_means m it o → item_value d it = Val o.
Proof.
  unfold item_means, item_value, item_value_with. intros Hd.
  repeat case_bool_decide; try done. unfold get_dcode. rewrite bool_decide_eq_true_2 by done. simpl.
  unfold code_in. destruct (m !! _) as [s|] eqn:E; [|done]. by destruct (d_code_ok _ _ _ _ Hd E) as [-> _].
Qed.

Lemma u32_small x : 0 ≤ x < two32 → u32 x = x.
Proof. apply Z.mod_small. Qed.
Lemma s32_u32 i : - 2 ^ 31 ≤ i < 2 ^ 31 → s32 (u32 i) = i.
Proof.
  intros Hi. unfold s32, u32. rewrite Z.mod_mod by done.
  change two32 with (2 ^ 32). case_bool_decide.
  - destruct (decide (0 ≤ i)); [by rewrite Z.mod_small by lia|].
    rewrite <-(Z.mod_add i 1), Z.mod_small in * by lia. lia.
  - destruct (decide (0 ≤ i)); [rewrite Z.mod_small in * by lia; lia|].
    rewrite <-(Z.mod_add i 1), Z.mod_small in * by lia. lia.
Qed.

Lemma stoi_range s i : stoi s = Val i → - 2 ^ 31 ≤ i < 2 ^ 31.
Proof.
  unfold stoi. destruct (signed _) as [neg s1]. destruct (digits s1 0) as [[v n] r].
  case_bool_decide; [done|]. case_bool_decide; [|done]. by intros [= <-].
Qed.

Lemma item_means_int m k i : - 2 ^ 31 ≤ i < 2 ^ 31 → item_means m (mk_item (u32 i) k p_int) (Some (any_int i)).
Proof. intros Hi. unfold item_means, item_value_with, get_int. simpl. by rewrite s32_u32. Qed.

Lemma item_means_string m k c s :
  0 < c < UNKNOWN_CODE → m !! c = Some s → item_means m (mk_item c k p_dcode) (Some (any_string s)).
Proof.
  intros Hc Hm. unfold item_means, item_value_with, get_dcode. simpl.
  rewrite u32_small by (unfold UNKNOWN_CODE in Hc; lia). unfold code_in. by rewrite Hm.
Qed.

(** Making an item of a value: the dictionary only grows, and the item stands
    for what [canon] says. *)
Lemma any_item_ok d m v o :
  d_has d m → any_wf v → dict_takes d (option_list (dict_string v)) → canon v = Val o →
  ∃ d' m' it, any_item v d = (d', Val it) ∧ d_has d' m' ∧ m ⊆ m'
    ∧ d' = match dict_string v with Some s => (d_insert s d).1 | None => d end
    ∧ ∀ m'' k, m' ⊆ m'' → item_means m'' (mk_item (value_ it) k (flags_ it)) o.
Proof.
  intros Hd Hw Ht Hc. destruct v as [|i|b|u|c|s|t|]; simpl in Hc.
  - injection Hc as <-. by eexists d, m, _.
  - injection Hc as <-. eexists d, m, _. split_and!; [done..|]. intros. by apply item_means_int.
  - injection Hc as <-. by eexists d, m, _.
  - injection Hc as <-. by eexists d, m, _.
  - injection Hc as <-. by eexists d, m, _.
  - assert (dict_string (any_string s) = Some s → o = Some (any_string s) →
      ∃ d' m' it, (c ← d_insert s; mret (set_dcode c unused_item)) d = (d', Val it) ∧ d_has d' m' ∧ m ⊆ m'
      ∧ d' = match dict_string (any_string s) with Some s => (d_insert s d).1 | None => d end
      ∧ ∀ m'' k, m' ⊆ m'' → item_means m'' (mk_item (value_ it) k (flags_ it)) o) as Hins.
    { intros Hb ->. rewrite Hb in Ht |- *. destruct Ht as (Hn & Hf & _).
      destruct (d_insert_ok d m s Hd Hn Hf) as (d' & c & Hi & Hd' & Hr & Hor & _).
      unfold mbind, M_bind. rewrite Hi. eexists d', _, _. split_and!; [done|done| |done|].
      - destruct Hor; [by apply insert_subseteq|by rewrite insert_id].
      - intros m'' k Hm''. apply item_means_string; [done|].
        eapply lookup_weaken; [|done]. apply lookup_insert_eq. }
    assert (dict_string (any_string s)
      = if is_quoted_string s || negb (is_int s || is_float s || is_date s || is_dtime s)
        then Some s else None) as Eds by done.
    cbn [any_item]. unfold string_item.
    destruct (is_quoted_string s) eqn:Eq; [apply Hins; [done|congruence]|].
    destruct (is_int s) eqn:E1.
    { rewrite Eds. destruct (stoi s) as [i|] eqn:Es; [|done]. injection Hc as <-.
      unfold mbind, M_bind, lift_res. eexists d, m, _. split_and!; [done..|]. intros.
      apply item_means_int. by eapply stoi_range. }
    destruct (is_float s) eqn:E2.
    { rewrite Eds. destruct (stod s) as [b|] eqn:Es; [|done]. injection Hc as <-. by eexists d, m, _. }
    destruct (is_date s) eqn:E3.
    { rewrite Eds. destruct (ptime_of_date s) as [b|] eqn:Es; [|done]. injection Hc as <-. by eexists d, m, _. }
    destruct (is_dtime s) eqn:E4.
    { rewrite Eds. destruct (time_from_string _) as [b|] eqn:Es; [|done]. injection Hc as <-. by eexists d, m, _. }
    apply Hins; [by rewrite Eds|congruence].
  - injection Hc as <-. by eexists d, m, _.
  - injection Hc as <-. by eexists d, m, _.
Qed.

(** The strings the dictionary has to take for a property. *)
Definition item_strings (k : str) (v : any) : list str := option_list (dict_string v) ++ [k].

Lemma named_item_ok d m k v o :
  d_has d m → any_wf v → dict_takes d (item_strings k v) → canon v = Val o →
  ∃ d' m' it, named_item k v d = (d', Val it) ∧ d_has d' m' ∧ m ⊆ m'
    ∧ 0 < key_ it < UNKNOWN_CODE ∧ m' !! key_ it = Some k ∧ item_means m' it o
    ∧ d' = foldl (λ d s, (d_insert s d).1) d (item_strings k v).
Proof.
  intros Hd Hw Ht Hc.
  assert (dict_takes d (option_list (dict_string v))
    ∧ dict_takes (match dict_string v with Some s => (d_insert s d).1 | None => d end) [k]) as [Ht1 Ht2].
  { unfold item_strings in Ht. destruct (dict_string v); simpl in *; tauto. }
  destruct (any_item_ok d m v o Hd Hw Ht1 Hc) as (d1 & m1 & it & Hi & Hd1 & Hm1 & Hd1' & Hit).
  unfold named_item, mbind, M_bind. rewrite Hi. rewrite <-Hd1' in Ht2. destruct Ht2 as (Hn & Hf & _).
  destruct (d_insert_ok d1 m1 k Hd1 Hn Hf) as (d2 & c & Hk & Hd2 & Hr & Hor & _). rewrite Hk.
  assert (m1 ⊆ <[c:=k]> m1) as Hm2.
  { destruct Hor; [by apply insert_subseteq|by rewrite insert_id]. }
  eexists d2, _, _. split_and!; [done|done|by transitivity m1|simpl; lia..| | |].
  - apply lookup_insert_eq.
  - by apply Hit.
  - unfold item_strings. rewrite foldl_app. simpl. destruct (dict_string v); simpl; subst d1; by rewrite Hk.
Qed.

(** A value that cannot be converted is rejected before anything happens. *)
Lemma any_item_fails d v e : canon v = Exn e → any_item v d = (d, Exn e).
Proof.
  destruct v as [| | | | |s| |]; simpl; try done. unfold string_item, mbind, M_bind, lift_res, res_bind.
  destruct (is_quoted_string s); [done|]. destruct (is_int s); [destruct (stoi s); congruence|].
  destruct (is_float s); [destruct (stod s); congruence|].
  destruct (is_date s); [destruct (ptime_of_date s); congruence|].
  destruct (is_dtime s); [destruct (time_from_string _); congruence|done].
Qed.
End items.
