(* ===== verification/PropertyList.v ===== *)
(** * PropertyList: the tables of properties (src/storage/properties.hpp)

    The properties of a node or relationship are kept in records of three items
    each ([property_set]), linked by the id of the next record, in a vector that
    all nodes (or all relationships) share.  Loops that follow the links get the
    capacity of the vector as fuel: a chain of different records is not longer,
    so only a cyclic chain uses it up, and on a cycle the code does not return.
    Logging callbacks are null in this configuration. *)

From Stdlib Require Import Ascii.
From S2P Require Import Prelude VecSpec DictSpec Literals Property.

(** ** [properties_t]: a map ordered by name *)

(** [std::string::operator<]: bytes are compared unsigned. *)
Fixpoint str_lt (a b : str) : bool :=
  match a, b with
  | [], [] => false
  | [], _ :: _ => true
  | _ :: _, [] => false
  | x :: a', y :: b' =>
    if bool_decide (code x < code y) then true
    else if bool_decide (code y < code x) then false else str_lt a' b'
  end.

Definition properties_t : Type := list (str * any).

(** [pmap.insert({k, v})] leaves an existing entry alone. *)
Fixpoint pmap_insert (k : str) (v : any) (m : properties_t) : properties_t :=
  match m with
  | [] => [(k, v)]
  | (k', v') :: m' =>
    if bool_decide (k = k') then m
    else if str_lt k k' then (k, v) :: m else (k', v') :: pmap_insert k v m'
  end.

(** ** Records *)
Record property_set : Type := mk_pset { next : Z; owner : Z; items : list p_item }.

#[export] Instance property_set_inhabited : Inhabited property_set :=
  populate (mk_pset 0 0 []).

(** A computation on one half of a pair. *)
Definition on_fst {A B X} (m : M A X) : M (A * B) X := λ s,
  let '(a, r) := m s.1 in ((a, s.2), r).
Definition on_snd {A B X} (m : M B X) : M (A * B) X := λ s,
  let '(b, r) := m s.2 in ((s.1, b), r).

Section property_list.
Context {V : Type → Type} `{!Vec V} {D : Type} `{!Dictionary D}.
Variables (ptime_of_date time_from_string : str → res Z) (junk : Z).

Notation pvec := (V property_set).
Notation named_item := (named_item ptime_of_date time_from_string junk).
Notation coded_item := (coded_item ptime_of_date time_from_string junk).

(** [pil.fill(p_item(0))] *)
Definition empty_pil : list p_item := replicate 3 (unused_item junk).

(** [properties_.at(id)] *)
Definition pset_at (v : pvec) (id : Z) : res property_set :=
  l ← vec_at v id;
  match vec_read v l with Some p => Val p | None => Exn undefined_behaviour end.

Definition walk_fuel (v : pvec) : nat := S (Z.to_nat (vec_capacity v)).

(** ** Adding *)

(** The loop of [add_properties], [add_pitems] and [append_properties]: items
    are collected in [pil] and stored by three. *)
Fixpoint pack {S A} (make : A → M S p_item) (store : property_set → M S Z) (nid : Z) (total : nat)
    (l : list A) (pil : list p_item) (pidx n : nat) (next_id : Z) : M S Z :=
  match l with
  | [] => mret next_id
  | x :: l' =>
    it ← make x;
    let pil := <[pidx := it]> pil in
    let pidx := (pidx + 1)%nat in
    let n := (n + 1)%nat in
    if bool_decide (n = total) || bool_decide (pidx = 3%nat) then
      id ← store (mk_pset next_id nid pil);
      pack make store nid total l' empty_pil 0 n id
    else pack make store nid total l' pil pidx n next_id
  end.

Definition fill_slot (ps : property_set) : M pvec Z :=
  v ← get_st;
  when (vec_is_full v) (modify (vec_resize 1));;
  v ← get_st;
  let id := vec_first_available v in
  assert_ (bool_decide (id ≠ UNKNOWN));;
  vec_store_at id ps;;
  mret id.

Definition add_properties (nid : Z) (props : properties_t) : M (pvec * D) Z :=
  pack (λ kv, on_snd (named_item kv.1 kv.2)) (λ ps, on_fst (fill_slot ps))
    nid (length props) props empty_pil 0 0 UNKNOWN.

Definition add_pitems (nid : Z) (props : list p_item) : M pvec Z :=
  pack mret (λ ps, p ← vec_store ps; mret p.1) nid (length props) props empty_pil 0 0 UNKNOWN.

Definition append_properties (nid : Z) (props : properties_t) : M (pvec * D) Z :=
  pack (λ kv, on_snd (named_item kv.1 kv.2)) (λ ps, on_fst (p ← vec_append ps; mret p.1))
    nid (length props) props empty_pil 0 0 UNKNOWN.

(** [append_typed_properties]: empty values are skipped before the test that
    writes the last, partly filled record. *)
Fixpoint append_typed_loop (nid : Z) (nkeys i : nat) (l : list (Z * Z * any))
    (pil : list p_item) (pidx : nat) (next_id : Z) : M pvec Z :=
  match l with
  | [] => mret next_id
  | (k, tc, v) :: l' =>
    if bool_decide (v = any_none) then append_typed_loop nid nkeys (S i) l' pil pidx next_id
    else
      it ← lift_res (typed_item junk k tc v);
      let pil := <[pidx := it]> pil in
      let pidx := (pidx + 1)%nat in
      if bool_decide (i = nkeys - 1)%nat || bool_decide (pidx = 3%nat) then
        p ← vec_append (mk_pset next_id nid pil);
        append_typed_loop nid nkeys (S i) l' empty_pil 0 p.1
      else append_typed_loop nid nkeys (S i) l' pil pidx next_id
  end.
Definition append_typed_properties (nid : Z) (l : list (Z * Z * any)) : M pvec Z :=
  append_typed_loop nid (length l) 0 l empty_pil 0 UNKNOWN.

(** ** Reading *)
Fixpoint property_value_loop (fuel : nat) (v : pvec) (pset_id pkey : Z) : res p_item :=
  match fuel with
  | O => Exn no_return
  | S f =>
    if bool_decide (pset_id = UNKNOWN) then Val zero_item
    else
      p ← pset_at v pset_id;
      match snd <$> list_find (λ it, key_ it = pkey) (items p) with
      | Some it => Val it
      | None => property_value_loop f v (next p) pkey
      end
  end.
(** [unknown_id] is caught: there is no such property then. *)
Definition property_value (v : pvec) (id pkey : Z) : res p_item :=
  match property_value_loop (walk_fuel v) v id pkey with
  | Exn unknown_id => Val zero_item
  | r => r
  end.

(** One item of [all_properties] and [build_properties_from_pitems]: the name is
    read only when the item has a value. *)
Definition add_to_map (d : D) (m : properties_t) (it : p_item) : res properties_t :=
  o ← item_value d it;
  match o with
  | None => Val m
  | Some x => s ← d_lookup_code d (key_ it); Val (pmap_insert s x m)
  end.
Fixpoint add_all_to_map (d : D) (m : properties_t) (l : list p_item) : res properties_t :=
  match l with
  | [] => Val m
  | it :: l' => m' ← add_to_map d m it; add_all_to_map d m' l'
  end.

Fixpoint all_properties_loop (fuel : nat) (v : pvec) (d : D) (pset_id : Z) (m : properties_t)
    : res properties_t :=
  match fuel with
  | O => Exn no_return
  | S f =>
    if bool_decide (pset_id = UNKNOWN) then Val m
    else
      p ← pset_at v pset_id;
      m' ← add_all_to_map d m (items p);
      all_properties_loop f v d (next p) m'
  end.
Definition all_properties (v : pvec) (d : D) (id : Z) : res properties_t :=
  if bool_decide (vec_capacity v ≤ id) then Val []
  else all_properties_loop (walk_fuel v) v d id [].

Definition build_properties_from_pitems (d : D) (pitems : list p_item) : res properties_t :=
  add_all_to_map d [] pitems.

(** The calls of the callback are the triples of the result. *)
Fixpoint foreach_loop (fuel : nat) (v : pvec) (pset_id : Z) : res (list (Z * list p_item * Z)) :=
  match fuel with
  | O => Exn no_return
  | S f =>
    if bool_decide (pset_id = UNKNOWN) then Val []
    else
      p ← pset_at v pset_id;
      l ← foreach_loop f v (next p);
      Val ((pset_id, items p, next p) :: l)
  end.
Definition foreach_property_set (v : pvec) (id : Z) : res (list (Z * list p_item * Z)) :=
  match foreach_loop (walk_fuel v) v id with
  | Exn unknown_id => Exn unknown_property
  | r => r
  end.

Definition get_pset (v : pvec) (id : Z) : res property_set :=
  if bool_decide (vec_capacity v ≤ id) then Exn unknown_id else pset_at v id.

(** ** Dirty lists *)
Fixpoint build_dirty_loop (fuel : nat) (v : pvec) (pset_id : Z) (acc : list p_item) : res (list p_item) :=
  match fuel with
  | O => Exn no_return
  | S f =>
    if bool_decide (pset_id = UNKNOWN) then Val acc
    else
      p ← pset_at v pset_id;
      build_dirty_loop f v (next p) (acc ++ filter (λ it, key_ it ≠ 0) (items p))
  end.
Definition build_dirty_property_list (v : pvec) (id : Z) : res (list p_item) :=
  build_dirty_loop (walk_fuel v) v id [].

Fixpoint build_dirty_from_props (props : properties_t) : M D (list p_item) :=
  match props with
  | [] => mret []
  | (k, x) :: props' => it ← named_item k x; l ← build_dirty_from_props props'; mret (it :: l)
  end.

(** The first item with the key of [pnew] is replaced. *)
Fixpoint replace_item (pnew : p_item) (pitems : list p_item) : list p_item * bool :=
  match pitems with
  | [] => ([], false)
  | pi :: l => if bool_decide (key_ pi = key_ pnew) then (pnew :: l, true)
               else let '(l', b) := replace_item pnew l in (pi :: l', b)
  end.
(** The list is changed in place, also when a later value cannot be converted. *)
Fixpoint apply_updates_loop (todo : list p_item) (props : properties_t) : M (list p_item * D) unit :=
  match props with
  | [] => modify (λ s, (s.1 ++ todo, s.2))
  | (k, x) :: props' =>
    pnew ← on_snd (named_item k x);
    s ← get_st;
    let '(pitems', updated) := replace_item pnew s.1 in
    modify (λ s, (pitems', s.2));;
    apply_updates_loop (if updated : bool then todo else todo ++ [pnew]) props'
  end.
Definition apply_updates (props : properties_t) : M (list p_item * D) unit :=
  apply_updates_loop [] props.

(** ** Updating and removing *)
Definition write_items (id : Z) (pil : list p_item) : M pvec Z :=
  v ← get_st;
  l ← lift_res (vec_at v id);
  match vec_read v l with
  | None => throw undefined_behaviour
  | Some old => modify (vec_write l (mk_pset (next old) (owner old) pil));; mret (next old)
  end.

Fixpoint update_pitems_loop (nid : Z) (total : nat) (l : list p_item) (pil : list p_item)
    (pidx n : nat) (id head_id : Z) : M pvec Z :=
  match l with
  | [] => mret head_id
  | pi :: l' =>
    let pil := <[pidx := pi]> pil in
    let pidx := (pidx + 1)%nat in
    let n := (n + 1)%nat in
    if bool_decide (n = total) || bool_decide (pidx = 3%nat) then
      if bool_decide (id ≠ UNKNOWN) then
        id' ← write_items id pil;
        update_pitems_loop nid total l' empty_pil 0 n id' head_id
      else
        new_id ← fill_slot (mk_pset head_id nid pil);
        update_pitems_loop nid total l' empty_pil 0 n id new_id
    else update_pitems_loop nid total l' pil pidx n id head_id
  end.
Definition update_pitems (nid id : Z) (props : list p_item) : M pvec Z :=
  update_pitems_loop nid (length props) props empty_pil 0 0 id id.

Definition remove_pset (id : Z) : M pvec unit :=
  v ← get_st;
  if bool_decide (vec_capacity v ≤ id) then throw unknown_id else vec_erase id.

Fixpoint remove_loop (fuel : nat) (pset_id : Z) : M pvec unit :=
  match fuel with
  | O => throw no_return
  | S f =>
    if bool_decide (pset_id = UNKNOWN) then mret tt
    else v ← get_st; p ← lift_res (pset_at v pset_id); vec_erase pset_id;; remove_loop f (next p)
  end.
Definition remove_properties (id : Z) : M pvec unit :=
  if bool_decide (id = UNKNOWN) then mret tt
  else
    v ← get_st;
    if bool_decide (vec_capacity v ≤ id) then throw unknown_property
    else remove_loop (walk_fuel v) id.
End property_list.

(** ** Chains of records *)
Section chains.
Context {V : Type → Type} `{!Vec V}.
Notation pvec := (V property_set).
Implicit Types (v : pvec) (c : list (Z * property_set)).

(** [c] are the records from [id] on with their ids. *)
Fixpoint chain v (id : Z) c : Prop :=
  match c with
  | [] => id = UNKNOWN
  | (i, p) :: c' => id = i ∧ i ≠ UNKNOWN ∧ vec_get v i = Some p ∧ chain v (next p) c'
  end.

Definition used_items (l : list p_item) : list p_item := filter (λ it, key_ it ≠ 0) l.
Definition all_items c : list p_item := concat (items ∘ snd <$> c).
Definition chain_items c : list p_item := used_items (all_items c).

Lemma used_items_app l1 l2 : used_items (l1 ++ l2) = used_items l1 ++ used_items l2.
Proof. apply filter_app. Qed.

Lemma chain_items_cons i p c : chain_items ((i, p) :: c) = used_items (items p) ++ chain_items c.
Proof. unfold chain_items, all_items. cbn. apply used_items_app. Qed.

Lemma chain_items_app c1 c2 : chain_items (c1 ++ c2) = chain_items c1 ++ chain_items c2.
Proof. unfold chain_items, all_items. by rewrite fmap_app, concat_app, used_items_app. Qed.

Lemma chain_det v id c1 c2 : chain v id c1 → chain v id c2 → c1 = c2.
Proof.
  revert id c2. induction c1 as [|[i p] c1 IH]; intros id [|[j q] c2]; simpl; [done|naive_solver..|].
  intros (-> & _ & Hp & Hc1) (-> & _ & Hq & Hc2). simplify_eq. f_equal. by eapply IH.
Qed.

Lemma chain_suffix v id c i : chain v id c → i ∈ c.*1 → ∃ c', chain v i c' ∧ (length c' ≤ length c)%nat.
Proof.
  revert id. induction c as [|[j p] c IH]; intros id Hc Hi; [by apply elem_of_nil in Hi|].
  simpl in Hi. apply elem_of_cons in Hi as [->|Hi].
  - exists ((j, p) :: c). simpl in *. naive_solver.
  - destruct Hc as (_ & _ & _ & Hc). destruct (IH _ Hc Hi) as (c' & ? & ?). exists c'. simpl. split; [done|lia].
Qed.

Lemma chain_NoDup v id c : chain v id c → NoDup c.*1.
Proof.
  revert id. induction c as [|[i p] c IH]; intros id Hc; [constructor|].
  pose proof Hc as (-> & Hne & Hp & Hc'). simpl. constructor; [|by eapply IH].
  intros Hi. destruct (chain_suffix _ _ _ _ Hc' Hi) as (c2 & Hc2 & Hlen).
  pose proof (chain_det _ _ _ _ Hc Hc2) as <-. simpl in Hlen. lia.
Qed.

Lemma chain_get v id c i p : chain v id c → (i, p) ∈ c → vec_get v i = Some p ∧ i ≠ UNKNOWN.
Proof.
  revert id. induction c as [|[j q] c IH]; intros id Hc Hin; [by apply elem_of_nil in Hin|].
  destruct Hc as (_ & ? & ? & Hc). apply elem_of_cons in Hin as [[= -> ->]|Hin]; [done|by eapply IH].
Qed.

Lemma chain_lookup v id c i p : chain v id c → (i, p) ∈ c → vec_get v i = Some p.
Proof. intros Hc Hin. by destruct (chain_get _ _ _ _ _ Hc Hin). Qed.

(** A chain depends on its own records only. *)
Lemma chain_frame v v' id c :
  chain v id c → (∀ i p, (i, p) ∈ c → vec_get v' i = Some p) → chain v' id c.
Proof.
  revert id. induction c as [|[i p] c IH]; intros id; simpl; [done|].
  intros (-> & Hne & Hp & Hc) Hf. split_and!; [done|done|apply Hf; constructor|].
  apply IH; [done|]. intros. apply Hf. by right.
Qed.

Lemma bounded_NoDup (l : list Z) n : NoDup l → (∀ x, x ∈ l → 0 ≤ x < n) → (length l ≤ Z.to_nat n)%nat.
Proof.
  intros Hn Hb. rewrite <-(length_seqZ 0 n). apply submseteq_length.
  apply NoDup_submseteq; [done|]. intros x Hx. apply elem_of_seqZ. specialize (Hb x Hx). lia.
Qed.

Lemma chain_length v id c : vec_rd v → chain v id c → (length c < walk_fuel v)%nat.
Proof.
  intros Hrd Hc. unfold walk_fuel.
  assert (length c.*1 ≤ Z.to_nat (vec_capacity v))%nat as H; [|rewrite length_fmap in H; lia].
  apply bounded_NoDup; [by eapply chain_NoDup|].
  intros i ([j p] & -> & Hin)%list_elem_of_fmap. destruct (chain_get _ _ _ _ _ Hc Hin).
  by eapply vec_get_bounds.
Qed.

Lemma pset_at_get v i p : vec_rd v → vec_get v i = Some p → pset_at v i = Val p.
Proof.
  intros Hrd Hp. unfold pset_at. destruct (vec_at_Some v i p Hrd Hp) as (l & -> & Hl). simpl. by rewrite Hl.
Qed.

(** *** Reading a chain *)
Lemma build_dirty_loop_chain v c : vec_rd v → ∀ f id acc, chain v id c → (length c < f)%nat →
  build_dirty_loop f v id acc = Val (acc ++ chain_items c).
Proof.
  intros Hrd. induction c as [|[i p] c IH]; intros [|f] id acc Hc Hf; simpl in *; try lia.
  - rewrite bool_decide_eq_true_2 by done. by rewrite app_nil_r.
  - destruct Hc as (-> & Hne & Hp & Hc). rewrite bool_decide_eq_false_2 by done.
    rewrite (pset_at_get _ _ _ Hrd Hp). simpl. rewrite IH by (done || lia).
    by rewrite chain_items_cons, <-app_assoc.
Qed.

Lemma build_dirty_chain v id c : vec_rd v → chain v id c → build_dirty_property_list v id = Val (chain_items c).
Proof.
  intros Hrd Hc. unfold build_dirty_property_list.
  by rewrite (build_dirty_loop_chain v c) by (done || by eapply chain_length).
Qed.

Lemma foreach_chain v id c :
  vec_rd v → chain v id c →
  foreach_property_set v id = Val ((λ ip, (ip.1, items ip.2, next ip.2)) <$> c).
Proof.
  intros Hrd Hc. unfold foreach_property_set.
  assert (∀ c f id, chain v id c → (length c < f)%nat →
    foreach_loop f v id = Val ((λ ip, (ip.1, items ip.2, next ip.2)) <$> c)) as H.
  { clear -Hrd. induction c as [|[i p] c IH]; intros [|f] id Hc Hf; simpl in *; try lia.
    - by rewrite bool_decide_eq_true_2.
    - destruct Hc as (-> & Hne & Hp & Hc). rewrite bool_decide_eq_false_2 by done.
      rewrite (pset_at_get _ _ _ Hrd Hp). simpl. by rewrite IH by (done || lia). }
  by rewrite (H c) by (done || by eapply chain_length).
Qed.

Lemma property_value_chain v id c k :
  vec_rd v → chain v id c →
  property_value v id k = Val (default zero_item (snd <$> list_find (λ it, key_ it = k) (all_items c))).
Proof.
  intros Hrd Hc. unfold property_value.
  assert (∀ c f id, chain v id c → (length c < f)%nat → property_value_loop f v id k =
    Val (default zero_item (snd <$> list_find (λ it, key_ it = k) (all_items c)))) as H.
  { clear -Hrd. induction c as [|[i p] c IH]; intros [|f] id Hc Hf; simpl in *; try lia.
    - by rewrite bool_decide_eq_true_2.
    - destruct Hc as (-> & Hne & Hp & Hc). rewrite bool_decide_eq_false_2 by done.
      rewrite (pset_at_get _ _ _ Hrd Hp). simpl. unfold all_items. cbn. 
      destruct (list_find _ (items p)) as [[j it]|] eqn:E; simpl.
      + by rewrite (list_find_app_l _ _ _ j it).
      + rewrite IH by (done || lia). rewrite list_find_app_r by done.
        unfold all_items. by destruct (list_find _ (concat _)) as [[]|]. }
  by rewrite (H c) by (done || by eapply chain_length).
Qed.
End chains.

(** ** Adding, updating and removing chains *)
Section changes.
Context {V : Type → Type} `{!Vec V}.
Variable junk : Z.
Notation pvec := (V property_set).
Implicit Types (v : pvec) (c : list (Z * property_set)).

(** Up to three items with unused ones behind them. *)
Definition pad (l : list p_item) : list p_item := l ++ replicate (3 - length l) (unused_item junk).

Definition keyed (l : list p_item) : Prop := Forall (λ it, key_ it ≠ 0) l.

Lemma used_items_keyed l : keyed l → used_items l = l.
Proof.
  induction 1 as [|it l Hit _ IH]; [done|]. unfold used_items in *. rewrite filter_cons, decide_True by done.
  by rewrite IH.
Qed.

Lemma used_items_pad l : keyed l → used_items (pad l) = l.
Proof.
  intros Hl. unfold pad. rewrite used_items_app, used_items_keyed by done.
  assert (used_items (replicate (3 - length l) (unused_item junk)) = []) as ->; [|by rewrite app_nil_r].
  induction (3 - length l)%nat as [|n IH]; [done|]. unfold used_items in *. simpl replicate.
  by rewrite filter_cons, decide_False by (intros H; by apply H).
Qed.

Lemma used_items_bound l : (length (used_items l) ≤ length l)%nat.
Proof. apply length_filter. Qed.

(** One round of the loops: up to three items are written. *)
Lemma pack_unroll store nid total (l : list p_item) n id v :
  l ≠ [] → (n + length l = total)%nat →
  pack (S:=pvec) junk mret store nid total l (empty_pil junk) 0 n id v =
  (id' ← store (mk_pset id nid (pad (take 3 l)));
   pack junk mret store nid total (drop 3 l) (empty_pil junk) 0 (n + length (take 3 l)) id') v.
Proof.
  intros Hl <-. destruct l as [|a [|b [|c l]]]; [done|..]; simpl.
  - rewrite bool_decide_eq_true_2 by lia. done.
  - rewrite (bool_decide_eq_false_2 (n + 1 = _)%nat) by lia. simpl.
    rewrite bool_decide_eq_true_2 by lia. simpl. by replace (n + 1 + 1)%nat with (n + 2)%nat by lia.
  - rewrite (bool_decide_eq_false_2 (n + 1 = _)%nat) by lia. simpl.
    rewrite (bool_decide_eq_false_2 (n + 1 + 1 = _)%nat) by lia. simpl.
    rewrite orb_true_r. by replace (n + 1 + 1 + 1)%nat with (n + 3)%nat by lia.
Qed.

Lemma update_unroll nid total (l : list p_item) n id head v :
  l ≠ [] → (n + length l = total)%nat →
  update_pitems_loop junk nid total l (empty_pil junk) 0 n id head v =
  (if bool_decide (id ≠ UNKNOWN) then
     id' ← write_items id (pad (take 3 l));
     update_pitems_loop junk nid total (drop 3 l) (empty_pil junk) 0 (n + length (take 3 l)) id' head
   else
     new_id ← fill_slot (mk_pset head nid (pad (take 3 l)));
     update_pitems_loop junk nid total (drop 3 l) (empty_pil junk) 0 (n + length (take 3 l)) id new_id) v.
Proof.
  intros Hl <-. destruct l as [|a [|b [|c l]]]; [done|..]; simpl.
  - rewrite (bool_decide_eq_true_2 (n + 1 = _)%nat) by lia. simpl. by destruct (bool_decide _).
  - rewrite (bool_decide_eq_false_2 (n + 1 = _)%nat) by lia. simpl.
    rewrite (bool_decide_eq_true_2 (n + 1 + 1 = _)%nat) by lia. simpl.
    replace (n + 1 + 1)%nat with (n + 2)%nat by lia. by destruct (bool_decide _).
  - rewrite (bool_decide_eq_false_2 (n + 1 = _)%nat) by lia. simpl.
    rewrite (bool_decide_eq_false_2 (n + 1 + 1 = _)%nat) by lia. simpl.
    rewrite orb_true_r. replace (n + 1 + 1 + 1)%nat with (n + 3)%nat by lia. by destruct (bool_decide _).
Qed.

(** A way to store new records; [ok] is the invariant it keeps. *)
Record stores (ok : pvec → Prop) (store : property_set → M pvec Z) : Prop := {
  st_rd v : ok v → vec_rd v;
  st_ok v ps : ok v → vec_capacity v + vec_grow ≤ UNKNOWN →
    ∃ id v', store ps v = (v', Val id) ∧ ok v' ∧ vec_get v id = None
      ∧ (∀ j, vec_get v' j = if decide (j = id) then Some ps else vec_get v j)
      ∧ vec_capacity v ≤ vec_capacity v' ≤ vec_capacity v + vec_grow
}.

Lemma store_stores : stores vec_ok (λ ps, p ← vec_store ps; mret p.1).
Proof.
  split; [apply vec_ok_rd|]. intros v ps Hok Hcap.
  destruct (vec_store_ok v ps Hok) as (id & l & v' & E & Hok' & Hid & Hn & _ & Hget & Hc1 & Hc2).
  exists id, v'. unfold mbind, M_bind. by rewrite E.
Qed.

Lemma append_stores : stores vec_ok (λ ps, p ← vec_append ps; mret p.1).
Proof.
  split; [apply vec_ok_rd|]. intros v ps Hok Hcap.
  destruct (vec_append_ok v ps Hok) as (id & l & v' & E & Hok' & Hid & Hn & _ & Hget & Hc1 & Hc2).
  exists id, v'. unfold mbind, M_bind. by rewrite E.
Qed.

Lemma fill_stores : stores vec_rd fill_slot.
Proof.
  split; [done|]. intros v ps Hrd Hcap.
  destruct (vec_fill_ok v ps Hrd Hcap) as (Hne & Hid & Hn & v' & E & Hrd' & Hget & Hc).
  exists (vec_first_available (if vec_is_full v then vec_resize 1 v else v)), v'.
  split_and!; try done; [|lia..].
  unfold fill_slot, mbind, M_bind, get_st, when, modify, assert_.
  destruct (vec_is_full v); simpl; rewrite bool_decide_eq_true_2 by done; simpl; by rewrite E.
Qed.

(** A record as the loops write it, and the new records of a chain: owned by
    [nid], in slots that were free before. *)
Definition padded (ip : Z * property_set) : Prop :=
  ∃ g, keyed g ∧ (length g ≤ 3)%nat ∧ items ip.2 = pad g.
Definition fresh_records (nid : Z) v c : Prop :=
  Forall (λ ip, owner ip.2 = nid ∧ padded ip ∧ vec_get v ip.1 = None) c.

(** The records with the items in rounds of three, the last round first. *)
Lemma pack_ok ok store nid total (l : list p_item) n v head c :
  stores ok store → ok v → keyed l → (n + length l = total)%nat → chain v head c →
  vec_capacity v + Z.of_nat (length l) * vec_grow ≤ UNKNOWN →
  ∃ v' id c', pack junk mret store nid total l (empty_pil junk) 0 n head v = (v', Val id)
    ∧ ok v' ∧ chain v' id (c' ++ c) ∧ chain_items c' ≡ₚ l
    ∧ fresh_records nid v c' ∧ (3 * length c' < length l + 3)%nat
    ∧ (∀ j x, vec_get v j = Some x → vec_get v' j = Some x)
    ∧ (∀ j, j ∉ c'.*1 → vec_get v' j = vec_get v j)
    ∧ vec_capacity v ≤ vec_capacity v' ≤ vec_capacity v + Z.of_nat (length l) * vec_grow.
Proof.
  intros Hst. revert n v head c.
  induction l as [l IH] using (well_founded_induction (well_founded_ltof _ (@length p_item))).
  intros n v head c Hok Hk Hn Hc Hcap. destruct (decide (l = [])) as [->|Hl].
  { exists v, head, []. simpl. split_and!; try done; try lia. constructor. }
  rewrite pack_unroll by done.
  destruct (st_ok _ _ Hst v (mk_pset head nid (pad (take 3 l))) Hok)
    as (id & v1 & E & Hok1 & Hfree & Hget & Hcap1).
  { assert (0 < length l)%nat by (destruct l; simpl; [done|lia]).
    pose proof vec_grow_pos. nia. }
  unfold mbind at 1, M_bind at 1. rewrite E.
  assert (∀ j x, vec_get v j = Some x → vec_get v1 j = Some x) as Hext.
  { intros j x Hj. rewrite Hget. destruct (decide (j = id)) as [->|]; [congruence|done]. }
  assert (id ≠ UNKNOWN) as Hid.
  { intros ->. destruct (vec_get_bounds v1 UNKNOWN (mk_pset head nid (pad (take 3 l)))) as [_ ?].
    - by apply Hst.
    - by rewrite Hget, decide_True.
    - assert (0 < length l)%nat by (destruct l; simpl; [done|lia]).
      pose proof vec_grow_pos. nia. }
  assert (0 < length l)%nat as Hlen by (destruct l; simpl; [done|lia]).
  assert (keyed (take 3 l) ∧ keyed (drop 3 l)) as [Hk1 Hk2].
  { rewrite <-(take_drop 3 l) in Hk. by apply Forall_app in Hk. }
  destruct (IH (drop 3 l)) with (n := (n + length (take 3 l))%nat) (v := v1) (head := id)
    (c := (id, mk_pset head nid (pad (take 3 l))) :: c)
    as (v' & id' & c' & E' & Hok' & Hc' & Hperm & Hfr & Hnum & Hext' & Hframe & Hcap').
  { unfold ltof. rewrite length_drop. lia. }
  { done. }
  { done. }
  { rewrite <-Hn, <-Nat.add_assoc, <-length_app, take_drop. done. }
  { simpl. split_and!; [done|done|by rewrite Hget, decide_True|].
    eapply chain_frame; [done|]. intros i p Hin. apply Hext. by eapply chain_lookup. }
  { rewrite length_drop. pose proof vec_grow_pos. nia. }
  exists v', id', (c' ++ [(id, mk_pset head nid (pad (take 3 l)))]).
  assert (∀ j, j ∈ (c' ++ [(id, mk_pset head nid (pad (take 3 l)))]).*1 ↔ j ∈ c'.*1 ∨ j = id) as Hfst.
  { intros j. rewrite fmap_app, elem_of_app. simpl. by rewrite list_elem_of_singleton. }
  split_and!.
  - done.
  - done.
  - by rewrite <-app_assoc.
  - rewrite chain_items_app, chain_items_cons. simpl. rewrite used_items_pad by done.
    change (chain_items []) with (@nil p_item). rewrite app_nil_r, Hperm, Permutation_app_comm.
    by rewrite take_drop.
  - apply Forall_app. split.
    + eapply Forall_impl; [exact Hfr|]. intros [j p] (? & ? & Hj). split_and!; [done..|]. simpl in *.
      rewrite Hget in Hj. by destruct (decide (j = id)).
    + repeat constructor; simpl; [|done]. exists (take 3 l). split_and!; [done| |done].
      rewrite length_take. lia.
  - rewrite length_app. simpl. rewrite length_drop in Hnum. lia.
  - intros j x Hj. by apply Hext', Hext.
  - intros j Hj. rewrite Hfst in Hj. rewrite Hframe by tauto. rewrite Hget, decide_False; [done|tauto].
  - lia.
  - rewrite length_drop in Hcap'. pose proof vec_grow_pos. nia.
Qed.

(** Without an old record left, updating is adding. *)
Lemma update_is_pack nid total (l pil : list p_item) pidx n head v :
  update_pitems_loop junk nid total l pil pidx n UNKNOWN head v =
  pack junk mret fill_slot nid total l pil pidx n head v.
Proof.
  revert pil pidx n head v. induction l as [|it l IH]; intros pil pidx n head v; [done|].
  cbn [update_pitems_loop pack]. unfold mbind, M_bind, mret, M_ret.
  destruct (bool_decide _ || bool_decide _); [|apply IH].
  rewrite bool_decide_eq_false_2 by tauto. destruct (fill_slot _ v) as [v1 [id|e]]; [apply IH|done].
Qed.

Lemma write_items_ok v i p pil :
  vec_rd v → vec_get v i = Some p →
  ∃ v', write_items i pil v = (v', Val (next p)) ∧ vec_rd v' ∧ vec_capacity v' = vec_capacity v
    ∧ ∀ j, vec_get v' j = if decide (j = i) then Some (mk_pset (next p) (owner p) pil) else vec_get v j.
Proof.
  intros Hrd Hp. destruct (vec_at_Some v i p Hrd Hp) as (l & Hl & Hr).
  destruct (vec_write_ok v i l (mk_pset (next p) (owner p) pil) Hrd) as (Hrd' & _ & Hcap & Hget & _);
    [by eapply vec_get_bounds|done|].
  eexists. unfold write_items, mbind, M_bind, get_st, lift_res. rewrite Hl, Hr. by split.
Qed.

Lemma update_loop_ok nid total rest : ∀ (l : list p_item) n v id head dn,
  vec_rd v → keyed l → (n + length l = total)%nat → chain v head (dn ++ rest) → chain v id rest →
  (3 * length rest < length l + 3)%nat → vec_capacity v + Z.of_nat (length l) * vec_grow ≤ UNKNOWN →
  ∃ v' id' new old, update_pitems_loop junk nid total l (empty_pil junk) 0 n id head v = (v', Val id')
    ∧ vec_rd v' ∧ chain v' id' (new ++ dn ++ old) ∧ old.*1 = rest.*1
    ∧ chain_items new ++ chain_items old ≡ₚ l ∧ fresh_records nid v new ∧ Forall padded old
    ∧ (3 * (length new + length rest) < length l + 3)%nat
    ∧ (∀ j, j ∉ new.*1 → j ∉ rest.*1 → vec_get v' j = vec_get v j)
    ∧ vec_capacity v ≤ vec_capacity v' ≤ vec_capacity v + Z.of_nat (length l) * vec_grow.
Proof.
  induction rest as [|[i p] rest IH]; intros l n v id head dn Hrd Hk Hn Hc Hid Hlen Hcap.
  - simpl in Hid. subst id. rewrite app_nil_r in Hc. rewrite update_is_pack.
    destruct (pack_ok _ _ nid total l n v head dn fill_stores Hrd Hk Hn Hc Hcap)
      as (v' & id' & new & E & Hrd' & Hc' & Hperm & Hfr & Hnum & _ & Hframe & Hcap').
    exists v', id', new, []. rewrite !app_nil_r. simpl.
    split_and!; try done; try lia. intros j Hj _. by apply Hframe.
  - destruct Hid as (-> & Hne & Hp & Hrest). simpl in Hlen.
    assert (l ≠ []) as Hl by (intros ->; simpl in Hlen; lia).
    rewrite update_unroll by done. rewrite bool_decide_eq_true_2 by done.
    destruct (write_items_ok v i p (pad (take 3 l)) Hrd Hp) as (v1 & E1 & Hrd1 & Hcap1 & Hget1).
    unfold mbind at 1, M_bind at 1. rewrite E1.
    set (p' := mk_pset (next p) (owner p) (pad (take 3 l))) in *.
    assert (keyed (take 3 l) ∧ keyed (drop 3 l)) as [Hk1 Hk2].
    { rewrite <-(take_drop 3 l) in Hk. by apply Forall_app in Hk. }
    assert (NoDup (dn ++ (i, p) :: rest).*1) as Hnd by by eapply chain_NoDup.
    assert (∀ j q, (j, q) ∈ dn ++ (i, p) :: rest → j ≠ i → vec_get v1 j = Some q) as Hother.
    { intros j q Hin Hji. rewrite Hget1, decide_False by done. by apply (chain_lookup _ _ _ _ _ Hc). }
    rewrite fmap_app in Hnd. apply NoDup_app in Hnd as (_ & Hnd1 & Hnd2). simpl in Hnd2.
    apply NoDup_cons in Hnd2 as [Hnd2 _].
    assert (chain v1 (next p) rest) as Hrest1.
    { eapply chain_frame; [exact Hrest|]. intros j q Hin. apply Hother; [apply elem_of_app; right; by right|].
      intros ->. apply Hnd2. apply list_elem_of_fmap. by exists (i, q). }
    assert (chain v1 head ((dn ++ [(i, p')]) ++ rest)) as Hc1.
    { rewrite <-app_assoc. simpl. assert (∀ j q, (j, q) ∈ dn → vec_get v1 j = Some q) as Hdn.
      { intros j q Hin. apply Hother; [apply elem_of_app; by left|]. intros ->.
        apply (Hnd1 i); [apply list_elem_of_fmap; by exists (i, q)|constructor]. }
      revert Hc Hdn. clear -Hrest1 Hget1 Hne. revert head.
      induction dn as [|[j q] dn IH]; intros head; simpl.
      - intros (-> & _ & _ & _) _. split_and!; [done|done|by rewrite Hget1, decide_True|done].
      - intros (-> & ? & _ & Hc) Hdn. split_and!; [done|done|apply Hdn; constructor|].
        apply IH; [done|]. intros. apply Hdn. by right. }
    destruct (IH (drop 3 l) (n + length (take 3 l))%nat v1 (next p) head (dn ++ [(i, p')]))
      as (v' & id' & new & old & E & Hrd' & Hc' & Hold & Hperm & Hfr & Hpad & Hnum & Hframe & Hcap');
      [done|done| |done|done| | |].
    + rewrite <-Hn, <-Nat.add_assoc, <-length_app, take_drop. done.
    + rewrite length_drop. lia.
    + rewrite length_drop, Hcap1. pose proof vec_grow_pos. nia.
    + exists v', id', new, ((i, p') :: old). split_and!.
      * done.
      * done.
      * by rewrite <-app_assoc in Hc'.
      * by rewrite !fmap_cons, Hold.
      * rewrite chain_items_cons. simpl. rewrite used_items_pad by done.
        rewrite Permutation_app_swap_app, Hperm. by rewrite take_drop.
      * eapply Forall_impl; [exact Hfr|]. intros [j q] (? & ? & Hj). split_and!; [done..|]. simpl in *.
        rewrite Hget1 in Hj. by destruct (decide (j = i)).
      * constructor; [|done]. exists (take 3 l). split_and!; [done| |done]. rewrite length_take. lia.
      * rewrite length_drop in Hnum. simpl. lia.
      * intros j Hj1 Hj2. simpl in Hj2. apply not_elem_of_cons in Hj2 as [Hj2 Hj3].
        rewrite Hframe, Hget1, decide_False by done. done.
      * lia.
      * rewrite length_drop, Hcap1 in Hcap'. pose proof vec_grow_pos. nia.
Qed.

(** *** Removing *)
Lemma remove_loop_ok c : ∀ f v id, vec_rd v → chain v id c → (length c < f)%nat →
  ∃ v', remove_loop f id v = (v', Val tt) ∧ vec_rd v'
    ∧ ∀ j, vec_get v' j = if decide (j ∈ c.*1) then None else vec_get v j.
Proof.
  induction c as [|[i p] c IH]; intros [|f] v id Hrd Hc Hf; simpl in Hf; try lia.
  - simpl in Hc. subst id. cbn [remove_loop]. rewrite bool_decide_eq_true_2 by done. exists v. split_and!; [done..|].
    intros j. rewrite decide_False; [done|apply not_elem_of_nil].
  - pose proof (chain_NoDup _ _ _ Hc) as Hnd. simpl in Hnd. apply NoDup_cons in Hnd as [Hni _].
    destruct Hc as (-> & Hne & Hp & Hc). cbn [remove_loop]. rewrite bool_decide_eq_false_2 by done.
    unfold mbind, M_bind, get_st, lift_res. rewrite (pset_at_get _ _ _ Hrd Hp).
    destruct (vec_erase_ok v i Hrd) as (v1 & E & Hget & Hrd1 & _); [by eexists|]. rewrite E.
    destruct (IH f v1 (next p)) as (v' & -> & Hrd' & Hget'); [done| |lia|].
    + eapply chain_frame; [done|]. intros j q Hin. rewrite Hget, decide_False; [by eapply chain_lookup|].
      intros ->. apply Hni. apply list_elem_of_fmap. by exists (i, q).
    + exists v'. split_and!; [done|done|]. intros j. rewrite Hget', Hget, fmap_cons. cbn [fst].
      destruct (decide (j ∈ c.*1)), (decide (j = i)), (decide (j ∈ i :: c.*1)) as [Hin|Hin];
        rewrite elem_of_cons in Hin; naive_solver.
Qed.
End changes.
