(* ===== verification/PropertyMap.v ===== *)
(** * PropertyMap: properties as maps

    What the operations of [PropertyList] do to the properties of a node or
    relationship, seen as a map from names to values. *)

From Stdlib Require Import Ascii Sorted.
From S2P Require Import Prelude VecSpec DictSpec Literals Property PropertyList.

(** ** The order of names *)
Lemma code_inj a b : code a = code b → a = b.
Proof.
  unfold code. intros H%N2Z.inj. by rewrite <-(ascii_N_embedding a), <-(ascii_N_embedding b), H.
Qed.

Lemma str_lt_irrefl a : str_lt a a = false.
Proof. induction a as [|x a IH]; simpl; [done|]. by rewrite !bool_decide_eq_false_2 by lia. Qed.

Lemma str_lt_trans a b c : str_lt a b = true → str_lt b c = true → str_lt a c = true.
Proof.
  revert b c. induction a as [|x a IH]; intros [|y b] [|z c]; simpl; try done.
  repeat case_bool_decide; try done; try lia. apply IH.
Qed.

Lemma str_lt_total a b : a = b ∨ str_lt a b = true ∨ str_lt b a = true.
Proof.
  revert b. induction a as [|x a IH]; intros [|y b]; simpl; auto.
  repeat case_bool_decide; auto; try lia.
  assert (x = y) as -> by (apply code_inj; lia). destruct (IH b) as [->|?]; auto.
Qed.

(** ** Ordered maps *)
Definition pm_sorted : properties_t → Prop := StronglySorted (λ a b, str_lt a.1 b.1 = true).

Fixpoint pm_lookup (k : str) (m : properties_t) : option any :=
  match m with
  | [] => None
  | (k', v) :: m' => if decide (k = k') then Some v else pm_lookup k m'
  end.


(** Looking up a name smaller than all names of a map. *)
Lemma pm_lookup_below k m : Forall (λ b, str_lt k b.1 = true) m → pm_lookup k m = None.
Proof.
  induction 1 as [|[k' v] m Hk _ IH]; [done|]. simpl in *. rewrite decide_False; [done|].
  intros ->. by rewrite str_lt_irrefl in Hk.
Qed.

Lemma pm_below_trans k k' m :
  str_lt k k' = true → Forall (λ b : str * any, str_lt k' b.1 = true) m → Forall (λ b, str_lt k b.1 = true) m.
Proof. intros Hk Hm. eapply Forall_impl; [exact Hm|]. intros b. by apply str_lt_trans. Qed.

Lemma pm_lookup_insert k v m k' : pm_sorted m →
  pm_lookup k' (pmap_insert k v m) =
    match pm_lookup k' m with Some x => Some x | None => if decide (k' = k) then Some v else None end.
Proof.
  induction 1 as [|[k0 v0] m Hm IH Hk0]; simpl; [done|].
  case_bool_decide as E0.
  - subst k0. simpl. destruct (decide (k' = k)) as [->|]; [done|]. by destruct (pm_lookup k' m).
  - destruct (str_lt k k0) eqn:Elt; simpl.
    + destruct (decide (k' = k)) as [->|]; [|by destruct (decide _), (pm_lookup k' m)].
      rewrite decide_False by done. rewrite pm_lookup_below; [done|]. by eapply pm_below_trans.
    + rewrite IH. by destruct (decide (k' = k0)).
Qed.

Lemma pmap_insert_below k0 k v m :
  str_lt k0 k = true → Forall (λ b, str_lt k0 b.1 = true) m →
  Forall (λ b, str_lt k0 b.1 = true) (pmap_insert k v m).
Proof.
  intros Hk. induction 1 as [|[k1 v1] m Hk1 Hm IH]; simpl; [by repeat constructor|].
  case_bool_decide; [by constructor|]. destruct (str_lt k k1); by repeat constructor.
Qed.

Lemma pmap_insert_sorted k v m : pm_sorted m → pm_sorted (pmap_insert k v m).
Proof.
  induction 1 as [|[k0 v0] m Hm IH Hk0]; simpl; [by repeat constructor|].
  case_bool_decide as E0; [by constructor|]. destruct (str_lt k k0) eqn:Elt.
  - constructor; [by constructor|]. constructor; [done|]. by eapply pm_below_trans.
  - constructor; [done|]. apply pmap_insert_below; [|done]. simpl.
    destruct (str_lt_total k k0) as [?|[?|?]]; congruence.
Qed.

(** Ordered maps with the same entries are equal. *)
Lemma pm_ext m1 m2 :
  pm_sorted m1 → pm_sorted m2 → (∀ k, pm_lookup k m1 = pm_lookup k m2) → m1 = m2.
Proof.
  intros H1. revert m2. induction H1 as [|[k1 v1] m1 Hm1 IH Hk1]; intros m2 H2 Heq.
  - destruct m2 as [|[k v] m2]; [done|]. specialize (Heq k). simpl in Heq. by rewrite decide_True in Heq.
  - inversion H2 as [|[k2 v2] m2' Hm2 Hk2]; subst.
    { specialize (Heq k1). simpl in Heq. by rewrite decide_True in Heq. }
    assert (k1 = k2) as ->.
    { destruct (str_lt_total k1 k2) as [?|[Hlt|Hlt]]; [done|..].
      - specialize (Heq k1). simpl in Heq. rewrite decide_True in Heq by done.
        rewrite decide_False in Heq by (intros ->; by rewrite str_lt_irrefl in Hlt).
        rewrite pm_lookup_below in Heq; [done|]. by eapply pm_below_trans.
      - specialize (Heq k2). simpl in Heq. rewrite (decide_True (P := k2 = k2)) in Heq by done.
        rewrite decide_False in Heq by (intros ->; by rewrite str_lt_irrefl in Hlt).
        rewrite pm_lookup_below in Heq; [done|]. by eapply pm_below_trans. }
    pose proof (Heq k2) as Hv. simpl in Hv. rewrite !decide_True in Hv by done. injection Hv as ->.
    f_equal. apply IH; [done|]. intros k. specialize (Heq k). simpl in Heq.
    destruct (decide (k = k2)) as [->|]; [|done]. by rewrite !pm_lookup_below.
Qed.

Lemma pm_lookup_elem k v m : NoDup m.*1 → pm_lookup k m = Some v ↔ (k, v) ∈ m.
Proof.
  induction m as [|[k0 v0] m IH]; intros Hnd; [split; [done|by intros ?%elem_of_nil]|].
  rewrite fmap_cons in Hnd. apply NoDup_cons in Hnd as [Hn Hnd]. cbn in Hn. simpl. rewrite elem_of_cons.
  destruct (decide (k = k0)) as [->|].
  - split; [intros [= ->]; by left|]. intros [[= ->]|Hin]; [done|]. destruct Hn.
    apply list_elem_of_fmap. by exists (k0, v).
  - rewrite IH by done. naive_solver.
Qed.

Lemma pm_sorted_NoDup m : pm_sorted m → NoDup m.*1.
Proof.
  induction 1 as [|[k v] m Hm IH Hk]; [constructor|]. rewrite fmap_cons. constructor; [|done].
  intros ([k' v'] & Heq & Hin)%list_elem_of_fmap. cbn in Heq. subst k'.
  rewrite Forall_forall in Hk. specialize (Hk _ Hin). simpl in Hk. by rewrite str_lt_irrefl in Hk.
Qed.

(** Inserting a list of entries one after the other. *)
Definition pm_of (es : list (str * any)) : properties_t → properties_t :=
  λ m, foldl (λ m kv, pmap_insert kv.1 kv.2 m) m es.

Lemma pm_of_sorted es m : pm_sorted m → pm_sorted (pm_of es m).
Proof. revert m. induction es as [|[k v] es IH]; intros m Hm; [done|]. by apply IH, pmap_insert_sorted. Qed.

Lemma pm_of_lookup es m k : pm_sorted m →
  pm_lookup k (pm_of es m) = match pm_lookup k m with Some x => Some x | None => pm_lookup k es end.
Proof.
  revert m. induction es as [|[k0 v0] es IH]; intros m Hm.
  - simpl. by destruct (pm_lookup k m).
  - change (pm_of ((k0, v0) :: es) m) with (pm_of es (pmap_insert k0 v0 m)). simpl. rewrite IH by by apply pmap_insert_sorted. rewrite pm_lookup_insert by done.
    destruct (pm_lookup k m); [done|]. by destruct (decide (k = k0)).
Qed.

(** ** Items as entries *)
Section entries.
Context {V : Type → Type} `{!Vec V} {D : Type} `{!Dictionary D}.
Variables (ptime_of_date time_from_string : str → res Z) (junk : Z).
Notation canon := (canon ptime_of_date time_from_string).
Notation named_item := (named_item ptime_of_date time_from_string junk).
Notation build_dirty_from_props := (build_dirty_from_props ptime_of_date time_from_string junk).
Notation apply_updates_loop := (apply_updates_loop ptime_of_date time_from_string junk).
Notation apply_updates := (apply_updates ptime_of_date time_from_string junk).

(** The item stands for a property with the name [s]; [None] is a value that
    items cannot hold. *)
Record item_entry (m : gmap Z str) (it : p_item) (s : str) (o : option any) : Prop := {
  ie_key : 0 < key_ it < UNKNOWN_CODE;
  ie_name : m !! key_ it = Some s;
  ie_value : item_means m it o
}.
Definition entries (m : gmap Z str) : list p_item → list (str * option any) → Prop :=
  Forall2 (λ it e, item_entry m it e.1 e.2).

(** The entries that have a value. *)
Definition valued (es : list (str * option any)) : list (str * any) :=
  omap (λ e, pair e.1 <$> e.2) es.

Lemma item_entry_mono m m' it s o : m ⊆ m' → item_entry m it s o → item_entry m' it s o.
Proof.
  intros Hm [Hk Hn Hv]. split; [done|by eapply lookup_weaken|by eapply item_means_mono].
Qed.

Lemma entries_mono m m' l es : m ⊆ m' → entries m l es → entries m' l es.
Proof. intros Hm H. eapply Forall2_impl; [exact H|]. intros. by eapply item_entry_mono. Qed.

Lemma entries_keyed m l es : entries m l es → keyed l.
Proof. induction 1 as [|it e l es [Hk _ _] _ IH]; constructor; [lia|done]. Qed.

Lemma codes_injective d m c c' s : d_has d m → m !! c = Some s → m !! c' = Some s → c = c'.
Proof.
  intros Hd Hc Hc'. destruct (d_code_ok _ _ _ _ Hd Hc) as (_ & <- & _).
  by destruct (d_code_ok _ _ _ _ Hd Hc') as (_ & <- & _).
Qed.

(** Different names have different keys and the other way round. *)
Lemma entries_names d m l es : d_has d m → entries m l es → NoDup (key_ <$> l) ↔ NoDup es.*1.
Proof.
  intros Hd. induction 1 as [|it [s o] l es [Hk Hn Hv] He IH]; [split; intros; constructor|].
  rewrite !fmap_cons, !NoDup_cons, IH. cbn. simpl in Hn.
  assert (key_ it ∈ key_ <$> l ↔ s ∈ es.*1) as ->; [|done].
  clear IH Hk Hv. induction He as [|it' [s' o'] l es [Hk' Hn' _] He IH]; [split; by intros ?%elem_of_nil|].
  rewrite !fmap_cons, !elem_of_cons, IH. cbn. simpl in Hn'.
  assert (key_ it = key_ it' ↔ s = s') as ->; [|done]. split; intros E.
  - rewrite E in Hn. congruence.
  - subst s'. by eapply codes_injective.
Qed.

(** *** Building the map *)
Lemma add_to_map_entry d m it s o pm : d_has d m → item_entry m it s o →
  add_to_map d pm it = Val (match o with Some x => pmap_insert s x pm | None => pm end).
Proof.
  intros Hd [Hk Hn Hv]. unfold add_to_map. rewrite (item_means_value _ _ _ _ Hd Hv). simpl.
  destruct o as [x|]; [|done]. by destruct (d_code_ok _ _ _ _ Hd Hn) as [-> _].
Qed.

Lemma add_all_to_map_entries d m l es pm : d_has d m → entries m l es →
  add_all_to_map d pm l = Val (pm_of (valued es) pm).
Proof.
  intros Hd He. revert pm. induction He as [|it [s o] l es Hi He IH]; intros pm; [done|]. simpl.
  rewrite (add_to_map_entry _ _ _ _ _ _ Hd Hi). simpl. rewrite IH. by destruct o.
Qed.

Lemma add_all_to_map_app d pm l1 l2 :
  add_all_to_map d pm (l1 ++ l2) = pm' ← add_all_to_map d pm l1; add_all_to_map d pm' l2.
Proof.
  revert pm. induction l1 as [|it l1 IH]; intros pm; [done|]. simpl.
  destruct (add_to_map d pm it); simpl; [apply IH|done].
Qed.

Lemma add_all_to_map_pad d pm l : add_all_to_map d pm (pad junk l) = add_all_to_map d pm l.
Proof.
  unfold pad. rewrite add_all_to_map_app. destruct (add_all_to_map d pm l) as [pm'|]; [|done]. simpl.
  induction (3 - length l)%nat as [|n IH]; [done|]. simpl. by rewrite IH.
Qed.

Lemma add_all_to_map_chain d pm c :
  Forall (padded junk) c → add_all_to_map d pm (all_items c) = add_all_to_map d pm (chain_items c).
Proof.
  intros Hc. revert pm. induction Hc as [|[i p] c (g & Hg & _ & Hp) Hc IH]; intros pm; [done|].
  rewrite chain_items_cons. change (all_items ((i, p) :: c)) with (items p ++ all_items c).
  simpl in Hp. rewrite Hp, used_items_pad, !add_all_to_map_app, add_all_to_map_pad by done.
  by destruct (add_all_to_map d pm g); simpl.
Qed.

(** [all_properties] on a chain *)
Lemma all_properties_loop_chain v d c : vec_rd v → ∀ f id pm, chain v id c → (length c < f)%nat →
  all_properties_loop f v d id pm = add_all_to_map d pm (all_items c).
Proof.
  intros Hrd. induction c as [|[i p] c IH]; intros [|f] id pm Hc Hf; simpl in Hf; try lia; cbn [all_properties_loop].
  - simpl in Hc. subst id. by rewrite bool_decide_eq_true_2.
  - destruct Hc as (-> & Hne & Hp & Hc). rewrite bool_decide_eq_false_2 by done.
    rewrite (pset_at_get _ _ _ Hrd Hp). change (all_items ((i, p) :: c)) with (items p ++ all_items c).
    rewrite add_all_to_map_app. simpl. destruct (add_all_to_map d pm (items p)); simpl; [|done].
    apply IH; [done|lia].
Qed.

Lemma all_properties_chain v d id c : vec_rd v → chain v id c → Forall (padded junk) c →
  all_properties v d id = build_properties_from_pitems d (chain_items c).
Proof.
  intros Hrd Hc Hp. unfold all_properties, build_properties_from_pitems.
  rewrite <-add_all_to_map_chain by done. case_bool_decide as E.
  - destruct c as [|[i p] c]; [done|]. destruct Hc as (-> & _ & Hi & _).
    pose proof (vec_get_bounds _ _ _ Hrd Hi). lia.
  - by rewrite (all_properties_loop_chain v d c) by (done || by eapply chain_length).
Qed.

(** The order of items does not matter when their names differ. *)
Lemma valued_fst es k : k ∈ (valued es).*1 → k ∈ es.*1.
Proof.
  intros ([k' x] & -> & ([s o] & Hin & Hx)%list_elem_of_omap)%list_elem_of_fmap.
  apply list_elem_of_fmap. exists (s, o). simpl in *. destruct o; simplify_eq/=. done.
Qed.

Lemma valued_NoDup es : NoDup es.*1 → NoDup (valued es).*1.
Proof.
  induction es as [|[s o] es IH]; [done|]. rewrite fmap_cons. intros [Hs Hn]%NoDup_cons. simpl.
  destruct o as [x|]; simpl; [|by apply IH]. constructor; [|by apply IH].
  intros Hin. by apply Hs, valued_fst.
Qed.

Lemma pm_of_perm es1 es2 : NoDup es1.*1 → es1 ≡ₚ es2 → pm_of es1 [] = pm_of es2 [].
Proof.
  intros Hn Hp. assert (NoDup es2.*1) by by rewrite <-Hp.
  apply pm_ext; try apply pm_of_sorted; try constructor. intros k.
  rewrite !pm_of_lookup by constructor. simpl. apply option_eq. intros x.
  by rewrite !pm_lookup_elem, Hp.
Qed.

Lemma build_properties_entries d m l es :
  d_has d m → entries m l es → build_properties_from_pitems d l = Val (pm_of (valued es) []).
Proof. intros. by eapply add_all_to_map_entries. Qed.

Lemma build_properties_perm d m l1 l2 es :
  d_has d m → entries m l1 es → NoDup es.*1 → l1 ≡ₚ l2 →
  build_properties_from_pitems d l2 = build_properties_from_pitems d l1.
Proof.
  intros Hd He Hn Hp.
  destruct (Permutation_Forall2 Hp He) as (es2 & Hp2 & He2).
  rewrite (build_properties_entries _ _ _ _ Hd He), (build_properties_entries _ _ _ _ Hd He2).
  f_equal. symmetry. apply pm_of_perm; [by apply valued_NoDup|]. unfold valued. by rewrite Hp2.
Qed.

(** *** Values by name *)
Fixpoint en_lookup (k : str) (es : list (str * option any)) : option (option any) :=
  match es with
  | [] => None
  | (s, o) :: es' => if decide (k = s) then Some o else en_lookup k es'
  end.

Lemma en_lookup_app k es1 es2 :
  en_lookup k (es1 ++ es2) = match en_lookup k es1 with Some o => Some o | None => en_lookup k es2 end.
Proof. induction es1 as [|[s o] es1 IH]; [done|]. simpl. by destruct (decide _). Qed.

Lemma en_lookup_None k es : en_lookup k es = None ↔ k ∉ es.*1.
Proof.
  induction es as [|[s o] es IH]; [split; [intros _; apply not_elem_of_nil|done]|].
  rewrite fmap_cons, not_elem_of_cons, <-IH. simpl. destruct (decide (k = s)); naive_solver.
Qed.

Lemma pm_lookup_valued k es : NoDup es.*1 → pm_lookup k (valued es) = mjoin (en_lookup k es).
Proof.
  induction es as [|[s o] es IH]; [done|]. rewrite fmap_cons. intros [Hs Hn]%NoDup_cons. cbn in Hs. simpl.
  destruct (decide (k = s)) as [->|Hne].
  - destruct o as [x|]; simpl; [by rewrite decide_True|]. rewrite IH by done.
    by rewrite (proj2 (en_lookup_None s es)).
  - destruct o as [x|]; simpl; [rewrite decide_False by done|]; by apply IH.
Qed.

(** What [build_properties_from_pitems] finds under a name. *)
Lemma build_properties_lookup d m l es :
  d_has d m → entries m l es → NoDup es.*1 →
  ∃ pm, build_properties_from_pitems d l = Val pm ∧ pm_sorted pm
    ∧ ∀ k, pm_lookup k pm = mjoin (en_lookup k es).
Proof.
  intros Hd He Hn. eexists. split; [by eapply build_properties_entries|].
  split; [apply pm_of_sorted; constructor|]. intros k.
  rewrite pm_of_lookup by constructor. by apply pm_lookup_valued.
Qed.

(** ** From maps to items *)

(** The values of a map as items keep them. *)
Definition canonical (props : properties_t) : list (str * option any) → Prop :=
  Forall2 (λ kv e, kv.1 = e.1 ∧ any_wf kv.2 ∧ canon kv.2 = Val e.2) props.
Definition props_strings (props : properties_t) : list str :=
  concat ((λ kv, item_strings kv.1 kv.2) <$> props).

Lemma canonical_fst props ces : canonical props ces → props.*1 = ces.*1.
Proof. induction 1 as [|[k v] [s o] props ces (E & _) _ IH]; [done|]. rewrite !fmap_cons, IH. by f_equal. Qed.

Lemma dict_takes_app (d : D) l1 l2 :
  dict_takes d (l1 ++ l2) ↔ dict_takes d l1 ∧ dict_takes (foldl (λ d s, (d_insert s d).1) d l1) l2.
Proof. revert d. induction l1 as [|s l1 IH]; intros d; simpl; [tauto|]. rewrite IH. tauto. Qed.

Lemma named_item_entry d m k v o rest :
  d_has d m → any_wf v → dict_takes d (item_strings k v ++ rest) → canon v = Val o →
  ∃ d' m' it, named_item k v d = (d', Val it) ∧ d_has d' m' ∧ m ⊆ m' ∧ item_entry m' it k o
    ∧ dict_takes d' rest.
Proof.
  intros Hd Hw [Ht1 Ht2]%dict_takes_app Hc.
  destruct (named_item_ok ptime_of_date time_from_string junk d m k v o Hd Hw Ht1 Hc)
    as (d' & m' & it & E & Hd' & Hm & Hk & Hn & Hv & Hd'').
  exists d', m', it. split_and!; try done. by rewrite Hd''.
Qed.

Lemma build_dirty_from_props_ok d m props ces :
  d_has d m → canonical props ces → dict_takes d (props_strings props) →
  ∃ d' m' l, build_dirty_from_props props d = (d', Val l) ∧ d_has d' m' ∧ m ⊆ m' ∧ entries m' l ces.
Proof.
  intros Hd Hc. revert d m Hd.
  induction Hc as [|[k v] [s o] props ces (E & Hw & Hv) Hc IH]; intros d m Hd Ht.
  { exists d, m, []. split_and!; [done..|constructor]. }
  simpl in E, Hw, Hv. subst s. change (props_strings ((k, v) :: props)) with (item_strings k v ++ props_strings props) in Ht.
  destruct (named_item_entry d m k v o (props_strings props) Hd Hw Ht Hv) as (d1 & m1 & it & E1 & Hd1 & Hm1 & Hit & Ht1).
  destruct (IH d1 m1 Hd1 Ht1) as (d2 & m2 & l & E2 & Hd2 & Hm2 & Hl).
  exists d2, m2, (it :: l). cbn [PropertyList.build_dirty_from_props]. unfold mbind, M_bind. rewrite E1, E2.
  split_and!; [done|done|by transitivity m1|]. constructor; [by eapply item_entry_mono|done].
Qed.

(** *** Updating items *)
Definition update_entry (s : str) (o : option any) (es : list (str * option any)) : list (str * option any) :=
  (λ e, if decide (e.1 = s) then (s, o) else e) <$> es.

Lemma update_entry_fst s o es : (update_entry s o es).*1 = es.*1.
Proof. unfold update_entry. induction es as [|[s' o'] es IH]; [done|]. rewrite !fmap_cons, IH. cbn.
  by destruct (decide (s' = s)) as [->|]. Qed.

Lemma en_lookup_update k s o es :
  en_lookup k (update_entry s o es) = if decide (k = s ∧ s ∈ es.*1) then Some o else en_lookup k es.
Proof.
  induction es as [|[s' o'] es IH].
  { simpl. rewrite decide_False; [done|]. by intros [_ ?%elem_of_nil]. }
  change (update_entry s o ((s', o') :: es)) with ((if decide (s' = s) then (s, o) else (s', o')) :: update_entry s o es).
  rewrite fmap_cons. destruct (decide (s' = s)) as [->|Hne]; cbn [en_lookup fst].
  - destruct (decide (k = s)) as [->|Hk].
    + rewrite decide_True; [done|]. split; [done|constructor].
    + rewrite IH, !decide_False by naive_solver. done.
  - rewrite IH. destruct (decide (k = s')) as [->|Hk]; [rewrite decide_False by naive_solver; done|].
    apply decide_ext. rewrite elem_of_cons. naive_solver.
Qed.

(** [replace_item] when the keys are different. *)
Lemma replace_item_entries d m l es it s o :
  d_has d m → entries m l es → NoDup es.*1 → item_entry m it s o →
  ∃ l', replace_item it l = (l', bool_decide (s ∈ es.*1)) ∧ entries m l' (update_entry s o es).
Proof.
  intros Hd He. induction He as [|it' [s' o'] l es Hi' He IH]; intros Hn Hi.
  { exists []. split; [done|constructor]. }
  rewrite fmap_cons in Hn |- *. apply NoDup_cons in Hn as [Hs' Hn]. cbn in Hs'. simpl.
  assert (key_ it' = key_ it ↔ s' = s) as Hks.
  { destruct Hi as [_ Hi _], Hi' as [_ Hi' _]. simpl in *. split; intros E; [rewrite E in Hi'; congruence|].
    subst s'. by eapply codes_injective. }
  change (update_entry s o ((s', o') :: es)) with ((if decide (s' = s) then (s, o) else (s', o')) :: update_entry s o es).
  destruct (decide (key_ it' = key_ it)) as [Ek|Ek];
    [rewrite (bool_decide_eq_true_2 (key_ it' = key_ it)) by done
    |rewrite (bool_decide_eq_false_2 (key_ it' = key_ it)) by done].
  - apply Hks in Ek as ->. rewrite decide_True by done. exists (it :: l). split.
    + f_equal. symmetry. apply bool_decide_eq_true_2. constructor.
    + constructor; [done|]. assert (update_entry s o es = es) as ->; [|done].
      unfold update_entry. rewrite <-(list_fmap_id es) at 2. apply list_fmap_ext. intros i [s'' o''] Hi''.
      simpl. rewrite decide_False; [done|]. intros ->. apply Hs'. apply list_elem_of_fmap.
      exists (s, o''). split; [done|]. by eapply list_elem_of_lookup_2.
  - assert (s' ≠ s) by (intros E; by apply Ek, Hks). rewrite decide_False by done.
    destruct (IH Hn Hi) as (l' & -> & Hl'). exists (it' :: l'). split; [|by constructor].
    f_equal. apply bool_decide_ext. rewrite elem_of_cons. naive_solver.
Qed.

(** The entries after [apply_updates]. *)
Fixpoint updated_entries (es ts ces : list (str * option any)) : list (str * option any) :=
  match ces with
  | [] => es ++ ts
  | (s, o) :: ces' =>
    if decide (s ∈ es.*1) then updated_entries (update_entry s o es) ts ces'
    else updated_entries es (ts ++ [(s, o)]) ces'
  end.

Lemma updated_entries_NoDup es ts ces :
  NoDup (es.*1 ++ ts.*1) → NoDup ces.*1 → (∀ s, s ∈ ces.*1 → s ∉ ts.*1) →
  NoDup (updated_entries es ts ces).*1.
Proof.
  revert es ts. induction ces as [|[s o] ces IH]; intros es ts Hn Hc Hd; simpl; [by rewrite fmap_app|].
  rewrite fmap_cons in Hc, Hd. apply NoDup_cons in Hc as [Hs Hc]. cbn in Hs.
  destruct (decide (s ∈ es.*1)) as [Hin|Hin].
  - apply IH; [by rewrite update_entry_fst|done|]. intros s' Hs'. apply Hd. by right.
  - apply IH; [|done|].
    + rewrite fmap_app, app_assoc. apply NoDup_app. split_and!; [done| |apply NoDup_singleton].
      intros s' Hs' ->%list_elem_of_singleton. cbn in *. apply elem_of_app in Hs' as [?|Hs']; [done|].
      by apply (Hd s); [left|].
    + intros s' Hs'. rewrite fmap_app, elem_of_app. intros [?| ->%list_elem_of_singleton]; [|done].
      apply (Hd s'); [by right|done].
Qed.

Lemma updated_entries_lookup k es ts ces :
  NoDup ces.*1 → (∀ s, s ∈ ces.*1 → s ∉ ts.*1) →
  en_lookup k (updated_entries es ts ces) =
    match en_lookup k ces with Some o => Some o | None => en_lookup k (es ++ ts) end.
Proof.
  revert es ts. induction ces as [|[s o] ces IH]; intros es ts Hc Hd; [done|].
  rewrite fmap_cons in Hc, Hd. apply NoDup_cons in Hc as [Hs Hc]. cbn in Hs. simpl.
  assert (∀ s', s' ∈ ces.*1 → s' ∉ ts.*1) as Hd' by (intros s' Hs'; apply Hd; by right).
  destruct (decide (s ∈ es.*1)) as [Hin|Hin].
  - rewrite IH, !en_lookup_app, en_lookup_update by done. destruct (decide (k = s)) as [->|Hk].
    + rewrite (proj2 (en_lookup_None s ces)), decide_True by done. done.
    + rewrite decide_False by tauto. done.
  - assert (s ∉ ts.*1) as Hts by (apply Hd; left).
    rewrite IH; [|done|].
    + rewrite !en_lookup_app. simpl. destruct (decide (k = s)) as [->|Hk].
      * rewrite (proj2 (en_lookup_None s ces)), (proj2 (en_lookup_None s es)),
          (proj2 (en_lookup_None s ts)) by done. done.
      * destruct (en_lookup k ces); [done|]. destruct (en_lookup k es); [done|]. by destruct (en_lookup k ts).
    + intros s' Hs'. rewrite fmap_app, elem_of_app. intros [?| ->%list_elem_of_singleton]; [by eapply Hd'|done].
Qed.

Lemma apply_updates_loop_ok d m l es todo ts props ces :
  d_has d m → entries m l es → entries m todo ts → NoDup es.*1 → canonical props ces →
  dict_takes d (props_strings props) →
  ∃ d' m' l', apply_updates_loop todo props (l, d) = ((l', d'), Val tt) ∧ d_has d' m' ∧ m ⊆ m'
    ∧ entries m' l' (updated_entries es ts ces).
Proof.
  intros Hd He Ht Hn Hc. revert d m l es todo ts Hd He Ht Hn.
  induction Hc as [|[k v] [s o] props ces (E & Hw & Hv) Hc IH]; intros d m l es todo ts Hd He Ht Hn Hdt.
  { exists d, m, (l ++ todo). split_and!; [done..|]. by apply Forall2_app. }
  simpl in E, Hw, Hv. subst s.
  change (props_strings ((k, v) :: props)) with (item_strings k v ++ props_strings props) in Hdt.
  destruct (named_item_entry d m k v o _ Hd Hw Hdt Hv) as (d1 & m1 & it & E1 & Hd1 & Hm1 & Hit & Hdt1).
  destruct (replace_item_entries d1 m1 l es it k o Hd1) as (l1 & E2 & He1);
    [by eapply entries_mono|done|done|].
  cbn [PropertyList.apply_updates_loop]. unfold mbind, M_bind, on_snd, get_st, modify.
  cbn [fst snd]. rewrite E1. cbn [fst snd]. rewrite E2. simpl updated_entries.
  destruct (decide (k ∈ es.*1)) as [Hin|Hin].
  - rewrite bool_decide_eq_true_2 by done.
    destruct (IH d1 m1 l1 (update_entry k o es) todo ts) as (d' & m' & l' & E' & Hd' & Hm' & He'); try done.
    + by eapply entries_mono.
    + by rewrite update_entry_fst.
    + exists d', m', l'. split_and!; [done|done|by transitivity m1|done].
  - rewrite bool_decide_eq_false_2 by done.
    destruct (IH d1 m1 l1 es (todo ++ [it]) (ts ++ [(k, o)])) as (d' & m' & l' & E' & Hd' & Hm' & He'); try done.
    + assert (update_entry k o es = es) as Hu; [|by rewrite Hu in He1].
      unfold update_entry. rewrite <-(list_fmap_id es) at 2. apply list_fmap_ext. intros i [s' o'] Hi.
      simpl. rewrite decide_False; [done|]. intros ->. apply Hin. apply list_elem_of_fmap.
      exists (k, o'). split; [done|]. by eapply list_elem_of_lookup_2.
    + apply Forall2_app; [by eapply entries_mono|]. by constructor.
    + exists d', m', l'. split_and!; [done|done|by transitivity m1|done].
Qed.

(** ** Properties *)

Lemma pm_of_valued props ces :
  pm_sorted props → canonical props ces → pm_of (valued ces) [] = valued ces.
Proof.
  intros Hs Hc. apply pm_ext.
  - apply pm_of_sorted. constructor.
  - induction Hc as [|[k v] [s o] props ces (E & _) Hc IH]; [constructor|].
    inversion_clear Hs as [|? ? Hs' Hk]. simpl in E. subst s. specialize (IH Hs').
    destruct o as [x|]; simpl; [|done]. constructor; [done|]. apply Forall_forall. intros [k' x'] Hin. simpl.
    assert (k' ∈ props.*1) as ([k1 v1] & -> & Hin')%list_elem_of_fmap.
    { rewrite (canonical_fst _ _ Hc). apply valued_fst. apply list_elem_of_fmap. by exists (k', x'). }
    rewrite Forall_forall in Hk. apply (Hk _ Hin').
  - intros k. rewrite pm_of_lookup by constructor. done.
Qed.

(** C40: properties survive the way through items: the items built for a map of
    new properties give back the same map, every value in the form items keep
    (numbers and dates given as strings come back typed). *)
Theorem dirty_list_roundtrip d m props ces :
  d_has d m → pm_sorted props → canonical props ces → dict_takes d (props_strings props) →
  ∃ d' l, build_dirty_from_props props d = (d', Val l)
    ∧ build_properties_from_pitems d' l = Val (valued ces).
Proof.
  intros Hd Hs Hc Ht. destruct (build_dirty_from_props_ok d m props ces Hd Hc Ht) as (d' & m' & l & E & Hd' & _ & He).
  exists d', l. split; [done|]. rewrite (build_properties_entries _ _ _ _ Hd' He).
  by rewrite (pm_of_valued _ _ Hs Hc).
Qed.

(** An update of properties overrides: afterwards every updated name has its
    new value (none when items cannot hold it) and every other name what it had
    before. *)
Theorem apply_updates_overrides d m l es props ces :
  d_has d m → entries m l es → NoDup es.*1 →
  pm_sorted props → canonical props ces → dict_takes d (props_strings props) →
  ∃ d' l' pm pm', apply_updates props (l, d) = ((l', d'), Val tt)
    ∧ build_properties_from_pitems d l = Val pm ∧ build_properties_from_pitems d' l' = Val pm'
    ∧ ∀ k, pm_lookup k pm' = match en_lookup k ces with Some o => o | None => pm_lookup k pm end.
Proof.
  intros Hd He Hn Hs Hc Ht.
  destruct (apply_updates_loop_ok d m l es [] [] props ces Hd He) as (d' & m' & l' & E & Hd' & _ & He');
    [constructor|done|done|done|].
  assert (NoDup ces.*1) as Hnc by (rewrite <-(canonical_fst _ _ Hc); by apply pm_sorted_NoDup).
  assert (∀ s : str, s ∈ ces.*1 → s ∉ ([] : list (str * option any)).*1) as Hdis by (intros; apply not_elem_of_nil).
  destruct (build_properties_lookup d m l es Hd He Hn) as (pm & Epm & _ & Hpm).
  destruct (build_properties_lookup d' m' l' _ Hd' He') as (pm' & Epm' & _ & Hpm').
  { apply updated_entries_NoDup; [by rewrite app_nil_r|done|done]. }
  exists d', l', pm, pm'. split_and!; [done..|]. intros k. rewrite Hpm', Hpm, updated_entries_lookup by done.
  rewrite app_nil_r. by destruct (en_lookup k ces).
Qed.
End entries.
