(* ===== verification/PropertyTable.v ===== *)
(** * PropertyTable: the properties of the table of properties

    What readers see after the properties of a node or relationship are added,
    updated and removed, and where the loops of the import lose some. *)

From Stdlib Require Import Ascii.
From S2P Require Import Prelude VecSpec DictSpec Literals Property PropertyList PropertyMap.

Section table.
Context {V : Type → Type} `{!Vec V} {D : Type} `{!Dictionary D}.
Variable junk : Z.
Notation pvec := (V property_set).
Implicit Types (v : pvec) (c : list (Z * property_set)).

(** Two chains have different records. *)
Definition apart c1 c2 : Prop := ∀ i, i ∈ c1.*1 → i ∉ c2.*1.

Lemma chain_ext v v' id c :
  chain v id c → (∀ j x, vec_get v j = Some x → vec_get v' j = Some x) → chain v' id c.
Proof. intros Hc Hext. eapply chain_frame; [done|]. intros i p Hin. apply Hext. by eapply chain_lookup. Qed.

(** The records a loop has packed, for either way to store them. *)
Lemma pack_items_spec store v d m l es nid :
  stores vec_ok store →
  vec_ok v → vec_capacity v + Z.of_nat (length l) * vec_grow ≤ UNKNOWN →
  d_has d m → entries m l es → NoDup es.*1 →
  ∃ v' id c, pack junk mret store nid (length l) l (empty_pil junk) 0 0 UNKNOWN v = (v', Val id) ∧ vec_ok v' ∧ chain v' id c
    ∧ Forall (λ ip, owner ip.2 = nid ∧ vec_get v ip.1 = None) c
    ∧ all_properties v' d id = build_properties_from_pitems d l
    ∧ (∃ l', build_dirty_property_list v' id = Val l' ∧ l' ≡ₚ l)
    ∧ (3 * length c < length l + 3)%nat
    ∧ ∀ id2 c2, chain v id2 c2 → chain v' id2 c2 ∧ apart c c2.
Proof.
  intros Hst Hok Hcap Hd He Hn.
  destruct (pack_ok junk _ _ nid (length l) l 0 v UNKNOWN [] Hst Hok) as
    (v' & id & c & E & Hok' & Hc & Hperm & Hfr & Hnum & Hext & _ & _);
    [by eapply entries_keyed|done|done|done|].
  rewrite app_nil_r in Hc. pose proof (vec_ok_rd _ Hok') as Hrd'.
  assert (Forall (padded junk) c) as Hpad by (eapply Forall_impl; [exact Hfr|]; naive_solver).
  exists v', id, c. split_and!; try done.
  - eapply Forall_impl; [exact Hfr|]. naive_solver.
  - rewrite (all_properties_chain junk v' d id c Hrd' Hc Hpad). by eapply build_properties_perm.
  - exists (chain_items c). split; [by apply build_dirty_chain|done].
  - intros id2 c2 Hc2. split; [by eapply chain_ext|].
    intros i ([j p] & -> & Hin)%list_elem_of_fmap ([j' q] & Hj & Hin2)%list_elem_of_fmap. simpl in Hj. subst j'.
    unfold fresh_records in Hfr. rewrite Forall_forall in Hfr. destruct (Hfr _ Hin) as (_ & _ & Hnone).
    pose proof (chain_lookup _ _ _ _ _ Hc2 Hin2). simpl in Hnone. congruence.
Qed.

Lemma add_pitems_spec v d m l es nid :
  vec_ok v → vec_capacity v + Z.of_nat (length l) * vec_grow ≤ UNKNOWN →
  d_has d m → entries m l es → NoDup es.*1 →
  ∃ v' id c, add_pitems junk nid l v = (v', Val id) ∧ vec_ok v' ∧ chain v' id c
    ∧ Forall (λ ip, owner ip.2 = nid ∧ vec_get v ip.1 = None) c
    ∧ all_properties v' d id = build_properties_from_pitems d l
    ∧ (∃ l', build_dirty_property_list v' id = Val l' ∧ l' ≡ₚ l)
    ∧ (3 * length c < length l + 3)%nat
    ∧ ∀ id2 c2, chain v id2 c2 → chain v' id2 c2 ∧ apart c c2.
Proof. apply pack_items_spec, store_stores. Qed.

(** Adding properties to a node or relationship stores them in a chain of
    records of its own: reading the chain gives the added properties, all other
    chains stay as they are, and no slot in use is touched. *)
Theorem add_pitems_stores v d m l es nid :
  vec_ok v → vec_capacity v + Z.of_nat (length l) * vec_grow ≤ UNKNOWN →
  d_has d m → entries m l es → NoDup es.*1 →
  ∃ v' id c, add_pitems junk nid l v = (v', Val id) ∧ vec_ok v' ∧ chain v' id c
    ∧ Forall (λ ip, owner ip.2 = nid ∧ vec_get v ip.1 = None) c
    ∧ all_properties v' d id = build_properties_from_pitems d l
    ∧ (∃ l', build_dirty_property_list v' id = Val l' ∧ l' ≡ₚ l)
    ∧ (3 * length c < length l + 3)%nat
    ∧ ∀ id2 c2, chain v id2 c2 → chain v' id2 c2 ∧ apart c c2.
Proof. apply add_pitems_spec. Qed.

(** An update writes the new properties over the records of the old ones and
    adds records for those that do not fit: afterwards the node or relationship
    has exactly the new properties, and every chain apart from its own is
    unchanged. *)
Theorem update_pitems_replaces v d m id c l es nid :
  vec_rd v → chain v id c → (3 * length c < length l + 3)%nat →
  vec_capacity v + Z.of_nat (length l) * vec_grow ≤ UNKNOWN →
  d_has d m → entries m l es → NoDup es.*1 →
  ∃ v' id' c', update_pitems junk nid id l v = (v', Val id') ∧ vec_rd v' ∧ chain v' id' c'
    ∧ all_properties v' d id' = build_properties_from_pitems d l
    ∧ (∃ l', build_dirty_property_list v' id' = Val l' ∧ l' ≡ₚ l)
    ∧ (3 * length c' < length l + 3)%nat
    ∧ ∀ id2 c2, chain v id2 c2 → apart c c2 → chain v' id2 c2 ∧ apart c' c2.
Proof.
  intros Hrd Hc Hnum Hcap Hd He Hn.
  destruct (update_loop_ok junk nid (length l) c l 0 v id id []) as
    (v' & id' & new & old & E & Hrd' & Hc' & Hold & Hperm & Hfr & Hpad & Hnum' & Hframe & _);
    [done|by eapply entries_keyed|done|done|done|done|done|].
  simpl in Hc'. assert (Forall (padded junk) (new ++ old)) as Hpad'.
  { apply Forall_app. split; [|done]. eapply Forall_impl; [exact Hfr|]. naive_solver. }
  assert (chain_items (new ++ old) ≡ₚ l) as Hperm' by by rewrite chain_items_app.
  exists v', id', (new ++ old). split_and!; try done.
  - rewrite (all_properties_chain junk v' d id' _ Hrd' Hc' Hpad'). by eapply build_properties_perm.
  - exists (chain_items (new ++ old)). split; [by apply build_dirty_chain|done].
  - rewrite length_app. assert (length old = length c) by (rewrite <-(length_fmap fst old), Hold; apply length_fmap). lia.
  - intros id2 c2 Hc2 Hap.
    assert (∀ j p, (j, p) ∈ c2 → j ∉ new.*1 ∧ j ∉ c.*1) as Hj.
    { intros j p Hin. split.
      - intros ([j' q] & Hj & Hin')%list_elem_of_fmap. simpl in Hj. subst j'.
        unfold fresh_records in Hfr. rewrite Forall_forall in Hfr. destruct (Hfr _ Hin') as (_ & _ & Hnone).
        pose proof (chain_lookup _ _ _ _ _ Hc2 Hin). simpl in Hnone. congruence.
      - intros Hjc. apply (Hap j Hjc). apply list_elem_of_fmap. by exists (j, p). }
    split.
    + eapply chain_frame; [done|]. intros j p Hin. destruct (Hj j p Hin). rewrite Hframe by done.
      by apply (chain_lookup _ _ _ _ _ Hc2).
    + intros i Hi ([j p] & -> & Hin)%list_elem_of_fmap. destruct (Hj j p Hin).
      rewrite fmap_app, Hold in Hi. simpl in Hi. by apply elem_of_app in Hi as [?|?].
Qed.

(** Removing the properties of a node or relationship frees all records of
    its chain and no other one. *)
Theorem remove_properties_frees v id c :
  vec_rd v → chain v id c →
  ∃ v', remove_properties id v = (v', Val tt) ∧ vec_rd v'
    ∧ (∀ i p, (i, p) ∈ c → vec_get v' i = None)
    ∧ ∀ id2 c2, chain v id2 c2 → apart c c2 → chain v' id2 c2.
Proof.
  intros Hrd Hc. unfold remove_properties. case_bool_decide as Eid.
  { subst id. destruct c as [|[i p] c]; [|destruct Hc as (<- & ? & _); done].
    exists v. split_and!; [done|done| |done]. by intros i p ?%elem_of_nil. }
  destruct c as [|[i p] c]; [done|]. pose proof Hc as (-> & _ & Hp & _).
  pose proof (vec_get_bounds _ _ _ Hrd Hp).
  unfold mbind, M_bind, get_st. rewrite bool_decide_eq_false_2 by lia.
  destruct (remove_loop_ok ((i, p) :: c) (walk_fuel v) v i Hrd Hc) as (v' & -> & Hrd' & Hget);
    [by eapply chain_length|].
  exists v'. split_and!; [done|done| |].
  - intros j q Hin. rewrite Hget, decide_True; [done|]. apply list_elem_of_fmap. by exists (j, q).
  - intros id2 c2 Hc2 Hap. eapply chain_frame; [done|]. intros j q Hin. rewrite Hget, decide_False.
    + by apply (chain_lookup _ _ _ _ _ Hc2).
    + intros Hj. apply (Hap j Hj). apply list_elem_of_fmap. by exists (j, q).
Qed.

(** A missing last value loses properties: [append_typed_properties] skips
    empty values before it tests for the last one, so up to two values that
    precede an empty last one are never stored. *)
Theorem append_typed_loses_pending v nid k1 tc1 x1 k2 tc2 it :
  x1 ≠ any_none → typed_item junk k1 tc1 x1 = Val it →
  append_typed_properties junk nid [(k1, tc1, x1); (k2, tc2, any_none)] v = (v, Val UNKNOWN).
Proof.
  intros Hx Hit. unfold append_typed_properties. simpl. rewrite bool_decide_eq_false_2 by done.
  unfold mbind, M_bind, lift_res. by rewrite Hit.
Qed.
End table.

(** ** Updates in place and scans of a property table (src/storage/properties.hpp)

    [update_properties] changes the records of a list where they are and puts
    what is left into new records in front of the list; [foreach_property]
    visits the items of all records. *)

Section update.
Context {V : Type → Type} `{!Vec V} {D : Type} `{!Dictionary D}.
Variables (ptime_of_date time_from_string : str → res Z) (junk : Z).
Notation pvec := (V property_set).
Notation coded_item := (coded_item ptime_of_date time_from_string junk).
Notation todo_list := (list (Z * any)).

(** [auto dc = dct->insert(pv.first); todo_list.push_back({dc, pv.second})] *)
Fixpoint code_names (props : properties_t) : M D todo_list :=
  match props with
  | [] => mret []
  | (k, x) :: props' => dc ← d_insert k; l ← code_names props'; mret ((dc, x) :: l)
  end.

Definition set_item (l : loc) (i : nat) (it : p_item) : M pvec unit :=
  v ← get_st;
  match vec_read v l with
  | None => throw undefined_behaviour
  | Some p => modify (vec_write l (mk_pset (next p) (owner p) (<[i := it]> (items p))))
  end.

(** The items of one record from position [i] on; [n] of them are left. *)
Fixpoint update_items (l : loc) (i n : nat) (todo : todo_list) : M (pvec * D) todo_list :=
  match n with
  | O => mret todo
  | S n' =>
    s ← get_st;
    p ← lift_res (match vec_read s.1 l with Some p => Val p | None => Exn undefined_behaviour end);
    it ← lift_res (match items p !! i with Some it => Val it | None => Exn undefined_behaviour end);
    match list_find (λ kv, kv.1 = key_ it) todo with
    | Some (j, kv) =>
      it' ← on_snd (coded_item kv.1 kv.2);
      on_fst (set_item l i it');;
      update_items l (S i) n' (delete j todo)
    | None => update_items l (S i) n' todo
    end
  end.

Fixpoint update_walk (fuel : nat) (item : Z) (todo : todo_list) : M (pvec * D) todo_list :=
  match todo with
  | [] => mret []
  | _ =>
    match fuel with
    | O => throw no_return
    | S f =>
      assert_ (bool_decide (item ≠ UNKNOWN));;
      s ← get_st;
      l ← lift_res (vec_at s.1 item);
      todo' ← update_items l 0 3 todo;
      match todo' with
      | [] => mret []
      | _ =>
        s ← get_st;
        p ← lift_res (match vec_read s.1 l with Some p => Val p | None => Exn undefined_behaviour end);
        if bool_decide (next p = UNKNOWN) then mret todo' else update_walk f (next p) todo'
      end
    end
  end.

(** The array for the new records starts with default items, whose type code
    is not [p_unused]. *)
Definition update_properties (nid id : Z) (props : properties_t) : M (pvec * D) Z :=
  todo ← on_snd (code_names props);
  s ← get_st;
  rest ← update_walk (walk_fuel s.1) id todo;
  pack junk (λ kv, on_snd (coded_item kv.1 kv.2)) (λ ps, on_fst (p ← vec_append ps; mret p.1))
    nid (length rest) rest (replicate 3 zero_item) 0 0 id.
End update.

(** ** All records *)
Section scan.
Context {V : Type → Type} `{!Vec V} `{!VecScan V}.
Notation pvec := (V property_set).

(** The calls of the callback are the items of the result. *)
Fixpoint foreach_property_loop (fuel : nat) (v : pvec) (it : option loc) : res (list p_item) :=
  match it with
  | None => Val []
  | Some l =>
    match fuel with
    | O => Exn no_return
    | S f =>
      p ← (match vec_read v l with Some p => Val p | None => Exn undefined_behaviour end);
      it' ← vec_next v l;
      rest ← foreach_property_loop f v it';
      Val (filter (λ i, is_empty i = false) (items p) ++ rest)
    end
  end.
Definition foreach_property (v : pvec) : res (list p_item) :=
  foreach_property_loop (Z.to_nat (vec_capacity v)) v (vec_first v).
End scan.
