(* ===== verification/Demo.v ===== *)
(** * Demo: concrete instances

    The vector in memory with two records per chunk and the dictionary over the
    pool in memory, with a concrete hash function: what the later files
    instantiate their theorems with.  Then the theorems about properties at
    concrete tables. *)

From Stdlib Require Import Ascii Sorted.
From S2P Require Import Prelude VecSpec Chunk ChunkedVec DictSpec StringPool Dict Literals Property PropertyList PropertyMap PropertyTable.

Definition two_pos : (0 < 2)%nat := ltac:(lia).
Definition two_small : Z.of_nat 2 < two64 := eq_refl.
#[export] Instance demo_vec : Vec mem_chunked_vec := chunked_vec_Vec 2 two_pos two_small.

Definition demo_hash (s : str) : Z := foldl (λ h c, 257 * h + code c) 7 s.
#[export] Instance demo_pool : Pool string_pool := string_pool_Pool NUL.
#[export] Instance demo_dictionary : Dictionary (dict string_pool) := dict_Dictionary demo_hash.

Definition demo_dict : dict string_pool :=
  mk_dict (mk_pool ("#"%char :: replicate 199 NUL) 200 100 1) ∅.

Lemma demo_dict_has : d_has demo_dict ∅.
Proof.
  exists []. split; [|reflexivity]. split; [|reflexivity|constructor].
  exists []. split_and!; [|vm_compute; congruence|reflexivity].
  split; [reflexivity|reflexivity|vm_compute; split; congruence|reflexivity|constructor].
Qed.

#[export] Instance string_pool_fits_dec p s : Decision (string_pool_fits p s).
Proof. unfold string_pool_fits. apply _. Defined.
#[export] Instance no_nul_dec s : Decision (no_nul s).
Proof. unfold no_nul. apply _. Defined.

(** A test that the dictionary takes a string, and a list of strings. *)
Definition takes_b (d : dict string_pool) (s : str) : bool :=
  bool_decide (no_nul s) && bool_decide (string_pool_fits (pool d) s) &&
  match scan (pool d) with
  | Val l => bool_decide (s ∈ l.*1) || bool_decide (demo_hash s ∉ demo_hash <$> l.*1)
  | Exn _ => false
  end.
Fixpoint takes_all_b (d : dict string_pool) (l : list str) : bool :=
  match l with [] => true | s :: l' => takes_b d s && takes_all_b (d_insert s d).1 l' end.

Lemma takes_b_ok d s : takes_b d s = true → no_nul s ∧ d_fits d s.
Proof.
  unfold takes_b. intros [[H1%bool_decide_eq_true H2%bool_decide_eq_true]%andb_true_iff H3]%andb_true_iff.
  split; [done|]. split; [done|]. intros l [Hp _ _].
  assert (scan (pool d) = Val l) as E by apply (pool_scan_ok _ _ Hp). rewrite E in H3.
  apply orb_true_iff in H3 as [H3%bool_decide_eq_true|H3%bool_decide_eq_true]; auto.
Qed.

Lemma takes_all_b_ok (d : dict string_pool) l : takes_all_b d l = true → dict_takes d l.
Proof.
  revert d. induction l as [|s l IH]; intros d; [done|].
  cbn [takes_all_b dict_takes]. intros [[H1 H2]%takes_b_ok H3]%andb_true_iff. split; [done|].
  split; [exact H2|by apply IH].
Qed.

(** Names and strings of the examples. *)
Definition s_age : str := ["a"; "g"; "e"]%char.
Definition s_name : str := ["n"; "a"; "m"; "e"]%char.
Definition s_bob : str := ["B"; "o"; "b"]%char.
Definition s_42 : str := ["4"; "2"]%char.
(** Dates do not occur in the examples. *)
Definition no_date (s : str) : res Z := Exn invalid_argument_std.

(** ** The theorems about properties on concrete tables *)

Definition props1 : properties_t := [(s_age, any_string s_42); (s_name, any_string s_bob)].
Definition entries1 : list (str * option any) :=
  [(s_age, Some (any_int 42)); (s_name, Some (any_string s_bob))].

Lemma props1_sorted : pm_sorted props1.
Proof. repeat constructor. Qed.

Lemma props1_canonical : canonical no_date no_date props1 entries1.
Proof. repeat constructor; vm_compute; reflexivity. Qed.

Lemma dirty_list_roundtrip_witness :
  ∃ d' l, build_dirty_from_props no_date no_date 0 props1 demo_dict = (d', Val l)
    ∧ build_properties_from_pitems d' l = Val [(s_age, any_int 42); (s_name, any_string s_bob)].
Proof.
  apply (dirty_list_roundtrip no_date no_date 0 demo_dict ∅ props1 entries1).
  - exact demo_dict_has.
  - exact props1_sorted.
  - exact props1_canonical.
  - apply takes_all_b_ok. vm_compute. reflexivity.
Defined.

(** A dictionary with one name, and an item with it. *)
Definition demo_dict1 : dict string_pool := (d_insert s_age demo_dict).1.
Definition item41 : p_item := mk_item 41 1 p_int.

Lemma demo_dict1_has : d_has demo_dict1 {[ 1 := s_age ]}.
Proof.
  destruct (takes_b_ok demo_dict s_age) as [Hn Hf]; [vm_compute; reflexivity|].
  destruct (d_insert_ok demo_dict ∅ s_age demo_dict_has Hn Hf) as (d' & c & E & Hd' & _).
  unfold demo_dict1. rewrite E. assert (c = 1) as ->; [|exact Hd'].
  assert ((d_insert s_age demo_dict).2 = Val 1) as H by (vm_compute; reflexivity). rewrite E in H.
  simpl in H. congruence.
Qed.

Lemma item41_entries : entries {[ 1 := s_age ]} [item41] [(s_age, Some (any_int 41))].
Proof.
  constructor; [|constructor].
  split; simpl; [by vm_compute|apply lookup_singleton_eq|vm_compute; reflexivity].
Qed.

Lemma apply_updates_overrides_witness :
  ∃ d' l' pm pm', apply_updates no_date no_date 0 props1 ([item41], demo_dict1) = ((l', d'), Val tt)
    ∧ build_properties_from_pitems demo_dict1 [item41] = Val pm
    ∧ build_properties_from_pitems d' l' = Val pm'
    ∧ ∀ k, pm_lookup k pm' = match en_lookup k entries1 with Some o => o | None => pm_lookup k pm end.
Proof.
  apply (apply_updates_overrides no_date no_date 0 demo_dict1 {[ 1 := s_age ]} [item41]
           [(s_age, Some (any_int 41))] props1 entries1).
  - exact demo_dict1_has.
  - exact item41_entries.
  - apply NoDup_singleton.
  - exact props1_sorted.
  - exact props1_canonical.
  - apply takes_all_b_ok. vm_compute. reflexivity.
Defined.

Lemma add_pitems_stores_witness :
  ∃ v' id c, add_pitems 0 7 [item41] (vec_new : mem_chunked_vec property_set) = (v', Val id)
    ∧ chain v' id c
    ∧ all_properties v' demo_dict1 id = build_properties_from_pitems demo_dict1 [item41].
Proof.
  destruct (add_pitems_stores 0 (vec_new : mem_chunked_vec property_set) demo_dict1 {[ 1 := s_age ]}
              [item41] [(s_age, Some (any_int 41))] 7)
    as (v' & id & c & E & _ & Hc & _ & Ha & _).
  - apply vec_new_ok.
  - vm_compute. congruence.
  - exact demo_dict1_has.
  - exact item41_entries.
  - apply NoDup_singleton.
  - exists v', id, c. exact (conj E (conj Hc Ha)).
Defined.

(** The table with the item stored. *)
Definition demo_pset : property_set := mk_pset UNKNOWN 7 (pad 0 [item41]).
Definition demo_table : mem_chunked_vec property_set := (vec_store demo_pset vec_new).1.

Lemma demo_table_rd : vec_rd demo_table.
Proof.
  destruct (vec_store_ok (vec_new : mem_chunked_vec property_set) demo_pset (vec_new_ok))
    as (id & l & v' & E & Hok & _).
  unfold demo_table. rewrite E. by apply vec_ok_rd.
Qed.

Lemma demo_table_chain : chain demo_table 0 [(0, demo_pset)].
Proof. split; [done|]. split; [vm_compute; congruence|]. split; [vm_compute; reflexivity|done]. Qed.

Definition item43 : p_item := mk_item 43 1 p_int.

Lemma item43_entries : entries {[ 1 := s_age ]} [item43] [(s_age, Some (any_int 43))].
Proof.
  constructor; [|constructor].
  split; simpl; [by vm_compute|apply lookup_singleton_eq|vm_compute; reflexivity].
Qed.

Lemma update_pitems_replaces_witness :
  ∃ v' id' c', update_pitems 0 7 0 [item43] demo_table = (v', Val id') ∧ chain v' id' c'
    ∧ all_properties v' demo_dict1 id' = build_properties_from_pitems demo_dict1 [item43].
Proof.
  destruct (update_pitems_replaces 0 demo_table demo_dict1 {[ 1 := s_age ]} 0 [(0, demo_pset)]
              [item43] [(s_age, Some (any_int 43))] 7)
    as (v' & id & c & E & _ & Hc & Ha & _).
  - exact demo_table_rd.
  - exact demo_table_chain.
  - vm_compute. lia.
  - vm_compute. congruence.
  - exact demo_dict1_has.
  - exact item43_entries.
  - apply NoDup_singleton.
  - exists v', id, c. exact (conj E (conj Hc Ha)).
Defined.

Lemma remove_properties_frees_witness :
  ∃ v', remove_properties 0 demo_table = (v', Val tt) ∧ vec_get v' 0 = None.
Proof.
  destruct (remove_properties_frees demo_table 0 [(0, demo_pset)]) as (v' & E & _ & Hn & _).
  - exact demo_table_rd.
  - exact demo_table_chain.
  - exists v'. split; [exact E|]. apply (Hn 0 demo_pset). constructor.
Defined.

Lemma append_typed_loses_pending_witness :
  append_typed_properties 0 7 [(1, p_int, any_int 5); (2, p_int, any_none)]
    (vec_new : mem_chunked_vec property_set) = (vec_new, Val UNKNOWN).
Proof.
  apply (append_typed_loses_pending 0 _ 7 1 p_int (any_int 5) 2 p_int (mk_item 5 1 p_int)).
  - discriminate.
  - vm_compute. reflexivity.
Defined.
