(* ===== verification/GraphState.v ===== *)
(** * GraphState: the state of the graph database

    Nodes and relationships ([node] of src/storage/nodes.hpp, [relationship] of
    relationships.hpp), their tables ([node_list], [relationship_list]), and the
    members of [graph_db] (src/storage/graph_db.hpp) with the transaction the
    thread is in (src/tx/transaction.hpp).  The tables are vectors of objects
    with their versions ([Txn]); the properties of a version are a list of
    items. *)

From S2P Require Import Prelude VecSpec DictSpec IndexSpec Literals Property PropertyList Txn.

(** ** Records *)
Record node : Type := mk_node {
  node_id_ : Z;
  from_rship_list : Z;   (* first relationship with this node as source *)
  to_rship_list : Z;     (* first relationship with this node as destination *)
  node_plist : Z;        (* [property_list] *)
  node_label : Z
}.
Definition new_node (label : Z) : node := mk_node UNKNOWN UNKNOWN UNKNOWN UNKNOWN label.

Record relationship : Type := mk_rship {
  rship_id_ : Z;
  src_node : Z;
  dest_node : Z;
  next_src_rship : Z;
  next_dest_rship : Z;
  rship_plist : Z;
  rship_label : Z
}.
Definition new_relationship (rlabel src dest : Z) : relationship :=
  mk_rship UNKNOWN src dest UNKNOWN UNKNOWN UNKNOWN rlabel.

(** Assignments to fields *)
Definition set_node_id (i : Z) (n : node) : node :=
  mk_node i (from_rship_list n) (to_rship_list n) (node_plist n) (node_label n).
Definition set_from_list (x : Z) (n : node) : node :=
  mk_node (node_id_ n) x (to_rship_list n) (node_plist n) (node_label n).
Definition set_to_list (x : Z) (n : node) : node :=
  mk_node (node_id_ n) (from_rship_list n) x (node_plist n) (node_label n).
Definition set_node_plist (x : Z) (n : node) : node :=
  mk_node (node_id_ n) (from_rship_list n) (to_rship_list n) x (node_label n).
Definition set_node_label (x : Z) (n : node) : node :=
  mk_node (node_id_ n) (from_rship_list n) (to_rship_list n) (node_plist n) x.

Definition set_rship_id (i : Z) (r : relationship) : relationship :=
  mk_rship i (src_node r) (dest_node r) (next_src_rship r) (next_dest_rship r) (rship_plist r) (rship_label r).
Definition set_next_src (x : Z) (r : relationship) : relationship :=
  mk_rship (rship_id_ r) (src_node r) (dest_node r) x (next_dest_rship r) (rship_plist r) (rship_label r).
Definition set_next_dest (x : Z) (r : relationship) : relationship :=
  mk_rship (rship_id_ r) (src_node r) (dest_node r) (next_src_rship r) x (rship_plist r) (rship_label r).
Definition set_rship_plist (x : Z) (r : relationship) : relationship :=
  mk_rship (rship_id_ r) (src_node r) (dest_node r) (next_src_rship r) (next_dest_rship r) x (rship_label r).
Definition set_rship_label (x : Z) (r : relationship) : relationship :=
  mk_rship (rship_id_ r) (src_node r) (dest_node r) (next_src_rship r) (next_dest_rship r) (rship_plist r) x.

Notation pitems := (list p_item).
Notation nobj := (tobj node pitems).
Notation robj := (tobj relationship pitems).

#[export] Instance nobj_inhabited : Inhabited nobj := populate (new_tobj (new_node 0)).
#[export] Instance robj_inhabited : Inhabited robj := populate (new_tobj (new_relationship 0 0 0)).

(** ** Tables of objects *)
Section tables.
Context {V : Type → Type} `{!Vec V} {B : Type} `{!Inhabited (tobj B pitems)}.
Notation table := (V (tobj B pitems)).
Variable set_id : Z → B → B.

(** [get(id)]: the address of the object. *)
Definition tab_get (v : table) (id : Z) : res loc :=
  if bool_decide (vec_capacity v ≤ id) then Exn unknown_id else vec_at v id.

(** A computation on the object at an id. *)
Definition tab_do {A} (id : Z) (m : M (tobj B pitems) A) : M table A := λ v,
  match tab_get v id with
  | Exn e => (v, Exn e)
  | Val l => match vec_read v l with
             | None => (v, Exn undefined_behaviour)
             | Some t => let '(t', r) := m t in (vec_write l t' v, r)
             end
  end.

(** [p.second->id_ = p.first; if (owner != 0) p.second->lock(owner);] *)
Definition tab_own (id : Z) (l : loc) (owner : Z) : M table unit := λ v,
  match vec_read v l with
  | None => (v, Exn undefined_behaviour)
  | Some t =>
    let o := set_body (set_id id) (main_ t) in
    match (if bool_decide (owner ≠ 0) then lock owner o else Some o) with
    | None => (v, Exn no_return)
    | Some o' => (vec_write l (mk_tobj o' (dirty_list_ t) (next_addr_ t)) v, Val tt)
    end
  end.

Definition tab_insert (b : B) (owner : Z) : M table Z :=
  p ← vec_store (new_tobj b); tab_own p.1 p.2 owner;; mret p.1.
Definition tab_append (b : B) (owner : Z) : M table Z :=
  p ← vec_append (new_tobj b); tab_own p.1 p.2 owner;; mret p.1.

(** [add]: the id is set and the lock taken before the object is stored. *)
Definition tab_add (b : B) (owner : Z) : M table Z :=
  v ← get_st;
  when (vec_is_full v) (modify (vec_resize 1));;
  v ← get_st;
  let id := vec_first_available v in
  assert_ (bool_decide (id ≠ UNKNOWN));;
  let o := new_obj (set_id id b) in
  match (if bool_decide (owner ≠ 0) then lock owner o else Some o) with
  | None => throw no_return
  | Some o' => vec_store_at id (mk_tobj o' None 0);; mret id
  end.

Definition tab_remove (id : Z) : M table unit :=
  v ← get_st;
  if bool_decide (vec_capacity v ≤ id) then throw unknown_id else vec_erase id.
End tables.

(** ** Transactions and garbage *)
Record transaction : Type := mk_tx {
  xid_ : Z;
  dirty_nodes_ : list Z;
  dirty_rships_ : list Z
}.
(** [transaction()]: [xid] is the clock, which the model gets from outside. *)
Definition new_transaction (xid : Z) : transaction := mk_tx xid [] [].

Inductive gc_kind : Type := gc_node | gc_rship.
Record gc_item : Type := mk_gc { gc_txid : Z; gc_oid : Z; gc_itype : gc_kind }.

(** ** The database

    [active_tx_] is an ordered map from transaction ids; only its keys matter.
    [current_transaction_] belongs to the thread that runs. *)
Record gdb (V : Type → Type) (D X : Type) : Type := mk_gdb {
  nodes_ : V nobj;
  rships_ : V robj;
  node_properties_ : V property_set;
  rship_properties_ : V property_set;
  dict_ : D;
  active_tx_ : list Z;
  oldest_xid_ : Z;
  garbage_ : list gc_item;
  current_transaction_ : option transaction;
  index_map_ : X
}.
Arguments mk_gdb {V D X}.
Arguments nodes_ {V D X}.
Arguments rships_ {V D X}.
Arguments node_properties_ {V D X}.
Arguments rship_properties_ {V D X}.
Arguments dict_ {V D X}.
Arguments active_tx_ {V D X}.
Arguments oldest_xid_ {V D X}.
Arguments garbage_ {V D X}.
Arguments current_transaction_ {V D X}.
Arguments index_map_ {V D X}.

Section access.
Context {V : Type → Type} {D X : Type}.
Notation db := (gdb V D X).

Definition set_nodes (v : V nobj) (g : db) : db :=
  mk_gdb v (rships_ g) (node_properties_ g) (rship_properties_ g) (dict_ g) (active_tx_ g)
    (oldest_xid_ g) (garbage_ g) (current_transaction_ g) (index_map_ g).
Definition set_rships (v : V robj) (g : db) : db :=
  mk_gdb (nodes_ g) v (node_properties_ g) (rship_properties_ g) (dict_ g) (active_tx_ g)
    (oldest_xid_ g) (garbage_ g) (current_transaction_ g) (index_map_ g).
Definition set_nprops (v : V property_set) (g : db) : db :=
  mk_gdb (nodes_ g) (rships_ g) v (rship_properties_ g) (dict_ g) (active_tx_ g)
    (oldest_xid_ g) (garbage_ g) (current_transaction_ g) (index_map_ g).
Definition set_rprops (v : V property_set) (g : db) : db :=
  mk_gdb (nodes_ g) (rships_ g) (node_properties_ g) v (dict_ g) (active_tx_ g)
    (oldest_xid_ g) (garbage_ g) (current_transaction_ g) (index_map_ g).
Definition set_gdict (d : D) (g : db) : db :=
  mk_gdb (nodes_ g) (rships_ g) (node_properties_ g) (rship_properties_ g) d (active_tx_ g)
    (oldest_xid_ g) (garbage_ g) (current_transaction_ g) (index_map_ g).
Definition set_active (l : list Z) (g : db) : db :=
  mk_gdb (nodes_ g) (rships_ g) (node_properties_ g) (rship_properties_ g) (dict_ g) l
    (oldest_xid_ g) (garbage_ g) (current_transaction_ g) (index_map_ g).
Definition set_oldest (x : Z) (g : db) : db :=
  mk_gdb (nodes_ g) (rships_ g) (node_properties_ g) (rship_properties_ g) (dict_ g) (active_tx_ g)
    x (garbage_ g) (current_transaction_ g) (index_map_ g).
Definition set_garbage (l : list gc_item) (g : db) : db :=
  mk_gdb (nodes_ g) (rships_ g) (node_properties_ g) (rship_properties_ g) (dict_ g) (active_tx_ g)
    (oldest_xid_ g) l (current_transaction_ g) (index_map_ g).
Definition set_current (t : option transaction) (g : db) : db :=
  mk_gdb (nodes_ g) (rships_ g) (node_properties_ g) (rship_properties_ g) (dict_ g) (active_tx_ g)
    (oldest_xid_ g) (garbage_ g) t (index_map_ g).
Definition set_index_map (x : X) (g : db) : db :=
  mk_gdb (nodes_ g) (rships_ g) (node_properties_ g) (rship_properties_ g) (dict_ g) (active_tx_ g)
    (oldest_xid_ g) (garbage_ g) (current_transaction_ g) x.

(** Computations on one member *)
Definition on_nodes {A} (m : M (V nobj) A) : M db A := λ g,
  let '(v, r) := m (nodes_ g) in (set_nodes v g, r).
Definition on_rships {A} (m : M (V robj) A) : M db A := λ g,
  let '(v, r) := m (rships_ g) in (set_rships v g, r).
Definition on_nprops {A} (m : M (V property_set) A) : M db A := λ g,
  let '(v, r) := m (node_properties_ g) in (set_nprops v g, r).
Definition on_rprops {A} (m : M (V property_set) A) : M db A := λ g,
  let '(v, r) := m (rship_properties_ g) in (set_rprops v g, r).
Definition on_dict {A} (m : M D A) : M db A := λ g,
  let '(d, r) := m (dict_ g) in (set_gdict d g, r).
Definition on_indexes {A} (m : M X A) : M db A := λ g,
  let '(x, r) := m (index_map_ g) in (set_index_map x g, r).

(** ** Transactions *)
Definition check_tx_context : M db unit :=
  g ← get_st;
  match current_transaction_ g with None => throw out_of_transaction_scope | Some _ => mret tt end.
(** [current_transaction()->xid()]; a null pointer without a transaction. *)
Definition tx_xid : M db Z :=
  g ← get_st;
  match current_transaction_ g with None => throw undefined_behaviour | Some tx => mret (xid_ tx) end.
Definition add_dirty_node (id : Z) : M db unit :=
  modify (λ g, set_current ((λ tx, mk_tx (xid_ tx) (dirty_nodes_ tx ++ [id]) (dirty_rships_ tx))
                              <$> current_transaction_ g) g).
Definition add_dirty_relationship (id : Z) : M db unit :=
  modify (λ g, set_current ((λ tx, mk_tx (xid_ tx) (dirty_nodes_ tx) (dirty_rships_ tx ++ [id]))
                              <$> current_transaction_ g) g).

Fixpoint insert_xid (x : Z) (l : list Z) : list Z :=
  match l with
  | [] => [x]
  | y :: l' => if bool_decide (x < y) then x :: l
               else if bool_decide (x = y) then l else y :: insert_xid x l'
  end.

Definition begin_transaction (xid : Z) : M db unit :=
  g ← get_st;
  match current_transaction_ g with
  | Some _ => throw invalid_nested_transaction
  | None =>
    modify (set_current (Some (new_transaction xid)));;
    modify (λ g, set_active (insert_xid xid (active_tx_ g)) g)
  end.

(** The beginning of commit and abort: the transaction leaves the active ones. *)
Definition leave_active (xid : Z) : M db unit :=
  modify (λ g, let l := filter (λ y, y ≠ xid) (active_tx_ g) in
               set_oldest (match l with [] => xid | y :: _ => y end) (set_active l g)).
End access.
