(* ===== verification/GraphOps.v ===== *)
(** * GraphOps: the operations of the graph database

    [graph_db] of src/storage/graph_db.cpp in the configuration in memory,
    without logs and CSR deltas: every operation with its guards, exceptions and
    the order of its changes.  Commit and abort are in [GraphCommit], the
    operations on indexes in [GraphIndex].  A C++ reference to a version of a node or
    relationship is the id of the object with a [vref].  Loops over lists of
    relationships get the capacity of their table as fuel, like those over
    records of properties. *)

From S2P Require Import Prelude VecSpec DictSpec IndexSpec Literals Property PropertyList Txn Mvto GraphState.

Section graph.
Context {V : Type → Type} `{!Vec V} {D : Type} `{!Dictionary D} {X : Type} `{!Indexes X}.
Variables (ptime_of_date time_from_string : str → res Z) (junk : Z).
Notation db := (gdb V D X).
Notation build_dirty_from_props := (build_dirty_from_props ptime_of_date time_from_string junk).
Notation apply_updates := (apply_updates ptime_of_date time_from_string junk).

(** A reference to a version. *)
Definition oref : Type := Z * vref.

Definition at_node {A} (id : Z) (m : M nobj A) : M db A := on_nodes (tab_do id m).
Definition at_rship {A} (id : Z) (m : M robj A) : M db A := on_rships (tab_do id m).
Definition node_ref (n : oref) : M db (obj node) := at_node n.1 (self n.2).
Definition rship_ref (r : oref) : M db (obj relationship) := at_rship r.1 (self r.2).

(** ** Reading *)
Definition node_by_id (id : Z) : M db oref :=
  check_tx_context;; xid ← tx_xid;
  r ← at_node id (fetch xid); mret (id, r).
Definition rship_by_id (id : Z) : M db oref :=
  check_tx_context;; xid ← tx_xid;
  r ← at_rship id (fetch xid); mret (id, r).

Definition stored_node_items (plist : Z) : M db pitems :=
  g ← get_st; lift_res (build_dirty_property_list (node_properties_ g) plist).
Definition stored_rship_items (plist : Z) : M db pitems :=
  g ← get_st; lift_res (build_dirty_property_list (rship_properties_ g) plist).

Record node_description : Type := mk_ndescr {
  nd_id : Z; nd_label : str; nd_properties : properties_t }.
Record rship_description : Type := mk_rdescr {
  rd_id : Z; rd_from : Z; rd_to : Z; rd_label : str; rd_properties : properties_t }.

Definition get_node_description (id : Z) : M db node_description :=
  n ← node_by_id id;
  xid ← tx_xid;
  o ← node_ref n;
  t ← at_node id get_st;
  let from_table : M db node_description :=
    g ← get_st;
    props ← lift_res (all_properties (node_properties_ g) (dict_ g) (node_plist (body_ o)));
    label ← lift_res (d_lookup_code (dict_ g) (node_label (body_ o)));
    mret (mk_ndescr (node_id_ (body_ o)) label props) in
  let from_version : M db node_description :=
    dn ← lift_res (find_valid_version t o xid);
    g ← get_st;
    props ← lift_res (build_properties_from_pitems (dict_ g) (properties_ dn));
    label ← lift_res (d_lookup_code (dict_ g) (node_label (body_ (elem_ dn))));
    mret (mk_ndescr (node_id_ (body_ o)) label props) in
  if negb (has_dirty_versions t o) then from_table
  else if negb (is_dirty o) && is_valid_for o xid then
    if bool_decide (cts_ o = INF) then from_table else from_version
  else from_version.

(** Relationships: the deleted case is not told apart. *)
Definition get_rship_description (id : Z) : M db rship_description :=
  r ← rship_by_id id;
  xid ← tx_xid;
  o ← rship_ref r;
  t ← at_rship id get_st;
  let result (label : str) (props : properties_t) : rship_description :=
    mk_rdescr (rship_id_ (body_ o)) (src_node (body_ o)) (dest_node (body_ o)) label props in
  let from_table : M db rship_description :=
    g ← get_st;
    props ← lift_res (all_properties (rship_properties_ g) (dict_ g) (rship_plist (body_ o)));
    label ← lift_res (d_lookup_code (dict_ g) (rship_label (body_ o)));
    mret (result label props) in
  if negb (has_dirty_versions t o) then from_table
  else if negb (is_dirty o) && is_valid_for o xid then from_table
  else
    dr ← lift_res (find_valid_version t o xid);
    g ← get_st;
    props ← lift_res (build_properties_from_pitems (dict_ g) (properties_ dr));
    label ← lift_res (d_lookup_code (dict_ g) (rship_label (body_ (elem_ dr))));
    mret (result label props).

Definition get_relationship_label (r : relationship) : M db str :=
  g ← get_st; lift_res (d_lookup_code (dict_ g) (rship_label r)).
Definition get_node_property_value (n : node) (pcode : Z) : M db p_item :=
  g ← get_st; lift_res (property_value (node_properties_ g) (node_plist n) pcode).
Definition get_rship_property_value (r : relationship) (pcode : Z) : M db p_item :=
  g ← get_st; lift_res (property_value (rship_properties_ g) (rship_plist r) pcode).
Definition get_string (c : Z) : M db str := g ← get_st; lift_res (d_lookup_code (dict_ g) c).
Definition get_code (s : str) : M db Z := g ← get_st; mret (d_lookup_string (dict_ g) s).

(** ** Adding *)
Definition add_node (label : str) (props : properties_t) (append_only : bool) : M db Z :=
  check_tx_context;; txid ← tx_xid;
  c ← get_code label;
  type_code ← (if bool_decide (c = 0) then on_dict (d_insert label) else mret c);
  node_id ← on_nodes ((if append_only then tab_append else tab_insert) set_node_id (new_node type_code) txid);
  dirty_list ← on_dict (build_dirty_from_props props);
  a ← at_node node_id (add_copy Main dirty_list false);
  at_node node_id (set_dirty_at a);;
  add_dirty_node node_id;;
  mret node_id.

(** The new relationship [rid] becomes the head of the list; [get] and [set]
    are the list of the node, [link] the next pointer of the relationship. *)
Definition link_rship (get : node → Z) (set : Z → node → node)
    (link : Z → relationship → relationship) (n : oref) (rid : Z) : M db unit :=
  txid ← tx_xid;
  at_node n.1 (acquire n.2 txid);;
  own ← at_node n.1 (own_dirty n.2 txid);
  let chain_to (head : Z) : M db unit :=
    when (bool_decide (head ≠ UNKNOWN)) (at_rship rid (put Main (set_body (link head)))) in
  match own with
  | Some dn =>
    chain_to (get (body_ (elem_ dn)));;
    at_node n.1 (put (Dirty (addr_ dn)) (set_body (set rid)))
  | None =>
    o ← node_ref n;
    items ← stored_node_items (node_plist (body_ o));
    at_node n.1 (add_old_version n.2 txid items);;
    at_node n.1 (add_new_version n.2 txid items (set rid));;
    chain_to (get (body_ o));;
    add_dirty_node (node_id_ (body_ o))
  end.
Definition update_from_node : oref → Z → M db unit :=
  link_rship from_rship_list set_from_list set_next_src.
Definition update_to_node : oref → Z → M db unit :=
  link_rship to_rship_list set_to_list set_next_dest.

Definition add_relationship (from_id to_id : Z) (label : str) (props : properties_t)
    (append_only : bool) : M db Z :=
  check_tx_context;; txid ← tx_xid;
  from_node ← node_by_id from_id;
  to_node ← node_by_id to_id;
  type_code ← on_dict (d_insert label);
  rid ← on_rships ((if append_only then tab_append else tab_insert) set_rship_id
                     (new_relationship type_code from_id to_id) txid);
  dirty_list ← on_dict (build_dirty_from_props props);
  a ← at_rship rid (add_copy Main dirty_list false);
  at_rship rid (set_dirty_at a);;
  add_dirty_relationship rid;;
  update_from_node from_node rid;;
  update_to_node to_node rid;;
  mret rid.

(** ** Updating *)

(** [apply_updates] changes the items of a version in place, also when it fails
    on the way; on a local list a failure leaves nothing. *)
Definition update_node_items (id : Z) (dn : dirty_object node pitems) (props : properties_t) : M db unit := λ g,
  let '((l, d), r) := apply_updates props (properties_ dn, dict_ g) in
  ((at_node id (modify (on_dirty (addr_ dn) (set_props (λ _, l)))) (set_gdict d g)).1, r).
Definition update_rship_items (id : Z) (dr : dirty_object relationship pitems) (props : properties_t) : M db unit := λ g,
  let '((l, d), r) := apply_updates props (properties_ dr, dict_ g) in
  ((at_rship id (modify (on_dirty (addr_ dr) (set_props (λ _, l)))) (set_gdict d g)).1, r).
Definition updated_items (items : pitems) (props : properties_t) : M db pitems := λ g,
  let '((l, d), r) := apply_updates props (items, dict_ g) in
  (set_gdict d g, match r with Val _ => Val l | Exn e => Exn e end).

Definition label_code (label : str) : M db Z :=
  match label with [] => mret 0 | _ => on_dict (d_insert label) end.

Definition update_node (n : oref) (props : properties_t) (label : str) : M db unit :=
  lc ← label_code label;
  check_tx_context;; txid ← tx_xid;
  at_node n.1 (acquire n.2 txid);;
  own ← at_node n.1 (own_dirty n.2 txid);
  match own with
  | Some dn =>
    update_node_items n.1 dn props;;
    when (bool_decide (lc > 0)) (at_node n.1 (put (Dirty (addr_ dn)) (set_body (set_node_label lc))))
  | None =>
    o ← node_ref n;
    items ← stored_node_items (node_plist (body_ o));
    at_node n.1 (add_old_version n.2 txid items);;
    items' ← updated_items items props;
    at_node n.1 (add_new_version n.2 txid items' (λ b, if bool_decide (lc > 0) then set_node_label lc b else b));;
    add_dirty_node (node_id_ (body_ o))
  end.

Definition update_relationship (r : oref) (props : properties_t) (label : str) : M db unit :=
  lc ← label_code label;
  check_tx_context;; txid ← tx_xid;
  at_rship r.1 (acquire r.2 txid);;
  own ← at_rship r.1 (own_dirty r.2 txid);
  match own with
  | Some dr =>
    update_rship_items r.1 dr props;;
    when (bool_decide (lc > 0)) (at_rship r.1 (put (Dirty (addr_ dr)) (set_body (set_rship_label lc))))
  | None =>
    o ← rship_ref r;
    items ← stored_rship_items (rship_plist (body_ o));
    at_rship r.1 (add_old_version r.2 txid items);;
    items' ← updated_items items props;
    at_rship r.1 (add_new_version r.2 txid items' (λ b, if bool_decide (lc > 0) then set_rship_label lc b else b));;
    add_dirty_relationship (rship_id_ (body_ o))
  end.

(** ** Deleting *)

(** The relationship at an id of a list. *)
Definition list_rship (id : Z) : M db robj := at_rship id get_st.
Definition list_fuel : M db nat := g ← get_st; mret (S (Z.to_nat (vec_capacity (rships_ g)))).

(** [has_valid_from_rships], [has_valid_to_rships] *)
Fixpoint has_valid_loop (next : relationship → Z) (fuel : nat) (id xid : Z) : M db bool :=
  match fuel with
  | O => throw no_return
  | S f =>
    if bool_decide (id = UNKNOWN) then mret false
    else
      t ← list_rship id;
      let r := main_ t in
      if is_locked_by r xid then
        assert_ (has_dirty_versions t r);;
        if has_valid_version t r xid then mret true
        else has_valid_loop next f (next (body_ r)) xid
      else mret (is_valid_for r xid)
  end.
Definition has_valid_from_rships (o : node) (xid : Z) : M db bool :=
  f ← list_fuel; has_valid_loop next_src_rship f (from_rship_list o) xid.
Definition has_valid_to_rships (o : node) (xid : Z) : M db bool :=
  f ← list_fuel; has_valid_loop next_dest_rship f (to_rship_list o) xid.

Definition delete_node (id : Z) : M db unit :=
  check_tx_context;; txid ← tx_xid;
  n ← node_by_id id;
  at_node id (acquire n.2 txid);;
  o ← node_ref n;
  connected ← (if bool_decide (from_rship_list (body_ o) ≠ UNKNOWN) || bool_decide (to_rship_list (body_ o) ≠ UNKNOWN)
               then b ← has_valid_from_rships (body_ o) txid;
                    if (b : bool) then mret true else has_valid_to_rships (body_ o) txid
               else mret false);
  if (connected : bool) then at_node id (put n.2 unlock);; throw orphaned_relationship
  else
    items ← stored_node_items (node_plist (body_ o));
    at_node id (add_old_version n.2 txid items);;
    at_node id (add_deleted_version n.2 txid []);;
    add_dirty_node (node_id_ (body_ o)).

Definition delete_relationship (id : Z) : M db unit :=
  check_tx_context;; txid ← tx_xid;
  r ← rship_by_id id;
  at_rship id (acquire r.2 txid);;
  o ← rship_ref r;
  t ← at_rship id get_st;
  when (negb (has_dirty_versions t o))
    (items ← stored_rship_items (rship_plist (body_ o));
     at_rship id (add_old_version r.2 txid items));;
  at_rship id (add_deleted_version r.2 txid []);;
  add_dirty_relationship (rship_id_ (body_ o)).

(** [delete_relationship(src, dest)] deletes the first visible relationship. *)
Fixpoint delete_between_loop (fuel : nat) (id dest xid : Z) : M db unit :=
  match fuel with
  | O => throw no_return
  | S f =>
    if bool_decide (id = UNKNOWN) then mret tt
    else
      t ← list_rship id;
      let r := main_ t in
      if is_locked_by r xid then
        assert_ (has_dirty_versions t r);;
        if has_valid_version t r xid && bool_decide (dest_node (body_ r) = dest)
        then delete_relationship id
        else delete_between_loop f (next_src_rship (body_ r)) dest xid
      else if is_valid_for r xid && bool_decide (dest_node (body_ r) = dest)
      then delete_relationship id
      else delete_between_loop f (next_src_rship (body_ r)) dest xid
  end.
Definition delete_relationship_between (src dest : Z) : M db unit :=
  check_tx_context;; txid ← tx_xid;
  n ← node_by_id src;
  o ← node_ref n;
  f ← list_fuel;
  delete_between_loop f (from_rship_list (body_ o)) dest txid.

(** The relationships of a list that the transaction sees. *)
Fixpoint visible_rships (next : relationship → Z) (fuel : nat) (id xid : Z) : M db (list Z) :=
  match fuel with
  | O => throw no_return
  | S f =>
    if bool_decide (id = UNKNOWN) then mret []
    else
      t ← list_rship id;
      let r := main_ t in
      take_it ← (if is_locked_by r xid then
                   assert_ (has_dirty_versions t r);; mret (has_valid_version t r xid)
                 else mret (is_valid_for r xid));
      l ← visible_rships next f (next (body_ r)) xid;
      mret (if (take_it : bool) then id :: l else l)
  end.

Definition detach_delete_node (id : Z) : M db unit :=
  check_tx_context;; txid ← tx_xid;
  n ← node_by_id id;
  at_node id (acquire n.2 txid);;
  o ← node_ref n;
  f ← list_fuel;
  l1 ← visible_rships next_src_rship f (from_rship_list (body_ o)) txid;
  l2 ← visible_rships next_dest_rship f (to_rship_list (body_ o)) txid;
  for_each delete_relationship (l1 ++ l2);;
  o ← node_ref n;
  t ← at_node id get_st;
  when (negb (has_dirty_versions t o))
    (items ← stored_node_items (node_plist (body_ o));
     at_node id (add_old_version n.2 txid items));;
  at_node id (add_deleted_version n.2 txid []);;
  add_dirty_node (node_id_ (body_ o)).
End graph.
