(* ===== verification/QueryCtx.v ===== *)
(** * QueryCtx: scans and traversals (src/query/interp/query_ctx.cpp)

    The functions with which query operators read the graph: they call a
    consumer for the nodes and relationships they find.  A consumer may read
    and change the database and has a state of its own (what a C++ closure
    captures by reference), so the functions run over both.  A reference to a
    version is the id of its object with a [vref].  A traversal with a number
    of hops gets its fuel from outside; the loops over lists have the fuel of
    [GraphOps]. *)

From S2P Require Import Prelude VecSpec Txn Mvto DictSpec IndexSpec Literals Property PropertyList GraphState GraphOps.

Section query.
Context {V : Type → Type} `{!Vec V} `{!VecScan V} {D : Type} `{!Dictionary D} {X : Type} `{!Indexes X}.
Notation db := (gdb V D X).

(** ** Loops over the tables *)
Section tables.
Context {B T A : Type}.

(** A computation on the object a C++ reference refers to. *)
Definition loc_do {C} (l : loc) (m : M (tobj B pitems) C) : M (V (tobj B pitems)) C := λ v,
  match vec_read v l with
  | None => (v, Exn undefined_behaviour)
  | Some t => let '(t', r) := m t in (vec_write l t' v, r)
  end.

(** [for (auto &x : vec) body]: the iterator advances after the body. *)
Fixpoint vec_loop (table : db → V T) (body : loc → M (db * A) unit)
    (fuel : nat) (it : option loc) : M (db * A) unit :=
  match it with
  | None => mret tt
  | Some l =>
    match fuel with
    | O => throw no_return
    | S f =>
      body l;; s ← get_st; it' ← lift_res (vec_next (table s.1) l); vec_loop table body f it'
    end
  end.
Definition for_vec (table : db → V T) (body : loc → M (db * A) unit) : M (db * A) unit :=
  s ← get_st;
  let v := table s.1 in
  vec_loop table body (Z.to_nat (vec_capacity v)) (vec_first v).
End tables.

Section consumers.
Context {A : Type}.
Notation st := (db * A)%type.
Notation node_consumer := (oref → M st unit).
Notation rship_consumer := (oref → M st unit).

(** [current_transaction()->xid()] after [check_tx_context()]. *)
Definition scan_txid : M st Z := on_fst (check_tx_context;; tx_xid).

(** The object at an address and the version a transaction reads. *)
Definition node_at (l : loc) : M st nobj := on_fst (on_nodes (loc_do l get_st)).
Definition rship_at (l : loc) : M st robj := on_fst (on_rships (loc_do l get_st)).
Definition get_valid_node_version (l : loc) (xid : Z) : M st oref :=
  t ← node_at l; r ← on_fst (on_nodes (loc_do l (get_valid_version xid)));
  mret (node_id_ (body_ (main_ t)), r).
Definition get_valid_rship_version (l : loc) (xid : Z) : M st oref :=
  t ← rship_at l; r ← on_fst (on_rships (loc_do l (get_valid_version xid)));
  mret (rship_id_ (body_ (main_ t)), r).

(** ** Scans *)
Definition nodes (consumer : node_consumer) : M st unit :=
  txid ← scan_txid;
  for_vec nodes_ (λ l,
    t ← node_at l;
    when (is_valid (main_ t))
      (try_catch (nv ← get_valid_node_version l txid; consumer nv) unknown_id (mret tt))).

Definition nodes_by_label (label : str) (consumer : node_consumer) : M st unit :=
  txid ← scan_txid;
  lc ← on_fst (get_code label);
  for_vec nodes_ (λ l,
    t ← node_at l;
    when (is_valid (main_ t))
      (nv ← get_valid_node_version l txid;
       o ← on_fst (node_ref nv);
       when (bool_decide (node_label (body_ o) = lc)) (consumer nv))).

(** For several labels: the first label that fits ends the inner loop. *)
Definition nodes_by_labels (labels : list str) (consumer : node_consumer) : M st unit :=
  txid ← scan_txid;
  s ← get_st;
  let codes := d_lookup_string (dict_ s.1) <$> labels in
  for_vec nodes_ (λ l,
    t ← node_at l;
    when (is_valid (main_ t))
      (nv ← get_valid_node_version l txid;
       o ← on_fst (node_ref nv);
       when (existsb (λ lc, bool_decide (node_label (body_ o) = lc)) codes) (consumer nv))).

Definition relationships_by_labels (labels : list str) (consumer : rship_consumer) : M st unit :=
  txid ← scan_txid;
  s ← get_st;
  let codes := d_lookup_string (dict_ s.1) <$> labels in
  for_vec rships_ (λ l,
    t ← rship_at l;
    when (is_valid (main_ t))
      (rv ← get_valid_rship_version l txid;
       o ← on_fst (rship_ref rv);
       when (existsb (λ lc, bool_decide (rship_label (body_ o) = lc)) codes) (consumer rv))).

(** For one label, without the check of [is_valid]. *)
Definition relationships_by_label (label : str) (consumer : rship_consumer) : M st unit :=
  txid ← scan_txid;
  lc ← on_fst (get_code label);
  for_vec rships_ (λ l,
    rv ← get_valid_rship_version l txid;
    o ← on_fst (rship_ref rv);
    when (bool_decide (rship_label (body_ o) = lc)) (consumer rv)).

(** *** Nodes with a property

    [property_list::foreach]: the calls of [f] get the owner of each record with
    an item that satisfies the predicate, once per item. *)
Definition nprops_at (l : loc) : M st property_set := λ s,
  match vec_read (node_properties_ s.1) l with
  | Some p => (s, Val p)
  | None => (s, Exn undefined_behaviour)
  end.
Definition foreach_item (pkey : Z) (pred : p_item → res bool) (f : Z → M st unit) (l : loc) (i : nat) : M st unit :=
  p ← nprops_at l;
  match items p !! i with
  | None => throw undefined_behaviour
  | Some item =>
    b ← lift_res (if bool_decide (key_ item = pkey) then pred item else Val false);
    when b (f (owner p))
  end.
Definition foreach (pkey : Z) (pred : p_item → res bool) (f : Z → M st unit) : M st unit :=
  for_vec node_properties_ (λ l, p ← nprops_at l; for_each (foreach_item pkey pred f l) (seq 0 (length (items p)))).
Definition nodes_where (pkey : str) (pred : p_item → res bool) (consumer : node_consumer) : M st unit :=
  pc ← on_fst (get_code pkey);
  foreach pc pred (λ nid, n ← on_fst (node_by_id nid); consumer n).

(** ** The relationships of a node

    [next] is [next_src_rship] for the outgoing relationships and
    [next_dest_rship] for the incoming ones; it is read after the consumer. *)
Fixpoint rship_loop (next : relationship → Z) (test : obj relationship → bool) (consumer : rship_consumer)
    (fuel : nat) (relship_id : Z) : M st unit :=
  match fuel with
  | O => throw no_return
  | S f =>
    if bool_decide (relship_id = UNKNOWN) then mret tt
    else
      relship ← on_fst (rship_by_id relship_id);
      o ← on_fst (rship_ref relship);
      when (test o) (consumer relship);;
      o ← on_fst (rship_ref relship);
      rship_loop next test consumer f (next (body_ o))
  end.
Definition has_rlabel (lcode : Z) (o : obj relationship) : bool := bool_decide (rship_label (body_ o) = lcode).

Definition foreach_from_relationship_of_node (n : node) (consumer : rship_consumer) : M st unit :=
  f ← on_fst list_fuel; rship_loop next_src_rship is_valid consumer f (from_rship_list n).
Definition foreach_to_relationship_of_node (n : node) (consumer : rship_consumer) : M st unit :=
  f ← on_fst list_fuel; rship_loop next_dest_rship is_valid consumer f (to_rship_list n).
Definition foreach_from_relationship_of_node_code (n : node) (lcode : Z) (consumer : rship_consumer) : M st unit :=
  f ← on_fst list_fuel; rship_loop next_src_rship (has_rlabel lcode) consumer f (from_rship_list n).
Definition foreach_to_relationship_of_node_code (n : node) (lcode : Z) (consumer : rship_consumer) : M st unit :=
  f ← on_fst list_fuel; rship_loop next_dest_rship (has_rlabel lcode) consumer f (to_rship_list n).
Definition foreach_from_relationship_of_node_label (n : node) (label : str) (consumer : rship_consumer) : M st unit :=
  lc ← on_fst (get_code label); foreach_from_relationship_of_node_code n lc consumer.
Definition foreach_to_relationship_of_node_label (n : node) (label : str) (consumer : rship_consumer) : M st unit :=
  lc ← on_fst (get_code label); foreach_to_relationship_of_node_code n lc consumer.

(** ** Traversals with a number of hops

    The queue holds relationships with their number of hops.  [next] and [head]
    are [next_src_rship] and [from_rship_list] with the other end [dest_node],
    or [next_dest_rship] and [to_rship_list] with [src_node]. *)
Section variable.
Variables (next other : relationship → Z) (head : node → Z).

(** The fields are read from the references when they are used. *)
Definition rship_field (f : relationship → Z) (r : oref) : M st Z :=
  o ← on_fst (rship_ref r); mret (f (body_ o)).
Definition node_field (f : node → Z) (n : oref) : M st Z :=
  o ← on_fst (node_ref n); mret (f (body_ o)).
Definition next_of_rship (id : Z) : M st Z := r ← on_fst (rship_by_id id); rship_field next r.

Fixpoint variable_loop (min max : Z) (consumer : rship_consumer) (fuel : nat) (rship_queue : list (Z * Z)) : M st unit :=
  match rship_queue with
  | [] => mret tt
  | (relship_id, hops) :: queue =>
    match fuel with
    | O => throw no_return
    | S f =>
      if bool_decide (relship_id = UNKNOWN ∨ hops > max) then variable_loop min max consumer f queue
      else
        relship ← on_fst (rship_by_id relship_id);
        when (bool_decide (min ≤ hops)) (consumer relship);;
        nx ← rship_field next relship;
        e ← rship_field other relship;
        dest ← on_fst (node_by_id e);
        first ← node_field head dest;
        variable_loop min max consumer f (queue ++ [(nx, hops); (first, hops + 1)])
    end
  end.

(** [while (id != UNKNOWN) { count++; id = rship_by_id(id).next; }] *)
Fixpoint count_rships (fuel : nat) (count id : Z) : M st Z :=
  match fuel with
  | O => throw no_return
  | S f => if bool_decide (id = UNKNOWN) then mret count else nx ← next_of_rship id; count_rships f (count + 1) nx
  end.
(** [while (id != UNKNOWN) { id = rship_by_id(id).next; queue.push_back({id, hops}); }] *)
Fixpoint push_rships (fuel : nat) (hops id : Z) (queue : list (Z * Z)) : M st (list (Z * Z)) :=
  match fuel with
  | O => throw no_return
  | S f => if bool_decide (id = UNKNOWN) then mret queue
           else nx ← next_of_rship id; push_rships f hops nx (queue ++ [(nx, hops)])
  end.

(** The state of the traversal for one label: the queue, the relationships
    delivered, and the three variables with which it looks for further
    candidates when the queue has run empty. *)
Record search : Type := mk_search {
  rship_queue_ : list (Z * Z);
  rship_set_ : list Z;
  n_hop_rship_cnt : Z;
  mr_n_hop : Z;
  mr_n_hop_rship_id : Z
}.

(** One round of the loop; [q] is the queue without its first entry. *)
Definition labelled_step (lf : nat) (lcode min max : Z) (consumer : rship_consumer)
    (relship_id hops : Z) (q : list (Z * Z)) (s : search) : M st search :=
  let here := bool_decide (hops = mr_n_hop s) in
  let mr_id := if here then relship_id else mr_n_hop_rship_id s in
  let cnt := if here then n_hop_rship_cnt s - 1 else n_hop_rship_cnt s in
  let continue_with queue set := mk_search queue set cnt (mr_n_hop s) mr_id in
  if bool_decide (relship_id = UNKNOWN ∨ hops > max) then mret (continue_with q (rship_set_ s))
  else
    relship ← on_fst (rship_by_id relship_id);
    label ← rship_field rship_label relship;
    if bool_decide (q = []) && bool_decide (label ≠ lcode) then
      if bool_decide (cnt > 0) then
        nx ← next_of_rship mr_id;
        mret (mk_search [(nx, mr_n_hop s)] (rship_set_ s) cnt (mr_n_hop s) nx)
      else
        nx ← rship_field next relship;
        if bool_decide (nx ≠ UNKNOWN) then
          cnt' ← count_rships lf 0 nx;
          mret (mk_search [(nx, hops)] (rship_set_ s) cnt' hops nx)
        else mret (continue_with q (rship_set_ s))
    else if bool_decide (label ≠ lcode) then mret (continue_with q (rship_set_ s))
    else
      rid ← rship_field rship_id_ relship;
      if bool_decide (min ≤ hops ∧ rid ∈ rship_set_ s) then mret (continue_with q (rship_set_ s))
      else
        when (bool_decide (min ≤ hops)) (consumer relship);;
        let set := if bool_decide (min ≤ hops) then rid :: rship_set_ s else rship_set_ s in
        nx ← rship_field next relship;
        e ← rship_field other relship;
        dest ← on_fst (node_by_id e);
        first ← node_field head dest;
        queue ← push_rships lf (hops + 1) first (q ++ [(nx, hops); (first, hops + 1)]);
        mret (continue_with queue set).

Fixpoint labelled_loop (lf : nat) (lcode min max : Z) (consumer : rship_consumer) (fuel : nat) (s : search) : M st unit :=
  match rship_queue_ s with
  | [] => mret tt
  | (relship_id, hops) :: q =>
    match fuel with
    | O => throw no_return
    | S f => s' ← labelled_step lf lcode min max consumer relship_id hops q s;
             labelled_loop lf lcode min max consumer f s'
    end
  end.

Definition foreach_labelled (fuel : nat) (n : node) (lcode min max : Z) (consumer : rship_consumer) : M st unit :=
  lf ← on_fst list_fuel;
  cnt ← count_rships lf 0 (head n);
  labelled_loop lf lcode min max consumer fuel (mk_search [(head n, 1)] [] cnt 1 (head n)).
End variable.

Definition foreach_variable_from_relationship_of_node (fuel : nat) (n : node) (min max : Z)
    (consumer : rship_consumer) : M st unit :=
  variable_loop next_src_rship dest_node from_rship_list min max consumer fuel [(from_rship_list n, 1)].
Definition foreach_variable_to_relationship_of_node (fuel : nat) (n : node) (min max : Z)
    (consumer : rship_consumer) : M st unit :=
  variable_loop next_dest_rship src_node to_rship_list min max consumer fuel [(to_rship_list n, 1)].
Definition foreach_variable_from_relationship_of_node_code (fuel : nat) (n : node) (lcode min max : Z)
    (consumer : rship_consumer) : M st unit :=
  foreach_labelled next_src_rship dest_node from_rship_list fuel n lcode min max consumer.
Definition foreach_variable_to_relationship_of_node_code (fuel : nat) (n : node) (lcode min max : Z)
    (consumer : rship_consumer) : M st unit :=
  foreach_labelled next_dest_rship src_node to_rship_list fuel n lcode min max consumer.
End consumers.

(** ** Properties of nodes and relationships *)
Definition is_node_property (n : node) (pcode : Z) (pred : p_item → res bool) : M db bool :=
  val ← get_node_property_value n pcode;
  if is_empty val then mret false else lift_res (pred val).
Definition is_node_property_key (n : node) (pkey : str) (pred : p_item → res bool) : M db bool :=
  pc ← get_code pkey; is_node_property n pc pred.
(** The id of the relationship is taken for the offset of its properties. *)
Definition is_relationship_property (r : relationship) (pcode : Z) (pred : p_item → res bool) : M db bool :=
  g ← get_st;
  val ← lift_res (property_value (rship_properties_ g) (rship_id_ r) pcode);
  if is_empty val then mret false else lift_res (pred val).
Definition is_relationship_property_key (r : relationship) (pkey : str) (pred : p_item → res bool) : M db bool :=
  pc ← get_code pkey; is_relationship_property r pc pred.

(** [for (auto& pi : dn->properties_) if (pi.key() == pcode) ...] *)
Definition item_of (pcode : Z) (l : pitems) : option p_item := snd <$> list_find (λ it, key_ it = pcode) l.

(** [p_item res;] leaves the members uninitialised. *)
Definition get_valid_node_property_value (uninit : p_item) (n : oref) (pcode : Z) : M db p_item :=
  t ← at_node n.1 get_st;
  o ← node_ref n;
  if negb (has_dirty_versions t o) then get_node_property_value (body_ o) pcode
  else
    xid ← tx_xid;
    dn ← lift_res (find_valid_version t o xid);
    mret (default uninit (item_of pcode (properties_ dn))).
Definition get_valid_rship_property_value (uninit : p_item) (r : oref) (pcode : Z) : M db p_item :=
  t ← at_rship r.1 get_st;
  o ← rship_ref r;
  if negb (has_dirty_versions t o) then get_rship_property_value (body_ o) pcode
  else
    xid ← tx_xid;
    dr ← lift_res (find_valid_version t o xid);
    mret (default uninit (item_of pcode (properties_ dr))).
End query.

(** ** Scans by several threads (src/query/interp/query_ctx.cpp)

    [parallel_nodes] and [parallel_relationships] hand ranges of chunks to a pool
    of threads while the threads already work on the first ones, and then wait
    for the tasks in the order in which they were handed over.  A schedule is a
    list of steps: [None], the calling thread hands over the next range;
    [Some i], the thread with task [i] does one round of its loop.  A round (the
    test of the record, the search for the version and the call of the
    consumer) is one step: consumers that share state have to synchronise
    themselves.  The pool of src/query/utils/thread_pool.hpp takes tasks in the
    order they were handed over; schedules allow any order. *)

(** defs.hpp *)
Definition CHUNKS_PER_THREAD : nat := 50.

Section parallel.
Context {V : Type → Type} `{!Vec V} `{!VecScan V} {D : Type} `{!Dictionary D} {X : Type} `{!Indexes X}.
Notation db := (gdb V D X).
Context {T A : Type}.
Notation st := (db * A)%type.

(** A task: not begun, in its loop, at its end, or ended by an exception (which
    its future keeps). *)
Inductive scan_task : Type :=
  | task_waiting (first last : nat)
  | task_running (it : rng V)
  | task_done
  | task_failed (e : exn).

(** The threads and the calling thread's loop; [start] is the next range. *)
Record pool : Type := mk_pool {
  tasks : list scan_task;
  start : nat
}.

Section tasks.
Variables (table : db → V T) (body : loc → M st unit).

(** One round: construct the iterator, or [if (iter) { body; ++iter; }]. *)
Definition task_step (t : scan_task) : M st scan_task := λ s,
  match t with
  | task_waiting first last =>
    match vec_range (table s.1) first last with
    | Val it => (s, Val (task_running it))
    | Exn e => (s, Val (task_failed e))
    end
  | task_running it =>
    if rng_valid it then
      match body (rng_loc it) s with
      | (s', Val _) =>
        match rng_incr (table s'.1) it with
        | Val it' => (s', Val (task_running it'))
        | Exn e => (s', Val (task_failed e))
        end
      | (s', Exn e) => (s', Val (task_failed e))
      end
    else (s, Val task_done)
  | _ => (s, Val t)
  end.

(** [res.push_back(pool.submit(task(start, end))); start = end + 1; end += nchunks;] *)
Definition submit (s : st) (p : pool) : pool :=
  if (start p <? vec_chunks (table s.1))%nat
  then mk_pool (tasks p ++ [task_waiting (start p) (start p + CHUNKS_PER_THREAD - 1)]) (start p + CHUNKS_PER_THREAD)
  else p.

Definition pool_step (choice : option nat) (sp : st * pool) : st * pool :=
  let '(s, p) := sp in
  match choice with
  | None => (s, submit s p)
  | Some i =>
    match tasks p !! i with
    | None => (s, p)
    | Some t =>
      match task_step t s with
      | (s', Val t') => (s', mk_pool (<[i := t']> (tasks p)) (start p))
      | (s', Exn e) => (s', mk_pool (<[i := task_failed e]> (tasks p)) (start p))
      end
    end
  end.
Fixpoint pool_run (schedule : list (option nat)) (sp : st * pool) : st * pool :=
  match schedule with
  | [] => sp
  | c :: schedule' => pool_run schedule' (pool_step c sp)
  end.

(** [for (auto &f : res) f.get();]: [None] while it has to wait. *)
Fixpoint get_all (l : list scan_task) : option (res unit) :=
  match l with
  | [] => Some (Val tt)
  | task_done :: l' => get_all l'
  | task_failed e :: _ => Some (Exn e)
  | _ => None
  end.
(** The end of a scan under a schedule; [None]: the schedule is too short. *)
Definition pool_result (sp : st * pool) : option (res unit) :=
  if (start sp.2 <? vec_chunks (table sp.1.1))%nat then None else get_all (tasks sp.2).
Definition parallel (schedule : list (option nat)) (s : st) : st * option (res unit) :=
  let sp := pool_run schedule (s, mk_pool [] 0) in (sp.1, pool_result sp).
End tasks.
End parallel.

Section scans.
Context {V : Type → Type} `{!Vec V} `{!VecScan V} {D : Type} `{!Dictionary D} {X : Type} `{!Indexes X}.
Notation db := (gdb V D X).
Context {A : Type}.
Notation st := (db * A)%type.
Notation consumer_t := (oref → M st unit).

(** The bodies of [node_scan_task::scan] and its three relatives; the
    transaction is the one of the calling thread. *)
Definition node_scan (xid : Z) (consumer : consumer_t) (l : loc) : M st unit :=
  t ← node_at l;
  when (is_valid (main_ t)) (nv ← get_valid_node_version l xid; consumer nv).
Definition node_scan_with_label (xid label : Z) (consumer : consumer_t) (l : loc) : M st unit :=
  t ← node_at l;
  when (is_valid (main_ t))
    (nv ← get_valid_node_version l xid;
     o ← on_fst (node_ref nv);
     when (bool_decide (node_label (body_ o) = label)) (consumer nv)).
Definition rship_scan (xid : Z) (consumer : consumer_t) (l : loc) : M st unit :=
  t ← rship_at l;
  when (is_valid (main_ t)) (rv ← get_valid_rship_version l xid; consumer rv).
Definition rship_scan_with_label (xid label : Z) (consumer : consumer_t) (l : loc) : M st unit :=
  t ← rship_at l;
  when (is_valid (main_ t))
    (rv ← get_valid_rship_version l xid;
     o ← on_fst (rship_ref rv);
     when (bool_decide (rship_label (body_ o) = label)) (consumer rv)).

(** Waiting for ever, when the schedule is too short, is [no_return]. *)
Definition waits {T} (table : db → V T) (body : loc → M st unit) (schedule : list (option nat)) : M st unit := λ s,
  match parallel table body schedule s with
  | (s', Some r) => (s', r)
  | (s', None) => (s', Exn no_return)
  end.
Definition parallel_nodes (schedule : list (option nat)) (consumer : consumer_t) : M st unit :=
  xid ← scan_txid; waits nodes_ (node_scan xid consumer) schedule.
Definition parallel_nodes_with_label (schedule : list (option nat)) (label : str) (consumer : consumer_t) : M st unit :=
  xid ← scan_txid; lc ← on_fst (get_code label); waits nodes_ (node_scan_with_label xid lc consumer) schedule.
Definition parallel_relationships (schedule : list (option nat)) (consumer : consumer_t) : M st unit :=
  xid ← scan_txid; waits rships_ (rship_scan xid consumer) schedule.
Definition parallel_relationships_with_label (schedule : list (option nat)) (label : str) (consumer : consumer_t) : M st unit :=
  xid ← scan_txid; lc ← on_fst (get_code label); waits rships_ (rship_scan_with_label xid lc consumer) schedule.
End scans.
