(* ===== verification/Bfs.v ===== *)
(** * Bfs: breadth-first search (src/analytics/bfs.cpp)

    The searches run over the database, the state of the caller's functions
    and their own variables, which the consumers of the traversals capture.
    Reading a bit or an element behind the end of a vector is undefined.  The
    outer loop has its fuel from outside; [BfsFacts] says how much is enough. *)

From S2P Require Import Prelude VecSpec DictSpec IndexSpec Literals Property PropertyList Txn Mvto GraphState GraphOps QueryCtx.

(** [boost::dynamic_bitset], [std::vector] of machine words *)
Definition test_bit (bits : list bool) (i : Z) : res bool :=
  match bits !! Z.to_nat i with
  | Some b => if bool_decide (0 ≤ i) then Val b else Exn undefined_behaviour
  | None => Exn undefined_behaviour
  end.
Definition set_bit (bits : list bool) (i : Z) : res (list bool) :=
  if bool_decide (0 ≤ i < Z.of_nat (length bits)) then Val (<[Z.to_nat i := true]> bits) else Exn undefined_behaviour.

(** [using path = std::vector<offset_t>] *)
Notation path := (list Z) (only parsing).

Section search.
Context {V : Type → Type} `{!Vec V} {D : Type} `{!Dictionary D} {X : Type} `{!Indexes X}.
Notation db := (gdb V D X).
Context {A : Type}.
Notation user_st := (db * A)%type.

(** ** The caller's functions and the variables of a search *)
Section variables.
Context {S : Type}.
Notation st := (db * (A * S))%type.
Definition user {B} (m : M user_st B) : M st B := λ s,
  let '((g, a), r) := m (s.1, s.2.1) in ((g, (a, s.2.2)), r).
Definition vars : M st S := λ s, (s, Val s.2.2).
Definition set_vars (x : S) : M st unit := λ s, ((s.1, (s.2.1, x)), Val tt).
End variables.

(** [ctx.gdb_->get_nodes()->as_vec().capacity()] *)
Definition num_nodes (g : db) : nat := Z.to_nat (vec_capacity (nodes_ g)).

(** Following the relationships of a node; the second call is made for both
    directions only. *)
Definition follow {S} (both : bool) (n : oref) (out : oref → M (db * (A * S)) unit) (inc : oref → M (db * (A * S)) unit)
    : M (db * (A * S)) unit :=
  o ← on_fst (node_ref n);
  foreach_from_relationship_of_node (body_ o) out;;
  if both then o ← on_fst (node_ref n); foreach_to_relationship_of_node (body_ o) inc else mret tt.

(** ** [bfs] *)
Record bfs_vars : Type := mk_bfs { frontier : list Z; visited : list bool }.
Notation bfs_st := (db * (A * bfs_vars))%type.

Section bfs.
Variables (unidirectional : bool) (rpred : oref → M user_st bool) (visit : oref → M user_st unit).

Definition bfs_push (field : relationship → Z) (r : oref) : M bfs_st unit :=
  b ← user (rpred r);
  if b : bool then
    id ← rship_field field r;
    x ← vars; set_vars (mk_bfs (frontier x ++ [id]) (visited x))
  else mret tt.
Fixpoint bfs_loop (fuel : nat) : M bfs_st unit :=
  x ← vars;
  match frontier x with
  | [] => mret tt
  | v :: rest =>
    match fuel with
    | O => throw no_return
    | S f =>
      set_vars (mk_bfs rest (visited x));;
      b ← lift_res (test_bit (visited x) v);
      if b : bool then bfs_loop f
      else
        bits ← lift_res (set_bit (visited x) v);
        set_vars (mk_bfs rest bits);;
        n ← on_fst (node_by_id v);
        user (visit n);;
        follow unidirectional n (bfs_push dest_node) (bfs_push src_node);;
        bfs_loop f
    end
  end.
End bfs.
Definition bfs (fuel : nat) (start : Z) (unidirectional : bool) (rpred : oref → M user_st bool)
    (visit : oref → M user_st unit) : M user_st unit := λ s,
  let '((g, (a, _)), r) :=
    bfs_loop unidirectional rpred visit fuel (s.1, (s.2, mk_bfs [start] (replicate (num_nodes s.1) false))) in
  ((g, a), r).

(** ** [path_bfs] *)
Record path_vars : Type := mk_path_vars { paths : list path; pvisited : list bool }.
Notation path_st := (db * (A * path_vars))%type.

Section path_bfs.
Variables (unidirectional : bool) (rpred : oref → M user_st bool) (visit : oref → path → M user_st unit).

Definition path_push (field : relationship → Z) (v : path) (r : oref) : M path_st unit :=
  b ← user (rpred r);
  if b : bool then
    id ← rship_field field r;
    x ← vars; set_vars (mk_path_vars (paths x ++ [v ++ [id]]) (pvisited x))
  else mret tt.
Fixpoint path_bfs_loop (fuel : nat) : M path_st unit :=
  x ← vars;
  match paths x with
  | [] => mret tt
  | v :: rest =>
    match fuel with
    | O => throw no_return
    | S f =>
      vid ← lift_res (back v);
      set_vars (mk_path_vars rest (pvisited x));;
      b ← lift_res (test_bit (pvisited x) vid);
      if b : bool then path_bfs_loop f
      else
        bits ← lift_res (set_bit (pvisited x) vid);
        set_vars (mk_path_vars rest bits);;
        n ← on_fst (node_by_id vid);
        user (visit n v);;
        follow unidirectional n (path_push dest_node v) (path_push src_node v);;
        path_bfs_loop f
    end
  end.
End path_bfs.
Definition path_bfs (fuel : nat) (start : Z) (unidirectional : bool) (rpred : oref → M user_st bool)
    (visit : oref → path → M user_st unit) : M user_st unit := λ s,
  let '((g, (a, _)), r) :=
    path_bfs_loop unidirectional rpred visit fuel (s.1, (s.2, mk_path_vars [[start]] (replicate (num_nodes s.1) false))) in
  ((g, a), r).
End search.
