(* ===== verification/ShortestPath.v ===== *)
(** * ShortestPath: searches for shortest paths (src/analytics/shortest_path.cpp)

    Unweighted searches go breadth first; weighted ones choose the open node
    with the least weight; the search for the first k paths deletes and adds
    relationships while it runs.  Weights are doubles with the rounding of the
    standard. *)


From Stdlib Require Import SpecFloat.
From S2P Require Import Prelude VecSpec Txn Mvto DictSpec IndexSpec Literals Property PropertyList GraphState GraphOps QueryCtx Bfs.

(** [std::vector]: writing an element. *)
Definition put_elem {B} (l : list B) (i : Z) (x : B) : res (list B) :=
  if bool_decide (0 ≤ i < Z.of_nat (length l)) then Val (<[Z.to_nat i := x]> l) else Exn undefined_behaviour.

Notation double := spec_float.
Definition zero_weight : double := S754_zero false.
(** [std::numeric_limits<double>::max()] *)
Definition UNKNOWN_WEIGHT : double := S754_finite false (2 ^ 53 - 1) 971.
Definition add_weight (a b : double) : double := SFadd 53 1024 a b.

Record path_item : Type := mk_path_item { path_ : path; hops_ : Z; weight_ : double }.
Definition new_path_item : path_item := mk_path_item [] 0 zero_weight.
Definition set_path (p : path) (it : path_item) : path_item := mk_path_item p (hops_ it) (weight_ it).
Definition set_hops (h : Z) (it : path_item) : path_item := mk_path_item (path_ it) h (weight_ it).
Definition set_weight (w : double) (it : path_item) : path_item := mk_path_item (path_ it) (hops_ it) w.

(** The ids from the root of the tree of parents to [v]. *)
Fixpoint trace (fuel : nat) (parent : list Z) (v : Z) : res path :=
  match fuel with
  | O => Exn no_return
  | S f =>
    p ← elem parent v;
    if bool_decide (p = UNKNOWN) then Val [v] else l ← trace f parent p; Val (l ++ [v])
  end.
Definition trace_path (parent : list Z) (v : Z) (it : path_item) : res path_item :=
  l ← trace (S (length parent)) parent v; Val (set_path (path_ it ++ l) it).

Section shortest.
Context {V : Type → Type} `{!Vec V} {D : Type} `{!Dictionary D} {X : Type} `{!Indexes X}.
Notation db := (gdb V D X).
Context {A : Type}.
Notation user_st := (db * A)%type.

(** A search with variables of its own. *)
Definition run_search {S B} (x : S) (m : M (db * (A * S)) B) : M user_st (B * S) := λ s,
  let '((g, (a, x')), r) := m (s.1, (s.2, x)) in ((g, a), b ← r; Val (b, x')).

(** ** Without weights *)
Record uw_vars : Type := mk_uw {
  uw_frontier : list path;
  uw_visited : list bool;
  distance : list Z;
  uw_found : bool;
  uw_spath : path_item;
  uw_spaths : list path_item
}.
Notation uw_st := (db * (A * uw_vars))%type.

Section unweighted.
Variables (stop : Z) (bidirectional : bool) (rpred : oref → M user_st bool) (visit : oref → path → M user_st unit).
(** [all]: the search for all shortest paths *)
Variable all : bool.

(** [!visited[vid]], or also [vid == stop && distance[uid] < distance[stop]] *)
Definition uw_takes (x : uw_vars) (uid vid : Z) : res bool :=
  b ← test_bit (uw_visited x) vid;
  if negb b then Val true
  else if all && bool_decide (vid = stop) then
    du ← elem (distance x) uid; ds ← elem (distance x) stop; Val (bool_decide (du < ds))
  else Val false.
Definition uw_take (x : uw_vars) (u : path) (uid vid : Z) : res uw_vars :=
  bits ← set_bit (uw_visited x) vid;
  du ← elem (distance x) uid;
  dist ← put_elem (distance x) vid (u64 (du + 1));
  let u2 := u ++ [vid] in
  if bool_decide (vid = stop) then
    dv ← elem dist vid;
    if all then Val (mk_uw (uw_frontier x ++ [u2]) bits dist true (uw_spath x)
                       (uw_spaths x ++ [set_hops dv (set_path u2 new_path_item)]))
    else Val (mk_uw (uw_frontier x ++ [u2]) bits dist true (set_hops dv (set_path u2 (uw_spath x))) (uw_spaths x))
  else Val (mk_uw (uw_frontier x ++ [u2]) bits dist (uw_found x) (uw_spath x) (uw_spaths x)).
Definition uw_push (field : relationship → Z) (u : path) (uid : Z) (r : oref) : M uw_st unit :=
  vid ← rship_field field r;
  b ← user (rpred r);
  if b : bool then
    x ← vars;
    t ← lift_res (uw_takes x uid vid);
    if t : bool then x' ← lift_res (uw_take x u uid vid); set_vars x' else mret tt
  else mret tt.

Fixpoint uw_loop (fuel : nat) : M uw_st bool :=
  x ← vars;
  match uw_frontier x with
  | [] => mret (all && uw_found x)
  | u :: rest =>
    match fuel with
    | O => throw no_return
    | S f =>
      uid ← lift_res (back u);
      set_vars (mk_uw rest (uw_visited x) (distance x) (uw_found x) (uw_spath x) (uw_spaths x));;
      n ← on_fst (node_by_id uid);
      user (visit n u);;
      follow bidirectional n (uw_push dest_node u uid) (uw_push src_node u uid);;
      x ← vars;
      if negb all && uw_found x then mret true else uw_loop f
    end
  end.
Definition uw_start (g : db) (start : Z) (spath : path_item) (spaths : list path_item) : res uw_vars :=
  dist ← put_elem (replicate (num_nodes g) UNKNOWN) start 0;
  bits ← set_bit (replicate (num_nodes g) false) start;
  Val (mk_uw [[start]] bits dist false spath spaths).
End unweighted.

Definition unweighted_shortest_path (fuel : nat) (start stop : Z) (bidirectional : bool) (rpred : oref → M user_st bool)
    (visit : oref → path → M user_st unit) (spath : path_item) : M user_st (bool * path_item) :=
  s ← get_st;
  x ← lift_res (uw_start s.1 start spath []);
  r ← run_search x (uw_loop stop bidirectional rpred visit false fuel);
  mret (r.1, uw_spath r.2).
Definition all_unweighted_shortest_paths (fuel : nat) (start stop : Z) (bidirectional : bool)
    (rpred : oref → M user_st bool) (visit : oref → path → M user_st unit) (spaths : list path_item)
    : M user_st (bool * list path_item) :=
  s ← get_st;
  x ← lift_res (uw_start s.1 start new_path_item spaths);
  r ← run_search x (uw_loop stop bidirectional rpred visit true fuel);
  mret (r.1, uw_spaths r.2).

(** ** With weights *)
Record w_vars : Type := mk_w {
  w_visited : list bool;
  parent : list Z;
  weight : list double;
  w_found : bool;
  w_spath : path_item;
  w_spaths : list path_item
}.
Notation w_st := (db * (A * w_vars))%type.

(** The open node with the least weight below the best one so far. *)
Fixpoint min_node (visited : list bool) (weight : list double) (nid : Z) (best : Z * double) : Z * double :=
  match visited, weight with
  | b :: visited', w :: weight' =>
    min_node visited' weight' (nid + 1) (if negb b && SFltb w best.2 then (nid, w) else best)
  | _, _ => best
  end.

Section weighted.
Variables (stop : Z) (bidirectional : bool) (rpred : oref → M user_st bool) (weight_func : oref → M user_st double).
Variable all : bool.

Definition relax (x : w_vars) (min_nid vid : Z) (v_weight : double) : res w_vars :=
  b ← test_bit (w_visited x) vid;
  wm ← elem (weight x) min_nid;
  wv ← elem (weight x) vid;
  let sum := add_weight wm v_weight in
  if negb b && SFltb sum wv then
    weight' ← put_elem (weight x) vid sum;
    parent' ← put_elem (parent x) vid min_nid;
    Val (mk_w (w_visited x) parent' weight' (w_found x) (w_spath x) (w_spaths x))
  else if all && bool_decide (vid = stop) && SFeqb sum wv then
    it ← trace_path (parent x) stop new_path_item;
    Val (mk_w (w_visited x) (parent x) (weight x) (w_found x) (w_spath x) (w_spaths x ++ [set_weight wv it]))
  else Val x.
Definition w_push (field : relationship → Z) (min_nid : Z) (r : oref) : M w_st unit :=
  vid ← rship_field field r;
  b ← user (rpred r);
  if b : bool then
    v_weight ← user (weight_func r);
    x ← vars; x' ← lift_res (relax x min_nid vid v_weight); set_vars x'
  else mret tt.

(** [stop] has been reached. *)
Definition w_reached (x : w_vars) : res w_vars :=
  it ← trace_path (parent x) stop (if all then new_path_item else w_spath x);
  w ← elem (weight x) stop;
  let it := set_weight w it in
  Val (if all then mk_w (w_visited x) (parent x) (weight x) true (w_spath x) (w_spaths x ++ [it])
       else mk_w (w_visited x) (parent x) (weight x) true it (w_spaths x)).
Definition w_visit (min_nid : Z) : M w_st unit :=
  x ← vars;
  bits ← lift_res (set_bit (w_visited x) min_nid);
  set_vars (mk_w bits (parent x) (weight x) (w_found x) (w_spath x) (w_spaths x));;
  n ← on_fst (node_by_id min_nid);
  follow bidirectional n (w_push dest_node min_nid) (w_push src_node min_nid).
Fixpoint w_loop (rounds : nat) : M w_st bool :=
  match rounds with
  | O => x ← vars; mret (all && w_found x)
  | S n =>
    x ← vars;
    let '(min_nid, min_weight) := min_node (w_visited x) (weight x) 0 (UNKNOWN, UNKNOWN_WEIGHT) in
    if bool_decide (min_nid = stop) then
      x' ← lift_res (w_reached x); set_vars x';;
      if all then w_visit min_nid;; w_loop n else mret true
    else if SFeqb min_weight UNKNOWN_WEIGHT then mret (all && w_found x)
    else w_visit min_nid;; w_loop n
  end.
Definition w_start (g : db) (start : Z) (spath : path_item) (spaths : list path_item) : res w_vars :=
  weight' ← put_elem (replicate (num_nodes g) UNKNOWN_WEIGHT) start zero_weight;
  parent' ← put_elem (replicate (num_nodes g) (UNKNOWN - 1)) start UNKNOWN;
  Val (mk_w (replicate (num_nodes g) false) parent' weight' false spath spaths).
End weighted.

(** The function that visits nodes is a parameter that is not called. *)
Definition weighted_shortest_path (start stop : Z) (bidirectional : bool) (rpred : oref → M user_st bool)
    (weight_func : oref → M user_st double) (spath : path_item) : M user_st (bool * path_item) :=
  s ← get_st;
  x ← lift_res (w_start s.1 start spath []);
  r ← run_search x (w_loop stop bidirectional rpred weight_func false (num_nodes s.1));
  mret (r.1, w_spath r.2).
Definition all_weighted_shortest_paths (start stop : Z) (bidirectional : bool) (rpred : oref → M user_st bool)
    (weight_func : oref → M user_st double) (spaths : list path_item) : M user_st (bool * list path_item) :=
  s ← get_st;
  x ← lift_res (w_start s.1 start new_path_item spaths);
  r ← run_search x (w_loop stop bidirectional rpred weight_func true (num_nodes s.1));
  mret (r.1, w_spaths r.2).
End shortest.

(** ** The first k paths (src/analytics/shortest_path.cpp)

    [k_weighted_shortest_path] deletes relationships of the paths found so far,
    searches again, and adds them anew.  Its inner search and its deletions go
    over the main objects of the relationship table. *)

Section kpaths.
Context {V : Type → Type} `{!Vec V} {D : Type} `{!Dictionary D} {X : Type} `{!Indexes X}.
Variables (ptime_of_date time_from_string : str → res Z) (junk : Z).
Notation db := (gdb V D X).
Notation add_relationship := (add_relationship ptime_of_date time_from_string junk).

Section main.
Context {A : Type}.
Notation st := (db * A)%type.

(** Locked by this transaction with a version for it, or valid for it. *)
Definition counts (txid : Z) (t : robj) : res bool :=
  if is_locked_by (main_ t) txid then
    if has_dirty_versions t (main_ t) then Val (has_valid_version t (main_ t) txid) else Exn assertion_failed
  else Val (is_valid_for (main_ t) txid).
(** [while (rid != UNKNOWN) { auto &r = ...->get(rid); ...; rid = r.next; }] *)
Fixpoint main_loop (next : relationship → Z) (txid : Z) (consumer : oref → M st unit) (fuel : nat) (rid : Z) : M st unit :=
  match fuel with
  | O => throw no_return
  | S f =>
    if bool_decide (rid = UNKNOWN) then mret tt
    else
      t ← on_fst (at_rship rid get_st);
      b ← lift_res (counts txid t);
      when b (consumer (rid, Main));;
      t ← on_fst (at_rship rid get_st);
      main_loop next txid consumer f (next (body_ (main_ t)))
  end.
Definition main_follow (both : bool) (n : oref) (txid : Z) (out inc : oref → M st unit) : M st unit :=
  f ← on_fst list_fuel;
  o ← on_fst (node_ref n);
  main_loop next_src_rship txid out f (from_rship_list (body_ o));;
  if both then o ← on_fst (node_ref n); main_loop next_dest_rship txid inc f (to_rship_list (body_ o)) else mret tt.
End main.

Context {A : Type}.
Notation user_st := (db * A)%type.

(** ** The search that goes over main objects *)
Section del.
Notation d_st := (db * (A * w_vars))%type.
Variables (stop : Z) (bidirectional : bool) (rpred : oref → M user_st bool) (weight_func : oref → M user_st double).

(** The weight is computed before the predicate is asked. *)
Definition d_push (field : relationship → Z) (min_nid : Z) (r : oref) : M d_st unit :=
  vid ← rship_field field r;
  v_weight ← user (weight_func r);
  b ← user (rpred r);
  if b : bool then x ← vars; x' ← lift_res (relax stop false x min_nid vid v_weight); set_vars x' else mret tt.
Fixpoint d_loop (rounds : nat) (path_weight : double) : M d_st bool :=
  match rounds with
  | O => mret false
  | S n =>
    x ← vars;
    let '(min_nid, min_weight) := min_node (w_visited x) (weight x) 0 (UNKNOWN, UNKNOWN_WEIGHT) in
    if SFeqb min_weight UNKNOWN_WEIGHT then mret false
    else
      bits ← lift_res (set_bit (w_visited x) min_nid);
      let path_weight := add_weight path_weight min_weight in
      if bool_decide (min_nid = stop) then
        it ← lift_res (trace_path (parent x) stop (set_weight path_weight (w_spath x)));
        set_vars (mk_w bits (parent x) (weight x) true it (w_spaths x));;
        mret true
      else
        set_vars (mk_w bits (parent x) (weight x) (w_found x) (w_spath x) (w_spaths x));;
        txid ← on_fst tx_xid;
        nd ← on_fst (node_by_id min_nid);
        main_follow bidirectional nd txid (d_push dest_node min_nid) (d_push src_node min_nid);;
        d_loop n path_weight
  end.
End del.
Definition w_spath_with_del_rship (start stop : Z) (bidirectional : bool) (rpred : oref → M user_st bool)
    (weight_func : oref → M user_st double) (spath : path_item) : M user_st (bool * path_item) :=
  s ← get_st;
  x ← lift_res (w_start s.1 start spath []);
  r ← run_search x (d_loop stop bidirectional rpred weight_func (num_nodes s.1) zero_weight);
  mret (r.1, w_spath r.2).

(** ** Deviations *)
Section deviations.
Variables (stop : Z) (bidirectional : bool) (rpred : oref → M user_st bool) (weight_func : oref → M user_st double).
Notation del_st := (db * (A * list rship_description))%type.

Definition delete_to (field : relationship → Z) (des_nid : Z) (r : oref) : M del_st unit :=
  nid ← rship_field field r;
  if bool_decide (nid = des_nid) then
    d ← on_fst (get_rship_description r.1);
    l ← vars; set_vars (l ++ [d]);;
    on_fst (delete_relationship r.1)
  else mret tt.

(** [path(p.begin(), p.begin() + n)] *)
Definition prefix (p : path) (n : nat) : res path :=
  if bool_decide (n ≤ length p)%nat then Val (take n p) else Exn undefined_behaviour.
(** [p.at(i)] *)
Definition path_at (p : path) (i : nat) : res Z := match p !! i with Some v => Val v | None => Exn out_of_range_std end.

(** Delete the relationships with which the paths [ps] leave the root path. *)
Fixpoint delete_common (j : nat) (root_path : path) (ps : list path_item) : M del_st unit :=
  match ps with
  | [] => mret tt
  | p :: ps' =>
    compare_path ← lift_res (prefix (path_ p) (j + 1));
    (if bool_decide (compare_path = root_path) then
       src_nid ← lift_res (path_at (path_ p) j);
       des_nid ← lift_res (path_at (path_ p) (j + 1));
       src_node_ ← on_fst (node_by_id src_nid);
       txid ← on_fst tx_xid;
       main_follow bidirectional src_node_ txid (delete_to dest_node des_nid) (delete_to src_node des_nid)
     else mret tt);;
    delete_common j root_path ps'
  end.
Definition restore (d : rship_description) : M db unit :=
  _ ← add_relationship (rd_from d) (rd_to d) (rd_label d) (rd_properties d) true; mret tt.

(** One deviation of the previous path; [None]: no further path, and what was
    deleted stays deleted. *)
Definition deviate (prev_path : path) (spaths candidates : list path_item) (j : nat) : M user_st (option (list path_item)) :=
  spur_nid ← lift_res (path_at prev_path j);
  root_path ← lift_res (prefix prev_path (j + 1));
  del ← run_search [] (delete_common j root_path spaths);
  spur ← w_spath_with_del_rship spur_nid stop bidirectional rpred weight_func new_path_item;
  if negb spur.1 then mret None
  else
    let candidate_path := root_path ++ tail (path_ spur.2) in
    let candidates' :=
      if bool_decide (candidate_path ∈ path_ <$> candidates) then candidates
      else candidates ++ [set_path candidate_path new_path_item] in
    on_fst (for_each restore del.2);;
    mret (Some candidates').
Fixpoint deviations (prev_path : path) (spaths candidates : list path_item) (js : list nat)
    : M user_st (option (list path_item)) :=
  match js with
  | [] => mret (Some candidates)
  | j :: js' =>
    o ← deviate prev_path spaths candidates j;
    match o with None => mret None | Some c => deviations prev_path spaths c js' end
  end.

(** The first candidate with the least weight below the maximum, or the first
    one at all. *)
Fixpoint min_candidate (l : list path_item) (idx : nat) (best : nat * double) : nat :=
  match l with
  | [] => best.1
  | c :: l' => min_candidate l' (S idx) (if SFltb (weight_ c) best.2 then (idx, weight_ c) else best)
  end.

(** [n] more paths. *)
Fixpoint k_loop (n : nat) (spaths candidates : list path_item) : M user_st (bool * list path_item) :=
  match n with
  | O => mret (true, spaths)
  | S n' =>
    prev ← lift_res (match last spaths with Some it => Val it | None => Exn undefined_behaviour end);
    let prev_path := path_ prev in
    o ← (if bool_decide (2 < length prev_path)%nat
         then deviations prev_path spaths candidates (seq 0 (length prev_path - 2))
         else mret (Some candidates));
    match o with
    | None => mret (false, spaths)
    | Some [] => mret (false, spaths)
    | Some cs =>
      let i := min_candidate cs 0 (0%nat, UNKNOWN_WEIGHT) in
      c ← lift_res (match cs !! i with Some c => Val c | None => Exn out_of_range_std end);
      k_loop n' (spaths ++ [c]) (delete i cs)
    end
  end.
End deviations.

(** [spaths] is taken to be empty: the code reads it by position. *)
Definition k_weighted_shortest_path (start stop : Z) (k : nat) (bidirectional : bool) (rpred : oref → M user_st bool)
    (weight_func : oref → M user_st double) : M user_st (bool * list path_item) :=
  first ← weighted_shortest_path start stop bidirectional rpred weight_func new_path_item;
  if negb first.1 then mret (false, [])
  else k_loop stop bidirectional rpred weight_func (k - 1) [first.2] [].
End kpaths.
