(* ===== verification/QResult.v ===== *)
(** * QResult: values of query results (src/query/utils/qresult.hpp, qresult.cpp)

    A [query_result] is a variant; its comparisons convert between the number
    types the way C++ does.  Doubles and dates are their 64 bits; how boost
    compares dates is a parameter.  A pointer to a node or relationship is
    [None] when it is null (what a default-constructed variant holds). *)

From Stdlib Require Import Ascii SpecFloat.
From S2P Require Import Prelude VecSpec DictSpec IndexSpec Literals Property PropertyList Txn GraphState GraphOps.

Inductive query_result : Type :=
  | qr_node (n : option oref)
  | qr_rship (r : option oref)
  | qr_int (i : Z)
  | qr_double (bits : Z)
  | qr_string (s : str)
  | qr_uint64 (u : Z)
  | qr_ptime (raw : Z)
  | qr_array (elems : list Z)
  | qr_null
  | qr_node_descr (d : node_description)
  | qr_rship_descr (d : rship_description).
Notation qr_tuple := (list query_result).

Inductive qr_type : Type :=
  | node_ptr_type | rship_ptr_type | int_type | double_type | string_type | uint64_type
  | ptime_type | array_type | null_type | node_descr_type | rship_descr_type.
#[export] Instance qr_type_eq_dec : EqDecision qr_type.
Proof. solve_decision. Defined.

Definition which (v : query_result) : qr_type :=
  match v with
  | qr_node _ => node_ptr_type | qr_rship _ => rship_ptr_type | qr_int _ => int_type
  | qr_double _ => double_type | qr_string _ => string_type | qr_uint64 _ => uint64_type
  | qr_ptime _ => ptime_type | qr_array _ => array_type | qr_null => null_type
  | qr_node_descr _ => node_descr_type | qr_rship_descr _ => rship_descr_type
  end.

(** [query_result()] *)
Definition no_result : query_result := qr_node None.

(** [boost::get<T>] throws [bad_get] on another alternative. *)
Definition qv_get_node (v : query_result) : res (option oref) :=
  match v with qr_node n => Val n | _ => Exn bad_get end.
Definition qv_get_relationship (v : query_result) : res (option oref) :=
  match v with qr_rship r => Val r | _ => Exn bad_get end.
Definition qv_get_int (v : query_result) : res Z :=
  match v with qr_int i => Val i | _ => Exn bad_get end.
Definition qv_get_string (v : query_result) : res str :=
  match v with qr_string s => Val s | _ => Exn bad_get end.
Definition qv_get_ptime (v : query_result) : res Z :=
  match v with qr_ptime t => Val t | _ => Exn bad_get end.

(** ** Numbers *)

(** Doubles as their bits: [(double)i] for an [int] or a [uint64_t], [==], [<]. *)
Definition to_double (i : Z) : Z := sf_to_bits (int_to_sf i).
Definition bits_eqb (a b : Z) : bool := SFeqb (bits_to_sf a) (bits_to_sf b).
Definition bits_ltb (a b : Z) : bool := SFltb (bits_to_sf a) (bits_to_sf b).
(** Both operands as the type C++ code converts them to: [Some (inl _)] for
    integers (of one type, or both as [uint64_t]), [Some (inr _)] for doubles. *)
Definition as_numbers (v1 v2 : query_result) : option (Z * Z + Z * Z) :=
  match v1, v2 with
  | qr_int i, qr_int j => Some (inl (i, j))
  | qr_uint64 u, qr_uint64 w => Some (inl (u, w))
  | qr_int i, qr_uint64 u => Some (inl (u64 i, u))
  | qr_uint64 u, qr_int i => Some (inl (u, u64 i))
  | qr_double a, qr_double b => Some (inr (a, b))
  | qr_double a, (qr_int i | qr_uint64 i) => Some (inr (a, to_double i))
  | (qr_int i | qr_uint64 i), qr_double a => Some (inr (to_double i, a))
  | _, _ => None
  end.

(** ** Comparisons *)
Section compare.
Variables (ptime_eqb ptime_ltb : Z → Z → bool).

Definition qv_equal (v1 v2 : query_result) : bool :=
  match as_numbers v1 v2 with
  | Some (inl (i, j)) => bool_decide (i = j)
  | Some (inr (a, b)) => bits_eqb a b
  | None =>
    match v1, v2 with
    | qr_node m, qr_node n => bool_decide (m = n)
    | qr_rship m, qr_rship n => bool_decide (m = n)
    | qr_string s, qr_string t => bool_decide (s = t)
    | qr_ptime s, qr_ptime t => ptime_eqb s t
    | qr_null, qr_null => true
    | _, _ => false
    end
  end.
Definition less_than (v1 v2 : query_result) : bool :=
  match as_numbers v1 v2 with
  | Some (inl (i, j)) => bool_decide (i < j)
  | Some (inr (a, b)) => bits_ltb a b
  | None =>
    match v1, v2 with
    | qr_string s, qr_string t => str_lt s t
    | qr_ptime s, qr_ptime t => ptime_ltb s t
    | _, _ => false
    end
  end.
Definition greater_than (v1 v2 : query_result) : bool :=
  match as_numbers v1 v2 with
  | Some (inl (i, j)) => bool_decide (j < i)
  | Some (inr (a, b)) => bits_ltb b a
  | None =>
    match v1, v2 with
    | qr_string s, qr_string t => str_lt t s
    | qr_ptime s, qr_ptime t => ptime_ltb t s
    | _, _ => false
    end
  end.
Definition less_or_equal (v1 v2 : query_result) : bool := less_than v1 v2 || qv_equal v1 v2.
Definition greater_or_equal (v1 v2 : query_result) : bool := greater_than v1 v2 || qv_equal v1 v2.

(** [equal] on tuples *)
Fixpoint equal_tuples (t1 t2 : qr_tuple) : bool :=
  match t1, t2 with
  | [], [] => true
  | v1 :: t1', v2 :: t2' => qv_equal v1 v2 && equal_tuples t1' t2'
  | _, _ => false
  end.
End compare.

(** ** Conversions *)

(** A string's dictionary code becomes an integer. *)
Definition qv_from_pitem (it : p_item) : res query_result :=
  let tc := typecode it in
  if bool_decide (tc = p_int) then x ← get_int it; Val (qr_int x)
  else if bool_decide (tc = p_double) then x ← get_double it; Val (qr_double x)
  else if bool_decide (tc = p_dcode) then x ← get_dcode it; Val (qr_int (s32 x))
  else if bool_decide (tc = p_uint64) then x ← get_uint64 it; Val (qr_uint64 x)
  else if bool_decide (tc = p_ptime) then x ← get_ptime it; Val (qr_ptime x)
  else Val no_result.
Definition qv_to_any (v : query_result) : any :=
  match v with
  | qr_int i => any_int i | qr_double b => any_double b | qr_string s => any_string s
  | qr_uint64 u => any_uint64 u | qr_ptime t => any_ptime t
  | _ => any_none
  end.

(** ** Arithmetic *)
Inductive expr_op : Type :=
  | op_UNKNOWN | op_EQ | op_NEQ | op_LE | op_LT | op_GE | op_GT | op_AND | op_OR | op_NOT
  | op_PLUS | op_MINUS | op_MULT | op_DIV | op_MOD | op_REGEX | op_CALL | op_VARIABLE | op_LITERAL.
#[export] Instance expr_op_eq_dec : EqDecision expr_op.
Proof. solve_decision. Defined.

(** An [int] result outside the range of [int] is undefined behaviour. *)
Definition int_result (x : Z) : res Z :=
  if bool_decide (- 2 ^ 31 ≤ x < 2 ^ 31) then Val x else Exn undefined_behaviour.
Definition int_math_op (op : expr_op) (v1 v2 : Z) : res Z :=
  match op with
  | op_PLUS => int_result (v1 + v2)
  | op_MINUS => int_result (v1 - v2)
  | op_MULT => int_result (v1 * v2)
  | op_DIV => if bool_decide (v2 = 0) then Exn undefined_behaviour else int_result (Z.quot v1 v2)
  | op_MOD =>
    if bool_decide (v2 = 0) then Exn undefined_behaviour
    else _ ← int_result (Z.quot v1 v2); Val (Z.rem v1 v2)
  | _ => Val 0
  end.
Definition uint64_math_op (op : expr_op) (v1 v2 : Z) : res Z :=
  match op with
  | op_PLUS => Val (u64 (v1 + v2))
  | op_MINUS => Val (u64 (v1 - v2))
  | op_MULT => Val (u64 (v1 * v2))
  | op_DIV => if bool_decide (v2 = 0) then Exn undefined_behaviour else Val (v1 / v2)
  | op_MOD => if bool_decide (v2 = 0) then Exn undefined_behaviour else Val (v1 mod v2)
  | _ => Val 0
  end.
Definition double_math_op (op : expr_op) (v1 v2 : Z) : Z :=
  let a := bits_to_sf v1 in
  let b := bits_to_sf v2 in
  match op with
  | op_PLUS => sf_to_bits (SFadd 53 1024 a b)
  | op_MINUS => sf_to_bits (SFsub 53 1024 a b)
  | op_MULT => sf_to_bits (SFmul 53 1024 a b)
  | op_DIV => sf_to_bits (SFdiv 53 1024 a b)
  | _ => 0
  end.
(** The cases of [visit(math_expression)]; other operands give [query_result()]. *)
Definition math_values (op : expr_op) (v1 v2 : query_result) : res query_result :=
  match as_numbers v1 v2 with
  | Some (inl (i, j)) =>
    if bool_decide (which v1 = int_type ∧ which v2 = int_type)
    then x ← int_math_op op i j; Val (qr_int x)
    else x ← uint64_math_op op i j; Val (qr_uint64 x)
  | Some (inr (a, b)) => Val (qr_double (double_math_op op a b))
  | None => Val no_result
  end.
