(* ===== verification/Expr.v ===== *)
(** * Expr: query expressions (src/query/expr/, src/query/interp/expr_interpreter.cpp,
      src/query/plan_visitors/prepare_expr_visitor.cpp, src/query/plan_op/qop_builtins.cpp)

    Expressions are trees with closures for the functions they call; the
    interpreter is a visitor with a stack of values.  The state is the database
    (the transaction included) with the stack.  Regular expressions, dates and
    the library of user-defined functions are parameters. *)

From Stdlib Require Import Ascii.
From S2P Require Import Prelude VecSpec DictSpec IndexSpec Literals Property PropertyList Txn GraphState GraphOps QResult.

Inductive expr_type : Type :=
  | ty_UNKNOWN | ty_INT | ty_UINT64 | ty_DOUBLE | ty_STRING | ty_DATETIME | ty_BOOLEAN
  | ty_NODE | ty_RELATIONSHIP | ty_OP.
#[export] Instance expr_type_eq_dec : EqDecision expr_type.
Proof. solve_decision. Defined.

(** The subclasses of [binary_expression]; a [regex_predicate] has the pattern
    of its compiled [std::regex]. *)
Inductive bin_class : Type :=
  | math_expression (fop : expr_op)
  | eq_predicate | neq_predicate | le_predicate | lt_predicate | ge_predicate | gt_predicate
  | and_predicate | or_predicate
  | regex_predicate (re : str).

(** ** Expressions

    A [number_literal] of each of the three constructors; [null_expr] is a null
    pointer. *)
Section syntax.
Context {DB : Type}.

Inductive expr : Type :=
  | null_expr
  | Int (ivalue : Z)
  | UInt64 (lvalue : Z)
  | Float (dvalue : Z)
  | variable (id : Z) (pname : str) (pcode : Z) (ty : expr_type)
  | string_literal (s : str)
  | time_literal (t : Z)
  | qparam_token (s : str)
  | func_call (prefix name : str) (params : list expr) (ty : expr_type)
      (func1 : option (query_result → M DB query_result))
      (func2 : option (query_result → query_result → M DB query_result))
  | binary (c : bin_class) (e1 e2 : expr).

(** [rtype_], as the constructors set it. *)
Definition math_type (l r : expr_type) : expr_type :=
  if bool_decide (l = r) then l
  else if bool_decide (l = ty_DOUBLE) || bool_decide (r = ty_DOUBLE) then ty_DOUBLE
  else if bool_decide (l = ty_UINT64) || bool_decide (r = ty_UINT64) then ty_UINT64
  else ty_UNKNOWN.
Fixpoint result_type (e : expr) : expr_type :=
  match e with
  | Int _ => ty_INT | UInt64 _ => ty_UINT64 | Float _ => ty_DOUBLE
  | variable _ _ _ ty => ty
  | string_literal _ => ty_STRING | time_literal _ => ty_DATETIME
  | func_call _ _ _ ty _ _ => ty
  | binary (math_expression _) l r => math_type (result_type l) (result_type r)
  | binary _ _ _ => ty_BOOLEAN
  | qparam_token _ | null_expr => ty_UNKNOWN
  end.

(** [expression::fop_].  [binary_expression] declares a [fop_] of its own, so
    this one keeps the value of the constructor of [expression]. *)
Definition base_fop (e : expr) : expr_op :=
  match e with
  | variable _ _ _ _ => op_VARIABLE
  | func_call _ _ _ _ _ _ => op_CALL
  | _ => op_LITERAL
  end.

(** ** Constant folding *)

(** [literal_visitor]: the last literal visited. *)
Fixpoint visit_literal (e : expr) (r : query_result) : res query_result :=
  match e with
  | Int i => Val (qr_int i) | UInt64 u => Val (qr_uint64 u) | Float d => Val (qr_double d)
  | string_literal s => Val (qr_string s) | time_literal t => Val (qr_ptime t)
  | variable _ _ _ _ | qparam_token _ => Val r
  | func_call _ _ params _ _ _ =>
    (fix accept_all l r := match l with
       | [] => Val r
       | p :: l' => r' ← visit_literal p r; accept_all l' r'
       end) params r
  | binary _ e1 e2 =>
    r' ← (match e1 with null_expr => Val r | _ => visit_literal e1 r end);
    match e2 with null_expr => Val r' | _ => visit_literal e2 r' end
  | null_expr => Exn undefined_behaviour
  end.
Definition literal_expr_to_qresult (e : expr) : res query_result := visit_literal e no_result.
Definition qresult_to_expr (v : query_result) : expr :=
  match v with
  | qr_int i => Int i
  | qr_double b => Float b
  | qr_uint64 u => Float (to_double u)
  | qr_ptime t => time_literal t
  | qr_string s => string_literal s
  | _ => null_expr
  end.

(** [is_deterministic_] is always true. *)
Definition is_constant (params : list expr) : res bool :=
  if existsb (λ p, match p with null_expr => true | _ => false end) params then Exn undefined_behaviour
  else Val (forallb (λ p, bool_decide (base_fop p = op_LITERAL)) params).
Definition literal_param (params : list expr) (i : nat) : res query_result :=
  match params !! i with Some p => literal_expr_to_qresult p | None => Exn undefined_behaviour end.
Definition replace_by_literal (params : list expr)
    (func1 : option (query_result → M DB query_result))
    (func2 : option (query_result → query_result → M DB query_result)) : M DB expr :=
  arg1 ← lift_res (literal_param params 0);
  match func1, func2 with
  | Some f, _ => v ← f arg1; mret (qresult_to_expr v)
  | None, Some f => arg2 ← lift_res (literal_param params 1); v ← f arg1 arg2; mret (qresult_to_expr v)
  | None, None => mret null_expr
  end.
(** The test and the replacement of one operand in [handle_binary_expression]. *)
Definition fold_operand (e : expr) : M DB expr :=
  match e with
  | null_expr => throw undefined_behaviour
  | func_call _ _ params _ f1 f2 =>
    b ← lift_res (is_constant params);
    if (b : bool) then replace_by_literal params f1 f2 else mret e
  | _ => mret e
  end.
End syntax.
Arguments expr : clear implicits.

(** The functions that build number arithmetic and predicates. *)
Definition PLUS {DB} (l r : expr DB) : expr DB := binary (math_expression op_PLUS) l r.
Definition EQ {DB} (l r : expr DB) : expr DB := binary eq_predicate l r.
Definition OR {DB} (l r : expr DB) : expr DB := binary or_predicate l r.

Section interpreter.
Context {V : Type → Type} `{!Vec V} {D : Type} `{!Dictionary D} {X : Type} `{!Indexes X}.
Variables (ptime_eqb ptime_ltb : Z → Z → bool).
(** [regex_match s re], and what [p_item res;] holds before it is assigned. *)
Variables (regex_match : str → str → bool) (uninit : p_item).
Notation db := (gdb V D X).
Notation st := (db * list query_result)%type.
Notation expr := (expr db).

(** ** The stack of values *)
Definition push_value (v : query_result) : M st unit := on_snd (modify (cons v)).
(** [top] and [pop] of an empty [std::stack] are undefined behaviour. *)
Definition pop : M st query_result := λ s,
  match s.2 with
  | [] => (s, Exn undefined_behaviour)
  | v :: l => ((s.1, l), Val v)
  end.
Definition valid_operands : M st bool :=
  s ← get_st;
  if bool_decide (length s.2 < 2)%nat then _ ← pop; push_value (qr_int 0);; mret false
  else mret true.

(** ** Variables *)

(** [find] in the map of properties, and [get_property<T>(props, key).value()]
    for the type of the variable, pushed. *)
Definition find_property (props : properties_t) (key : str) : option any :=
  (list_find (λ kv : str * any, kv.1 = key) props : option (nat * (str * any))) ≫= λ ikv, Some ikv.2.2.
Definition cast_property (ty : expr_type) (v : any) : option query_result :=
  match ty, v with
  | ty_INT, any_int i => Some (qr_int i)
  | ty_UINT64, any_uint64 u => Some (qr_uint64 u)
  | ty_DOUBLE, any_double b => Some (qr_double b)
  | ty_STRING, any_string s => Some (qr_string s)
  | ty_DATETIME, any_ptime t => Some (qr_ptime t)
  | _, _ => None
  end.
Definition push_property (props : properties_t) (pname : str) (ty : expr_type) : M st unit :=
  match ty with
  | ty_INT | ty_UINT64 | ty_DOUBLE | ty_STRING | ty_DATETIME =>
    match find_property props pname with
    | None => throw bad_optional_access
    | Some v => match cast_property ty v with None => throw query_processing_error | Some q => push_value q end
    end
  | _ => mret tt
  end.
(** The final [switch (res.typecode())]. *)
Definition push_item (it : p_item) : M st unit :=
  let tc := typecode it in
  if bool_decide (tc = p_int) then x ← lift_res (get_int it); push_value (qr_int x)
  else if bool_decide (tc = p_double) then x ← lift_res (get_double it); push_value (qr_double x)
  else if bool_decide (tc = p_uint64) then x ← lift_res (get_uint64 it); push_value (qr_uint64 x)
  else if bool_decide (tc = p_ptime) then x ← lift_res (get_ptime it); push_value (qr_ptime x)
  else if bool_decide (tc = p_dcode) then
    c ← lift_res (get_dcode it);
    s ← get_st; str ← lift_res (d_lookup_code (dict_ s.1) c); push_value (qr_string str)
  else mret tt.

Definition stored_node_property (n : option oref) (pcode : Z) : M st p_item :=
  match n with
  | None => throw undefined_behaviour
  | Some n => o ← on_fst (node_ref n); on_fst (get_node_property_value (body_ o) pcode)
  end.
Definition stored_rship_property (r : option oref) (pcode : Z) : M st p_item :=
  match r with
  | None => throw undefined_behaviour
  | Some r => o ← on_fst (rship_ref r); on_fst (get_rship_property_value (body_ o) pcode)
  end.

Definition visit_variable (tup : qr_tuple) (id : Z) (pname : str) (pcode : Z) (ty : expr_type) : M st unit :=
  match tup !! Z.to_nat id with
  | None => throw query_processing_error
  | Some inp =>
    match inp with
    | qr_node n =>
      if bool_decide (pcode = UNKNOWN_CODE) then push_value inp;; push_item uninit
      else it ← stored_node_property n pcode; push_item it
    | qr_rship r =>
      if bool_decide (pcode = UNKNOWN_CODE) then push_value inp;; push_item uninit
      else it ← stored_rship_property r pcode; push_item it
    | qr_node_descr (mk_ndescr _ _ props) | qr_rship_descr (mk_rdescr _ _ _ _ props) =>
      (if bool_decide (pname = []) && bool_decide (pcode = UNKNOWN_CODE) then push_value inp
       else push_property props pname ty);;
      push_item uninit
    | qr_uint64 _ | qr_int _ | qr_double _ | qr_string _ => push_value inp
    | qr_ptime _ | qr_array _ | qr_null => push_item uninit
    end
  end.

(** ** Calls and operators *)
Definition visit_func_call (nparams : nat)
    (func1 : option (query_result → M db query_result))
    (func2 : option (query_result → query_result → M db query_result)) : M st unit :=
  match nparams with
  | 0%nat => match func1 with
             | None => throw assertion_failed
             | Some f => v ← on_fst (f no_result); push_value v
             end
  | 1%nat => arg ← pop;
             match func1 with None => throw assertion_failed | Some f => v ← on_fst (f arg); push_value v end
  | 2%nat => arg2 ← pop; arg1 ← pop;
             match func2 with None => throw assertion_failed | Some f => v ← on_fst (f arg1 arg2); push_value v end
  | _ => mret tt
  end.

(** The value of a predicate as an [int]. *)
Definition truth (b : bool) : query_result := qr_int (if b then 1 else 0).
(** [&&] and [||] read their second operand only when they need it. *)
Definition and_values (v1 v2 : query_result) : res query_result :=
  a ← qv_get_int v1;
  if bool_decide (a = 0) then Val (truth false) else b ← qv_get_int v2; Val (truth (negb (bool_decide (b = 0)))).
Definition or_values (v1 v2 : query_result) : res query_result :=
  a ← qv_get_int v1;
  if bool_decide (a = 0) then b ← qv_get_int v2; Val (truth (negb (bool_decide (b = 0)))) else Val (truth true).
Definition binary_value (c : bin_class) (v1 v2 : query_result) : res query_result :=
  match c with
  | math_expression fop => math_values fop v1 v2
  | eq_predicate => Val (truth (qv_equal ptime_eqb v1 v2))
  | neq_predicate => Val (truth (negb (qv_equal ptime_eqb v1 v2)))
  | le_predicate => Val (truth (less_or_equal ptime_eqb ptime_ltb v1 v2))
  | lt_predicate => Val (truth (less_than ptime_ltb v1 v2))
  | ge_predicate => Val (truth (greater_or_equal ptime_eqb ptime_ltb v1 v2))
  | gt_predicate => Val (truth (greater_than ptime_ltb v1 v2))
  | and_predicate => and_values v1 v2
  | or_predicate => or_values v1 v2
  | regex_predicate re => s ← qv_get_string v1; Val (truth (regex_match s re))
  end.
(** What the visitor of a binary expression does after its operands. *)
Definition visit_binary (c : bin_class) : M st unit :=
  b ← valid_operands;
  if (b : bool) then v2 ← pop; v1 ← pop; v ← lift_res (binary_value c v1 v2); push_value v
  else match c with neq_predicate => throw query_processing_error | _ => mret tt end.
(** [=~] evaluates its left operand only. *)
Definition visit_regex (re : str) : M st unit :=
  s ← get_st;
  if bool_decide (s.2 = []) then throw query_processing_error
  else v1 ← pop; s1 ← lift_res (qv_get_string v1); push_value (truth (regex_match s1 re)).

(** ** The interpreter *)
Fixpoint accept (tup : qr_tuple) (e : expr) : M st unit :=
  match e with
  | null_expr => throw undefined_behaviour
  | Int i => push_value (qr_int i)
  | UInt64 u => push_value (qr_uint64 u)
  | Float d => push_value (qr_double d)
  | variable id pname pcode ty => visit_variable tup id pname pcode ty
  | string_literal s => push_value (qr_string s)
  | time_literal t => push_value (qr_ptime t)
  | qparam_token _ => mret tt
  | func_call _ _ params _ f1 f2 =>
    (fix accept_all l := match l with [] => mret tt | p :: l' => accept tup p;; accept_all l' end) params;;
    visit_func_call (length params) f1 f2
  | binary (regex_predicate re) e1 _ => accept tup e1;; visit_regex re
  | binary c e1 e2 => accept tup e1;; accept tup e2;; visit_binary c
  end.

(** The visitor starts with an empty stack. *)
Definition with_stack {A} (m : M st A) : M db A := λ g, let '((g', _), r) := m (g, []) in (g', r).
Definition interpret_expression (e : expr) (tup : qr_tuple) : M db query_result :=
  with_stack (accept tup e;; pop).
Definition interpret_bool_expression (e : expr) (tup : qr_tuple) : M db bool :=
  with_stack (accept tup e;; v ← pop; i ← lift_res (qv_get_int v); mret (negb (bool_decide (i = 0)))).
End interpreter.

(** ** Preparation

    [prepare_expr_visitor] finds the functions and replaces calls with literal
    arguments by their values.  [udf_lib_] and boost's dates are parameters;
    [to_iso] and [now] stand for [to_iso_extended_string] and the clock. *)
Section preparation.
Context {V : Type → Type} `{!Vec V} {D : Type} `{!Dictionary D} {X : Type} `{!Indexes X}.
Notation db := (gdb V D X).
Notation expr := (expr db).
Notation fn1 := (query_result → M db query_result).
Notation fn2 := (query_result → query_result → M db query_result).
Variables (udf1 : str → res fn1) (udf2 : str → res fn2).
Variables (time_from_string : str → res Z) (to_iso : Z → str) (now : Z).

Definition get_label : fn1 := λ pv,
  match pv with
  | qr_node_descr d => mret (qr_string (nd_label d))
  | qr_rship_descr d => mret (qr_string (rd_label d))
  | qr_node (Some n) => o ← node_ref n; s ← get_string (node_label (body_ o)); mret (qr_string s)
  | qr_rship (Some r) => o ← rship_ref r; s ← get_string (rship_label (body_ o)); mret (qr_string s)
  | qr_node None | qr_rship None => throw undefined_behaviour
  | _ => mret qr_null
  end.

Definition s_pb : str := String.list_ascii_of_string "pb".
Definition s_label : str := String.list_ascii_of_string "label".
Definition s_to_datetime : str := String.list_ascii_of_string "to_datetime".
Definition s_ptime_to_dtimestring : str := String.list_ascii_of_string "ptime_to_dtimestring".
Definition s_now : str := String.list_ascii_of_string "now".

Definition builtin_function (name : str) : res fn1 :=
  if bool_decide (name = s_label) then Val get_label
  else if bool_decide (name = s_to_datetime) then
    Val (λ v, s ← lift_res (qv_get_string v); t ← lift_res (time_from_string s); mret (qr_ptime t))
  else if bool_decide (name = s_ptime_to_dtimestring) then
    Val (λ v, t ← lift_res (qv_get_ptime v); mret (qr_string (to_iso t)))
  else if bool_decide (name = s_now) then Val (λ _, mret (qr_ptime now))
  else Exn udf_not_found.
(** [visit(func_call)]: the two function pointers afterwards. *)
Definition visit_call (prefix name : str) (nparams : nat) (f1 : option fn1) (f2 : option fn2)
    : res (option fn1 * option fn2) :=
  if bool_decide (prefix = s_pb) then f ← builtin_function name; Val (Some f, f2)
  else match nparams with
       | 1%nat => f ← udf1 name; Val (Some f, f2)
       | 2%nat => f ← udf2 name; Val (f1, Some f)
       | _ => Val (f1, f2)
       end.

Fixpoint prepare_expr (e : expr) : M db expr :=
  match e with
  | null_expr => throw undefined_behaviour
  | func_call prefix name params ty f1 f2 =>
    params' ← (fix prepare_all l := match l with
               | [] => mret []
               | p :: l' => p' ← prepare_expr p; l'' ← prepare_all l'; mret (p' :: l'')
               end) params;
    fs ← lift_res (visit_call prefix name (length params) f1 f2);
    mret (func_call prefix name params' ty fs.1 fs.2)
  | binary c e1 e2 =>
    e1' ← prepare_expr e1; e2' ← prepare_expr e2;
    e1'' ← fold_operand e1'; e2'' ← fold_operand e2';
    mret (binary c e1'' e2'')
  | _ => mret e
  end.
End preparation.
