(* ===== verification/Qop.v ===== *)
(** * Qop: query operators (src/query/plan_op/qop.hpp, qop.cpp, qop_scans.cpp,
      qop_relationships.cpp, src/query/utils/qresult_iterator.cpp)

    Operators push tuples: [consume_] and [finish_] of an operator are bound to
    methods of its subscriber, which in turn calls its own.  An operator is a
    pair of such methods over the database and the state of the operators
    behind it; a constructor of this file takes the subscriber and gives the
    operator in front of it, with the operator's own members added to the state. *)

From Stdlib Require Import Ascii.
From stdpp Require Import pretty.
From S2P Require Import Prelude VecSpec Txn DictSpec IndexSpec Literals Property PropertyList GraphState GraphOps QueryCtx QResult Expr.

(** [std::to_string] of an integer. *)
Definition to_string (i : Z) : str := String.list_ascii_of_string (pretty i).

Section qop.
Context {V : Type → Type} `{!Vec V} `{!VecScan V} {D : Type} `{!Dictionary D} {X : Type} `{!Indexes X}.
(** boost's dates, [std::to_string(double)], regular expressions, and what an
    uninitialised item holds. *)
Variables (ptime_eqb ptime_ltb : Z → Z → bool) (regex_match : str → str → bool).
Variables (to_iso : Z → str) (double_string : Z → str) (uninit : p_item).
Notation db := (gdb V D X).
Notation expr := (expr db).
Notation interpret_bool_expression := (interpret_bool_expression ptime_eqb ptime_ltb regex_match uninit).

Record op (A : Type) : Type := mk_op {
  consume : qr_tuple → M (db * A) unit;
  finish : M (db * A) unit
}.
Arguments mk_op {A}.
Arguments consume {A}.
Arguments finish {A}.

(** The members of the operator and the state behind it. *)
Section state.
Context {S A : Type}.
Definition own : M (db * (S * A)) S := λ s, (s, Val s.2.1).
Definition set_own (x : S) : M (db * (S * A)) unit := λ s, ((s.1, (x, s.2.2)), Val tt).
Definition on_next {B} (m : M (db * A) B) : M (db * (S * A)) B := λ s,
  let '((g, a), r) := m (s.1, s.2.2) in ((g, (s.2.1, a)), r).
End state.

(** ** Values of a tuple *)
Definition elem_at {St} (v : qr_tuple) (i : nat) : M St query_result :=
  match v !! i with Some x => mret x | None => throw undefined_behaviour end.
(** [v.back()] *)
Definition last_value {St} (v : qr_tuple) : M St query_result :=
  match last v with Some x => mret x | None => throw undefined_behaviour end.
(** [qv_get_node] and its dereference; [npos] is -1 for the last element. *)
Definition node_ptr {St} (v : query_result) : M St oref :=
  n ← lift_res (qv_get_node v); match n with Some n => mret n | None => throw undefined_behaviour end.
Definition rship_ptr {St} (v : query_result) : M St oref :=
  r ← lift_res (qv_get_relationship v); match r with Some r => mret r | None => throw undefined_behaviour end.
Definition elem_or_back {St} (v : qr_tuple) (pos : option nat) : M St query_result :=
  match pos with None => last_value v | Some i => elem_at v i end.

(** *** Properties of the nodes in a tuple

    [get_property_value(ctx, v, var, pkey)]: no null value for other elements
    than nodes and relationships, but an uninitialised item. *)
Definition property_item (v : qr_tuple) (var : nat) (pkey : Z) : M db p_item :=
  qv ← elem_at v var;
  match qv with
  | qr_node (Some n) => get_valid_node_property_value uninit n pkey
  | qr_rship (Some r) => get_valid_rship_property_value uninit r pkey
  | qr_node None | qr_rship None => throw undefined_behaviour
  | _ => mret uninit
  end.
Definition item_int (it : p_item) : res Z :=
  let tc := typecode it in
  if bool_decide (tc = p_int) then get_int it
  else if bool_decide (tc = p_double) then d ← get_double it; double_to_int d
  else if bool_decide (tc = p_uint64) then u ← get_uint64 it; Val (s32 u)
  else Val 0.
Definition item_uint64 (it : p_item) : res Z :=
  let tc := typecode it in
  if bool_decide (tc = p_int) then i ← get_int it; Val (u64 i)
  else if bool_decide (tc = p_double) then d ← get_double it; double_to_uint64 d
  else if bool_decide (tc = p_uint64) then get_uint64 it
  else Val 0.
Definition item_double (it : p_item) : res Z :=
  let tc := typecode it in
  if bool_decide (tc = p_int) then i ← get_int it; Val (to_double i)
  else if bool_decide (tc = p_double) then get_double it
  else if bool_decide (tc = p_uint64) then u ← get_uint64 it; Val (to_double u)
  else Val 0.
Definition item_string (it : p_item) : M db str :=
  let tc := typecode it in
  if bool_decide (tc = p_dcode) then c ← lift_res (get_dcode it); get_string c
  else if bool_decide (tc = p_int) then i ← lift_res (get_int it); mret (to_string i)
  else if bool_decide (tc = p_double) then d ← lift_res (get_double it); mret (double_string d)
  else if bool_decide (tc = p_uint64) then u ← lift_res (get_uint64 it); mret (to_string u)
  else mret [].

Definition int_value (v : qr_tuple) (var : nat) (pkey : Z) : M db Z :=
  it ← property_item v var pkey; lift_res (item_int it).
Definition uint64_value (v : qr_tuple) (var : nat) (pkey : Z) : M db Z :=
  it ← property_item v var pkey; lift_res (item_uint64 it).
Definition double_value (v : qr_tuple) (var : nat) (pkey : Z) : M db Z :=
  it ← property_item v var pkey; lift_res (item_double it).
Definition ptime_value (v : qr_tuple) (var : nat) (pkey : Z) : M db Z :=
  it ← property_item v var pkey; lift_res (get_ptime it).
Definition string_value (v : qr_tuple) (var : nat) (pkey : Z) : M db str :=
  it ← property_item v var pkey; item_string it.

(** The same for the name of the property. *)
Definition by_key {B} (f : qr_tuple → nat → Z → M db B) (v : qr_tuple) (var : nat) (prop : str) : M db B :=
  pc ← get_code prop; f v var pc.
Definition property_item_key : qr_tuple → nat → str → M db p_item := by_key property_item.
Definition int_value_key : qr_tuple → nat → str → M db Z := by_key int_value.
Definition uint64_value_key : qr_tuple → nat → str → M db Z := by_key uint64_value.
Definition double_value_key : qr_tuple → nat → str → M db Z := by_key double_value.
Definition ptime_value_key : qr_tuple → nat → str → M db Z := by_key ptime_value.
Definition string_value_key : qr_tuple → nat → str → M db str := by_key string_value.

(** A [variable] of an expression, as the joins use it. *)
Record var_ref : Type := mk_var { var_id : nat; var_code : Z; var_type : expr_type }.
Definition get_var_value (v : qr_tuple) (var : var_ref) : M db query_result :=
  inp ← elem_at v (var_id var);
  match inp with
  | qr_node _ | qr_rship _ =>
    match var_type var with
    | ty_INT => x ← int_value v (var_id var) (var_code var); mret (qr_int x)
    | ty_UINT64 => x ← uint64_value v (var_id var) (var_code var); mret (qr_uint64 x)
    | ty_DOUBLE => x ← double_value v (var_id var) (var_code var); mret (qr_double x)
    | ty_STRING => x ← string_value v (var_id var) (var_code var); mret (qr_string x)
    | ty_DATETIME => x ← ptime_value v (var_id var) (var_code var); mret (qr_ptime x)
    | _ => mret no_result
    end
  | _ => mret inp
  end.

(** ** Operators with one input

    Without a [finish] of its own an operator passes on its subscriber's. *)
Section unary.
Context {A : Type}.
Notation st := (db * A)%type.

(** [pcode] is found when it is zero, at every tuple as long as it stays so. *)
Definition code_for (code : Z) (s : str) : M db Z :=
  if bool_decide (code = 0) then get_code s else mret code.
Definition is_property (property : str) (predicate : p_item → res bool) (next : op A) : op (Z * A) :=
  mk_op (λ v,
      pc ← own; n ← last_value v;
      pc' ← on_fst (code_for pc property); set_own pc';;
      match n with
      | qr_node (Some n) =>
        b ← on_fst (o ← node_ref n; is_node_property (body_ o) pc' predicate);
        when b (on_next (consume next v))
      | qr_rship (Some r) =>
        b ← on_fst (o ← rship_ref r; is_relationship_property (body_ o) pc' predicate);
        when b (on_next (consume next v))
      | qr_node None | qr_rship None => throw undefined_behaviour
      | _ => mret tt
      end)
    (on_next (finish next)).

Fixpoint any_label (labels : list str) (n : oref) : M db bool :=
  match labels with
  | [] => mret false
  | l :: ls => c ← get_code l; o ← node_ref n; if bool_decide (node_label (body_ o) = c) then mret true else any_label ls n
  end.
(** With one label; [lcode] is a member. *)
Definition node_has_label (label : str) (next : op A) : op (Z * A) :=
  mk_op (λ v,
      qv ← last_value v; n ← node_ptr qv;
      lc ← own; lc' ← on_fst (code_for lc label); set_own lc';;
      o ← on_fst (node_ref n);
      when (bool_decide (node_label (body_ o) = lc')) (on_next (consume next v)))
    (on_next (finish next)).
Definition node_has_labels (labels : list str) (next : op A) : op A :=
  mk_op (λ v, qv ← last_value v; n ← node_ptr qv; b ← on_fst (any_label labels n); when b (consume next v)) (finish next).

Definition get_end (side : relationship → Z) (next : op A) : op A :=
  mk_op (λ v,
      qv ← last_value v; r ← rship_ptr qv; o ← on_fst (rship_ref r);
      n ← on_fst (node_by_id (side (body_ o)));
      consume next (v ++ [qr_node (Some n)]))
    (finish next).
Definition get_from_node : op A → op A := get_end src_node.
Definition get_to_node : op A → op A := get_end dest_node.

Definition limit_result (num : Z) (next : op A) : op (Z * A) :=
  mk_op (λ v,
      processed ← own;
      when (bool_decide (processed < num)) (set_own (u64 (processed + 1));; on_next (consume next v)))
    (on_next (finish next)).

Definition filter_op (ex : expr) (next : op A) : op A :=
  mk_op (λ v, b ← on_fst (interpret_bool_expression ex v); when b (consume next v)) (finish next).
Definition filter_func (pred : qr_tuple → bool) (next : op A) : op A :=
  mk_op (λ v, when (pred v) (consume next v)) (finish next).

(** *** Distinct tuples: the strings of the elements, one after the other *)
Definition key_part (qv : query_result) : M db str :=
  match qv with
  | qr_string s => mret s
  | qr_uint64 u => mret (to_string u)
  | qr_ptime t => mret (to_iso t)
  | qr_node n => n ← node_ptr (qr_node n); o ← node_ref n; mret (to_string (node_id_ (body_ o)))
  | qr_rship r => r ← rship_ptr (qr_rship r); o ← rship_ref r; mret (to_string (rship_id_ (body_ o)))
  | qr_int i => mret (to_string i)
  | qr_double b => mret (double_string b)
  | qr_null => mret (String.list_ascii_of_string "NULL")
  | qr_array l => mret (concat (to_string <$> l))
  | qr_node_descr _ | qr_rship_descr _ => mret []
  end.
Fixpoint distinct_key (v : qr_tuple) : M db str :=
  match v with
  | [] => mret []
  | x :: v' => s ← key_part x; s' ← distinct_key v'; mret (s ++ s')
  end.
Definition distinct_tuples (next : op A) : op (list str * A) :=
  mk_op (λ v,
      key ← on_fst (distinct_key v);
      keys ← own;
      when (bool_decide (key ∉ keys)) (set_own (key :: keys);; on_next (consume next v)))
    (on_next (finish next)).
End unary.

(** [collect_result] without the conversion to strings; [notify] wakes the
    thread that waits for the result. *)
Definition collect_result : op (list qr_tuple * bool) :=
  mk_op (λ v s, ((s.1, (s.2.1 ++ [v], s.2.2)), Val tt)) (λ s, ((s.1, (s.2.1, true)), Val tt)).
End qop.
Arguments mk_op {V D X A}.
Arguments consume {V D X A}.
Arguments finish {V D X A}.

(** ** Sorting of results (src/query/utils/qresult_iterator.cpp, [order_by] of
      src/query/plan_op/qop.hpp, qop.cpp)

    [std::list::sort] is stable; here it inserts from the right.  The order an
    exception of the comparison leaves is unspecified in C++; the model leaves
    the list as it was. *)

Section sort.
Context {St T : Type}.
Fixpoint insert_sorted (cmp : T → T → M St bool) (x : T) (l : list T) : M St (list T) :=
  match l with
  | [] => mret [x]
  | y :: l' =>
    b ← cmp y x;
    if (b : bool) then l'' ← insert_sorted cmp x l'; mret (y :: l'') else mret (x :: l)
  end.
Fixpoint list_sort (cmp : T → T → M St bool) (l : list T) : M St (list T) :=
  match l with
  | [] => mret []
  | x :: l' => l'' ← list_sort cmp l'; insert_sorted cmp x l''
  end.
End sort.

Section order.
Context {V : Type → Type} `{!Vec V} `{!VecScan V} {D : Type} `{!Dictionary D} {X : Type} `{!Indexes X}.
Variables (ptime_eqb ptime_ltb : Z → Z → bool).
Notation db := (gdb V D X).
Notation op := (op (V:=V) (D:=D) (X:=X)).

Inductive sort_order : Type := sort_None | sort_Asc | sort_Desc.
Record sort_spec : Type := mk_spec { s_order : sort_order; vidx : nat; pcode : Z; cmp_type : qr_type }.

(** ** [qr_compare] *)

(** A property of a node instead of the node. *)
Definition node_sort_value (v : query_result) (pc : Z) : M db query_result :=
  n ← node_ptr v; o ← node_ref n; it ← get_node_property_value (body_ o) pc; lift_res (qv_from_pitem it).
(** -1, 0 or 1 in the order of one type; a value of another type is an error. *)
Definition order_of (eq lt : bool) : Z := if eq then 0 else if lt then -1 else 1.
Definition compare_as (ty : qr_type) (v1 v2 : query_result) : res Z :=
  match ty, v1, v2 with
  | uint64_type, qr_uint64 a, qr_uint64 b => Val (order_of (bool_decide (a = b)) (bool_decide (a < b)))
  | string_type, qr_string a, qr_string b => Val (order_of (bool_decide (a = b)) (str_lt a b))
  | int_type, qr_int a, qr_int b => Val (order_of (bool_decide (a = b)) (bool_decide (a < b)))
  | double_type, qr_double a, qr_double b => Val (order_of (bits_eqb a b) (bits_ltb a b))
  | ptime_type, qr_ptime a, qr_ptime b => Val (order_of (ptime_eqb a b) (ptime_ltb a b))
  | (uint64_type | string_type | int_type | double_type | ptime_type), _, _ => Exn query_processing_error
  | _, _, _ => Val 1
  end.
Definition qr_less (q1 q2 : qr_tuple) (sp : sort_spec) : M db Z :=
  assert_ (bool_decide (vidx sp < length q1)%nat);; assert_ (bool_decide (vidx sp < length q2)%nat);;
  v1 ← elem_at q1 (vidx sp); v2 ← elem_at q2 (vidx sp);
  vs ← (if bool_decide (0 < pcode sp) && bool_decide (which v1 = node_ptr_type)
        then v1' ← node_sort_value v1 (pcode sp); v2' ← node_sort_value v2 (pcode sp); mret (v1', v2')
        else mret (v1, v2));
  lift_res (compare_as (cmp_type sp) vs.1 vs.2).
Fixpoint qr_compare (spec : list sort_spec) (q1 q2 : qr_tuple) : M db bool :=
  match spec with
  | [] => mret false
  | sp :: spec' =>
    r ← qr_less q1 q2 sp;
    match s_order sp with
    | sort_Asc => if bool_decide (r < 0) then mret true else if bool_decide (r = 0) then qr_compare spec' q1 q2 else mret false
    | sort_Desc => if bool_decide (0 < r) then mret true else if bool_decide (r = 0) then qr_compare spec' q1 q2 else mret false
    | sort_None => if bool_decide (r = 0) then qr_compare spec' q1 q2 else mret false
    end
  end.

(** ** [order_by]

    The specification and the comparison function are variables all operators of
    the program share; each constructor sets one of them. *)
Record sort_globals : Type := mk_globals {
  sort_spec_ : list sort_spec; cmp_func_ : option (qr_tuple → qr_tuple → bool) }.
Definition order_by_spec (spec : list sort_spec) (gl : sort_globals) : sort_globals := mk_globals spec (cmp_func_ gl).
Definition order_by_func (f : qr_tuple → qr_tuple → bool) (gl : sort_globals) : sort_globals := mk_globals (sort_spec_ gl) (Some f).

Definition sort_results (gl : sort_globals) (l : list qr_tuple) : M db (list qr_tuple) :=
  match cmp_func_ gl with
  | Some f => list_sort (λ a b, mret (f a b)) l
  | None => list_sort (qr_compare (sort_spec_ gl)) l
  end.
Definition order_by {A} (gl : sort_globals) (next : op A) : op (list qr_tuple * A) :=
  mk_op (λ v, results ← own; set_own (results ++ [v]))
    (results ← own; sorted ← on_fst (sort_results gl results); set_own sorted;;
     on_next (for_each (consume next) sorted);; on_next (finish next)).
End order.
