(* ===== verification/QopJoins.v ===== *)
(** * QopJoins: operators with two inputs (src/query/plan_op/qop_joins.cpp, qop_set.cpp)

    Such an operator is what two pipelines end with, so it is a pair of an
    operator for the left input and one for the right.  The right pipeline runs
    first.  [own_finish] tells whether the right input was connected with the
    operator's [finish] (query_planner.cpp) or without (query_builder.cpp), and
    then calls [default_finish]. *)

From S2P Require Import Prelude VecSpec DictSpec IndexSpec Literals Property PropertyList Txn GraphState GraphOps QueryCtx QResult Expr Qop.

Section joins.
Context {V : Type → Type} `{!Vec V} `{!VecScan V} {D : Type} `{!Dictionary D} {X : Type} `{!Indexes X}.
Variables (ptime_eqb ptime_ltb : Z → Z → bool) (regex_match : str → str → bool).
Variables (double_string : Z → str) (uninit : p_item).
Notation db := (gdb V D X).
Notation expr := (expr db).
Notation op := (op (V:=V) (D:=D) (X:=X)).
Notation get_var_value := (get_var_value double_string uninit).
Notation interpret_bool_expression := (interpret_bool_expression ptime_eqb ptime_ltb regex_match uninit).
Context {A : Type}.

Section phases.
Context {S : Type}.
Notation St := (Z * S)%type.
(** [if (++phases_ > 1) default_finish] *)
Definition join_finish (next : op A) : M (db * (St * A)) unit :=
  s ← own; set_own (u64 (s.1 + 1), s.2);;
  when (bool_decide (1 < u64 (s.1 + 1))) (on_next (finish next)).
Definition right_finish (own_finish : bool) (next : op A) : M (db * (St * A)) unit :=
  if own_finish then join_finish next else on_next (finish next).
Definition input_of : M (db * (St * A)) S := s ← own; mret s.2.
Definition set_input (x : S) : M (db * (St * A)) unit := s ← own; set_own (s.1, x).
End phases.

(** [res_.push_back(v)] on the right side *)
Definition keep_input (v : qr_tuple) : M (db * ((Z * list qr_tuple) * A)) unit :=
  input ← input_of; set_input (input ++ [v]).

Definition cross_join (own_finish : bool) (next : op A) : op ((Z * list qr_tuple) * A) * op ((Z * list qr_tuple) * A) :=
  (mk_op (λ v, input ← input_of; on_next (for_each (λ inp, consume next (inp ++ v)) input)) (join_finish next),
   mk_op keep_input (right_finish own_finish next)).

(** The ids of the nodes at the position of the right tuples, with the tuples. *)
Definition node_id_at (v : qr_tuple) (pos : nat) : M db Z :=
  qv ← elem_at v pos; n ← node_ptr qv; o ← node_ref n; mret (node_id_ (body_ o)).
Definition nested_loop_join (pos : nat * nat) (next : op A) : op (list (Z * qr_tuple) * A) * op (list (Z * qr_tuple) * A) :=
  (mk_op (λ v,
      nid ← on_fst (node_id_at v pos.1); input ← own;
      on_next (for_each (λ inp, when (bool_decide (inp.1 = nid)) (consume next (v ++ inp.2))) input))
    (on_next (finish next)),
   mk_op (λ v, nid ← on_fst (node_id_at v pos.2); input ← own; set_own (input ++ [(nid, v)])) (on_next (finish next))).

(** ** Hash join

    [hash] is [boost::hash] on the value; the candidates of one hash value are
    in the order of their arrival.  Values are compared with the [==] of the
    variant: alternatives of different types differ. *)
Definition variant_eqb (v1 v2 : query_result) : bool :=
  bool_decide (which v1 = which v2)
  && match v1, v2 with
     | qr_array a, qr_array b => bool_decide (a = b)
     | qr_node_descr a, qr_node_descr b => bool_decide (nd_id a = nd_id b ∧ nd_label a = nd_label b)
     | qr_rship_descr a, qr_rship_descr b =>
       bool_decide (rd_id a = rd_id b ∧ rd_from a = rd_from b ∧ rd_to a = rd_to b ∧ rd_label a = rd_label b)
     | _, _ => qv_equal ptime_eqb v1 v2
     end.
Notation table := (gmap Z (list (query_result * qr_tuple))).
Definition build (hash : query_result → Z) (jval : query_result) (v : qr_tuple) (t : table) : table :=
  let key := hash jval in <[key := default [] (t !! key) ++ [(jval, v)]]> t.
Definition hash_join (hash : query_result → Z) (lhs_var rhs_var : var_ref) (own_finish : bool) (next : op A) :
    op ((Z * table) * A) * op ((Z * table) * A) :=
  (mk_op (λ v,
      jval ← on_fst (get_var_value v rhs_var);
      t ← input_of;
      on_next (for_each (λ jc, when (variant_eqb jval jc.1) (consume next (jc.2 ++ v))) (default [] (t !! hash jval))))
    (join_finish next),
   mk_op (λ v, jval ← on_fst (get_var_value v lhs_var); t ← input_of; set_input (build hash jval v t))
    (right_finish own_finish next)).

(** ** Left outer join

    The flag [dangling_tuple] over the loop; the padding is as wide as the first
    tuple of the right side, one value when there is none. *)
Fixpoint outer_loop (test : qr_tuple → M db bool) (next : op A) (v : qr_tuple) (input : list qr_tuple) (dangling : bool) :
    M (db * A) bool :=
  match input with
  | [] => mret dangling
  | t :: input' =>
    tp ← on_fst (test t);
    if (tp : bool) then consume next (v ++ t);; outer_loop test next v input' false
    else outer_loop test next v input' dangling
  end.
Definition padding (input : list qr_tuple) : qr_tuple :=
  repeat qr_null (match input with [] => 1%nat | t :: _ => length t end).
Definition left_outer_join (test : qr_tuple → qr_tuple → M db bool) (own_finish : bool) (next : op A) :
    op ((Z * list qr_tuple) * A) * op ((Z * list qr_tuple) * A) :=
  (mk_op (λ v,
      input ← input_of;
      dangling ← on_next (outer_loop (test v) next v input true);
      when (dangling : bool) (on_next (consume next (v ++ padding input))))
    (join_finish next),
   mk_op keep_input (right_finish own_finish next)).
(** The condition as an expression over both tuples, or as a function. *)
Definition outer_expr (ex : expr) (v t : qr_tuple) : M db bool := interpret_bool_expression ex (v ++ t).
Definition outer_func (pred : qr_tuple → qr_tuple → bool) (v t : qr_tuple) : M db bool := mret (pred v t).

(** ** Set operators *)
Definition union_all (own_finish : bool) (next : op A) : op ((Z * unit) * A) * op ((Z * unit) * A) :=
  (mk_op (λ v, on_next (consume next v)) (join_finish next),
   mk_op (λ v, on_next (consume next v)) (right_finish own_finish next)).

(** [subtrahend_] is a set of values. *)
Definition except (lhs_var rhs_var : var_ref) (own_finish : bool) (next : op A) :
    op ((Z * list query_result) * A) * op ((Z * list query_result) * A) :=
  (mk_op (λ v,
      minuend ← on_fst (get_var_value v lhs_var);
      sub ← input_of;
      when (negb (existsb (variant_eqb minuend) sub)) (on_next (consume next v)))
    (join_finish next),
   mk_op (λ v, x ← on_fst (get_var_value v rhs_var); sub ← input_of; set_input (x :: sub)) (right_finish own_finish next)).

(** [exists_op]: the subquery is a pipeline with a state of its own, at its end a
    counter that is reset for each tuple. *)
Definition sub_query_processed : op Z := mk_op (λ v s, ((s.1, s.2 + 1), Val tt)) (mret tt).
Definition exists_op {B} (subquery : op B) (count : B → Z) (reset : B → B) (is_not : bool) (next : op A) : op (B * A) :=
  mk_op (λ v,
      b ← own; set_own (reset b);;
      (λ s, let '((g, b'), r) := consume subquery v (s.1, s.2.1) in ((g, (b', s.2.2)), r));;
      b' ← own;
      when (if is_not then bool_decide (count b' = 0) else bool_decide (0 < count b')) (on_next (consume next v)))
    (on_next (finish next)).

(** ** Running

    What the theorems run: a list of tuples through an operator, and both inputs
    of an operator with two of them. *)
Definition feed {B} (o : op B) (l : list qr_tuple) : M (db * B) unit := for_each (consume o) l.
(** The right pipeline delivers its tuples and finishes, then the left one. *)
Definition run_join {B} (j : op B * op B) (left_input right_input : list qr_tuple) : M (db * B) unit :=
  feed j.2 right_input;; finish j.2;; feed j.1 left_input;; finish j.1.
End joins.
