(* ===== verification/QopAggregates.v ===== *)
(** * QopAggregates: aggregation and grouping (src/query/plan_op/qop_aggregates.cpp)

    The interpreted operators: no buffer of compiled code.  Groups are kept by
    the hash of their key alone.  The order in which a hash map is walked is a
    parameter; strings, doubles and dates are hashed by parameters too. *)

From Stdlib Require Import Ascii.
From S2P Require Import Prelude VecSpec Txn DictSpec IndexSpec Literals Property PropertyList GraphState GraphOps QueryCtx QResult Expr Qop.

Inductive func_t : Type := f_count | f_sum | f_min | f_max | f_avg.
Record aggr_expr : Type := mk_aggr {
  func : func_t; var : nat; property : str; pkey : Z; aggr_type : qr_type }.
Record group : Type := mk_group { g_var : nat; g_property : str; g_pkey : Z; grp_type : qr_type }.

(** [val_t]; a default-constructed one is the double zero. *)
Inductive val_t : Type :=
  | v_double (bits : Z) | v_int (i : Z) | v_uint64 (u : Z) | v_string (s : str) | v_pair (sum : Z) (count : Z).

(** [numeric_limits<double>::max()] and [min()], the least positive normal number. *)
Definition double_max : Z := 2046 * 2 ^ 52 + (2 ^ 52 - 1).
Definition double_min : Z := 2 ^ 52.
Definition tildes : str := repeat "~"%char 15.
Definition blanks : str := repeat " "%char 16.

(** [init_aggregates] of the two operators; they differ in the sum of [uint64_t]. *)
Definition init_value (group_by : bool) (ex : aggr_expr) : val_t :=
  match func ex, aggr_type ex with
  | f_count, _ => v_int 0
  | f_avg, _ => v_pair 0 0
  | f_sum, double_type => v_double 0
  | f_sum, int_type => v_int 0
  | f_sum, uint64_type => if group_by then v_int 0 else v_uint64 0
  | f_sum, _ => if group_by then v_int 0 else v_double 0
  | f_min, int_type => v_int (2 ^ 31 - 1)
  | f_min, double_type => v_double double_max
  | f_min, string_type => v_string tildes
  | f_min, uint64_type => v_uint64 (two64 - 1)
  | f_max, int_type => v_int (- 2 ^ 31)
  | f_max, double_type => v_double double_min
  | f_max, string_type => v_string blanks
  | f_max, uint64_type => v_uint64 0
  | f_min, _ | f_max, _ => v_double 0
  end.

(** [ex.pkey = dct->lookup_string(property)] *)
Definition code_of_property {D} `{!Dictionary D} (d : D) (p : str) : Z :=
  match p with [] => UNKNOWN_CODE | _ => d_lookup_string d p end.
Definition resolve_aggr {D} `{!Dictionary D} (d : D) (ex : aggr_expr) : aggr_expr :=
  mk_aggr (func ex) (var ex) (property ex) (code_of_property d (property ex)) (aggr_type ex).
Definition resolve_group {D} `{!Dictionary D} (d : D) (g : group) : group :=
  mk_group (g_var g) (g_property g) (code_of_property d (g_property g)) (grp_type g).

Section aggregates.
Context {V : Type → Type} `{!Vec V} `{!VecScan V} {D : Type} `{!Dictionary D} {X : Type} `{!Indexes X}.
Variables (double_string : Z → str) (uninit : p_item).
Variables (hash_string : str → Z) (hash_double hash_ptime : Z → Z).
Notation db := (gdb V D X).
Notation op := (op (V:=V) (D:=D) (X:=X)).

(** [get_int_value] and its relatives, for a position and a code. *)
Definition get_int_value (v : qr_tuple) (x : nat) (pk : Z) : M db Z :=
  if bool_decide (pk = UNKNOWN_CODE) then q ← elem_at v x; lift_res (qv_get_int q) else int_value uninit v x pk.
Definition get_ptime_value (v : qr_tuple) (x : nat) (pk : Z) : M db Z :=
  if bool_decide (pk = UNKNOWN_CODE) then q ← elem_at v x; lift_res (qv_get_ptime q) else ptime_value uninit v x pk.
Definition get_double_value (v : qr_tuple) (x : nat) (pk : Z) : M db Z :=
  if bool_decide (pk ≠ UNKNOWN_CODE) then double_value uninit v x pk
  else q ← elem_at v x;
       match q with qr_int i => mret (to_double i) | qr_double b => mret b | _ => throw bad_get end.
Definition get_string_value (v : qr_tuple) (x : nat) (pk : Z) : M db str :=
  if bool_decide (pk = UNKNOWN_CODE) then q ← elem_at v x; lift_res (qv_get_string q)
  else string_value double_string uninit v x pk.
Definition get_uint64_value (v : qr_tuple) (x : nat) (pk : Z) : M db Z :=
  if bool_decide (pk = UNKNOWN_CODE)
  then q ← elem_at v x; match q with qr_uint64 u => mret u | _ => throw bad_get end
  else uint64_value uninit v x pk.

(** [std::min(a, b)] is [b] when [b < a], [std::max(a, b)] is [b] when [a < b]. *)
Definition pick {T} (is_min : bool) (ltb : T → T → bool) (a b : T) : T :=
  if is_min then (if ltb b a then b else a) else (if ltb a b then b else a).
(** A step of [process] or [update_aggregates] for one aggregate. *)
Definition extremum (is_min : bool) (v : qr_tuple) (ex : aggr_expr) (val : val_t) : M db val_t :=
  match aggr_type ex, val with
  | int_type, v_int a => b ← get_int_value v (var ex) (pkey ex); mret (v_int (pick is_min Z.ltb a b))
  | double_type, v_double a => b ← get_double_value v (var ex) (pkey ex); mret (v_double (pick is_min bits_ltb a b))
  | string_type, v_string a => b ← get_string_value v (var ex) (pkey ex); mret (v_string (pick is_min str_lt a b))
  | uint64_type, v_uint64 a => b ← get_uint64_value v (var ex) (pkey ex); mret (v_uint64 (pick is_min Z.ltb a b))
  | (int_type | double_type | string_type | uint64_type), _ => throw bad_get
  | _, _ => mret val
  end.
Definition double_add (a b : Z) : Z := double_math_op op_PLUS a b.
Definition update_value (v : qr_tuple) (ex : aggr_expr) (val : val_t) : M db val_t :=
  match func ex with
  | f_count => match val with v_int n => n' ← lift_res (int_result (n + 1)); mret (v_int n') | _ => throw bad_get end
  | f_sum =>
    match aggr_type ex, val with
    | int_type, v_int a => b ← get_int_value v (var ex) (pkey ex); c ← lift_res (int_result (a + b)); mret (v_int c)
    | double_type, v_double a => b ← get_double_value v (var ex) (pkey ex); mret (v_double (double_add a b))
    | (int_type | double_type), _ => throw bad_get
    | _, _ => mret val
    end
  | f_min => extremum true v ex val
  | f_max => extremum false v ex val
  | f_avg =>
    match val with
    | v_pair sum n =>
      b ← get_double_value v (var ex) (pkey ex); n' ← lift_res (int_result (n + 1)); mret (v_pair (double_add sum b) n')
    | _ => throw bad_get
    end
  end.
Fixpoint update_values (v : qr_tuple) (exs : list aggr_expr) (vals : list val_t) : M db (list val_t) :=
  match exs, vals with
  | ex :: exs', val :: vals' => val' ← update_value v ex val; vals'' ← update_values v exs' vals'; mret (val' :: vals'')
  | _, _ => mret []
  end.

(** The value of an aggregate in the result; none for a sum of another type. *)
Definition result_value (ex : aggr_expr) (val : val_t) : res (option query_result) :=
  let typed :=
    match aggr_type ex, val with
    | int_type, v_int i => Val (Some (qr_int i))
    | double_type, v_double b => Val (Some (qr_double b))
    | string_type, v_string s => Val (Some (qr_string s))
    | uint64_type, v_uint64 u => Val (Some (qr_uint64 u))
    | (int_type | double_type | string_type | uint64_type), _ => Exn bad_get
    | _, _ => Val None
    end in
  match func ex with
  | f_count => match val with v_int n => Val (Some (qr_int n)) | _ => Exn bad_get end
  | f_sum => match aggr_type ex with int_type | double_type => typed | _ => Val None end
  | f_avg => match val with v_pair sum n => Val (Some (qr_double (double_math_op op_DIV sum (to_double n)))) | _ => Exn bad_get end
  | f_min | f_max => typed
  end.
Fixpoint result_values (exs : list aggr_expr) (vals : list val_t) : res (list (option query_result)) :=
  match exs, vals with
  | ex :: exs', val :: vals' => r ← result_value ex val; rs ← result_values exs' vals'; Val (r :: rs)
  | _, _ => Val []
  end.

(** ** [aggregate]: one tuple for all

    The tuple is made with default values; [group_by] appends the values. *)
Definition aggregate {A} (exs : list aggr_expr) (next : op A) : op (list val_t * A) :=
  mk_op (λ v, vals ← own; vals' ← on_fst (update_values v exs vals); set_own vals')
    (vals ← own; rs ← lift_res (result_values exs vals);
     on_next (consume next (from_option id no_result <$> rs));; on_next (finish next)).
Definition init_aggregates (exs : list aggr_expr) : list val_t := init_value false <$> exs.

(** ** [group_by] *)
Definition mix (h x : Z) : Z := Z.lxor h (u64 (x + u64 (Z.shiftl h 6) + Z.shiftr h 2)).
Definition golden : Z := 0x9e3779b9.
Definition hash_group (v : qr_tuple) (g : group) (h : Z) : M db Z :=
  elem ← elem_at v (g_var g);
  match grp_type g with
  | node_ptr_type => n ← node_ptr elem; o ← node_ref n; mret (Z.lxor h (node_id_ (body_ o)))
  | rship_ptr_type => r ← rship_ptr elem; o ← rship_ref r; mret (Z.lxor h (rship_id_ (body_ o)))
  | int_type =>
    i ← (match g_property g with [] => lift_res (qv_get_int elem) | _ => get_int_value v (g_var g) (g_pkey g) end);
    mret (mix h (u32 (i + golden)))
  | uint64_type =>
    u ← (match g_property g with [] => match elem with qr_uint64 u => mret u | _ => throw bad_get end
         | _ => get_uint64_value v (g_var g) (g_pkey g) end);
    mret (mix h (u64 (u + golden)))
  | double_type =>
    d ← (match g_property g with [] => match elem with qr_double d => mret d | _ => throw bad_get end
         | _ => get_double_value v (g_var g) (g_pkey g) end);
    mret (mix h (u64 (hash_double d + golden)))
  | string_type =>
    s ← (match g_property g with [] => lift_res (qv_get_string elem) | _ => get_string_value v (g_var g) (g_pkey g) end);
    mret (mix h (u64 (hash_string s + golden)))
  | ptime_type =>
    t ← (match g_property g with [] => lift_res (qv_get_ptime elem) | _ => get_ptime_value v (g_var g) (g_pkey g) end);
    mret (Z.lxor h (hash_ptime t))
  | _ => mret h
  end.
Fixpoint hasher (v : qr_tuple) (groups : list group) (h : Z) : M db Z :=
  match groups with
  | [] => mret h
  | g :: gs => h' ← hash_group v g h; hasher v gs h'
  end.

(** The values of the key; groups of other types have none. *)
Definition key_value (v : qr_tuple) (g : group) : M db (list query_result) :=
  match grp_type g with
  | int_type => x ← get_int_value v (g_var g) (g_pkey g); mret [qr_int x]
  | uint64_type => x ← get_uint64_value v (g_var g) (g_pkey g); mret [qr_uint64 x]
  | string_type => x ← get_string_value v (g_var g) (g_pkey g); mret [qr_string x]
  | double_type => x ← get_double_value v (g_var g) (g_pkey g); mret [qr_double x]
  | ptime_type => x ← get_ptime_value v (g_var g) (g_pkey g); mret [qr_ptime x]
  | _ => mret []
  end.
Fixpoint key_values (v : qr_tuple) (groups : list group) : M db qr_tuple :=
  match groups with
  | [] => mret []
  | g :: gs => x ← key_value v g; xs ← key_values v gs; mret (x ++ xs)
  end.

(** The two hash maps. *)
Record group_state : Type := mk_groups { group_keys_ : gmap Z qr_tuple; aggr_vals_ : gmap Z (list val_t) }.
Definition no_groups : group_state := mk_groups ∅ ∅.
Definition group_process {A} (groups : list group) (exs : list aggr_expr) (v : qr_tuple) : M (db * (group_state * A)) unit :=
  key ← on_fst (hasher v groups 0);
  s ← own;
  match aggr_vals_ s !! key with
  | Some aval =>
    aval' ← on_fst (update_values v exs aval);
    set_own (mk_groups (group_keys_ s) (<[key := aval']> (aggr_vals_ s)))
  | None =>
    v2 ← on_fst (key_values v groups);
    (* [emplace] keeps an entry that is there *)
    let keys := match group_keys_ s !! key with Some _ => group_keys_ s | None => <[key := v2]> (group_keys_ s) end in
    set_own (mk_groups keys (aggr_vals_ s));;
    aval' ← on_fst (update_values v exs (init_value true <$> exs));
    set_own (mk_groups keys (<[key := aval']> (aggr_vals_ s)))
  end.

(** The key of a result: the values are taken by the type of the group at their
    position where the group is a property. *)
Definition key_out (g : group) (x : query_result) : res (list query_result) :=
  if bool_decide (g_pkey g = UNKNOWN_CODE) then Val [x]
  else match grp_type g, x with
       | int_type, qr_int _ | double_type, qr_double _ | string_type, qr_string _
       | uint64_type, qr_uint64 _ | ptime_type, qr_ptime _ => Val [x]
       | (int_type | double_type | string_type | uint64_type | ptime_type), _ => Exn bad_get
       | _, _ => Val []
       end.
Fixpoint keys_out (groups : list group) (tup : qr_tuple) : res qr_tuple :=
  match tup, groups with
  | [], _ => Val []
  | _ :: _, [] => Exn undefined_behaviour
  | x :: tup', g :: gs => k ← key_out g x; ks ← keys_out gs tup'; Val (k ++ ks)
  end.
Definition group_result (groups : list group) (exs : list aggr_expr) (s : group_state) (key : Z) : res qr_tuple :=
  match group_keys_ s !! key, aggr_vals_ s !! key with
  | Some tup, Some vals => ks ← keys_out groups tup; rs ← result_values exs vals; Val (ks ++ omap id rs)
  | _, _ => Exn assertion_failed
  end.
(** [walk] lists the keys of the hash map in the order of its iterator. *)
Definition group_by {A} (walk : gmap Z (list val_t) → list Z) (groups : list group) (exs : list aggr_expr) (next : op A) :
    op (group_state * A) :=
  mk_op (group_process groups exs)
    (s ← own;
     for_each (λ key, v ← lift_res (group_result groups exs s key); on_next (consume next v)) (walk (aggr_vals_ s));;
     on_next (finish next)).
End aggregates.
