(* ===== verification/QopUpdates.v ===== *)
(** * QopUpdates: operators that change the graph (src/query/plan_op/qop_updates.cpp) *)

From S2P Require Import Prelude VecSpec Txn DictSpec IndexSpec Literals Property PropertyList GraphState GraphOps QueryCtx QResult Expr Qop.

Section updates.
Context {V : Type → Type} `{!Vec V} `{!VecScan V} {D : Type} `{!Dictionary D} {X : Type} `{!Indexes X}.
Variables (ptime_of_date time_from_string : str → res Z) (junk : Z).
Variables (ptime_eqb ptime_ltb : Z → Z → bool) (regex_match : str → str → bool) (uninit : p_item).
Notation db := (gdb V D X).
Notation expr := (expr db).
Notation op := (op (V:=V) (D:=D) (X:=X)).
Notation add_node := (add_node ptime_of_date time_from_string junk).
Notation add_relationship := (add_relationship ptime_of_date time_from_string junk).
Notation update_node := (update_node ptime_of_date time_from_string junk).
Notation interpret_expression := (interpret_expression ptime_eqb ptime_ltb regex_match uninit).
Context {A : Type}.

(** ** Properties with expressions

    A [std::any] may hold an expression; code that does not look for one sees a
    value of some other type. *)
Inductive prop_value : Type := p_any (v : any) | p_expr (e : expr).
Notation op_props := (list (str * prop_value)).
Definition check_for_expr_in_properties (props : op_props) : bool :=
  existsb (λ kv, match kv.2 with p_expr _ => true | p_any _ => false end) props.
Definition raw_properties (props : op_props) : properties_t :=
  (λ kv, (kv.1, match kv.2 with p_any v => v | p_expr _ => any_other end)) <$> props.
Fixpoint eval_loop (v : qr_tuple) (props : op_props) (new_props : properties_t) : M db properties_t :=
  match props with
  | [] => mret new_props
  | (k, p_any a) :: props' => eval_loop v props' (pmap_insert k a new_props)
  | (k, p_expr e) :: props' =>
    val ← interpret_expression e v; eval_loop v props' (pmap_insert k (qv_to_any val) new_props)
  end.
Definition eval_properties (v : qr_tuple) (props : op_props) : M db properties_t := eval_loop v props [].

(** ** Creating *)
Definition new_node_ref (label : str) (props : properties_t) : M db oref :=
  id ← add_node label props true; node_by_id id.
(** As the first operator: [start] does not call [finish_]. *)
Definition create_node_start (label : str) (props : op_props) (next : op A) : M (db * A) unit :=
  props' ← (if check_for_expr_in_properties props then on_fst (eval_properties [] props) else mret (raw_properties props));
  n ← on_fst (new_node_ref label props');
  consume next [qr_node (Some n)].
(** Behind another operator: the evaluated properties are not used. *)
Definition create_node_op (label : str) (props : op_props) (next : op A) : op A :=
  mk_op (λ v,
      _ ← (if check_for_expr_in_properties props then on_fst (eval_properties v props) else mret []);
      n ← on_fst (new_node_ref label (raw_properties props));
      consume next (v ++ [qr_node (Some n)]))
    (finish next).

Definition node_elem_id (v : qr_tuple) (pos : nat) : M db Z :=
  qv ← elem_at v pos;
  assert_ (bool_decide (which qv = node_ptr_type));; n ← node_ptr qv; o ← node_ref n; mret (node_id_ (body_ o)).
Definition create_relationship_op (label : str) (props : op_props) (src_des : nat * nat) (next : op A) : op A :=
  mk_op (λ v,
      n1 ← on_fst (node_elem_id v src_des.1); n2 ← on_fst (node_elem_id v src_des.2);
      props' ← (if check_for_expr_in_properties props then on_fst (eval_properties v props) else mret (raw_properties props));
      rid ← on_fst (add_relationship n1 n2 label props' true);
      r ← on_fst (rship_by_id rid);
      consume next (v ++ [qr_rship (Some r)]))
    (finish next).

(** ** Updating: expressions are not evaluated *)
Definition update_node_op (var_no : nat) (props : op_props) (next : op A) : op A :=
  mk_op (λ v,
      qv ← elem_at v var_no; assert_ (bool_decide (which qv = node_ptr_type));; n ← node_ptr qv;
      on_fst (update_node n (raw_properties props) []);; consume next v)
    (finish next).

(** ** Deleting

    The position is that of the last element when none is given; the element
    is replaced by a null value. *)
Definition pos_of {St} (v : qr_tuple) (pos : option nat) : M St nat :=
  match pos with
  | Some i => mret i
  | None => match v with [] => throw undefined_behaviour | _ => mret (length v - 1)%nat end
  end.
Definition node_at_pos (v : qr_tuple) (i : nat) : M db oref := qv ← elem_at v i; node_ptr qv.
Definition remember_rship (r : oref) : M (db * list Z) unit := λ s,
  let '(g, x) := rship_ref r s.1 in
  match x with Val o => ((g, s.2 ++ [rship_id_ (body_ o)]), Val tt) | Exn e => ((g, s.2), Exn e) end.
Definition rships_of (n : oref) : M db (list Z) := λ g,
  let '((g', l), r) :=
    (o ← on_fst (node_ref n); foreach_from_relationship_of_node (body_ o) remember_rship;;
     o' ← on_fst (node_ref n); foreach_to_relationship_of_node (body_ o') remember_rship) (g, []) in
  (g', match r with Val _ => Val l | Exn e => Exn e end).
Definition detach_node (pos : option nat) (next : op A) : op A :=
  mk_op (λ v,
      i ← pos_of v pos; n ← on_fst (node_at_pos v i);
      rships ← on_fst (rships_of n);
      on_fst (for_each delete_relationship rships);;
      o ← on_fst (node_ref n); on_fst (delete_node (node_id_ (body_ o)));;
      consume next (<[i := qr_null]> v))
    (finish next).
Definition remove_node (pos : option nat) (next : op A) : op A :=
  mk_op (λ v,
      i ← pos_of v pos; n ← on_fst (node_at_pos v i);
      o ← on_fst (node_ref n); on_fst (delete_node (node_id_ (body_ o)));;
      consume next (<[i := qr_null]> v))
    (finish next).
Definition rship_elem_id (qv : query_result) : M db Z :=
  match qv with
  | qr_rship r => r' ← rship_ptr (qr_rship r); o ← rship_ref r'; mret (rship_id_ (body_ o))
  | qr_rship_descr d => mret (rd_id d)
  | _ => throw bad_get
  end.
Definition remove_relationship (pos : option nat) (next : op A) : op A :=
  mk_op (λ v,
      i ← pos_of v pos; qv ← elem_at v i; rid ← on_fst (rship_elem_id qv);
      on_fst (delete_relationship rid);; consume next (<[i := qr_null]> v))
    (finish next).
End updates.

(** ** Projections (src/query/plan_op/qop_projection.cpp, qop_builtins.cpp)

    Nodes and relationships of the tuple are replaced by their descriptions, then
    each projection function makes one element of the result.  The strings of
    dates and the user-defined functions are parameters. *)

Section projection.
Context {V : Type → Type} `{!Vec V} `{!VecScan V} {D : Type} `{!Dictionary D} {X : Type} `{!Indexes X}.
Variables (ptime_eqb ptime_ltb : Z → Z → bool) (regex_match : str → str → bool) (uninit : p_item).
Variables (int_to_date int_to_datetime : Z → str).
Notation db := (gdb V D X).
Notation expr := (expr db).
Notation op := (op (V:=V) (D:=D) (X:=X)).
Notation interpret_expression := (interpret_expression ptime_eqb ptime_ltb regex_match uninit).
Notation interpret_bool_expression := (interpret_bool_expression ptime_eqb ptime_ltb regex_match uninit).

Inductive prj : Type :=
  | prj_unknown | prj_forward
  | prj_int_property | prj_uint64_property | prj_string_property | prj_double_property | prj_ptime_property | prj_date_property
  | prj_arithmetic_expr (pex : expr) | prj_case_expr (pex pex_1 pex_2 : expr)
  | prj_int_property_as_datestring | prj_int_property_as_datetimestring
  | prj_label
  | prj_function (f : query_result → M db query_result).
Record pexpr : Type := mk_pexpr { idx : nat; pname : str; pfunc : prj }.

(** [int_property] and its relatives: null without the property, an error for
    another type of value. *)
Definition typed_property (ty : expr_type) (pv : query_result) (key : str) : res query_result :=
  let of_props (props : properties_t) : res query_result :=
    match find_property props key with
    | None => Val qr_null
    | Some v => match cast_property ty v with Some q => Val q | None => Exn query_processing_error end
    end in
  match pv with
  | qr_node_descr d => of_props (nd_properties d)
  | qr_rship_descr d => of_props (rd_properties d)
  | _ => Val qr_null
  end.
Definition int_as_string (f : Z → str) (v : query_result) : res query_result :=
  match v with qr_int i => Val (qr_string (f i)) | _ => Exn assertion_failed end.
Definition label_of (pv : query_result) : query_result :=
  match pv with
  | qr_node_descr d => qr_string (nd_label d)
  | qr_rship_descr d => qr_string (rd_label d)
  | _ => qr_null
  end.

Definition has_property (pv : query_result) (key : str) : bool :=
  match pv with
  | qr_node_descr d => bool_decide (is_Some (find_property (nd_properties d) key))
  | qr_rship_descr d => bool_decide (is_Some (find_property (rd_properties d) key))
  | _ => false
  end.
Definition has_label (pv : query_result) (l : str) : bool :=
  match pv with
  | qr_node_descr d => bool_decide (nd_label d = l)
  | qr_rship_descr d => bool_decide (rd_label d = l)
  | _ => false
  end.
(** [std::string::substr] throws when the start is behind the end. *)
Definition substr (s : str) (start len : nat) : res query_result :=
  if bool_decide (length s < start)%nat then Exn out_of_range_std else Val (qr_string (take len (drop start s))).
Definition substring (pv : query_result) (key : str) (start len : nat) : res query_result :=
  match pv, key with
  | qr_string s, [] => substr s start len
  | (qr_node_descr _ | qr_rship_descr _), _ =>
    if has_property pv key
    then v ← typed_property ty_STRING pv key;
         match v with qr_string s => substr s start len | _ => Val qr_null end
    else Val qr_null
  | _, _ => Val qr_null
  end.

Definition prj_func (ex : pexpr) (qr : qr_tuple) : M db query_result :=
  let on_elem (f : query_result → res query_result) : M db query_result := v ← elem_at qr (idx ex); lift_res (f v) in
  let prop ty := on_elem (λ v, typed_property ty v (pname ex)) in
  match pfunc ex with
  | prj_forward => on_elem Val
  | prj_int_property => prop ty_INT
  | prj_int_property_as_datestring => on_elem (λ v, x ← typed_property ty_INT v (pname ex); int_as_string int_to_date x)
  | prj_int_property_as_datetimestring => on_elem (λ v, x ← typed_property ty_INT v (pname ex); int_as_string int_to_datetime x)
  | prj_uint64_property => prop ty_UINT64
  | prj_double_property => prop ty_DOUBLE
  | prj_string_property => prop ty_STRING
  | prj_ptime_property | prj_date_property => prop ty_DATETIME
  | prj_case_expr e e1 e2 => b ← interpret_bool_expression e qr; interpret_expression (if (b : bool) then e1 else e2) qr
  | prj_arithmetic_expr e => interpret_expression e qr
  | prj_label => on_elem (λ v, Val (label_of v))
  | prj_function f => v ← elem_at qr (idx ex); f v
  | prj_unknown => throw bad_function_call
  end.

(** [accessed_]: a set, walked in ascending order. *)
Definition accessed (exprs : list pexpr) : list nat :=
  let ids := idx <$> exprs in filter (λ i, i ∈ ids) (seq 0 (S (foldr Nat.max O ids))).
Fixpoint cache (v : qr_tuple) (acc : list nat) (v_cached : qr_tuple) : M db qr_tuple :=
  match acc with
  | [] => mret v_cached
  | av :: acc' =>
    qv ← elem_at v av;
    match qv with
    | qr_node n =>
      n' ← node_ptr (qr_node n); o ← node_ref n'; d ← get_node_description (node_id_ (body_ o));
      cache v acc' (<[av := qr_node_descr d]> v_cached)
    | qr_rship r =>
      r' ← rship_ptr (qr_rship r); o ← rship_ref r'; d ← get_rship_description (rship_id_ (body_ o));
      cache v acc' (<[av := qr_rship_descr d]> v_cached)
    | _ => cache v acc' v_cached
    end
  end.
(** [catch (unknown_property&)] leaves the element as it was made. *)
Fixpoint project_all (exprs : list pexpr) (v_cached : qr_tuple) : M db qr_tuple :=
  match exprs with
  | [] => mret []
  | ex :: exprs' =>
    x ← try_catch (prj_func ex v_cached) unknown_property (mret no_result);
    xs ← project_all exprs' v_cached; mret (x :: xs)
  end.
Definition projection {A} (exprs : list pexpr) (next : op A) : op A :=
  mk_op (λ v,
      v_cached ← on_fst (cache v (accessed exprs) v);
      qres ← on_fst (project_all exprs v_cached);
      consume next qres)
    (finish next).
End projection.
