(* ===== verification/GraphIndex.v ===== *)
(** * GraphIndex: the indexes of the database (src/storage/graph_db_index.cpp)

    An index maps the raw value of a property to the id of a node; the name
    "label:property" leads to it.  [commit] keeps the first index that fits the
    properties of an object up to date (the functions of the second part).
    The configuration is the one in memory ([USE_IN_MEMORY]). *)

From Stdlib Require Import Ascii.
From S2P Require Import Prelude VecSpec DictSpec IndexSpec Literals Property PropertyList Txn Mvto GraphState GraphOps QueryCtx.

Section index.
Context {V : Type → Type} `{!Vec V} `{!VecScan V} {D : Type} `{!Dictionary D} {X : Type} `{!Indexes X}.
Notation db := (gdb V D X).

(** [node_label + ":" + prop_name] *)
Definition index_name (node_label prop_name : str) : str := node_label ++ ":"%char :: prop_name.

Definition get_index (node_label prop_name : str) : M db nat :=
  g ← get_st; lift_res (ix_get (index_map_ g) (index_name node_label prop_name)).
Definition has_index (node_label prop_name : str) : M db bool :=
  g ← get_st; mret (ix_has (index_map_ g) (index_name node_label prop_name)).
Definition drop_index (node_label prop_name : str) : M db unit :=
  _ ← get_index node_label prop_name;
  on_indexes (ix_unregister (index_name node_label prop_name)).

(** ** Creating an index *)

(** A function with consumers that keep no state of their own. *)
Definition stateless {C} (m : M (db * unit) C) : M db C := λ g,
  let '(s, r) := m (g, tt) in (s.1, r).

Definition create_index (node_label prop_name : str) : M db nat :=
  new_idx ← on_indexes ix_make;
  pc ← get_code prop_name;
  stateless (nodes_by_label node_label (λ n,
    on_fst (o ← node_ref n;
            val ← get_node_property_value (body_ o) pc;
            when (negb (is_empty val))
              (on_indexes (ix_insert new_idx (get_raw val) (node_id_ (body_ o)))))));;
  on_indexes (ix_register (index_name node_label prop_name) new_idx);;
  mret new_idx.

(** ** The index for a list of properties *)

(** The first property with an index, and its position. *)
Fixpoint first_index (x : X) (d : D) (node_label : str) (pos : Z) (props : pitems) : res (index_id * Z) :=
  match props with
  | [] => Val (None, -1)
  | it :: props' =>
    pname ← d_lookup_code d (key_ it);
    match ix_get_id x (index_name node_label pname) with
    | Some i => Val (Some i, pos)
    | None => first_index x d node_label (pos + 1) props'
    end
  end.
Definition get_index_for (label : Z) (props : pitems) : M db (index_id * Z) :=
  g ← get_st;
  node_label ← lift_res (d_lookup_code (dict_ g) label);
  lift_res (first_index (index_map_ g) (dict_ g) node_label 0 props).

(** [advance(it, idx.second)]; behind the end of the list it is undefined. *)
Definition item_at (props : pitems) (pos : Z) : res p_item :=
  match props !! Z.to_nat pos with Some it => Val it | None => Exn undefined_behaviour end.

Definition index_insert (idx : index_id * Z) (id : Z) (props : pitems) : M db unit :=
  p ← lift_res (item_at props idx.2);
  match idx.1 with None => mret tt | Some i => on_indexes (ix_insert i (get_raw p) id) end.
Definition index_delete (idx : index_id * Z) (props : pitems) : M db unit :=
  p ← lift_res (item_at props idx.2);
  match idx.1 with None => mret tt | Some i => on_indexes (ix_erase i (get_raw p));; mret tt end.
Definition index_update (idx : index_id * Z) (id : Z) (old_props new_props : pitems) : M db unit :=
  index_delete idx old_props;; index_insert idx id new_props.

(** ** Looking up *)
Definition index_find (idx : index_id) (key : Z) : M db (option Z) :=
  match idx with None => mret None | Some i => on_indexes (ix_lookup i key) end.

Definition index_lookup {A} (idx : index_id) (key : Z) (consumer : oref → M (db * A) unit) : M (db * A) unit :=
  val ← on_fst (index_find idx key);
  match val with None => mret tt | Some val => n ← on_fst (node_by_id val); consumer n end.

(** For a list of indexes: the first that has the key. *)
Fixpoint index_lookup_any {A} (idxs : list index_id) (key : Z) (consumer : oref → M (db * A) unit) : M (db * A) unit :=
  match idxs with
  | [] => mret tt
  | idx :: idxs' =>
    val ← on_fst (index_find idx key);
    match val with
    | None => index_lookup_any idxs' key consumer
    | Some val => n ← on_fst (node_by_id val); consumer n
    end
  end.

(** The node is taken from its table, whatever the transaction sees. *)
Definition node_id_from_index (idx : index_id) (key : Z) : M db Z :=
  val ← index_find idx key;
  match val with
  | None => mret UNKNOWN
  | Some val => t ← at_node val get_st; mret (node_id_ (body_ (main_ t)))
  end.
End index.
