(* ===== verification/QopScans.v ===== *)
(** * QopScans: producers and traversals (src/query/plan_op/qop_scans.cpp, qop_relationships.cpp)

    A scan is what [start] does with its subscriber; a parallel scan has the
    schedule of its tasks as an argument, a traversal with a number of hops its
    fuel. *)

From S2P Require Import Prelude VecSpec Txn DictSpec IndexSpec Literals Property PropertyList GraphState GraphOps QueryCtx QResult Expr Qop GraphIndex.

Section scans.
Context {V : Type → Type} `{!Vec V} `{!VecScan V} {D : Type} `{!Dictionary D} {X : Type} `{!Indexes X}.
Notation db := (gdb V D X).
Notation op := (op (V:=V) (D:=D) (X:=X)).
Context {A : Type}.
Implicit Types next : op A.

Definition deliver_node next (n : oref) : M (db * A) unit := consume next [qr_node (Some n)].
Definition deliver_rship next (r : oref) : M (db * A) unit := consume next [qr_rship (Some r)].

Definition node_scan_op (label : str) (labels : list str) (schedule : list (option nat)) next : M (db * A) unit :=
  (match label, labels with
   | [], [] => parallel_nodes schedule (deliver_node next)
   | _ :: _, _ => parallel_nodes_with_label schedule label (deliver_node next)
   | [], _ :: _ => nodes_by_labels labels (deliver_node next)
   end);;
  finish next.
Definition relationship_scan (label : str) (labels : list str) (schedule : list (option nat)) next : M (db * A) unit :=
  (match label, labels with
   | [], [] => parallel_relationships schedule (deliver_rship next)
   | _ :: _, _ => parallel_relationships_with_label schedule label (deliver_rship next)
   | [], _ :: _ => relationships_by_labels labels (deliver_rship next)
   end);;
  finish next.
Definition index_scan (idx : index_id) (idxs : list index_id) (key : Z) next : M (db * A) unit :=
  (match idxs with [] => index_lookup idx key (deliver_node next) | _ => index_lookup_any idxs key (deliver_node next) end);;
  finish next.
Definition node_by_id_op (id : Z) next : M (db * A) unit :=
  n ← on_fst (node_by_id id); deliver_node next n;; finish next.
Definition start_pipeline (v : qr_tuple) next : M (db * A) unit := consume next v.

(** ** Relationships of a node in the tuple

    The code of the label is found as long as it is zero. *)
Definition start_node (v : qr_tuple) (npos : option nat) : M (db * (Z * A)) node :=
  qv ← elem_or_back v npos; n ← node_ptr qv; o ← on_fst (node_ref n); mret (body_ o).
Definition label_member (label : str) : M (db * (Z * A)) Z :=
  lc ← own; lc' ← on_fst (code_for lc label); set_own lc';; mret lc'.
Definition append_rship next (v : qr_tuple) (r : oref) : M (db * (Z * A)) unit :=
  on_next (consume next (v ++ [qr_rship (Some r)])).
(** With the node at the other side. *)
Definition append_both (side : relationship → Z) next (v : qr_tuple) (r : oref) : M (db * (Z * A)) unit :=
  o ← on_fst (rship_ref r); n ← on_fst (node_by_id (side (body_ o)));
  on_next (consume next (v ++ [qr_rship (Some r); qr_node (Some n)])).

Definition foreach_from_relationship (label : str) (npos : option nat) next : op (Z * A) :=
  mk_op (λ v, n ← start_node v npos; lc ← label_member label;
              foreach_from_relationship_of_node_code n lc (append_rship next v))
    (on_next (finish next)).
Definition foreach_to_relationship (label : str) (npos : option nat) next : op (Z * A) :=
  mk_op (λ v, n ← start_node v npos; lc ← label_member label;
              foreach_to_relationship_of_node_code n lc (append_rship next v))
    (on_next (finish next)).
(** The node is referred to, so its second list is read after the first loop. *)
Definition foreach_all_relationship (label : str) (npos : option nat) next : op (Z * A) :=
  mk_op (λ v, n ← start_node v npos; lc ← label_member label;
              foreach_from_relationship_of_node_code n lc (append_both dest_node next v);;
              n' ← start_node v npos;
              foreach_to_relationship_of_node_code n' lc (append_both src_node next v))
    (on_next (finish next)).
Definition foreach_variable_from_relationship (fuel : nat) (label : str) (min max : Z) (npos : option nat) next : op (Z * A) :=
  mk_op (λ v, n ← start_node v npos; lc ← label_member label;
              foreach_variable_from_relationship_of_node_code fuel n lc min max (append_rship next v))
    (on_next (finish next)).
Definition foreach_variable_to_relationship (fuel : nat) (label : str) (min max : Z) (npos : option nat) next : op (Z * A) :=
  mk_op (λ v, n ← start_node v npos; lc ← label_member label;
              foreach_variable_to_relationship_of_node_code fuel n lc min max (append_rship next v))
    (on_next (finish next)).
Definition foreach_variable_all_relationship (fuel : nat) (label : str) (min max : Z) (npos : option nat) next : op (Z * A) :=
  mk_op (λ v, n ← start_node v npos; lc ← label_member label;
              foreach_variable_from_relationship_of_node_code fuel n lc min max (append_both dest_node next v);;
              n' ← start_node v npos;
              foreach_variable_to_relationship_of_node_code fuel n' lc min max (append_both src_node next v))
    (on_next (finish next)).
End scans.
