(* ===== verification/GraphCommit.v ===== *)
(** * GraphCommit: the end of transactions and garbage collection

    [commit_transaction], [abort_transaction], [run_transaction] of
    src/storage/graph_db.cpp and [vacuum] of graph_db_gc.cpp, in the
    configuration of [GraphOps] and [GraphIndex]. *)

From S2P Require Import Prelude VecSpec DictSpec IndexSpec Literals Property PropertyList Txn Mvto GraphState GraphOps GraphIndex.

Section commit.
Context {V : Type → Type} `{!Vec V} {D : Type} `{!Dictionary D} {X : Type} `{!Indexes X}.
Variable junk : Z.
Notation db := (gdb V D X).

(** ** Copying properties to the tables *)

(** [foreach_property_set] with a null callback: it only walks the chain. *)
Definition walk_nprops (id : Z) : M db unit :=
  g ← get_st; _ ← lift_res (foreach_property_set (node_properties_ g) id); mret tt.
Definition walk_rprops (id : Z) : M db unit :=
  g ← get_st; _ ← lift_res (foreach_property_set (rship_properties_ g) id); mret tt.

Definition copy_node_properties (id : Z) (dn : dirty_object node pitems) : M db unit :=
  if bool_decide (properties_ dn = []) then mret tt
  else
    t ← at_node id get_st;
    let b := body_ (main_ t) in
    pid ← (if update_mode_ dn then
             walk_nprops (node_plist b);;
             on_nprops (update_pitems junk (node_id_ b) (node_plist b) (properties_ dn))
           else on_nprops (add_pitems junk (node_id_ b) (properties_ dn)));
    at_node id (put Main (set_body (set_node_plist pid))).

Definition copy_rship_properties (id : Z) (dr : dirty_object relationship pitems) : M db unit :=
  if bool_decide (properties_ dr = []) then mret tt
  else
    t ← at_rship id get_st;
    let b := body_ (main_ t) in
    pid ← (if update_mode_ dr then
             walk_rprops (rship_plist b);;
             on_rprops (update_pitems junk (rship_id_ b) (rship_plist b) (properties_ dr))
           else on_rprops (add_pitems junk (rship_id_ b) (properties_ dr)));
    at_rship id (put Main (set_body (set_rship_plist pid))).

(** ** Committing one object *)

(** What commit copies from the fields of a version. *)
Definition copy_node_fields (b b' : node) : node :=
  mk_node (node_id_ b) (from_rship_list b') (to_rship_list b') (node_plist b) (node_label b').
Definition copy_rship_label (b b' : relationship) : relationship := set_rship_label (rship_label b') b.

Definition collect (xid id : Z) (k : gc_kind) : M db unit :=
  modify (λ g, set_garbage (garbage_ g ++ [mk_gc xid id k]) g).

(** The end of each case: [pop_front], [unlock] of the version behind (except
    after an insert), [unlock], [gc]. *)
Definition finish_node (id : Z) (unlock_next : bool) : M db unit :=
  at_node id (pop_front;; when unlock_next unlock_front).
Definition release_node (id : Z) : M db unit :=
  g ← get_st; at_node id (put Main unlock;; gc (oldest_xid_ g)).

(** The index that fits the properties of a committed object: an entry for new
    properties, none for those of a deleted object, and both for an update,
    where the old properties are those of the version behind the front. *)
Definition index_added (label id : Z) (props : pitems) : M db unit :=
  idx ← get_index_for label props;
  match idx.1 with None => mret tt | Some _ => index_insert idx id props end.
Definition index_removed (label : Z) (props : pitems) : M db unit :=
  idx ← get_index_for label props;
  match idx.1 with None => mret tt | Some _ => index_delete idx props end.
Definition index_changed {B} (label id : Z) (vs : list (dirty_object B pitems)) (props : pitems) : M db unit :=
  assert_ (bool_decide (1 < length vs)%nat);;
  idx ← get_index_for label props;
  match idx.1 with
  | None => mret tt
  | Some _ => match vs !! 1%nat with
              | None => throw undefined_behaviour
              | Some d => index_update idx id (properties_ d) props
              end
  end.

Definition commit_dirty_node (xid id : Z) : M db unit :=
  t ← at_node id get_st;
  match classify t with
  | already_deleted => at_node id (remove_dirty_version Main 0)
  | no_version => throw transaction_abort
  | commit_insert dn =>
    copy_node_properties id dn;;
    at_node id (put Main (set_body (λ b, copy_node_fields b (body_ (elem_ dn)))));;
    at_node id (put Main (set_timestamps xid INF));;
    index_added (node_label (body_ (elem_ dn))) (node_id_ (body_ (elem_ dn))) (properties_ dn);;
    finish_node id false;; release_node id
  | commit_delete dn =>
    let plist := node_plist (body_ (main_ t)) in
    walk_nprops plist;;
    collect xid id gc_node;;
    at_node id (put Main (set_cts xid));;
    props ← stored_node_items plist;
    index_removed (node_label (body_ (elem_ dn))) props;;
    finish_node id true;;
    on_nprops (remove_properties plist);;
    at_node id (put Main (set_body (set_node_plist UNKNOWN)));;
    release_node id
  | commit_update dn =>
    at_node id (put Main (set_body (λ b, copy_node_fields b (body_ (elem_ dn)))));;
    at_node id (put Main (set_timestamps xid INF));;
    copy_node_properties id dn;;
    index_changed (node_label (body_ (elem_ dn))) (node_id_ (body_ (elem_ dn))) (versions t) (properties_ dn);;
    finish_node id true;; release_node id
  end.

Definition finish_rship (id : Z) (unlock_next : bool) : M db unit :=
  at_rship id (pop_front;; when unlock_next unlock_front).
Definition release_rship (id : Z) : M db unit :=
  g ← get_st; at_rship id (put Main unlock;; gc (oldest_xid_ g)).

Definition commit_dirty_relationship (xid id : Z) : M db unit :=
  t ← at_rship id get_st;
  match classify t with
  | already_deleted => at_rship id (remove_dirty_version Main 0)
  | no_version => throw transaction_abort
  | commit_insert dr =>
    at_rship id (put Main (set_timestamps xid INF));;
    copy_rship_properties id dr;;
    index_added (rship_label (body_ (elem_ dr))) (rship_id_ (body_ (elem_ dr))) (properties_ dr);;
    finish_rship id false;; release_rship id
  | commit_delete dr =>
    let plist := rship_plist (body_ (main_ t)) in
    walk_rprops plist;;
    collect xid id gc_rship;;
    at_rship id (put Main (set_cts xid));;
    props ← stored_rship_items plist;
    index_removed (rship_label (body_ (elem_ dr))) props;;
    finish_rship id true;;
    on_rprops (remove_properties plist);;
    release_rship id
  | commit_update dr =>
    at_rship id (put Main (set_timestamps xid INF));;
    at_rship id (put Main (set_body (λ b, copy_rship_label b (body_ (elem_ dr)))));;
    copy_rship_properties id dr;;
    index_changed (rship_label (body_ (elem_ dr))) (rship_id_ (body_ (elem_ dr))) (versions t) (properties_ dr);;
    finish_rship id true;; release_rship id
  end.

(** ** Garbage collection *)

(** The predecessor of a relationship in a list gets its successor. *)
Fixpoint unlink_after (next : relationship → Z) (set : Z → relationship → relationship)
    (fuel : nat) (prev_id oid succ : Z) : M db unit :=
  match fuel with
  | O => throw no_return
  | S f =>
    if bool_decide (prev_id = UNKNOWN) then mret tt
    else
      t ← list_rship prev_id;
      if bool_decide (next (body_ (main_ t)) = oid)
      then at_rship prev_id (put Main (set_body (set succ)))
      else unlink_after next set f (next (body_ (main_ t))) oid succ
  end.
Definition unlink (get : node → Z) (set : Z → node → node) (next : relationship → Z)
    (set_next : Z → relationship → relationship) (nid oid succ : Z) : M db unit :=
  n ← at_node nid get_st;
  if bool_decide (get (body_ (main_ n)) = oid)
  then at_node nid (put Main (set_body (set succ)))
  else f ← list_fuel; unlink_after next set_next f (get (body_ (main_ n))) oid succ.

(** One item; the result says whether it was erased. *)
Definition vacuum_item (it : gc_item) : M db bool :=
  let oid := gc_oid it in
  match gc_itype it with
  | gc_node =>
    g ← get_st; at_node oid (gc (oldest_xid_ g));;
    t ← at_node oid get_st;
    if has_dirty_versions t (main_ t) then mret false
    else on_nodes (tab_remove oid);; mret true
  | gc_rship =>
    g ← get_st; at_rship oid (gc (oldest_xid_ g));;
    t ← at_rship oid get_st;
    if has_dirty_versions t (main_ t) then mret false
    else
      let r := body_ (main_ t) in
      unlink from_rship_list set_from_list next_src_rship set_next_src (src_node r) oid (next_src_rship r);;
      unlink to_rship_list set_to_list next_dest_rship set_next_dest (dest_node r) oid (next_dest_rship r);;
      on_rships (tab_remove oid);; mret true
  end.
Fixpoint vacuum_loop (l : list gc_item) (kept : list gc_item) : M db unit :=
  match l with
  | [] => mret tt
  | it :: l' =>
    erased ← vacuum_item it;
    let kept := if (erased : bool) then kept else kept ++ [it] in
    modify (set_garbage (kept ++ l'));;
    vacuum_loop l' kept
  end.
Definition vacuum : M db unit := g ← get_st; vacuum_loop (garbage_ g) [].

(** ** Ending a transaction *)

(** The end of [commit_transaction]: [current_transaction_.reset(); vacuum(xid);] *)
Definition finish_commit : M db bool :=
  modify (set_current None);; vacuum;; mret true.

Definition commit_transaction : M db bool :=
  check_tx_context;;
  xid ← tx_xid;
  g ← get_st;
  let rships := default [] (dirty_rships_ <$> current_transaction_ g) in
  let nodes := default [] (dirty_nodes_ <$> current_transaction_ g) in
  leave_active xid;;
  for_each (commit_dirty_relationship xid) rships;;
  for_each (commit_dirty_node xid) nodes;;
  finish_commit.

Definition abort_node (xid id : Z) : M db unit :=
  was_updated ← at_node id (abort_version xid);
  when (negb was_updated) (on_nodes (tab_remove id)).
Definition abort_rship (xid id : Z) : M db unit :=
  was_updated ← at_rship id (abort_version xid);
  when (negb was_updated) (on_rships (tab_remove id)).

Definition abort_transaction : M db bool :=
  g ← get_st;
  match current_transaction_ g with
  | None => mret false
  | Some tx =>
    let xid := xid_ tx in
    leave_active xid;;
    for_each (abort_node xid) (dirty_nodes_ tx);;
    for_each (abort_rship xid) (dirty_rships_ tx);;
    vacuum;;
    modify (set_current None);;
    mret true
  end.

Definition run_transaction (xid : Z) (body : M db bool) : M db bool :=
  begin_transaction xid;;
  b ← body;
  if (b : bool) then commit_transaction else abort_transaction.
End commit.
