(* ===== verification/GraphIndexFacts.v ===== *)
(** * GraphIndexFacts: what commit does to the indexes

    The index operations of commit work on the index map alone and read the
    dictionary; when the dictionary knows the label and the names of the
    properties they find the first index that fits, and put the entry in. *)

From S2P Require Import Prelude VecSpec DictSpec IndexSpec Literals Property PropertyList PropertyMap.
From S2P Require Import Txn Mvto GraphState GraphOps GraphIndex GraphCommit.

Section index.
Context {V : Type → Type} `{!Vec V} {D : Type} `{!Dictionary D} {X : Type} `{!Indexes X}.
Notation db := (gdb V D X).
Implicit Types (g : db) (x : X) (d : D).

(** ** The operations over the index map alone *)
Definition index_of d (label : Z) (props : pitems) x : res (index_id * Z) :=
  node_label ← d_lookup_code d label; first_index x d node_label 0 props.
Definition insert_x (idx : index_id * Z) (id : Z) (props : pitems) : M X unit :=
  p ← lift_res (item_at props idx.2);
  match idx.1 with None => mret tt | Some i => ix_insert i (get_raw p) id end.
Definition delete_x (idx : index_id * Z) (props : pitems) : M X unit :=
  p ← lift_res (item_at props idx.2);
  match idx.1 with None => mret tt | Some i => ix_erase i (get_raw p);; mret tt end.
Definition added_x d (label id : Z) (props : pitems) : M X unit := λ x,
  (idx ← lift_res (index_of d label props x);
   match idx.1 with None => mret tt | Some _ => insert_x idx id props end) x.
Definition removed_x d (label : Z) (props : pitems) : M X unit := λ x,
  (idx ← lift_res (index_of d label props x);
   match idx.1 with None => mret tt | Some _ => delete_x idx props end) x.
Definition changed_x d (label id : Z) (vs : list (dirty_object node pitems)) (props : pitems) : M X unit := λ x,
  (assert_ (bool_decide (1 < length vs)%nat);;
   idx ← lift_res (index_of d label props x);
   match idx.1 with
   | None => mret tt
   | Some _ => match vs !! 1%nat with
               | None => throw undefined_behaviour
               | Some o => delete_x idx (properties_ o);; insert_x idx id props
               end
   end) x.

Lemma on_indexes_id g : set_index_map (index_map_ g) g = g.
Proof. by destruct g. Qed.
Lemma on_indexes_ret {A} (a : A) g : on_indexes (mret a : M X A) g = (g, Val a).
Proof. unfold on_indexes, mret, M_ret. by rewrite on_indexes_id. Qed.
Lemma on_indexes_lift {A} (r : res A) g : on_indexes (lift_res r : M X A) g = (g, r).
Proof. unfold on_indexes, lift_res. by rewrite on_indexes_id. Qed.
Lemma on_indexes_bind {A B} (m : M X A) (k : A → M X B) g :
  on_indexes (m ≫= k) g = (on_indexes m ≫= λ a, on_indexes (k a)) g.
Proof.
  unfold on_indexes, mbind, M_bind. destruct (m (index_map_ g)) as [x' [a|e]]; [|done].
  cbn [index_map_ set_index_map]. by destruct (k a x').
Qed.

Lemma get_index_for_eq label props g :
  get_index_for label props g = (g, index_of (dict_ g) label props (index_map_ g)).
Proof.
  unfold get_index_for, index_of, mbind, M_bind, res_bind, get_st, lift_res.
  by destruct (d_lookup_code (dict_ g) label).
Qed.
Lemma index_insert_on idx id props g : index_insert idx id props g = on_indexes (insert_x idx id props) g.
Proof.
  unfold index_insert, insert_x. rewrite on_indexes_bind. unfold mbind, M_bind.
  rewrite on_indexes_lift. unfold lift_res. destruct (item_at props idx.2); [|done].
  destruct idx.1; [done|by rewrite on_indexes_ret].
Qed.
Lemma index_delete_on idx props g : index_delete idx props g = on_indexes (delete_x idx props) g.
Proof.
  unfold index_delete, delete_x. rewrite on_indexes_bind. unfold mbind at 1 3, M_bind at 1 3.
  rewrite on_indexes_lift. unfold lift_res. destruct (item_at props idx.2); [|done].
  destruct idx.1; [|by rewrite on_indexes_ret]. rewrite on_indexes_bind. unfold mbind, M_bind.
  destruct (on_indexes (ix_erase _ _) g) as [g' [b|e]]; [by rewrite on_indexes_ret|done].
Qed.

Lemma index_added_on label id props g : index_added label id props g = on_indexes (added_x (dict_ g) label id props) g.
Proof.
  unfold index_added, added_x, mbind at 1, M_bind at 1. rewrite get_index_for_eq. unfold on_indexes at 1.
  unfold mbind at 1, M_bind at 1, lift_res. destruct (index_of _ _ _ _) as [[[i|] pos]|e]; cbn [fst].
  - apply index_insert_on.
  - symmetry. apply on_indexes_ret.
  - by rewrite on_indexes_id.
Qed.
Lemma index_removed_on label props g : index_removed label props g = on_indexes (removed_x (dict_ g) label props) g.
Proof.
  unfold index_removed, removed_x, mbind at 1, M_bind at 1. rewrite get_index_for_eq. unfold on_indexes at 1.
  unfold mbind at 1, M_bind at 1, lift_res. destruct (index_of _ _ _ _) as [[[i|] pos]|e]; cbn [fst].
  - apply index_delete_on.
  - symmetry. apply on_indexes_ret.
  - by rewrite on_indexes_id.
Qed.
Lemma index_changed_on label id (vs : list (dirty_object node pitems)) props g :
  index_changed label id vs props g = on_indexes (changed_x (dict_ g) label id vs props) g.
Proof.
  unfold index_changed, changed_x, assert_, mbind at 1, M_bind at 1. unfold on_indexes at 1.
  unfold mbind at 2, M_bind at 2. case_bool_decide; [|cbv [throw]; by rewrite on_indexes_id].
  unfold mret, M_ret, mbind at 1, M_bind at 1. rewrite get_index_for_eq.
  unfold mbind at 1, M_bind at 1, lift_res. destruct (index_of _ _ _ _) as [[[i|] pos]|e]; cbn [fst].
  - destruct (vs !! 1%nat) as [o|]; [|cbv [throw]; by rewrite on_indexes_id]. unfold index_update.
    change (index_delete (Some i, pos) (properties_ o);; index_insert (Some i, pos) id props)
      with (index_delete (V:=V) (D:=D) (Some i, pos) (properties_ o) ≫= λ _, index_insert (Some i, pos) id props).
    trans (on_indexes (delete_x (Some i, pos) (properties_ o) ≫= λ _, insert_x (Some i, pos) id props) g); [|done].
    rewrite on_indexes_bind. unfold mbind, M_bind. rewrite index_delete_on.
    destruct (on_indexes (delete_x _ _) g) as [g' [[]|e]]; [apply index_insert_on|done].
  - symmetry. apply on_indexes_ret.
  - by rewrite on_indexes_id.
Qed.

(** ** Which index *)

(** The first of the names that has an index for the label. *)
Fixpoint first_named x (label : str) (pos : Z) (names : list str) : index_id * Z :=
  match names with
  | [] => (None, -1)
  | s :: names' => match ix_get_id x (index_name label s) with
                   | Some i => (Some i, pos)
                   | None => first_named x label (pos + 1) names'
                   end
  end.

Lemma first_index_ok x d m label l es pos : d_has d m → entries m l es →
  first_index x d label pos l = Val (first_named x label pos es.*1).
Proof.
  intros Hd He. revert pos. induction He as [|it e l es [Hk Hn _] _ IH]; intros pos; [done|].
  cbn [first_index fmap list_fmap first_named]. destruct (d_code_ok _ _ _ _ Hd Hn) as [-> _].
  unfold mbind, res_bind. destruct (ix_get_id x _); [done|apply IH].
Qed.

Lemma index_of_ok x d m c label l es : d_has d m → m !! c = Some label → entries m l es →
  index_of d c l x = Val (first_named x label 0 es.*1).
Proof.
  intros Hd Hc He. unfold index_of. destruct (d_code_ok _ _ _ _ Hd Hc) as [-> _]. by eapply first_index_ok.
Qed.

Lemma first_named_none x label pos names :
  (∀ s, s ∈ names → ix_get_id x (index_name label s) = None) → first_named x label pos names = (None, -1).
Proof.
  revert pos. induction names as [|s names IH]; intros pos H; [done|]. simpl.
  rewrite (H s) by left. apply IH. intros s' Hs. apply H. by right.
Qed.

(** An object without indexed properties leaves the indexes alone. *)
Lemma added_none x d m c label id l es : d_has d m → m !! c = Some label → entries m l es →
  (∀ s, s ∈ es.*1 → ix_get_id x (index_name label s) = None) → added_x d c id l x = (x, Val tt).
Proof.
  intros Hd Hc He Hn. unfold added_x. rewrite (index_of_ok _ _ _ _ _ _ _ Hd Hc He).
  by rewrite (first_named_none _ _ _ _ Hn).
Qed.

(** An indexed property: its raw value leads to the object, all other entries
    of all trees stay. *)
Lemma added_some x d m im c label id l es i pos it t :
  d_has d m → m !! c = Some label → entries m l es → ix_trees x im →
  first_named x label 0 es.*1 = (Some i, pos) → item_at l pos = Val it → 0 ≤ get_raw it < two64 →
  im !! i = Some t →
  ∃ x', added_x d c id l x = (x', Val tt) ∧ ix_trees x' (<[i := <[get_raw it := id]> t]> im)
    ∧ ∀ s, ix_get_id x' s = ix_get_id x s.
Proof.
  intros Hd Hc He Hx Hf Hit Hr Ht. unfold added_x. rewrite (index_of_ok _ _ _ _ _ _ _ Hd Hc He), Hf.
  destruct (ix_insert_ok x im i t (get_raw it) id Hx Ht Hr) as (x' & E & Hx' & Hs). exists x'. split; [|done].
  unfold insert_x, mbind, M_bind, lift_res. cbn [fst snd]. by rewrite Hit.
Qed.
End index.
