(* ===== verification/GraphFacts.v ===== *)
(** * GraphFacts: what the operations on tables do

    The steps from which the theorems about the graph are put together: an
    operation on one object of a table changes that object and nothing else. *)

From S2P Require Import Prelude VecSpec DictSpec IndexSpec Literals Property PropertyList Txn Mvto GraphState GraphOps GraphCommit.

(** ** One table *)
Section table.
Context {V : Type → Type} `{!Vec V} {B : Type} `{!Inhabited (tobj B pitems)}.
Notation table := (V (tobj B pitems)).
Implicit Types (v : table) (t : tobj B pitems).

(** [v'] is [v] with the object [t] at [id]. *)
Record tab_set v (id : Z) t v' : Prop := {
  ts_rd : vec_rd v';
  ts_ok : vec_ok v → vec_ok v';
  ts_cap : vec_capacity v' = vec_capacity v;
  ts_get j : vec_get v' j = if decide (j = id) then Some t else vec_get v j
}.

Lemma tab_set_trans v1 v2 v3 id t1 t2 : tab_set v1 id t1 v2 → tab_set v2 id t2 v3 → tab_set v1 id t2 v3.
Proof.
  intros [? Hok1 ? Hg1] [? Hok2 ? Hg2]. split; [done|by auto|congruence|].
  intros j. rewrite Hg2, Hg1. by destruct (decide (j = id)).
Qed.

Lemma tab_set_same v id t v' : tab_set v id t v' → vec_get v' id = Some t.
Proof. intros [_ _ _ Hg]. by rewrite Hg, decide_True. Qed.

Lemma tab_set_other v id t v' j : tab_set v id t v' → j ≠ id → vec_get v' j = vec_get v j.
Proof. intros [_ _ _ Hg] Hj. by rewrite Hg, decide_False. Qed.

Lemma tab_get_loc v id t : vec_rd v → vec_get v id = Some t →
  ∃ l, tab_get v id = Val l ∧ vec_at v id = Val l ∧ vec_read v l = Some t.
Proof.
  intros Hrd Ht. destruct (vec_at_Some v id t Hrd Ht) as (l & Hl & Hr). exists l. unfold tab_get.
  destruct (vec_get_bounds _ _ _ Hrd Ht). by rewrite bool_decide_eq_false_2 by lia.
Qed.

Lemma tab_do_step {A} v id t (m : M (tobj B pitems) A) t' r :
  vec_rd v → vec_get v id = Some t → m t = (t', r) →
  ∃ v', tab_do id m v = (v', r) ∧ tab_set v id t' v'.
Proof.
  intros Hrd Ht Hm. destruct (tab_get_loc v id t Hrd Ht) as (l & Hg & Ha & Hr).
  unfold tab_do. rewrite Hg, Hr, Hm. eexists. split; [done|].
  destruct (vec_write_ok v id l t' Hrd) as (H1 & H2 & H3 & H4 & _); [by eapply vec_get_bounds|done|].
  by split.
Qed.

(** A missing object *)
Lemma tab_do_missing {A} v id (m : M (tobj B pitems) A) :
  vec_rd v → 0 ≤ id → vec_get v id = None → tab_do id m v = (v, Exn unknown_id).
Proof.
  intros Hrd Hid Hn. unfold tab_do, tab_get. case_bool_decide as E; [done|].
  by rewrite (vec_at_None v id Hrd Hid) by (done || lia).
Qed.

(** A new object in the table, locked by its owner. *)
Definition inserted (set_id : Z → B → B) (b : B) (owner id : Z) : tobj B pitems :=
  mk_tobj (mk_obj owner 0 INF 0 None (set_id id b)) None 0.

Lemma tab_own_step set_id b owner id l v :
  vec_rd v → 0 ≤ id → vec_get v id = Some (new_tobj b) → vec_at v id = Val l →
  ∃ v', tab_own set_id id l owner v = (v', Val tt) ∧ tab_set v id (inserted set_id b owner id) v'.
Proof.
  intros Hrd Hid Ht Hl. destruct (vec_at_Some _ _ _ Hrd Ht) as (l' & Hl' & Hr).
  rewrite Hl in Hl'. injection Hl' as <-. unfold tab_own. rewrite Hr. simpl.
  assert ((if bool_decide (owner ≠ 0) then lock owner (set_body (set_id id) (new_obj b))
           else Some (set_body (set_id id) (new_obj b))) = Some (main_ (inserted set_id b owner id))) as ->.
  { destruct (decide (owner = 0)) as [->|Hne]; [by rewrite bool_decide_eq_false_2 by tauto|].
    by rewrite bool_decide_eq_true_2. }
  eexists. split; [done|].
  destruct (vec_write_ok v id l (inserted set_id b owner id) Hrd Hid Hl) as (H1 & H2 & H3 & H4 & _).
  by split.
Qed.

(** [insert] and [append] *)
Lemma tab_insert_step (ap : bool) set_id b owner v :
  vec_ok v →
  ∃ id v', (if ap then tab_append else tab_insert) set_id b owner v = (v', Val id)
    ∧ vec_ok v' ∧ 0 ≤ id ∧ vec_get v id = None
    ∧ (∀ j, vec_get v' j = if decide (j = id) then Some (inserted set_id b owner id) else vec_get v j)
    ∧ vec_capacity v ≤ vec_capacity v' ≤ vec_capacity v + vec_grow.
Proof.
  intros Hok.
  assert (∃ id l v1, (if ap then vec_append else vec_store) (new_tobj b) v = (v1, Val (id, l)) ∧ vec_ok v1
    ∧ 0 ≤ id ∧ vec_get v id = None ∧ vec_at v1 id = Val l
    ∧ (∀ j, vec_get v1 j = if decide (j = id) then Some (new_tobj b) else vec_get v j)
    ∧ vec_capacity v ≤ vec_capacity v1 ∧ vec_capacity v1 ≤ vec_capacity v + vec_grow)
    as (id & l & v1 & E & Hok1 & Hid & Hn & Hl & Hg & Hc1 & Hc2).
  { destruct ap; [by apply vec_append_ok|by apply vec_store_ok]. }
  destruct (tab_own_step set_id b owner id l v1) as (v2 & E2 & Hs).
  - by apply vec_ok_rd.
  - done.
  - by rewrite Hg, decide_True.
  - done.
  - exists id, v2. split_and!.
    + destruct ap; unfold tab_append, tab_insert, mbind, M_bind; rewrite E; cbn [fst snd]; by rewrite E2.
    + by apply (ts_ok _ _ _ _ Hs).
    + done.
    + done.
    + intros j. rewrite (ts_get _ _ _ _ Hs), Hg. by destruct (decide (j = id)).
    + rewrite (ts_cap _ _ _ _ Hs). lia.
    + rewrite (ts_cap _ _ _ _ Hs). lia.
Qed.

Lemma tab_remove_step v id t : vec_rd v → vec_get v id = Some t →
  ∃ v', tab_remove id v = (v', Val tt) ∧ vec_rd v'
    ∧ ∀ j, vec_get v' j = if decide (j = id) then None else vec_get v j.
Proof.
  intros Hrd Ht. destruct (vec_get_bounds _ _ _ Hrd Ht).
  unfold tab_remove, mbind, M_bind, get_st. rewrite bool_decide_eq_false_2 by lia.
  destruct (vec_erase_ok v id Hrd) as (v' & E & Hg & Hrd' & _); [by eexists|]. by exists v'.
Qed.
End table.

(** ** The database *)
Section db.
Context {V : Type → Type} `{!Vec V} {D : Type} `{!Dictionary D} {X : Type} `{!Indexes X}.
Notation db := (gdb V D X).
Implicit Types g : db.

(** [g'] is [g] with the object [t] at [id] of its nodes (relationships). *)
Definition node_set g (id : Z) (t : nobj) g' : Prop :=
  ∃ v', tab_set (nodes_ g) id t v' ∧ g' = set_nodes v' g.
Definition rship_set g (id : Z) (t : robj) g' : Prop :=
  ∃ v', tab_set (rships_ g) id t v' ∧ g' = set_rships v' g.

Lemma node_set_trans g1 g2 g3 id t1 t2 : node_set g1 id t1 g2 → node_set g2 id t2 g3 → node_set g1 id t2 g3.
Proof.
  intros (v2 & H2 & ->) (v3 & H3 & ->). exists v3. split; [by eapply tab_set_trans|done].
Qed.
Lemma rship_set_trans g1 g2 g3 id t1 t2 : rship_set g1 id t1 g2 → rship_set g2 id t2 g3 → rship_set g1 id t2 g3.
Proof.
  intros (v2 & H2 & ->) (v3 & H3 & ->). exists v3. split; [by eapply tab_set_trans|done].
Qed.

Lemma node_set_get g id t g' : node_set g id t g' → vec_rd (nodes_ g') ∧ vec_get (nodes_ g') id = Some t.
Proof. intros (v' & H & ->). split; [apply H|by eapply tab_set_same]. Qed.
Lemma rship_set_get g id t g' : rship_set g id t g' → vec_rd (rships_ g') ∧ vec_get (rships_ g') id = Some t.
Proof. intros (v' & H & ->). split; [apply H|by eapply tab_set_same]. Qed.

Lemma at_node_step {A} g id t (m : M nobj A) t' r :
  vec_rd (nodes_ g) → vec_get (nodes_ g) id = Some t → m t = (t', r) →
  ∃ g', at_node id m g = (g', r) ∧ node_set g id t' g'.
Proof.
  intros Hrd Ht Hm. destruct (tab_do_step _ _ _ _ _ _ Hrd Ht Hm) as (v' & E & Hs).
  unfold at_node, on_nodes. rewrite E. eexists. split; [done|]. by exists v'.
Qed.
Lemma at_rship_step {A} g id t (m : M robj A) t' r :
  vec_rd (rships_ g) → vec_get (rships_ g) id = Some t → m t = (t', r) →
  ∃ g', at_rship id m g = (g', r) ∧ rship_set g id t' g'.
Proof.
  intros Hrd Ht Hm. destruct (tab_do_step _ _ _ _ _ _ Hrd Ht Hm) as (v' & E & Hs).
  unfold at_rship, on_rships. rewrite E. eexists. split; [done|]. by exists v'.
Qed.
End db.
