(* ===== verification/ExprFacts.v ===== *)
(** * ExprFacts: the interpreter computes a value of the deduced type

    A reference evaluator without a stack ([value_of]), a check of types
    ([typed]), and the agreement of the interpreter with both.  Then what a
    missing property does to a disjunction, and what folding does to a call
    with a compound argument. *)

From Stdlib Require Import Ascii.
From S2P Require Import Prelude VecSpec Txn DictSpec IndexSpec Literals Property PropertyList GraphState GraphOps QResult Expr GraphCommit GraphFacts.

Section facts.
Context {V : Type → Type} `{!Vec V} {D : Type} `{!Dictionary D} {X : Type} `{!Indexes X}.
Variables (ptime_eqb ptime_ltb : Z → Z → bool) (regex_match : str → str → bool) (uninit : p_item).
Notation db := (gdb V D X).
Notation st := (db * list query_result)%type.
Notation expr := (expr db).
Notation accept := (accept ptime_eqb ptime_ltb regex_match uninit).
Notation binary_value := (binary_value ptime_eqb ptime_ltb regex_match).
Notation interpret_expression := (interpret_expression ptime_eqb ptime_ltb regex_match uninit).
Notation interpret_bool_expression := (interpret_bool_expression ptime_eqb ptime_ltb regex_match uninit).
Implicit Types (g : db) (s : st) (tup l : qr_tuple) (e : expr) (v : query_result).

(** ** The reference evaluator *)

(** The value pushed for an item, and an item that pushes none. *)
Definition item_result (d : D) (it : p_item) : option query_result :=
  match item_value d it with
  | Val (Some (any_int i)) => Some (qr_int i)
  | Val (Some (any_double b)) => Some (qr_double b)
  | Val (Some (any_uint64 u)) => Some (qr_uint64 u)
  | Val (Some (any_string s)) => Some (qr_string s)
  | Val (Some (any_ptime t)) => Some (qr_ptime t)
  | _ => None
  end.
Definition quiet (it : p_item) : bool :=
  let tc := typecode it in
  negb (bool_decide (tc = p_int) || bool_decide (tc = p_double) || bool_decide (tc = p_uint64)
        || bool_decide (tc = p_ptime) || bool_decide (tc = p_dcode)).

(** The item of a property of the node or relationship a reference refers to. *)
Definition node_item g (n : oref) (pcode : Z) : option p_item :=
  t ← vec_get (nodes_ g) n.1; o ← deref t n.2;
  match property_value (node_properties_ g) (node_plist (body_ o)) pcode with Val it => Some it | Exn _ => None end.
Definition rship_item g (r : oref) (pcode : Z) : option p_item :=
  t ← vec_get (rships_ g) r.1; o ← deref t r.2;
  match property_value (rship_properties_ g) (rship_plist (body_ o)) pcode with Val it => Some it | Exn _ => None end.

Definition var_value g tup (id : Z) (pname : str) (pcode : Z) (ty : expr_type) : option query_result :=
  inp ← tup !! Z.to_nat id;
  match inp with
  | qr_int _ | qr_uint64 _ | qr_double _ | qr_string _ => Some inp
  | qr_node n =>
    if bool_decide (pcode = UNKNOWN_CODE) then (if quiet uninit then Some inp else None)
    else n ← n; it ← node_item g n pcode; item_result (dict_ g) it
  | qr_rship r =>
    if bool_decide (pcode = UNKNOWN_CODE) then (if quiet uninit then Some inp else None)
    else r ← r; it ← rship_item g r pcode; item_result (dict_ g) it
  | qr_node_descr (mk_ndescr _ _ props) | qr_rship_descr (mk_rdescr _ _ _ _ props) =>
    if negb (quiet uninit) then None
    else if bool_decide (pname = []) && bool_decide (pcode = UNKNOWN_CODE) then Some inp
    else v ← find_property props pname; cast_property ty v
  | _ => None
  end.

Fixpoint value_of g tup e : res query_result :=
  match e with
  | Int i => Val (qr_int i) | UInt64 u => Val (qr_uint64 u) | Float d => Val (qr_double d)
  | string_literal s => Val (qr_string s) | time_literal t => Val (qr_ptime t)
  | variable id pname pcode ty => from_option Val (Exn undefined_behaviour) (var_value g tup id pname pcode ty)
  | func_call _ _ [] _ (Some f) _ => (f no_result g).2
  | func_call _ _ [p] _ (Some f) _ => a ← value_of g tup p; (f a g).2
  | func_call _ _ [p; q] _ _ (Some f) => a ← value_of g tup p; b ← value_of g tup q; (f a b g).2
  | binary (regex_predicate re) e1 _ => a ← value_of g tup e1; s ← qv_get_string a; Val (truth (regex_match s re))
  | binary c e1 e2 => a ← value_of g tup e1; b ← value_of g tup e2; binary_value c a b
  | _ => Exn undefined_behaviour
  end.

(** ** Types *)
Definition tag_of (ty : expr_type) : option qr_type :=
  match ty with
  | ty_INT | ty_BOOLEAN => Some int_type
  | ty_UINT64 => Some uint64_type | ty_DOUBLE => Some double_type | ty_STRING => Some string_type
  | ty_DATETIME => Some ptime_type | ty_NODE => Some node_ptr_type | ty_RELATIONSHIP => Some rship_ptr_type
  | ty_UNKNOWN | ty_OP => None
  end.
Definition has_type v (ty : expr_type) : Prop := tag_of ty = Some (which v).
Definition numeric (ty : expr_type) : Prop := ty = ty_INT ∨ ty = ty_UINT64 ∨ ty = ty_DOUBLE.

(** The same objects: what a reader leaves of the database. *)
Record same_tab {B} (v v' : V (tobj B pitems)) : Prop := {
  st_rd : vec_rd v';
  st_get j : vec_get v' j = vec_get v j
}.
Definition same_objects g g' : Prop :=
  ∃ vn vr, g' = set_rships vr (set_nodes vn g) ∧ same_tab (nodes_ g) vn ∧ same_tab (rships_ g) vr.

(** A function that reads the database and returns a value of a type. *)
Definition reader (ty : expr_type) g (f : M db query_result) : Prop :=
  (∃ v, (f g).2 = Val v ∧ has_type v ty)
  ∧ ∀ g', same_objects g g' → ∃ g'', f g' = (g'', (f g).2) ∧ same_objects g g''.

Fixpoint typed g tup e : Prop :=
  match e with
  | Int _ | UInt64 _ | Float _ | string_literal _ | time_literal _ => True
  | variable id pname pcode ty => ∃ v, var_value g tup id pname pcode ty = Some v ∧ has_type v ty
  | func_call _ _ [] ty (Some f) _ => reader ty g (f no_result)
  | func_call _ _ [p] ty (Some f) _ =>
    typed g tup p ∧ ∀ a, has_type a (result_type p) → reader ty g (f a)
  | func_call _ _ [p; q] ty _ (Some f) =>
    typed g tup p ∧ typed g tup q
    ∧ ∀ a b, has_type a (result_type p) → has_type b (result_type q) → reader ty g (f a b)
  | binary (math_expression _) e1 e2 =>
    typed g tup e1 ∧ typed g tup e2 ∧ numeric (result_type e1) ∧ numeric (result_type e2)
  | binary (and_predicate | or_predicate) e1 e2 =>
    typed g tup e1 ∧ typed g tup e2
    ∧ tag_of (result_type e1) = Some int_type ∧ tag_of (result_type e2) = Some int_type
  | binary (regex_predicate _) e1 _ => typed g tup e1 ∧ result_type e1 = ty_STRING
  | binary _ e1 e2 => typed g tup e1 ∧ typed g tup e2
  | _ => False
  end.

(** ** Reading keeps the objects *)
Lemma same_tab_refl {B} (v : V (tobj B pitems)) : vec_rd v → same_tab v v.
Proof. by split. Qed.
#[export] Instance same_tab_trans {B} : Transitive (@same_tab B).
Proof. intros v1 v2 v3 [] []. split; congruence. Qed.
#[export] Instance same_objects_trans : Transitive same_objects.
Proof.
  intros g1 g2 g3 (vn & vr & -> & Hn & Hr) (vn' & vr' & -> & Hn' & Hr'). exists vn', vr'.
  split; [done|]. split; by etrans.
Qed.
Lemma same_objects_refl g : vec_rd (nodes_ g) → vec_rd (rships_ g) → same_objects g g.
Proof. intros Hn Hr. exists (nodes_ g), (rships_ g). split; [by destruct g|]. split; by apply same_tab_refl. Qed.
Lemma same_objects_rd g g' : same_objects g g' → vec_rd (nodes_ g') ∧ vec_rd (rships_ g').
Proof. intros (vn & vr & -> & [] & []). done. Qed.

Lemma tab_set_tab {B} (v v' : V (tobj B pitems)) id t : tab_set v id t v' → vec_get v id = Some t → same_tab v v'.
Proof.
  intros H Ht. split; [apply H|]. intros j. rewrite (ts_get _ _ _ _ H).
  by destruct (decide (j = id)) as [->|].
Qed.
Lemma node_ref_same g l n t o : vec_rd (nodes_ g) → vec_rd (rships_ g) → vec_get (nodes_ g) n.1 = Some t → deref t n.2 = Some o →
  ∃ g', on_fst (node_ref n) (g, l) = ((g', l), Val o) ∧ same_objects g g'.
Proof.
  intros Hn Hr Ht Eo. assert (self n.2 t = (t, Val o)) as Es by (unfold self; by rewrite Eo).
  destruct (at_node_step g n.1 t _ _ _ Hn Ht Es) as (g' & E & (v & Hv & ->)).
  exists (set_nodes v g). split; [unfold on_fst, node_ref; cbn [fst snd]; by rewrite E|].
  exists v, (rships_ g). split; [by destruct g|]. split; [by eapply tab_set_tab|by apply same_tab_refl].
Qed.
Lemma rship_ref_same g l r t o : vec_rd (nodes_ g) → vec_rd (rships_ g) → vec_get (rships_ g) r.1 = Some t → deref t r.2 = Some o →
  ∃ g', on_fst (rship_ref r) (g, l) = ((g', l), Val o) ∧ same_objects g g'.
Proof.
  intros Hn Hr Ht Eo. assert (self r.2 t = (t, Val o)) as Es by (unfold self; by rewrite Eo).
  destruct (at_rship_step g r.1 t _ _ _ Hr Ht Es) as (g' & E & (v & Hv & ->)).
  exists (set_rships v g). split; [unfold on_fst, rship_ref; cbn [fst snd]; by rewrite E|].
  exists (nodes_ g), v. split; [by destruct g|]. split; [by apply same_tab_refl|by eapply tab_set_tab].
Qed.

Lemma var_value_same g g' tup id pname pcode ty : same_objects g g' →
  var_value g' tup id pname pcode ty = var_value g tup id pname pcode ty.
Proof.
  intros (vn & vr & -> & [_ Hn] & [_ Hr]). unfold var_value, node_item, rship_item. simpl.
  destruct (tup !! Z.to_nat id) as [[[n|]|[r|]| | | | | | | | |]|]; simpl; rewrite ?Hn, ?Hr; done.
Qed.

(** ** Variables *)
Lemma push_item_value g l it v : item_result (dict_ g) it = Some v → push_item it (g, l) = ((g, v :: l), Val tt).
Proof.
  unfold item_result, item_value, item_value_with, push_item.
  case_bool_decide as C1; [destruct (get_int it) as [i|] eqn:E; simpl; [|done]; intros [= <-]; done|].
  case_bool_decide as C2; [destruct (get_double it) eqn:E; simpl; [|done]; intros [= <-]; done|].
  case_bool_decide as C3; [destruct (get_uint64 it) eqn:E; simpl; [|done]; intros [= <-]; done|].
  case_bool_decide as C4.
  { rewrite (bool_decide_eq_false_2 (typecode it = p_ptime)) by (rewrite C4; done).
    destruct (get_dcode it) as [c|] eqn:E; simpl; [|done].
    unfold mbind, M_bind, lift_res, get_st. simpl. destruct (d_lookup_code (dict_ g) c) as [s|]; simpl; [|done].
    by intros [= <-]. }
  case_bool_decide as C5; [|done]. destruct (get_ptime it) eqn:E; simpl; [|done]. by intros [= <-].
Qed.
Lemma push_item_quiet g l it : quiet it = true → push_item it (g, l) = ((g, l), Val tt).
Proof. unfold quiet, push_item. repeat case_bool_decide; done. Qed.

Lemma same_objects_props g g' : same_objects g g' →
  node_properties_ g' = node_properties_ g ∧ rship_properties_ g' = rship_properties_ g ∧ dict_ g' = dict_ g.
Proof. by intros (vn & vr & -> & _). Qed.
Lemma stored_node_item g l n pcode it : vec_rd (nodes_ g) → vec_rd (rships_ g) → node_item g n pcode = Some it →
  ∃ g', stored_node_property (Some n) pcode (g, l) = ((g', l), Val it) ∧ same_objects g g'.
Proof.
  intros Hn Hr (t & Ht & (o & Eo & Ei)%bind_Some)%bind_Some.
  destruct (node_ref_same g l n t o Hn Hr Ht Eo) as (g' & E & R). exists g'. split; [|done].
  unfold stored_node_property. rewrite (bind_val _ _ _ _ _ E). destruct (same_objects_props _ _ R) as (Ep & _ & _).
  unfold get_node_property_value, on_fst, get_st, lift_res, mbind, M_bind. simpl. rewrite Ep.
  destruct (property_value (node_properties_ g) (node_plist (body_ o)) pcode) as [it'|]; [|done]. by injection Ei as ->.
Qed.
Lemma stored_rship_item g l r pcode it : vec_rd (nodes_ g) → vec_rd (rships_ g) → rship_item g r pcode = Some it →
  ∃ g', stored_rship_property (Some r) pcode (g, l) = ((g', l), Val it) ∧ same_objects g g'.
Proof.
  intros Hn Hr (t & Ht & (o & Eo & Ei)%bind_Some)%bind_Some.
  destruct (rship_ref_same g l r t o Hn Hr Ht Eo) as (g' & E & R). exists g'. split; [|done].
  unfold stored_rship_property. rewrite (bind_val _ _ _ _ _ E). destruct (same_objects_props _ _ R) as (_ & Ep & _).
  unfold get_rship_property_value, on_fst, get_st, lift_res, mbind, M_bind. simpl. rewrite Ep.
  destruct (property_value (rship_properties_ g) (rship_plist (body_ o)) pcode) as [it'|]; [|done]. by injection Ei as ->.
Qed.

Lemma push_quiet g l v (m : M st unit) : m (g, l) = ((g, v :: l), Val tt) → quiet uninit = true →
  (m;; push_item uninit) (g, l) = ((g, v :: l), Val tt).
Proof. intros E Q. rewrite (bind_val _ _ _ _ _ E). by apply push_item_quiet. Qed.
Lemma push_property_value g l props pname ty w v :
  find_property props pname = Some w → cast_property ty w = Some v →
  push_property props pname ty (g, l) = ((g, v :: l), Val tt).
Proof. unfold push_property. intros ->. destruct ty, w; simpl; intros [= <-]; done. Qed.

Lemma visit_variable_value g l tup id pname pcode ty v :
  vec_rd (nodes_ g) → vec_rd (rships_ g) → var_value g tup id pname pcode ty = Some v →
  ∃ g', visit_variable uninit tup id pname pcode ty (g, l) = ((g', v :: l), Val tt) ∧ same_objects g g'.
Proof.
  intros Hn Hr (inp & Hi & Hv)%bind_Some. unfold visit_variable. rewrite Hi. clear Hi.
  pose proof (same_objects_refl g Hn Hr) as Hsame.
  assert (∀ props, (if negb (quiet uninit) then None
     else if bool_decide (pname = []) && bool_decide (pcode = UNKNOWN_CODE) then Some inp
     else v ← find_property props pname; cast_property ty v) = Some v →
     ((if bool_decide (pname = []) && bool_decide (pcode = UNKNOWN_CODE) then push_value inp else push_property props pname ty);;
      push_item uninit) (g, l) = ((g, v :: l), Val tt)) as Hdescr.
  { intros props. destruct (quiet uninit) eqn:Q; simpl; [|done].
    destruct (bool_decide (pname = []) && _); [intros [= ->]; by apply push_quiet|].
    intros (w & Hw & Hc)%bind_Some. apply push_quiet; [|done]. by eapply push_property_value. }
  destruct inp as [n|r| | | | | | | |[d1 d2 props]|[d1 d2 d3 d4 props]]; try done;
    try (injection Hv as <-; exists g; split; done); try (exists g; split; [by apply Hdescr|done]).
  - revert Hv. destruct (bool_decide (pcode = UNKNOWN_CODE)).
    { destruct (quiet uninit) eqn:Q; [|done]. intros [= <-]. exists g. split; [by apply push_quiet|done]. }
    intros (n' & -> & (it & Hit & Hv)%bind_Some)%bind_Some.
    destruct (stored_node_item g l n' pcode it Hn Hr Hit) as (g' & E & R). exists g'. split; [|done].
    rewrite (bind_val _ _ _ _ _ E). apply push_item_value. by rewrite (proj2 (proj2 (same_objects_props _ _ R))).
  - revert Hv. destruct (bool_decide (pcode = UNKNOWN_CODE)).
    { destruct (quiet uninit) eqn:Q; [|done]. intros [= <-]. exists g. split; [by apply push_quiet|done]. }
    intros (r' & -> & (it & Hit & Hv)%bind_Some)%bind_Some.
    destruct (stored_rship_item g l r' pcode it Hn Hr Hit) as (g' & E & R). exists g'. split; [|done].
    rewrite (bind_val _ _ _ _ _ E). apply push_item_value. by rewrite (proj2 (proj2 (same_objects_props _ _ R))).
Qed.

(** ** Operators *)
Lemma visit_binary_two c g l v1 v2 :
  visit_binary ptime_eqb ptime_ltb regex_match c (g, v2 :: v1 :: l)
  = (v ← lift_res (binary_value c v1 v2); push_value v) (g, l).
Proof. by unfold visit_binary, valid_operands, mbind, M_bind, get_st. Qed.

Lemma int_math_typed op i j : match int_math_op op i j with Val _ => True | Exn x => x = undefined_behaviour end.
Proof. destruct op; simpl; unfold int_result; repeat case_bool_decide; done. Qed.
Lemma uint64_math_typed op i j : match uint64_math_op op i j with Val _ => True | Exn x => x = undefined_behaviour end.
Proof. destruct op; simpl; repeat case_bool_decide; done. Qed.

Lemma math_values_typed op v1 v2 t1 t2 : numeric t1 → numeric t2 → has_type v1 t1 → has_type v2 t2 →
  match math_values op v1 v2 with
  | Val v => has_type v (math_type t1 t2)
  | Exn x => x = undefined_behaviour
  end.
Proof.
  unfold has_type, math_values. intros N1 N2 T1 T2.
  destruct N1 as [-> | [-> | ->]], N2 as [-> | [-> | ->]]; simpl in T1, T2; injection T1 as T1; injection T2 as T2;
    destruct v1; try discriminate T1; destruct v2; try discriminate T2; simpl;
    try rewrite bool_decide_eq_true_2 by done; try rewrite bool_decide_eq_false_2 by naive_solver; try done;
    match goal with
    | |- context [int_math_op op ?a ?b] => pose proof (int_math_typed op a b); destruct (int_math_op op a b)
    | |- context [uint64_math_op op ?a ?b] => pose proof (uint64_math_typed op a b); destruct (uint64_math_op op a b)
    end; done.
Qed.
Lemma int_typed v : which v = int_type → ∃ i, v = qr_int i.
Proof. destruct v; try done. by eauto. Qed.

Lemma binary_value_typed g tup c e1 e2 v1 v2 : (∀ re, c ≠ regex_predicate re) → typed g tup (binary c e1 e2) →
  has_type v1 (result_type e1) → has_type v2 (result_type e2) →
  match binary_value c v1 v2 with
  | Val v => has_type v (result_type (binary c e1 e2))
  | Exn x => x = undefined_behaviour
  end.
Proof.
  intros Hre Ht T1 T2.
  assert (∀ f, f = and_values ∨ f = or_values →
          tag_of (result_type e1) = Some int_type → tag_of (result_type e2) = Some int_type →
          match f v1 v2 with Val v => has_type v ty_BOOLEAN | Exn x => x = undefined_behaviour end) as Hlogic.
  { unfold has_type in T1, T2. rewrite T1, T2. intros f Hf [= I1] [= I2].
    destruct (int_typed v1 I1) as [i ->], (int_typed v2 I2) as [j ->].
    destruct Hf as [-> | ->]; unfold and_values, or_values; simpl; by case_bool_decide. }
  destruct c; simpl in Ht |- *; try done; try (apply Hlogic; naive_solver); [|by destruct (Hre re)].
  apply math_values_typed; naive_solver.
Qed.

(** ** The interpreter *)
Definition steps_to e g tup g0 l : Prop :=
  ∃ g1, same_objects g g1
    ∧ match value_of g tup e with
      | Val v => has_type v (result_type e) ∧ accept tup e (g0, l) = ((g1, v :: l), Val tt)
      | Exn x => x = undefined_behaviour ∧ ∃ l', accept tup e (g0, l) = ((g1, l'), Exn x)
      end.

Lemma call_steps g g0 l ty f : reader ty g f → same_objects g g0 →
  ∃ v g1, (f g).2 = Val v ∧ has_type v ty ∧ same_objects g g1
    ∧ (v ← on_fst f; push_value v) (g0, l) = ((g1, v :: l), Val tt).
Proof.
  intros ((v & Ev & Tv) & Hf) H0. destruct (Hf g0 H0) as (g1 & E & H1). exists v, g1. split_and!; try done.
  rewrite (bind_val _ _ _ (g1, l) v); [done|]. unfold on_fst. simpl. by rewrite E, Ev.
Qed.

Lemma accept_call1 prefix name p ty (f : query_result → M db query_result) f2 tup s :
  accept tup (func_call prefix name [p] ty (Some f) f2) s = (accept tup p;; arg ← pop; v ← on_fst (f arg); push_value v) s.
Proof. simpl. unfold mbind, M_bind. by destruct (accept tup p s) as [s' [[]|]]. Qed.
Lemma accept_call2 prefix name p q ty f1 (f : query_result → query_result → M db query_result) tup s :
  accept tup (func_call prefix name [p; q] ty f1 (Some f)) s
  = (accept tup p;; accept tup q;; b ← pop; a ← pop; v ← on_fst (f a b); push_value v) s.
Proof.
  simpl. unfold mbind, M_bind. destruct (accept tup p s) as [s' [[]|]]; [|done].
  by destruct (accept tup q s') as [s'' [[]|]].
Qed.
Lemma accept_binary c e1 e2 tup s : (∀ re, c ≠ regex_predicate re) →
  accept tup (binary c e1 e2) s
  = (accept tup e1;; accept tup e2;; visit_binary ptime_eqb ptime_ltb regex_match c) s.
Proof. intros Hc. destruct c; try done. by destruct (Hc re). Qed.
Lemma value_of_binary c e1 e2 g tup : (∀ re, c ≠ regex_predicate re) →
  value_of g tup (binary c e1 e2) = (a ← value_of g tup e1; b ← value_of g tup e2; binary_value c a b).
Proof. intros Hc. destruct c; try done. by destruct (Hc re). Qed.

(** The work [k] after an operand; it leaves [w :: l2]. *)
Definition does g (r : res query_result) (ty : expr_type) (l2 : qr_tuple) (m : st * res unit) : Prop :=
  same_objects g m.1.1 ∧
  match r with
  | Val w => has_type w ty ∧ m.1.2 = w :: l2 ∧ m.2 = Val tt
  | Exn x => x = undefined_behaviour ∧ m.2 = Exn x
  end.

Lemma does_then e g tup s l2 (k : M st unit) (ret : query_result → res query_result) (ty : expr_type) :
  does g (value_of g tup e) (result_type e) s.2 (accept tup e s) →
  (∀ v g1, has_type v (result_type e) → same_objects g g1 → does g (ret v) ty l2 (k (g1, v :: s.2))) →
  does g (v ← value_of g tup e; ret v) ty l2 ((accept tup e;; k) s).
Proof.
  intros (H1 & E) Hk. unfold mbind at 2, M_bind. destruct (accept tup e s) as [[g1 l1] r]. simpl in H1, E.
  destruct (value_of g tup e) as [v|x]; simpl.
  - destruct E as (Tv & -> & ->). by apply Hk.
  - by destruct E as (-> & ->).
Qed.

Lemma does_call g g0 l ty f : reader ty g f → same_objects g g0 →
  does g (f g).2 ty l ((v ← on_fst f; push_value v) (g0, l)).
Proof.
  intros ((v & Ev & Tv) & Hf) H0. destruct (Hf g0 H0) as (g1 & E & H1).
  rewrite (bind_val _ _ _ (g1, l) v) by (unfold on_fst; simpl; by rewrite E, Ev).
  unfold does. by rewrite Ev.
Qed.
Lemma does_binary c e1 e2 g tup s : (∀ re, c ≠ regex_predicate re) → typed g tup (binary c e1 e2) →
  does g (value_of g tup e1) (result_type e1) s.2 (accept tup e1 s) →
  (∀ s1, same_objects g s1.1 → does g (value_of g tup e2) (result_type e2) s1.2 (accept tup e2 s1)) →
  does g (value_of g tup (binary c e1 e2)) (result_type (binary c e1 e2)) s.2 (accept tup (binary c e1 e2) s).
Proof.
  intros Hc Ht IH1 IH2. rewrite (value_of_binary _ _ _ _ _ Hc), (accept_binary _ _ _ _ _ Hc).
  apply does_then; [done|]. intros v1 g1 T1 H1. apply does_then; [by apply IH2|]. intros v2 g2 T2 H2. simpl.
  rewrite visit_binary_two. pose proof (binary_value_typed g tup c e1 e2 v1 v2 Hc Ht T1 T2) as Hv.
  by destruct (binary_value c v1 v2) as [w|x].
Qed.
Lemma does_regex re e1 e2 g tup s : result_type e1 = ty_STRING →
  does g (value_of g tup e1) (result_type e1) s.2 (accept tup e1 s) →
  does g (value_of g tup (binary (regex_predicate re) e1 e2)) ty_BOOLEAN s.2 (accept tup (binary (regex_predicate re) e1 e2) s).
Proof.
  intros Et IH1. apply does_then; [done|]. intros v g1 Tv H1. rewrite Et in Tv. by destruct v.
Qed.

(** An expression with types leaves one value of its type. *)
Lemma accept_typed g tup e : typed g tup e → ∀ s, same_objects g s.1 →
  does g (value_of g tup e) (result_type e) s.2 (accept tup e s).
Proof.
  revert e. fix IH 1. intros e Ht [g0 l] H0. simpl in H0.
  destruct e as [ | | | |id pname pcode ty| | | |prefix name params ty f1 f2|c e1 e2]; try done.
  - destruct Ht as (v & Hv & Tv). simpl. rewrite Hv. simpl.
    rewrite <-(var_value_same g g0 tup id pname pcode ty H0) in Hv.
    destruct (visit_variable_value g0 l tup id pname pcode ty v) as (g1 & -> & H1); [by eapply same_objects_rd..|done|].
    split; [simpl; by etrans|done].
  - destruct params as [|p [|q [|r params]]]; simpl in Ht; try done.
    + destruct f1 as [f|]; [|done]. by apply (does_call g g0 l ty (f no_result)).
    + destruct f1 as [f|]; [|done]. destruct Ht as (Hp & Hf). rewrite accept_call1.
      apply (does_then p _ _ (g0, l)); [by apply (IH p Hp (g0, l))|]. intros v g1 Tv H1. by apply does_call; [apply Hf|].
    + destruct f1 as [f0|], f2 as [f|]; try done; destruct Ht as (Hp & Hq & Hf); rewrite accept_call2;
        (apply (does_then p _ _ (g0, l)); [by apply (IH p Hp (g0, l))|]; intros v g1 Tv H1;
         apply (does_then q _ _ (g1, v :: l)); [by apply (IH q Hq (g1, v :: l))|]; intros w g2 Tw H2;
         by apply does_call; [apply Hf|]).
  - assert ((∃ re, c = regex_predicate re) ∨ ∀ re, c ≠ regex_predicate re) as [(re & ->)|Hc] by (destruct c; eauto).
    + destruct Ht as (Ht & Et). apply does_regex; [done|]. by apply (IH e1 Ht (g0, l)).
    + assert (typed g tup e1 ∧ typed g tup e2) as (H1 & H2) by (destruct c; simpl in Ht; naive_solver).
      apply does_binary; [done|done|by apply (IH e1 H1 (g0, l))|]. intros s1 Hs1. by apply (IH e2 H2 s1).
Qed.

(** C16: The interpreter agrees with its types: an expression whose variables and
    functions have the types they declare evaluates to a value of the result
    type that the constructors deduced, the value of the evaluator without a
    stack; the only failure is an integer operation C++ leaves undefined.  The
    objects of the database stay as they are. *)
Theorem interpret_expression_typed g tup e :
  vec_rd (nodes_ g) → vec_rd (rships_ g) → typed g tup e →
  ∃ g', interpret_expression e tup g = (g', value_of g tup e) ∧ same_objects g g'
    ∧ match value_of g tup e with
      | Val v => has_type v (result_type e)
      | Exn x => x = undefined_behaviour
      end.
Proof.
  intros Hn Hr Ht. destruct (accept_typed g tup e Ht (g, [])) as (H1 & E); [by apply same_objects_refl|].
  unfold interpret_expression, with_stack, mbind, M_bind. destruct (accept tup e (g, [])) as [[g1 l1] r].
  simpl in H1, E. exists g1. destruct (value_of g tup e) as [v|x].
  - by destruct E as (Tv & -> & ->).
  - by destruct E as (-> & ->).
Qed.
End facts.

(** ** Expressions that lose their operands

    A comparison with a property the node does not have takes its operand from
    the expression around it, and a call with a compound argument is folded to
    the value of the last literal in it. *)

Section missing.
Context {V : Type → Type} `{!Vec V} {D : Type} `{!Dictionary D} {X : Type} `{!Indexes X}.
Variables (ptime_eqb ptime_ltb : Z → Z → bool) (regex_match : str → str → bool) (uninit : p_item).
Notation db := (gdb V D X).
Notation st := (db * list query_result)%type.
Notation expr := (expr db).
Notation accept := (accept ptime_eqb ptime_ltb regex_match uninit).
Notation visit_binary := (visit_binary ptime_eqb ptime_ltb regex_match).
Notation value_of := (value_of ptime_eqb ptime_ltb regex_match uninit).
Notation typed := (typed uninit).
Notation interpret_bool_expression := (interpret_bool_expression ptime_eqb ptime_ltb regex_match uninit).
Implicit Types (g : db) (tup l : qr_tuple) (e : expr) (v : query_result).

(** The node in the tuple has no such property. *)
Definition lacks g tup (id pcode : Z) : Prop :=
  ∃ n it, tup !! Z.to_nat id = Some (qr_node (Some n)) ∧ pcode ≠ UNKNOWN_CODE
    ∧ node_item g n pcode = Some it ∧ quiet it = true.

Lemma lacks_same g g' tup id pcode : same_objects g g' → lacks g tup id pcode → lacks g' tup id pcode.
Proof.
  intros (vn & vr & -> & [_ Hn] & _) (n & it & Hi & Hu & Hit & Hq). exists n, it. split_and!; try done.
  unfold node_item in *. simpl. by rewrite Hn.
Qed.
Lemma visit_lacks g l tup id pname pcode ty :
  vec_rd (nodes_ g) → vec_rd (rships_ g) → lacks g tup id pcode →
  ∃ g', visit_variable uninit tup id pname pcode ty (g, l) = ((g', l), Val tt) ∧ same_objects g g'.
Proof.
  intros Hn Hr (n & it & Hi & Hu & Hit & Hq). unfold visit_variable. rewrite Hi, bool_decide_eq_false_2 by done.
  destruct (stored_node_item g l n pcode it Hn Hr Hit) as (g' & E & R). exists g'. split; [|done].
  rewrite (bind_val _ _ _ _ _ E). by apply push_item_quiet.
Qed.

(** The comparison with the missing property, on a stack. *)
Lemma accept_missing g l tup id pname pcode ty j :
  vec_rd (nodes_ g) → vec_rd (rships_ g) → lacks g tup id pcode →
  ∃ g', same_objects g g' ∧
    accept tup (EQ (variable id pname pcode ty) (Int j)) (g, l)
    = ((g', match l with [] => [qr_int 0] | v :: l' => truth (qv_equal ptime_eqb v (qr_int j)) :: l' end), Val tt).
Proof.
  intros Hn Hr Hl. destruct (visit_lacks g l tup id pname pcode ty Hn Hr Hl) as (g' & E & R). exists g'. split; [done|].
  unfold EQ. rewrite (accept_binary _ _ _ _ eq_predicate) by done.
  change (accept tup (variable id pname pcode ty)) with (visit_variable (V:=V) (D:=D) (X:=X) uninit tup id pname pcode ty).
  rewrite (bind_val _ _ _ _ _ E). change (accept tup (Int j)) with (push_value (V:=V) (D:=D) (X:=X) (qr_int j)).
  rewrite (bind_val _ _ _ (g', qr_int j :: l) tt) by done.
  destruct l as [|v l]; [done|]. by rewrite visit_binary_two.
Qed.

(** A disjunction is false when its right operand compares a property that
    the node does not have, whatever its left operand; with the operands
    exchanged it has the truth value of the other one. *)
Theorem missing_property_spoils_or g tup e id pname pcode ty j i :
  vec_rd (nodes_ g) → vec_rd (rships_ g) → lacks g tup id pcode →
  typed g tup e → value_of g tup e = Val (qr_int i) →
  (∃ g', interpret_bool_expression (OR e (EQ (variable id pname pcode ty) (Int j))) tup g = (g', Val false))
  ∧ ∃ g', interpret_bool_expression (OR (EQ (variable id pname pcode ty) (Int j)) e) tup g
          = (g', Val (bool_decide (i ≠ 0))).
Proof.
  intros Hn Hr Hl Ht Hv. pose proof (same_objects_refl g Hn Hr) as Hsame.
  pose proof (accept_typed ptime_eqb ptime_ltb regex_match uninit g tup e Ht) as He. unfold does in He. rewrite Hv in He.
  unfold interpret_bool_expression, with_stack, OR. split.
  - destruct (He (g, [])) as (H1 & _ & Es & Er); [done|].
    destruct (accept tup e (g, [])) as [[g1 l1] r] eqn:E. simpl in H1, Es, Er. subst l1 r.
    destruct (same_objects_rd _ _ H1). destruct (accept_missing g1 [qr_int i] tup id pname pcode ty j) as (g2 & _ & E2); [done..|by eapply lacks_same|].
    exists g2. rewrite (bind_val _ _ _ (g2, [qr_int 0]) tt); [done|].
    rewrite (accept_binary _ _ _ _ or_predicate) by done. rewrite (bind_val _ _ _ _ _ E), (bind_val _ _ _ _ _ E2). done.
  - destruct (accept_missing g [] tup id pname pcode ty j) as (g1 & H1 & E1); [done..|].
    destruct (He (g1, [qr_int 0])) as (H2 & _ & Es & Er); [done|].
    destruct (accept tup e (g1, [qr_int 0])) as [[g2 l2] r] eqn:E. simpl in H2, Es, Er. subst l2 r.
    exists g2. rewrite (bind_val _ _ _ (g2, [truth (bool_decide (i ≠ 0))]) tt).
    { by rewrite bind_val with (s' := (g2, [])) (a := truth (bool_decide (i ≠ 0))) by done; case_bool_decide. }
    rewrite (accept_binary _ _ _ _ or_predicate) by done. rewrite (bind_val _ _ _ _ _ E1), (bind_val _ _ _ _ _ E).
    rewrite visit_binary_two. unfold Expr.binary_value, or_values. simpl. repeat case_bool_decide; try done; lia.
Qed.
End missing.

Section folding.
Context {V : Type → Type} `{!Vec V} {D : Type} `{!Dictionary D} {X : Type} `{!Indexes X}.
Notation db := (gdb V D X).
Notation fn1 := (query_result → M db query_result).
Notation fn2 := (query_result → query_result → M db query_result).
Variables (udf1 : str → res fn1) (udf2 : str → res fn2).
Variables (time_from_string : str → res Z) (to_iso : Z → str) (now : Z).
Notation prepare_expr := (prepare_expr udf1 udf2 time_from_string to_iso now).
Implicit Types g : db.

(** Preparing a comparison replaces a call whose argument is computed from a
    variable: the function is called once, before any tuple is read, with the
    last literal of the argument. *)
Theorem prepare_forgets_variable g g' prefix name f c id pname pcode ty ty' i j r :
  prefix ≠ s_pb → udf1 name = Val f → f (qr_int i) g = (g', Val (qr_int r)) →
  prepare_expr (EQ (func_call prefix name [binary c (variable id pname pcode ty) (Int i)] ty' None None) (Int j)) g
  = (g', Val (EQ (Int r) (Int j))).
Proof.
  intros Hp Hu Hf. simpl. unfold visit_call. rewrite bool_decide_eq_false_2, Hu by done.
  unfold mbind, M_bind. simpl. unfold replace_by_literal, literal_param, literal_expr_to_qresult. simpl.
  unfold mbind, M_bind, lift_res. simpl. by rewrite Hf.
Qed.

(** A call without arguments has no first argument to fold. *)
Lemma prepare_no_arguments g j ty :
  prepare_expr (EQ (func_call s_pb s_now [] ty None None) (Int j)) g = (g, Exn undefined_behaviour).
Proof. reflexivity. Qed.
End folding.
