(* ===== verification/QopFacts.v ===== *)
(** * QopFacts: query operators as functions on lists of tuples

    What an operator and its subscriber do with a list of tuples is what the
    subscriber alone does with the list a function makes of it, whatever the
    subscriber is: it may fail or change the graph.  An operator that reads the
    graph needs a property of it ([keeps]) the subscriber leaves alone. *)

From Stdlib Require Import Sorting.Sorted.
From S2P Require Import Prelude VecSpec Txn DictSpec IndexSpec Literals Property PropertyList GraphState GraphOps QueryCtx QResult Expr Qop QopJoins.

(** ** Sorting *)
Section sorting.
Context {T : Type}.
Implicit Types (lt : T → T → bool) (l : list T).

Fixpoint insert_by lt (x : T) l : list T :=
  match l with [] => [x] | y :: l' => if lt y x then y :: insert_by lt x l' else x :: l end.
Definition sort_by lt l : list T := foldr (insert_by lt) [] l.

(** A comparison that is pure on the elements. *)
Lemma insert_sorted_on {St} (cmp : T → T → M St bool) lt x l s : (∀ a b, a ∈ x :: l → b ∈ x :: l → cmp a b s = (s, Val (lt a b))) →
  insert_sorted cmp x l s = (s, Val (insert_by lt x l)).
Proof.
  induction l as [|y l IH]; intros Hc; [done|]. simpl. rewrite (bind_val _ _ _ _ _ (Hc y x ltac:(set_solver) ltac:(set_solver))).
  destruct (lt y x); [|done]. by rewrite (bind_val _ _ _ _ _ (IH ltac:(set_solver))).
Qed.
Lemma insert_by_perm lt x l : insert_by lt x l ≡ₚ x :: l.
Proof. induction l as [|y l IH]; [done|]. simpl. destruct (lt y x); [|done]. rewrite IH. constructor. Qed.
Lemma sort_by_perm lt l : sort_by lt l ≡ₚ l.
Proof. induction l as [|x l IH]; [done|]. simpl. by rewrite insert_by_perm, IH. Qed.

Lemma list_sort_on {St} (cmp : T → T → M St bool) lt l s : (∀ a b, a ∈ l → b ∈ l → cmp a b s = (s, Val (lt a b))) →
  list_sort cmp l s = (s, Val (sort_by lt l)).
Proof.
  induction l as [|x l IH]; intros Hc; [done|]. simpl. rewrite (bind_val _ _ _ _ _ (IH ltac:(set_solver))).
  apply insert_sorted_on. intros a b. rewrite (sort_by_perm lt l). apply Hc.
Qed.

(** A comparison that orders the tuples: [le] holds when the second is not less. *)
Section ordered.
Variable lt : T → T → bool.
Definition le (x y : T) : Prop := lt y x = false.
Hypothesis le_trans : ∀ x y z, le x y → le y z → le x z.
Hypothesis lt_asym : ∀ x y, lt x y = true → lt y x = false.

Lemma insert_by_sorted x l : StronglySorted le l → StronglySorted le (insert_by lt x l).
Proof.
  induction 1 as [|y l Hl IH Hy]; simpl; [by repeat constructor|]. destruct (lt y x) eqn:E.
  - constructor; [done|]. rewrite (insert_by_perm lt x l). constructor; [|done]. by apply lt_asym.
  - constructor; [by constructor|]. constructor; [done|].
    eapply Forall_impl; [exact Hy|]. intros z Hz. by apply (le_trans x y z).
Qed.
Lemma sort_by_sorted l : StronglySorted le (sort_by lt l).
Proof. induction l as [|x l IH]; simpl; [constructor|by apply insert_by_sorted]. Qed.

(** Equal tuples stay in the order of their arrival. *)
Lemma insert_by_stable p x l : (∀ y, y ∈ l → p x = true → p y = true → lt y x = false) →
  filter (λ y, p y = true) (insert_by lt x l) = filter (λ y, p y = true) (x :: l).
Proof.
  intros Hp. induction l as [|y l IH]; [done|]. simpl. destruct (lt y x) eqn:E; [|done].
  rewrite filter_cons, IH by (intros z Hz; apply Hp; by right). rewrite !filter_cons.
  destruct (decide (p y = true)), (decide (p x = true)); try done.
  rewrite Hp in E; [done|by left|done|done].
Qed.
Lemma sort_by_stable p l : (∀ x y, p x = true → p y = true → lt x y = false) →
  filter (λ y, p y = true) (sort_by lt l) = filter (λ y, p y = true) l.
Proof.
  intros Hp. induction l as [|x l IH]; [done|]. simpl. rewrite insert_by_stable by (intros y _ Hx Hy; by apply Hp).
  by rewrite !filter_cons, IH.
Qed.
End ordered.
End sorting.

(** ** Reading

    Writing a record back as it was read changes nothing, so a computation that
    only reads an object leaves the database as it is. *)
Definition read_only {St B} (m : M St B) : Prop := ∀ s, (m s).1 = s.

Section read_only.
Context {St : Type}.
Lemma read_only_ret {B} (x : B) : read_only (mret x : M St B). Proof. done. Qed.
Lemma read_only_throw {B} e : read_only (throw e : M St B). Proof. done. Qed.
Lemma read_only_res {B} (r : res B) : read_only (lift_res r : M St B). Proof. done. Qed.
Lemma read_only_get : read_only (get_st : M St St). Proof. done. Qed.
Lemma read_only_bind {B C} (m : M St B) (f : B → M St C) : read_only m → (∀ b, read_only (f b)) → read_only (m ≫= f).
Proof.
  intros Hm Hf s. unfold mbind, M_bind. specialize (Hm s). destruct (m s) as [s' [b|e]]; simpl in *; subst; [apply Hf|done].
Qed.
Lemma read_only_run {B} (m : M St B) s b : read_only m → (m s).2 = Val b → m s = (s, Val b).
Proof. intros Hm. specialize (Hm s). destruct (m s) as [s' r]. simpl in *. by intros ->; subst. Qed.
End read_only.
#[export] Hint Resolve read_only_ret read_only_throw read_only_res read_only_get : poseidon.

(** Splits a computation at its binds and tests. *)
Ltac read_only :=
  repeat first
    [ solve [auto with poseidon] | apply read_only_bind; [|intros ?]
    | match goal with |- read_only (if ?b then _ else _) => destruct b end
    | match goal with |- read_only (match ?x with _ => _ end) => destruct x end ].

Section reading.
Context {V : Type → Type} `{!Vec V} {D : Type} `{!Dictionary D} {X : Type} `{!Indexes X}.
Notation db := (gdb V D X).
Variables (double_string : Z → str) (uninit : p_item).

Lemma self_read_only {B P} r : read_only (self r : M (tobj B P) (obj B)).
Proof. intros t. unfold self. by destruct (deref t r). Qed.
Lemma tab_do_read_only {B C} id (m : M (tobj B pitems) C) : read_only m → read_only (tab_do (V:=V) id m).
Proof.
  intros Hm v. unfold tab_do. destruct (tab_get v id) as [l|]; [|done]. destruct (vec_read v l) as [t|] eqn:E; [|done].
  specialize (Hm t). destruct (m t) as [t' r]. simpl in *. subst. by apply vec_write_same.
Qed.
Lemma at_node_read_only {C} id (m : M nobj C) : read_only m → read_only (at_node id m : M db C).
Proof.
  intros Hm g. unfold at_node, on_nodes. pose proof (tab_do_read_only id m Hm (nodes_ g)) as E.
  destruct (tab_do id m (nodes_ g)) as [v r]. simpl in *. subst. by destruct g.
Qed.
Lemma at_rship_read_only {C} id (m : M robj C) : read_only m → read_only (at_rship id m : M db C).
Proof.
  intros Hm g. unfold at_rship, on_rships. pose proof (tab_do_read_only id m Hm (rships_ g)) as E.
  destruct (tab_do id m (rships_ g)) as [v r]. simpl in *. subst. by destruct g.
Qed.
Hint Resolve self_read_only at_node_read_only at_rship_read_only : poseidon.

Lemma node_ref_read_only n : read_only (node_ref n : M db _).
Proof. apply at_node_read_only, self_read_only. Qed.
Lemma rship_ref_read_only r : read_only (rship_ref r : M db _).
Proof. apply at_rship_read_only, self_read_only. Qed.
Lemma tx_xid_read_only : read_only (tx_xid : M db Z).
Proof. unfold tx_xid. read_only. Qed.
Hint Resolve node_ref_read_only rship_ref_read_only tx_xid_read_only : poseidon.

Lemma valid_node_property_read_only n pc : read_only (get_valid_node_property_value uninit n pc : M db _).
Proof. unfold get_valid_node_property_value, get_node_property_value. read_only. Qed.
Lemma valid_rship_property_read_only r pc : read_only (get_valid_rship_property_value uninit r pc : M db _).
Proof. unfold get_valid_rship_property_value, get_rship_property_value. read_only. Qed.
Hint Resolve valid_node_property_read_only valid_rship_property_read_only : poseidon.

Lemma elem_at_read_only v i : read_only (elem_at v i : M db _).
Proof. unfold elem_at. read_only. Qed.
Hint Resolve elem_at_read_only : poseidon.
Lemma property_item_read_only v i pc : read_only (property_item uninit v i pc : M db _).
Proof. unfold property_item. read_only. Qed.
Hint Resolve property_item_read_only : poseidon.
Lemma get_var_value_read_only v var : read_only (get_var_value double_string uninit v var : M db _).
Proof.
  unfold get_var_value, int_value, uint64_value, double_value, ptime_value, string_value, item_string, get_string.
  read_only.
Qed.
Lemma node_sort_value_read_only v pc : read_only (node_sort_value v pc : M db _).
Proof. unfold node_sort_value, node_ptr, get_node_property_value. read_only. Qed.
End reading.

Section facts.
Context {V : Type → Type} `{!Vec V} `{!VecScan V} {D : Type} `{!Dictionary D} {X : Type} `{!Indexes X}.
Notation db := (gdb V D X).
Notation op := (op (V:=V) (D:=D) (X:=X)).
Variables (ptime_eqb ptime_ltb : Z → Z → bool).
Notation order_by := (order_by ptime_eqb ptime_ltb).
Context {A : Type}.
Implicit Types (g : db) (a : A) (next : op A) (l : list qr_tuple).

(** The same outcome for the database and the state behind an operator. *)
Definition same_end {S B} (m : (db * (S * A)) * res B) (n : (db * A) * res B) : Prop :=
  m.1.1 = n.1.1 ∧ m.1.2.2 = n.1.2 ∧ m.2 = n.2.

Lemma on_next_end {S B} (m : M (db * A) B) g (s : S) a : same_end (on_next m (g, (s, a))) (m (g, a)).
Proof. unfold on_next. simpl. by destruct (m (g, a)) as [[g' a'] r]. Qed.
Lemma on_next_run {S B} (m : M (db * A) B) g (s : S) a :
  on_next m (g, (s, a)) = (((m (g, a)).1.1, (s, (m (g, a)).1.2)), (m (g, a)).2).
Proof. unfold on_next. simpl. by destruct (m (g, a)) as [[g' a'] r]. Qed.
Lemma same_end_bind {S B C} (m : M (db * (S * A)) B) (n : M (db * A) B) (k : B → M (db * (S * A)) C) (j : B → M (db * A) C) s t :
  same_end (m s) (n t) → (∀ b g s' a, m s = ((g, (s', a)), Val b) → n t = ((g, a), Val b) → same_end (k b (g, (s', a))) (j b (g, a))) →
  same_end ((m ≫= k) s) ((n ≫= j) t).
Proof.
  unfold mbind, M_bind, same_end. destruct (m s) as [[g1 [s1 a1]] r1], (n t) as [[g2 a2] r2]. simpl.
  intros (-> & -> & ->) Hk. destruct r2 as [b|e]; [by apply Hk|done].
Qed.

(** ** Operators with one input *)

(** A step of an operator for some databases and tuples: what it pushes and what
    becomes of its member. *)
Definition steps {S} (I : db → Prop) (P : qr_tuple → Prop) (o : op (S * A)) next (push : S → qr_tuple → list qr_tuple) (upd : S → qr_tuple → S) : Prop :=
  ∀ g s a v, I g → P v → same_end (consume o v (g, (s, a))) (feed next (push s v) (g, a))
    ∧ ∀ t, consume o v (g, (s, a)) = (t, Val tt) → t.2.1 = upd s v.
(** A subscriber that leaves a property of the database as it is. *)
Definition keeps (I : db → Prop) next : Prop := ∀ v g a, I g → I (consume next v (g, a)).1.1.
Lemma keeps_any next : keeps (λ _, True) next. Proof. done. Qed.
Lemma feed_keeps I next l g a : keeps I next → I g → I (feed next l (g, a)).1.1.
Proof.
  intros Hk. revert g a. induction l as [|v l IH]; intros g a Hg; [done|]. unfold feed. simpl. unfold mbind, M_bind.
  pose proof (Hk v g a Hg) as H1. destruct (consume next v (g, a)) as [[g' a'] [[]|e]]; [by apply IH|done].
Qed.

Fixpoint pushed {S} (push : S → qr_tuple → list qr_tuple) (upd : S → qr_tuple → S) (s : S) l : list qr_tuple :=
  match l with [] => [] | v :: l' => push s v ++ pushed push upd (upd s v) l' end.

Lemma feed_app {B} (next : op B) l1 l2 s : feed next (l1 ++ l2) s = (feed next l1;; feed next l2) s.
Proof.
  unfold feed. revert s. induction l1 as [|v l1 IH]; intros s; [done|]. simpl. rewrite bind_assoc.
  unfold mbind, M_bind. destruct (consume next v s) as [s' [[]|e]]; [|done]. apply IH.
Qed.
Lemma feed_cons {B} (next : op B) v l s : feed next (v :: l) s = (consume next v;; feed next l) s.
Proof. done. Qed.
Lemma feed_steps {S} I P (o : op (S * A)) next push upd l : steps I P o next push upd → keeps I next → Forall P l →
  ∀ g s a, I g → same_end (feed o l (g, (s, a))) (feed next (pushed push upd s l) (g, a))
    ∧ (∀ t, feed o l (g, (s, a)) = (t, Val tt) → t.2.1 = foldl upd s l).
Proof.
  intros Ho Hk. induction 1 as [|v l Hv Hl IH]; intros g s a Hg.
  { split; [done|]. by intros t [= <-]. }
  destruct (Ho g s a v Hg Hv) as (He & Hs). pose proof (feed_keeps I next (push s v) g a Hk Hg) as Hg'.
  rewrite <-(proj1 He) in Hg'. split.
  - simpl pushed. rewrite feed_app. rewrite feed_cons. apply same_end_bind; [done|].
    intros [] g1 s1 a1 E _. pose proof (Hs _ E) as Hs1. simpl in Hs1. subst s1. apply IH. by rewrite E in Hg'.
  - intros t. rewrite feed_cons. intros ([g1 [s1 a1]] & [] & E & Et)%bind_inv. pose proof (Hs _ E) as Hs1.
    simpl in Hs1. subst s1. rewrite E in Hg'. by apply (IH g1 (upd s v) a1).
Qed.
(** A run with the [finish] of the subscriber at the end. *)
Lemma run_steps {S} I P (o : op (S * A)) next push upd l g s a :
  steps I P o next push upd → keeps I next → Forall P l → I g → finish o = on_next (finish next) →
  same_end ((feed o l;; finish o) (g, (s, a))) ((feed next (pushed push upd s l);; finish next) (g, a)).
Proof.
  intros Ho Hk Hl Hg Hf. destruct (feed_steps I P o next push upd l Ho Hk Hl g s a Hg) as (He & _). apply same_end_bind; [done|].
  intros [] g1 s1 a1 _ _. rewrite Hf. apply on_next_end.
Qed.

(** A step that pushes the tuple or not. *)
Lemma when_end {S} b (m : M (db * A) unit) g (s : S) a :
  same_end (when b (on_next m) (g, (s, a))) (when b m (g, a)).
Proof. destruct b; [apply on_next_end|done]. Qed.
Lemma feed_single {B} (next : op B) v s : feed next [v] s = consume next v s.
Proof. unfold feed, mbind, M_bind. simpl. unfold mbind, M_bind. by destruct (consume next v s) as [s' [[]|e]]. Qed.
Lemma on_next_member {S B} (m : M (db * A) B) g (s : S) a t r : on_next m (g, (s, a)) = (t, r) → t.2.1 = s.
Proof. rewrite on_next_run. by intros [= <- _]. Qed.

Lemma limit_steps num next :
  steps (λ _, True) (λ _, True) (limit_result num next) next (λ k v, if bool_decide (k < num) then [v] else []) (λ k _, if bool_decide (k < num) then u64 (k + 1) else k).
Proof.
  intros g s a v _ _. simpl. rewrite (bind_val _ _ _ (g, (s, a)) s) by done.
  destruct (bool_decide (s < num)); simpl.
  - rewrite (bind_val _ _ _ (g, (u64 (s + 1), a)) tt) by done. rewrite feed_single.
    split; [apply on_next_end|]. intros t E. by apply on_next_member in E.
  - split; [done|]. by intros t [= <-].
Qed.
(** [limit_result] lets the first tuples through. *)
Lemma limit_pushed num l : ∀ k, 0 ≤ k ≤ num → num < two64 →
  pushed (λ k v, if bool_decide (k < num) then [v] else []) (λ k _, if bool_decide (k < num) then u64 (k + 1) else k) k l
  = take (Z.to_nat (num - k)) l.
Proof.
  induction l as [|v l IH]; intros k Hk Hnum; [by rewrite take_nil|]. simpl. case_bool_decide.
  - unfold u64. rewrite Z.mod_small by lia. rewrite IH by lia.
    by replace (Z.to_nat (num - k)) with (S (Z.to_nat (num - (k + 1)))) by lia.
  - replace (Z.to_nat (num - k)) with O by lia. simpl. rewrite IH by lia. by replace (Z.to_nat (num - k)) with O by lia.
Qed.

Lemma limit_runs num next l g a : 0 ≤ num < two64 →
  same_end ((feed (limit_result num next) l;; finish (limit_result num next)) (g, (0, a)))
    ((feed next (take (Z.to_nat num) l);; finish next) (g, a)).
Proof.
  intros Hnum. pose proof (limit_pushed num l 0) as Hp. rewrite Z.sub_0_r in Hp. rewrite <-Hp by lia.
  eapply run_steps; [apply limit_steps|apply keeps_any|by apply Forall_true|done|done].
Qed.

Lemma order_steps gl next : steps (λ _, True) (λ _, True) (order_by gl next) next (λ _ _, []) (λ s v, s ++ [v]).
Proof. intros g s a v _ _. split; [done|]. by intros t [= <-]. Qed.
Lemma pushed_none {S} (upd : S → qr_tuple → S) s l : pushed (λ _ _, []) upd s l = [].
Proof. revert s. induction l as [|v l IH]; intros s; [done|]. apply IH. Qed.
Lemma foldl_snoc l r : foldl (λ s v, s ++ [v]) r l = r ++ l.
Proof. revert r. induction l as [|v l IH]; intros r; simpl; [by rewrite app_nil_r|]. by rewrite IH, <-app_assoc. Qed.
(** Feeding an operator that pushes nothing. *)
Lemma feed_silent {S} I P (o : op (S * A)) next upd l g s a : steps I P o next (λ _ _, []) upd → keeps I next → Forall P l → I g →
  feed o l (g, (s, a)) = ((g, (foldl upd s l, a)), Val tt).
Proof.
  intros Ho Hk Hl Hg. destruct (feed_steps I P o next _ upd l Ho Hk Hl g s a Hg) as ((E1 & E2 & E3) & Hs). rewrite pushed_none in E1, E2, E3.
  simpl in E1, E2, E3. destruct (feed o l (g, (s, a))) as [[g1 [s1 a1]] r]. simpl in E1, E2, E3. subst g1 a1 r.
  pose proof (Hs _ eq_refl) as H1. simpl in H1. by subst s1.
Qed.
Lemma order_by_runs gl next l sorted g a : sort_results ptime_eqb ptime_ltb gl l g = (g, Val sorted) →
  same_end ((feed (order_by gl next) l;; finish (order_by gl next)) (g, ([], a)))
    ((feed next sorted;; finish next) (g, a)).
Proof.
  intros Hf. rewrite (bind_val _ _ _ _ _ (feed_silent _ _ _ _ _ l g [] a (order_steps gl next) (keeps_any _) (Forall_true _ _ (λ _, I)) I)), foldl_snoc. simpl.
  rewrite (bind_val _ _ _ (g, (l, a)) l) by done.
  rewrite (bind_val _ _ _ (g, (l, a)) sorted) by (unfold on_fst; cbn [fst snd]; by rewrite Hf).
  rewrite (bind_val _ _ _ (g, (sorted, a)) tt) by done.
  apply same_end_bind; [apply on_next_end|]. intros [] g1 s1 a1 _ _. apply on_next_end.
Qed.

(** ** Operators with two inputs *)
Section two.
Context {S : Type}.
Notation St := (Z * S)%type.
(** The right input only stores, the left one pushes what it finds. *)
Definition stores_right (I : db → Prop) (P : qr_tuple → Prop) (o : op (St * A)) next (upd : S → qr_tuple → S) : Prop :=
  steps I P o next (λ _ _, []) (λ s v, (s.1, upd s.2 v)).
Definition pushes_left (I : db → Prop) (P : qr_tuple → Prop) (o : op (St * A)) next (push : S → qr_tuple → list qr_tuple) : Prop :=
  steps I P o next (λ s v, push s.2 v) (λ s _, s).

Lemma foldl_right (upd : S → qr_tuple → S) n x l : foldl (λ s v, (s.1, upd s.2 v)) ((n, x) : St) l = (n, foldl upd x l).
Proof. revert x. induction l as [|v l IH]; intros x; [done|]. apply IH. Qed.
Lemma pushed_left (push : S → qr_tuple → list qr_tuple) (s : St) l : pushed (λ s v, push s.2 v) (λ s _, s) s l = l ≫= push s.2.
Proof. induction l as [|v l IH]; [done|]. simpl. by rewrite IH. Qed.

(** Both inputs connected with the operator's own [finish]: the subscriber gets
    what the left tuples find, then finishes once. *)
Lemma join_runs I P Q (l_op r_op : op (St * A)) next upd push x ll rl g a :
  stores_right I Q r_op next upd → pushes_left I P l_op next push → keeps I next → Forall P ll → Forall Q rl → I g →
  finish r_op = join_finish next → finish l_op = join_finish next →
  same_end (run_join (l_op, r_op) ll rl (g, ((0, x), a))) ((feed next (ll ≫= push (foldl upd x rl));; finish next) (g, a)).
Proof.
  intros Hr Hl Hk HP HQ Hg Er El. unfold run_join. simpl fst. simpl snd.
  rewrite (bind_val _ _ _ _ _ (feed_silent _ _ _ _ _ rl g (0, x) a Hr Hk HQ Hg)), foldl_right. rewrite Er, El.
  rewrite (bind_val _ _ _ (g, ((1, foldl upd x rl), a)) tt) by done.
  destruct (feed_steps I P l_op next _ _ ll Hl Hk HP g (1, foldl upd x rl) a Hg) as (He & Hs).
  rewrite pushed_left in He. apply same_end_bind; [done|].
  intros [] g1 [n1 x1] a1 E _. pose proof (Hs _ E) as Hs1. simpl in Hs1.
  assert ((n1, x1) = (1, foldl upd x rl)) as [= -> ->].
  { rewrite Hs1. clear. induction ll as [|v ll IH]; [done|]. apply IH. }
  unfold join_finish. rewrite (bind_val _ _ _ (g1, ((1, foldl upd x rl), a1)) (1, foldl upd x rl)) by done.
  rewrite (bind_val _ _ _ (g1, ((2, foldl upd x rl), a1)) tt) by done. apply on_next_end.
Qed.
(** The right input connected without it: the subscriber finishes before the
    left tuples come, and not again. *)
Lemma built_join_runs I P Q (l_op r_op : op (St * A)) next upd push x ll rl g a :
  stores_right I Q r_op next upd → pushes_left I P l_op next push → keeps I next → Forall P ll → Forall Q rl →
  I g → I (finish next (g, a)).1.1 →
  finish r_op = on_next (finish next) → finish l_op = join_finish next →
  same_end (run_join (l_op, r_op) ll rl (g, ((0, x), a))) ((finish next;; feed next (ll ≫= push (foldl upd x rl))) (g, a)).
Proof.
  intros Hr Hl Hk HP HQ Hg Hg1 Er El. unfold run_join. simpl fst. simpl snd.
  rewrite (bind_val _ _ _ _ _ (feed_silent _ _ _ _ _ rl g (0, x) a Hr Hk HQ Hg)), foldl_right. rewrite Er, El.
  apply same_end_bind; [apply on_next_end|]. intros [] g1 s1 a1 E E'. rewrite E' in Hg1. simpl in Hg1. apply on_next_member in E. simpl in E. subst s1.
  destruct (feed_steps I P l_op next _ _ ll Hl Hk HP g1 (0, foldl upd x rl) a1 Hg1) as ((E1 & E2 & E3) & Hs). rewrite pushed_left in E1, E2, E3.
  simpl in E1, E2, E3. unfold mbind, M_bind. destruct (feed l_op ll (g1, (0, foldl upd x rl, a1))) as [[g2 [s2 a2]] r] eqn:E.
  simpl in E1, E2, E3. destruct r as [[]|e]; [|by split_and!].
  pose proof (Hs _ eq_refl) as Hs1. simpl in Hs1.
  assert (s2 = (0, foldl upd x rl)) as ->. { rewrite Hs1. clear. induction ll as [|v ll IH]; [done|]. apply IH. }
  by split_and!.
Qed.
End two.

(** *** The joins *)
Lemma keep_steps next (fin : M (db * ((Z * list qr_tuple) * A)) unit) : stores_right (λ _, True) (λ _, True) (mk_op keep_input fin) next (λ s v, s ++ [v]).
Proof. intros g [n x] a v _ _. split; [done|]. by intros t [= <-]. Qed.

(** A loop over candidates that pushes for some of them. *)
Lemma for_each_feed {T} (f : T → M (db * A) unit) (c : T → list qr_tuple) next (cands : list T) s :
  (∀ t s, f t s = feed next (c t) s) → for_each f cands s = feed next (cands ≫= c) s.
Proof.
  intros Hf. revert s. induction cands as [|t cands IH]; intros s; [done|]. simpl. rewrite feed_app.
  unfold mbind, M_bind. rewrite Hf. destruct (feed next (c t) s) as [s' [[]|e]]; [apply IH|done].
Qed.
Lemma on_next_steps {S} (m : S → qr_tuple → M (db * A) unit) (fin : M (db * (S * A)) unit) next push :
  (∀ s v t, m s v t = feed next (push s v) t) →
  steps (λ _, True) (λ _, True) (mk_op (λ v, s ← own; on_next (m s v)) fin) next push (λ s _, s).
Proof.
  intros Hm g s a v _ _. simpl. rewrite (bind_val _ _ _ (g, (s, a)) s) by done. rewrite <-Hm.
  split; [apply on_next_end|]. intros t E. by apply on_next_member in E.
Qed.

Definition cross ll (rl : list qr_tuple) : list qr_tuple := ll ≫= λ v, (λ w, w ++ v) <$> rl.
Lemma cross_left own_finish next : pushes_left (λ _, True) (λ _, True) (cross_join own_finish next).1 next (λ rl v, (λ w, w ++ v) <$> rl).
Proof.
  intros g [n x] a v _ _. simpl. rewrite (bind_val _ _ _ (g, ((n, x), a)) x) by done.
  assert (∀ s, for_each (λ inp, consume next (inp ++ v)) x s = feed next ((λ w, w ++ v) <$> x) s) as Hf.
  { intros s. rewrite (for_each_feed _ (λ w, [w ++ v]) next) by (intros t s'; by rewrite feed_single).
    done. }
  split; [unfold same_end; rewrite on_next_run, Hf; done|]. intros t E. by apply on_next_member in E.
Qed.
End facts.
