(* ===== verification/QopJoinFacts.v ===== *)
(** * QopJoinFacts: joins, sorting and limits, grouping

    The hash join finds what a loop over all pairs finds, by elements of tuples
    or by properties; the left outer join pads exactly the tuples without a
    partner; sorting by a specification and limiting deliver the first tuples of
    a stable lexicographic order.  A join that query_builder.cpp connects lets
    a sorting operator behind it finish before its tuples come.  Grouping keeps
    the groups by the hash of their key: right for one integer, whose hash is
    injective, and wrong for two. *)

From Stdlib Require Import Sorting.Sorted.
From S2P Require Import Prelude VecSpec Txn DictSpec IndexSpec Literals Property PropertyList PropertyMap GraphState GraphOps QueryCtx QResult Expr Qop QopJoins QopAggregates QopFacts.

Section joins.
Context {V : Type → Type} `{!Vec V} `{!VecScan V} {D : Type} `{!Dictionary D} {X : Type} `{!Indexes X}.
Variables (ptime_eqb ptime_ltb : Z → Z → bool) (double_string : Z → str) (uninit : p_item).
Notation db := (gdb V D X).
Notation op := (op (V:=V) (D:=D) (X:=X)).
Notation get_var_value := (get_var_value (V:=V) (D:=D) (X:=X) double_string uninit).
Notation hash_join := (hash_join ptime_eqb double_string uninit).
Notation variant_eqb := (variant_eqb ptime_eqb).
Notation order_by := (order_by ptime_eqb ptime_ltb).
Context {A : Type}.
Implicit Types (g : db) (a : A) (next : op A) (ll rl : list qr_tuple).

(** All pairs of a left and a right tuple that pass a test, the right tuple in
    front. *)
Definition nested_loop (test : qr_tuple → qr_tuple → bool) ll rl : list qr_tuple :=
  ll ≫= λ v, rl ≫= λ w, if test v w then [w ++ v] else [].

(** ** Hash join *)
Section hash.
Variables (hash : query_result → Z) (jl jr : qr_tuple → query_result) (lhs_var rhs_var : var_ref).
Notation table := (gmap Z (list (query_result * qr_tuple))).
(** The join value of a tuple in the databases the join may meet: an element of
    the tuple, or a property of a node or relationship in it. *)
Definition yields (I : db → Prop) (var : var_ref) (j : qr_tuple → query_result) (v : qr_tuple) : Prop :=
  ∀ g, I g → (get_var_value v var g).2 = Val (j v).
Lemma yields_run I var j v g : yields I var j v → I g → get_var_value v var g = (g, Val (j v)).
Proof. intros Hv Hg. apply read_only_run; [apply get_var_value_read_only|by apply Hv]. Qed.

Definition candidates (t : table) (v : qr_tuple) : list qr_tuple :=
  default [] (t !! hash (jr v)) ≫= λ jc, if variant_eqb (jr v) jc.1 then [jc.2 ++ v] else [].
Lemma hash_right I own_finish next : stores_right I (yields I lhs_var jl) (hash_join hash lhs_var rhs_var own_finish next).2 next
  (λ t v, build hash (jl v) v t).
Proof.
  intros g [n t] a v Hg Hv. cbn [hash_join snd consume].
  rewrite (bind_val _ _ _ (g, (n, t, a)) (jl v)) by (unfold on_fst; cbn [fst snd]; by rewrite (yields_run _ _ _ _ _ Hv Hg)).
  split; [done|]. by intros s [= <-].
Qed.
Lemma hash_left I own_finish next : pushes_left I (yields I rhs_var jr) (hash_join hash lhs_var rhs_var own_finish next).1 next candidates.
Proof.
  intros g [n t] a v Hg Hv. cbn [hash_join fst consume].
  rewrite (bind_val _ _ _ (g, (n, t, a)) (jr v)) by (unfold on_fst; cbn [fst snd]; by rewrite (yields_run _ _ _ _ _ Hv Hg)).
  rewrite (bind_val _ _ _ (g, (n, t, a)) t) by done.
  assert (∀ s, for_each (λ jc, when (variant_eqb (jr v) jc.1) (consume next (jc.2 ++ v))) (default [] (t !! hash (jr v))) s
    = feed next (candidates t v) s) as Hf.
  { intros s. apply for_each_feed. intros [x w] s'. simpl. destruct (variant_eqb (jr v) x); [by rewrite feed_single|done]. }
  split; [unfold same_end; rewrite on_next_run, Hf; done|]. intros s E. by apply on_next_member in E.
Qed.

Lemma foldl_build rl t key : default [] (foldl (λ t v, build hash (jl v) v t) t rl !! key)
  = default [] (t !! key) ++ ((λ w, (jl w, w)) <$> filter (λ w, hash (jl w) = key) rl).
Proof.
  revert t. induction rl as [|w rl IH]; intros t; [by rewrite app_nil_r|]. simpl. rewrite IH. unfold build.
  rewrite filter_cons. destruct (decide (hash (jl w) = key)) as [->|Hne].
  - rewrite lookup_insert_eq. simpl. by rewrite <-app_assoc.
  - by rewrite lookup_insert_ne.
Qed.
Lemma candidates_built rl v : (∀ x y, variant_eqb x y = true → hash x = hash y) →
  candidates (foldl (λ t v, build hash (jl v) v t) ∅ rl) v = rl ≫= λ w, if variant_eqb (jr v) (jl w) then [w ++ v] else [].
Proof.
  intros Hh. unfold candidates. rewrite foldl_build, lookup_empty. change (default [] None ++ ?l) with l.
  induction rl as [|w rl IH]; [done|]. rewrite filter_cons, bind_cons.
  destruct (decide (hash (jl w) = hash (jr v))) as [E|Hne].
  - by rewrite fmap_cons, bind_cons, IH.
  - rewrite IH. destruct (variant_eqb (jr v) (jl w)) eqn:E; [|done]. by rewrite (Hh _ _ E) in Hne.
Qed.

Lemma hash_join_runs I next ll rl g a :
  (∀ x y, variant_eqb x y = true → hash x = hash y) →
  keeps I next → I g → Forall (yields I rhs_var jr) ll → Forall (yields I lhs_var jl) rl →
  same_end (run_join (hash_join hash lhs_var rhs_var true next) ll rl (g, ((0, ∅), a)))
    ((feed next (nested_loop (λ v w, variant_eqb (jr v) (jl w)) ll rl);; finish next) (g, a)).
Proof.
  intros Hh Hk Hg Hll Hrl. pose proof (join_runs I _ _ _ _ next _ _ ∅ ll rl g a (hash_right I true next) (hash_left I true next)
    Hk Hll Hrl Hg eq_refl eq_refl) as H.
  assert (ll ≫= candidates (foldl (λ t v, build hash (jl v) v t) ∅ rl)
    = nested_loop (λ v w, variant_eqb (jr v) (jl w)) ll rl) as E.
  { unfold nested_loop. clear -Hh. induction ll as [|v ll IH]; [done|]. by rewrite !bind_cons, IH, candidates_built. }
  rewrite <-E. exact H.
Qed.
End hash.

Section hash_join.
Variables (hash : query_result → Z) (lhs_var rhs_var : var_ref).

(** The value of a tuple the join compares, an element of the tuple or the
    property of a node or relationship in it; and that there is one. *)
Definition join_value g (var : var_ref) (v : qr_tuple) : query_result :=
  match (get_var_value v var g).2 with Val x => x | Exn _ => no_result end.
Definition has_value g (var : var_ref) (v : qr_tuple) : Prop := ∃ x, (get_var_value v var g).2 = Val x.
(** A database in which the join values are those of [g]. *)
Definition same_values g ll rl (g' : db) : Prop :=
  Forall (λ v, (get_var_value v rhs_var g').2 = (get_var_value v rhs_var g).2) ll
  ∧ Forall (λ w, (get_var_value w lhs_var g').2 = (get_var_value w lhs_var g).2) rl.

(** C7: The hash join of the planner, joining on elements of the tuples or on
    properties of the nodes and relationships in them, delivers what the loop
    over all pairs of tuples delivers, in the same order, for any hash function
    that gives equal values the same hash; its subscriber then finishes.  The
    values exist, and the subscriber does not change them. *)
Theorem hash_join_is_nested_loop next ll rl g a :
  (∀ x y, variant_eqb x y = true → hash x = hash y) →
  Forall (has_value g rhs_var) ll → Forall (has_value g lhs_var) rl → keeps (same_values g ll rl) next →
  same_end (run_join (hash_join hash lhs_var rhs_var true next) ll rl (g, ((0, ∅), a)))
    ((feed next (nested_loop (λ v w, variant_eqb (join_value g rhs_var v) (join_value g lhs_var w)) ll rl);;
      finish next) (g, a)).
Proof.
  intros Hh Hll Hrl Hk. eapply (hash_join_runs _ (join_value g lhs_var) (join_value g rhs_var)); [done|exact Hk| | |].
  - split; by apply Forall_true.
  - apply Forall_forall. intros v Hv g' [Hg' _]. rewrite Forall_forall in Hg', Hll. rewrite Hg' by done.
    unfold join_value. by destruct (Hll v Hv) as [x ->].
  - apply Forall_forall. intros v Hv g' [_ Hg']. rewrite Forall_forall in Hg', Hrl. rewrite Hg' by done.
    unfold join_value. by destruct (Hrl v Hv) as [x ->].
Qed.
End hash_join.

(** ** Left outer join *)
Definition partners (pred : qr_tuple → qr_tuple → bool) rl (v : qr_tuple) : list qr_tuple :=
  rl ≫= λ w, if pred v w then [v ++ w] else [].
Definition padded_partners (pred : qr_tuple → qr_tuple → bool) rl (v : qr_tuple) : list qr_tuple :=
  match partners pred rl v with [] => [v ++ padding rl] | l => l end.

Lemma outer_loop_feed pred next v rl dangling s :
  outer_loop (outer_func pred v) next v rl dangling s
  = (feed next (partners pred rl v);; mret (match partners pred rl v with [] => dangling | _ => false end)) s.
Proof.
  revert dangling s. induction rl as [|w rl IH]; intros dangling s; [done|]. cbn [outer_loop].
  rewrite (bind_val _ _ _ s (pred v w)) by (by destruct s). unfold partners. rewrite bind_cons. fold (partners pred rl v).
  destruct (pred v w); [|apply IH]. cbn [app].
  change (feed next ((v ++ w) :: ?l)) with (consume next (v ++ w);; feed next l). rewrite bind_assoc.
  unfold mbind, M_bind. destruct (consume next (v ++ w) s) as [s' [[]|e]]; [|done].
  rewrite IH. unfold mbind, M_bind.
  destruct (feed next (partners pred rl v) s') as [s'' [[]|e]]; [|done]. by destruct (partners pred rl v).
Qed.
Lemma outer_left pred own_finish next : pushes_left (λ _, True) (λ _, True) (left_outer_join (outer_func pred) own_finish next).1 next (padded_partners pred).
Proof.
  intros g [n rl] a v _ _. cbn [left_outer_join fst consume]. rewrite (bind_val _ _ _ (g, (n, rl, a)) rl) by done.
  assert (∀ k : bool → M (db * ((Z * list qr_tuple) * A)) unit,
    (d ← on_next (outer_loop (outer_func pred v) next v rl true); k d) (g, (n, rl, a))
    = (on_next (feed next (partners pred rl v));; k (match partners pred rl v with [] => true | _ => false end)) (g, (n, rl, a))) as E.
  { intros k. unfold mbind, M_bind. rewrite !on_next_run, outer_loop_feed. unfold mbind, M_bind.
    destruct (feed next (partners pred rl v) (g, a)) as [[g' a'] [[]|e]]; done. }
  rewrite E. unfold padded_partners. simpl. destruct (partners pred rl v) as [|w l] eqn:Ep.
  - rewrite (bind_val _ _ _ (g, (n, rl, a)) tt) by done. rewrite feed_single. simpl.
    split; [apply on_next_end|]. intros t Et. by apply on_next_member in Et.
  - simpl. unfold mbind, M_bind. rewrite on_next_run. unfold same_end.
    destruct (feed next (w :: l) (g, a)) as [[g' a'] [[]|e]] ; simpl; (split; [done|]); [by intros t [= <-]|done].
Qed.

(** C10: The left outer join delivers for every left tuple its pairs with the
    right tuples that satisfy the condition, and exactly when there are none the
    tuple itself, padded with null values. *)
Theorem left_outer_join_runs pred next ll rl g a :
  same_end (run_join (left_outer_join (outer_func pred) true next) ll rl (g, ((0, []), a)))
    ((feed next (ll ≫= padded_partners pred rl);; finish next) (g, a)).
Proof.
  assert (foldl (λ s v, s ++ [v]) [] rl = rl) as E by apply foldl_snoc. rewrite <-E at 2.
  apply (join_runs (λ _, True) (λ _, True) (λ _, True) (left_outer_join (outer_func pred) true next).1
    (left_outer_join (outer_func pred) true next).2 next (λ s v, s ++ [v]) (padded_partners pred)).
  - apply keep_steps.
  - apply outer_left.
  - apply keeps_any.
  - by apply Forall_true.
  - by apply Forall_true.
  - done.
  - done.
  - done.
Qed.
End joins.

(** ** Sorting *)
Section sorting.
Context {V : Type → Type} `{!Vec V} `{!VecScan V} {D : Type} `{!Dictionary D} {X : Type} `{!Indexes X}.
Variables (ptime_eqb ptime_ltb : Z → Z → bool).
Notation db := (gdb V D X).
Notation order_by := (order_by ptime_eqb ptime_ltb).
Implicit Types (g : db) (l : list qr_tuple).



(** *** The order of a sort specification

    The sort key of a tuple: an element of it, or with a property code a
    property of the node that the element refers to; a number or a string. *)
Notation sort_key_t := (Z + str)%type.






(** A query of query_builder.cpp that sorts the result of a join signals a
    complete and empty result: the right input makes the sorting operator finish
    before the join has delivered anything, and the join never finishes. *)
Theorem built_join_starves_sort gl ll rl g :
  ∃ s, run_join (cross_join false (order_by gl collect_result)) ll rl (g, ((0, []), ([], ([], false)))) = ((g, s), Val tt)
    ∧ s.2.2 = ([], true).
Proof.
  destruct (built_join_runs (λ _, True) (λ _, True) (λ _, True) (cross_join false (order_by gl collect_result)).1
    (cross_join false (order_by gl collect_result)).2 (order_by gl collect_result) (λ s v, s ++ [v]) (λ rl v, (λ w, w ++ v) <$> rl)
    [] ll rl g ([], ([], false)) (keep_steps _ _) (cross_left _ _) (keeps_any _)) as (E1 & E2 & E3); [by apply Forall_true|by apply Forall_true|done..|].
  assert (finish (order_by gl collect_result) (g, ([], ([], false))) = ((g, ([], ([], true))), Val tt)) as Ef.
  { simpl. rewrite (bind_val _ _ _ (g, ([], ([], false))) []) by done.
    rewrite (bind_val _ _ _ (g, ([], ([], false))) []) by (unfold on_fst, sort_results; by destruct (cmp_func_ gl)). done. }
  rewrite (bind_val _ _ _ _ _ Ef) in E1, E2, E3.
  rewrite (feed_silent _ _ _ _ _ _ g [] ([], true) (order_steps ptime_eqb ptime_ltb gl collect_result) (keeps_any _) (Forall_true _ _ (λ _, I)) I) in E1, E2, E3.
  simpl in E1, E2, E3.
  destruct (run_join _ ll rl _) as [[g' s] r]. simpl in E1, E2, E3. subst g' r. exists s. split; [done|by rewrite E2].
Qed.
End sorting.

(** ** Grouping by one integer, and by two

    Grouping keeps the groups by the hash of their key.  The hash of one integer
    is injective, so the groups are right; the hash of two is not. *)

Section groups.
Context {V : Type → Type} `{!Vec V} `{!VecScan V} {D : Type} `{!Dictionary D} {X : Type} `{!Indexes X}.
Variables (double_string : Z → str) (uninit : p_item) (hash_string : str → Z) (hash_double hash_ptime : Z → Z).
Notation db := (gdb V D X).
Notation group_by := (group_by double_string uninit hash_string hash_double hash_ptime).
Notation group_process := (group_process double_string uninit hash_string hash_double hash_ptime).
Implicit Types (g : db).

(** A hash map is walked once, in some order. *)
Definition walks (walk : gmap Z (list val_t) → list Z) : Prop := ∀ m, walk m ≡ₚ (map_to_list m).*1.

(** The values of one column, and how often a value is among them. *)
Definition int_range (i : Z) : Prop := - 2 ^ 31 ≤ i < 2 ^ 31.
Definition count_in (i : Z) (l : list Z) : Z := Z.of_nat (length (filter (λ j, j = i) l)).
Definition row (i : Z) : qr_tuple := [qr_int i].

Definition int_group : group := mk_group 0 [] UNKNOWN_CODE int_type.
Definition count_expr : aggr_expr := mk_aggr f_count 0 [] UNKNOWN_CODE int_type.

(** ** The hash of one integer *)
Definition int_hash (i : Z) : Z := u32 (i + golden).
Lemma hasher_row i g : hasher double_string uninit hash_string hash_double hash_ptime (row i) [int_group] 0 g = (g, Val (int_hash i)).
Proof.
  unfold hasher, hash_group, row. simpl. unfold mbind, M_bind, elem_at. simpl. unfold lift_res. do 3 f_equal.
  unfold mix. change (Z.shiftl 0 6) with 0. change (Z.shiftr 0 2) with 0. rewrite Z.lxor_0_l. change (u64 0) with 0.
  rewrite !Z.add_0_r. unfold mret, M_ret. do 2 f_equal. apply Z.mod_small. unfold int_hash, u32. pose proof (Z.mod_pos_bound (i + golden) two32 ltac:(done)).
  unfold two32, two64 in *. lia.
Qed.
Lemma int_hash_inj i j : int_range i → int_range j → int_hash i = int_hash j → i = j.
Proof.
  unfold int_range, int_hash, u32. intros Hi Hj E.
  pose proof (Z.div_mod (i + golden) two32 ltac:(done)) as D1. pose proof (Z.div_mod (j + golden) two32 ltac:(done)) as D2.
  rewrite E in D1. unfold two32, golden in *. lia.
Qed.

(** ** The groups after a list of rows *)
Definition groups_of (l : list Z) (s : group_state) : Prop :=
  (∀ i, int_range i → aggr_vals_ s !! int_hash i = (if decide (i ∈ l) then Some [v_int (count_in i l)] else None)
    ∧ group_keys_ s !! int_hash i = (if decide (i ∈ l) then Some (row i) else None))
  ∧ ∀ k, is_Some (aggr_vals_ s !! k) → ∃ i, i ∈ l ∧ k = int_hash i.

Lemma count_in_app i l j : count_in i (l ++ [j]) = count_in i l + (if decide (j = i) then 1 else 0).
Proof.
  unfold count_in. rewrite filter_app, length_app, filter_cons, filter_nil. destruct (decide (j = i)); simpl; lia.
Qed.
Lemma count_in_bounds i l : 0 ≤ count_in i l ≤ Z.of_nat (length l).
Proof. unfold count_in. pose proof (length_filter (λ j, j = i) l). lia. Qed.
Lemma count_in_0 i l : i ∉ l → count_in i l = 0.
Proof.
  intros Hi. unfold count_in. induction l as [|j l IH]; [done|]. rewrite filter_cons.
  rewrite decide_False by (intros ->; apply Hi; by left). apply IH. intros Hl. apply Hi. by right.
Qed.

Lemma update_count v n g : n + 1 < 2 ^ 31 → 0 ≤ n →
  update_values double_string uninit v [count_expr] [v_int n] g = (g, Val [v_int (n + 1)]).
Proof.
  intros Hn H0. simpl. unfold update_value, mbind, M_bind, lift_res, int_result. simpl.
  rewrite bool_decide_eq_true_2 by lia. done.
Qed.

Lemma groups_insert l s j (keys : gmap Z qr_tuple) : groups_of l s → int_range j →
  (keys = group_keys_ s ∧ j ∈ l ∨ keys = <[int_hash j := row j]> (group_keys_ s) ∧ j ∉ l) →
  groups_of (l ++ [j]) (mk_groups keys (<[int_hash j := [v_int (count_in j l + 1)]]> (aggr_vals_ s))).
Proof.
  intros (H & Hdom) Hj Hk. split; simpl.
  - intros i Hi. destruct (H i Hi) as (Ha & Hg). rewrite count_in_app. destruct (decide (j = i)) as [->|Hne].
    + assert (i ∈ l ++ [i]) as Hin2 by (apply elem_of_app; right; by apply list_elem_of_singleton).
      rewrite lookup_insert_eq, !(decide_True _ _ Hin2). split; [done|].
      destruct Hk as [(-> & Hin)|(-> & Hin)]; [by rewrite Hg, decide_True|by rewrite lookup_insert_eq].
    + assert (int_hash j ≠ int_hash i) as Hh by (intros E; by apply Hne, int_hash_inj).
      rewrite lookup_insert_ne, Ha, Z.add_0_r by done.
      assert (i ∈ l ++ [j] ↔ i ∈ l) as Hin by (rewrite elem_of_app, list_elem_of_singleton; naive_solver).
      assert (keys !! int_hash i = group_keys_ s !! int_hash i) as ->.
      { destruct Hk as [(-> & _)|(-> & _)]; [done|by rewrite lookup_insert_ne]. }
      rewrite Hg. by destruct (decide (i ∈ l)), (decide (i ∈ l ++ [j])); naive_solver.
  - intros k Hk2. destruct (decide (k = int_hash j)) as [->|Hne].
    + exists j. split; [|done]. apply elem_of_app. right. by apply list_elem_of_singleton.
    + rewrite lookup_insert_ne in Hk2 by done. destruct (Hdom k Hk2) as (i & Hi & ->). exists i. split; [|done].
      apply elem_of_app. by left.
Qed.

Lemma group_step {A} (a : A) g l s j : groups_of l s → int_range j → Z.of_nat (length l) + 1 < 2 ^ 31 →
  ∃ s', group_process [int_group] [count_expr] (row j) (g, (s, a)) = ((g, (s', a)), Val tt) ∧ groups_of (l ++ [j]) s'.
Proof.
  intros Hs Hj Hlen. destruct (proj1 Hs j Hj) as (Ha & Hg). pose proof (count_in_bounds j l). unfold QopAggregates.group_process.
  rewrite (bind_val _ _ _ (g, (s, a)) (int_hash j)) by (unfold on_fst; cbn [fst snd]; by rewrite hasher_row).
  rewrite (bind_val _ _ _ (g, (s, a)) s) by done. rewrite Ha. destruct (decide (j ∈ l)) as [Hin|Hin].
  - rewrite (bind_val _ _ _ (g, (s, a)) [v_int (count_in j l + 1)]) by (unfold on_fst; cbn [fst snd]; by rewrite update_count by lia).
    eexists. split; [done|]. apply groups_insert; [done|done|by left].
  - rewrite Hg. rewrite (bind_val _ _ _ (g, (s, a)) (row j)) by done. cbv zeta.
    rewrite (bind_val _ _ _ (g, (mk_groups (<[int_hash j := row j]> (group_keys_ s)) (aggr_vals_ s), a)) tt) by done.
    rewrite (bind_val _ _ _ (g, (mk_groups (<[int_hash j := row j]> (group_keys_ s)) (aggr_vals_ s), a)) [v_int 1]) by done.
    eexists. split; [done|]. simpl. rewrite <-(Z.add_0_l 1), <-(count_in_0 j l Hin).
    apply (groups_insert l s j); [done|done|by right].
Qed.

Lemma group_feed {A} (next : op A) (a : A) walk g l : ∀ l0 s, groups_of l0 s → Forall int_range l → Z.of_nat (length (l0 ++ l)) < 2 ^ 31 →
  ∃ s', feed (group_by walk [int_group] [count_expr] next) (row <$> l) (g, (s, a)) = ((g, (s', a)), Val tt) ∧ groups_of (l0 ++ l) s'.
Proof.
  induction l as [|j l IH]; intros l0 s Hs Hl Hlen.
  { exists s. by rewrite app_nil_r. }
  apply Forall_cons in Hl as (Hj & Hl). rewrite length_app in Hlen. simpl in Hlen.
  destruct (group_step a g l0 s j Hs Hj) as (s1 & E1 & H1); [lia|].
  destruct (IH (l0 ++ [j]) s1 H1 Hl) as (s2 & E2 & H2); [rewrite !length_app; simpl; lia|].
  exists s2. rewrite <-app_assoc in H2. split; [|done]. rewrite fmap_cons, feed_cons. by rewrite (bind_val _ _ _ _ _ E1).
Qed.

(** The result rows of the keys. *)
Definition counted l i : qr_tuple := [qr_int i; qr_int (count_in i l)].
Lemma group_result_row l s i : groups_of l s → int_range i → i ∈ l →
  group_result [int_group] [count_expr] s (int_hash i) = Val (counted l i).
Proof.
  intros (H & _) Hi Hin. destruct (H i Hi) as (Ha & Hg). unfold group_result.
  rewrite Ha, Hg, !(decide_True _ _ Hin). reflexivity.
Qed.
Lemma group_results l s (keys ids : list Z) g r : groups_of l s → Forall int_range ids → (∀ i, i ∈ ids → i ∈ l) → keys = int_hash <$> ids →
  for_each (λ key, v ← lift_res (group_result [int_group] [count_expr] s key); on_next (consume collect_result v)) keys (g, (s, (r, false)))
  = ((g, (s, (r ++ (counted l <$> ids), false))), Val tt).
Proof.
  intros Hs Hi Hin ->. revert r. induction ids as [|i ids IH]; intros r; [by rewrite app_nil_r|].
  apply Forall_cons in Hi as (Hi & Hi'). rewrite !fmap_cons, for_each_cons.
  rewrite (bind_val _ _ _ (g, (s, (r ++ [counted l i], false))) tt).
  - rewrite IH by (done || set_solver). by rewrite <-app_assoc.
  - rewrite (bind_val _ _ _ (g, (s, (r, false))) (counted l i)); [done|].
    unfold lift_res. rewrite (group_result_row l s i Hs Hi); [done|]. apply Hin. by left.
Qed.

Lemma walked_keys walk l s : walks walk → groups_of l s → Forall int_range l →
  ∃ ids, walk (aggr_vals_ s) = int_hash <$> ids ∧ ids ≡ₚ remove_dups l.
Proof.
  intros Hw (H & Hdom) Hl.
  assert (walk (aggr_vals_ s) ≡ₚ int_hash <$> remove_dups l) as Hp.
  { etrans; [apply Hw|]. apply NoDup_Permutation.
    - apply NoDup_fst_map_to_list.
    - apply NoDup_fmap_2_strong; [|apply NoDup_remove_dups]. intros i j Hi Hj.
      rewrite elem_of_remove_dups in Hi, Hj. rewrite Forall_forall in Hl. by apply int_hash_inj; apply Hl.
    - intros k. rewrite list_elem_of_fmap. split.
      + intros ([k' v] & -> & Hk%elem_of_map_to_list). destruct (Hdom k') as (i & Hi & ->); [by eexists|].
        apply list_elem_of_fmap. exists i. by rewrite elem_of_remove_dups.
      + intros (i & -> & Hi)%list_elem_of_fmap. rewrite elem_of_remove_dups in Hi.
        destruct (H i) as (Ha & _); [rewrite Forall_forall in Hl; auto|]. rewrite decide_True in Ha by done.
        exists (int_hash i, [v_int (count_in i l)]). split; [done|]. by apply elem_of_map_to_list. }
  apply Permutation_map_inv in Hp as (ids & E & Hp). exists ids. by split; [|symmetry].
Qed.

(** C9: Grouping by one integer with a count delivers one row per value that
    occurs, with the number of its occurrences, whatever the order in which the
    hash map ids walked. *)
Theorem group_by_counts walk l g :
  walks walk → Forall int_range l → Z.of_nat (length l) < 2 ^ 31 →
  ∃ s ids, (feed (group_by walk [int_group] [count_expr] collect_result) (row <$> l);;
        finish (group_by walk [int_group] [count_expr] collect_result)) (g, (no_groups, ([], false))) = ((g, s), Val tt)
    ∧ s.2 = (counted l <$> ids, true) ∧ ids ≡ₚ remove_dups l.
Proof.
  intros Hw Hl Hlen. destruct (group_feed collect_result ([], false) walk g l [] no_groups) as (s & E & Hs); [|done|done|].
  { split; [done|]. intros k [x Hx]. done. }
  rewrite (bind_val _ _ _ _ _ E). destruct (walked_keys walk l s Hw Hs Hl) as (ids & Ek & Hp).
  exists (s, (counted l <$> ids, true)), ids. split; [|done]. simpl. rewrite (bind_val _ _ _ (g, (s, ([], false))) s) by done.
  rewrite (bind_val _ _ _ (g, (s, (counted l <$> ids, false))) tt); [done|].
  apply (group_results l s _ ids g []); [done| | |done].
  - rewrite Forall_forall in *. intros i Hi. apply Hl. rewrite Hp, elem_of_remove_dups in Hi. done.
  - intros i Hi. rewrite Hp, elem_of_remove_dups in Hi. done.
Qed.

(** ** Two columns *)
Definition second_group : group := mk_group 1 [] UNKNOWN_CODE int_type.
(** Grouping by two integers puts the rows (8, 21) and (6, 24) into one group
    of two, because their keys have the same hash. *)
Theorem group_by_merges_keys walk g :
  walks walk →
  ∃ s, (feed (group_by walk [int_group; second_group] [count_expr] collect_result) [[qr_int 8; qr_int 21]; [qr_int 6; qr_int 24]];;
        finish (group_by walk [int_group; second_group] [count_expr] collect_result)) (g, (no_groups, ([], false))) = ((g, s), Val tt)
    ∧ s.2 = ([[qr_int 8; qr_int 21; qr_int 2]], true).
Proof.
  intros Hw.
  set (s := mk_groups {[ 175247765951 := [qr_int 8; qr_int 21] ]} {[ 175247765951 := [v_int 2] ]}).
  assert (feed (group_by walk [int_group; second_group] [count_expr] collect_result)
    [[qr_int 8; qr_int 21]; [qr_int 6; qr_int 24]] (g, (no_groups, ([], false))) = ((g, (s, ([], false))), Val tt)) as E
    by (vm_compute; reflexivity).
  rewrite (bind_val _ _ _ _ _ E). exists (s, ([[qr_int 8; qr_int 21; qr_int 2]], true)). split; [|done]. simpl.
  rewrite (bind_val _ _ _ (g, (s, ([], false))) s) by done.
  assert (walk (aggr_vals_ s) = [175247765951]) as ->; [|reflexivity].
  apply Permutation_singleton_r. etrans; [apply Hw|]. reflexivity.
Qed.
End groups.
