(* ===== verification/GraphNodes.v ===== *)
(** * GraphNodes: the life of a node

    A node that is added and committed is what later transactions read; what
    happens when its properties cannot be stored; what commit does in general. *)

From S2P Require Import Prelude VecSpec DictSpec IndexSpec Literals Property PropertyList PropertyMap PropertyTable.
From S2P Require Import Txn Mvto GraphState GraphOps GraphIndex GraphCommit GraphIndexFacts GraphFacts.

Section nodes.
Context {V : Type → Type} `{!Vec V} {D : Type} `{!Dictionary D} {X : Type} `{!Indexes X}.
Variables (ptime_of_date time_from_string : str → res Z) (junk : Z).
Notation db := (gdb V D X).
Notation canonical := (canonical ptime_of_date time_from_string).
Notation add_node := (add_node ptime_of_date time_from_string junk).
Notation commit_transaction := (commit_transaction junk).
Implicit Types g : db.

(** The object of a node that was just added, and after its commit. *)
Definition added (x : Z) (b : node) (l : pitems) : nobj :=
  mk_tobj (mk_obj x 0 INF 0 (Some false) b)
    (Some [mk_dirty false (mk_obj x 0 INF 0 (Some true) b) l 0%nat]) 1.
Definition stored (x : Z) (b : node) : nobj := mk_tobj (mk_obj 0 x INF 0 (Some false) b) None 1.

Lemma add_copy_inserted b x id l :
  add_copy Main l false (inserted set_node_id b x id)
  = (mk_tobj (mk_obj x 0 INF 0 (Some false) (set_node_id id b))
      (Some [mk_dirty false (mk_obj x 0 INF 0 (Some false) (set_node_id id b)) l 0%nat]) 1, Val 0%nat).
Proof. reflexivity. Qed.

Lemma set_dirty_added x b l :
  set_dirty_at 0 (mk_tobj (mk_obj x 0 INF 0 (Some false) b)
      (Some [mk_dirty false (mk_obj x 0 INF 0 (Some false) b) l 0%nat]) 1)
  = (added x b l, Val tt).
Proof. reflexivity. Qed.

Lemma classify_added x b l :
  classify (added x b l) = commit_insert (mk_dirty false (mk_obj x 0 INF 0 (Some true) b) l 0%nat).
Proof. reflexivity. Qed.

(** *** Raw values *)

(** The raw value of the item for a value; that of a string depends on the
    dictionary. *)
Definition raw_of (v : any) : option Z :=
  match v with
  | any_int i => Some (u32 i)
  | any_double b => Some b
  | any_uint64 u => Some u
  | any_ptime t => Some t
  | _ => None
  end.
Lemma raw_range v r : any_wf v → raw_of v = Some r → 0 ≤ r < two64.
Proof.
  destruct v as [|i|b|u|c|s|t|]; simpl; intros Hw E; simplify_eq; try done.
  pose proof (Z.mod_pos_bound i two32 eq_refl) as H. unfold u32. unfold two32, two64 in *. lia.
Qed.

Definition raws (props : properties_t) (l : pitems) : Prop :=
  Forall2 (λ kv it, ∀ r, raw_of kv.2 = Some r → get_raw it = r) props l.
Lemma build_dirty_raws props d d' l :
  build_dirty_from_props ptime_of_date time_from_string junk props d = (d', Val l) → raws props l.
Proof.
  revert d d' l. induction props as [|[k v] props IH]; intros d d' l; cbn [build_dirty_from_props].
  - intros [= <- <-]. constructor.
  - intros (d1 & it & E1 & E)%bind_inv. apply bind_inv in E as (d2 & l2 & E2 & [= <- <-]).
    constructor; [|by eapply IH]. intros r Hr. cbn [snd] in Hr.
    apply bind_inv in E1 as (d3 & it3 & E3 & E1). apply bind_inv in E1 as (d4 & c & _ & [= <- <-]).
    destruct v; simpl in Hr, E3; simplify_eq; by injection E3 as <- <-.
Qed.

(** *** Adding *)
Lemma check_tx_ok g tx : current_transaction_ g = Some tx → check_tx_context g = (g, Val tt).
Proof. intros E. unfold check_tx_context, mbind, M_bind, get_st. by rewrite E. Qed.
Lemma tx_xid_ok g tx : current_transaction_ g = Some tx → tx_xid g = (g, Val (xid_ tx)).
Proof. intros E. unfold tx_xid, mbind, M_bind, get_st. by rewrite E. Qed.

(** The code of a label, found or inserted. *)
Lemma label_type_ok g m label rest :
  d_has (dict_ g) m → dict_takes (dict_ g) (label :: rest) →
  ∃ d' m' c, (∀ A (k : Z → M db A),
      (c ← get_code label; t ← (if bool_decide (c = 0) then on_dict (d_insert label) else mret c); k t) g
      = k c (set_gdict d' g))
    ∧ d_has d' m' ∧ m ⊆ m' ∧ m' !! c = Some label ∧ dict_takes d' rest.
Proof.
  intros Hd (Hn & Hf & Ht). destruct (d_insert_ok _ m label Hd Hn Hf) as (d' & c & E & Hd' & Hr & Hor & Huniq).
  unfold get_code, mbind, M_bind, get_st, mret, M_ret. case_bool_decide as E0.
  - unfold on_dict. rewrite E in *. exists d', (<[c := label]> m), c. split_and!; try done.
    + destruct Hor; [by apply insert_subseteq|by rewrite insert_id].
    + apply lookup_insert_eq.
  - destruct (d_lookup_ok _ m label Hd Hf) as [|Hl]; [done|].
    exists (dict_ g), m, (d_lookup_string (dict_ g) label). split_and!; try done.
    + intros A k. by destruct g.
    + by rewrite (d_known_ok _ _ _ _ Hd Hl) in Ht.
Qed.

(** A new node: the id was free, the object is locked by the transaction and has
    one version with the properties. *)
Lemma add_node_ok g m tx label props ces ap :
  current_transaction_ g = Some tx → vec_ok (nodes_ g) → d_has (dict_ g) m →
  canonical props ces → dict_takes (dict_ g) (label :: props_strings props) →
  ∃ id v d m' c l, add_node label props ap g
      = (set_current (Some (mk_tx (xid_ tx) (dirty_nodes_ tx ++ [id]) (dirty_rships_ tx)))
           (set_nodes v (set_gdict d g)), Val id)
    ∧ vec_ok v ∧ 0 ≤ id ∧ vec_get (nodes_ g) id = None
    ∧ (∀ j, vec_get v j = if decide (j = id)
        then Some (added (xid_ tx) (mk_node id UNKNOWN UNKNOWN UNKNOWN c) l) else vec_get (nodes_ g) j)
    ∧ d_has d m' ∧ m ⊆ m' ∧ m' !! c = Some label ∧ entries m' l ces ∧ raws props l.
Proof.
  intros Htx Hok Hd Hc Ht. unfold GraphOps.add_node.
  rewrite (bind_val _ _ _ _ _ (check_tx_ok _ _ Htx)), (bind_val _ _ _ _ _ (tx_xid_ok _ _ Htx)).
  destruct (label_type_ok g m label _ Hd Ht) as (d1 & m1 & c & E1 & Hd1 & Hm1 & Hlab & Ht1).
  rewrite E1. set (g1 := set_gdict d1 g).
  destruct (tab_insert_step ap set_node_id (new_node c) (xid_ tx) (nodes_ g) Hok)
    as (id & v1 & E2 & Hok1 & Hid & Hfree & Hget1 & _).
  assert (on_nodes ((if ap then tab_append else tab_insert) set_node_id (new_node c) (xid_ tx)) g1
    = (set_nodes v1 g1, Val id)) as E2' by (unfold on_nodes; simpl; by rewrite E2).
  rewrite (bind_val _ _ _ _ _ E2').
  destruct (build_dirty_from_props_ok ptime_of_date time_from_string junk d1 m1 props ces Hd1 Hc Ht1)
    as (d2 & m2 & l & E3 & Hd2 & Hm2 & Hl).
  assert (on_dict (build_dirty_from_props ptime_of_date time_from_string junk props) (set_nodes v1 g1)
    = (set_gdict d2 (set_nodes v1 g1), Val l)) as E3' by (unfold on_dict; simpl; by rewrite E3).
  rewrite (bind_val _ _ _ _ _ E3'). set (g3 := set_gdict d2 (set_nodes v1 g1)).
  assert (vec_get (nodes_ g3) id = Some (inserted set_node_id (new_node c) (xid_ tx) id)) as Hget3
    by (simpl; by rewrite Hget1, decide_True).
  destruct (at_node_step g3 id _ _ _ _ (vec_ok_rd _ Hok1) Hget3 (add_copy_inserted _ _ _ l))
    as (g4 & E4 & H4).
  rewrite (bind_val _ _ _ _ _ E4). destruct (node_set_get _ _ _ _ H4) as [Hrd4 Hget4].
  destruct (at_node_step g4 id _ (set_dirty_at 0) _ _ Hrd4 Hget4 (set_dirty_added _ _ _)) as (g5 & E5 & H5).
  rewrite (bind_val _ _ _ _ _ E5).
  destruct (node_set_trans _ _ _ _ _ _ H4 H5) as (v & Hv & ->).
  exists id, v, d2, m2, c, l. split_and!; try done.
  - unfold add_dirty_node, mbind, M_bind, modify. simpl. by rewrite Htx.
  - by apply (ts_ok _ _ _ _ Hv).
  - intros j. rewrite (ts_get _ _ _ _ Hv). simpl. rewrite Hget1. by destruct (decide (j = id)).
  - by transitivity m1.
  - by eapply lookup_weaken.
  - by eapply build_dirty_raws.
Qed.

(** *** Committing a new node *)
Lemma copy_properties_added g x id b l m es :
  vec_rd (nodes_ g) → vec_get (nodes_ g) id = Some (added x b l) → node_plist b = UNKNOWN →
  vec_ok (node_properties_ g) →
  vec_capacity (node_properties_ g) + Z.of_nat (length l) * vec_grow ≤ UNKNOWN →
  d_has (dict_ g) m → entries m l es → NoDup es.*1 →
  ∃ g' p pid,
    copy_node_properties junk id (mk_dirty false (mk_obj x 0 INF 0 (Some true) b) l 0%nat) g = (g', Val tt)
    ∧ (∃ m b', vec_get (nodes_ g') id = Some (mk_tobj m (dirty_list_ (added x b l)) 1)
         ∧ m = mk_obj x 0 INF 0 (Some false) b' ∧ b' = set_node_plist pid b)
    ∧ (∃ v, g' = set_nodes v (set_nprops p g) ∧ vec_rd v ∧ (vec_ok (nodes_ g) → vec_ok v)
         ∧ ∀ j, j ≠ id → vec_get v j = vec_get (nodes_ g) j)
    ∧ vec_rd p ∧ all_properties p (dict_ g) pid = build_properties_from_pitems (dict_ g) l.
Proof.
  intros Hrd Ht Hpl Hok Hcap Hd He Hn. unfold copy_node_properties. cbn [properties_ update_mode_].
  case_bool_decide as El.
  - subst l. exists g, (node_properties_ g), UNKNOWN. split; [done|]. split_and!.
    + eexists _, _. split_and!; [exact Ht|done|]. rewrite <-Hpl. by destruct b.
    + exists (nodes_ g). split; [by destruct g|]. done.
    + by apply vec_ok_rd.
    + apply (all_properties_chain junk _ _ UNKNOWN []); [by apply vec_ok_rd|done|constructor].
  - destruct (at_node_step g id _ get_st _ _ Hrd Ht eq_refl) as (g1 & E1 & (v1 & H1 & ->)).
    rewrite (bind_val _ _ _ _ _ E1). cbn [main_ body_ added].
    destruct (add_pitems_spec junk (node_properties_ g) (dict_ g) m l es (node_id_ b) Hok Hcap Hd He Hn)
      as (p & pid & c & E2 & Hok2 & _ & _ & Hall & _).
    assert (on_nprops (add_pitems junk (node_id_ b) l) (set_nodes v1 g)
      = (set_nprops p (set_nodes v1 g), Val pid)) as E2' by (unfold on_nprops; simpl; by rewrite E2).
    rewrite (bind_val _ _ _ _ _ E2').
    pose proof (tab_set_same _ _ _ _ H1) as Hg1.
    destruct (at_node_step (set_nprops p (set_nodes v1 g)) id _ (put Main (set_body (set_node_plist pid))) _ _
      (ts_rd _ _ _ _ H1) Hg1 eq_refl) as (g3 & E3 & (v3 & H3 & ->)).
    pose proof (tab_set_trans _ _ _ _ _ _ H1 H3) as H.
    exists (set_nodes v3 (set_nprops p (set_nodes v1 g))), p, pid. split; [done|]. split_and!.
    + eexists _, _. split_and!; [by apply (tab_set_same _ _ _ _ H)|done|done].
    + exists v3. split; [done|]. split; [by apply H3|]. split; [apply H|].
      intros j Hj. by apply (tab_set_other _ _ _ _ _ H).
    + by apply vec_ok_rd.
    + done.
Qed.

Lemma commit_added_ok g x id b l m es ix :
  vec_rd (nodes_ g) → vec_get (nodes_ g) id = Some (added x b l) → node_plist b = UNKNOWN →
  vec_ok (node_properties_ g) →
  vec_capacity (node_properties_ g) + Z.of_nat (length l) * vec_grow ≤ UNKNOWN →
  d_has (dict_ g) m → entries m l es → NoDup es.*1 →
  added_x (dict_ g) (node_label b) (node_id_ b) l (index_map_ g) = (ix, Val tt) →
  ∃ v p pid, commit_dirty_node junk x id g = (set_index_map ix (set_nodes v (set_nprops p g)), Val tt)
    ∧ vec_rd v ∧ (∀ j, vec_get v j = if decide (j = id) then Some (stored x (set_node_plist pid b))
                                     else vec_get (nodes_ g) j)
    ∧ vec_rd p ∧ all_properties p (dict_ g) pid = build_properties_from_pitems (dict_ g) l.
Proof.
  intros Hrd Ht Hpl Hok Hcap Hd He Hn Hix. unfold commit_dirty_node.
  destruct (at_node_step g id _ get_st _ _ Hrd Ht eq_refl) as (g0 & E0 & (v0 & H0 & ->)).
  rewrite (bind_val _ _ _ _ _ E0), classify_added. set (dn := mk_dirty _ _ _ _).
  destruct (copy_properties_added (set_nodes v0 g) x id b l m es (ts_rd _ _ _ _ H0)
    (tab_set_same _ _ _ _ H0) Hpl Hok Hcap Hd He Hn)
    as (g1 & p & pid & E1 & (m1 & b1 & Ht1 & -> & ->) & (v1 & -> & Hrd1 & _ & Hoth) & Hrdp & Hall).
  rewrite (bind_val _ _ _ _ _ E1). set (g1 := set_nodes v1 _) in *.
  destruct (at_node_step g1 id _ (put Main (set_body (λ b0, copy_node_fields b0 (body_ (elem_ dn))))) _ _
    Hrd1 Ht1 eq_refl) as (g2 & E2 & H2). rewrite (bind_val _ _ _ _ _ E2).
  destruct (node_set_get _ _ _ _ H2) as [Hrd2 Ht2].
  destruct (at_node_step g2 id _ (put Main (set_timestamps x INF)) _ _ Hrd2 Ht2 eq_refl) as (g3 & E3 & H3).
  rewrite (bind_val _ _ _ _ _ E3). pose proof (node_set_trans _ _ _ _ _ _ H2 H3) as H23. clear H2 H3 E2 E3.
  destruct (node_set_get _ _ _ _ H23) as [Hrd3 Ht3]. destruct H23 as (v3 & H23 & ->).
  set (g3 := set_nodes v3 g1) in *. set (g3' := set_index_map ix g3).
  assert (index_added (node_label (body_ (elem_ dn))) (node_id_ (body_ (elem_ dn))) (properties_ dn) g3 = (g3', Val tt)) as Eix.
  { rewrite index_added_on. unfold on_indexes.
    change (index_map_ g3) with (index_map_ g). change (dict_ g3) with (dict_ g). cbn [elem_ body_ properties_ dn].
    by rewrite Hix. }
  rewrite (bind_val _ _ _ _ _ Eix).
  destruct (at_node_step g3' id _ (pop_front;; when false unlock_front) _ _ Hrd3 Ht3 eq_refl) as (g4 & E4 & H4).
  unfold finish_node. rewrite (bind_val _ _ _ _ _ E4).
  destruct (node_set_get _ _ _ _ H4) as [Hrd4 Ht4]. unfold release_node, mbind at 1, M_bind at 1, get_st at 1.
  destruct (at_node_step g4 id _ (put Main unlock;; gc (oldest_xid_ g4)) _ _ Hrd4 Ht4 eq_refl) as (g5 & E5 & H5).
  rewrite E5. pose proof (node_set_trans _ _ _ _ _ _ H4 H5) as (v & H & ->).
  pose proof (tab_set_trans _ _ _ _ _ _ H23 H) as H35.
  exists v, p, pid. split; [done|]. split; [apply H|]. split; [|done].
  intros j. rewrite (ts_get _ _ _ _ H35). destruct (decide (j = id)) as [->|Hj]; [by destruct b|].
  simpl. rewrite Hoth by done. by apply (tab_set_other _ _ _ _ _ H0).
Qed.

(** *** Reading a stored node *)
Lemma fetch_stored y x b : x ≤ y → 0 < y < INF →
  fetch y (stored x b) = (mk_tobj (mk_obj 0 x INF y (Some false) b) None 1, Val Main).
Proof.
  intros Hx Hy. rewrite (fetch_eq _ _ false) by done. unfold set_main, stored, set_rts.
  cbn [main_ rts_ txn_id_ bts_ cts_ d_ body_].
  rewrite bool_decide_eq_true_2 by lia. unfold get_valid_version, is_locked_by, is_locked, is_valid_for.
  cbn [main_ txn_id_ bts_ cts_ d_]. rewrite !(bool_decide_eq_false_2 (0 = y)) by lia.
  rewrite (bool_decide_eq_true_2 (x ≤ y ∧ y < INF)) by lia. by rewrite orb_true_r.
Qed.

(** [node_by_id] *)
Lemma node_by_id_stored g y id x b :
  current_transaction_ g = Some (new_transaction y) → x ≤ y → 0 < y < INF →
  vec_rd (nodes_ g) → vec_get (nodes_ g) id = Some (stored x b) →
  ∃ g', node_by_id id g = (g', Val (id, Main)) ∧ node_set g id (mk_tobj (mk_obj 0 x INF y (Some false) b) None 1) g'.
Proof.
  intros Htx Hx Hy Hrd Ht. unfold node_by_id. rewrite (bind_val _ _ _ _ _ (check_tx_ok _ _ Htx)).
  rewrite (bind_val _ _ _ _ _ (tx_xid_ok _ _ Htx)). cbn [xid_ new_transaction].
  destruct (at_node_step g id _ (fetch y) _ _ Hrd Ht (fetch_stored y x b Hx Hy)) as (g1 & E1 & H1).
  exists g1. by rewrite (bind_val _ _ _ _ _ E1).
Qed.

Lemma describe_fetched g y id t t' pm label m (b := body_ (main_ t')) :
  current_transaction_ g = Some (new_transaction y) →
  vec_rd (nodes_ g) → vec_get (nodes_ g) id = Some t →
  fetch y t = (t', Val Main) → has_dirty_versions t' (main_ t') = false →
  d_has (dict_ g) m → m !! node_label b = Some label →
  all_properties (node_properties_ g) (dict_ g) (node_plist b) = Val pm →
  ∃ g', get_node_description id g = (g', Val (mk_ndescr (node_id_ b) label pm)).
Proof.
  subst b. intros Htx Hrd Ht Hf Hdv Hd Hl Hall. unfold get_node_description, node_by_id.
  rewrite (bind_assoc check_tx_context), (bind_val _ _ _ _ _ (check_tx_ok _ _ Htx)).
  rewrite (bind_assoc tx_xid), (bind_val _ _ _ _ _ (tx_xid_ok _ _ Htx)). cbn [xid_ new_transaction].
  destruct (at_node_step g id _ (fetch y) _ _ Hrd Ht Hf) as (g1 & E1 & H1).
  rewrite bind_assoc, (bind_val _ _ _ _ _ E1), bind_ret.
  destruct (node_set_get _ _ _ _ H1) as [Hrd1 Ht1].
  assert (current_transaction_ g1 = Some (new_transaction y)) as Htx1 by by destruct H1 as (? & _ & ->).
  rewrite (bind_val _ _ _ _ _ (tx_xid_ok _ _ Htx1)).
  destruct (at_node_step g1 id _ (self Main) _ _ Hrd1 Ht1 eq_refl) as (g2 & E2 & H2).
  unfold node_ref. cbn [fst snd]. rewrite (bind_val _ _ _ _ _ E2).
  pose proof (node_set_trans _ _ _ _ _ _ H1 H2) as H12. destruct (node_set_get _ _ _ _ H12) as [Hrd2 Ht2].
  destruct (at_node_step g2 id _ get_st _ _ Hrd2 Ht2 eq_refl) as (g3 & E3 & H3).
  rewrite (bind_val _ _ _ _ _ E3). pose proof (node_set_trans _ _ _ _ _ _ H12 H3) as (v3 & H & ->).
  rewrite Hdv. cbn [negb]. exists (set_nodes v3 g). unfold mbind, M_bind, get_st, lift_res. cbn. rewrite Hall.
  by destruct (d_code_ok _ _ _ _ Hd Hl) as [-> _].
Qed.

Lemma describe_stored g y id x b pm label m :
  current_transaction_ g = Some (new_transaction y) → x ≤ y → 0 < y < INF →
  vec_rd (nodes_ g) → vec_get (nodes_ g) id = Some (stored x b) →
  d_has (dict_ g) m → m !! node_label b = Some label →
  all_properties (node_properties_ g) (dict_ g) (node_plist b) = Val pm →
  ∃ g', get_node_description id g = (g', Val (mk_ndescr (node_id_ b) label pm)).
Proof.
  intros Htx Hx Hy Hrd Ht Hd Hl Hall.
  by eapply (describe_fetched g y id _ _ pm label m Htx Hrd Ht (fetch_stored y x b Hx Hy)).
Qed.

(** ** Properties *)

(** A database at rest: tables and dictionary in order, no transaction in this
    thread and nothing to collect. *)
Record at_rest g (m : gmap Z str) : Prop := {
  ar_current : current_transaction_ g = None;
  ar_garbage : garbage_ g = [];
  ar_nodes : vec_ok (nodes_ g);
  ar_nprops : vec_ok (node_properties_ g);
  ar_dict : d_has (dict_ g) m
}.

(** A transaction that adds one node. *)
Definition add_one (x : Z) (label : str) (props : properties_t) (ap : bool) : M db Z :=
  begin_transaction x;; id ← add_node label props ap; _ ← commit_transaction; mret id.

(** What it leaves when the index operation of commit succeeds with [P]. *)
Record added_one g x label ces (P : X → Z → Prop) (id : Z) g' : Prop := {
  ao_current : current_transaction_ g' = None;
  ao_index : P (index_map_ g') id;
  ao_free : vec_get (nodes_ g) id = None;
  ao_rd : vec_rd (nodes_ g');
  ao_node : ∃ b m c, vec_get (nodes_ g') id = Some (stored x b) ∧ node_id_ b = id ∧ node_label b = c
    ∧ d_has (dict_ g') m ∧ m !! c = Some label
    ∧ all_properties (node_properties_ g') (dict_ g') (node_plist b) = Val (valued ces);
  ao_others j : j ≠ id → vec_get (nodes_ g') j = vec_get (nodes_ g) j
}.

Lemma begin_ok z g : current_transaction_ g = None → begin_transaction z g
  = (set_active (insert_xid z (active_tx_ g)) (set_current (Some (new_transaction z)) g), Val tt).
Proof. intros E. unfold begin_transaction, mbind, M_bind, get_st. by rewrite E. Qed.

Lemma add_one_ok g m label props ces ap x (P : X → Z → Prop) :
  at_rest g m → pm_sorted props → canonical props ces → dict_takes (dict_ g) (label :: props_strings props) →
  vec_capacity (node_properties_ g) + Z.of_nat (length props) * vec_grow ≤ UNKNOWN →
  (∀ d m' c id l, d_has d m' → m' !! c = Some label → entries m' l ces → raws props l →
     ∃ ix, added_x d c id l (index_map_ g) = (ix, Val tt) ∧ P ix id) →
  ∃ id g', add_one x label props ap g = (g', Val id) ∧ added_one g x label ces P id g'.
Proof.
  intros [Hcur Hgar Hnok Hpok Hd] Hs Hc Ht Hcap Hix. unfold add_one.
  rewrite (bind_val _ _ _ _ _ (begin_ok x g Hcur)). set (g1 := set_active _ _).
  destruct (add_node_ok g1 m (new_transaction x) label props ces ap eq_refl Hnok Hd Hc Ht)
    as (id & v2 & d2 & m2 & c & l & E2 & Hok2 & Hid & Hfree & Hget2 & Hd2 & Hm2 & Hlab & Hent & Hraw).
  rewrite (bind_val _ _ _ _ _ E2). set (g2 := set_current _ (set_nodes v2 _)). cbn [xid_ new_transaction] in *.
  destruct (Hix d2 m2 c id l Hd2 Hlab Hent Hraw) as (ix & Eix & HP).
  assert (NoDup ces.*1) as Hnd by (rewrite <-(canonical_fst _ _ _ _ Hc); by apply pm_sorted_NoDup).
  assert (length l = length props) as Hlen
    by (rewrite (Forall2_length _ _ _ Hent); symmetry; by apply (Forall2_length _ _ _ Hc)).
  set (b := mk_node id UNKNOWN UNKNOWN UNKNOWN c) in *.
  set (g3 := set_oldest (match filter (λ z, z ≠ x) (active_tx_ g2) with [] => x | z :: _ => z end)
               (set_active (filter (λ z, z ≠ x) (active_tx_ g2)) g2)).
  destruct (commit_added_ok g3 x id b l m2 ces ix) as (v & p & pid & E3 & Hrdv & Hgetv & Hrdp & Hall).
  { by apply vec_ok_rd. } { change (vec_get v2 id = Some (added x b l)). by rewrite Hget2, decide_True. } { done. } { done. }
  { simpl. by rewrite Hlen. } { done. } { done. } { done. } { done. }
  set (g' := set_current None (set_index_map ix (set_nodes v (set_nprops p g3)))).
  assert (commit_transaction g2 = (g', Val true)) as Ecommit.
  { unfold GraphCommit.commit_transaction.
    rewrite (bind_val _ _ _ _ _ (check_tx_ok g2 (mk_tx x [id] []) eq_refl)).
    rewrite (bind_val _ _ _ _ _ (tx_xid_ok g2 (mk_tx x [id] []) eq_refl)). cbn [xid_].
    unfold mbind at 1, M_bind at 1, get_st at 1. cbv zeta.
    rewrite (bind_val (leave_active x) _ _ g3 tt) by done.
    rewrite (bind_val _ _ _ g3 tt) by done.
    assert (for_each (commit_dirty_node junk x) [id] g3
      = (set_index_map ix (set_nodes v (set_nprops p g3)), Val tt)) as Ef.
    { rewrite for_each_cons, (bind_val _ _ _ _ _ E3). done. }
    rewrite (bind_val _ _ _ _ _ Ef).
    unfold finish_commit. rewrite (bind_val (modify (set_current None)) _ _ g' tt) by done.
    rewrite (bind_val vacuum _ _ g' tt); [done|].
    unfold vacuum, mbind, M_bind, get_st. unfold g'. simpl. by rewrite Hgar. }
  exists id, g'. rewrite (bind_val _ _ _ _ _ Ecommit). split; [done|]. split; [done..| |].
  - exists (set_node_plist pid b), m2, c. split.
    { change (vec_get v id = Some (stored x (set_node_plist pid b))). by rewrite Hgetv, decide_True. }
    split_and!; [done..|]. change (all_properties p d2 pid = Val (valued ces)).
    assert (all_properties p d2 pid = build_properties_from_pitems d2 l) as -> by exact Hall.
    rewrite (build_properties_entries _ _ _ _ Hd2 Hent). by rewrite (pm_of_valued _ _ _ _ Hs Hc).
  - intros j Hj. change (vec_get v j = vec_get (nodes_ g) j). rewrite Hgetv, decide_False by done.
    change (vec_get v2 j = vec_get (nodes_ g) j). rewrite Hget2, decide_False by done. done.
Qed.

(** C3: a node that is added and committed is what later transactions read: the
    commit succeeds, and a transaction that begins afterwards gets the label and
    the properties (in the form items keep), under an id that no node had
    before; all other nodes stay as they are, and the indexes, when there is
    none for the properties. *)
Theorem add_commit_read g m label props ces ap x y :
  at_rest g m → 0 < x → x ≤ y → y < INF →
  pm_sorted props → canonical props ces → dict_takes (dict_ g) (label :: props_strings props) →
  vec_capacity (node_properties_ g) + Z.of_nat (length props) * vec_grow ≤ UNKNOWN →
  (∀ key, key ∈ props.*1 → ix_get_id (index_map_ g) (index_name label key) = None) →
  ∃ id g' g'',
    (begin_transaction x;; id ← add_node label props ap; _ ← commit_transaction; mret id) g = (g', Val id)
    ∧ (begin_transaction y;; get_node_description id) g' = (g'', Val (mk_ndescr id label (valued ces)))
    ∧ vec_get (nodes_ g) id = None
    ∧ (∀ j, j ≠ id → vec_get (nodes_ g') j = vec_get (nodes_ g) j)
    ∧ index_map_ g' = index_map_ g.
Proof.
  intros Hg Hx Hxy Hy Hs Hc Ht Hcap Hix.
  destruct (add_one_ok g m label props ces ap x (λ ix _, ix = index_map_ g) Hg Hs Hc Ht Hcap) as (id & g' & E & H).
  { intros d m' c id l Hd Hl He _. eexists. split; [|done]. eapply added_none; [done..|].
    by rewrite <-(canonical_fst _ _ _ _ Hc). }
  destruct (ao_node _ _ _ _ _ _ _ H) as (b & m2 & c & Hget & Hid & <- & Hd & Hl & Hall). exists id, g'.
  rewrite (bind_val _ _ _ _ _ (begin_ok y g' (ao_current _ _ _ _ _ _ _ H))).
  set (g4 := set_active _ _).
  destruct (describe_stored g4 y id x b (valued ces) label m2) as (g'' & E''); [done|done|lia|apply H|done..|].
  rewrite Hid in E''. exists g''. split; [exact E|]. split; [exact E''|]. split; [apply H|]. split; apply H.
Qed.

(** C4: a committed node is found through the index of the first of its
    properties, in the order of their names, that has an index for its label,
    when the value of this property is not a string: its raw value now leads to
    the node, a later transaction that looks it up gets the node's current
    version, and all other keys of the index lead where they led before.  (A
    node is entered into no other index.) *)
Theorem indexed_node_found g m im label props ces ap x y i pos key v r t :
  at_rest g m → ix_trees (index_map_ g) im → 0 < x → x ≤ y → y < INF →
  pm_sorted props → canonical props ces → dict_takes (dict_ g) (label :: props_strings props) →
  vec_capacity (node_properties_ g) + Z.of_nat (length props) * vec_grow ≤ UNKNOWN →
  first_named (index_map_ g) label 0 props.*1 = (Some i, Z.of_nat pos) →
  props !! pos = Some (key, v) → raw_of v = Some r → im !! i = Some t →
  ∃ id g' g'',
    (begin_transaction x;; id ← add_node label props ap; _ ← commit_transaction; mret id) g = (g', Val id)
    ∧ (∀ k, 0 ≤ k < two64 → index_find (Some i) k g' = (g', Val (if decide (k = r) then Some id else t !! k)))
    ∧ (on_fst (begin_transaction y);; index_lookup (Some i) r (λ n s, ((s.1, s.2 ++ [n]), Val tt))) (g', [])
      = ((g'', [(id, Main)]), Val tt).
Proof.
  intros Hg Him Hx Hxy Hy Hs Hc Ht Hcap Hf Hp Hr Hi.
  assert (0 ≤ r < two64) as Hrange.
  { destruct (Forall2_lookup_l _ _ _ _ _ Hc Hp) as (e & _ & _ & Hw & _). by eapply raw_range. }
  destruct (add_one_ok g m label props ces ap x
    (λ ix id, ix_trees ix (<[i := <[r := id]> t]> im)) Hg Hs Hc Ht Hcap) as (id & g' & E & H).
  { intros d m' c id l Hd Hl He Hraw. destruct (Forall2_lookup_l _ _ _ _ _ Hraw Hp) as (it & Hit & Eit).
    specialize (Eit r Hr). destruct (added_some (index_map_ g) d m' im c label id l ces i (Z.of_nat pos) it t)
      as (ix & Ex & Hx' & _).
    - done. - done. - done. - done. - by rewrite <-(canonical_fst _ _ _ _ Hc).
    - unfold item_at. rewrite Nat2Z.id. by rewrite Hit.
    - by rewrite Eit. - done. - exists ix. by rewrite <-Eit. }
  pose proof (ao_index _ _ _ _ _ _ _ H) as Hix. cbv beta in Hix.
  destruct (ao_node _ _ _ _ _ _ _ H) as (b & m2 & c & Hget & Hid & _).
  assert (∀ g0 k, index_map_ g0 = index_map_ g' → 0 ≤ k < two64 →
    index_find (Some i) k g0 = (g0, Val (if decide (k = r) then Some id else t !! k))) as Hfind.
  { intros g0 k E0 Hk. unfold index_find, on_indexes. rewrite E0.
    rewrite (ix_lookup_ok _ _ i (<[r := id]> t) k Hix) by (rewrite ?lookup_insert_eq; done).
    rewrite <-E0, on_indexes_id. do 2 f_equal. destruct (decide (k = r)) as [->|]; [apply lookup_insert_eq|].
    by rewrite lookup_insert_ne. }
  set (g4 := set_active (insert_xid y (active_tx_ g')) (set_current (Some (new_transaction y)) g')).
  destruct (node_by_id_stored g4 y id x b) as (g5 & E5 & _); [done|done|lia|apply H|done|].
  exists id, g', g5. split; [exact E|]. split; [intros k Hk; by apply Hfind|].
  assert (on_fst (begin_transaction y) (g', [] : list oref) = ((g4, []), Val tt)) as Eb
    by (unfold on_fst; cbn [fst snd]; by rewrite (begin_ok y g' (ao_current _ _ _ _ _ _ _ H))).
  rewrite (bind_val _ _ _ _ _ Eb). unfold index_lookup.
  assert (on_fst (index_find (Some i) r) (g4, [] : list oref) = ((g4, []), Val (Some id))) as El
    by (unfold on_fst; cbn [fst snd]; by rewrite Hfind, decide_True).
  rewrite (bind_val _ _ _ _ _ El).
  assert (on_fst (node_by_id id) (g4, [] : list oref) = ((g5, []), Val (id, Main))) as En
    by (unfold on_fst; cbn [fst snd]; by rewrite E5).
  by rewrite (bind_val _ _ _ _ _ En).
Qed.
End nodes.
