(* ===== verification/GraphRefine.v ===== *)
(** * GraphRefine: operations on a node refine the protocol on its object

    Every operation of [graph_db] on one node is a program over that node's
    object and the rest of the database.  [sim] relates the two; with it the
    theorems of [Protocol], which are about one object, speak about the tables
    of the database: what a read returns, what commit and abort do. *)

From S2P Require Import Prelude VecSpec DictSpec IndexSpec Literals Property PropertyList PropertyMap PropertyTable.
From S2P Require Import Txn Mvto GraphState GraphOps GraphIndex GraphCommit GraphIndexFacts GraphFacts GraphNodes.

Section sim.
Context {V : Type → Type} `{!Vec V} {D : Type} `{!Dictionary D} {X : Type} `{!Indexes X}.
Notation db := (gdb V D X).
Implicit Types (g : db) (t : nobj).

(** [m] does to the node [id] and the rest of the database what [n] does to the
    object and the rest; the other nodes stay as they are. *)
Definition sim {A} (id : Z) (m : M db A) (n : M (nobj * db) A) : Prop :=
  ∀ v g t, vec_rd v → vec_get v id = Some t →
    ∃ v', m (set_nodes v g) = (set_nodes v' (n (t, g)).1.2, (n (t, g)).2) ∧ tab_set v id (n (t, g)).1.1 v'.

Lemma tab_set_refl (v : V nobj) id t : vec_rd v → vec_get v id = Some t → tab_set v id t v.
Proof. intros Hrd Ht. split; try done. intros j. by destruct (decide (j = id)) as [->|]. Qed.

Lemma sim_at {A} id (m : M nobj A) : sim id (at_node id m) (on_fst m).
Proof.
  intros v g t Hrd Ht. unfold on_fst. cbn [fst snd]. destruct (m t) as [t' r] eqn:E.
  destruct (tab_do_step v id t m t' r Hrd Ht E) as (v' & Hv & Hs).
  exists v'. split; [|done]. unfold at_node, on_nodes. simpl. by rewrite Hv.
Qed.

(** What does not look at the nodes. *)
Lemma sim_rest {A} id (m : M db A) :
  (∀ v g, m (set_nodes v g) = (set_nodes v (m g).1, (m g).2)) → sim id m (on_snd m).
Proof.
  intros Hm v g t Hrd Ht. exists v. rewrite Hm. unfold on_snd. cbn [fst snd]. destruct (m g) as [g' r].
  split; [done|by apply tab_set_refl].
Qed.

Lemma sim_bind_val {A B} id (m : M db A) n (k : A → M db B) k' :
  sim id m n → (∀ a s s', n s = (s', Val a) → sim id (k a) (k' a)) → sim id (m ≫= k) (n ≫= k').
Proof.
  intros Hm Hk v g t Hrd Ht. destruct (Hm v g t Hrd Ht) as (v1 & E1 & H1).
  unfold mbind, M_bind. rewrite E1. destruct (n (t, g)) as [[t1 g1] [a|e]] eqn:En; simpl in *.
  - destruct (Hk a _ _ En v1 g1 t1 (ts_rd _ _ _ _ H1) (tab_set_same _ _ _ _ H1)) as (v2 & E2 & H2).
    exists v2. rewrite E2. split; [done|by eapply tab_set_trans].
  - by exists v1.
Qed.
Lemma sim_bind {A B} id (m : M db A) n (k : A → M db B) k' :
  sim id m n → (∀ a, sim id (k a) (k' a)) → sim id (m ≫= k) (n ≫= k').
Proof. intros Hm Hk. apply sim_bind_val; auto. Qed.

Lemma sim_ret {A} id (a : A) : sim id (mret a) (mret a).
Proof. intros v g t Hrd Ht. exists v. split; [done|by apply tab_set_refl]. Qed.
Lemma sim_throw {A} id e : sim id (throw e : M db A) (throw e).
Proof. intros v g t Hrd Ht. exists v. split; [done|by apply tab_set_refl]. Qed.
Lemma sim_lift {A} id (r : res A) : sim id (lift_res r) (lift_res r).
Proof. intros v g t Hrd Ht. exists v. split; [done|by apply tab_set_refl]. Qed.
Lemma sim_when id b (m : M db unit) n : sim id m n → sim id (when b m) (when b n).
Proof. intros Hm. destruct b; [done|apply sim_ret]. Qed.

(** Reading something of the rest. *)
Lemma sim_get {A} id (k : db → M db A) k' :
  (∀ v g, k (set_nodes v g) = k g) → (∀ g, sim id (k g) (k' g)) →
  sim id (get_st ≫= k) (λ s, k' s.2 s).
Proof.
  intros Hc Hk v g t Hrd Ht. destruct (Hk g v g t Hrd Ht) as (v' & E & H).
  exists v'. split; [|done]. unfold mbind, M_bind, get_st. by rewrite Hc, E.
Qed.

Lemma sim_run {A} id (m : M db A) n g t :
  sim id m n → vec_rd (nodes_ g) → vec_get (nodes_ g) id = Some t →
  ∃ v', m g = (set_nodes v' (n (t, g)).1.2, (n (t, g)).2) ∧ tab_set (nodes_ g) id (n (t, g)).1.1 v'.
Proof. intros Hs Hrd Ht. specialize (Hs (nodes_ g) g t Hrd Ht). by destruct g. Qed.
End sim.

#[export] Hint Resolve sim_at sim_ret sim_throw sim_lift sim_when : poseidon.

(** ** Commit *)
Section commit.
Context {V : Type → Type} `{!Vec V} {D : Type} `{!Dictionary D} {X : Type} `{!Indexes X}.
Variable junk : Z.
Notation db := (gdb V D X).
Notation pvec := (V property_set).
Notation commit_dirty_node := (commit_dirty_node (V:=V) (D:=D) (X:=X) junk).
Implicit Types (g : db) (t : nobj) (p : pvec).

(** [commit_dirty_node] over the object and the rest. *)
Definition copy_view (dn : dirty_object node pitems) : M (nobj * db) unit :=
  if bool_decide (properties_ dn = []) then mret tt
  else
    t ← on_fst get_st;
    let b := body_ (main_ t) in
    pid ← on_snd (if update_mode_ dn then
                    walk_nprops (node_plist b);;
                    on_nprops (update_pitems junk (node_id_ b) (node_plist b) (properties_ dn))
                  else on_nprops (add_pitems junk (node_id_ b) (properties_ dn)));
    on_fst (put Main (set_body (set_node_plist pid))).
Definition release_view : M (nobj * db) unit :=
  λ s, on_fst (put Main unlock;; gc (oldest_xid_ s.2)) s.
Definition commit_view (xid id : Z) : M (nobj * db) unit :=
  t ← on_fst get_st;
  match classify t with
  | already_deleted => on_fst (remove_dirty_version Main 0)
  | no_version => throw transaction_abort
  | commit_insert dn =>
    copy_view dn;;
    on_fst (put Main (set_body (λ b, copy_node_fields b (body_ (elem_ dn)))));;
    on_fst (put Main (set_timestamps xid INF));;
    on_snd (index_added (node_label (body_ (elem_ dn))) (node_id_ (body_ (elem_ dn))) (properties_ dn));;
    on_fst (pop_front;; when false unlock_front);; release_view
  | commit_delete dn =>
    let plist := node_plist (body_ (main_ t)) in
    on_snd (walk_nprops plist);;
    on_snd (collect xid id gc_node);;
    on_fst (put Main (set_cts xid));;
    props ← on_snd (stored_node_items plist);
    on_snd (index_removed (node_label (body_ (elem_ dn))) props);;
    on_fst (pop_front;; when true unlock_front);;
    on_snd (on_nprops (remove_properties plist));;
    on_fst (put Main (set_body (set_node_plist UNKNOWN)));;
    release_view
  | commit_update dn =>
    on_fst (put Main (set_body (λ b, copy_node_fields b (body_ (elem_ dn)))));;
    on_fst (put Main (set_timestamps xid INF));;
    copy_view dn;;
    on_snd (index_changed (node_label (body_ (elem_ dn))) (node_id_ (body_ (elem_ dn))) (versions t) (properties_ dn));;
    on_fst (pop_front;; when true unlock_front);; release_view
  end.

Lemma on_nprops_rest {A} (m : M pvec A) v g :
  on_nprops m (set_nodes v g) = (set_nodes v (on_nprops m g).1, (on_nprops m g).2).
Proof. unfold on_nprops. simpl. by destruct (m (node_properties_ g)). Qed.

Lemma rest_bind {A B} (m : M db A) (k : A → M db B) :
  (∀ v g, m (set_nodes v g) = (set_nodes v (m g).1, (m g).2)) →
  (∀ a v g, k a (set_nodes v g) = (set_nodes v (k a g).1, (k a g).2)) →
  ∀ v g, (m ≫= k) (set_nodes v g) = (set_nodes v ((m ≫= k) g).1, ((m ≫= k) g).2).
Proof.
  intros Hm Hk v g. unfold mbind, M_bind. rewrite Hm. destruct (m g) as [g' [a|e]]; simpl; [apply Hk|done].
Qed.

Lemma walk_rest plist v g :
  walk_nprops plist (set_nodes v g) = (set_nodes v (walk_nprops plist g).1, (walk_nprops plist g).2).
Proof.
  unfold walk_nprops, mbind, M_bind, get_st, lift_res. simpl.
  by destruct (foreach_property_set (node_properties_ g) plist).
Qed.
Lemma stored_items_rest plist v g :
  stored_node_items plist (set_nodes v g)
  = (set_nodes v (stored_node_items plist g).1, (stored_node_items plist g).2).
Proof. done. Qed.

Lemma on_indexes_rest {A} (m : M X A) v g :
  on_indexes m (set_nodes v g) = (set_nodes v (on_indexes m g).1, (on_indexes m g).2).
Proof. unfold on_indexes. simpl. by destruct (m (index_map_ g)). Qed.
Lemma index_added_rest label i props v g : index_added label i props (set_nodes v g)
  = (set_nodes v (index_added label i props g).1, (index_added label i props g).2).
Proof. rewrite !index_added_on. apply on_indexes_rest. Qed.
Lemma index_removed_rest label props v g : index_removed label props (set_nodes v g)
  = (set_nodes v (index_removed label props g).1, (index_removed label props g).2).
Proof. rewrite !index_removed_on. apply on_indexes_rest. Qed.
Lemma index_changed_rest label i (vs : list (dirty_object node pitems)) props v g :
  index_changed label i vs props (set_nodes v g)
  = (set_nodes v (index_changed label i vs props g).1, (index_changed label i vs props g).2).
Proof. rewrite !index_changed_on. apply on_indexes_rest. Qed.

Lemma sim_copy id dn : sim id (copy_node_properties junk id dn) (copy_view dn).
Proof.
  unfold copy_node_properties, copy_view. case_bool_decide; [apply sim_ret|].
  apply sim_bind; [apply sim_at|intros t]. apply sim_bind; [|intros pid; apply sim_at].
  apply sim_rest. intros v g. destruct (update_mode_ dn); [|apply on_nprops_rest].
  apply (rest_bind _ (λ _, _)); [apply walk_rest|intros _; apply on_nprops_rest].
Qed.

Lemma sim_release id : sim id (release_node id) release_view.
Proof.
  intros v g t Hrd Ht. unfold release_node, release_view, mbind at 1, M_bind at 1, get_st at 1. cbn [snd].
  destruct (sim_at id (put Main unlock;; gc (oldest_xid_ g)) v g t Hrd Ht) as (v' & E & Hs). by exists v'.
Qed.

Lemma sim_commit xid id : sim id (commit_dirty_node xid id) (commit_view xid id).
Proof.
  unfold GraphCommit.commit_dirty_node, commit_view, finish_node.
  apply sim_bind; [apply sim_at|intros t]. destruct (classify t).
  - apply sim_at.
  - apply sim_throw.
  - repeat (apply sim_bind; [first [apply sim_copy|apply sim_at|apply sim_rest, index_added_rest]|intros _]).
    apply sim_release.
  - repeat (apply sim_bind;
      [first [apply sim_at|apply sim_rest; first [apply walk_rest|apply on_nprops_rest|apply index_removed_rest|done]]|intros ?]).
    apply sim_release.
  - repeat (apply sim_bind; [first [apply sim_copy|apply sim_at|apply sim_rest, index_changed_rest]|intros _]).
    apply sim_release.
Qed.

(** *** The change of the property list commutes with the rest *)
Definition commutes {A} (f : obj node → obj node) (m : M nobj A) : Prop :=
  ∀ t, m (set_main f t) = (set_main f (m t).1, (m t).2).

Lemma commutes_bind {A B} f (m : M nobj A) (k : A → M nobj B) :
  commutes f m → (∀ a, commutes f (k a)) → commutes f (m ≫= k).
Proof.
  intros Hm Hk t. unfold mbind, M_bind. rewrite Hm. destruct (m t) as [t' [a|e]]; simpl; [apply Hk|done].
Qed.
Lemma commutes_put f h : (∀ o, f (h o) = h (f o)) → commutes f (put Main h).
Proof.
  intros Hf [o l n]. unfold put, mbind, M_bind, self, modify, set_main. simpl. by rewrite Hf.
Qed.
Lemma commutes_pop_front f : commutes f pop_front.
Proof. by intros [o l n]. Qed.
Lemma commutes_put_dirty f a h : commutes f (put (Dirty a) h).
Proof.
  intros [o l n]. unfold put, mbind, M_bind, self, modify.
  change (deref (set_main f (mk_tobj o l n)) (Dirty a)) with (deref (mk_tobj o l n) (Dirty a)).
  by destruct (deref (mk_tobj o l n) (Dirty a)).
Qed.
Lemma commutes_unlock_front f : commutes f unlock_front.
Proof.
  intros t. unfold unlock_front, mbind, M_bind, get_st.
  change (versions (set_main f t)) with (versions t).
  destruct (versions t) as [|d l]; [done|apply commutes_put_dirty].
Qed.
Lemma commutes_gc f oldest : (∀ o, d_ (f o) = d_ o) → commutes f (gc oldest).
Proof.
  intros Hf [o l n]. unfold gc, mbind, M_bind, get_st, when, has_dirty_versions, versions. simpl. rewrite Hf.
  destruct (bool_decide (is_Some (d_ o)) && bool_decide (default [] l ≠ [])) eqn:E; simpl; rewrite Hf.
  - case_match; [done|]. by destruct (d_ o).
  - rewrite E. by destruct (d_ o).
Qed.
Hint Resolve commutes_pop_front commutes_unlock_front : poseidon.

Lemma on_fst_bind {A B} (m : M nobj A) (k : A → M nobj B) (s : nobj * db) :
  (on_fst m ≫= λ a, on_fst (k a)) s = on_fst (m ≫= k) s.
Proof. unfold mbind, M_bind, on_fst. by destruct (m s.1) as [t' [a|e]]. Qed.

Lemma view_tail u t g :
  (on_fst (pop_front;; when u unlock_front);; release_view) (t, g)
  = on_fst (pop_front;; when u unlock_front;; put Main unlock;; gc (oldest_xid_ g)) (t, g).
Proof.
  unfold release_view, mbind, M_bind, on_fst. cbn [fst snd].
  destruct (pop_front t) as [t1 [[]|e]]; [|done]. by destruct (when u unlock_front t1) as [t2 [[]|e]].
Qed.

(** *** The property table *)

(** What committing an object does to the property table: the new head of the
    object's chain of records. *)
Definition commit_copy (dn : dirty_object node pitems) (b : node) : M pvec Z :=
  if bool_decide (properties_ dn = []) then mret (node_plist b)
  else if update_mode_ dn then
    p ← get_st; _ ← lift_res (foreach_property_set p (node_plist b));
    update_pitems junk (node_id_ b) (node_plist b) (properties_ dn)
  else add_pitems junk (node_id_ b) (properties_ dn).
Definition commit_props (t : nobj) : M pvec Z :=
  let b := body_ (main_ t) in
  match classify t with
  | commit_insert dn | commit_update dn => commit_copy dn b
  | commit_delete _ =>
    p ← get_st; _ ← lift_res (foreach_property_set p (node_plist b));
    _ ← lift_res (build_dirty_property_list p (node_plist b));
    remove_properties (node_plist b);; mret UNKNOWN
  | _ => mret (node_plist b)
  end.

Lemma set_plist_id (t : nobj) :
  set_main (set_body (set_node_plist (node_plist (body_ (main_ t))))) t = t.
Proof. by destruct t as [[? ? ? ? ? []] ? ?]. Qed.

Lemma copy_view_eq dn t g p' pid :
  commit_copy dn (body_ (main_ t)) (node_properties_ g) = (p', Val pid) →
  copy_view dn (t, g) = ((set_main (set_body (set_node_plist pid)) t, set_nprops p' g), Val tt).
Proof.
  unfold commit_copy, copy_view. case_bool_decide as E.
  - intros [= <- <-]. rewrite set_plist_id. by destruct g.
  - rewrite (bind_val (on_fst get_st) _ (t, g) (t, g) t) by done. intros Hc.
    match goal with |- (on_snd ?m ≫= _) _ = _ => set (mm := m) end.
    assert (mm g = (set_nprops p' g, Val pid)) as Em.
    { subst mm. destruct (update_mode_ dn).
      - unfold walk_nprops, mbind, M_bind, get_st, lift_res in *. cbv beta iota in *.
        destruct (foreach_property_set _ _); [|done]. unfold mret, M_ret, on_nprops. cbv beta iota. by rewrite Hc.
      - unfold on_nprops. by rewrite Hc. }
    assert (on_snd mm (t, g) = ((t, set_nprops p' g), Val pid)) as Es by (unfold on_snd; simpl; by rewrite Em).
    by rewrite (bind_val _ _ _ _ _ Es).
Qed.

(** What it does to the indexes. *)
Definition commit_index (d : D) p (t : nobj) : M X unit :=
  match classify t with
  | commit_insert dn => added_x d (node_label (body_ (elem_ dn))) (node_id_ (body_ (elem_ dn))) (properties_ dn)
  | commit_delete dn =>
    props ← lift_res (build_dirty_property_list p (node_plist (body_ (main_ t))));
    removed_x d (node_label (body_ (elem_ dn))) props
  | commit_update dn =>
    changed_x d (node_label (body_ (elem_ dn))) (node_id_ (body_ (elem_ dn))) (versions t) (properties_ dn)
  | _ => mret tt
  end.

Lemma on_snd_index (m : M db unit) (mx : M X unit) (t : nobj) g ix :
  m g = on_indexes mx g → mx (index_map_ g) = (ix, Val tt) → on_snd m (t, g) = ((t, set_index_map ix g), Val tt).
Proof. intros Hm Hx. unfold on_snd. cbn [fst snd]. rewrite Hm. unfold on_indexes. by rewrite Hx. Qed.

(** What commit adds to the garbage. *)
Definition commit_garbage (xid id : Z) (t : nobj) : list gc_item :=
  match classify t with commit_delete _ => [mk_gc xid id gc_node] | _ => [] end.
Notation fp pid := (set_body (set_node_plist pid)).

Lemma put_main h (t : nobj) : put Main h t = (set_main h t, Val tt).
Proof. done. Qed.

(** The end of each case, with the property list set before or not. *)
Definition tail_op (u : bool) (oldest : Z) : M nobj unit :=
  pop_front;; when u unlock_front;; put Main unlock;; gc oldest.
Lemma tail_commutes pid u oldest : commutes (fp pid) (tail_op u oldest).
Proof.
  apply commutes_bind; [apply commutes_pop_front|intros _].
  apply commutes_bind; [destruct u; [apply commutes_unlock_front|done]|intros _].
  apply commutes_bind; [by apply commutes_put|intros _]. by apply commutes_gc.
Qed.

Lemma view_tail_ok pid u t t' g :
  tail_op u (oldest_xid_ g) t = (t', Val tt) →
  (on_fst (pop_front;; when u unlock_front);; release_view) (set_main (fp pid) t, g)
  = ((set_main (fp pid) t', g), Val tt).
Proof.
  intros Ht. rewrite view_tail. unfold on_fst. cbn [fst snd].
  change (pop_front;; when u unlock_front;; put Main unlock;; gc (oldest_xid_ g)) with (tail_op u (oldest_xid_ g)).
  by rewrite tail_commutes, Ht.
Qed.

Lemma on_fst_put h t g : on_fst (put Main h) (t, g) = ((set_main h t, g), Val tt).
Proof. done. Qed.

Lemma commit_view_insert xid id t t' g p' pid ix dn :
  classify t = commit_insert dn →
  commit_version copy_node_fields xid (oldest_xid_ g) t = (t', Val tt) →
  commit_props t (node_properties_ g) = (p', Val pid) →
  commit_index (dict_ g) (node_properties_ g) t (index_map_ g) = (ix, Val tt) →
  commit_view xid id (t, g) = ((set_main (fp pid) t', set_index_map ix (set_nprops p' g)), Val tt).
Proof.
  intros Ec Hv Hp Hx. unfold commit_version, commit_view, commit_props, commit_index in *.
  rewrite (bind_val get_st _ _ t t) in Hv by done. rewrite (bind_val (on_fst get_st) _ _ (t, g) t) by done.
  rewrite Ec in *. rewrite (bind_val _ _ _ _ _ (put_main _ _)) in Hv.
  rewrite (bind_val _ _ _ _ _ (copy_view_eq _ _ _ _ _ Hp)).
  rewrite (bind_val _ _ _ _ _ (on_fst_put _ _ _)), (bind_val _ _ _ _ _ (on_fst_put _ _ _)).
  rewrite (bind_val _ _ _ _ _ (on_snd_index _ _ _ (set_nprops p' g) ix (index_added_on _ _ _ _) Hx)).
  by rewrite <-(view_tail_ok pid false _ t' (set_index_map ix (set_nprops p' g)) Hv).
Qed.

Lemma commit_view_update xid id t t' g p' pid ix dn :
  classify t = commit_update dn →
  commit_version copy_node_fields xid (oldest_xid_ g) t = (t', Val tt) →
  commit_props t (node_properties_ g) = (p', Val pid) →
  commit_index (dict_ g) (node_properties_ g) t (index_map_ g) = (ix, Val tt) →
  commit_view xid id (t, g) = ((set_main (fp pid) t', set_index_map ix (set_nprops p' g)), Val tt).
Proof.
  intros Ec Hv Hp Hx. unfold commit_version, commit_view, commit_props, commit_index in *.
  rewrite (bind_val get_st _ _ t t) in Hv by done. rewrite (bind_val (on_fst get_st) _ _ (t, g) t) by done.
  rewrite Ec in *. rewrite (bind_val _ _ _ _ _ (put_main _ _)) in Hv.
  rewrite (bind_val _ _ _ _ _ (on_fst_put _ _ _)), (bind_val _ _ _ _ _ (on_fst_put _ _ _)).
  set (t1 := set_main (set_timestamps xid INF) (set_main _ t)).
  rewrite (bind_val _ _ _ _ _ (copy_view_eq dn t1 g p' pid Hp)).
  rewrite (bind_val get_st _ _ t1 t1) in Hv by done. change (versions t1) with (versions t) in Hv.
  case_bool_decide; [|done]. unfold assert_ in Hv. rewrite bind_ret in Hv.
  rewrite (bind_val _ _ _ _ _ (on_snd_index _ _ _ (set_nprops p' g) ix (index_changed_on _ _ _ _ _) Hx)).
  by rewrite <-(view_tail_ok pid true t1 t' (set_index_map ix (set_nprops p' g)) Hv).
Qed.

Lemma tail_split u oldest t t' :
  tail_op u oldest t = (t', Val tt) →
  ∃ t2, (pop_front;; when u unlock_front) t = (t2, Val tt) ∧ (put Main unlock;; gc oldest) t2 = (t', Val tt).
Proof.
  intros (t1 & [] & E1 & (t2 & [] & E2 & E3)%bind_inv)%bind_inv. exists t2. split; [|done].
  by rewrite (bind_val _ _ _ _ _ E1).
Qed.

Lemma commit_view_delete xid id t t' g p' pid ix dn :
  classify t = commit_delete dn →
  commit_version copy_node_fields xid (oldest_xid_ g) t = (t', Val tt) →
  commit_props t (node_properties_ g) = (p', Val pid) →
  commit_index (dict_ g) (node_properties_ g) t (index_map_ g) = (ix, Val tt) →
  commit_view xid id (t, g)
  = ((set_main (fp pid) t',
      set_garbage (garbage_ g ++ [mk_gc xid id gc_node]) (set_index_map ix (set_nprops p' g))), Val tt).
Proof.
  intros Ec Hv Hp Hx. unfold commit_version, commit_view, commit_props, commit_index in *.
  rewrite (bind_val get_st _ _ t t) in Hv by done. rewrite (bind_val (on_fst get_st) _ _ (t, g) t) by done.
  rewrite Ec in *. rewrite (bind_val _ _ _ _ _ (put_main _ _)) in Hv.
  apply (tail_split true) in Hv as (t2 & E2 & E3).
  rewrite (bind_val get_st _ _ (node_properties_ g) (node_properties_ g)) in Hp by done.
  destruct (foreach_property_set _ _) eqn:Ef; [|done].
  destruct (build_dirty_property_list _ _) eqn:Eb; [|done].
  apply bind_inv in Hp as (? & ? & [= <- <-] & Hp). apply bind_inv in Hp as (? & ? & [= <- <-] & Hp).
  apply bind_inv in Hp as (p1 & [] & Er & [= <- <-]).
  assert (on_snd (walk_nprops (node_plist (body_ (main_ t)))) (t, g) = ((t, g), Val tt)) as E0.
  { unfold on_snd, walk_nprops, mbind, M_bind, get_st, lift_res. cbn [fst snd]. by rewrite Ef. }
  rewrite (bind_val _ _ _ _ _ E0). set (g1 := set_garbage (garbage_ g ++ [mk_gc xid id gc_node]) g).
  rewrite (bind_val (on_snd (collect xid id gc_node)) _ _ (t, g1) tt) by done.
  rewrite (bind_val _ _ _ _ _ (on_fst_put _ _ _)).
  erewrite (bind_val (on_snd (stored_node_items _)) _ _ (_, g1)); last first.
  { unfold on_snd, stored_node_items, mbind, M_bind, get_st, lift_res. cbn [fst snd].
    change (node_properties_ g1) with (node_properties_ g). rewrite Eb. reflexivity. }
  apply bind_inv in Hx as (? & ? & [= <- <-] & Hx).
  rewrite (bind_val _ _ _ _ _ (on_snd_index _ _ _ g1 ix (index_removed_on _ _ _) Hx)). set (g2 := set_index_map ix g1).
  assert (on_fst (pop_front;; when true unlock_front) (set_main (set_cts xid) t, g2) = ((t2, g2), Val tt)) as E4
    by (unfold on_fst; cbn [fst snd]; by rewrite E2).
  rewrite (bind_val _ _ _ _ _ E4).
  assert (on_snd (on_nprops (remove_properties (node_plist (body_ (main_ t))))) (t2, g2)
    = ((t2, set_nprops p1 g2), Val tt)) as E5.
  { unfold on_snd, on_nprops. cbn [fst snd]. change (node_properties_ g2) with (node_properties_ g). by rewrite Er. }
  rewrite (bind_val _ _ _ _ _ E5), (bind_val _ _ _ _ _ (on_fst_put _ _ _)).
  unfold release_view, on_fst. cbn [fst snd].
  change (oldest_xid_ (set_nprops p1 g2)) with (oldest_xid_ g).
  assert (commutes (fp UNKNOWN) (put Main unlock;; gc (oldest_xid_ g))) as Hcom
    by (apply commutes_bind; [by apply commutes_put|intros _; by apply commutes_gc]).
  by rewrite Hcom, E3.
Qed.

(** C30: committing a node in the database is committing its object (the
    operation of [Protocol]) and, next to it, one operation on the property
    table, whose result becomes the head of the node's property list, and one on
    the indexes: the whole operation succeeds when they do; deletes are put into
    the garbage; no other node, relationship or dictionary entry changes. *)
Theorem commit_node_refines g id xid t t' p' pid ix :
  vec_rd (nodes_ g) → vec_get (nodes_ g) id = Some t →
  commit_version copy_node_fields xid (oldest_xid_ g) t = (t', Val tt) →
  commit_props t (node_properties_ g) = (p', Val pid) →
  commit_index (dict_ g) (node_properties_ g) t (index_map_ g) = (ix, Val tt) →
  ∃ v', commit_dirty_node xid id g
      = (set_nodes v' (set_garbage (garbage_ g ++ commit_garbage xid id t) (set_index_map ix (set_nprops p' g))), Val tt)
    ∧ tab_set (nodes_ g) id (set_main (fp pid) t') v'.
Proof.
  intros Hrd Ht Hv Hp Hx.
  destruct (sim_run id _ _ g t (sim_commit xid id) Hrd Ht) as (v' & E & Hs). exists v'. rewrite E.
  assert (∀ g, set_garbage (garbage_ g ++ []) g = g) as Hg by (intros []; unfold set_garbage; by rewrite app_nil_r).
  specialize (Hg (set_index_map ix (set_nprops p' g))). cbn [garbage_ set_index_map set_nprops] in Hg.
  unfold commit_garbage. destruct (classify t) eqn:Ec.
  - assert (commit_view xid id (t, g) = ((set_main (fp pid) t', set_index_map ix (set_nprops p' g)), Val tt)) as E1.
    { unfold commit_view, commit_version, commit_props, commit_index in *. rewrite Ec in Hp, Hx.
      injection Hp as <- <-. injection Hx as <-.
      rewrite (bind_val get_st _ _ t t) in Hv by done. rewrite (bind_val (on_fst get_st) _ _ (t, g) t) by done.
      rewrite Ec in *. unfold on_fst. cbn [fst snd]. rewrite Hv.
      assert (main_ t' = main_ t) as <-; [|rewrite set_plist_id; by destruct g].
      revert Hv. unfold remove_dirty_version, mbind, M_bind, self, get_st, when, modify. simpl.
      case_match; intros [= <-]; by destruct t. }
    rewrite E1 in *. by rewrite Hg.
  - exfalso. revert Hv. unfold commit_version. rewrite (bind_val get_st _ _ t t) by done. by rewrite Ec.
  - rewrite (commit_view_insert xid id t t' g p' pid ix d Ec Hv Hp Hx) in *. by rewrite Hg.
  - rewrite (commit_view_delete xid id t t' g p' pid ix d Ec Hv Hp Hx) in *. done.
  - rewrite (commit_view_update xid id t t' g p' pid ix d Ec Hv Hp Hx) in *. by rewrite Hg.
Qed.
End commit.

(** ** Reading *)
Section read.
Context {V : Type → Type} `{!Vec V} {D : Type} `{!Dictionary D} {X : Type} `{!Indexes X}.
Notation db := (gdb V D X).
Implicit Types (g : db) (t : nobj).

(** [get_node_description] over the object and the rest. *)
Definition read_view (id : Z) : M (nobj * db) node_description :=
  n ← (on_snd check_tx_context;; xid ← on_snd tx_xid; r ← on_fst (fetch xid); mret (id, r));
  xid ← on_snd tx_xid;
  o ← on_fst (self n.2);
  t ← on_fst get_st;
  let from_table : M db node_description :=
    g ← get_st;
    props ← lift_res (all_properties (node_properties_ g) (dict_ g) (node_plist (body_ o)));
    label ← lift_res (d_lookup_code (dict_ g) (node_label (body_ o)));
    mret (mk_ndescr (node_id_ (body_ o)) label props) in
  let from_version : M db node_description :=
    dn ← lift_res (find_valid_version t o xid);
    g ← get_st;
    props ← lift_res (build_properties_from_pitems (dict_ g) (properties_ dn));
    label ← lift_res (d_lookup_code (dict_ g) (node_label (body_ (elem_ dn))));
    mret (mk_ndescr (node_id_ (body_ o)) label props) in
  on_snd (if negb (has_dirty_versions t o) then from_table
          else if negb (is_dirty o) && is_valid_for o xid then
            if bool_decide (cts_ o = INF) then from_table else from_version
          else from_version).

Lemma sim_read id : sim id (get_node_description (V:=V) (D:=D) (X:=X) id) (read_view id).
Proof.
  unfold get_node_description, read_view, node_by_id, node_ref.
  assert (∀ v (g : db), check_tx_context (set_nodes v g)
    = (set_nodes v (check_tx_context g).1, (check_tx_context g).2)) as Hc.
  { intros v g. unfold check_tx_context, mbind, M_bind, get_st. simpl. by destruct (current_transaction_ g). }
  assert (∀ v (g : db), tx_xid (set_nodes v g) = (set_nodes v (tx_xid g).1, (tx_xid g).2)) as Hx.
  { intros v g. unfold tx_xid, mbind, M_bind, get_st. simpl. by destruct (current_transaction_ g). }
  apply sim_bind_val.
  { apply sim_bind; [by apply sim_rest|intros _]. apply sim_bind; [by apply sim_rest|intros xid].
    apply sim_bind; [apply sim_at|intros r; apply sim_ret]. }
  intros n s s' Hn. assert (n.1 = id) as ->.
  { apply bind_inv in Hn as (? & _ & _ & Hn). apply bind_inv in Hn as (? & ? & _ & Hn).
    by apply bind_inv in Hn as (? & ? & _ & [= _ <-]). }
  apply sim_bind; [by apply sim_rest|intros xid]. apply sim_bind; [apply sim_at|intros o].
  apply sim_bind; [apply sim_at|intros t]. apply sim_rest. intros v g.
  unfold mbind, M_bind, lift_res, get_st, mret, M_ret.
  repeat (case_match; simplify_eq/=; try done).
Qed.

(** What a client gets for a version of the node. *)
Definition shown g (id : Z) (r : res (node * pitems)) : res node_description :=
  '(b, l) ← r;
  props ← build_properties_from_pitems (dict_ g) l;
  label ← d_lookup_code (dict_ g) (node_label b);
  Val (mk_ndescr id label props).

(** The objects of a node with that id. *)
Definition node_obj (id : Z) t : Prop :=
  d_ (main_ t) = Some false ∧ node_id_ (body_ (main_ t)) = id
  ∧ Forall (λ d, d_ (elem_ d) = Some true ∧ node_id_ (body_ (elem_ d)) = id) (versions t).

(** C31: reading a node in the database is reading its object ([describe] of
    [Protocol]): the outcome, exceptions included, is that of the object with
    label and properties decoded, and only the object's read timestamp changes. *)
Theorem read_node_refines g id tx t (l : pitems) :
  current_transaction_ g = Some tx → vec_rd (nodes_ g) → vec_get (nodes_ g) id = Some t → node_obj id t →
  all_properties (node_properties_ g) (dict_ g) (node_plist (body_ (main_ t)))
    = build_properties_from_pitems (dict_ g) l →
  let '(t', r) := describe (xid_ tx) l t in
  ∃ v', get_node_description id g = (set_nodes v' g, shown g id r) ∧ tab_set (nodes_ g) id t' v'.
Proof.
  intros Htx Hrd Ht (Hd & Hid & Hall) Hl.   destruct (sim_run id _ _ g t (sim_read id) Hrd Ht) as (v' & E & Hs).
  set (x := xid_ tx). set (t0 := set_main (set_rts x) t).
  assert (read_view id (t, g) = ((t0, g), shown g id (describe x l t).2) ∧ (describe x l t).1 = t0) as [Ev E1].
  2:{ rewrite Ev in E, Hs. destruct (describe x l t) as [t' r]. simpl in *. subst t'. by exists v'. }
  assert (versions t0 = versions t) as Hv0 by done.
  assert (node_id_ (body_ (main_ t0)) = id ∧ node_plist (body_ (main_ t0)) = node_plist (body_ (main_ t))
          ∧ d_ (main_ t0) = Some false) as (Hid0 & Hpl0 & Hd0).
  { unfold t0, set_main, set_rts. simpl. by case_bool_decide. }
  assert (fetch x t = (t0, (get_valid_version x t0).2)) as Ef.
  { rewrite (fetch_eq _ _ _ Hd). fold t0. pose proof (get_valid_version_state x t0) as E0.
    destruct (get_valid_version x t0). simpl in *. by subst. }
  assert (on_snd check_tx_context (t, g) = ((t, g), Val tt)) as Ec.
  { unfold on_snd, check_tx_context, mbind, M_bind, get_st. simpl. by rewrite Htx. }
  assert (∀ t : nobj, on_snd tx_xid (t, g) = ((t, g), Val x)) as Ex.
  { intros. unfold on_snd, tx_xid, mbind, M_bind, get_st. simpl. by rewrite Htx. }
  assert (on_fst (fetch x) (t, g) = ((t0, g), (get_valid_version x t0).2)) as Eg
    by (unfold on_fst; cbn [fst snd]; by rewrite Ef).
  unfold read_view, describe. rewrite (bind_assoc (on_snd check_tx_context)), (bind_val _ _ _ _ _ Ec).
  rewrite bind_assoc, (bind_val _ _ _ _ _ (Ex t)), bind_assoc.
  destruct (get_valid_version x t0) as [t1 [r|e]] eqn:Er; simpl in Ef, Eg.
  2:{ by rewrite (bind_exn _ _ _ _ _ Eg), (bind_exn _ _ _ _ _ Ef). }
  rewrite (bind_val _ _ _ _ _ Eg), (bind_val _ _ _ _ _ Ef), bind_ret, (bind_val _ _ _ _ _ (Ex t0)).
  clearbody t0. destruct (deref t0 r) as [o|] eqn:Eo.
  2:{ assert (self r t0 = (t0, Exn undefined_behaviour)) as Es by (unfold self; by rewrite Eo).
      rewrite (bind_exn _ _ _ _ _ Es). split; [|done]. cbn [snd].
      rewrite (bind_exn _ _ (t0, g) (t0, g) undefined_behaviour); [done|].
      transitivity (let '(t', q) := self r t0 in ((t', g), q)); [done|by rewrite Es]. }
  assert (node_id_ (body_ o) = id ∧ ((o = main_ t0 ∧ is_dirty o = false)
    ∨ (is_dirty o = true ∧ has_dirty_versions t0 o = true))) as [Hido Ho].
  { destruct r as [|a]; simpl in Eo.
    - injection Eo as <-. split; [done|left]. split; [done|]. unfold is_dirty. by rewrite Hd0.
    - destruct (at_addr t0 a) as [d|] eqn:Hat; [|done]. injection Eo as <-.
      apply at_addr_In in Hat as [Hin _]. rewrite Hv0 in Hin. rewrite Forall_forall in Hall.
      destruct (Hall d Hin) as [Hdd ?]. split; [done|right]. unfold is_dirty, has_dirty_versions.
      rewrite Hdd, Hv0. split; [done|]. destruct (versions t); [by apply not_elem_of_nil in Hin|done]. }
  assert (self r t0 = (t0, Val o)) as Es' by (unfold self; by rewrite Eo).
  assert (on_fst (self r) (t0, g) = ((t0, g), Val o)) as Es.
  { transitivity (let '(t', q) := self r t0 in ((t', g), q)); [done|by rewrite Es']. }
  cbn [snd]. rewrite (bind_val _ _ _ _ _ Es), (bind_val _ _ _ _ _ Es').
  rewrite (bind_val (on_fst get_st) _ _ (t0, g) t0), (bind_val get_st _ _ t0 t0) by done.
  unfold on_snd, shown, mbind, M_bind, res_bind, lift_res, get_st, mret, M_ret. cbn [fst snd]. rewrite Hido.
  destruct Ho as [[-> Hdo]|[Hdo Hv]]; rewrite Hdo, ?Hv; cbn [negb andb].
  - rewrite Hpl0. destruct (has_dirty_versions t0 (main_ t0)), (is_valid_for (main_ t0) x),
      (bool_decide (cts_ (main_ t0) = INF)); cbv beta iota; rewrite ?Hl;
    repeat (case_match; simplify_eq/=; try done).
  - repeat (case_match; simplify_eq/=; try done).
Qed.
End read.

(** ** Abort *)
Section abort.
Context {V : Type → Type} `{!Vec V} {D : Type} `{!Dictionary D} {X : Type} `{!Indexes X}.
Notation db := (gdb V D X).
Implicit Types (g : db) (t : nobj).

(** Aborting a node in the database is aborting its object; the node leaves
    its table exactly when the transaction's front version is an insert, and no
    other node changes. *)
Theorem abort_node_refines g id xid t t' b :
  vec_rd (nodes_ g) → vec_get (nodes_ g) id = Some t → abort_version xid t = (t', Val b) →
  ∃ v', abort_node xid id g = (set_nodes v' g, Val tt) ∧ vec_rd v'
    ∧ ∀ j, vec_get v' j = if decide (j = id) then (if b : bool then Some t' else None) else vec_get (nodes_ g) j.
Proof.
  intros Hrd Ht Ha. unfold abort_node.
  destruct (at_node_step g id t _ _ _ Hrd Ht Ha) as (g1 & E & (v1 & H1 & ->)).
  rewrite (bind_val _ _ _ _ _ E). destruct b; simpl.
  - exists v1. split; [done|]. split; [apply H1|apply H1].
  - destruct (tab_remove_step v1 id t' (ts_rd _ _ _ _ H1) (tab_set_same _ _ _ _ H1)) as (v2 & E2 & Hrd2 & Hg2).
    exists v2. unfold on_nodes. simpl. rewrite E2. split; [done|]. split; [done|].
    intros j. rewrite Hg2, (ts_get _ _ _ _ H1). by destruct (decide (j = id)).
Qed.

(** A node that was added and deleted by the same transaction, and the abort. *)
Definition added_deleted (x : Z) (b : node) (l p q : pitems) : nobj :=
  (delete_op false x p q (added x b l)).1.
Definition del_version x (b : node) (q : pitems) := mk_dirty true (mk_obj x x x 0 (Some true) b) q 2%nat.
Definition old_version x (b : node) (p : pitems) := mk_dirty true (mk_obj 0 0 x 0 (Some true) b) p 1%nat.
Definition left_behind (x : Z) (b : node) (p q : pitems) : nobj :=
  mk_tobj (mk_obj 0 0 INF x (Some false) b) (Some [del_version x b q; old_version x b p]) 3.

Lemma added_deleted_eq x b l p q : 0 < x < INF →
  delete_op false x p q (added x b l)
  = (mk_tobj (mk_obj x 0 INF x (Some false) b)
      (Some [del_version x b q; old_version x b p;
             mk_dirty false (mk_obj x 0 INF 0 (Some true) b) l 0%nat]) 3, Val 2%nat).
Proof.
  intros Hx. unfold delete_op.
  set (t0 := set_main (set_rts x) (added x b l)).
  assert (t0 = mk_tobj (mk_obj x 0 INF x (Some false) b)
      (Some [mk_dirty false (mk_obj x 0 INF 0 (Some true) b) l 0%nat]) 1) as Et0.
  { unfold t0, added, set_main, set_rts. simpl. by rewrite bool_decide_eq_true_2 by lia. }
  assert (fetch x (added x b l) = (t0, Val (Dirty 0))) as Ef.
  { rewrite (fetch_eq _ _ false) by done. fold t0. rewrite Et0.
    unfold get_valid_version, is_locked_by. simpl. rewrite bool_decide_eq_true_2 by done. simpl.
    unfold find_valid_version, is_locked_by, is_valid_for. simpl. unfold is_locked_by, is_valid_for. simpl.
    rewrite (bool_decide_eq_true_2 (x = x)) by done. rewrite orb_true_r.
    by rewrite (bool_decide_eq_true_2 (0 ≤ x ∧ x < INF)) by lia. }
  rewrite (bind_val _ _ _ _ _ Ef). rewrite Et0. clear Ef Et0 t0.
  set (t0 := mk_tobj _ _ _).
  assert (acquire (Dirty 0) x t0 = (t0, Val tt)) as Ea.
  { unfold acquire, mbind, M_bind, self. simpl. rewrite bool_decide_eq_false_2 by lia.
    unfold is_locked_by. simpl. by rewrite bool_decide_eq_true_2. }
  rewrite (bind_val _ _ _ _ _ Ea).
  assert (addrs_ok t0) as Hok by (split; [apply NoDup_singleton|by repeat constructor]).
  by rewrite (delete_versions_eq t0 (Dirty 0) _ x p q Hok eq_refl (mk_is_Some _ _ eq_refl)).
Qed.

Lemma abort_added_deleted x b l p q : 0 < x < INF →
  abort_version x (added_deleted x b l p q) = (left_behind x b p q, Val true).
Proof.
  intros Hx. unfold added_deleted. rewrite added_deleted_eq by done.
  set (i := mk_dirty false (mk_obj x 0 INF 0 (Some true) b) l 0%nat).
  assert (filter (λ d, ¬ (txn_id_ (elem_ d) = x ∧ cts_ (elem_ d) = INF)) [del_version x b q; old_version x b p; i]
    = [del_version x b q; old_version x b p]) as E.
  { rewrite filter_cons_True, filter_cons_True, filter_cons_False; simpl; [done|tauto|lia|lia]. }
  set (t1 := mk_tobj _ _ _).
  unfold abort_version. rewrite (bind_val get_st _ _ t1 t1) by done.
  assert (updated_in_version t1 (main_ t1) x = Val true) as Eu
    by (unfold updated_in_version, own_version; simpl; by rewrite decide_True).
  change ((lift_res (updated_in_version t1 (main_ t1) x) : M (tobj node pitems) bool) t1)
    with (t1, updated_in_version t1 (main_ t1) x).
  rewrite (bind_val (lift_res (updated_in_version t1 (main_ t1) x)) _ t1 t1 true) by (unfold lift_res; by rewrite Eu).
  rewrite (bind_val (remove_dirty_version Main x) _ t1
    (mk_tobj (main_ t1) (Some [del_version x b q; old_version x b p]) 3) tt); [done|].
  change (remove_dirty_version Main x t1) with (set_list (filter (λ d, ¬ (txn_id_ (elem_ d) = x ∧ cts_ (elem_ d) = INF))) t1, Val tt : res unit).
  unfold set_list, t1. cbn [main_ dirty_list_ next_addr_ fmap option_fmap option_map]. by rewrite E.
Qed.

Lemma describe_left_behind x b p q y pt : 0 < x → 0 < y < INF →
  (describe y pt (left_behind x b p q)).2 = Val (b, pt).
Proof.
  intros Hx Hy. unfold describe, left_behind. unfold mbind at 1, M_bind at 1. rewrite (fetch_eq _ _ false) by done.
  set (o := mk_obj 0 0 INF (Z.max x y) (Some false) b).
  assert (set_main (set_rts y) (left_behind x b p q) = mk_tobj o (Some [del_version x b q; old_version x b p]) 3) as E.
  { unfold left_behind, set_main, set_rts. simpl. case_bool_decide; repeat f_equal; lia. }
  unfold left_behind in E. rewrite E.
  unfold get_valid_version, is_locked_by, is_locked, is_valid_for. simpl.
  rewrite bool_decide_eq_false_2 by lia. rewrite (bool_decide_eq_true_2 (0 ≤ y ∧ y < INF)) by lia. simpl.
  unfold mbind, M_bind, self, get_st, lift_res, is_valid_for. simpl.
  by rewrite (bool_decide_eq_true_2 (0 ≤ y ∧ y < INF)) by lia.
Qed.

(** A node that a transaction adds and deletes before it aborts stays in the
    database: abort takes the deleting version for an update of an older node,
    keeps the node and unlocks it, and every other transaction then reads the
    node with its fields. *)
Theorem abort_keeps_added_deleted g id x b l p q :
  0 < x < INF → vec_rd (nodes_ g) → vec_get (nodes_ g) id = Some (added x b l) →
  ∃ v1 v2 t, at_node id (delete_op false x p q) g = (set_nodes v1 g, Val 2%nat)
    ∧ abort_node x id (set_nodes v1 g) = (set_nodes v2 g, Val tt)
    ∧ vec_get v2 id = Some t ∧ main_ t = mk_obj 0 0 INF x (Some false) b
    ∧ ∀ y pt, 0 < y < INF → (describe y pt t).2 = Val (b, pt).
Proof.
  intros Hx Hrd Ht. pose proof (added_deleted_eq x b l p q Hx) as Ed.
  destruct (at_node_step g id _ _ _ _ Hrd Ht Ed) as (g1 & E1 & (v1 & H1 & ->)).
  assert (abort_version x (delete_op false x p q (added x b l)).1 = (left_behind x b p q, Val true)) as Ea
    by by apply abort_added_deleted.
  rewrite Ed in Ea. simpl in Ea.
  destruct (at_node_step (set_nodes v1 g) id _ _ _ _ (ts_rd _ _ _ _ H1) (tab_set_same _ _ _ _ H1) Ea)
    as (g2 & E2 & (v2 & H2 & ->)).
  exists v1, v2, (left_behind x b p q). split; [done|]. split.
  { unfold abort_node. by rewrite (bind_val _ _ _ _ _ E2). }
  split; [by apply (tab_set_same _ _ _ _ H2)|]. split; [done|]. intros y pt Hy. apply describe_left_behind; [lia|done].
Qed.
End abort.
