(* ===== verification/GraphLists.v ===== *)
(** * GraphLists: the lists of relationships

    Every node has two lists of relationships, linked through the records of the
    relationships (src/storage/graph_db.cpp, graph_db_gc.cpp).  A new
    relationship becomes the head of a list; garbage collection takes a
    relationship out of its two lists. *)

From S2P Require Import Prelude VecSpec Txn Mvto DictSpec IndexSpec Literals Property PropertyList PropertyMap PropertyTable GraphState GraphOps GraphCommit GraphFacts GraphNodes.

Section lists.
Context {V : Type → Type} `{!Vec V} {D : Type} `{!Dictionary D} {X : Type} `{!Indexes X}.
Notation db := (gdb V D X).
Implicit Types (g : db) (v : V robj).

(** One kind of list: the head in a node, the link in a relationship. *)
Record list_kind : Type := mk_kind {
  head_of : node → Z;
  set_head : Z → node → node;
  next_of : relationship → Z;
  set_next : Z → relationship → relationship;
  owner_of : relationship → Z;
  head_set x n : head_of (set_head x n) = x;
  next_set x r : next_of (set_next x r) = x;
  owner_set x r : owner_of (set_next x r) = owner_of r
}.
Definition from_list : list_kind.
Proof. by refine (mk_kind from_rship_list set_from_list next_src_rship set_next_src src_node _ _ _). Defined.
Definition to_list : list_kind.
Proof. by refine (mk_kind to_rship_list set_to_list next_dest_rship set_next_dest dest_node _ _ _). Defined.

(** The list that starts at an id. *)
Fixpoint rlist (k : list_kind) v (id : Z) (l : list Z) : Prop :=
  match l with
  | [] => id = UNKNOWN
  | i :: l' => id = i ∧ i ≠ UNKNOWN ∧ ∃ t, vec_get v i = Some t ∧ rlist k v (next_of k (body_ (main_ t))) l'
  end.

Lemma rlist_det k v id l1 l2 : rlist k v id l1 → rlist k v id l2 → l1 = l2.
Proof.
  revert id l2. induction l1 as [|i l1 IH]; intros id [|j l2]; simpl; [done|naive_solver..|].
  intros (-> & _ & t & Ht & H1) (-> & _ & t' & Ht' & H2). f_equal. simplify_eq. by eapply IH.
Qed.

Lemma rlist_suffix k v id l i : rlist k v id l → i ∈ l → ∃ l', rlist k v i (i :: l') ∧ (length l' < length l)%nat.
Proof.
  revert id. induction l as [|j l IH]; intros id; [by intros _ ?%elem_of_nil|].
  intros H [->|Hi]%elem_of_cons.
  - exists l. destruct H as (-> & ?). split; [done|simpl; lia].
  - destruct H as (-> & _ & t & _ & H). destruct (IH _ H Hi) as (l' & H' & Hl). exists l'. split; [done|simpl; lia].
Qed.

Lemma rlist_NoDup k v id l : rlist k v id l → NoDup l.
Proof.
  revert id. induction l as [|i l IH]; intros id H; [constructor|].
  pose proof H as (-> & Hu & t & Ht & H'). constructor; [|by eapply IH].
  intros Hin. destruct (rlist_suffix _ _ _ _ _ H' Hin) as (l' & Hl' & Hlen).
  pose proof (rlist_det _ _ _ _ _ H Hl') as E. injection E as ->. lia.
Qed.

Lemma rlist_get k v id l i : rlist k v id l → i ∈ l → is_Some (vec_get v i) ∧ i ≠ UNKNOWN.
Proof.
  revert id. induction l as [|j l IH]; intros id H; [by intros ?%elem_of_nil|].
  destruct H as (-> & Hu & t & Ht & H). intros [->|Hi]%elem_of_cons; [by eauto|by eapply IH].
Qed.

(** The fuel of the loops is enough for every list. *)
Lemma rlist_length k v id l : vec_rd v → rlist k v id l → (length l ≤ Z.to_nat (vec_capacity v))%nat.
Proof.
  intros Hrd H. apply bounded_NoDup; [by eapply rlist_NoDup|].
  intros i Hi. destruct (rlist_get _ _ _ _ _ H Hi) as [[t Ht] _]. by eapply vec_get_bounds.
Qed.

(** Lists depend on the links of their members only. *)
Lemma rlist_frame k v v' id l :
  rlist k v id l →
  (∀ i t, i ∈ l → vec_get v i = Some t →
     ∃ t', vec_get v' i = Some t' ∧ next_of k (body_ (main_ t')) = next_of k (body_ (main_ t))) →
  rlist k v' id l.
Proof.
  revert id. induction l as [|i l IH]; intros id H Hf; [done|].
  destruct H as (-> & Hu & t & Ht & H). destruct (Hf i t) as (t' & Ht' & E); [by left|done|].
  split; [done|]. split; [done|]. exists t'. split; [done|]. rewrite E. apply IH; [done|].
  intros j u Hj. apply Hf. by right.
Qed.

(** Taking a member out of a list. *)
Definition without (oid : Z) (l : list Z) : list Z := filter (λ i, i ≠ oid) l.

Lemma without_notin oid l : oid ∉ l → without oid l = l.
Proof.
  intros Hn. induction l as [|i l IH]; [done|]. unfold without. rewrite filter_cons_True.
  - f_equal. apply IH. set_solver.
  - intros ->. apply Hn. by left.
Qed.


(** What one search changes: nothing, or the link of one member. *)
Definition relinked (k : list_kind) (succ oid : Z) (l : list Z) v v' : Prop :=
  ∀ j, vec_get v' j = vec_get v j
    ∨ (j ∈ l ∧ j ≠ oid ∧ ∃ t, vec_get v j = Some t ∧ vec_get v' j = Some (set_main (set_body (set_next k succ)) t)).

Lemma relinked_id k succ oid l v v' j : relinked k succ oid l v v' → j ∉ l → vec_get v' j = vec_get v j.
Proof. intros H Hj. by destruct (H j) as [|[? _]]. Qed.

Lemma tab_set_id v id t v' : tab_set v id t v' → vec_get v id = Some t → ∀ j, vec_get v' j = vec_get v j.
Proof. intros H Ht j. rewrite (ts_get _ _ _ _ H). by destruct (decide (j = id)) as [->|]. Qed.

Lemma rlist_same k v v' id l : rlist k v id l → (∀ j, vec_get v' j = vec_get v j) → rlist k v' id l.
Proof. intros H Hv. eapply rlist_frame; [done|]. intros i t _ Ht. exists t. by rewrite Hv. Qed.

Lemma unlink_after_ok k oid succ l : ∀ fuel g id,
  vec_rd (rships_ g) → rlist k (rships_ g) id l → id ≠ oid → oid ≠ UNKNOWN → (length l < fuel)%nat →
  (∀ r, vec_get (rships_ g) oid = Some r → next_of k (body_ (main_ r)) = succ) →
  ∃ v', unlink_after (next_of k) (set_next k) fuel id oid succ g = (set_rships v' g, Val tt)
    ∧ vec_rd v' ∧ rlist k v' id (without oid l) ∧ relinked k succ oid l (rships_ g) v'.
Proof.
  induction l as [|i l IH]; intros [|fuel] g id Hrd Hl Hne Hou Hf Hsucc; simpl in Hf; try lia.
  - simpl in Hl. subst id. exists (rships_ g). cbn [unlink_after]. rewrite bool_decide_eq_true_2 by done.
    split; [by destruct g|]. split; [done|]. split; [done|]. by left.
  - pose proof (rlist_NoDup _ _ _ _ Hl) as [Hi Hnd]%NoDup_cons. destruct Hl as (-> & Hu & t & Ht & Hl).
    cbn [unlink_after]. rewrite bool_decide_eq_false_2 by done.
    destruct (at_rship_step g i t get_st t (Val t) Hrd Ht eq_refl) as (g1 & E1 & (v1 & H1 & ->)).
    unfold list_rship. rewrite (bind_val _ _ _ _ _ E1). pose proof (tab_set_id _ _ _ _ H1 Ht) as Hsame.
    assert (without oid (i :: l) = i :: without oid l) as ->
      by (unfold without; by rewrite filter_cons_True).
    case_bool_decide as En.
    + destruct l as [|j l]; simpl in Hl; [congruence|]. destruct Hl as (Hj & _ & r & Hr & Hl).
      assert (j = oid) as -> by congruence.
      destruct (at_rship_step (set_rships v1 g) i t (put Main (set_body (set_next k succ)))
        (set_main (set_body (set_next k succ)) t) (Val tt) (ts_rd _ _ _ _ H1) (tab_set_same _ _ _ _ H1) eq_refl) as (g2 & E2 & (v2 & H2 & ->)).
      pose proof (tab_set_trans _ _ _ _ _ _ H1 H2) as H.
      exists v2. split; [done|]. split; [apply H|]. apply NoDup_cons in Hnd as [Ho _]. apply not_elem_of_cons in Hi as [Hio Hi].
      assert (without oid (oid :: l) = l) as -> by (unfold without; rewrite filter_cons_False by tauto; by apply without_notin).
      split.
      * split; [done|]. split; [done|]. eexists. split; [by eapply tab_set_same|].
        change (body_ (main_ (set_main (set_body (set_next k succ)) t))) with (set_next k succ (body_ (main_ t))).
        rewrite next_set. rewrite (Hsucc r Hr) in Hl. eapply rlist_frame; [exact Hl|].
        intros i' t' Hi' Ht'. exists t'. split; [|reflexivity]. rewrite (tab_set_other _ _ _ _ i' H); [exact Ht'|]. intros ->. done.
      * intros j. pose proof (ts_get _ _ _ _ H j) as Hg. destruct (decide (j = i)) as [->|]; [right|by left].
        split; [by left|]. split; [done|]. by exists t.
    + destruct (IH fuel (set_rships v1 g) (next_of k (body_ (main_ t)))) as (v' & E & Hrd' & Hl' & Hre).
      * apply H1.
      * by eapply rlist_same.
      * done.
      * done.
      * lia.
      * intros r. simpl. rewrite Hsame. apply Hsucc.
      * simpl in Hre. exists v'. split; [by rewrite E|]. split; [done|]. split.
        -- split; [done|]. split; [done|]. exists t. split; [|done].
           etrans; [by apply (relinked_id _ _ _ _ _ _ _ Hre Hi)|by rewrite Hsame].
        -- intros j. destruct (Hre j) as [Hj|(Hj & Ho & t' & H2 & H3)]; rewrite Hsame in *; [by left|right].
           split; [by right|]. split; [done|by eauto].
Qed.

(** The two kinds do not touch each other. *)
Record indep (k k2 : list_kind) : Prop := {
  indep_next x r : next_of k2 (set_next k x r) = next_of k2 r;
  indep_owner x r : owner_of k2 (set_next k x r) = owner_of k2 r;
  indep_head x n : head_of k2 (set_head k x n) = head_of k2 n
}.
Lemma indep_from_to : indep from_list to_list.
Proof. by split. Qed.
Lemma indep_to_from : indep to_list from_list.
Proof. by split. Qed.

(** The list of a node: its members are relationships of that node. *)
Record list_for (k : list_kind) g (nid : Z) (h : Z) (l : list Z) : Prop := {
  lf_list : rlist k (rships_ g) h l;
  lf_owner i : i ∈ l → ∃ t, vec_get (rships_ g) i = Some t ∧ owner_of k (body_ (main_ t)) = nid
}.
(** Every node has its list, and no list has a member of [dead]. *)
Definition lists_ok (k : list_kind) (dead : list Z) g : Prop :=
  ∀ nid n, vec_get (nodes_ g) nid = Some n →
    ∃ l, list_for k g nid (head_of k (body_ (main_ n))) l ∧ ∀ i, i ∈ l → i ∉ dead.

(** Two databases with the same lists of a kind. *)
Definition same_links (k : list_kind) g g' : Prop :=
  (∀ j n', vec_get (nodes_ g') j = Some n' →
     ∃ n, vec_get (nodes_ g) j = Some n ∧ head_of k (body_ (main_ n')) = head_of k (body_ (main_ n)))
  ∧ ∀ j t, vec_get (rships_ g) j = Some t →
      ∃ t', vec_get (rships_ g') j = Some t' ∧ next_of k (body_ (main_ t')) = next_of k (body_ (main_ t))
            ∧ owner_of k (body_ (main_ t')) = owner_of k (body_ (main_ t)).

Lemma lists_ok_same k dead g g' : same_links k g g' → lists_ok k dead g → lists_ok k dead g'.
Proof.
  intros [Hn Hr] H nid n' Hn'. destruct (Hn _ _ Hn') as (n & Hg & Hh).
  destruct (H nid n Hg) as (l & [Hl Ho] & Hd). exists l. split; [|done]. rewrite Hh. split.
  - eapply rlist_frame; [done|]. intros i t _ Ht. destruct (Hr i t Ht) as (t' & ? & ? & _). eauto.
  - intros i Hi. destruct (Ho i Hi) as (t & Ht & Hw). destruct (Hr i t Ht) as (t' & ? & _ & ?).
    exists t'. split; [done|congruence].
Qed.

Lemma without_elem i oid l : i ∈ without oid l ↔ i ∈ l ∧ i ≠ oid.
Proof. unfold without. rewrite list_elem_of_filter. tauto. Qed.

Lemma unlink_shape k nid oid n r l g :
  vec_rd (nodes_ g) → vec_rd (rships_ g) → vec_get (nodes_ g) nid = Some n →
  vec_get (rships_ g) oid = Some r → oid ≠ UNKNOWN → rlist k (rships_ g) (head_of k (body_ (main_ n))) l →
  ∃ vn vr n', unlink (head_of k) (set_head k) (next_of k) (set_next k) nid oid (next_of k (body_ (main_ r))) g
      = (set_rships vr (set_nodes vn g), Val tt)
    ∧ tab_set (nodes_ g) nid n' vn ∧ vec_rd vr ∧ rlist k vr (head_of k (body_ (main_ n'))) (without oid l)
    ∧ relinked k (next_of k (body_ (main_ r))) oid l (rships_ g) vr
    ∧ ∀ k2, indep k k2 → head_of k2 (body_ (main_ n')) = head_of k2 (body_ (main_ n)).
Proof.
  intros Hrdn Hrdr Hn Hr Hu Hl. unfold unlink. set (succ := next_of k (body_ (main_ r))).
  destruct (at_node_step g nid n get_st n (Val n) Hrdn Hn eq_refl) as (g1 & E1 & (v1 & H1 & ->)).
  rewrite (bind_val _ _ _ _ _ E1). case_bool_decide as Eh.
  - destruct (at_node_step (set_nodes v1 g) nid n (put Main (set_body (set_head k succ)))
      (set_main (set_body (set_head k succ)) n) (Val tt) (ts_rd _ _ _ _ H1) (tab_set_same _ _ _ _ H1) eq_refl)
      as (g2 & E2 & (v2 & H2 & ->)).
    exists v2, (rships_ g), (set_main (set_body (set_head k succ)) n). rewrite E2. split; [by destruct g|].
    split; [by eapply tab_set_trans|]. split; [done|].
    change (body_ (main_ (set_main (set_body (set_head k succ)) n))) with (set_head k succ (body_ (main_ n))).
    rewrite head_set. pose proof (rlist_NoDup _ _ _ _ Hl) as Hnd. destruct l as [|i l]; [simpl in Hl; congruence|].
    destruct Hl as (<- & _ & t & Ht & Hl). rewrite Eh in *. apply NoDup_cons in Hnd as [Ho _].
    assert (without oid (oid :: l) = l) as ->
      by (unfold without; rewrite filter_cons_False by tauto; by apply without_notin).
    assert (t = r) as -> by congruence. split; [done|]. split; [by left|]. intros k2 Hk. by apply (indep_head _ _ Hk).
  - unfold list_fuel. rewrite (bind_val _ _ (set_nodes v1 g) (set_nodes v1 g)
      (S (Z.to_nat (vec_capacity (rships_ g))))) by done.
    destruct (unlink_after_ok k oid succ l (S (Z.to_nat (vec_capacity (rships_ g)))) (set_nodes v1 g)
      (head_of k (body_ (main_ n)))) as (vr & E & Hrdv & Hl' & Hre).
    + done.
    + done.
    + done.
    + done.
    + pose proof (rlist_length _ _ _ _ Hrdr Hl). lia.
    + intros r' Hr'. simpl in Hr'. by assert (r' = r) as -> by congruence.
    + exists v1, vr, n. rewrite E. split_and!; try done.
Qed.

Lemma relinked_same k k2 succ oid l v v' : indep k k2 → relinked k succ oid l v v' →
  ∀ j t, vec_get v j = Some t → ∃ t', vec_get v' j = Some t'
    ∧ next_of k2 (body_ (main_ t')) = next_of k2 (body_ (main_ t))
    ∧ owner_of k2 (body_ (main_ t')) = owner_of k2 (body_ (main_ t)).
Proof.
  intros Hi Hre j t Ht. destruct (Hre j) as [Hj|(_ & _ & t' & Ht' & Hj)].
  - exists t. split; [etrans; [exact Hj|exact Ht]|done].
  - exists (set_main (set_body (set_next k succ)) t'). split; [done|]. assert (t' = t) as -> by congruence.
    split; [apply (indep_next _ _ Hi)|apply (indep_owner _ _ Hi)].
Qed.

(** *** Taking a relationship out of one list *)
Lemma unlink_ok k nid oid n r dead g :
  vec_rd (nodes_ g) → vec_rd (rships_ g) → vec_get (nodes_ g) nid = Some n →
  vec_get (rships_ g) oid = Some r → oid ≠ UNKNOWN → owner_of k (body_ (main_ r)) = nid → lists_ok k dead g →
  ∃ vn vr, unlink (head_of k) (set_head k) (next_of k) (set_next k) nid oid (next_of k (body_ (main_ r))) g
      = (set_rships vr (set_nodes vn g), Val tt)
    ∧ vec_rd vn ∧ vec_rd vr ∧ vec_get vr oid = Some r
    ∧ lists_ok k (oid :: dead) (set_rships vr (set_nodes vn g))
    ∧ (∀ k2, indep k k2 → same_links k2 g (set_rships vr (set_nodes vn g)))
    ∧ (∀ j, is_Some (vec_get vn j) ↔ is_Some (vec_get (nodes_ g) j)).
Proof.
  intros Hrdn Hrdr Hn Hr Hu Hown Hok.
  destruct (Hok nid n Hn) as (l & [Hl Ho] & Hd).
  destruct (unlink_shape k nid oid n r l g Hrdn Hrdr Hn Hr Hu Hl) as (vn & vr & n' & E & Hs & Hrdv & Hl' & Hre & Hk2).
  assert (vec_get vr oid = Some r) as Hr' by (destruct (Hre oid) as [E0|(_ & ? & _)]; [etrans; [exact E0|exact Hr]|done]).
  assert (∀ j t, vec_get (rships_ g) j = Some t → ∃ t', vec_get vr j = Some t'
    ∧ owner_of k (body_ (main_ t')) = owner_of k (body_ (main_ t))) as Hw.
  { intros j t Ht. destruct (Hre j) as [Hj|(_ & _ & t' & Ht' & Hj)]; [exists t; split; [etrans; [exact Hj|exact Ht]|done]|].
    assert (t' = t) as -> by congruence. eexists. split; [done|]. apply owner_set. }
  exists vn, vr. split; [done|]. split; [apply Hs|]. split; [done|]. split; [done|]. split_and!.
  - intros j m Hj. simpl in Hj. rewrite (ts_get _ _ _ _ Hs) in Hj. destruct (decide (j = nid)) as [->|Hne].
    + injection Hj as <-. exists (without oid l). split; [split; [done|]|].
      * intros i [Hi _]%without_elem. destruct (Ho i Hi) as (t & Ht & <-). destruct (Hw i t Ht) as (t' & ? & ?). by exists t'.
      * intros i [Hi Hne]%without_elem. rewrite not_elem_of_cons. split; [done|by apply Hd].
    + destruct (Hok j m Hj) as (l2 & [Hl2 Ho2] & Hd2). exists l2.
      assert (∀ i, i ∈ l2 → i ∉ l ∧ i ≠ oid) as Hdis.
      { intros i Hi. destruct (Ho2 i Hi) as (t & Ht & Hj'). split.
        - intros Hil. destruct (Ho i Hil) as (t' & Ht' & ?). congruence.
        - intros ->. congruence. }
      split; [split|].
      * eapply rlist_frame; [exact Hl2|]. intros i t Hi Ht. exists t. split; [|done]. simpl.
        destruct (Hdis i Hi) as [Hil _]. etrans; [by apply (relinked_id _ _ _ _ _ _ _ Hre Hil)|done].
      * intros i Hi. destruct (Ho2 i Hi) as (t & Ht & <-). destruct (Hw i t Ht) as (t' & ? & ?). by exists t'.
      * intros i Hi. destruct (Hdis i Hi). rewrite not_elem_of_cons. split; [done|by apply Hd2].
  - intros k2 Hi. split.
    + intros j m Hj. simpl in Hj. rewrite (ts_get _ _ _ _ Hs) in Hj. destruct (decide (j = nid)) as [->|].
      * injection Hj as <-. exists n. split; [done|by apply Hk2].
      * by exists m.
    + by apply (relinked_same k k2 _ _ _ _ _ Hi Hre).
  - intros j. rewrite (ts_get _ _ _ _ Hs). destruct (decide (j = nid)) as [->|]; [|done].
    rewrite Hn. split; intros; by eexists.
Qed.

(** *** Collecting a relationship *)
Lemma gc_main oldest (t t' : robj) r : gc oldest t = (t', r) → main_ t' = main_ t.
Proof.
  unfold gc, mbind, M_bind, get_st, when, modify, mret, M_ret, throw, set_list.
  destruct (has_dirty_versions t (main_ t)); cbn [main_ dirty_list_ next_addr_];
    case_match; [by intros [= <- _]| |by intros [= <- _]|]; case_match; by intros [= <- _].
Qed.

Lemma lists_ok_erase k oid dead g vr :
  (∀ j, vec_get vr j = if decide (j = oid) then None else vec_get (rships_ g) j) →
  lists_ok k (oid :: dead) g → lists_ok k (oid :: dead) (set_rships vr g).
Proof.
  intros Hg Hok nid n Hn. destruct (Hok nid n Hn) as (l & [Hl Ho] & Hd). exists l. split; [|done].
  assert (∀ i, i ∈ l → vec_get vr i = vec_get (rships_ g) i) as Hsame.
  { intros i Hi. rewrite Hg, decide_False; [done|]. intros ->. apply (Hd _ Hi). by left. }
  split.
  - eapply rlist_frame; [exact Hl|]. intros i t Hi Ht. exists t. split; [etrans; [by apply Hsame|done]|done].
  - intros i Hi. destruct (Ho i Hi) as (t & Ht & Hw). exists t. split; [etrans; [by apply Hsame|done]|done].
Qed.

(** C33: collecting a deleted relationship: as long as some version is still
    needed nothing happens; then it is taken out of the list of its source and
    that of its destination, the record is erased, and the lists of all nodes
    stay well formed, without it and without any other change. *)
Theorem vacuum_relationship g x oid r r' ns nd dead :
  vec_rd (nodes_ g) → vec_rd (rships_ g) → oid ≠ UNKNOWN →
  vec_get (rships_ g) oid = Some r → gc (oldest_xid_ g) r = (r', Val tt) →
  vec_get (nodes_ g) (src_node (body_ (main_ r))) = Some ns →
  vec_get (nodes_ g) (dest_node (body_ (main_ r))) = Some nd →
  lists_ok from_list dead g → lists_ok to_list dead g →
  let kept := has_dirty_versions r' (main_ r') in
  ∃ g', vacuum_item (mk_gc x oid gc_rship) g = (g', Val (negb kept))
    ∧ (if kept then lists_ok from_list dead g' ∧ lists_ok to_list dead g'
       else vec_get (rships_ g') oid = None
            ∧ lists_ok from_list (oid :: dead) g' ∧ lists_ok to_list (oid :: dead) g').
Proof.
  intros Hrdn Hrdr Hu Hr Hgc Hns Hnd Hf Ht. pose proof (gc_main _ _ _ _ Hgc) as Hm.
  unfold vacuum_item. cbn [gc_oid gc_itype]. rewrite (bind_val get_st _ g g g) by done.
  destruct (at_rship_step g oid _ _ _ _ Hrdr Hr Hgc) as (g1 & E1 & (v1 & H1 & ->)).
  rewrite (bind_val _ _ _ _ _ E1).
  destruct (at_rship_step (set_rships v1 g) oid r' get_st r' (Val r') (ts_rd _ _ _ _ H1) (tab_set_same _ _ _ _ H1) eq_refl)
    as (g2 & E2 & (v2 & H2 & ->)). rewrite (bind_val _ _ _ _ _ E2).
  pose proof (tab_set_trans _ _ _ _ _ _ H1 H2) as H. set (g2 := set_rships v2 (set_rships v1 g)).
  assert (∀ k, same_links k g g2) as Hsame.
  { intros k. split; [by eauto|]. intros j t Hj. simpl. rewrite (ts_get _ _ _ _ H).
    destruct (decide (j = oid)) as [->|]; [|by eauto]. exists r'. split; [done|]. rewrite Hm.
    by assert (t = r) as -> by congruence. }
  pose proof (lists_ok_same _ _ _ _ (Hsame from_list) Hf) as Hf2.
  pose proof (lists_ok_same _ _ _ _ (Hsame to_list) Ht) as Ht2.
  destruct (has_dirty_versions r' (main_ r')); simpl; [by exists g2|]. rewrite Hm.
  destruct (unlink_ok from_list (src_node (body_ (main_ r))) oid ns r' dead g2) as (vn & vr & E3 & Hrn3 & Hrr3 & Hr3 & Hf3 & Hk3 & Hdom3).
  { done. } { apply H. } { exact Hns. } { by apply (tab_set_same _ _ _ _ H). } { done. } { by rewrite Hm. } { done. }
  rewrite Hm in E3. rewrite (bind_val _ _ _ _ _ E3). set (g3 := set_rships vr (set_nodes vn g2)) in *.
  pose proof (lists_ok_same _ _ _ _ (Hk3 _ indep_from_to) Ht2) as Ht3.
  destruct (proj2 (Hdom3 (dest_node (body_ (main_ r)))) (mk_is_Some _ _ Hnd)) as [nd3 Hnd3].
  destruct (unlink_ok to_list (dest_node (body_ (main_ r))) oid nd3 r' dead g3) as (vn4 & vr4 & E4 & Hrn4 & Hrr4 & Hr4 & Ht4 & Hk4 & Hdom4).
  { done. } { done. } { exact Hnd3. } { done. } { done. } { by rewrite Hm. } { done. }
  rewrite Hm in E4. rewrite (bind_val _ _ _ _ _ E4). set (g4 := set_rships vr4 (set_nodes vn4 g3)) in *.
  pose proof (lists_ok_same _ _ _ _ (Hk4 _ indep_to_from) Hf3) as Hf4.
  destruct (tab_remove_step vr4 oid r' Hrr4 Hr4) as (v5 & E5 & Hrd5 & Hg5).
  rewrite (bind_val (on_rships (tab_remove oid)) _ g4 (set_rships v5 g4) tt)
    by (unfold on_rships; simpl; by rewrite E5).
  exists (set_rships v5 g4). split; [done|]. split; [simpl; by rewrite Hg5, decide_True|].
  split; by apply lists_ok_erase.
Qed.
End lists.

(** ** Linking a new relationship *)
Section link.
Context {V : Type → Type} `{!Vec V} {D : Type} `{!Dictionary D} {X : Type} `{!Indexes X}.
Notation db := (gdb V D X).
Implicit Types (g : db) (t : nobj).

(** How a writer refers to a node: the object itself when it is free, its own
    version in front otherwise; [o] is the version to start from. *)
Inductive writable (x : Z) t : vref → obj node → Prop :=
  | writable_main : txn_id_ (main_ t) = 0 → own_version x (versions t) = None →
      is_Some (d_ (main_ t)) → writable x t Main (main_ t)
  | writable_own w l : versions t = w :: l → txn_id_ (elem_ w) = x →
      Forall (λ d, (addr_ d < addr_ w)%nat) l → is_Some (d_ (elem_ w)) → writable x t (Dirty (addr_ w)) (elem_ w).

Lemma chain_step k head rid g rt l :
  vec_rd (rships_ g) → vec_get (rships_ g) rid = Some rt → rid ≠ UNKNOWN →
  next_of k (body_ (main_ rt)) = UNKNOWN → rlist k (rships_ g) head l → rid ∉ l →
  ∃ v', when (bool_decide (head ≠ UNKNOWN)) (at_rship rid (put Main (set_body (set_next k head)))) g
      = (set_rships v' g, Val tt)
    ∧ vec_rd v' ∧ rlist k v' rid (rid :: l).
Proof.
  intros Hrd Hr Hu Hn Hl Hni. case_bool_decide as Eh; simpl.
  - destruct (at_rship_step g rid rt (put Main (set_body (set_next k head))) (set_main (set_body (set_next k head)) rt)
      (Val tt) Hrd Hr eq_refl) as (g1 & E & (v1 & H & ->)).
    exists v1. split; [done|]. split; [apply H|]. split; [done|]. split; [done|].
    eexists. split; [by eapply tab_set_same|].
    change (body_ (main_ (set_main (set_body (set_next k head)) rt))) with (set_next k head (body_ (main_ rt))).
    rewrite next_set. eapply rlist_frame; [exact Hl|]. intros i t Hi Ht. exists t. split; [|done].
    rewrite (tab_set_other _ _ _ _ i H); [exact Ht|]. by intros ->.
  - assert (head = UNKNOWN) as -> by (apply dec_stable; tauto). destruct l; [|by destruct Hl as (<- & ? & _)].
    exists (rships_ g). split; [by destruct g|]. split; [done|]. split; [done|]. split; [done|].
    exists rt. by split.
Qed.

(** What a step leaves alone: everything but one node and the relationships. *)
Lemma rlist_nodes k g v id l : rlist k (rships_ g) id l → rlist k (rships_ (set_nodes v g)) id l.
Proof. done. Qed.

(** What linking has to establish. *)
Definition linked (k : list_kind) g (nid : Z) t (r : vref) (rid : Z) (l : list Z) (x : Z) : Prop :=
  ∃ g' t' w, link_rship (head_of k) (set_head k) (set_next k) (nid, r) rid g = (g', Val tt)
    ∧ vec_get (nodes_ g') nid = Some t' ∧ own_version x (versions t') = Some w
    ∧ head_of k (body_ (elem_ w)) = rid ∧ rlist k (rships_ g') rid (rid :: l)
    ∧ body_ (main_ t') = body_ (main_ t).

Section steps.
Context (k : list_kind) (g : db) (tx : transaction) (nid : Z) (t : nobj) (rid : Z) (rt : robj) (l : list Z).
Context (Htx : current_transaction_ g = Some tx) (Hrdn : vec_rd (nodes_ g)) (Hrdr : vec_rd (rships_ g)).
Context (Ht : vec_get (nodes_ g) nid = Some t) (Hrt : vec_get (rships_ g) rid = Some rt) (Hu : rid ≠ UNKNOWN).
Context (Hnext : next_of k (body_ (main_ rt)) = UNKNOWN) (Hni : rid ∉ l).

Lemma tx_xid_known : tx_xid g = (g, Val (xid_ tx)).
Proof. unfold tx_xid, mbind, M_bind, get_st. by rewrite Htx. Qed.

Lemma link_first c :
  let x := xid_ tx in
  x ≠ 0 → rts_ (main_ t) ≤ x → addrs_ok t → txn_id_ (main_ t) = 0 → own_version x (versions t) = None →
  is_Some (d_ (main_ t)) → chain (node_properties_ g) (node_plist (body_ (main_ t))) c →
  vec_rd (node_properties_ g) → rlist k (rships_ g) (head_of k (body_ (main_ t))) l →
  linked k g nid t Main rid l x.
Proof.
  intros x Hx Hrts Haddr Hfree Hown Hdm Hc Hrdp Hl. unfold linked, link_rship. cbn [fst snd].
  rewrite (bind_val _ _ _ _ _ tx_xid_known). fold x.
set (o1 := set_txn_id x (main_ t)). set (t1 := set_main (λ _, o1) t).
assert (acquire Main x t = (t1, Val tt)) as Ea.
{ rewrite (acquire_eq Main x t (main_ t)) by done. rewrite decide_False by lia.
  rewrite decide_False by congruence. rewrite decide_True by done. done. }
destruct (at_node_step g nid t _ _ _ Hrdn Ht Ea) as (g1 & E1 & (v1 & H1 & ->)).
rewrite (bind_val _ _ _ _ _ E1).
assert (own_dirty Main x t1 = (t1, Val None)) as Eo.
{ unfold own_dirty, get_dirty_version, mbind, M_bind, self, get_st, mret, M_ret. simpl.
  change (versions t1) with (versions t). rewrite Hown. by destruct (has_dirty_versions _ _). }
destruct (at_node_step (set_nodes v1 g) nid t1 _ _ _ (ts_rd _ _ _ _ H1) (tab_set_same _ _ _ _ H1) Eo)
  as (g2 & E2 & (v2 & H2 & ->)). rewrite (bind_val _ _ _ _ _ E2). pose proof (tab_set_trans _ _ _ _ _ _ H1 H2) as H12.
destruct (at_node_step (set_nodes v2 (set_nodes v1 g)) nid t1 (self Main) t1 (Val o1)
  (ts_rd _ _ _ _ H12) (tab_set_same _ _ _ _ H12) eq_refl) as (g3 & E3 & (v3 & H3 & ->)).
unfold node_ref. cbn [fst snd]. rewrite (bind_val _ _ _ _ _ E3). pose proof (tab_set_trans _ _ _ _ _ _ H12 H3) as H13.
set (g3 := set_nodes v3 _).
assert (stored_node_items (node_plist (body_ o1)) g3 = (g3, Val (chain_items c))) as E4.
{ unfold stored_node_items, mbind, M_bind, get_st, lift_res.
  change (node_plist (body_ o1)) with (node_plist (body_ (main_ t))).
  change (node_properties_ g3) with (node_properties_ g). by rewrite (build_dirty_chain _ _ c Hrdp Hc). }
rewrite (bind_val _ _ _ _ _ E4).
assert (addrs_ok t1) as Hok1 by done.
pose proof (add_old_version_eq t1 Main o1 x (chain_items c) Hok1 eq_refl Hdm) as Eold.
destruct (at_node_step g3 nid t1 _ _ _ (ts_rd _ _ _ _ H13) (tab_set_same _ _ _ _ H13) Eold)
  as (g5 & E5 & (v5 & H5 & ->)). rewrite (bind_val _ _ _ _ _ E5).
pose proof (tab_set_trans _ _ _ _ _ _ H13 H5) as H15. set (t5 := push _ t1) in *.
assert (addrs_ok t5) as Hok5 by by apply addrs_ok_push.
pose proof (add_new_version_eq t5 Main o1 x (chain_items c) (set_head k rid) Hok5 eq_refl Hdm) as Enew.
destruct (at_node_step (set_nodes v5 g3) nid t5 _ _ _ (ts_rd _ _ _ _ H15) (tab_set_same _ _ _ _ H15) Enew)
  as (g6 & E6 & (v6 & H6 & ->)). rewrite (bind_val _ _ _ _ _ E6).
pose proof (tab_set_trans _ _ _ _ _ _ H15 H6) as H16. set (g6 := set_nodes v6 _).
destruct (chain_step k (head_of k (body_ (main_ t))) rid g6 rt l Hrdr Hrt Hu Hnext Hl Hni) as (vr & E7 & _ & Hl').
change (head_of k (body_ o1)) with (head_of k (body_ (main_ t))).
rewrite (bind_val _ _ _ _ _ E7). unfold add_dirty_node, modify.
eexists _, _, _. split; [reflexivity|]. split; [exact (tab_set_same _ _ _ _ H16)|].
split; [by apply own_version_front|]. split; [apply head_set|]. split; [exact Hl'|done].
Qed.

Lemma link_own w lv :
  let x := xid_ tx in
  rts_ (elem_ w) ≤ x → versions t = w :: lv → txn_id_ (elem_ w) = x →
  Forall (λ d, (addr_ d < addr_ w)%nat) lv → is_Some (d_ (elem_ w)) →
  rlist k (rships_ g) (head_of k (body_ (elem_ w))) l →
  linked k g nid t (Dirty (addr_ w)) rid l x.
Proof.
  intros x Hrts Hv Hwx Hlt Hdw Hl. unfold linked, link_rship. cbn [fst snd].
  rewrite (bind_val _ _ _ _ _ tx_xid_known). fold x. clear Htx.
assert (∃ m n, t = mk_tobj m (Some (w :: lv)) n) as (m & n & ->).
{ destruct t as [m [l0|] n]; unfold versions in Hv; simpl in Hv; [subst l0; by eauto|done]. }
set (t := mk_tobj m (Some (w :: lv)) n) in *. set (a := addr_ w) in *.
assert (deref t (Dirty a) = Some (elem_ w)) as Hd by (unfold deref, t, a; by rewrite at_addr_head).
assert (acquire (Dirty a) x t = (t, Val tt)) as Ea
  by (rewrite (acquire_eq (Dirty a) x t (elem_ w)) by done; rewrite decide_False by lia; by rewrite decide_True).
destruct (at_node_step g nid t _ _ _ Hrdn Ht Ea) as (g1 & E1 & (v1 & H1 & ->)).
rewrite (bind_val _ _ _ _ _ E1).
assert (own_dirty (Dirty a) x t = (t, Val (Some w))) as Eo.
{ unfold own_dirty, get_dirty_version, mbind, M_bind, get_st, mret, M_ret. unfold self. rewrite Hd.
  unfold has_dirty_versions. rewrite bool_decide_eq_true_2 by done. simpl.
  change (versions t) with (w :: lv). by rewrite own_version_front. }
destruct (at_node_step (set_nodes v1 g) nid t _ _ _ (ts_rd _ _ _ _ H1) (tab_set_same _ _ _ _ H1) Eo)
  as (g2 & E2 & (v2 & H2 & ->)). rewrite (bind_val _ _ _ _ _ E2). pose proof (tab_set_trans _ _ _ _ _ _ H1 H2) as H12.
set (g2 := set_nodes v2 _).
destruct (chain_step k (head_of k (body_ (elem_ w))) rid g2 rt l Hrdr Hrt Hu Hnext Hl Hni) as (vr & E7 & _ & Hl').
rewrite (bind_val _ _ _ _ _ E7).
assert (put (Dirty a) (set_body (set_head k rid)) t
  = (mk_tobj m (Some (set_elem (set_body (set_head k rid)) w :: lv)) n, Val tt)) as Ep.
{ rewrite (put_eq _ _ _ (elem_ w)) by done. unfold t, a. by rewrite on_dirty_head. }
destruct (at_node_step (set_rships vr g2) nid t _ _ _ (ts_rd _ _ _ _ H12) (tab_set_same _ _ _ _ H12) Ep)
  as (g3 & E3 & (v3 & H3 & ->)).
eexists _, _, _. split; [exact E3|]. split; [exact (tab_set_same _ _ _ _ H3)|].
split; [by apply own_version_front|]. split; [apply head_set|]. split; [exact Hl'|done].
Qed.
End steps.

(** A new relationship becomes the head of the list that its node has for the
    transaction: the list then is the new relationship followed by the old list.
    The node is taken over for writing, and its committed version, which other
    transactions read, keeps the old head. *)
Theorem link_makes_head k g tx nid t r o rid rt l :
  current_transaction_ g = Some tx → xid_ tx ≠ 0 → rts_ o ≤ xid_ tx →
  vec_rd (nodes_ g) → vec_rd (rships_ g) → vec_get (nodes_ g) nid = Some t → addrs_ok t →
  writable (xid_ tx) t r o →
  (∃ c, chain (node_properties_ g) (node_plist (body_ o)) c) → vec_rd (node_properties_ g) →
  vec_get (rships_ g) rid = Some rt → rid ≠ UNKNOWN → next_of k (body_ (main_ rt)) = UNKNOWN →
  rlist k (rships_ g) (head_of k (body_ o)) l → rid ∉ l →
  linked k g nid t r rid l (xid_ tx).
Proof.
  intros Htx Hx Hrts Hrdn Hrdr Ht Haddr Hw [c Hc] Hrdp Hrt Hu Hnext Hl Hni.
  destruct Hw as [Hfree Hown Hdm|w lv Hv Hwx Hlt Hdw].
  - by apply (link_first k g tx nid t rid rt l Htx Hrdn Hrdr Ht Hrt Hu Hnext Hni c).
  - by apply (link_own k g tx nid t rid rt l Htx Hrdn Hrdr Ht Hrt Hu Hnext Hni w lv).
Qed.
End link.

(** ** Operations that leave the database in a bad state

    What the code does in two situations it does not provide for: properties that
    cannot be stored while a node is added, and a relationship that is deleted
    while an older transaction still reads it. *)

Section errors.
Context {V : Type → Type} `{!Vec V} {D : Type} `{!Dictionary D} {X : Type} `{!Indexes X}.
Variables (ptime_of_date time_from_string : str → res Z) (junk : Z).
Notation db := (gdb V D X).
Notation build_dirty_from_props := (build_dirty_from_props ptime_of_date time_from_string junk).
Notation add_node := (add_node ptime_of_date time_from_string junk).
Implicit Types g : db.

(** Nobody can use such a node: its transaction runs into an assertion, the
    others get the exception for unknown ids. *)
Definition ghost (x : Z) (b : node) : nobj := mk_tobj (mk_obj x 0 INF 0 None b) None 0.
Lemma ghost_unusable x y (b : node) :
  x ≠ 0 → 0 < y → (fetch y (ghost x b)).2 = Exn (if decide (x = y) then assertion_failed else unknown_id).
Proof.
  intros Hx Hy. set (t0 := mk_tobj (mk_obj x 0 INF y (Some false) b) (None : option (list (dirty_object node pitems))) 0).
  assert (fetch y (ghost x b) = get_valid_version y t0) as ->.
  { unfold fetch. rewrite (bind_val _ _ (ghost x b) (mk_tobj (mk_obj x 0 INF 0 (Some false) b) None 0) tt) by done.
    rewrite (bind_val _ _ _ t0 tt); [done|]. unfold put, mbind, M_bind, self, modify, set_main, set_rts. simpl.
    by rewrite bool_decide_eq_true_2. }
  unfold get_valid_version, is_locked_by, is_locked. simpl. destruct (decide (x = y)) as [->|Hne].
  - by rewrite bool_decide_eq_true_2.
  - rewrite bool_decide_eq_false_2 by done. by rewrite bool_decide_eq_true_2.
Qed.

(** When a property of a new node cannot be converted the exception leaves
    [add_node] after the node was put into its table: the node stays there,
    locked by the transaction and without any version, and is not in the
    transaction's list of dirty nodes, so that neither commit nor abort will
    look at it; nobody can read it, not even its transaction. *)
Theorem add_node_exception_leaves_node g tx label props ap c d1 d2 e :
  current_transaction_ g = Some tx → xid_ tx ≠ 0 → vec_ok (nodes_ g) →
  d_lookup_string (dict_ g) label = c → c ≠ 0 → dict_ g = d1 → build_dirty_from_props props d1 = (d2, Exn e) →
  ∃ id v, add_node label props ap g = (set_nodes v (set_gdict d2 g), Exn e)
    ∧ vec_get (nodes_ g) id = None
    ∧ vec_get v id = Some (ghost (xid_ tx) (set_node_id id (new_node c)))
    ∧ (∀ y, 0 < y → ∃ e', (fetch y (ghost (xid_ tx) (set_node_id id (new_node c)))).2 = Exn e')
    ∧ (∀ j, j ≠ id → vec_get v j = vec_get (nodes_ g) j).
Proof.
  intros Htx Hx Hok Hc Hc0 Hd1 Hb. unfold GraphOps.add_node.
  rewrite (bind_val _ _ _ _ _ (check_tx_ok _ _ Htx)), (bind_val _ _ _ _ _ (tx_xid_ok _ _ Htx)).
  rewrite (bind_val (get_code label) _ g g c) by (unfold get_code, mbind, M_bind, get_st; by rewrite Hc).
  rewrite bool_decide_eq_false_2 by done. rewrite bind_ret.
  destruct (tab_insert_step ap set_node_id (new_node c) (xid_ tx) (nodes_ g) Hok)
    as (id & v & E & Hok1 & Hid & Hfree & Hget & _).
  rewrite (bind_val _ _ _ (set_nodes v g) id) by (unfold on_nodes; by rewrite E).
  rewrite (bind_exn _ _ _ (set_gdict d2 (set_nodes v g)) e)
    by (unfold on_dict; simpl; by rewrite Hd1, Hb).
  exists id, v. split; [done|]. split; [done|]. split; [by rewrite Hget, decide_True|].
  split; [intros y Hy; eexists; by apply ghost_unusable|]. intros j Hj. by rewrite Hget, decide_False.
Qed.

(** A transaction that is older than the delete of a relationship and should
    still see it gets an exception instead: commit has freed the records of the
    properties, but the description of a relationship, unlike that of a node, is
    read from the table whenever the object itself is valid for the reader. *)
Theorem deleted_rship_unreadable g tx rid t :
  let x := xid_ tx in
  let o := main_ t in
  current_transaction_ g = Some tx → x ≠ 0 → vec_rd (rships_ g) → vec_rd (rship_properties_ g) →
  vec_get (rships_ g) rid = Some t → d_ o = Some false → txn_id_ o = 0 → bts_ o ≤ x → x < cts_ o →
  0 ≤ rship_plist (body_ o) → rship_plist (body_ o) ≠ UNKNOWN →
  rship_plist (body_ o) < vec_capacity (rship_properties_ g) →
  vec_get (rship_properties_ g) (rship_plist (body_ o)) = None →
  ∃ g', get_rship_description rid g = (g', Exn unknown_id).
Proof.
  intros x o Htx Hx Hrd Hrdp Ht Hd Hfree Hb Hc Hp0 Hpu Hpc Hfreed. unfold get_rship_description, rship_by_id.
  set (t0 := set_main (set_rts x) t).
  assert (d_ (main_ t0) = Some false ∧ txn_id_ (main_ t0) = 0 ∧ bts_ (main_ t0) = bts_ o ∧ cts_ (main_ t0) = cts_ o
    ∧ body_ (main_ t0) = body_ o) as (Hd0 & Hf0 & Hb0 & Hc0 & Hbody).
  { unfold t0, set_main, set_rts, o. simpl. by case_bool_decide. }
  assert (is_valid_for (main_ t0) x = true) as Hv by (unfold is_valid_for; rewrite Hb0, Hc0, (bool_decide_eq_true_2 (_ ∧ _)) by lia; apply orb_true_r).
  assert (fetch x t = (t0, Val Main)) as Ef.
  { rewrite (fetch_eq _ _ _ Hd). fold t0. unfold get_valid_version, is_locked_by, is_locked. rewrite Hf0.
    rewrite !bool_decide_eq_false_2 by (congruence || tauto). cbn [negb]. by rewrite Hv. }
  unfold mbind at 1 2, M_bind at 1 2. rewrite (bind_val _ _ _ _ _ (check_tx_ok _ _ Htx)).
  rewrite (bind_val _ _ _ _ _ (tx_xid_ok _ _ Htx)). fold x.
  destruct (at_rship_step g rid _ (fetch x) _ _ Hrd Ht Ef) as (g1 & E1 & (v1 & H1 & ->)).
  rewrite (bind_val _ _ _ _ _ E1). unfold mret at 1, M_ret at 1.
  assert (tx_xid (set_rships v1 g) = (set_rships v1 g, Val x)) as Ex by (apply (tx_xid_ok _ tx); done).
  rewrite Ex. unfold rship_ref. cbn [fst snd].
  destruct (at_rship_step (set_rships v1 g) rid t0 (self Main) t0 (Val (main_ t0)) (ts_rd _ _ _ _ H1)
    (tab_set_same _ _ _ _ H1) eq_refl) as (g2 & E2 & (v2 & H2 & ->)). rewrite (bind_val _ _ _ _ _ E2).
  pose proof (tab_set_trans _ _ _ _ _ _ H1 H2) as H12.
  destruct (at_rship_step (set_rships v2 (set_rships v1 g)) rid t0 get_st t0 (Val t0) (ts_rd _ _ _ _ H12)
    (tab_set_same _ _ _ _ H12) eq_refl) as (g3 & E3 & (v3 & H3 & ->)). rewrite (bind_val _ _ _ _ _ E3).
  set (g3 := set_rships v3 _).
  assert (all_properties (rship_properties_ g) (dict_ g) (rship_plist (body_ (main_ t0))) = Exn unknown_id) as Ea.
  { rewrite Hbody. unfold all_properties. rewrite bool_decide_eq_false_2 by lia.
    unfold walk_fuel. cbn [all_properties_loop]. rewrite bool_decide_eq_false_2 by done.
    unfold pset_at. by rewrite (vec_at_None _ _ Hrdp Hp0 Hpc Hfreed). }
  exists g3. unfold is_dirty. rewrite Hd0, Hv. cbn [negb andb].
  match goal with |- context [negb ?b] => destruct b end; cbn [negb];
    rewrite (bind_val get_st _ g3 g3 g3) by done; apply bind_exn; unfold lift_res;
    change (rship_properties_ g3) with (rship_properties_ g); change (dict_ g3) with (dict_ g); by rewrite <-Ea.
Qed.
End errors.
