(* ===== verification/GraphImport.v ===== *)
(** * GraphImport: bulk import (src/storage/graph_db_import.cpp)

    Importing works without transactions: objects are appended unlocked and
    visible to everyone.  The rows of a CSV file come from the parser, which is
    another project's code; a file that cannot be opened is [None].  The maps
    from names to node ids and the mutex that callers pass are part of the
    state. *)

From Stdlib Require Import Ascii SpecFloat.
From S2P Require Import Prelude VecSpec DictSpec IndexSpec Literals Property PropertyList Txn Mvto GraphState GraphOps GraphIndex.

(** [std::any] values and type codes from the fields of a row. *)
Section fields.
Context {D : Type} `{!Dictionary D}.
Variables (ptime_of_date time_from_string : str → res Z) (junk : Z).

(** [s[s.find("T")] = ' ']: without a T the index is [npos]. *)
Definition dtime_string (s : str) : res str :=
  if bool_decide ("T"%char ∈ s) then Val (before_plus (blank_T s)) else Exn undefined_behaviour.

(** [p_item(k, tc, v, dict)] with a string. *)
Definition typed_string_item (k tc : Z) (v : str) : M D p_item :=
  let it := mk_item junk k 0 in
  if bool_decide (tc = p_int) then i ← lift_res (stoi v); mret (set_int i it)
  else if bool_decide (tc = p_double) then d ← lift_res (stod v); mret (set_double d it)
  else if bool_decide (tc = p_dcode) then c ← d_insert v; mret (set_dcode c it)
  else if bool_decide (tc = p_uint64) then u ← lift_res (stoull v); mret (set_uint64 u it)
  else if bool_decide (tc = p_ptime) then
    s ← lift_res (dtime_string v); t ← lift_res (time_from_string s); mret (set_ptime t it)
  else if bool_decide (tc = p_date) then t ← lift_res (ptime_of_date v); mret (set_ptime t it)
  else mret it.

Definition string_to_any (tc : Z) (s : str) : M D any :=
  if bool_decide (tc = p_dcode) then c ← d_insert s; mret (any_dcode c)
  else if bool_decide (tc = p_int) then i ← lift_res (stoi s); mret (any_int i)
  else if bool_decide (tc = p_uint64) then u ← lift_res (stoull s); mret (any_uint64 u)
  else if bool_decide (tc = p_double) then d ← lift_res (stod s); mret (any_double d)
  else if bool_decide (tc = p_date) then t ← lift_res (ptime_of_date s); mret (any_ptime t)
  else if bool_decide (tc = p_ptime) then
    s2 ← lift_res (dtime_string s); t ← lift_res (time_from_string s2); mret (any_ptime t)
  else mret any_none.

(** An integer that neither [int] nor [uint64_t] holds becomes the [int] 0. *)
Definition infer_datatype (s : str) : M D (Z * any) :=
  if is_quoted_string s then c ← d_insert s; mret (p_dcode, any_dcode c)
  else if is_int s then
    match stoi s with
    | Val i => mret (p_int, any_int i)
    | Exn out_of_range_std =>
      match stoull s with Val u => mret (p_uint64, any_uint64 u) | Exn _ => mret (p_int, any_int 0) end
    | Exn e => throw e
    end
  else if is_float s then d ← lift_res (stod s); mret (p_double, any_double d)
  else if is_date s then t ← lift_res (ptime_of_date s); mret (p_date, any_ptime t)
  else if is_dtime s then
    s2 ← lift_res (dtime_string s); t ← lift_res (time_from_string s2); mret (p_ptime, any_ptime t)
  else c ← d_insert s; mret (p_dcode, any_dcode c).

Definition get_datatype (s : str) : Z :=
  if is_quoted_string s then p_dcode
  else if is_uint64 s then p_uint64
  else if is_int s then p_int
  else if is_float s then p_double
  else if is_date s then p_date
  else if is_dtime s then p_ptime
  else p_dcode.

(** [v[i]] of a [std::vector] *)
Definition vec_ix {A} (v : list A) (i : nat) : res A :=
  match v !! i with Some x => Val x | None => Exn undefined_behaviour end.
Definition vec_set {A} (v : list A) (i : nat) (x : A) : res (list A) :=
  if bool_decide (i < length v)%nat then Val (<[i := x]> v) else Exn undefined_behaviour.

Context {V : Type → Type} `{!Vec V}.
Notation pvec := (V property_set).

(** [append_typed_properties] for strings: [todo] keys are left. *)
Fixpoint append_strings_loop (nid : Z) (keys typelist : list Z) (values : list str) (todo i : nat)
    (pil : list p_item) (pidx : nat) (next_id : Z) : M (pvec * D) Z :=
  match todo with
  | O => mret next_id
  | S todo' =>
    v ← lift_res (vec_ix values i);
    if bool_decide (v = []) then append_strings_loop nid keys typelist values todo' (S i) pil pidx next_id
    else
      k ← lift_res (vec_ix keys i);
      tc ← lift_res (vec_ix typelist i);
      it ← on_snd (typed_string_item k tc v);
      let pil := <[pidx := it]> pil in
      let pidx := (pidx + 1)%nat in
      if bool_decide (i = length keys - 1)%nat || bool_decide (pidx = 3%nat) then
        p ← on_fst (vec_append (mk_pset next_id nid pil));
        append_strings_loop nid keys typelist values todo' (S i) (empty_pil junk) 0 p.1
      else append_strings_loop nid keys typelist values todo' (S i) pil pidx next_id
  end.
Definition append_typed_strings (nid : Z) (keys typelist : list Z) (values : list str) : M (pvec * D) Z :=
  append_strings_loop nid keys typelist values (length keys) 0 (empty_pil junk) 0 UNKNOWN.
End fields.

(** [catch (std::exception&)]: a failed assertion, undefined behaviour and a loop
    without end are no exceptions. *)
Definition is_std_exception (e : exn) : bool :=
  match e with assertion_failed | undefined_behaviour | no_return => false | _ => true end.
Definition catch_std {S A} (m : M S A) (h : M S A) : M S A := λ s,
  match m s with
  | (s', Exn e) => if is_std_exception e then h s' else (s', Exn e)
  | r => r
  end.

Section import.
Context {V : Type → Type} `{!Vec V} `{!VecScan V} {D : Type} `{!Dictionary D} {X : Type} `{!Indexes X}.
Variables (ptime_of_date time_from_string : str → res Z) (junk : Z).
Notation db := (gdb V D X).
Notation append_properties := (append_properties ptime_of_date time_from_string junk).
Notation append_typed_strings := (append_typed_strings ptime_of_date time_from_string junk).

(** Operations that work on a table of properties and the dictionary. *)
Definition on_nprops_dict {A} (m : M (V property_set * D) A) : M db A := λ g,
  let '((v, d), r) := m (node_properties_ g, dict_ g) in (set_gdict d (set_nprops v g), r).
Definition on_rprops_dict {A} (m : M (V property_set * D) A) : M db A := λ g,
  let '((v, d), r) := m (rship_properties_ g, dict_ g) in (set_gdict d (set_rprops v g), r).

(** ** Nodes *)
Definition save_node_props (node_id : Z) (none : bool) (store : M db Z) : M db unit :=
  if none then mret tt else pid ← store; at_node node_id (put Main (set_body (set_node_plist pid))).
Definition append_node (label_code : Z) : M db Z :=
  node_id ← on_nodes (tab_append set_node_id (new_node label_code) 0);
  _ ← at_node node_id get_st; mret node_id.

Definition import_node (label : str) (props : properties_t) : M db Z :=
  type_code ← on_dict (d_insert label);
  node_id ← append_node type_code;
  save_node_props node_id (bool_decide (props = [])) (on_nprops_dict (append_properties node_id props));;
  mret node_id.
Definition import_typed_node (label : Z) (l : list (Z * Z * any)) : M db Z :=
  node_id ← append_node label;
  save_node_props node_id (bool_decide (l = [])) (on_nprops (append_typed_properties junk node_id l));;
  mret node_id.
Definition import_typed_node_strings (label : Z) (keys typelist : list Z) (values : list str) : M db Z :=
  node_id ← append_node label;
  save_node_props node_id (bool_decide (keys = [])) (on_nprops_dict (append_typed_strings node_id keys typelist values));;
  mret node_id.

(** ** Relationships *)

(** The new relationship becomes the head of the list of one of its nodes. *)
Definition push_rship (get : node → Z) (set : Z → node → node) (setn : Z → relationship → relationship)
    (nid rid : Z) : M db unit :=
  t ← at_node nid get_st;
  let h := get (body_ (main_ t)) in
  when (bool_decide (h ≠ UNKNOWN)) (at_rship rid (put Main (set_body (setn h))));;
  at_node nid (put Main (set_body (set rid))).

(** What the three functions have in common; [store] saves the properties. *)
Definition import_rship (from_id to_id : Z) (label : M db Z) (none : bool) (store : Z → M db Z) : M db Z :=
  _ ← at_node from_id get_st;
  _ ← at_node to_id get_st;
  type_code ← label;
  rid ← on_rships (tab_append set_rship_id (new_relationship type_code from_id to_id) 0);
  _ ← at_rship rid get_st;
  (if none then mret tt else pid ← store rid; at_rship rid (put Main (set_body (set_rship_plist pid))));;
  push_rship from_rship_list set_from_list set_next_src from_id rid;;
  push_rship to_rship_list set_to_list set_next_dest to_id rid;;
  mret rid.

Definition import_relationship (from_id to_id : Z) (label : str) (props : properties_t) : M db Z :=
  import_rship from_id to_id (on_dict (d_insert label)) (bool_decide (props = []))
    (λ rid, on_rprops_dict (append_properties rid props)).
Definition import_typed_relationship (from_id to_id label : Z) (l : list (Z * Z * any)) : M db Z :=
  import_rship from_id to_id (mret label) (bool_decide (l = []))
    (λ rid, on_rprops (append_typed_properties junk rid l)).
Definition import_typed_relationship_strings (from_id to_id label : Z) (keys typelist : list Z) (values : list str) : M db Z :=
  import_rship from_id to_id (mret label) (bool_decide (keys = []))
    (λ rid, on_rprops_dict (append_typed_strings rid keys typelist values)).

(** ** Finding the ends of a relationship *)

Definition property_as_uint64 (pi : p_item) : res Z :=
  let tc := typecode pi in
  if bool_decide (tc = p_int) then x ← get_int pi; Val (u64 x)
  else if bool_decide (tc = p_double) then x ← get_double pi; double_to_uint64 x
  else if bool_decide (tc = p_uint64) then get_uint64 pi
  else Val 0.

(** The nodes are compared as they are stored, whatever a transaction sees. *)
Fixpoint find_node_loop (g : db) (label prop val : Z) (fuel : nat) (it : option loc) : res Z :=
  match it with
  | None => Val UNKNOWN
  | Some l =>
    match fuel, vec_read (nodes_ g) l with
    | O, _ => Exn no_return
    | S f, None => Exn undefined_behaviour
    | S f, Some t =>
      let b := body_ (main_ t) in
      found ← (if is_valid (main_ t) && bool_decide (node_label b = label) then
                 pi ← property_value (node_properties_ g) (node_plist b) prop;
                 x ← property_as_uint64 pi; Val (bool_decide (val = x))
               else Val false);
      if found : bool then Val (node_id_ b)
      else it' ← vec_next (nodes_ g) l; find_node_loop g label prop val f it'
    end
  end.
Definition get_node_id_for_property (label prop val : Z) : M db Z :=
  g ← get_st;
  lift_res (find_node_loop g label prop val (Z.to_nat (vec_capacity (nodes_ g))) (vec_first (nodes_ g))).

Notation mapping := (gmap str Z).
Notation typespec := (gmap str Z).

Definition underscore (a b : str) : str := a ++ "_"%char :: b.
(** [if (s[0] >= 'a' && s[0] <= 'z') s[0] -= 32] *)
Definition capital (s : str) : str :=
  match s with
  | c :: s' => (if range "a" "z" c then ascii_of_N (Z.to_N (code c - 32)) else c) :: s'
  | [] => []
  end.
Definition node_id_from_field (m : mapping) (s field : str) : Z :=
  default UNKNOWN (m !! underscore field (capital s)).

(** [field.substr(1, field.length()-2)] *)
Definition strip_ends (field : str) : res str :=
  match field with
  | [] => Exn out_of_range_std
  | [_] => Val []
  | _ :: s => Val (take (length field - 2) s)
  end.
(** [std::stoll] *)
Definition stoll (s : str) : res Z :=
  let '(neg, s1) := signed (skip_space s) in
  let '(v, n, _) := digits s1 0 in
  if bool_decide (n = O) then Exn invalid_argument_std
  else if bool_decide (- 2 ^ 63 ≤ neg_if neg v < 2 ^ 63) then Val (neg_if neg v)
  else Exn out_of_range_std.

Definition node_id_from_key (node_label column : str) (kval : Z) : M db Z :=
  hi ← has_index node_label column;
  if hi : bool then idx_id ← get_index node_label column; node_id_from_index (Some idx_id) kval
  else
    clabel ← get_code node_label;
    cproperty ← get_code column;
    get_node_id_for_property clabel cproperty kval.
Definition node_id_from_db (node_label column field : str) : M db Z :=
  if is_quoted_string field || negb (is_uint64 field) then
    s ← lift_res (strip_ends field);
    dc ← get_code s;
    if bool_decide (dc = UNKNOWN_CODE) then mret UNKNOWN else node_id_from_key node_label column dc
  else match stoll field with
       | Exn _ => mret UNKNOWN
       | Val k => node_id_from_key node_label column (u64 k)
       end.

(** The column up to the first [_] or [.], and what is behind it. *)
Fixpoint get_rship_node (column : str) : str * str :=
  match column with
  | [] => ([], [])
  | c :: s => if bool_decide (c = "_"%char ∨ c = "."%char) then ([], s)
              else let '(a, b) := get_rship_node s in (c :: a, b)
  end.

(** ** Files *)

(** The database, the map from names to ids, and the mutex ([None]: a null
    pointer); locking a mutex again that the thread holds is undefined. *)
Record import_st : Type := mk_import {
  im_db : db;
  im_map : option mapping;
  im_mtx : option bool
}.
Definition on_db {A} (m : M db A) : M import_st A := λ s,
  let '(g, r) := m (im_db s) in (mk_import g (im_map s) (im_mtx s), r).
Definition lock_mtx : M import_st unit := λ s,
  match im_mtx s with
  | None => (s, Val tt)
  | Some false => (mk_import (im_db s) (im_map s) (Some true), Val tt)
  | Some true => (s, Exn undefined_behaviour)
  end.
Definition unlock_mtx : M import_st unit :=
  modify (λ s, mk_import (im_db s) (im_map s) ((λ _, false) <$> im_mtx s)).
(** [m.value().insert({k, id})] leaves an entry that exists. *)
Definition map_name (k : str) (id : Z) : M import_st unit :=
  modify (λ s, mk_import (im_db s)
    ((λ m : mapping, match m !! k with Some _ => m | None => <[k := id]> m end) <$> im_map s) (im_mtx s)).

(** The properties of a row: the fields that are not empty, by column. *)
Fixpoint row_props (columns : list str) (i : nat) (row : list str) (props : properties_t) : res properties_t :=
  match row with
  | [] => Val props
  | field :: row' =>
    col ← vec_ix columns i;
    row_props columns (S i) row'
      (if bool_decide (col ≠ []) && bool_decide (field ≠ []) then pmap_insert col (any_string field) props else props)
  end.

Fixpoint import_node_rows (label : str) (columns : list str) (rows : list (list str)) (num : Z) : M import_st Z :=
  match rows with
  | [] => mret num
  | row :: rows' =>
    props ← lift_res (row_props columns 0 row []);
    num' ← catch_std (id ← on_db (import_node label props); map_name (underscore [] label) id;; mret (num + 1)) (mret num);
    import_node_rows label columns rows' num'
  end.
Definition import_nodes_from_csv (label : str) (file : option (list (list str))) : M import_st Z :=
  match file with
  | None | Some [] => mret 0
  | Some (header :: rows) =>
    num ← import_node_rows label header rows 1; mret (num - 1)
  end.

(** What a typed import knows about the columns. *)
Record col_types : Type := mk_cols { prop_types : list Z; inferred : list bool }.
(** The first row decides about the types: a column with an empty field counts
    as string for the time being. *)
Fixpoint infer_first (label : str) (ty : typespec) (columns : list str) (i : nat) (row : list str)
    (ct : col_types) (id_label : str) : res (col_types * str) :=
  match row with
  | [] => Val (ct, id_label)
  | field :: row' =>
    col ← vec_ix columns i;
    if bool_decide (col ≠ []) && bool_decide (field ≠ []) then
      let tc := default (get_datatype field) (ty !! (label ++ "."%char :: col)) in
      tys ← vec_set (prop_types ct) i tc;
      inf ← vec_set (inferred ct) i true;
      infer_first label ty columns (S i) row' (mk_cols tys inf) (if bool_decide (i = O) then field else id_label)
    else
      tys ← vec_set (prop_types ct) i p_dcode;
      infer_first label ty columns (S i) row' (mk_cols tys (inferred ct)) id_label
  end.
Fixpoint infer_more (columns : list str) (i : nat) (row : list str) (ct : col_types) (id_label : str)
    : res (col_types * str) :=
  match row with
  | [] => Val (ct, id_label)
  | field :: row' =>
    col ← vec_ix columns i;
    if bool_decide (col ≠ []) && bool_decide (field ≠ []) then
      known ← vec_ix (inferred ct) i;
      ct' ← (if known : bool then Val ct
             else tys ← vec_set (prop_types ct) i (get_datatype field);
                  inf ← vec_set (inferred ct) i true; Val (mk_cols tys inf));
      infer_more columns (S i) row' ct' (if bool_decide (i = O) then field else id_label)
    else infer_more columns (S i) row' ct id_label
  end.

(** The rows behind the header; an exception ends the import, with the mutex
    still locked. *)
Fixpoint import_typed_rows (label : str) (label_code : Z) (ty : typespec) (columns : list str) (prop_names : list Z)
    (num : Z) (ct : col_types) (rows : list (list str)) : M import_st Z :=
  match rows with
  | [] => mret (num - 1)
  | row :: rows' =>
    p ← lift_res (if bool_decide (num = 1) then infer_first label ty columns 0 row ct []
                  else infer_more columns 0 row ct []);
    lock_mtx;;
    r ← catch_std (id ← on_db (import_typed_node_strings label_code prop_names (prop_types p.1) row); mret (Some id))
                  (mret None);
    match r with
    | None => mret (num - 1)
    | Some id =>
      map_name (underscore p.2 label) id;;
      unlock_mtx;;
      import_typed_rows label label_code ty columns prop_names (num + 1) p.1 rows'
    end
  end.
Fixpoint insert_names (l : list str) : M db (list Z) :=
  match l with
  | [] => mret []
  | s :: l' => c ← on_dict (d_insert s); cs ← insert_names l'; mret (c :: cs)
  end.
(** An empty file makes [num - 1] wrap around. *)
Definition import_typed_nodes_from_csv (label : str) (ty : typespec) (file : option (list (list str))) : M import_st Z :=
  match file with
  | None => mret 0
  | Some rows =>
    label_code ← on_db (on_dict (d_insert label));
    match rows with
    | [] => mret (u64 (0 - 1))
    | columns :: rows' =>
      prop_names ← on_db (insert_names columns);
      import_typed_rows label label_code ty columns prop_names 1
        (mk_cols (replicate (length columns) 0) (replicate (length columns) false)) rows'
    end
  end.

(** *** Relationships *)
Definition get_connected_node_ids (src_node src_column dest_node dest_column : str) (row : list str)
    : M import_st (Z * Z) :=
  s ← get_st;
  f0 ← lift_res (vec_ix row 0);
  from_node ← match im_map s with
              | Some m => mret (node_id_from_field m src_node f0)
              | None => on_db (node_id_from_db src_node src_column f0)
              end;
  if bool_decide (from_node = UNKNOWN) then mret (UNKNOWN, UNKNOWN)
  else
    f1 ← lift_res (vec_ix row 1);
    to_node ← match im_map s with
              | Some m => mret (node_id_from_field m dest_node f1)
              | None => on_db (node_id_from_db dest_node dest_column f1)
              end;
    if bool_decide (to_node = UNKNOWN) then mret (UNKNOWN, UNKNOWN) else mret (from_node, to_node).

Fixpoint rship_row_props (columns : list str) (i : nat) (row : list str) (props : properties_t) : res properties_t :=
  match row with
  | [] => Val props
  | field :: row' =>
    if bool_decide (1 < i)%nat then
      col ← vec_ix columns i;
      rship_row_props columns (S i) row' (if bool_decide (field ≠ []) then pmap_insert col (any_string field) props else props)
    else rship_row_props columns (S i) row' props
  end.

Fixpoint import_rship_rows (label : str) (columns : list str) (src dest : str * str) (rows : list (list str)) (num : Z)
    : M import_st Z :=
  match rows with
  | [] => mret num
  | row :: rows' =>
    ends ← get_connected_node_ids src.1 src.2 dest.1 dest.2 row;
    props ← lift_res (rship_row_props columns 0 row []);
    _ ← on_db (import_relationship ends.1 ends.2 label props);
    import_rship_rows label columns src dest rows' (num + 1)
  end.
(** The first two columns name the ends, as label and property. *)
Definition import_relationships_from_csv (label : str) (file : option (list (list str))) : M import_st Z :=
  match file with
  | None => mret 0
  | Some [] => mret (u64 (0 - 1))
  | Some (columns :: rows) =>
    c0 ← lift_res (vec_ix columns 0); c1 ← lift_res (vec_ix columns 1);
    let src := get_rship_node c0 in
    let dest := get_rship_node c1 in
    if bool_decide (src.2 = []) || bool_decide (dest.2 = []) then mret 0
    else num ← import_rship_rows label columns src dest rows 1; mret (num - 1)
  end.

(** The values of the first row, without its empty fields: the columns behind
    an empty field move to the left. *)
Fixpoint first_values (i j : nat) (row : list str) (types : list Z) (values : list str) : res (list Z * list str) :=
  match row with
  | [] => Val (types, values)
  | field :: row' =>
    if bool_decide (1 < i)%nat && bool_decide (field ≠ []) then
      types' ← vec_set types j (get_datatype field);
      values' ← vec_set values j field;
      first_values (S i) (S j) row' types' values'
    else first_values (S i) j row' types values
  end.

(** Types and values are taken from rows as long as none was imported. *)
Fixpoint import_typed_rship_rows (label_code : Z) (src dest : str * str) (prop_names : list Z) (num : Z)
    (types : list Z) (values : list str) (rows : list (list str)) : M import_st Z :=
  match rows with
  | [] => mret num
  | row :: rows' =>
    ends ← get_connected_node_ids src.1 src.2 dest.1 dest.2 row;
    tv ← lift_res (if bool_decide (num = 1) then first_values 0 0 row types values else Val (types, values));
    lock_mtx;;
    r ← catch_std (_ ← on_db (import_typed_relationship_strings ends.1 ends.2 label_code prop_names tv.1 tv.2); mret true)
                  (mret false);
    if r : bool then
      unlock_mtx;; import_typed_rship_rows label_code src dest prop_names (num + 1) tv.1 tv.2 rows'
    else import_typed_rship_rows label_code src dest prop_names num tv.1 tv.2 rows'
  end.
Definition import_typed_relationships_from_csv (label : str) (file : option (list (list str))) : M import_st Z :=
  match file with
  | None => mret 0
  | Some rows =>
    label_code ← on_db (on_dict (d_insert label));
    match rows with
    | [] => mret 0
    | columns :: rows' =>
      c0 ← lift_res (vec_ix columns 0); c1 ← lift_res (vec_ix columns 1);
      let src := get_rship_node c0 in
      let dest := get_rship_node c1 in
      if bool_decide (src.2 = []) || bool_decide (dest.2 = []) then mret 0
      else
        prop_names ← on_db (insert_names (drop 2 columns));
        let n := (length columns - 2)%nat in
        num ← import_typed_rship_rows label_code src dest prop_names 1 (replicate n 0) (replicate n []) rows';
        mret (num - 1)
    end
  end.
End import.
