(* ===== verification/GraphImportFacts.v ===== *)
(** * GraphImportFacts: what an import leaves behind

    An imported node is what every later transaction reads; an imported
    relationship is the first one in the lists of its two nodes; what happens
    when its properties cannot be converted; and which parts of the rows of a
    file are not used. *)

From S2P Require Import Prelude VecSpec DictSpec IndexSpec Literals Property PropertyList PropertyMap PropertyTable.
From S2P Require Import Txn Mvto GraphState GraphOps GraphIndex GraphCommit GraphFacts GraphNodes GraphLists GraphImport.

Section import.
Context {V : Type → Type} `{!Vec V} {D : Type} `{!Dictionary D} {X : Type} `{!Indexes X}.
Variables (ptime_of_date time_from_string : str → res Z) (junk : Z).
Notation db := (gdb V D X).
Notation pvec := (V property_set).
Notation canonical := (canonical ptime_of_date time_from_string).
Notation named_item := (named_item ptime_of_date time_from_string junk).
Notation build_dirty_from_props := (build_dirty_from_props ptime_of_date time_from_string junk).
Notation append_properties := (append_properties ptime_of_date time_from_string junk).
Notation import_node := (import_node ptime_of_date time_from_string junk).
Notation import_relationship := (import_relationship ptime_of_date time_from_string junk).
Implicit Types (g : db) (v : pvec) (d : D) (t : nobj).

(** ** Properties

    Items are made and records are written in turn; the dictionary and the table
    end up as if all items had been made first. *)
Lemma pack_named store nid total props : ∀ pil pidx n nx v d d' l v' id,
  build_dirty_from_props props d = (d', Val l) →
  pack junk mret store nid total l pil pidx n nx v = (v', Val id) →
  pack junk (λ kv, on_snd (named_item kv.1 kv.2)) (λ ps, on_fst (store ps)) nid total props pil pidx n nx (v, d)
  = ((v', d'), Val id).
Proof.
  induction props as [|[k x] props IH]; intros pil pidx n nx v d d' l v' id.
  - intros [= <- <-]. by intros [= <- <-].
  - cbn [PropertyList.build_dirty_from_props]. intros (d1 & it & E1 & E)%bind_inv.
    apply bind_inv in E as (d2 & l2 & E2 & [= <- <-]). cbn [pack fst snd].
    assert (on_snd (named_item k x) (v, d) = ((v, d1), Val it)) as E1' by (unfold on_snd; cbn [fst snd]; by rewrite E1).
    rewrite (bind_val _ _ _ _ _ E1'). rewrite bind_ret.
    destruct (bool_decide (n + 1 = total)%nat || bool_decide (pidx + 1 = 3)%nat).
    + intros (v1 & i1 & E3 & E)%bind_inv.
      assert (on_fst (store (mk_pset nx nid (<[pidx:=it]> pil))) (v, d1) = ((v1, d1), Val i1)) as E3'
        by (unfold on_fst; cbn [fst snd]; by rewrite E3).
      rewrite (bind_val _ _ _ _ _ E3'). by eapply IH.
    + by eapply IH.
Qed.

Lemma append_properties_ok v d m props ces nid :
  vec_ok v → vec_capacity v + Z.of_nat (length props) * vec_grow ≤ UNKNOWN →
  d_has d m → pm_sorted props → canonical props ces → dict_takes d (props_strings props) →
  ∃ v' d' m' id, append_properties nid props (v, d) = ((v', d'), Val id) ∧ vec_ok v' ∧ d_has d' m' ∧ m ⊆ m'
    ∧ all_properties v' d' id = Val (valued ces).
Proof.
  intros Hok Hcap Hd Hs Hc Ht.
  destruct (build_dirty_from_props_ok _ _ junk d m props ces Hd Hc Ht) as (d' & m' & l & E & Hd' & Hm' & He).
  assert (NoDup ces.*1) as Hnd by (rewrite <-(canonical_fst _ _ _ _ Hc); by apply pm_sorted_NoDup).
  assert (length l = length props) as Hlen
    by (rewrite (Forall2_length _ _ _ He); symmetry; by apply (Forall2_length _ _ _ Hc)).
  destruct (pack_items_spec junk _ v d' m' l ces nid append_stores Hok) as (v' & id & c & Ep & Hok' & _ & _ & Ha & _);
    [by rewrite Hlen|done..|].
  exists v', d', m', id. split_and!; [|done..|].
  - unfold PropertyList.append_properties. rewrite <-Hlen. by eapply pack_named.
  - rewrite Ha, (build_properties_entries _ _ _ _ Hd' He). by rewrite (pm_of_valued _ _ _ _ Hs Hc).
Qed.

(** ** Nodes *)

(** The object of an imported node, and what a reader makes of it. *)
Definition imported (b : node) : nobj := mk_tobj (mk_obj 0 0 INF 0 None b) None 0.

Lemma fetch_imported y b : 0 < y < INF →
  fetch y (imported b) = (mk_tobj (mk_obj 0 0 INF y (Some false) b) None 0, Val Main).
Proof.
  intros Hy. unfold fetch, mbind, M_bind. rewrite (put_eq _ Main prepare (main_ (imported b))) by done.
  rewrite (put_eq _ Main (set_rts y) (main_ (set_main prepare (imported b)))) by done.
  unfold set_main, imported, set_rts, prepare, set_d. cbn [main_ rts_ txn_id_ bts_ cts_ d_ body_ dirty_list_ next_addr_].
  rewrite bool_decide_eq_true_2 by lia. unfold get_valid_version, is_locked_by, is_locked, is_valid_for.
  cbn [main_ txn_id_ bts_ cts_ d_]. rewrite !(bool_decide_eq_false_2 (0 = y)) by lia.
  rewrite (bool_decide_eq_true_2 (0 ≤ y ∧ y < INF)) by lia. by rewrite orb_true_r.
Qed.

Lemma describe_imported g y id b pm label m :
  current_transaction_ g = Some (new_transaction y) → 0 < y < INF →
  vec_rd (nodes_ g) → vec_get (nodes_ g) id = Some (imported b) →
  d_has (dict_ g) m → m !! node_label b = Some label →
  all_properties (node_properties_ g) (dict_ g) (node_plist b) = Val pm →
  ∃ g', get_node_description id g = (g', Val (mk_ndescr (node_id_ b) label pm)).
Proof.
  intros Htx Hy Hrd Ht Hd Hl Hall.
  by eapply (describe_fetched g y id _ _ pm label m Htx Hrd Ht (fetch_imported y b Hy)).
Qed.

Lemma append_node_ok g c : vec_ok (nodes_ g) →
  ∃ (id : Z) (v : V nobj), append_node c g = (set_nodes v g, Val id) ∧ vec_ok v ∧ 0 ≤ id ∧ vec_get (nodes_ g) id = None
    ∧ ∀ j, vec_get v j = if decide (j = id) then Some (imported (set_node_id id (new_node c))) else vec_get (nodes_ g) j.
Proof.
  intros Hok. destruct (tab_insert_step true set_node_id (new_node c) 0 _ Hok) as (id & v & E & Hok' & Hid & Hn & Hg & _).
  unfold append_node. assert (on_nodes (tab_append set_node_id (new_node c) 0) g = (set_nodes v g, Val id)) as E1
    by (unfold on_nodes; by rewrite E).
  rewrite (bind_val _ _ _ _ _ E1).
  assert (vec_get v id = Some (imported (set_node_id id (new_node c)))) as Ht by by rewrite Hg, decide_True.
  destruct (at_node_step (set_nodes v g) id _ get_st _ _ (vec_ok_rd _ Hok') Ht eq_refl) as (g' & E2 & (v' & H' & ->)).
  rewrite (bind_val _ _ _ _ _ E2). exists id, v'. split; [done|]. split; [by apply (ts_ok _ _ _ _ H')|].
  split_and!; [done..|]. intros j. rewrite (ts_get _ _ _ _ H'). destruct (decide (j = id)); [done|].
  change (vec_get v j = vec_get (nodes_ g) j). by rewrite Hg, decide_False.
Qed.

(** C15: a node that is imported is what every later transaction reads: label and
    properties, the values in the form items keep, under an id that no node had
    before; all other nodes stay as they are and the database is at rest
    again. *)
Theorem import_node_read g m label props ces y :
  at_rest g m → 0 < y < INF →
  pm_sorted props → canonical props ces → dict_takes (dict_ g) (label :: props_strings props) →
  vec_capacity (node_properties_ g) + Z.of_nat (length props) * vec_grow ≤ UNKNOWN →
  ∃ id g' g'' m', import_node label props g = (g', Val id)
    ∧ (begin_transaction y;; get_node_description id) g' = (g'', Val (mk_ndescr id label (valued ces)))
    ∧ vec_get (nodes_ g) id = None
    ∧ (∀ j, j ≠ id → vec_get (nodes_ g') j = vec_get (nodes_ g) j)
    ∧ at_rest g' m'.
Proof.
  intros [Hcur Hgar Hnok Hpok Hd] Hy Hs Hc (Hl0 & Hl1 & Ht) Hcap. unfold GraphImport.import_node.
  destruct (d_insert_ok _ _ label Hd Hl0 Hl1) as (d1 & c & E1 & Hd1 & _ & Hor & _). rewrite E1 in Ht. simpl in Ht.
  assert (on_dict (d_insert label) g = (set_gdict d1 g, Val c)) as E1' by (unfold on_dict; by rewrite E1).
  rewrite (bind_val _ _ _ _ _ E1').
  destruct (append_node_ok (set_gdict d1 g) c Hnok) as (id & v & E2 & Hok2 & Hid & Hfree & Hget).
  rewrite (bind_val _ _ _ _ _ E2). set (g2 := set_nodes v (set_gdict d1 g)).
  assert (∃ g' m' b, (save_node_props id (bool_decide (props = [])) (on_nprops_dict (append_properties id props));; mret id) g2
      = (g', Val id) ∧ at_rest g' m' ∧ vec_get (nodes_ g') id = Some (imported b)
      ∧ (∀ j, j ≠ id → vec_get (nodes_ g') j = vec_get (nodes_ g) j)
      ∧ node_id_ b = id ∧ m' !! node_label b = Some label
      ∧ all_properties (node_properties_ g') (dict_ g') (node_plist b) = Val (valued ces))
    as (g' & m' & b & E3 & Hr & Hb & Hoth & Hbid & Hbl & Hall).
  2:{ rewrite E3. pose proof Hr as [Hcur' _ Hnok' _ Hd']. exists id, g'.
      rewrite (bind_val _ _ _ _ _ (begin_ok y g' Hcur')). set (g4 := set_active _ _).
      destruct (describe_imported g4 y id b (valued ces) label m') as (g'' & E''); [done|done|by apply vec_ok_rd|done..|].
      rewrite Hbid in E''. exists g'', m'. split; [done|]. split; [exact E''|]. split; [exact Hfree|]. by split. }
  unfold save_node_props. case_bool_decide as Hp.
  - subst props. apply Forall2_nil_inv_l in Hc as ->. rewrite bind_ret.
    exists g2, (<[c:=label]> m), (set_node_id id (new_node c)). split; [done|]. split.
    { split; [done|done|by apply Hok2|done|done]. }
    split; [change (vec_get v id = Some (imported (set_node_id id (new_node c)))); by rewrite Hget, decide_True|].
    split; [intros j Hj; change (vec_get v j = vec_get (nodes_ g) j); by rewrite Hget, decide_False|].
    split; [done|]. split; [apply lookup_insert_eq|]. apply (all_properties_chain junk _ _ UNKNOWN []); [by apply vec_ok_rd|done|constructor].
  - destruct (append_properties_ok (node_properties_ g) d1 _ props ces id Hpok Hcap Hd1 Hs Hc Ht)
      as (p & d2 & m2 & pid & E3 & Hpok' & Hd2 & Hm2 & Hall).
    assert (on_nprops_dict (append_properties id props) g2 = (set_gdict d2 (set_nprops p g2), Val pid)) as E3'
      by (unfold on_nprops_dict; simpl; by rewrite E3).
    rewrite bind_assoc, (bind_val _ _ _ _ _ E3'). set (g3 := set_gdict _ _).
    assert (vec_get v id = Some (imported (set_node_id id (new_node c)))) as Hti by by rewrite Hget, decide_True.
    destruct (at_node_step g3 id _ (put Main (set_body (set_node_plist pid))) _ _ (vec_ok_rd _ Hok2) Hti eq_refl)
      as (g4 & E4 & (v4 & H4 & ->)). rewrite (bind_val _ _ _ _ _ E4).
    exists (set_nodes v4 g3), m2, (set_node_plist pid (set_node_id id (new_node c))). split; [done|]. split.
    { split; [done|done|by apply (ts_ok _ _ _ _ H4)|done|done]. }
    split; [by apply (tab_set_same _ _ _ _ H4)|]. split.
    { intros j Hj. etrans; [by apply (tab_set_other _ _ _ _ _ H4)|].
      change (vec_get v j = vec_get (nodes_ g) j). by rewrite Hget, decide_False. }
    split; [done|]. split; [|done]. eapply lookup_weaken; [|exact Hm2]. apply lookup_insert_eq.
Qed.

(** ** Relationships *)

(** [g'] is [g] after [rid] became the head of a list of [nid]. *)
Record pushed (k : list_kind) g (nid rid : Z) (n : nobj) (r : robj) g' : Prop := {
  pu_nodes : vec_rd (nodes_ g');
  pu_rships : vec_ok (rships_ g) → vec_ok (rships_ g');
  pu_node j : vec_get (nodes_ g') j = if decide (j = nid) then Some (set_main (set_body (set_head k rid)) n) else vec_get (nodes_ g) j;
  pu_other j : j ≠ rid → vec_get (rships_ g') j = vec_get (rships_ g) j;
  pu_rship : ∃ b, vec_get (rships_ g') rid = Some (set_main (set_body (λ _, b)) r)
    ∧ next_of k b = head_of k (body_ (main_ n)) ∧ (b = body_ (main_ r) ∨ ∃ h, b = set_next k h (body_ (main_ r)));
  pu_rest : g' = set_nodes (nodes_ g') (set_rships (rships_ g') g)
}.

Lemma push_rship_ok k g nid rid n r :
  vec_rd (nodes_ g) → vec_rd (rships_ g) → vec_get (nodes_ g) nid = Some n → vec_get (rships_ g) rid = Some r →
  next_of k (body_ (main_ r)) = UNKNOWN →
  ∃ g', push_rship (head_of k) (set_head k) (set_next k) nid rid g = (g', Val tt) ∧ pushed k g nid rid n r g'.
Proof.
  intros Hn Hr En Er Eu. unfold push_rship.
  destruct (at_node_step g nid n get_st _ _ Hn En eq_refl) as (g1 & E1 & (v1 & H1 & ->)). rewrite (bind_val _ _ _ _ _ E1).
  set (h := head_of k (body_ (main_ n))).
  assert (∃ vr b, when (bool_decide (h ≠ UNKNOWN)) (at_rship rid (put Main (set_body (set_next k h)))) (set_nodes v1 g)
    = (set_rships vr (set_nodes v1 g), Val tt) ∧ vec_rd vr ∧ (vec_ok (rships_ g) → vec_ok vr)
    ∧ (∀ j, j ≠ rid → vec_get vr j = vec_get (rships_ g) j) ∧ vec_get vr rid = Some (set_main (set_body (λ _, b)) r)
    ∧ next_of k b = h ∧ (b = body_ (main_ r) ∨ ∃ h, b = set_next k h (body_ (main_ r))))
    as (vr & b & E2 & Hrd2 & Hok2 & Hoth & Hrid & Hnext & Hb).
  { case_bool_decide as Eh; cbn [when].
    - destruct (at_rship_step (set_nodes v1 g) rid r (put Main (set_body (set_next k h))) _ _ Hr Er eq_refl)
        as (g2 & E2 & (v2 & H2 & ->)). exists v2, (set_next k h (body_ (main_ r))). split; [done|].
      split; [apply H2|]. split; [apply H2|]. split; [intros j Hj; by apply (tab_set_other _ _ _ _ _ H2)|].
      split; [by apply (tab_set_same _ _ _ _ H2)|]. rewrite next_set. eauto.
    - exists (rships_ g), (body_ (main_ r)). split; [by destruct g|]. split_and!; [done..| |by rewrite Eu|by left].
      rewrite Er. by destruct r as [[]]. }
  rewrite (bind_val _ _ _ _ _ E2).
  destruct (at_node_step (set_rships vr (set_nodes v1 g)) nid n (put Main (set_body (set_head k rid))) _ _
    (ts_rd _ _ _ _ H1) (tab_set_same _ _ _ _ H1) eq_refl) as (g3 & E3 & (v3 & H3 & ->)).
  pose proof (tab_set_trans _ _ _ _ _ _ H1 H3) as H. exists (set_nodes v3 (set_rships vr (set_nodes v1 g))).
  split; [done|]. split; [apply H|done|apply H|done|by exists b|done].
Qed.

(** The list of the node has a new head; the lists of the other kind stay. *)
Lemma pushed_lists k g nid rid n r g' :
  pushed k g nid rid n r g' → rid ≠ UNKNOWN → owner_of k (body_ (main_ r)) = nid → vec_get (nodes_ g) nid = Some n →
  lists_ok k [rid] g →
  lists_ok k [] g' ∧ ∃ l n', list_for k g nid (head_of k (body_ (main_ n))) l ∧ rid ∉ l
    ∧ vec_get (nodes_ g') nid = Some n' ∧ list_for k g' nid (head_of k (body_ (main_ n'))) (rid :: l).
Proof.
  intros [_ _ Hnode Hoth (b & Hb & Hnext & Hor) _] Hu Hw En Hl.
  assert (∀ j h l, list_for k g j h l → rid ∉ l → list_for k g' j h l) as Hframe.
  { intros j h l [H1 H2] Hd. split.
    - eapply rlist_frame; [exact H1|]. intros i t Hi Ht. exists t. rewrite Hoth by (by intros ->). done.
    - intros i Hi. destruct (H2 i Hi) as (t & Ht & Ho). exists t. rewrite Hoth by (by intros ->). done. }
  assert (∀ l, list_for k g nid (head_of k (body_ (main_ n))) l → rid ∉ l → list_for k g' nid rid (rid :: l)) as Hnew.
  { intros l H Hd. destruct (Hframe _ _ _ H Hd) as [H1 H2]. split.
    - split; [done|]. split; [done|]. eexists. split; [exact Hb|].
      change (body_ (main_ (set_main (set_body (λ _, b)) r))) with b. by rewrite Hnext.
    - intros i [->|Hi]%elem_of_cons; [|by apply H2]. eexists. split; [exact Hb|].
      change (body_ (main_ (set_main (set_body (λ _, b)) r))) with b.
      destruct Hor as [->|[h ->]]; [done|by rewrite owner_set]. }
  assert (∀ l : list Z, (∀ j, j ∈ l → j ∉ [rid]) → rid ∉ l) as Hdead by (intros l H Hr; by apply (H rid Hr); left).
  split.
  - intros j nj. rewrite Hnode. destruct (decide (j = nid)) as [->|Hj].
    + intros [= <-]. destruct (Hl nid n En) as (l & H & Hd). exists (rid :: l). split; [|by intros i _ ?%elem_of_nil].
      change (body_ (main_ (set_main (set_body (set_head k rid)) n))) with (set_head k rid (body_ (main_ n))).
      rewrite head_set. apply Hnew; [done|by apply Hdead].
    + intros Ej. destruct (Hl j nj Ej) as (l & H & Hd). exists l. split; [|by intros i _ ?%elem_of_nil].
      apply Hframe; [done|by apply Hdead].
  - destruct (Hl nid n En) as (l & H & Hd). exists l, (set_main (set_body (set_head k rid)) n).
    split; [done|]. split; [by apply Hdead|]. rewrite Hnode, decide_True by done. split; [done|].
    change (body_ (main_ (set_main (set_body (set_head k rid)) n))) with (set_head k rid (body_ (main_ n))).
    rewrite head_set. apply Hnew; [done|by apply Hdead].
Qed.

Lemma pushed_links k k2 g nid rid n r g' : indep k k2 → pushed k g nid rid n r g' →
  vec_get (nodes_ g) nid = Some n → vec_get (rships_ g) rid = Some r → same_links k2 g g'.
Proof.
  intros [Hin Hio Hih] [_ _ Hnode Hoth (b & Hb & _ & Hor) _] En Er. split.
  - intros j n'. rewrite Hnode. destruct (decide (j = nid)) as [->|]; [|by eauto].
    intros [= <-]. exists n. split; [done|]. apply Hih.
  - intros j t Ht. destruct (decide (j = rid)) as [->|Hj]; [|rewrite Hoth by done; by eauto].
    assert (t = r) as -> by congruence. eexists. split; [exact Hb|]. change (body_ (main_ (set_main (set_body (λ _, b)) r))) with b.
    destruct Hor as [->|[h ->]]; [done|]. by rewrite Hin, Hio.
Qed.

(** A new relationship in the table that is in no list. *)
Lemma fresh_lists k rid r g g' :
  (∀ j, vec_get (nodes_ g') j = vec_get (nodes_ g) j) → vec_get (rships_ g) rid = None →
  (∀ j, vec_get (rships_ g') j = if decide (j = rid) then Some r else vec_get (rships_ g) j) →
  lists_ok k [] g → lists_ok k [rid] g'.
Proof.
  intros Hn Hnone Hr Hl nid n. rewrite Hn. intros En. destruct (Hl nid n En) as (l & [H1 H2] & _).
  assert (rid ∉ l) as Hd.
  { intros Hin. destruct (rlist_get _ _ _ _ _ H1 Hin) as [[t Ht] _]. congruence. }
  exists l. split; [|intros i Hi ->%list_elem_of_singleton; done]. split.
  - eapply rlist_frame; [exact H1|]. intros i t Hi Ht. exists t. rewrite Hr, decide_False by (by intros ->). done.
  - intros i Hi. destruct (H2 i Hi) as (t & Ht & Ho). exists t. rewrite Hr, decide_False by (by intros ->). done.
Qed.
Lemma lists_ok_weaken k dead g : lists_ok k dead g → lists_ok k [] g.
Proof. intros H nid n E. destruct (H nid n E) as (l & Hl & _). exists l. split; [done|]. by intros i _ ?%elem_of_nil. Qed.

(** The relationship as it is stored at first. *)
Definition new_link (rid c from_id to_id : Z) : robj := inserted set_rship_id (new_relationship c from_id to_id) 0 rid.

(** A way to save the properties works on their table and the dictionary. *)
Definition saves (store : Z → M db Z) : Prop :=
  ∀ rid g, ∃ p d r, store rid g = (set_gdict d (set_rprops p g), r).

(** What the import of a relationship does to the lists, if properties can be
    saved and if not. *)
Definition linked_in g (k : list_kind) (nid rid : Z) (n : nobj) g' : Prop :=
  ∃ l n', list_for k g nid (head_of k (body_ (main_ n))) l ∧ vec_get (nodes_ g') nid = Some n'
    ∧ list_for k g' nid (head_of k (body_ (main_ n'))) (rid :: l).
Definition import_result g (from_id to_id c : Z) (n1 n2 : nobj) (rid : Z) (out : res Z) g' : Prop :=
  match out with
  | Val id => id = rid ∧ linked_in g from_list from_id rid n1 g' ∧ linked_in g to_list to_id rid n2 g'
  | Exn _ => lists_ok from_list [rid] g' ∧ lists_ok to_list [rid] g'
             ∧ vec_get (rships_ g') rid = Some (new_link rid c from_id to_id)
  end.

Lemma same_links_list k g g' nid h l : same_links k g g' → list_for k g nid h l → list_for k g' nid h l.
Proof.
  intros [_ Hr] [H1 H2]. split.
  - eapply rlist_frame; [done|]. intros i t _ Ht. destruct (Hr i t Ht) as (t' & ? & ? & _). eauto.
  - intros i Hi. destruct (H2 i Hi) as (t & Ht & Hw). destruct (Hr i t Ht) as (t' & ? & _ & ?). exists t'.
    split; [done|congruence].
Qed.

(** Both pushes, from a state in which the relationship is in no list. *)
Lemma push_both g from_id to_id rid n1 n2 r :
  vec_rd (nodes_ g) → vec_ok (rships_ g) → vec_get (nodes_ g) from_id = Some n1 → vec_get (nodes_ g) to_id = Some n2 →
  vec_get (rships_ g) rid = Some r → rid ≠ UNKNOWN → src_node (body_ (main_ r)) = from_id → dest_node (body_ (main_ r)) = to_id →
  next_src_rship (body_ (main_ r)) = UNKNOWN → next_dest_rship (body_ (main_ r)) = UNKNOWN →
  lists_ok from_list [rid] g → lists_ok to_list [rid] g →
  ∃ g', (push_rship from_rship_list set_from_list set_next_src from_id rid;;
         push_rship to_rship_list set_to_list set_next_dest to_id rid) g = (g', Val tt)
    ∧ lists_ok from_list [] g' ∧ lists_ok to_list [] g'
    ∧ linked_in g from_list from_id rid n1 g' ∧ linked_in g to_list to_id rid n2 g'.
Proof.
  intros Hn Hr E1 E2 Er Hu Hs Hd Hns Hnd L1 L2.
  destruct (push_rship_ok from_list g from_id rid n1 r Hn (vec_ok_rd _ Hr) E1 Er Hns) as (g1 & P1 & H1).
  rewrite (bind_val _ _ _ _ _ P1).
  destruct (pushed_lists _ _ _ _ _ _ _ H1 Hu Hs E1 L1) as (L1' & l1 & n1' & Hl1 & _ & E1' & Hl1').
  pose proof (pushed_links _ _ _ _ _ _ _ _ indep_from_to H1 E1 Er) as S2.
  pose proof (lists_ok_same _ _ _ _ S2 L2) as L2'.
  pose proof H1 as [Hn1 Hr1 Hnode1 _ (b & Er1 & _ & Hb) _].
  assert (∃ n2', vec_get (nodes_ g1) to_id = Some n2' ∧ head_of to_list (body_ (main_ n2')) = head_of to_list (body_ (main_ n2)))
    as (n2' & E2' & Hh2).
  { rewrite Hnode1. destruct (decide (to_id = from_id)) as [->|]; [|by eauto].
    assert (n1 = n2) as -> by congruence. eexists. by split. }
  set (r1 := set_main (set_body (λ _, b)) r) in *.
  assert (next_dest_rship b = UNKNOWN ∧ dest_node b = to_id) as [Hnd1 Hd1] by (destruct Hb as [->|[h ->]]; done).
  destruct (push_rship_ok to_list g1 to_id rid n2' r1 Hn1 (vec_ok_rd _ (Hr1 Hr)) E2' Er1 Hnd1) as (g2 & P2 & H2).
  destruct (pushed_lists _ _ _ _ _ _ _ H2 Hu Hd1 E2' L2') as (L2'' & l2 & n2'' & Hl2 & _ & E2'' & Hl2').
  pose proof (pushed_links _ _ _ _ _ _ _ _ indep_to_from H2 E2' Er1) as S1.
  exists g2. split; [exact P2|]. split; [by eapply lists_ok_same|]. split; [done|]. split.
  - assert (∃ n, vec_get (nodes_ g2) from_id = Some n ∧ head_of from_list (body_ (main_ n)) = head_of from_list (body_ (main_ n1')))
      as (n & En & Hh).
    { rewrite (pu_node _ _ _ _ _ _ _ H2). destruct (decide (from_id = to_id)) as [->|]; [|by eauto].
      assert (n1' = n2') as -> by congruence. eexists. by split. }
    exists l1, n. split; [done|]. split; [done|]. rewrite Hh. by eapply same_links_list.
  - destruct (L2 to_id n2 E2) as (l & Hl & _). exists l2, n2''. split; [|done].
    pose proof (same_links_list _ _ _ _ _ _ S2 Hl) as Hl'. rewrite Hh2 in Hl2.
    by rewrite (rlist_det _ _ _ _ _ (lf_list _ _ _ _ _ Hl2) (lf_list _ _ _ _ _ Hl')).
Qed.

Lemma import_rship_ok (g : db) (d1 : D) from_id to_id n1 n2 c (label : M db Z) (none : bool) (store : Z → M db Z) :
  label g = (set_gdict d1 g, Val c) →
  (∀ (v : V nobj) (h : db), label (set_nodes v h) = (set_nodes v (label h).1, (label h).2)) → saves store →
  vec_rd (nodes_ g) → vec_ok (rships_ g) → vec_capacity (rships_ g) + vec_grow ≤ UNKNOWN →
  vec_get (nodes_ g) from_id = Some n1 → vec_get (nodes_ g) to_id = Some n2 →
  lists_ok from_list [] g → lists_ok to_list [] g →
  ∃ rid g' out, import_rship from_id to_id label none store g = (g', out)
    ∧ vec_get (rships_ g) rid = None ∧ lists_ok from_list [] g' ∧ lists_ok to_list [] g'
    ∧ import_result g from_id to_id c n1 n2 rid out g'.
Proof.
  intros El Hlab Hst Hn Hr Hcap E1 E2 L1 L2. unfold import_rship.
  destruct (at_node_step g from_id n1 get_st _ _ Hn E1 eq_refl) as (g1 & P1 & (v1 & H1 & ->)). rewrite (bind_val _ _ _ _ _ P1).
  assert (∀ j, vec_get v1 j = vec_get (nodes_ g) j) as Hv1
    by (intros j; rewrite (ts_get _ _ _ _ H1); by destruct (decide (j = from_id)) as [->|]).
  assert (vec_get v1 to_id = Some n2) as E2' by by rewrite Hv1.
  destruct (at_node_step (set_nodes v1 g) to_id n2 get_st _ _ (ts_rd _ _ _ _ H1) E2' eq_refl) as (g2 & P2 & (v2 & H2 & ->)).
  rewrite (bind_val _ _ _ _ _ P2).
  assert (∀ j, vec_get v2 j = vec_get (nodes_ g) j) as Hv2
    by (intros j; rewrite (ts_get _ _ _ _ H2); destruct (decide (j = to_id)) as [->|]; [done|apply Hv1]).
  assert (label (set_nodes v2 (set_nodes v1 g)) = (set_nodes v2 (set_nodes v1 (set_gdict d1 g)), Val c)) as P3
    by by rewrite !Hlab, El.
  rewrite (bind_val _ _ _ _ _ P3). set (g3 := set_nodes v2 _).
  destruct (tab_insert_step true set_rship_id (new_relationship c from_id to_id) 0 (rships_ g) Hr)
    as (rid & w & P4 & Hok4 & Hrid & Hfree & Hget & Hc1 & Hc2).
  assert (on_rships (tab_append set_rship_id (new_relationship c from_id to_id) 0) g3 = (set_rships w g3, Val rid)) as P4'
    by (unfold on_rships; simpl; by rewrite P4).
  rewrite (bind_val _ _ _ _ _ P4').
  assert (vec_get w rid = Some (new_link rid c from_id to_id)) as Erid by by rewrite Hget, decide_True.
  assert (rid ≠ UNKNOWN) as Hu by (destruct (vec_get_bounds _ _ _ (vec_ok_rd _ Hok4) Erid); lia).
  destruct (at_rship_step (set_rships w g3) rid _ get_st _ _ (vec_ok_rd _ Hok4) Erid eq_refl) as (g5 & P5 & (w5 & H5 & ->)).
  rewrite (bind_val _ _ _ _ _ P5). set (g5 := set_rships w5 _).
  assert (∀ j, vec_get w5 j = if decide (j = rid) then Some (new_link rid c from_id to_id) else vec_get (rships_ g) j) as Hw5.
  { intros j. rewrite (ts_get _ _ _ _ H5). destruct (decide (j = rid)) as [->|]; [done|].
    change (vec_get w j = vec_get (rships_ g) j). by rewrite Hget, decide_False. }
  exists rid. assert (∀ k g', lists_ok k [] g → (∀ j, vec_get (nodes_ g') j = vec_get (nodes_ g) j) →
    ∀ r, (∀ j, vec_get (rships_ g') j = if decide (j = rid) then Some r else vec_get (rships_ g) j) →
    lists_ok k [rid] g') as Hfresh by (intros; by eapply fresh_lists).
  assert (∀ g' r, (∀ j, vec_get (nodes_ g') j = vec_get (nodes_ g) j) → vec_rd (nodes_ g') → vec_ok (rships_ g') →
      (∀ j, vec_get (rships_ g') j = if decide (j = rid) then Some r else vec_get (rships_ g) j) →
      next_src_rship (body_ (main_ r)) = UNKNOWN → next_dest_rship (body_ (main_ r)) = UNKNOWN →
      src_node (body_ (main_ r)) = from_id → dest_node (body_ (main_ r)) = to_id →
      ∃ g'', (push_rship from_rship_list set_from_list set_next_src from_id rid;;
              push_rship to_rship_list set_to_list set_next_dest to_id rid;; mret rid) g' = (g'', Val rid)
        ∧ lists_ok from_list [] g'' ∧ lists_ok to_list [] g'' ∧ import_result g from_id to_id c n1 n2 rid (Val rid) g'') as Hend.
  { intros g' r Hgn Hgrd Hgok Hgr Hx1 Hx2 Hx3 Hx4.
    assert (∀ k nid l n, list_for k g' nid (head_of k (body_ (main_ n))) l → vec_get (nodes_ g) nid = Some n → lists_ok k [] g →
      list_for k g nid (head_of k (body_ (main_ n))) l) as Hback.
    { intros k nid l n Hl En HL. destruct (HL nid n En) as (l0 & Hl0 & _).
      assert (list_for k g' nid (head_of k (body_ (main_ n))) l0) as Hl0'.
      { eapply same_links_list; [|exact Hl0]. split; [intros j n'; rewrite Hgn; by eauto|].
        intros j t Ht. exists t. rewrite Hgr, decide_False by (intros ->; congruence). done. }
      by rewrite (rlist_det _ _ _ _ _ (lf_list _ _ _ _ _ Hl) (lf_list _ _ _ _ _ Hl0')). }
    destruct (push_both g' from_id to_id rid n1 n2 r) as (g'' & P & L1'' & L2'' & (l & n & A1 & A2 & A3) & (l' & n' & B1 & B2 & B3));
      [done|done|by rewrite Hgn|by rewrite Hgn|by rewrite Hgr, decide_True|done..| | |].
    { by eapply Hfresh. } { by eapply Hfresh. }
    exists g''. rewrite <-bind_assoc, (bind_val _ _ _ _ _ P). split; [done|]. split; [done|]. split; [done|]. split; [done|].
    split; [exists l, n|exists l', n']; (split; [by apply Hback|done]). }
  destruct none.
  - rewrite bind_ret. destruct (Hend g5 (new_link rid c from_id to_id)) as (g'' & P & A & B & C);
      [exact Hv2|apply H2|by apply H5|exact Hw5|done..|]. exists g'', (Val rid). by split.
  - destruct (Hst rid g5) as (p & d & o & Ps). rewrite bind_assoc. destruct o as [pid|e].
    2:{ rewrite (bind_exn _ _ _ _ _ Ps). exists (set_gdict d (set_rprops p g5)), (Exn e). split; [done|]. split; [done|].
        assert (lists_ok from_list [rid] (set_gdict d (set_rprops p g5)) ∧ lists_ok to_list [rid] (set_gdict d (set_rprops p g5))) as [A B]
          by (split; (eapply Hfresh; [done|exact Hv2|exact Hw5])).
        split; [by eapply lists_ok_weaken|]. split; [by eapply lists_ok_weaken|]. split; [done|]. split; [done|].
        change (vec_get w5 rid = Some (new_link rid c from_id to_id)). by rewrite Hw5, decide_True. }
    rewrite (bind_val _ _ _ _ _ Ps). set (g6 := set_gdict d (set_rprops p g5)).
    assert (vec_get w5 rid = Some (new_link rid c from_id to_id)) as E5 by by rewrite Hw5, decide_True.
    destruct (at_rship_step g6 rid _ (put Main (set_body (set_rship_plist pid))) _ _ (ts_rd _ _ _ _ H5) E5 eq_refl)
      as (g7 & P7 & (w7 & H7 & ->)). rewrite (bind_val _ _ _ _ _ P7).
    destruct (Hend (set_rships w7 g6) (set_main (set_body (set_rship_plist pid)) (new_link rid c from_id to_id))) as (g'' & P & A & B & C);
      [exact Hv2|apply H2|by apply H7, H5| |done..|exists g'', (Val rid); by split].
    intros j. change (vec_get w7 j = if decide (j = rid) then Some (set_main (set_body (set_rship_plist pid)) (new_link rid c from_id to_id))
                        else vec_get (rships_ g) j).
    rewrite (ts_get _ _ _ _ H7). destruct (decide (j = rid)); [done|].
    change (vec_get w5 j = vec_get (rships_ g) j). by rewrite Hw5, decide_False.
Qed.

(** C5: the import of a relationship keeps the lists of all nodes well formed:
    the relationship gets a new id and becomes the first one in the list of its
    source and in that of its destination, also when they are the same node;
    when a property cannot be converted, the import ends with the exception, and
    the relationship stays in the table, visible to everyone, in no list. *)
Theorem import_relationship_links g m from_id to_id n1 n2 label props :
  vec_rd (nodes_ g) → vec_ok (rships_ g) → vec_capacity (rships_ g) + vec_grow ≤ UNKNOWN →
  d_has (dict_ g) m → no_nul label → d_fits (dict_ g) label →
  vec_get (nodes_ g) from_id = Some n1 → vec_get (nodes_ g) to_id = Some n2 →
  lists_ok from_list [] g → lists_ok to_list [] g →
  ∃ c rid g' out, d_insert label (dict_ g) = ((d_insert label (dict_ g)).1, Val c)
    ∧ import_relationship from_id to_id label props g = (g', out)
    ∧ vec_get (rships_ g) rid = None ∧ lists_ok from_list [] g' ∧ lists_ok to_list [] g'
    ∧ import_result g from_id to_id c n1 n2 rid out g'.
Proof.
  intros Hn Hr Hcap Hd Hl0 Hl1 E1 E2 L1 L2. destruct (d_insert_ok _ _ label Hd Hl0 Hl1) as (d1 & c & E & _).
  destruct (import_rship_ok g d1 from_id to_id n1 n2 c (on_dict (d_insert label)) (bool_decide (props = []))
    (λ rid, on_rprops_dict (append_properties rid props))) as (rid & g' & out & P & A); [..|by rewrite E; exists c, rid, g', out].
  - unfold on_dict. by rewrite E.
  - intros v h. unfold on_dict. simpl. by destruct (d_insert label (dict_ h)).
  - intros rid h. unfold on_rprops_dict. destruct (append_properties rid props (rship_properties_ h, dict_ h)) as [[p d] o].
    by exists p, d, o.
  - done.
  - done.
  - done.
  - done.
  - done.
  - done.
  - done.
Qed.

End import.

(** ** Typed rows *)
Section rows.
Context {V : Type → Type} `{!Vec V} {D : Type} `{!Dictionary D}.
Variables (ptime_of_date time_from_string : str → res Z) (junk : Z).

(** A step that does not touch the table, with [id] as its only result. *)
Definition stores_nothing (t : V property_set) (id : Z) (r : (V property_set * D) * res Z) : Prop :=
  r.1.1 = t ∧ ∀ id', r.2 = Val id' → id' = id.

Lemma stores_nothing_lift {A} (r : res A) (k : A → M (V property_set * D) Z) t d id :
  (∀ a, r = Val a → stores_nothing t id (k a (t, d))) → stores_nothing t id ((lift_res r ≫= k) (t, d)).
Proof. intros H. unfold mbind, M_bind, lift_res. destruct r; [by apply H|done]. Qed.
Lemma stores_nothing_snd {A} (m : M D A) (k : A → M (V property_set * D) Z) t d id :
  (∀ a d', stores_nothing t id (k a (t, d'))) → stores_nothing t id ((on_snd m ≫= k) (t, d)).
Proof. intros H. unfold mbind, M_bind, on_snd. simpl. destruct (m d) as [d' [a|e]]; [apply H|done]. Qed.

Lemma empty_tail_loop nid keys types values t todo :
  last values = Some [] → length values = length keys →
  ∀ i pil pidx next d, (i + todo = length keys)%nat →
  (pidx + length (filter (λ v : str, v ≠ []) (drop i values)) < 3)%nat →
  stores_nothing t next
    (append_strings_loop ptime_of_date time_from_string junk nid keys types values todo i pil pidx next (t, d)).
Proof.
  intros Hlast Hlen. induction todo as [|todo IH]; intros i pil pidx next d Hi Hc; simpl.
  { split; [done|]. by intros id [= <-]. }
  apply stores_nothing_lift. unfold vec_ix. intros v. destruct (values !! i) as [v'|] eqn:Ev; [|done]. intros [= ->].
  rewrite (drop_S _ _ _ Ev), filter_cons in Hc. case_bool_decide as Hv.
  { apply IH; [lia|]. by rewrite decide_False in Hc by auto. }
  rewrite decide_True in Hc by done. simpl in Hc.
  assert (i ≠ length keys - 1)%nat as Hne.
  { intros ->. rewrite last_lookup, Hlen, <-Nat.sub_1_r, Ev in Hlast. by injection Hlast. }
  apply stores_nothing_lift. intros k _. apply stores_nothing_lift. intros tc _. apply stores_nothing_snd. intros it d'.
  rewrite !bool_decide_eq_false_2 by lia. apply IH; lia.
Qed.

(** The import of a typed row keeps properties back until it has three of
    them or reaches the last column, and passes over empty fields before that
    test: when the last field is empty and fewer than three others are not, no
    property of the row is stored, and the list of the object stays empty. *)
Theorem empty_last_field_loses nid keys types values t d :
  last values = Some [] → length values = length keys →
  (length (filter (λ v : str, v ≠ []) values) < 3)%nat →
  stores_nothing t UNKNOWN (append_typed_strings ptime_of_date time_from_string junk nid keys types values (t, d)).
Proof. intros Hl Hn Hc. unfold append_typed_strings. apply empty_tail_loop; [done..|lia|]. by rewrite drop_0. Qed.
End rows.

(** ** Files *)
Section files.
Context {V : Type → Type} `{!Vec V} `{!VecScan V} {D : Type} `{!Dictionary D} {X : Type} `{!Indexes X}.
Variables (ptime_of_date time_from_string : str → res Z) (junk : Z).
Notation import_st := (@import_st V D X).

(** The ends of a relationship come from the first two fields of its row. *)
Lemma connected_take2 (a b c d : str) (row row' : list str) (s : import_st) :
  take 2 row = take 2 row' → get_connected_node_ids a b c d row s = get_connected_node_ids a b c d row' s.
Proof.
  intros H. assert (∀ i, (i < 2)%nat → row !! i = row' !! i) as Hi.
  { intros i Hi. by rewrite <-(lookup_take_lt row 2 i Hi), H, lookup_take_lt. }
  unfold get_connected_node_ids, vec_ix. by rewrite (Hi 0%nat), (Hi 1%nat) by lia.
Qed.

(** Once a typed import has its first relationship, the rows that follow
    contribute nothing but their ends: whatever is in their other fields, the
    import does the same, and every relationship gets the types and the values
    of the first row. *)
Theorem typed_rows_repeat_first label_code src dest names num types values (rows rows' : list (list str)) (s : import_st) :
  2 ≤ num → Forall2 (λ r r', take 2 r = take 2 r') rows rows' →
  import_typed_rship_rows ptime_of_date time_from_string junk label_code src dest names num types values rows s
  = import_typed_rship_rows ptime_of_date time_from_string junk label_code src dest names num types values rows' s.
Proof.
  intros Hn H. revert num Hn s. induction H as [|r r' rows rows' Hr _ IH]; intros num Hn s; [done|]. simpl.
  rewrite bool_decide_eq_false_2 by lia. unfold mbind, M_bind. rewrite (connected_take2 _ _ _ _ _ _ s Hr).
  destruct (get_connected_node_ids _ _ _ _ r' s) as [s1 [ends|e]]; [|done]. simpl.
  destruct (lock_mtx s1) as [s2 [[]|e]]; [|done].
  destruct (catch_std _ _ s2) as [s3 [[]|e]]; [|by apply IH|done].
  apply IH. lia.
Qed.
End files.
