(* ===== verification/QueryFacts.v ===== *)
(** * QueryFacts: what the scans of the query context deliver

    A loop over a vector is a loop over the ids of its records, also while the
    body reads the records ([scan_sim]).  From this follow what [nodes] and
    [nodes_by_label] deliver, and when they fail. *)

From Stdlib Require Import Sorting.Sorted.
From S2P Require Import Prelude VecSpec DictSpec IndexSpec Literals Property PropertyList.
From S2P Require Import Txn Mvto GraphState GraphOps GraphIndex GraphCommit GraphFacts GraphIndexFacts GraphNodes QueryCtx.

(** ** Vectors with the same records *)
Section same.
Context {V : Type → Type} `{!Vec V} `{!VecScan V} {T : Type}.
Implicit Types v : V T.

(** Reading through a reference writes the record back unchanged. *)
Record same_records v v' : Prop := {
  sr_rd : vec_rd v';
  sr_get j : vec_get v' j = vec_get v j;
  sr_at j : vec_at v' j = vec_at v j;
  sr_next l : vec_next v' l = vec_next v l;
  sr_chunks : vec_chunks v' = vec_chunks v;
  sr_range first last : vec_range v' first last = vec_range v first last;
  sr_incr it : rng_incr v' it = rng_incr v it
}.
Lemma same_records_refl v : vec_rd v → same_records v v.
Proof. by split. Qed.
#[export] Instance same_records_trans : Transitive same_records.
Proof. intros v1 v2 v3 [] []. split; congruence. Qed.

Lemma write_same v id l o : vec_rd v → vec_at v id = Val l → vec_get v id = Some o → 0 ≤ id →
  same_records v (vec_write l o v).
Proof.
  intros Hrd Hl Ho Hid. destruct (vec_write_ok v id l o Hrd Hid Hl) as (H1 & _ & _ & H2 & H3).
  destruct (vec_write_scan v id l o Hrd Hid Hl) as (_ & H4 & _).
  destruct (vec_write_range v id l o Hrd Hid Hl) as (H5 & H6 & H7).
  split; [done| |done..]. intros j. rewrite H2. by destruct (decide (j = id)) as [->|].
Qed.
End same.

Section scan.
Context {V : Type → Type} `{!Vec V} `{!VecScan V} {D : Type} `{!Dictionary D} {X : Type} `{!Indexes X}.
Notation db := (gdb V D X).
Implicit Types (g : db) (t : nobj).

Lemma loc_do_same {B A} (v : V (tobj B pitems)) id l (t : tobj B pitems) (m : M (tobj B pitems) A) :
  vec_rd v → vec_at v id = Val l → vec_get v id = Some t → (m t).1 = t →
  ∃ v', loc_do l m v = (v', (m t).2) ∧ same_records v v'.
Proof.
  intros Hrd Hl Ht Hm. destruct (vec_get_bounds _ _ _ Hrd Ht) as [Hid _].
  destruct (vec_at_Some v id t Hrd Ht) as (l' & Hl' & Hr). rewrite Hl in Hl'. injection Hl' as <-.
  unfold loc_do. rewrite Hr. destruct (m t) as [t' r]. simpl in Hm. subst t'. exists (vec_write l t v).
  split; [done|]. by eapply write_same.
Qed.

(** ** Loops

    [Rep γ s]: [s] is a state of the loop whose consumer has done [γ]. *)
Section loop.
Context {A G : Type} (g0 : db) (Rep : G → db * A → Prop).
Hypothesis Hrd : vec_rd (nodes_ g0).
Hypothesis Hrep : ∀ γ s, Rep γ s → same_records (nodes_ g0) (nodes_ s.1).
Hypothesis Hwrite : ∀ γ g a v, Rep γ (g, a) → same_records (nodes_ g) v → Rep γ (set_nodes v g, a).

(** A computation that does what another one does on [γ]. *)
Definition sim {C} (m : M (db * A) C) (n : M G C) : Prop :=
  ∀ γ s, Rep γ s → ∃ s', m s = (s', (n γ).2) ∧ Rep (n γ).1 s'.

Lemma qsim_bind_val {C C'} (m : M (db * A) C) n (k : C → M (db * A) C') k' :
  sim m n → (∀ c γ γ', n γ = (γ', Val c) → sim (k c) (k' c)) → sim (m ≫= k) (n ≫= k').
Proof.
  intros Hm Hk γ s HR. destruct (Hm γ s HR) as (s1 & E1 & HR1).
  unfold mbind, M_bind. rewrite E1. destruct (n γ) as [γ1 [c|e]] eqn:En; simpl in *; [by eapply Hk|by exists s1].
Qed.
Lemma qsim_bind {C C'} (m : M (db * A) C) n (k : C → M (db * A) C') k' :
  sim m n → (∀ c, sim (k c) (k' c)) → sim (m ≫= k) (n ≫= k').
Proof. intros Hm Hk. apply qsim_bind_val; auto. Qed.
Lemma sim_ext {C} (m : M (db * A) C) n n' : (∀ γ, n' γ = n γ) → sim m n → sim m n'.
Proof. intros E Hm γ s HR. rewrite E. by apply Hm. Qed.
Lemma qsim_ret {C} (c : C) : sim (mret c) (mret c).
Proof. intros γ s HR. by exists s. Qed.
Lemma qsim_when b m n : sim m n → sim (when b m) (when b n).
Proof. intros H. destruct b; [done|apply qsim_ret]. Qed.
Lemma sim_try {C} (m m' : M (db * A) C) n n' e : sim m n → sim m' n' → sim (try_catch m e m') (try_catch n e n').
Proof.
  intros Hm Hm' γ s HR. destruct (Hm γ s HR) as (s1 & E1 & HR1). unfold try_catch. rewrite E1.
  destruct (n γ) as [γ1 [c|e']]; simpl in *; [by exists s1|]. case_bool_decide; [by apply Hm'|by exists s1].
Qed.

(** A body that does at the record of each id what [step] does. *)
Definition body_sim (body : loc → M (db * A) unit) (step : Z → M G unit) : Prop :=
  ∀ id l t, vec_get (nodes_ g0) id = Some t → vec_at (nodes_ g0) id = Val l → sim (body l) (step id).

Lemma loop_sim body step ids ls : body_sim body step →
  (∀ id, id ∈ ids → is_Some (vec_get (nodes_ g0) id)) →
  Forall2 (λ id l, vec_at (nodes_ g0) id = Val l) ids ls →
  (∀ i l, ls !! i = Some l → vec_next (nodes_ g0) l = Val (ls !! S i)) →
  ∀ fuel γ s, Rep γ s → (length ids ≤ fuel)%nat →
  ∃ s', vec_loop nodes_ body fuel (head ls) s = (s', (for_each step ids γ).2) ∧ Rep (for_each step ids γ).1 s'.
Proof.
  intros Hb. intros Hin HF. induction HF as [|id l ids ls Hl HF IH]; intros Hnext fuel γ s HR Hf.
  - exists s. by destruct fuel.
  - destruct fuel as [|fuel]; simpl in Hf; [lia|]. cbn [head vec_loop]. rewrite for_each_cons.
    destruct (Hin id) as [t Ht]; [by left|].
    destruct (Hb id l t Ht Hl γ s HR) as (s1 & E1 & HR1). destruct (step id γ) as [γ1 [[]|e]] eqn:Es; simpl in E1, HR1.
    + rewrite (bind_val _ _ _ _ _ E1), (bind_val _ _ _ _ _ Es).
      rewrite (bind_val get_st _ s1 s1 s1) by done.
      rewrite (sr_next _ _ (Hrep _ _ HR1)), (Hnext 0%nat l) by done.
      rewrite (bind_val (lift_res (Val _)) _ s1 s1 (ls !! 0%nat)) by done. rewrite <-head_lookup.
      apply IH; [|..|done|lia].
      * intros j Hj. apply Hin. by right.
      * intros i l' Hi. by apply (Hnext (S i)).
    + rewrite (bind_exn _ _ _ _ _ E1), (bind_exn _ _ _ _ _ Es). by exists s1.
Qed.

Lemma scan_sim body step γ s : body_sim body step → vec_dense (nodes_ g0) → Rep γ s → nodes_ s.1 = nodes_ g0 →
  ∃ ids s', StronglySorted Z.lt ids ∧ (∀ id, id ∈ ids ↔ is_Some (vec_get (nodes_ g0) id))
    ∧ for_vec nodes_ body s = (s', (for_each step ids γ).2) ∧ Rep (for_each step ids γ).1 s'.
Proof.
  intros Hb Hd HR Es. destruct (vec_scan_ok _ Hrd Hd) as (ids & ls & Hs & Hin & HF & Hbeg & Hnext).
  exists ids. unfold for_vec. rewrite (bind_val get_st _ s s s) by done. cbv zeta. rewrite Es.
  rewrite Hbeg.
  destruct (loop_sim body step ids ls Hb (λ id, proj1 (Hin id)) HF Hnext
    (Z.to_nat (vec_capacity (nodes_ g0))) γ s HR) as (s' & E & HR').
  { apply bounded_NoDup.
    - clear -Hs. induction Hs as [|a l _ IH Ha]; constructor; [|done].
      intros Hin. rewrite Forall_forall in Ha. specialize (Ha a Hin). lia.
    - intros id [t Ht]%Hin. by eapply vec_get_bounds. }
  exists s'. split_and!; [done|done|exact E|done].
Qed.

(** *** Reading the record *)
Lemma qsim_at {C} id l t (m : M nobj C) : vec_get (nodes_ g0) id = Some t → vec_at (nodes_ g0) id = Val l → (m t).1 = t →
  sim (on_fst (on_nodes (loc_do l m))) (lift_res (m t).2).
Proof.
  intros Ht Hl Hm γ [g a] HR. pose proof (Hrep _ _ HR) as [Hrd' Hget Hat _]. simpl in *.
  destruct (loc_do_same (nodes_ g) id l t m) as (v & E & Hv); [done|by rewrite Hat|by rewrite Hget|done|].
  exists (set_nodes v g, a). unfold on_fst, on_nodes. cbn [fst snd].
  rewrite E. split; [done|]. by eapply Hwrite.
Qed.
Lemma sim_ref {C} id t (m : M nobj C) : vec_get (nodes_ g0) id = Some t → (m t).1 = t →
  sim (on_fst (at_node id m)) (lift_res (m t).2).
Proof.
  intros Ht Hm γ [g a] HR. pose proof (Hrep _ _ HR) as [Hrd' Hget Hat _]. simpl in *.
  destruct (tab_get_loc (nodes_ g) id t) as (l & El & El' & _); [done|by rewrite Hget|].
  destruct (qsim_at id l t m Ht ltac:(by rewrite <-Hat) Hm γ (g, a) HR) as (s' & E & HR').
  exists s'. split; [|done]. etrans; [|exact E]. unfold on_fst, at_node, on_nodes, tab_do, loc_do. cbn [fst snd].
  by rewrite El.
Qed.

(** *** Scans whose consumer does what [cstep] does *)
Context (c : oref → M (db * A) unit) (cstep : oref → M G unit) (x : Z).
Hypothesis Hc : ∀ n t, vec_get (nodes_ g0) n.1 = Some t → sim (c n) (cstep n).
Hypothesis Hids : ∀ id t, vec_get (nodes_ g0) id = Some t → node_id_ (body_ (main_ t)) = id.

(** The version [x] reads and its fields. *)
Definition version_of (t : nobj) : res vref := (get_valid_version x t).2.
Definition nodes_step (id : Z) : M G unit :=
  match vec_get (nodes_ g0) id with
  | None => mret tt
  | Some t => when (is_valid (main_ t)) (try_catch (r ← lift_res (version_of t); cstep (id, r)) unknown_id (mret tt))
  end.
Definition label_step (test : Z → bool) (id : Z) : M G unit :=
  match vec_get (nodes_ g0) id with
  | None => mret tt
  | Some t => when (is_valid (main_ t))
                (r ← lift_res (version_of t); o ← lift_res (self r t).2;
                 when (test (node_label (body_ o))) (cstep (id, r)))
  end.

Lemma sim_version id l t : vec_get (nodes_ g0) id = Some t → vec_at (nodes_ g0) id = Val l →
  sim (get_valid_node_version l x) (r ← lift_res (version_of t); mret (id, r)).
Proof.
  intros Ht Hl γ s HR. unfold get_valid_node_version, node_at.
  destruct (qsim_at id l t get_st Ht Hl eq_refl γ s HR) as (s1 & E1 & HR1). rewrite (bind_val _ _ _ _ _ E1).
  rewrite (Hids _ _ Ht). clear E1 HR s. revert γ s1 HR1.
  apply qsim_bind; [|intros r; apply qsim_ret]. apply (qsim_at id l t); [done..|]. apply get_valid_version_state.
Qed.
Lemma self_state r t : (self r t).1 = t.
Proof. unfold self. by destruct (deref t r). Qed.

Lemma nodes_body id l t : vec_get (nodes_ g0) id = Some t → vec_at (nodes_ g0) id = Val l →
  sim (t ← node_at l; when (is_valid (main_ t))
         (try_catch (nv ← get_valid_node_version l x; c nv) unknown_id (mret tt))) (nodes_step id).
Proof.
  intros Ht Hl γ s HR. unfold node_at, nodes_step. rewrite Ht.
  destruct (qsim_at id l t get_st Ht Hl eq_refl γ s HR) as (s1 & E1 & HR1). rewrite (bind_val _ _ _ _ _ E1).
  clear E1 HR s. revert γ s1 HR1. apply qsim_when, sim_try; [|apply qsim_ret].
  apply (sim_ext _ ((r ← lift_res (version_of t); mret (id, r)) ≫= cstep)).
  { intros γ. by rewrite bind_assoc. }
  apply qsim_bind_val; [by apply sim_version|]. intros nv γ γ' E. apply (Hc _ t).
  apply bind_inv in E as (? & r & _ & [= _ <-]). done.
Qed.
Lemma label_body test id l t : vec_get (nodes_ g0) id = Some t → vec_at (nodes_ g0) id = Val l →
  sim (t ← node_at l; when (is_valid (main_ t))
         (nv ← get_valid_node_version l x; o ← on_fst (node_ref nv);
          when (test (node_label (body_ o))) (c nv))) (label_step test id).
Proof.
  intros Ht Hl γ s HR. unfold node_at, label_step. rewrite Ht.
  destruct (qsim_at id l t get_st Ht Hl eq_refl γ s HR) as (s1 & E1 & HR1). rewrite (bind_val _ _ _ _ _ E1).
  clear E1 HR s. revert γ s1 HR1. apply qsim_when.
  apply (sim_ext _ ((r ← lift_res (version_of t); mret (id, r)) ≫= λ nv : oref,
    o ← lift_res (self nv.2 t).2; when (test (node_label (body_ o))) (cstep nv))).
  { intros γ. by rewrite bind_assoc. }
  apply qsim_bind_val; [by apply sim_version|]. intros nv γ γ' E.
  assert (nv.1 = id) as Hnv.
  { apply bind_inv in E as (? & r & _ & [= _ <-]). done. }
  unfold node_ref. rewrite Hnv. apply qsim_bind; [|intros o; apply qsim_when, (Hc _ t); by rewrite Hnv].
  apply (sim_ref id t); [done|apply self_state].
Qed.
End loop.

(** ** What the scans deliver *)

(** A consumer that notes the references it gets. *)
Definition collect (n : oref) : M (db * list oref) unit := λ s, ((s.1, s.2 ++ [n]), Val tt).
Definition note (n : oref) : M (list oref) unit := λ l, (l ++ [n], Val tt).
Definition same_nodes g (γ : list oref) (s : db * list oref) : Prop :=
  same_records (nodes_ g) (nodes_ s.1) ∧ s = (set_nodes (nodes_ s.1) g, γ).

Lemma same_nodes_write g γ g' a v : same_nodes g γ (g', a) → same_records (nodes_ g') v → same_nodes g γ (set_nodes v g', a).
Proof. intros [H1 [= -> ->]] H2. split; [by eapply same_records_trans|done]. Qed.
Lemma collect_note g n : sim (same_nodes g) (collect n) (note n).
Proof. intros γ s [H1 E]. exists (s.1, s.2 ++ [n]). split; [done|]. rewrite E. by split. Qed.

Lemma version_deref x t r : version_of x t = Val r → ∃ o, (self r t).2 = Val o.
Proof.
  assert (∀ o d, find_valid_version t o x = Val d → ∃ o, (self (Dirty (addr_ d)) t).2 = Val o) as Hfind.
  { intros o d. unfold find_valid_version. case_match; [|done]. intros (Hin & _)%find_valid_sound.
    unfold self, deref, at_addr.
    destruct (list_find (λ e, addr_ e = addr_ d) (versions t)) as [[i e]|] eqn:E; [by eexists|].
    exfalso. rewrite list_find_None, Forall_forall in E. by apply (E d). }
  unfold version_of, get_valid_version, mbind, res_bind. repeat case_match; try done; simpl; intros [= <-];
    try (by eapply Hfind); by eexists.
Qed.

(** The tables in order, and what every transaction can read of a node that is
    not deleted: a version, or the exception for unknown ids. *)
Record scannable g x : Prop := {
  sc_rd : vec_rd (nodes_ g);
  sc_dense : vec_dense (nodes_ g);
  sc_ids id t : vec_get (nodes_ g) id = Some t → node_id_ (body_ (main_ t)) = id;
  sc_version id t : vec_get (nodes_ g) id = Some t → is_valid (main_ t) = true →
    (∃ r, version_of x t = Val r) ∨ version_of x t = Exn unknown_id
}.

(** The reference a scan delivers for an id. *)
Definition scan_ref g x (id : Z) : option oref :=
  t ← vec_get (nodes_ g) id;
  if is_valid (main_ t) then match version_of x t with Val r => Some (id, r) | Exn _ => None end else None.

Lemma scan_ref_fst g x id n : scan_ref g x id = Some n → n.1 = id.
Proof. unfold scan_ref, mbind, option_bind. repeat case_match; naive_solver. Qed.
Lemma omap_sorted g x ids : StronglySorted Z.lt ids → StronglySorted Z.lt (omap (scan_ref g x) ids).*1.
Proof.
  induction 1 as [|id ids _ IH Hid]; [constructor|]. simpl.
  destruct (scan_ref g x id) as [n|] eqn:E; [|done]. rewrite fmap_cons. constructor; [done|].
  rewrite (scan_ref_fst _ _ _ _ E). apply Forall_forall. intros j (m & -> & Hm)%list_elem_of_fmap.
  apply list_elem_of_omap in Hm as (i & Hi & Em). rewrite (scan_ref_fst _ _ _ _ Em).
  rewrite Forall_forall in Hid. by apply Hid.
Qed.

Lemma nodes_steps g x ids γ : scannable g x →
  for_each (nodes_step g note x) ids γ = (γ ++ omap (scan_ref g x) ids, Val tt).
Proof.
  intros [_ _ _ Hv]. revert γ. induction ids as [|id ids IH]; intros γ; [by rewrite app_nil_r|].
  rewrite for_each_cons. cbn [omap list_omap].
  assert (nodes_step g note x id γ = (γ ++ option_list (scan_ref g x id), Val tt)) as E.
  { unfold nodes_step, scan_ref, mbind, option_bind. destruct (vec_get (nodes_ g) id) as [t|] eqn:Ht;
      [|simpl; by rewrite app_nil_r]. destruct (is_valid (main_ t)) eqn:Ev; simpl; [|by rewrite app_nil_r].
    unfold try_catch, M_bind, lift_res. destruct (Hv id t Ht Ev) as [[r ->]| ->]; [done|].
    by rewrite bool_decide_eq_true_2, app_nil_r. }
  rewrite (bind_val _ _ _ _ _ E), IH. destruct (scan_ref g x id); simpl; by rewrite <-?app_assoc.
Qed.

Lemma scan_txid_ok {A} g tx (a : A) : current_transaction_ g = Some tx → scan_txid (g, a) = ((g, a), Val (xid_ tx)).
Proof.
  intros E. unfold scan_txid, on_fst. cbn [fst snd]. rewrite (bind_val _ _ _ _ _ (check_tx_ok _ _ E)).
  by rewrite (tx_xid_ok _ _ E).
Qed.

Lemma nodes_run g tx : current_transaction_ g = Some tx → scannable g (xid_ tx) →
  ∃ ids v', nodes collect (g, []) = ((set_nodes v' g, omap (scan_ref g (xid_ tx)) ids), Val tt)
    ∧ same_records (nodes_ g) v' ∧ StronglySorted Z.lt ids
    ∧ ∀ id, id ∈ ids ↔ is_Some (vec_get (nodes_ g) id).
Proof.
  intros Htx Hsc. unfold nodes. rewrite (bind_val _ _ _ _ _ (scan_txid_ok g tx [] Htx)).
  destruct (scan_sim g (same_nodes g) (sc_rd _ _ Hsc) (λ γ s H, proj1 H)
    (λ l, t ← node_at l; when (is_valid (main_ t))
       (try_catch (nv ← get_valid_node_version l (xid_ tx); collect nv) unknown_id (mret tt)))
    (nodes_step g note (xid_ tx)) [] (g, []))
    as (ids & s' & Hs & Hin & E & [Hsame Es]).
  - intros id l t Ht Hl. apply (nodes_body g (same_nodes g) (λ γ s H, proj1 H)
      (same_nodes_write g) collect note (xid_ tx) (λ n _ _, collect_note g n) (sc_ids _ _ Hsc) id l t Ht Hl).
  - apply Hsc.
  - split; [apply same_records_refl, Hsc|]. by destruct g.
  - done.
  - rewrite (nodes_steps g _ _ _ Hsc) in E, Es. exists ids, (nodes_ s'.1). split_and!; [|done..].
    etrans; [exact E|]. f_equal. exact Es.
Qed.

(** C6: a scan of the nodes, on a table without empty chunks and when no read of
    a node aborts the transaction, delivers, in the order of the ids and each once,
    exactly the nodes that are not deleted and of which the transaction can
    read a version, with that version, and leaves the nodes as they were. *)
Theorem nodes_delivers g tx :
  current_transaction_ g = Some tx → scannable g (xid_ tx) →
  ∃ v' refs, nodes collect (g, []) = ((set_nodes v' g, refs), Val tt)
    ∧ (∀ j, vec_get v' j = vec_get (nodes_ g) j)
    ∧ StronglySorted Z.lt refs.*1
    ∧ ∀ id r, (id, r) ∈ refs ↔ ∃ t, vec_get (nodes_ g) id = Some t ∧ is_valid (main_ t) = true
                                    ∧ version_of (xid_ tx) t = Val r.
Proof.
  intros Htx Hsc. destruct (nodes_run g tx Htx Hsc) as (ids & v' & E & Hsame & Hs & Hin).
  exists v', (omap (scan_ref g (xid_ tx)) ids). split; [done|]. split; [apply Hsame|].
  split; [by apply omap_sorted|]. intros id r. rewrite list_elem_of_omap. split.
  - intros (i & Hi & Ei). pose proof (scan_ref_fst _ _ _ _ Ei) as <-. cbn [fst] in *. revert Ei.
    unfold scan_ref, mbind, option_bind. destruct (vec_get _ _) as [t|]; [|done].
    destruct (is_valid (main_ t)) eqn:Ev; [|done]. destruct (version_of _ t) as [r'|] eqn:Er; [|done].
    intros [= <-]. by exists t.
  - intros (t & Ht & Ev & Er). exists id. split; [apply Hin; by eexists|].
    unfold scan_ref, mbind, option_bind. by rewrite Ht, Ev, Er.
Qed.

(** ** Where the scans and the reads by id differ *)
Lemma label_steps_fail g x test ids γ : scannable g x →
  (∃ id t, id ∈ ids ∧ vec_get (nodes_ g) id = Some t ∧ is_valid (main_ t) = true ∧ version_of x t = Exn unknown_id) →
  (for_each (label_step g note x test) ids γ).2 = Exn unknown_id.
Proof.
  intros [_ _ _ Hv] (id & t & Hin & Ht & Ev & Er). revert γ. induction ids as [|i ids IH]; intros γ;
    [by apply elem_of_nil in Hin|]. rewrite for_each_cons.
  assert ((∃ γ', label_step g note x test i γ = (γ', Val tt)) ∧ i ≠ id ∨ (label_step g note x test i γ).2 = Exn unknown_id)
    as [[[γ' E] Hi]|E].
  - unfold label_step. destruct (vec_get (nodes_ g) i) as [u|] eqn:Hu.
    + destruct (is_valid (main_ u)) eqn:Eu; simpl; [|left; split; [by eexists|congruence]].
      unfold mbind, M_bind, lift_res. destruct (Hv i u Hu Eu) as [[r Er']|Er']; rewrite Er'; [|by right].
      destruct (version_deref _ _ _ Er') as [o ->]. left. split; [|congruence].
      destruct (test _); by eexists.
    + left. split; [by eexists|congruence].
  - rewrite (bind_val _ _ _ _ _ E). apply IH. apply elem_of_cons in Hin as [|]; congruence.
  - unfold mbind, M_bind. by destruct (label_step g note x test i γ) as [γ' [[]|e]].
Qed.

Lemma version_added x y b l : x ≠ y → y ≠ 0 → version_of x (added y b l) = Exn unknown_id.
Proof.
  intros Hx Hy. unfold version_of, get_valid_version, is_locked_by, is_locked, find_valid_version, added. simpl.
  rewrite bool_decide_eq_false_2 by done. rewrite bool_decide_eq_true_2 by done. simpl.
  unfold is_locked, is_locked_by. simpl. rewrite bool_decide_eq_true_2 by done. by rewrite bool_decide_eq_false_2.
Qed.

(** As long as another transaction has a new node that is not committed, a
    scan for a label, whatever label, ends with the exception for unknown ids,
    while the scan of all nodes passes that node over. *)
Theorem label_scan_fails g tx label id y b l :
  current_transaction_ g = Some tx → scannable g (xid_ tx) →
  vec_get (nodes_ g) id = Some (added y b l) → xid_ tx ≠ y → y ≠ 0 →
  (∃ s, nodes_by_label label collect (g, []) = (s, Exn unknown_id))
  ∧ ∃ s, nodes collect (g, []) = (s, Val tt).
Proof.
  intros Htx Hsc Ht Hx Hy. split.
  2:{ destruct (nodes_run g tx Htx Hsc) as (ids & v & E & _). eexists. exact E. }
  unfold nodes_by_label. rewrite (bind_val _ _ _ _ _ (scan_txid_ok g tx [] Htx)).
  set (lc := d_lookup_string (dict_ g) label). pose (test := λ c : Z, bool_decide (c = lc)).
  rewrite (bind_val (on_fst (get_code label)) _ (g, []) (g, []) lc) by done.
  destruct (scan_sim g (same_nodes g) (sc_rd _ _ Hsc) (λ γ s H, proj1 H)
    (λ l, t ← node_at l; when (is_valid (main_ t))
       (nv ← get_valid_node_version l (xid_ tx); o ← on_fst (node_ref nv);
        when (bool_decide (node_label (body_ o) = lc)) (collect nv)))
    (label_step g note (xid_ tx) test) [] (g, []))
    as (ids & s' & Hs & Hin & E & _).
  - intros i l' t Ht' Hl'. apply (label_body g (same_nodes g) (λ γ s H, proj1 H)
      (same_nodes_write g) collect note (xid_ tx) (λ n _ _, collect_note g n) (sc_ids _ _ Hsc) test i l' t Ht' Hl').
  - apply Hsc.
  - split; [apply same_records_refl, Hsc|]. by destruct g.
  - done.
  - rewrite label_steps_fail in E; [by exists s'|done|]. exists id, (added y b l). split_and!; [|done|done|].
    + apply Hin. by eexists.
    + by apply version_added.
Qed.

(** A transaction that started before a delete was committed still reads
    the node by its id, but a scan does not deliver it any more: it leaves out
    every node whose end of validity is set, whoever asks. *)
Theorem scan_misses_deleted g tx id t :
  let o := main_ t in
  current_transaction_ g = Some tx → scannable g (xid_ tx) → xid_ tx ≠ 0 →
  vec_get (nodes_ g) id = Some t → d_ o = Some false → txn_id_ o = 0 →
  bts_ o ≤ xid_ tx → xid_ tx < cts_ o → cts_ o ≠ INF →
  (∃ g', node_by_id id g = (g', Val (id, Main)))
  ∧ ∃ s refs, nodes collect (g, []) = ((s, refs), Val tt) ∧ id ∉ refs.*1.
Proof.
  intros o Htx Hsc Hx0 Ht Hd Hl Hb Hc Hinf. split.
  - unfold node_by_id. rewrite (bind_val _ _ _ _ _ (check_tx_ok _ _ Htx)), (bind_val _ _ _ _ _ (tx_xid_ok _ _ Htx)).
    assert ((fetch (xid_ tx) t).2 = Val Main) as Ef.
    { rewrite (fetch_eq _ _ false Hd). unfold get_valid_version, is_locked_by, is_locked, is_valid_for.
      cbn [set_main main_]. unfold set_rts. destruct o as [ti bt ct rt d b] eqn:Eo. unfold o in Eo. rewrite Eo.
      simpl in *. subst ti d. destruct (bool_decide (rt < xid_ tx)); simpl;
        rewrite (bool_decide_eq_false_2 (0 = xid_ tx)) by congruence; rewrite (bool_decide_eq_true_2 (_ ∧ _)) by lia; done. }
    destruct (fetch (xid_ tx) t) as [t' r] eqn:E. simpl in Ef. subst r.
    destruct (at_node_step g id t _ _ _ (sc_rd _ _ Hsc) Ht E) as (g' & E' & _). exists g'.
    by rewrite (bind_val _ _ _ _ _ E').
  - destruct (nodes_run g tx Htx Hsc) as (ids & v & E & _). eexists _, _. split; [exact E|].
    intros (n & Hn & Hin)%list_elem_of_fmap. apply list_elem_of_omap in Hin as (i & _ & Ei).
    pose proof (scan_ref_fst _ _ _ _ Ei) as Hi. rewrite <-Hn in Hi. subst i. revert Ei.
    unfold scan_ref, mbind, option_bind. rewrite Ht. unfold is_valid. fold o.
    by rewrite bool_decide_eq_false_2.
Qed.
End scan.
