(* ===== verification/ParallelFacts.v ===== *)
(** * ParallelFacts: what a scan by several threads delivers

    Whatever the schedule, the tasks of a parallel scan visit disjoint ranges
    of the table.  The work that is left over is a list of ids for each task and
    one for the ranges that nobody has yet; a step of the schedule moves ids from
    there to what has been delivered. *)

From Stdlib Require Import Sorting.Sorted.
From S2P Require Import Prelude VecSpec DictSpec IndexSpec Literals Property PropertyList.
From S2P Require Import Txn Mvto GraphState GraphOps QueryCtx GraphFacts GraphNodes QueryFacts.

(** ** The pool *)
Section pool.
Context {V : Type → Type} `{!Vec V} `{!VecScan V} {D : Type} `{!Dictionary D} {X : Type} `{!Indexes X}.
Context {T A R : Type}.
Notation db := (gdb V D X).
Notation st := (db * A)%type.
Variables (table : db → V T) (body : loc → M st unit) (v : V T) (Rep : list R → st → Prop) (ref : Z → option R).

(** Consumers leave the table as it is, and add what an id stands for. *)
Hypothesis Hrd : vec_rd v.
Hypothesis Hrep : ∀ γ s, Rep γ s → same_records v (table s.1).
Hypothesis Hbody : ∀ id t l γ s, vec_get v id = Some t → vec_at v id = Val l → Rep γ s →
  ∃ s', body l s = (s', Val tt) ∧ Rep (γ ++ option_list (ref id)) s'.
(** The first record of each range is in use. *)
Definition starts_used : Prop := ∀ k, (k * CHUNKS_PER_THREAD < vec_chunks v)%nat →
  is_Some (vec_get v (Z.of_nat (k * CHUNKS_PER_THREAD) * Z.of_nat vec_chunk)).
Hypothesis Hstarts : starts_used.

(** The iterator [it] will visit [ids]. *)
Inductive runs : rng V → list Z → Prop :=
  | runs_end e : rng_valid e = false → runs e []
  | runs_step it it' id ids t : rng_valid it = true → vec_get v id = Some t → vec_at v id = Val (rng_loc it) →
      rng_incr v it = Val it' → runs it' ids → runs it (id :: ids).

Definition in_range (first last id : Z) : Prop :=
  first * Z.of_nat vec_chunk ≤ id < (last + 1) * Z.of_nat vec_chunk ∧ is_Some (vec_get v id).

Lemma range_runs first last : (first < vec_chunks v)%nat → (first ≤ last)%nat →
  is_Some (vec_get v (Z.of_nat first * Z.of_nat vec_chunk)) →
  ∃ it ids, vec_range v first last = Val it ∧ runs it ids ∧ StronglySorted Z.lt ids
    ∧ ∀ id, id ∈ ids ↔ in_range (Z.of_nat first) (Z.of_nat last) id.
Proof.
  intros Hf Hl Hs. destruct (vec_range_ok v first last Hrd Hf Hl Hs)
    as (its & ids & ls & e & E & He & Hsort & Hin & HF & HF2 & Hn).
  exists (default e (head its)), ids. split; [done|].
  assert (∀ id, id ∈ ids → is_Some (vec_get v id)) as Hget by (by intros id [_ ?]%Hin).
  split; [|split; [done|intros id; rewrite Hin; unfold in_range; by replace (Z.of_nat last + 1) with (Z.of_nat (S last)) by lia]].
  clear -Hget HF HF2 Hn He. revert its HF2 Hn. induction HF as [|id l ids ls Hl _ IH]; intros its HF2 Hn.
  - inversion HF2. by constructor.
  - inversion HF2 as [|it ? its' ? [Hv Hloc] HF2']; subst. destruct (Hget id) as [t Ht]; [by left|].
    apply (runs_step _ (default e (head its')) _ _ t Hv Ht Hl).
    + rewrite (Hn 0%nat it) by done. by destruct its'.
    + apply IH; [intros; apply Hget; by right|done|]. intros i it' Hi. by apply (Hn (S i)).
Qed.

(** What a task still has to visit, and in how many steps. *)
Definition task_rep (t : scan_task) (ids : list Z) : Prop :=
  (length ids ≤ Z.to_nat (vec_capacity v))%nat ∧
  match t with
  | task_waiting first last => ∃ it, vec_range v first last = Val it ∧ runs it ids
  | task_running it => runs it ids
  | task_done => ids = []
  | task_failed _ => False
  end.
Definition weight (t : scan_task) (ids : list Z) : nat :=
  match t with task_waiting _ _ => length ids + 2 | task_running _ => length ids + 1 | _ => 0 end.

Lemma task_step_ok t ids γ s : task_rep t ids → Rep γ s →
  ∃ s' t' now ids', task_step table body t s = (s', Val t') ∧ ids = now ++ ids' ∧ task_rep t' ids'
    ∧ Rep (γ ++ omap ref now) s' ∧ weight t' ids' = (weight t ids - 1)%nat.
Proof.
  intros [Hlen Ht] HR. destruct t as [first last|it| |e]; simpl; [| | |done].
  - destruct Ht as (it & E & Hr). rewrite (sr_range _ _ (Hrep _ _ HR)), E.
    exists s, (task_running it), [], ids. cbn. rewrite app_nil_r. split_and!; [done..|lia].
  - destruct Ht as [e He|it it' id ids t Hv Hg Hl Hi Hr].
    + rewrite He. exists s, task_done, [], []. cbn. by rewrite app_nil_r.
    + rewrite Hv. destruct (Hbody id t _ γ s Hg Hl HR) as (s' & E & HR'). rewrite E.
      rewrite (sr_incr _ _ (Hrep _ _ HR')), Hi. exists s', (task_running it'), [id], ids. simpl in Hlen.
      split_and!; [done|done|split; [lia|done]| |simpl; lia]. cbn [omap list_omap]. destruct (ref id); exact HR'.
  - exists s, task_done, [], ids. cbn. rewrite app_nil_r. by split_and!.
Qed.

(** ** The invariant of a schedule *)

(** The ids from a chunk on. *)
Definition all_ids : list Z := filter (λ id, is_Some (vec_get v id)) (seqZ 0 (vec_capacity v)).
Definition ids_from (first : nat) : list Z := filter (λ id, Z.of_nat first * Z.of_nat vec_chunk ≤ id) all_ids.

Lemma elem_all_ids id : id ∈ all_ids ↔ is_Some (vec_get v id).
Proof.
  unfold all_ids. rewrite list_elem_of_filter, elem_of_seqZ. split; [tauto|]. intros [t Ht].
  split; [by eexists|]. pose proof (vec_get_bounds _ _ _ Hrd Ht). lia.
Qed.
Lemma all_ids_NoDup : NoDup all_ids.
Proof. apply NoDup_filter, NoDup_seqZ. Qed.
Lemma ids_from_end first : (vec_chunks v ≤ first)%nat → ids_from first = [].
Proof.
  intros Hf. destruct (ids_from first) as [|id l] eqn:E; [done|]. exfalso.
  assert (id ∈ ids_from first) as [H1 [t Ht]%elem_all_ids]%list_elem_of_filter by (rewrite E; by left).
  pose proof (vec_get_chunk _ _ _ Hrd Ht). nia.
Qed.
Lemma sorted_NoDup (l : list Z) : StronglySorted Z.lt l → NoDup l.
Proof.
  induction 1 as [|a l _ IH Ha]; constructor; [|done]. intros Hin. rewrite Forall_forall in Ha. specialize (Ha a Hin). lia.
Qed.
Lemma ids_from_split first ids : StronglySorted Z.lt ids →
  (∀ id, id ∈ ids ↔ in_range (Z.of_nat first) (Z.of_nat (first + CHUNKS_PER_THREAD - 1)) id) →
  ids_from first ≡ₚ ids ++ ids_from (first + CHUNKS_PER_THREAD).
Proof.
  intros Hs Hin. apply NoDup_Permutation; [apply NoDup_filter, all_ids_NoDup| |].
  - apply NoDup_app. split_and!; [by apply sorted_NoDup| |apply NoDup_filter, all_ids_NoDup].
    intros id [Hr _]%Hin [Hge _]%list_elem_of_filter. unfold CHUNKS_PER_THREAD in *. lia.
  - intros id. rewrite elem_of_app, Hin. unfold in_range, ids_from. rewrite !list_elem_of_filter, elem_all_ids.
    unfold CHUNKS_PER_THREAD. split; [|intros [[? ?]|[? ?]]; (split; [lia|done])].
    intros [H1 H2]. destruct (decide (Z.of_nat (first + 50) * Z.of_nat vec_chunk ≤ id)); [right|left]; (split; [lia|done]).
Qed.

Record pool_rep (sp : st * pool) (γ : list R) (todo : list (list Z)) : Prop := {
  pr_state : Rep γ sp.1;
  pr_tasks : Forall2 task_rep (tasks sp.2) todo;
  pr_start : start sp.2 = (length (tasks sp.2) * CHUNKS_PER_THREAD)%nat;
  pr_last : (start sp.2 < vec_chunks v + CHUNKS_PER_THREAD)%nat;
  pr_all : γ ++ omap ref (concat todo) ++ omap ref (ids_from (start sp.2)) ≡ₚ omap ref all_ids
}.

Lemma pool_rep_init s : Rep [] s → pool_rep (s, mk_pool [] 0) [] [].
Proof.
  intros HR. split; simpl; [done|constructor|done|unfold CHUNKS_PER_THREAD; lia|].
  f_equiv. unfold ids_from, all_ids. rewrite list_filter_filter_r; [done|]. intros id [t Ht].
  pose proof (vec_get_bounds _ _ _ Hrd Ht). lia.
Qed.

(** The steps a task still needs. *)
Definition steps_left (p : pool) (todo : list (list Z)) (i : nat) : nat :=
  match tasks p !! i, todo !! i with Some t, Some ids => weight t ids | _, _ => 0 end.

Lemma submit_ok sp γ todo : pool_rep sp γ todo →
  ∃ todo', pool_rep (pool_step table body None sp) γ todo'
    ∧ (vec_chunks v ≤ start (pool_step table body None sp).2 ∨ start sp.2 < start (pool_step table body None sp).2)%nat
    ∧ ((vec_chunks v ≤ start sp.2)%nat → pool_step table body None sp = sp ∧ todo' = todo).
Proof.
  intros [HR Ht Hst Hlast Hall]. destruct sp as [s p]. cbn [fst snd] in *. unfold pool_step, submit.
  rewrite (sr_chunks _ _ (Hrep _ _ HR)). destruct (Nat.ltb_spec (start p) (vec_chunks v)) as [Hlt|Hge]; cbn [fst snd].
  2:{ exists todo. split; [by split|]. split; [by left|done]. }
  destruct (range_runs (start p) (start p + CHUNKS_PER_THREAD - 1)) as (it & ids & E & Hr & Hs & Hin);
    [done|unfold CHUNKS_PER_THREAD; lia|rewrite Hst; apply Hstarts; lia|].
  exists (todo ++ [ids]). split; [|split; [right; simpl; unfold CHUNKS_PER_THREAD; lia|intros; lia]].
  split; cbn [fst snd tasks start]; [done|..].
  - apply Forall2_app; [done|]. constructor; [|constructor]. split; [|by exists it].
    apply bounded_NoDup; [by apply sorted_NoDup|]. intros id [_ [t Hg]]%Hin. by eapply vec_get_bounds.
  - rewrite Hst, length_app. simpl. lia.
  - lia.
  - rewrite <-Hall, concat_app, omap_app. simpl. rewrite app_nil_r, (ids_from_split _ _ Hs Hin), omap_app.
    by rewrite <-!app_assoc.
Qed.

Lemma round_ok sp γ todo i : pool_rep sp γ todo →
  ∃ γ' todo', pool_rep (pool_step table body (Some i) sp) γ' todo'
    ∧ start (pool_step table body (Some i) sp).2 = start sp.2
    ∧ ∀ j, steps_left (pool_step table body (Some i) sp).2 todo' j
           = (steps_left sp.2 todo j - if decide (j = i) then 1 else 0)%nat.
Proof.
  intros [HR Ht Hst Hlast Hall]. destruct sp as [s p]. cbn [fst snd] in *. unfold pool_step.
  destruct (tasks p !! i) as [t|] eqn:Et.
  2:{ exists γ, todo. split; [by split|]. split; [done|]. intros j. unfold steps_left. cbn [snd].
      destruct (decide (j = i)) as [->|]; [by rewrite Et|lia]. }
  destruct (Forall2_lookup_l _ _ _ _ _ Ht Et) as (ids & Ei & Hrep_i).
  destruct (task_step_ok t ids γ s Hrep_i HR) as (s' & t' & now & ids' & E & -> & Hrep' & HR' & Hw). rewrite E.
  exists (γ ++ omap ref now), (<[i := ids']> todo). split; [split|split]; cbn [fst snd tasks start]; [done|..|done|].
  - by apply Forall2_insert.
  - by rewrite length_insert.
  - done.
  - rewrite <-Hall. rewrite <-(take_drop_middle todo i (now ++ ids') Ei) at 2.
    rewrite insert_take_drop by (by eapply lookup_lt_Some).
    rewrite !concat_app. simpl. rewrite !omap_app. solve_Permutation.
  - intros j. unfold steps_left. cbn [tasks]. destruct (decide (j = i)) as [->|Hj].
    + rewrite (list_lookup_insert_eq (tasks p)), (list_lookup_insert_eq todo) by (by eapply lookup_lt_Some).
      by rewrite Et, Ei.
    + rewrite !list_lookup_insert_ne by done. lia.
Qed.

(** How often the calling thread and a task get their turn. *)
Definition turns (schedule : list (option nat)) (c : option nat) : nat := length (filter (λ c', c' = c) schedule).
Lemma turns_cons c schedule c' : turns (c :: schedule) c' = ((if decide (c = c') then 1 else 0) + turns schedule c')%nat.
Proof. unfold turns. rewrite filter_cons. by case_decide. Qed.

Lemma pool_run_ok schedule sp γ todo : pool_rep sp γ todo →
  ∃ γ' todo', pool_rep (pool_run table body schedule sp) γ' todo'
    ∧ (vec_chunks v ≤ start (pool_run table body schedule sp).2
       ∨ start sp.2 + turns schedule None ≤ start (pool_run table body schedule sp).2)%nat
    ∧ ((vec_chunks v ≤ start sp.2)%nat → start (pool_run table body schedule sp).2 = start sp.2 ∧
       ∀ j, steps_left (pool_run table body schedule sp).2 todo' j = (steps_left sp.2 todo j - turns schedule (Some j))%nat).
Proof.
  revert sp γ todo. induction schedule as [|c schedule IH]; intros sp γ todo Hp.
  { exists γ, todo. cbn. split; [done|]. split; [right; lia|]. split; [done|]. intros j. lia. }
  cbn [pool_run]. destruct c as [i|].
  - destruct (round_ok sp γ todo i Hp) as (γ1 & todo1 & Hp1 & Es & Hw).
    destruct (IH _ _ _ Hp1) as (γ' & todo' & Hp' & Hor & Hend). exists γ', todo'. split; [done|].
    rewrite Es in Hor, Hend. split; [rewrite turns_cons; simpl; exact Hor|].
    intros Hge. destruct (Hend Hge) as [-> Hs]. split; [done|]. intros j. rewrite Hs, Hw, turns_cons.
    destruct (decide (j = i)) as [->|Hj]; [rewrite decide_True by done|rewrite decide_False by congruence]; lia.
  - destruct (submit_ok sp γ todo Hp) as (todo1 & Hp1 & Hor1 & Hsame).
    destruct (IH _ _ _ Hp1) as (γ' & todo' & Hp' & Hor & Hend). exists γ', todo'. split; [done|].
    rewrite turns_cons, decide_True by done. split.
    + destruct Hor1 as [Hge|Hlt]; [left; destruct (Hend Hge); lia|lia].
    + intros Hge. destruct (Hsame Hge) as [Eq ->]. rewrite Eq in *. destruct (Hend Hge) as [-> Hs]. split; [done|].
      intros j. by rewrite Hs, turns_cons, decide_False.
Qed.

(** Every task has been handed over, and has then got as many turns as it needs. *)
Definition fair (schedule : list (option nat)) : Prop :=
  ∃ s1 s2, schedule = s1 ++ s2 ∧ (vec_chunks v ≤ turns s1 None)%nat
    ∧ ∀ i, (i < vec_chunks v)%nat → (Z.to_nat (vec_capacity v) + 2 ≤ turns s2 (Some i))%nat.

Lemma pool_run_app s1 s2 sp : pool_run table body (s1 ++ s2) sp = pool_run table body s2 (pool_run table body s1 sp).
Proof. revert sp. induction s1 as [|c s1 IH]; intros sp; [done|]. apply IH. Qed.

Lemma get_all_done l todo r : Forall2 task_rep l todo → get_all l = Some r → r = Val tt ∧ concat todo = [].
Proof.
  intros Hl. revert r. induction Hl as [|t ids l todo [_ Ht] Hl IH]; intros r Hr; [by injection Hr as <-|].
  destruct t; simpl in *; try done. subst ids. by apply IH.
Qed.
Lemma all_done_get l todo : Forall2 task_rep l todo →
  (∀ i t ids, l !! i = Some t → todo !! i = Some ids → weight t ids = 0%nat) → get_all l = Some (Val tt).
Proof.
  intros Hl. induction Hl as [|t ids l todo [_ Ht] Hl IH]; intros Hw; [done|].
  pose proof (Hw 0%nat t ids eq_refl eq_refl) as H0. destruct t; simpl in *; try lia.
  apply IH. intros i. apply (Hw (S i)).
Qed.

(** A scan delivers part of what it should, all of it when it ends, and it
    ends under every fair schedule. *)
Lemma parallel_ok schedule s : Rep [] s →
  ∃ γ rest s' out, parallel table body schedule s = (s', out) ∧ Rep γ s' ∧ γ ++ rest ≡ₚ omap ref all_ids
    ∧ (out = Some (Val tt) ∧ rest = [] ∨ out = None ∧ ¬ fair schedule).
Proof.
  intros HR. destruct (pool_run_ok schedule _ _ _ (pool_rep_init s HR)) as (γ & todo & Hp & _ & _).
  set (sp := pool_run table body schedule (s, mk_pool [] 0)) in *.
  exists γ, (omap ref (concat todo) ++ omap ref (ids_from (start sp.2))), sp.1, (pool_result table sp).
  split; [done|]. split; [apply Hp|]. split; [apply Hp|]. pose proof Hp as [HR' Ht Hst Hlast Hall].
  unfold pool_result. rewrite (sr_chunks _ _ (Hrep _ _ HR')).
  destruct (Nat.ltb_spec (start sp.2) (vec_chunks v)) as [Hlt|Hge].
  - right. split; [done|]. intros (s1 & s2 & -> & Hn & _). unfold sp in Hlt. rewrite pool_run_app in Hlt.
    destruct (pool_run_ok s1 _ _ _ (pool_rep_init s HR)) as (γ1 & todo1 & Hp1 & Hor1 & _). cbn [start snd] in Hor1.
    destruct (pool_run_ok s2 _ _ _ Hp1) as (_ & _ & _ & Hor2 & _). lia.
  - destruct (get_all (tasks sp.2)) as [r|] eqn:Er.
    + left. destruct (get_all_done _ _ _ Ht Er) as [-> ->]. by rewrite (ids_from_end _ Hge).
    + right. split; [done|]. intros (s1 & s2 & Es & Hn & Hturns). unfold sp in *. rewrite Es, pool_run_app in *.
      destruct (pool_run_ok s1 _ _ _ (pool_rep_init s HR)) as (γ1 & todo1 & Hp1 & Hor1 & _). cbn [start snd] in Hor1.
      set (sp1 := pool_run table body s1 _) in *. assert (vec_chunks v ≤ start sp1.2)%nat as Hge1 by lia.
      destruct (pool_run_ok s2 _ _ _ Hp1) as (γ2 & todo2 & Hp2 & _ & Hend). destruct (Hend Hge1) as [_ Hleft].
      set (sp2 := pool_run table body s2 _) in *.
      rewrite (all_done_get _ _ (pr_tasks _ _ _ Hp2)) in Er; [done|].
      intros i t ids Eti Eids. specialize (Hleft i). unfold steps_left in Hleft at 1. rewrite Eti, Eids in Hleft. rewrite Hleft.
      assert (i < vec_chunks v)%nat as Hi.
      { pose proof (lookup_lt_Some _ _ _ Eti). pose proof (pr_start _ _ _ Hp2). pose proof (pr_last _ _ _ Hp2).
        unfold CHUNKS_PER_THREAD in *. lia. }
      specialize (Hturns i Hi). unfold steps_left.
      destruct (tasks sp1.2 !! i) as [t1|] eqn:Et1; [|done]. destruct (todo1 !! i) as [ids1|] eqn:Ei1; [|done].
      destruct (Forall2_lookup_lr _ _ _ _ _ _ (pr_tasks _ _ _ Hp1) Et1 Ei1) as [Hlen _]. destruct t1; simpl; lia.
Qed.
End pool.

(** ** Scans of the nodes *)
Section nodes.
Context {V : Type → Type} `{!Vec V} `{!VecScan V} {D : Type} `{!Dictionary D} {X : Type} `{!Indexes X}.
Notation db := (gdb V D X).
Implicit Types (g : db) (t : nobj).

(** A transaction reads a version of every node that is not deleted; the tasks
    do not catch the exception for unknown ids. *)
Record scannable_all g x : Prop := {
  sa_scan : scannable g x;
  sa_version id t : vec_get (nodes_ g) id = Some t → is_valid (main_ t) = true → ∃ r, version_of x t = Val r;
  sa_starts : starts_used (nodes_ g)
}.

Lemma scan_ref_iff g x id r :
  scan_ref g x id = Some (id, r) ↔ ∃ t, vec_get (nodes_ g) id = Some t ∧ is_valid (main_ t) = true ∧ version_of x t = Val r.
Proof.
  unfold scan_ref, mbind, option_bind. split.
  - destruct (vec_get _ _) as [t|]; [|done]. destruct (is_valid (main_ t)) eqn:Ev; [|done].
    destruct (version_of _ t) as [r'|] eqn:Er; [|done]. intros [= <-]. by exists t.
  - intros (t & -> & -> & ->). done.
Qed.

Lemma node_scan_visits g x id t l γ s : scannable_all g x → vec_get (nodes_ g) id = Some t → vec_at (nodes_ g) id = Val l →
  same_nodes g γ s → ∃ s', node_scan x collect l s = (s', Val tt) ∧ same_nodes g (γ ++ option_list (scan_ref g x id)) s'.
Proof.
  intros [Hsc Hv _] Ht Hl HR.
  assert (sim (same_nodes g) (node_scan x collect l)
    (when (is_valid (main_ t)) ((r ← lift_res (version_of x t); mret (id, r)) ≫= note))) as Hsim.
  { intros γ1 s1 H1. unfold node_scan, node_at.
    destruct (qsim_at g (same_nodes g) (λ γ s H, proj1 H) (same_nodes_write g) id l t get_st Ht Hl eq_refl γ1 s1 H1)
      as (s2 & E2 & H2). rewrite (bind_val _ _ _ _ _ E2). clear E2 H1 s1. revert γ1 s2 H2.
    apply qsim_when, qsim_bind; [|intros n; apply collect_note].
    apply (sim_version g (same_nodes g) (λ γ s H, proj1 H) (same_nodes_write g) x (sc_ids _ _ Hsc) id l t Ht Hl). }
  destruct (Hsim γ s HR) as (s' & E & HR'). exists s'. rewrite E. unfold scan_ref, mbind, option_bind. rewrite Ht.
  destruct (is_valid (main_ t)) eqn:Ev; simpl in HR' |- *; [|by rewrite app_nil_r].
  destruct (Hv id t Ht Ev) as [r Er]. unfold M_bind, lift_res in *. by rewrite Er in *.
Qed.

(** C26: a scan of the nodes by several threads, on a table where the first
    record of every range of chunks is in use (its iterator does not test this
    record) and by a transaction that can read a version of every node that is
    not deleted (a task does not catch the exception for another transaction's
    new node): whatever the threads do in which order, no node is delivered twice and none in a version that the transaction
    does not read; when the scan ends, it ends without an exception and
    has delivered every node that is not deleted; and it ends under every
    schedule in which all ranges are handed over and each task then gets its
    turns. *)
Theorem parallel_nodes_delivers g tx schedule :
  current_transaction_ g = Some tx → scannable_all g (xid_ tx) →
  ∃ v' refs out, parallel_nodes schedule collect (g, []) = ((set_nodes v' g, refs), out)
    ∧ (∀ j, vec_get v' j = vec_get (nodes_ g) j)
    ∧ NoDup refs.*1
    ∧ (∀ id r, (id, r) ∈ refs → ∃ t, vec_get (nodes_ g) id = Some t ∧ is_valid (main_ t) = true
                                     ∧ version_of (xid_ tx) t = Val r)
    ∧ (out = Val tt ∧ (∀ id t r, vec_get (nodes_ g) id = Some t → is_valid (main_ t) = true →
                         version_of (xid_ tx) t = Val r → (id, r) ∈ refs)
       ∨ out = Exn no_return ∧ ¬ fair (nodes_ g) schedule).
Proof.
  intros Htx Hsa. pose proof Hsa as [Hsc _ Hst]. unfold parallel_nodes, waits.
  rewrite (bind_val _ _ _ _ _ (scan_txid_ok g tx [] Htx)).
  destruct (parallel_ok nodes_ (node_scan (xid_ tx) collect) (nodes_ g) (same_nodes g) (scan_ref g (xid_ tx))
    (sc_rd _ _ Hsc) (λ γ s H, proj1 H) (λ id t l γ s, node_scan_visits g (xid_ tx) id t l γ s Hsa) Hst schedule (g, []))
    as (refs & rest & s' & out & E & [Hsame Es] & Hperm & Hout).
  { split; [apply same_records_refl, Hsc|]. by destruct g. }
  rewrite E. set (all := omap (scan_ref g (xid_ tx)) (all_ids (nodes_ g))) in *.
  assert (∀ n, n ∈ all ↔ scan_ref g (xid_ tx) n.1 = Some n) as Hall.
  { intros n. unfold all. rewrite list_elem_of_omap. split.
    - intros (id & _ & Eid). by rewrite (scan_ref_fst _ _ _ _ Eid).
    - intros En. exists n.1. split; [|done]. apply (elem_all_ids _ (sc_rd _ _ Hsc)). revert En.
      unfold scan_ref, mbind, option_bind. destruct (vec_get _ _); by eauto. }
  assert (NoDup all.*1) as Hnd.
  { pose proof (all_ids_NoDup (nodes_ g)) as Hn. unfold all. clear -Hn. induction Hn as [|id ids Hid _ IH]; [constructor|]. simpl.
    destruct (scan_ref g (xid_ tx) id) as [n|] eqn:En; [|done]. rewrite fmap_cons. constructor; [|done].
    rewrite (scan_ref_fst _ _ _ _ En). intros (m & -> & (i & Hi & Ei)%list_elem_of_omap)%list_elem_of_fmap.
    by rewrite (scan_ref_fst _ _ _ _ Ei) in Hid. }
  exists (nodes_ s'.1), refs, (match out with Some r => r | None => Exn no_return end). split_and!.
  - rewrite Es. by destruct out.
  - apply Hsame.
  - rewrite <-Hperm, fmap_app in Hnd. by apply NoDup_app in Hnd as [? _].
  - intros id r Hin. apply scan_ref_iff. apply (Hall (id, r)). rewrite <-Hperm. apply elem_of_app. by left.
  - destruct Hout as [[-> ->]|[-> Hf]]; [left|by right]. split; [done|]. rewrite app_nil_r in Hperm.
    intros id t r Ht Ev Er. rewrite Hperm. apply (Hall (id, r)), scan_ref_iff. by exists t.
Qed.
End nodes.
