(* ===== verification/QueryTraversal.v ===== *)
(** * QueryTraversal: what the traversals of the query context deliver

    A traversal reads objects and thereby moves their read timestamps; what its
    transaction sees of the graph stays the same ([reads]).  Over that view a
    node has a list of relationships, and the relationships up to a number of
    hops are the ends of walks. *)

From S2P Require Import Prelude VecSpec DictSpec IndexSpec Literals Property PropertyList.
From S2P Require Import Txn Mvto GraphState GraphOps GraphIndex GraphCommit GraphFacts GraphIndexFacts GraphNodes QueryCtx QueryFacts.

(** ** The view of a transaction *)
Section view.
Context {B : Type} (x : Z).
Implicit Types t : tobj B pitems.

Definition fetched t : tobj B pitems := set_main (set_rts x) (set_main prepare t).
Definition seen t : option (vref * obj B) :=
  match (get_valid_version x (fetched t)).2 with
  | Val r => pair r <$> deref (fetched t) r
  | Exn _ => None
  end.

Lemma fetched_twice t : fetched (fetched t) = fetched t.
Proof.
  destruct t as [[ti bt ct rt d b] l n]. unfold fetched, set_main, set_rts, prepare. simpl.
  destruct d as [d|]; simpl; repeat (case_bool_decide; simpl; try done); lia.
Qed.
Lemma fetch_fetched t : fetch x t = (fetched t, (get_valid_version x (fetched t)).2).
Proof.
  unfold fetch. rewrite (bind_val (put Main prepare) _ t (set_main prepare t) tt) by done.
  rewrite (bind_val (put Main (set_rts x)) _ _ (fetched t) tt) by done.
  pose proof (get_valid_version_state x (fetched t)) as E. destruct (get_valid_version x (fetched t)). simpl in *. by subst.
Qed.
Lemma seen_fetched t : seen (fetched t) = seen t.
Proof. unfold seen. by rewrite fetched_twice. Qed.
End view.

Section traversal.
Context {V : Type → Type} `{!Vec V} {D : Type} `{!Dictionary D} {X : Type} `{!Indexes X}.
Notation db := (gdb V D X).
Implicit Types (g : db).
Variable x : Z.

Definition sees {B} (v : V (tobj B pitems)) (id : Z) : option (vref * obj B) := t ← vec_get v id; seen x t.

(** Tables in which the transaction sees the same. *)
Record same_view {B} (v v' : V (tobj B pitems)) : Prop := {
  sv_rd : vec_rd v';
  sv_cap : vec_capacity v' = vec_capacity v;
  sv_sees id : sees v' id = sees v id;
  sv_used id : is_Some (vec_get v' id) ↔ is_Some (vec_get v id)
}.
Lemma same_view_refl {B} (v : V (tobj B pitems)) : vec_rd v → same_view v v.
Proof. by split. Qed.
#[export] Instance same_view_trans {B} : Transitive (@same_view B).
Proof. intros v1 v2 v3 [] []. split; [done|congruence|congruence|naive_solver]. Qed.

Definition reads g g' : Prop :=
  ∃ vn vr, g' = set_rships vr (set_nodes vn g) ∧ same_view (nodes_ g) vn ∧ same_view (rships_ g) vr.
Lemma reads_refl g : vec_rd (nodes_ g) → vec_rd (rships_ g) → reads g g.
Proof. intros Hn Hr. exists (nodes_ g), (rships_ g). split; [by destruct g|]. split; by apply same_view_refl. Qed.
#[export] Instance reads_trans : Transitive reads.
Proof.
  intros g1 g2 g3 (vn & vr & -> & Hn & Hr) (vn' & vr' & -> & Hn' & Hr'). exists vn', vr'.
  split; [done|]. split; by etrans.
Qed.
Lemma reads_rd g g' : reads g g' → vec_rd (nodes_ g') ∧ vec_rd (rships_ g').
Proof. intros (vn & vr & -> & [] & []). done. Qed.
Lemma reads_sees g g' : reads g g' →
  (∀ id, sees (nodes_ g') id = sees (nodes_ g) id) ∧ ∀ id, sees (rships_ g') id = sees (rships_ g) id.
Proof. intros (vn & vr & -> & [] & []). done. Qed.
Lemma reads_nodes g vn : vec_rd (rships_ g) → same_view (nodes_ g) vn → reads g (set_nodes vn g).
Proof. intros Hr Hn. exists vn, (rships_ g). split; [by destruct g|]. split; [done|by apply same_view_refl]. Qed.
Lemma reads_rships g vr : vec_rd (nodes_ g) → same_view (rships_ g) vr → reads g (set_rships vr g).
Proof. intros Hn Hr. exists (nodes_ g), vr. split; [by destruct g|]. split; [by apply same_view_refl|done]. Qed.

Lemma tab_seen_view {B} (v v' : V (tobj B pitems)) id t t' : tab_set v id t' v' → vec_get v id = Some t → seen x t' = seen x t → same_view v v'.
Proof.
  intros H Ht Es. split; [apply H|apply H|..]; intros j; unfold sees, mbind, option_bind; rewrite (ts_get _ _ _ _ H);
    destruct (decide (j = id)) as [->|]; rewrite ?Ht, ?Es; try done; split; by eexists.
Qed.
Lemma tab_view {B} (v v' : V (tobj B pitems)) id t : tab_set v id (fetched x t) v' → vec_get v id = Some t → same_view v v'.
Proof. intros H Ht. eapply tab_seen_view; [done..|]. apply seen_fetched. Qed.
Lemma tab_same_view {B} (v v' : V (tobj B pitems)) id t : tab_set v id t v' → vec_get v id = Some t → same_view v v'.
Proof. intros H Ht. by eapply tab_seen_view. Qed.

(** The reference [r] refers to the version [o]. *)
Definition refers {B} (v : V (tobj B pitems)) (r : oref) (o : obj B) : Prop :=
  ∃ t, vec_get v r.1 = Some t ∧ deref t r.2 = Some o.

(** ** Single reads *)
Section reads.
Context {A : Type}.
Implicit Types a : A.

Lemma rship_by_id_sees g tx a id r o : current_transaction_ g = Some tx → xid_ tx = x →
  vec_rd (nodes_ g) → vec_rd (rships_ g) → sees (rships_ g) id = Some (r, o) →
  ∃ g', on_fst (rship_by_id id) (g, a) = ((g', a), Val (id, r)) ∧ reads g g' ∧ refers (rships_ g') (id, r) o.
Proof.
  intros Htx Hx Hn Hr. unfold sees, mbind, option_bind. destruct (vec_get (rships_ g) id) as [t|] eqn:Ht; [|done].
  unfold seen. pose proof (fetch_fetched x t) as Ef.
  destruct ((get_valid_version x (fetched x t)).2) as [r'|]; [|done]. intros E.
  apply fmap_Some in E as (o' & Eo & [= -> ->]).
  destruct (at_rship_step g id t _ _ _ Hr Ht Ef) as (g' & E' & (v & Hv & ->)).
  exists (set_rships v g). split.
  { unfold on_fst, rship_by_id. cbn [fst snd]. rewrite (bind_val _ _ _ _ _ (check_tx_ok _ _ Htx)).
    rewrite (bind_val _ _ _ _ _ (tx_xid_ok _ _ Htx)), Hx. by rewrite (bind_val _ _ _ _ _ E'). }
  split; [apply reads_rships; [done|by eapply tab_view]|]. exists (fetched x t).
  split; [by apply (tab_set_same _ _ _ _ Hv)|done].
Qed.
Lemma node_by_id_sees g tx a id r o : current_transaction_ g = Some tx → xid_ tx = x →
  vec_rd (nodes_ g) → vec_rd (rships_ g) → sees (nodes_ g) id = Some (r, o) →
  ∃ g', on_fst (node_by_id id) (g, a) = ((g', a), Val (id, r)) ∧ reads g g' ∧ refers (nodes_ g') (id, r) o.
Proof.
  intros Htx Hx Hn Hr. unfold sees, mbind, option_bind. destruct (vec_get (nodes_ g) id) as [t|] eqn:Ht; [|done].
  unfold seen. pose proof (fetch_fetched x t) as Ef.
  destruct ((get_valid_version x (fetched x t)).2) as [r'|]; [|done]. intros E.
  apply fmap_Some in E as (o' & Eo & [= -> ->]).
  destruct (at_node_step g id t _ _ _ Hn Ht Ef) as (g' & E' & (v & Hv & ->)).
  exists (set_nodes v g). split.
  { unfold on_fst, node_by_id. cbn [fst snd]. rewrite (bind_val _ _ _ _ _ (check_tx_ok _ _ Htx)).
    rewrite (bind_val _ _ _ _ _ (tx_xid_ok _ _ Htx)), Hx. by rewrite (bind_val _ _ _ _ _ E'). }
  split; [apply reads_nodes; [done|by eapply tab_view]|]. exists (fetched x t).
  split; [by apply (tab_set_same _ _ _ _ Hv)|done].
Qed.

Lemma self_refers {B} (t : tobj B pitems) r o : deref t r = Some o → self r t = (t, Val o).
Proof. intros E. unfold self. by rewrite E. Qed.

Lemma rship_ref_refers g a r o : vec_rd (nodes_ g) → vec_rd (rships_ g) → refers (rships_ g) r o →
  ∃ g', on_fst (rship_ref r) (g, a) = ((g', a), Val o) ∧ reads g g' ∧ refers (rships_ g') r o.
Proof.
  intros Hn Hr (t & Ht & Eo). destruct (at_rship_step g r.1 t _ _ _ Hr Ht (self_refers _ _ _ Eo)) as (g' & E & (v & Hv & ->)).
  exists (set_rships v g). split; [unfold on_fst, rship_ref; cbn [fst snd]; by rewrite E|].
  split; [apply reads_rships; [done|by eapply tab_same_view]|]. exists t. split; [by apply (tab_set_same _ _ _ _ Hv)|done].
Qed.
Lemma node_ref_refers g a n o : vec_rd (nodes_ g) → vec_rd (rships_ g) → refers (nodes_ g) n o →
  ∃ g', on_fst (node_ref n) (g, a) = ((g', a), Val o) ∧ reads g g' ∧ refers (nodes_ g') n o.
Proof.
  intros Hn Hr (t & Ht & Eo). destruct (at_node_step g n.1 t _ _ _ Hn Ht (self_refers _ _ _ Eo)) as (g' & E & (v & Hv & ->)).
  exists (set_nodes v g). split; [unfold on_fst, node_ref; cbn [fst snd]; by rewrite E|].
  split; [apply reads_nodes; [done|by eapply tab_same_view]|]. exists t. split; [by apply (tab_set_same _ _ _ _ Hv)|done].
Qed.

Lemma rship_field_refers g a f r o : vec_rd (nodes_ g) → vec_rd (rships_ g) → refers (rships_ g) r o →
  ∃ g', rship_field f r (g, a) = ((g', a), Val (f (body_ o))) ∧ reads g g' ∧ refers (rships_ g') r o.
Proof.
  intros Hn Hr Ho. destruct (rship_ref_refers g a r o Hn Hr Ho) as (g' & E & H). exists g'. split; [|done].
  unfold rship_field. by rewrite (bind_val _ _ _ _ _ E).
Qed.
Lemma node_field_refers g a f n o : vec_rd (nodes_ g) → vec_rd (rships_ g) → refers (nodes_ g) n o →
  ∃ g', node_field f n (g, a) = ((g', a), Val (f (body_ o))) ∧ reads g g' ∧ refers (nodes_ g') n o.
Proof.
  intros Hn Hr Ho. destruct (node_ref_refers g a n o Hn Hr Ho) as (g' & E & H). exists g'. split; [|done].
  unfold node_field. by rewrite (bind_val _ _ _ _ _ E).
Qed.
End reads.

Lemma reads_current g g' : reads g g' → current_transaction_ g' = current_transaction_ g.
Proof. by intros (vn & vr & -> & _). Qed.
Lemma reads_capacity g g' : reads g g' → vec_capacity (rships_ g') = vec_capacity (rships_ g).
Proof. intros (vn & vr & -> & _ & []). done. Qed.

(** ** Lists in the view of a transaction *)
Section lists.
Variable (g : db).
Variable next : relationship → Z.

(** The successors of a relationship, and the list from an id on. *)
Fixpoint vlist (id : Z) (l : list Z) : Prop :=
  match l with
  | [] => id = UNKNOWN
  | i :: l' => id = i ∧ i ≠ UNKNOWN ∧ ∃ r o, sees (rships_ g) i = Some (r, o) ∧ vlist (next (body_ o)) l'
  end.

Lemma vlist_det id l1 l2 : vlist id l1 → vlist id l2 → l1 = l2.
Proof.
  revert id l2. induction l1 as [|i l1 IH]; intros id [|j l2]; simpl; [done|naive_solver..|].
  intros (-> & _ & r & o & Ho & H1) (-> & _ & r' & o' & Ho' & H2). f_equal. simplify_eq. by eapply IH.
Qed.
Lemma vlist_suffix id l i : vlist id l → i ∈ l → ∃ l', vlist i (i :: l') ∧ (length l' < length l)%nat.
Proof.
  revert id. induction l as [|j l IH]; intros id; [by intros _ ?%elem_of_nil|].
  intros H [->|Hi]%elem_of_cons.
  - exists l. destruct H as (-> & ?). split; [done|simpl; lia].
  - destruct H as (-> & _ & r & o & _ & H). destruct (IH _ H Hi) as (l' & H' & Hl). exists l'. split; [done|simpl; lia].
Qed.
Lemma vlist_NoDup id l : vlist id l → NoDup l.
Proof.
  revert id. induction l as [|i l IH]; intros id H; [constructor|].
  pose proof H as (-> & Hu & r & o & Ho & H'). constructor; [|by eapply IH].
  intros Hin. destruct (vlist_suffix _ _ _ H' Hin) as (l' & Hl' & Hlen).
  pose proof (vlist_det _ _ _ H Hl') as E. injection E as ->. lia.
Qed.
Lemma vlist_sees id l i : vlist id l → i ∈ l → is_Some (sees (rships_ g) i).
Proof.
  revert id. induction l as [|j l IH]; intros id; [by intros _ ?%elem_of_nil|].
  intros (-> & _ & r & o & Ho & H) [->|Hi]%elem_of_cons; [by eexists|by eapply IH].
Qed.
Lemma vlist_length id l : vec_rd (rships_ g) → vlist id l → (length l ≤ Z.to_nat (vec_capacity (rships_ g)))%nat.
Proof.
  intros Hrd H. apply bounded_NoDup; [by eapply vlist_NoDup|]. intros i Hi.
  destruct (vlist_sees _ _ _ H Hi) as [p Hp]. unfold sees, mbind, option_bind in Hp.
  destruct (vec_get (rships_ g) i) eqn:E; [|done]. by eapply vec_get_bounds.
Qed.
End lists.

(** The reference a traversal delivers for a relationship, when it delivers it. *)
Definition rship_ref_for g (test : obj relationship → bool) (id : Z) : option oref :=
  p ← sees (rships_ g) id; if test p.2 then Some (id, p.1) else None.

(** *** The relationships of a node *)
(** A consumer that reads at most; what it does to its own state is a function
    of the relationship. *)
Section consumer.
Context {A : Type} (g : db) (k : oref → M (db * A) unit) (f : A → oref → obj relationship → A).
Hypothesis k_ok : ∀ g1 a r o, reads g g1 → refers (rships_ g1) r o →
  ∃ g2, k r (g1, a) = ((g2, f a r o), Val tt) ∧ reads g1 g2 ∧ refers (rships_ g2) r o.
Definition fed (test : obj relationship → bool) (a : A) (id : Z) : A :=
  match sees (rships_ g) id with Some (r, o) => if test o then f a (id, r) o else a | None => a end.
Lemma rship_loop_feeds next test tx fuel g1 a i l :
  current_transaction_ g = Some tx → xid_ tx = x → reads g g1 → vlist g next i l → (length l < fuel)%nat →
  ∃ g2, rship_loop next test k fuel i (g1, a) = ((g2, foldl (fed test) a l), Val tt) ∧ reads g g2.
Proof.
  intros Htx Hx. revert fuel g1 a i. induction l as [|j l IH]; intros [|fuel] g1 a i Hr Hl Hf; simpl in Hf; try lia.
  - simpl in Hl. subst i. exists g1. cbn [rship_loop]. by rewrite bool_decide_eq_true_2 by done.
  - destruct Hl as (-> & Hu & r & o & Ho & Hl). cbn [rship_loop]. rewrite bool_decide_eq_false_2 by done.
    destruct (reads_rd _ _ Hr) as [Hn1 Hr1].
    destruct (rship_by_id_sees g1 tx a j r o) as (g2 & E2 & R2 & Ro2); [|done|done|done|by rewrite (proj2 (reads_sees _ _ Hr))|].
    { by rewrite (reads_current _ _ Hr). }
    rewrite (bind_val _ _ _ _ _ E2). destruct (reads_rd _ _ R2) as [Hn2 Hr2].
    destruct (rship_ref_refers g2 a (j, r) o Hn2 Hr2 Ro2) as (g3 & E3 & R3 & Ro3). rewrite (bind_val _ _ _ _ _ E3).
    destruct (reads_rd _ _ R3) as [Hn3 Hr3]. assert (reads g g3) as R03 by (by do 2 (etrans; [|eassumption])).
    assert (∃ g4, when (test o) (k (j, r)) (g3, a) = ((g4, fed test a j), Val tt) ∧ reads g3 g4 ∧ refers (rships_ g4) (j, r) o) as (g4 & E4 & R4 & Ro4).
    { unfold fed. rewrite Ho. destruct (test o); cbn [when]; [by apply k_ok|]. exists g3. split; [done|]. split; [by apply reads_refl|done]. }
    rewrite (bind_val _ _ _ _ _ E4). destruct (reads_rd _ _ R4) as [Hn4 Hr4].
    destruct (rship_ref_refers g4 (fed test a j) (j, r) o Hn4 Hr4 Ro4) as (g5 & E5 & R5 & Ro5). rewrite (bind_val _ _ _ _ _ E5).
    destruct (IH fuel g5 (fed test a j) (next (body_ o))) as (g6 & E6 & R6); [by do 2 (etrans; [|eassumption])|done|lia|].
    exists g6. by rewrite E6.
Qed.
End consumer.

Lemma rship_loop_ok next test g tx fuel g1 a i l :
  current_transaction_ g = Some tx → xid_ tx = x → reads g g1 → vlist g next i l → (length l < fuel)%nat →
  ∃ g2, rship_loop next test collect fuel i (g1, a) = ((g2, a ++ omap (rship_ref_for g test) l), Val tt) ∧ reads g g2.
Proof.
  intros Htx Hx Hr Hl Hf. destruct (rship_loop_feeds g collect (λ a r _, a ++ [r])) with (test := test) (a := a) (fuel := fuel) (next := next) (tx := tx) (g1 := g1) (i := i) (l := l)
    as (g2 & E & R); try done.
  { intros g2 b r o R2 Ho. destruct (reads_rd _ _ R2). exists g2. split; [done|]. split; [by apply reads_refl|done]. }
  exists g2. rewrite E. split; [|done]. do 2 f_equal. clear. revert a. induction l as [|j l IH]; intros a; [by rewrite app_nil_r|].
  cbn [foldl omap list_omap]. rewrite IH. unfold fed, rship_ref_for at 2, mbind, option_bind.
  destruct (sees (rships_ g) j) as [[r o]|]; [|done]. cbn [fst snd]. destruct (test o); [|done]. by rewrite <-app_assoc.
Qed.

(** *** Walks *)
Section walks.
Variable (g : db).
Variables (next other : relationship → Z) (hd : node → Z).
(** The relationships of each node, and the nodes the traversal can come to. *)
Variables (adj : Z → list Z) (P : Z → Prop).

(** The node at the other end. *)
Definition dst (id : Z) : Z :=
  match sees (rships_ g) id with Some (_, o) => other (body_ o) | None => UNKNOWN end.

(** Every node the traversal can come to is visible and has a proper list of
    visible relationships, whose other ends are such nodes. *)
Definition closed : Prop := ∀ nid, P nid →
  ∃ r o, sees (nodes_ g) nid = Some (r, o) ∧ vlist g next (hd (body_ o)) (adj nid) ∧ ∀ id, id ∈ adj nid → P (dst id).

(** A walk with [h] relationships, the last of which is [id]. *)
Inductive walk : Z → Z → Z → Prop :=
  | walk_one nid id : id ∈ adj nid → walk nid 1 id
  | walk_more nid i h id : i ∈ adj nid → walk (dst i) h id → walk nid (h + 1) id.

(** What the rest [l] of a list contributes when it is reached with [h] hops and
    [k] more levels are allowed; and the rounds of the loop this takes. *)
Fixpoint ends (min : Z) (k : nat) (h : Z) (l : list Z) : list Z :=
  match k with
  | O => []
  | S k' => mjoin ((λ id, (if bool_decide (min ≤ h) then [id] else []) ++ ends min k' (h + 1) (adj (dst id))) <$> l)
  end.
Fixpoint rounds (k : nat) (l : list Z) : nat :=
  match k with
  | O => 1
  | S k' => S (sum_list_with (λ id, S (rounds k' (adj (dst id)))) l)
  end.

Lemma ends_walk min k h nid id : 0 < h →
  id ∈ ends min k h (adj nid) ↔ ∃ n, walk nid n id ∧ min ≤ h + n - 1 ∧ n ≤ Z.of_nat k.
Proof.
  intros Hh. assert (∀ nid n id, walk nid n id → 1 ≤ n) as Hpos by (induction 1; lia).
  revert h nid Hh. induction k as [|k IH]; intros h nid Hh; cbn [ends].
  - split; [by intros ?%elem_of_nil|]. intros (n & Hw%Hpos & _ & ?). lia.
  - rewrite list_elem_of_join. split.
    + intros (L & Hid & (i & -> & Hi)%list_elem_of_fmap). apply elem_of_app in Hid as [Hid|Hid].
      * case_bool_decide; [|by apply elem_of_nil in Hid]. apply list_elem_of_singleton in Hid as ->.
        exists 1. split; [by constructor|]. lia.
      * apply IH in Hid as (n & Hw & H1 & H2); [|lia]. exists (n + 1). split; [by eapply walk_more|]. lia.
    + intros (n & Hw & H1 & H2). destruct Hw as [nid id Hi|nid i n id Hi Hw].
      * eexists. split; [|by apply list_elem_of_fmap_2]. apply elem_of_app. left.
        rewrite bool_decide_eq_true_2 by lia. by left.
      * eexists. split; [|by apply list_elem_of_fmap_2]. apply elem_of_app. right. apply IH; [lia|].
        exists n. split; [done|]. lia.
Qed.

(** The entries of the queue with the rest of their list. *)
Definition entry_ok (q : Z * Z) (l : list Z) : Prop :=
  vlist g next q.1 l ∧ (∀ id, id ∈ l → P (dst id)) ∧ 0 < q.2.
Definition levels (max h : Z) : nat := Z.to_nat (max - h + 1).
Definition queue_rounds (max : Z) (qs : list (Z * Z)) (ls : list (list Z)) : nat :=
  sum_list (zip_with (λ q l, rounds (levels max q.2) l) qs ls).
Definition queue_ends (min max : Z) (qs : list (Z * Z)) (ls : list (list Z)) : list Z :=
  mjoin (zip_with (λ q l, ends min (levels max q.2) q.2 l) qs ls).
(** The reference to the version of a relationship. *)
Definition rship_version (id : Z) : oref :=
  (id, match sees (rships_ g) id with Some (r, _) => r | None => Main end).

Lemma queue_app max qs1 ls1 qs2 ls2 : length qs1 = length ls1 →
  queue_rounds max (qs1 ++ qs2) (ls1 ++ ls2) = (queue_rounds max qs1 ls1 + queue_rounds max qs2 ls2)%nat.
Proof. intros H. unfold queue_rounds. rewrite zip_with_app by done. apply sum_list_with_app. Qed.
Lemma queue_ends_app min max qs1 ls1 qs2 ls2 : length qs1 = length ls1 →
  queue_ends min max (qs1 ++ qs2) (ls1 ++ ls2) = queue_ends min max qs1 ls1 ++ queue_ends min max qs2 ls2.
Proof. intros H. unfold queue_ends. rewrite zip_with_app by done. apply join_app. Qed.

Lemma variable_loop_ok tx min max fuel : closed → current_transaction_ g = Some tx → xid_ tx = x →
  ∀ qs ls g1 a, reads g g1 → Forall2 entry_ok qs ls → (queue_rounds max qs ls ≤ fuel)%nat →
  ∃ g2 out, variable_loop next other hd min max collect fuel qs (g1, a) = ((g2, a ++ out), Val tt)
    ∧ reads g g2 ∧ out ≡ₚ rship_version <$> queue_ends min max qs ls.
Proof.
  intros Hclosed Htx Hx. induction fuel as [|fuel IH]; intros qs ls g1 a Hr Hq Hf.
  { destruct Hq as [|[i h] l qs ls _ _]; [by exists g1, []; rewrite app_nil_r|].
    unfold queue_rounds in Hf. simpl in Hf. destruct (levels max h); simpl in Hf; lia. }
  destruct Hq as [|[i h] l qs ls [Hl [HP Hh]] Hq]; [exists g1, []; by rewrite app_nil_r|].
  cbn [fst snd] in *. cbn [variable_loop].
  change (queue_rounds max ((i, h) :: qs) (l :: ls)) with (rounds (levels max h) l + queue_rounds max qs ls)%nat in Hf.
  change (queue_ends min max ((i, h) :: qs) (l :: ls)) with (ends min (levels max h) h l ++ queue_ends min max qs ls).
  case_bool_decide as Hskip.
  - assert (ends min (levels max h) h l = []) as ->.
    { destruct Hskip as [->|Hskip]; [destruct l as [|j l]; [by destruct (levels max h)|]|].
      - simpl in Hl. naive_solver.
      - unfold levels. by replace (Z.to_nat (max - h + 1)) with O by lia. }
    apply IH; [done|done|]. destruct (levels max h); simpl in Hf; lia.
  - assert (i ≠ UNKNOWN ∧ h ≤ max) as [Hu Hmax] by lia. destruct l as [|j l]; [done|].
    destruct Hl as (-> & _ & r & o & Ho & Hl). assert (levels max h = S (levels max (h + 1))) as Elev by (unfold levels; lia).
    rewrite Elev in *. cbn [rounds sum_list_with ends fmap list_fmap mjoin list_join] in *.
    destruct (reads_rd _ _ Hr) as [Hn1 Hr1].
    destruct (rship_by_id_sees g1 tx a j r o) as (g2 & E2 & R2 & Ro2); [|done|done|done|by rewrite (proj2 (reads_sees _ _ Hr))|].
    { by rewrite (reads_current _ _ Hr). }
    rewrite (bind_val _ _ _ _ _ E2). set (em := if bool_decide (min ≤ h) then [(j, r)] else []).
    rewrite (bind_val (when (bool_decide (min ≤ h)) (collect (j, r))) _ (g2, a) (g2, a ++ em) tt)
      by (subst em; case_bool_decide; [done|simpl; by rewrite app_nil_r]).
    destruct (reads_rd _ _ R2) as [Hn2 Hr2].
    destruct (rship_field_refers g2 (a ++ em) next (j, r) o Hn2 Hr2 Ro2) as (g3 & E3 & R3 & Ro3).
    rewrite (bind_val _ _ _ _ _ E3). destruct (reads_rd _ _ R3) as [Hn3 Hr3].
    destruct (rship_field_refers g3 (a ++ em) other (j, r) o Hn3 Hr3 Ro3) as (g4 & E4 & R4 & _).
    rewrite (bind_val _ _ _ _ _ E4). destruct (reads_rd _ _ R4) as [Hn4 Hr4].
    assert (dst j = other (body_ o)) as Ed by (unfold dst; by rewrite Ho).
    destruct (Hclosed (dst j)) as (rn & on & Hon & Hln & HPn); [apply HP; by left|].
    assert (reads g g4) as R04 by (do 3 (etrans; [|eassumption]); done).
    destruct (node_by_id_sees g4 tx (a ++ em) (dst j) rn on) as (g5 & E5 & R5 & Ro5); [|done|done|done|by rewrite (proj1 (reads_sees _ _ R04))|].
    { by rewrite (reads_current _ _ R04). }
    rewrite <-Ed, (bind_val _ _ _ _ _ E5). destruct (reads_rd _ _ R5) as [Hn5 Hr5].
    destruct (node_field_refers g5 (a ++ em) hd (dst j, rn) on Hn5 Hr5 Ro5) as (g6 & E6 & R6 & _).
    rewrite (bind_val _ _ _ _ _ E6).
    pose proof (Forall2_length _ _ _ Hq) as Hlen.
    destruct (IH (qs ++ [(next (body_ o), h); (hd (body_ on), h + 1)]) (ls ++ [l; adj (dst j)]) g6 (a ++ em))
      as (g7 & out & E7 & R7 & Hout).
    + do 2 (etrans; [|eassumption]). done.
    + apply Forall2_app; [done|]. constructor; [|constructor; [|constructor]].
      * split; [done|]. split; [|done]. intros id Hid. apply HP. by right.
      * split; [done|]. split; [done|]. cbn [snd]. lia.
    + rewrite queue_app by done. unfold queue_rounds at 2. cbn [zip_with sum_list sum_list_with fst snd]. rewrite Elev. cbn [rounds]. unfold id. lia.
    + exists g7, (em ++ out). rewrite E7, <-app_assoc. split; [done|]. split; [done|].
      rewrite Hout, queue_ends_app by done. unfold queue_ends at 2. cbn [zip_with mjoin list_join fst snd]. rewrite Elev. cbn [ends].
      assert (em = rship_version <$> (if bool_decide (min ≤ h) then [j] else [])) as ->
        by (subst em; unfold rship_version; case_bool_decide; simpl; by rewrite ?Ho).
      rewrite <-fmap_app. apply Permutation_map. rewrite app_nil_r. solve_Permutation.
Qed.
End walks.

Lemma list_fuel_ok {A} g (a : A) : on_fst list_fuel (g, a) = ((g, a), Val (S (Z.to_nat (vec_capacity (rships_ g))))).
Proof. done. Qed.
End traversal.

Section theorems.
Context {V : Type → Type} `{!Vec V} {D : Type} `{!Dictionary D} {X : Type} `{!Indexes X}.
Notation db := (gdb V D X).

(** Going through the outgoing relationships of a node delivers, in the
    order of the list, the version the transaction sees of each relationship, but
    only those versions that are still the current ones: a relationship that
    was changed or deleted after the transaction began is left out although the
    transaction sees it; the loop ends for every proper list. *)
Theorem from_relationships_delivers (g : db) tx (n : node) l :
  current_transaction_ g = Some tx → vec_rd (nodes_ g) → vec_rd (rships_ g) →
  vlist (xid_ tx) g next_src_rship (from_rship_list n) l →
  ∃ g', foreach_from_relationship_of_node n collect (g, [])
      = ((g', omap (rship_ref_for (xid_ tx) g is_valid) l), Val tt)
    ∧ reads (xid_ tx) g g'
    ∧ ∀ id r o, id ∈ l → sees (xid_ tx) (rships_ g) id = Some (r, o) →
        (id, r) ∈ omap (rship_ref_for (xid_ tx) g is_valid) l ↔ cts_ o = INF.
Proof.
  intros Htx Hn Hr Hl. unfold foreach_from_relationship_of_node. rewrite (bind_val _ _ _ _ _ (list_fuel_ok g [])).
  destruct (rship_loop_ok (xid_ tx) next_src_rship is_valid g tx (S (Z.to_nat (vec_capacity (rships_ g)))) g []
    (from_rship_list n) l Htx eq_refl (reads_refl _ g Hn Hr) Hl) as (g' & E & R).
  { pose proof (vlist_length _ _ _ _ _ Hr Hl). lia. }
  exists g'. split; [exact E|]. split; [done|]. intros id r o Hid Ho. rewrite list_elem_of_omap. split.
  - intros (j & _ & Hj). unfold rship_ref_for, mbind, option_bind in Hj.
    destruct (sees (xid_ tx) (rships_ g) j) as [[r' o']|] eqn:E'; [|done]. cbn [fst snd] in Hj.
    destruct (is_valid o') eqn:Ev; [|done]. injection Hj as -> ->. simplify_eq. by apply bool_decide_eq_true in Ev.
  - intros Hc. exists id. split; [done|]. unfold rship_ref_for, mbind, option_bind. rewrite Ho. cbn [fst snd].
    unfold is_valid. by rewrite bool_decide_eq_true_2.
Qed.
End theorems.

Section variable.
Context {V : Type → Type} `{!Vec V} {D : Type} `{!Dictionary D} {X : Type} `{!Indexes X}.
Notation db := (gdb V D X).

(** C27: the traversal of the outgoing relationships with [min .. max] hops ends,
    also when the graph has cycles, and delivers the version the transaction
    sees of exactly those relationships that are the last one of a walk with that
    many relationships from the node: as often as there are such walks. *)
Theorem variable_relationships_delivered (g : db) tx (nid : Z) r (o : obj node) adj P min max
    (x := xid_ tx) (ends := ends x g dest_node adj min (Z.to_nat max) 1 (adj nid)) :
  current_transaction_ g = Some tx → vec_rd (nodes_ g) → vec_rd (rships_ g) →
  closed x g next_src_rship dest_node from_rship_list adj P → P nid → sees x (nodes_ g) nid = Some (r, o) →
  (∀ fuel, (rounds x g dest_node adj (Z.to_nat max) (adj nid) ≤ fuel)%nat →
     ∃ g' refs, foreach_variable_from_relationship_of_node fuel (body_ o) min max collect (g, []) = ((g', refs), Val tt)
       ∧ reads x g g' ∧ refs ≡ₚ rship_version x g <$> ends)
  ∧ ∀ id, id ∈ ends ↔ ∃ h, walk x g dest_node adj nid h id ∧ min ≤ h ≤ max.
Proof.
  intros Htx Hn Hr Hcl HP Ho. destruct (Hcl nid HP) as (r' & o' & Ho' & Hl & HPl).
  rewrite Ho in Ho'. injection Ho' as <- <-. split.
  - intros fuel Hf. unfold foreach_variable_from_relationship_of_node.
    destruct (variable_loop_ok x g next_src_rship dest_node from_rship_list adj P tx min max fuel Hcl Htx eq_refl
      [(from_rship_list (body_ o), 1)] [adj nid] g [] (reads_refl _ _ Hn Hr)) as (g' & out & E & R & Hout).
    + constructor; [|constructor]. split_and!; done.
    + unfold queue_rounds. simpl. unfold levels. replace (max - 1 + 1) with max by lia. lia.
    + exists g', out. split; [exact E|]. split; [done|]. rewrite Hout. unfold queue_ends. simpl. unfold levels.
      replace (max - 1 + 1) with max by lia. by rewrite app_nil_r.
  - intros id. unfold ends. rewrite ends_walk by lia. split.
    + intros (h & Hw & H1 & H2). exists h. split; [done|].
      assert (1 ≤ h) by (clear -Hw; induction Hw; lia). lia.
    + intros (h & Hw & H1 & H2). exists h. split; [done|]. lia.
Qed.
End variable.
