(* ===== verification/SearchFacts.v ===== *)
(** * SearchFacts: graph searches in the view of a transaction

    A search follows the relationships that the transaction sees and that are
    still the current versions.  [follow_ok] says what following the
    relationships of one node does to the variables of a search. *)

From stdpp Require Import relations.
From S2P Require Import Prelude VecSpec Txn Mvto DictSpec IndexSpec Literals Property PropertyList GraphState GraphOps QueryCtx Bfs GraphCommit GraphIndexFacts GraphFacts GraphNodes QueryFacts QueryTraversal.

Section view.
Context {V : Type → Type} `{!Vec V} {D : Type} `{!Dictionary D} {X : Type} `{!Indexes X}.
Notation db := (gdb V D X).
Implicit Types (g : db).
Variable x : Z.

(** What a transaction sees is what its references refer to. *)
Lemma sees_refers {B} (v : V (tobj B pitems)) id r o : sees x v id = Some (r, o) →
  ∃ o', refers v (id, r) o' ∧ body_ o' = body_ o ∧ cts_ o' = cts_ o.
Proof.
  unfold sees, mbind, option_bind. destruct (vec_get v id) as [t|] eqn:Ht; [|done]. unfold seen.
  destruct ((get_valid_version x (fetched x t)).2) as [r'|]; [|done].
  intros (o' & Ho & [= -> ->])%fmap_Some. destruct r' as [|a].
  - exists (main_ t). split; [by exists t|]. injection Ho as <-. destruct t as [[ti bt ct rt d b] l n].
    unfold fetched, set_main, set_rts, prepare. simpl. destruct d as [d|]; simpl; repeat (case_bool_decide; simpl); done.
  - exists o'. split; [|done]. exists t. split; [done|]. exact Ho.
Qed.
Lemma sees_get {B} (v : V (tobj B pitems)) id p : sees x v id = Some p → is_Some (vec_get v id).
Proof. unfold sees, mbind, option_bind. by destruct (vec_get v id). Qed.

(** ** The graph *)
Section graph.
Variables (g : db) (tx : transaction).
Hypothesis Htx : current_transaction_ g = Some tx.
Hypothesis Hx : xid_ tx = x.
Hypothesis Hn0 : vec_rd (nodes_ g).
Hypothesis Hr0 : vec_rd (rships_ g).

(** A relationship the search passes over: visible and current. *)
Definition live (id : Z) : bool := match sees x (rships_ g) id with Some (_, o) => is_valid o | None => false end.

Lemma loop_each {A} next (c : oref → M (db * A) unit) (f : Z → A → A) (Inv : A → Prop) (L : list Z) :
  (∀ id r o g1 a, id ∈ L → sees x (rships_ g) id = Some (r, o) → live id = true → reads x g g1 → Inv a →
     ∃ g2, c (id, r) (g1, a) = ((g2, f id a), Val tt) ∧ reads x g g2 ∧ Inv (f id a)) →
  ∀ fuel g1 a i l, l ⊆ L → reads x g g1 → vlist x g next i l → (length l < fuel)%nat → Inv a →
  ∃ g2, rship_loop next is_valid c fuel i (g1, a) = ((g2, foldl (λ a id, f id a) a (filter (λ id, live id = true) l)), Val tt)
    ∧ reads x g g2 ∧ Inv (foldl (λ a id, f id a) a (filter (λ id, live id = true) l)).
Proof.
  intros Hc. induction fuel as [|fuel IH]; intros g1 a i l HL R Hl Hf HI; [lia|].
  destruct l as [|j l]; simpl in Hf; cbn [rship_loop].
  { simpl in Hl. subst i. exists g1. by rewrite bool_decide_eq_true_2. }
  pose proof Hl as (-> & Hu & r & o & Ho & Hl'). rewrite bool_decide_eq_false_2 by done.
  destruct (reads_rd _ _ _ R) as [Hn1 Hr1].
  destruct (rship_by_id_sees x g1 tx a j r o) as (g2 & E2 & R2 & Ro2); [|done|done|done|by rewrite (proj2 (reads_sees _ _ _ R))|].
  { by rewrite (reads_current _ _ _ R). }
  rewrite (bind_val _ _ _ _ _ E2). destruct (reads_rd _ _ _ R2) as [Hn2 Hr2].
  destruct (rship_ref_refers x g2 a (j, r) o Hn2 Hr2 Ro2) as (g3 & E3 & R3 & _). rewrite (bind_val _ _ _ _ _ E3).
  assert (reads x g g3) as R03 by (do 2 (etrans; [|eassumption]); done).
  assert (live j = is_valid o) as Elive by (unfold live; by rewrite Ho). rewrite filter_cons.
  assert (∃ g4, when (is_valid o) (c (j, r)) (g3, a) = ((g4, if is_valid o then f j a else a), Val tt)
    ∧ reads x g g4 ∧ Inv (if is_valid o then f j a else a)) as (g4 & E4 & R4 & HI4).
  { destruct (is_valid o) eqn:Ev; simpl; [|by exists g3].
    apply (Hc j r o g3 a); [apply HL; by left|done|done|done|done]. }
  rewrite (bind_val _ _ _ _ _ E4).
  destruct (sees_refers (rships_ g4) j r o) as (o' & Ro' & Eb & _); [by rewrite (proj2 (reads_sees _ _ _ R4))|].
  destruct (reads_rd _ _ _ R4) as [Hn4 Hr4].
  destruct (rship_ref_refers x g4 (if is_valid o then f j a else a) (j, r) o' Hn4 Hr4 Ro') as (g5 & E5 & R5 & _).
  rewrite (bind_val _ _ _ _ _ E5), Eb.
  destruct (IH g5 (if is_valid o then f j a else a) (next (body_ o)) l) as (g6 & E6 & R6 & HI6);
    [intros k Hk; apply HL; by right|by etrans|done|lia|done|].
  exists g6. rewrite E6, Elive. by destruct (is_valid o).
Qed.

(** The other ends of the relationships of a node that a search may pass, in
    the order in which it comes to them. *)
Variables (both : bool) (outs ins : Z → list Z) (rp : Z → bool).
Definition passes (id : Z) : Prop := live id = true ∧ rp id = true.
#[export] Instance passes_dec id : Decision (passes id).
Proof. unfold passes. apply _. Defined.
Definition out_succs (nid : Z) : list Z := dst x g dest_node <$> filter passes (outs nid).
Definition in_succs (nid : Z) : list Z := dst x g src_node <$> filter passes (ins nid).
Definition succs (nid : Z) : list Z := out_succs nid ++ (if both then in_succs nid else []).

(** The nodes a search can come to. *)
Variable ns : list Z.
Record searchable : Prop := {
  se_out : closed x g next_src_rship dest_node from_rship_list outs (λ nid, nid ∈ ns);
  se_in : both = true → closed x g next_dest_rship src_node to_rship_list ins (λ nid, nid ∈ ns)
}.
Hypothesis Hcl : searchable.

Lemma succs_in nid w : nid ∈ ns → w ∈ succs nid → w ∈ ns.
Proof.
  intros Hn [Hw|Hw]%elem_of_app.
  - apply list_elem_of_fmap in Hw as (id & -> & [_ Hid]%list_elem_of_filter).
    destruct (se_out Hcl nid Hn) as (r & o & _ & _ & H). by apply H.
  - destruct both eqn:Eb; [|by apply elem_of_nil in Hw].
    apply list_elem_of_fmap in Hw as (id & -> & [_ Hid]%list_elem_of_filter).
    destruct (se_in Hcl Eb nid Hn) as (r & o & _ & _ & H). by apply H.
Qed.
Lemma node_sees nid : nid ∈ ns → ∃ r o, sees x (nodes_ g) nid = Some (r, o).
Proof. intros Hn. destruct (se_out Hcl nid Hn) as (r & o & Ho & _). by eauto. Qed.
Lemma node_bounds nid : nid ∈ ns → 0 ≤ nid < Z.of_nat (num_nodes g).
Proof.
  intros (r & o & Ho)%node_sees. destruct (sees_get _ _ _ Ho) as [t Ht].
  pose proof (vec_get_bounds _ _ _ Hn0 Ht). unfold num_nodes. lia.
Qed.

Section follow.
Context {A S : Type}.
Notation st := (db * (A * S))%type.
(** The consumers do for a relationship that passes what [step] does for its
    other end, and nothing for the others. *)
Variables (out inc : oref → M st unit) (step : Z → A * S → A * S) (Inv : A * S → Prop).
Definition consumes (c : oref → M st unit) (field : relationship → Z) : Prop := ∀ id r o g1 a,
  sees x (rships_ g) id = Some (r, o) → live id = true → dst x g field id ∈ ns → reads x g g1 → Inv a →
  ∃ g2, c (id, r) (g1, a) = ((g2, if rp id then step (dst x g field id) a else a), Val tt) ∧ reads x g g2
    ∧ Inv (if rp id then step (dst x g field id) a else a).

Lemma foldl_passes field a l :
  foldl (λ a id, if rp id then step (dst x g field id) a else a) a (filter (λ id, live id = true) l)
  = foldl (λ a w, step w a) a (dst x g field <$> filter passes l).
Proof.
  revert a. induction l as [|id l IH]; intros a; [done|]. rewrite !filter_cons. destruct (decide (passes id)) as [[E1 E2]|Hp].
  - rewrite decide_True by done. simpl. by rewrite E2, IH.
  - case_decide as E1; [|apply IH]. simpl. destruct (rp id) eqn:E2; [by destruct Hp|apply IH].
Qed.

Lemma follow_ok nid r g1 a : nid ∈ ns → sees x (nodes_ g) nid = Some r → reads x g g1 → Inv a →
  consumes out dest_node → (both = true → consumes inc src_node) →
  ∃ g2, follow both (nid, r.1) out inc (g1, a) = ((g2, foldl (λ a w, step w a) a (succs nid)), Val tt)
    ∧ reads x g g2 ∧ Inv (foldl (λ a w, step w a) a (succs nid)).
Proof.
  intros Hn Hs R HI Hout Hinc. destruct r as [r o]. cbn [fst]. unfold follow.
  assert (∀ (g1 : db) (a : A * S), reads x g g1 → ∃ g2 o', on_fst (node_ref (nid, r)) (g1, a) = ((g2, a), Val o')
    ∧ reads x g g2 ∧ body_ o' = body_ o) as Href.
  { intros h b Rh. destruct (sees_refers (nodes_ h) nid r o) as (o' & Ro & Eb & _); [by rewrite (proj1 (reads_sees _ _ _ Rh))|].
    destruct (reads_rd _ _ _ Rh) as [Hnh Hrh].
    destruct (node_ref_refers x h b (nid, r) o' Hnh Hrh Ro) as (h2 & E & R2 & _). exists h2, o'. split; [done|]. split; [by etrans|done]. }
  assert (∀ next field (l : list Z) (c : oref → M st unit) (hd : node → Z) (h : db) (b : A * S), vlist x g next (hd (body_ o)) l → (∀ id, id ∈ l → dst x g field id ∈ ns) →
    consumes c field → reads x g h → Inv b →
    ∃ h2, (f ← on_fst list_fuel; rship_loop next is_valid c f (hd (body_ o))) (h, b)
        = ((h2, foldl (λ a w, step w a) b (dst x g field <$> filter passes l)), Val tt)
      ∧ reads x g h2 ∧ Inv (foldl (λ a w, step w a) b (dst x g field <$> filter passes l))) as Hloop.
  { intros next field l c hd h b Hl Hin Hc Rh Hb. rewrite (bind_val _ _ _ _ _ (list_fuel_ok h b)). rewrite <-foldl_passes.
    apply (loop_each next c (λ id a, if rp id then step (dst x g field id) a else a) Inv l); [|done..| |done].
    - intros id r1 o1 h1 b1 Hid Ho1 Hlv R1 Hb1. apply (Hc id r1 o1 h1 b1); auto.
    - rewrite (reads_capacity _ _ _ Rh). pose proof (vlist_length _ _ _ _ _ Hr0 Hl). lia. }
  destruct (Href g1 a R) as (g2 & o2 & E2 & R2 & Eb2). rewrite (bind_val _ _ _ _ _ E2), Eb2.
  destruct (se_out Hcl nid Hn) as (r' & o' & Ho' & Hl & Hin). rewrite Hs in Ho'. injection Ho' as <- <-.
  destruct (Hloop next_src_rship dest_node (outs nid) out from_rship_list g2 a Hl Hin Hout R2 HI) as (g3 & E3 & R3 & HI3).
  unfold foreach_from_relationship_of_node. rewrite (bind_val _ _ _ _ _ E3). unfold succs. rewrite foldl_app.
  fold (out_succs nid) in *. set (a3 := foldl _ a (out_succs nid)) in *. destruct both eqn:Eboth; [|by exists g3].
  destruct (Href g3 a3 R3) as (g4 & o4 & E4 & R4 & Eb4). rewrite (bind_val _ _ _ _ _ E4), Eb4.
  destruct (se_in Hcl Eboth nid Hn) as (r' & o' & Ho' & Hl' & Hin'). rewrite Hs in Ho'. injection Ho' as <- <-.
  destruct (Hloop next_dest_rship src_node (ins nid) inc to_rship_list g4 a3 Hl' Hin' (Hinc eq_refl) R4 HI3) as (g5 & E5 & R5 & HI5).
  exists g5. split; [exact E5|]. by split.
Qed.
End follow.
End graph.
End view.

(** ** What breadth-first search visits

    The search visits exactly the nodes that can be reached, each once, and
    ends after at most as many rounds as there are relationships to pass. *)

(** ** Sums over what has not been visited *)
Fixpoint unseen_sum (f : Z → nat) (ns done : list Z) : nat :=
  match ns with
  | [] => 0
  | v :: ns' => (if decide (v ∈ done) then 0 else f v) + unseen_sum f ns' done
  end.
Lemma unseen_sum_out f ns done v : v ∉ ns → unseen_sum f ns (done ++ [v]) = unseen_sum f ns done.
Proof.
  induction ns as [|w ns IH]; intros Hv; [done|]. apply not_elem_of_cons in Hv as [Hne Hv]. simpl. rewrite IH by done.
  f_equal. destruct (decide (w ∈ done)) as [|Hd]; [rewrite decide_True by set_solver|rewrite decide_False by set_solver]; done.
Qed.
Lemma unseen_sum_visit f ns done v : NoDup ns → v ∈ ns → v ∉ done →
  (unseen_sum f ns (done ++ [v]) + f v = unseen_sum f ns done)%nat.
Proof.
  induction 1 as [|w ns Hw _ IH]; intros Hv Hd; [by apply elem_of_nil in Hv|]. simpl.
  destruct (decide (w = v)) as [->|Hne].
  - rewrite (decide_False (P := v ∈ done)), decide_True by set_solver. rewrite unseen_sum_out by done. lia.
  - assert (v ∈ ns) as Hv' by set_solver. specialize (IH Hv' Hd).
    destruct (decide (w ∈ done)); [rewrite decide_True by set_solver|rewrite decide_False by set_solver]; lia.
Qed.
Lemma unseen_sum_nil f ns : unseen_sum f ns [] = sum_list_with f ns.
Proof. induction ns as [|v ns IH]; [done|]. simpl. by rewrite IH. Qed.

(** ** Bits *)
(** The bits of the nodes in [done] are set. *)
Definition bits_of (n : nat) (done : list Z) (bits : list bool) : Prop :=
  length bits = n ∧ ∀ v, 0 ≤ v < Z.of_nat n → bits !! Z.to_nat v = Some (bool_decide (v ∈ done)).
Lemma bits_of_none n : bits_of n [] (replicate n false).
Proof. split; [apply length_replicate|]. intros v Hv. rewrite lookup_replicate_2 by lia. by rewrite bool_decide_eq_false_2 by set_solver. Qed.
Lemma test_bit_of n done bits v : bits_of n done bits → 0 ≤ v < Z.of_nat n → test_bit bits v = Val (bool_decide (v ∈ done)).
Proof. intros [_ H] Hv. unfold test_bit. rewrite H by done. by rewrite bool_decide_eq_true_2 by lia. Qed.
Lemma set_bit_of n done bits v : bits_of n done bits → 0 ≤ v < Z.of_nat n →
  ∃ bits', set_bit bits v = Val bits' ∧ bits_of n (done ++ [v]) bits'.
Proof.
  intros [Hlen H] Hv. unfold set_bit. rewrite bool_decide_eq_true_2 by lia. eexists. split; [done|].
  split; [by rewrite length_insert|]. intros w Hw. destruct (decide (w = v)) as [->|Hne].
  - rewrite list_lookup_insert_eq by lia. by rewrite bool_decide_eq_true_2 by set_solver.
  - rewrite list_lookup_insert_ne by lia. rewrite H by done. f_equal. apply bool_decide_ext. set_solver.
Qed.

(** ** Breadth-first search *)
Section bfs.
Context {V : Type → Type} `{!Vec V} {D : Type} `{!Dictionary D} {X : Type} `{!Indexes X}.
Notation db := (gdb V D X).
Variables (g : db) (tx : transaction).
Notation x := (xid_ tx).
Hypothesis Htx : current_transaction_ g = Some tx.
Hypothesis Hn0 : vec_rd (nodes_ g).
Hypothesis Hr0 : vec_rd (rships_ g).
Variables (both : bool) (outs ins : Z → list Z) (rp : Z → bool) (ns : list Z).
Hypothesis Hcl : searchable x g both outs ins ns.
Hypothesis Hns : NoDup ns.
Notation succs := (succs x g both outs ins rp).

(** The caller's functions read the database only; [visit] counts for the
    caller's state. *)
Context {A : Type}.
Notation user_st := (db * A)%type.
Definition asks (rpred : oref → M user_st bool) : Prop := ∀ id r o g1 a,
  sees x (rships_ g) id = Some (r, o) → reads x g g1 → ∃ g2, rpred (id, r) (g1, a) = ((g2, a), Val (rp id)) ∧ reads x g g2.
Definition visits (visit : oref → M user_st unit) (va : Z → A → A) : Prop := ∀ id r o g1 a,
  id ∈ ns → sees x (nodes_ g) id = Some (r, o) → reads x g g1 →
  ∃ g2, visit (id, r) (g1, a) = ((g2, va id a), Val tt) ∧ reads x g g2.
Variables (rpred : oref → M user_st bool) (visit : oref → M user_st unit) (va : Z → A → A).
Hypothesis Hrp : asks rpred.
Hypothesis Hvisit : visits visit va.

Lemma user_ok {S B} (m : M user_st B) (g1 g2 : db) (a a' : A) (y : S) r :
  m (g1, a) = ((g2, a'), r) → user m (g1, (a, y)) = ((g2, (a', y)), r).
Proof. intros E. unfold user. cbn [fst snd]. by rewrite E. Qed.

Definition bfs_step (w : Z) (s : A * bfs_vars) : A * bfs_vars := (s.1, mk_bfs (frontier s.2 ++ [w]) (visited s.2)).
Lemma bfs_push_ok field : consumes x g rp ns bfs_step (λ _, True) (bfs_push rpred field) field.
Proof.
  intros id r o g1 [a y] Ho Hlive Hd R _. unfold bfs_push.
  destruct (Hrp id r o g1 a Ho R) as (g2 & E2 & R2). rewrite (bind_val _ _ _ _ _ (user_ok _ _ _ _ _ y _ E2)).
  destruct (rp id); [|by exists g2].
  destruct (sees_refers x (rships_ g2) id r o) as (o' & Ro & Eb & _); [by rewrite (proj2 (reads_sees _ _ _ R2))|].
  destruct (reads_rd _ _ _ R2) as [Hn2 Hr2].
  destruct (rship_field_refers x g2 (a, y) field (id, r) o' Hn2 Hr2 Ro) as (g3 & E3 & R3 & _).
  rewrite (bind_val _ _ _ _ _ E3). exists g3. split; [|split; [by etrans|done]].
  unfold dst. by rewrite Ho, Eb.
Qed.
Lemma foldl_bfs_step a fr bits l :
  foldl (λ s w, bfs_step w s) (a, mk_bfs fr bits) l = (a, mk_bfs (fr ++ l) bits).
Proof. revert fr. induction l as [|w l IH]; intros fr; [by rewrite app_nil_r|]. etrans; [apply (IH (fr ++ [w]))|]. by rewrite <-app_assoc. Qed.

Definition edge (v w : Z) : Prop := w ∈ succs v.
Definition out_degree (v : Z) : nat := length (succs v).

(** What the loop does from a frontier on, when [done] has been visited. *)
Record explores (fr done order : list Z) : Prop := {
  ex_nodup : NoDup (done ++ order);
  ex_in v : v ∈ order → v ∈ ns;
  ex_frontier v : v ∈ fr → v ∈ done ++ order;
  ex_closed v w : v ∈ order → edge v w → w ∈ done ++ order;
  ex_from v : v ∈ order → ∃ u, u ∈ fr ∧ rtc edge u v;
  ex_first v rest : fr = v :: rest → v ∉ done → head order = Some v
}.

Lemma explores_nil done : NoDup done → explores [] done [].
Proof.
  intros H. split; [by rewrite app_nil_r|by intros v ?%elem_of_nil|by intros v ?%elem_of_nil|by intros v w ?%elem_of_nil|
    by intros v ?%elem_of_nil|done].
Qed.
Lemma bfs_loop_ok fuel : ∀ g1 a fr done bits, reads x g g1 → (∀ v, v ∈ fr → v ∈ ns) → NoDup done →
  bits_of (num_nodes g) done bits → (length fr + unseen_sum out_degree ns done ≤ fuel)%nat →
  ∃ g2 y order, bfs_loop both rpred visit fuel (g1, (a, mk_bfs fr bits)) = ((g2, (foldl (λ a v, va v a) a order, y)), Val tt)
    ∧ reads x g g2 ∧ explores fr done order.
Proof.
  induction fuel as [|fuel IH]; intros g1 a fr done bits R Hfr Hnd Hb Hf.
  { destruct fr; [|simpl in Hf; lia]. exists g1, (mk_bfs [] bits), []. split; [done|]. split; [done|by apply explores_nil]. }
  destruct fr as [|v fr].
  { exists g1, (mk_bfs [] bits), []. split; [done|]. split; [done|by apply explores_nil]. }
  cbn [bfs_loop]. rewrite (bind_val vars _ _ (g1, (a, mk_bfs (v :: fr) bits)) (mk_bfs (v :: fr) bits)) by done.
  cbn [frontier visited]. rewrite (bind_val (set_vars _) _ _ (g1, (a, mk_bfs fr bits)) tt) by done.
  assert (v ∈ ns) as Hv by (apply Hfr; by left).
  pose proof (node_bounds x g Hn0 both outs ins ns Hcl v Hv) as Hvb.
  rewrite (test_bit_of _ _ _ _ Hb Hvb). rewrite (bind_val (lift_res _) _ _ (g1, (a, mk_bfs fr bits)) (bool_decide (v ∈ done))) by done.
  simpl in Hf. case_bool_decide as Hd.
  - destruct (IH g1 a fr done bits R) as (g2 & y & order & E & R2 & [X1 X2 X3 X4 X5 X6]);
      [intros; apply Hfr; by right|done|done|lia|].
    exists g2, y, order. split; [done|]. split; [done|]. split; [done|done| |done| |].
    + intros w [->|Hw]%elem_of_cons; [apply elem_of_app; by left|by apply X3].
    + intros w (u & Hu & Hr)%X5. exists u. split; [by right|done].
    + by intros ? ? [= <- <-].
  - destruct (set_bit_of _ _ _ _ Hb Hvb) as (bits' & Eb & Hb').
    rewrite Eb, (bind_val (lift_res (Val bits')) _ _ (g1, (a, mk_bfs fr bits)) bits') by done.
    rewrite (bind_val (set_vars _) _ _ (g1, (a, mk_bfs fr bits')) tt) by done.
    destruct (node_sees x g both outs ins ns Hcl v Hv) as (r & o & Ho). destruct (reads_rd _ _ _ R) as [Hn1 Hr1].
    destruct (node_by_id_sees x g1 tx (a, mk_bfs fr bits') v r o) as (g2 & E2 & R2 & _);
      [by rewrite (reads_current _ _ _ R)|done|done|done|by rewrite (proj1 (reads_sees _ _ _ R))|].
    rewrite (bind_val _ _ _ _ _ E2). assert (reads x g g2) as R02 by (by etrans).
    destruct (Hvisit v r o g2 a Hv Ho R02) as (g3 & E3 & R3).
    rewrite (bind_val _ _ _ _ _ (user_ok _ _ _ _ _ (mk_bfs fr bits') _ E3)).
    destruct (follow_ok x g tx Htx eq_refl Hr0 both outs ins rp ns Hcl
      (bfs_push rpred dest_node) (bfs_push rpred src_node) bfs_step (λ _, True) v (r, o) g3 (va v a, mk_bfs fr bits'))
      as (g4 & E4 & R4 & _); [done|done|done|done|apply bfs_push_ok|intros _; apply bfs_push_ok|].
    cbn [fst] in E4. rewrite foldl_bfs_step in E4. rewrite (bind_val _ _ _ _ _ E4).
    assert (NoDup (done ++ [v])) as Hnd' by (apply NoDup_app; split_and!; [done|set_solver|apply NoDup_singleton]).
    destruct (IH g4 (va v a) (fr ++ succs v) (done ++ [v]) bits' R4) as (g5 & y & order & E5 & R5 & [X1 X2 X3 X4 X5 X6]).
    + intros w [Hw|Hw]%elem_of_app; [apply Hfr; by right|by eapply succs_in].
    + done.
    + done.
    + pose proof (unseen_sum_visit out_degree ns done v Hns Hv Hd). rewrite length_app. unfold out_degree in *. lia.
    + exists g5, y, (v :: order). split; [exact E5|]. split; [done|]. rewrite <-app_assoc in X1. split.
      * done.
      * intros w [->|Hw]%elem_of_cons; auto.
      * intros w [->|Hw]%elem_of_cons; [set_solver|].
        assert (w ∈ (done ++ [v]) ++ order) as H by (apply X3; set_solver). set_solver.
      * intros u w [->|Hu]%elem_of_cons He.
        -- assert (w ∈ (done ++ [v]) ++ order) as H by (apply X3, elem_of_app; by right). set_solver.
        -- pose proof (X4 u w Hu He) as H. set_solver.
      * intros w [->|Hw]%elem_of_cons; [exists v; split; [by left|done]|].
        destruct (X5 w Hw) as (u & [Hu|Hu]%elem_of_app & Hr); [exists u; split; [by right|done]|].
        exists v. split; [by left|]. by eapply rtc_l.
      * by intros ? ? [= <- <-] _.
Qed.

(** C28: breadth-first search visits exactly the nodes that can be reached from
    the start over current relationships which the transaction sees and the
    predicate accepts, each once and the start first; it ends on cyclic graphs
    too. *)
Theorem bfs_visits_reachable fuel start a :
  start ∈ ns → (1 + sum_list_with out_degree ns ≤ fuel)%nat →
  ∃ g' order, bfs fuel start both rpred visit (g, a) = ((g', foldl (λ a v, va v a) a order), Val tt)
    ∧ reads x g g' ∧ head order = Some start ∧ NoDup order ∧ ∀ v, v ∈ order ↔ rtc edge start v.
Proof.
  intros Hs Hf. destruct (bfs_loop_ok fuel g a [start] [] (replicate (num_nodes g) false))
    as (g' & y & order & E & R & [X1 X2 X3 X4 X5 X6]).
  - by apply reads_refl.
  - by intros v ->%list_elem_of_singleton.
  - constructor.
  - apply bits_of_none.
  - rewrite unseen_sum_nil. exact Hf.
  - exists g', order. unfold bfs. cbn [fst snd]. rewrite E. split; [done|]. split; [done|].
    split; [by eapply X6; [done|apply not_elem_of_nil]|]. split; [exact X1|]. intros v. split.
    + intros (u & ->%list_elem_of_singleton & Hr)%X5. done.
    + assert (start ∈ order) as Hstart by (apply X3; by left).
      intros Hr. induction Hr as [|u v w He _ IH] in Hstart |- *; [done|]. apply IH. by eapply X4.
Qed.
End bfs.
