(* ===== verification/ShortestFacts.v ===== *)
(** * ShortestFacts: the unweighted search finds a shortest path

    The frontier of the search holds paths whose lengths differ by one at most,
    and every node on a shorter walk has been visited with its distance.  So the
    first path to the goal is a shortest one. *)

From Stdlib Require Import SpecFloat Sorting.Sorted.
From stdpp Require Import relations sorting.
From S2P Require Import Prelude VecSpec DictSpec IndexSpec Literals Property PropertyList.
From S2P Require Import Txn Mvto GraphState GraphOps GraphNodes QueryCtx QueryFacts QueryTraversal.
From S2P Require Import Bfs ShortestPath SearchFacts.

Section elems.
Context {B : Type}.
Implicit Types l : list B.
Lemma elem_ok l i y : 0 ≤ i → l !! Z.to_nat i = Some y → elem l i = Val y.
Proof. intros Hi E. unfold elem. by rewrite bool_decide_eq_true_2, E. Qed.
Lemma put_elem_ok l i y : 0 ≤ i < Z.of_nat (length l) → put_elem l i y = Val (<[Z.to_nat i := y]> l).
Proof. intros Hi. unfold put_elem. by rewrite bool_decide_eq_true_2. Qed.
End elems.

Section shortest.
Context {V : Type → Type} `{!Vec V} {D : Type} `{!Dictionary D} {X : Type} `{!Indexes X}.
Notation db := (gdb V D X).
Variables (g : db) (tx : transaction).
Notation x := (xid_ tx).
Hypothesis Htx : current_transaction_ g = Some tx.
Hypothesis Hn0 : vec_rd (nodes_ g).
Hypothesis Hr0 : vec_rd (rships_ g).
Hypothesis Hcap : vec_capacity (nodes_ g) < two64.
Variables (both : bool) (outs ins : Z → list Z) (rp : Z → bool) (ns : list Z).
Hypothesis Hcl : searchable x g both outs ins ns.
Hypothesis Hns : NoDup ns.
Notation succs := (succs x g both outs ins rp).
Notation edge := (edge g tx both outs ins rp).
Notation n := (num_nodes g).
Context {A : Type}.
Notation user_st := (db * A)%type.
Variables (rpred : oref → M user_st bool) (visit : oref → path → M user_st unit) (va : Z → path → A → A).
Hypothesis Hrp : asks g tx rp rpred.
Hypothesis Hvisit : ∀ p, visits g tx ns (λ r, visit r p) (λ v, va v p).
Variables (start stop : Z) (spath0 : path_item).

(** The distance noted for a node. *)
Definition dval (y : uw_vars) (v : Z) : Z := default 0 (distance y !! Z.to_nat v).
Definition sized (y : uw_vars) : Prop := length (distance y) = n.
Lemma elem_dval y v : sized y → 0 ≤ v < Z.of_nat n → elem (distance y) v = Val (dval y v).
Proof.
  intros Hl Hv. unfold dval. destruct (lookup_lt_is_Some_2 (distance y) (Z.to_nat v)) as [d Ed]; [unfold sized in Hl; lia|].
  rewrite Ed. apply elem_ok; [lia|done].
Qed.

(** ** One relationship *)
Definition uw_step (u : path) (uid w : Z) (s : A * uw_vars) : A * uw_vars :=
  match uw_takes stop false s.2 uid w with
  | Val true => match uw_take stop false s.2 u uid w with Val y' => (s.1, y') | Exn _ => s end
  | _ => s
  end.
Definition readable (vis : list Z) (y : uw_vars) : Prop := bits_of n vis (uw_visited y) ∧ sized y.

Lemma uw_takes_ok vis y uid w : readable vis y → 0 ≤ w < Z.of_nat n → uw_takes stop false y uid w = Val (negb (bool_decide (w ∈ vis))).
Proof. intros [Hb _] Hw. unfold uw_takes. rewrite (test_bit_of _ _ _ _ Hb Hw). simpl. by destruct (bool_decide (w ∈ vis)). Qed.
Lemma uw_take_ok vis y u uid w : readable vis y → 0 ≤ w < Z.of_nat n → 0 ≤ uid < Z.of_nat n →
  ∃ bits', bits_of n (vis ++ [w]) bits' ∧
    let dist := <[Z.to_nat w := u64 (dval y uid + 1)]> (distance y) in
    uw_take stop false y u uid w = Val (
      if bool_decide (w = stop) then mk_uw (uw_frontier y ++ [u ++ [w]]) bits' dist true
        (mk_path_item (u ++ [w]) (u64 (dval y uid + 1)) (weight_ (uw_spath y))) (uw_spaths y)
      else mk_uw (uw_frontier y ++ [u ++ [w]]) bits' dist (uw_found y) (uw_spath y) (uw_spaths y)).
Proof.
  intros [Hb Hl] Hw Hu. destruct (set_bit_of _ _ _ _ Hb Hw) as (bits' & Eb & Hb'). exists bits'. split; [done|].
  unfold uw_take. rewrite Eb. simpl. rewrite (elem_dval y uid Hl Hu). simpl.
  rewrite put_elem_ok by (unfold sized in Hl; lia). simpl. case_bool_decide; [|done].
  rewrite (elem_ok _ _ (u64 (dval y uid + 1))); [done|lia|]. apply list_lookup_insert_eq. unfold sized in Hl. lia.
Qed.

Lemma uw_step_readable vis u uid w s : readable vis s.2 → 0 ≤ w < Z.of_nat n → 0 ≤ uid < Z.of_nat n →
  ∃ vis', readable vis' (uw_step u uid w s).2.
Proof.
  intros H Hw Hu. unfold uw_step. rewrite (uw_takes_ok _ _ _ _ H Hw). case_bool_decide; simpl; [by exists vis|].
  destruct (uw_take_ok vis s.2 u uid w H Hw Hu) as (bits' & Hb' & E). rewrite E. exists (vis ++ [w]).
  destruct H as [_ Hl]. case_bool_decide; (split; [done|]; unfold sized in *; simpl; by rewrite length_insert).
Qed.

Definition uw_inv (s : A * uw_vars) : Prop := ∃ vis, readable vis s.2.
Lemma uw_push_ok field u uid : 0 ≤ uid < Z.of_nat n →
  consumes x g rp ns (uw_step u uid) uw_inv (uw_push stop rpred false field u uid) field.
Proof.
  intros Hu id r o g1 [a y] Ho Hlive Hd R [vis Hy]. unfold uw_push.
  destruct (sees_refers x (rships_ g1) id r o) as (o' & Ro & Eb & _); [by rewrite (proj2 (reads_sees _ _ _ R))|].
  destruct (reads_rd _ _ _ R) as [Hn1 Hr1].
  destruct (rship_field_refers x g1 (a, y) field (id, r) o' Hn1 Hr1 Ro) as (g2 & E2 & R2 & _).
  rewrite (bind_val _ _ _ _ _ E2). assert (field (body_ o') = dst x g field id) as -> by (unfold dst; by rewrite Ho, Eb).
  assert (reads x g g2) as R02 by by etrans.
  destruct (Hrp id r o g2 a Ho R02) as (g3 & E3 & R3). rewrite (bind_val _ _ _ _ _ (user_ok _ _ _ _ _ y _ E3)).
  rename R3 into R03.
  pose proof (node_bounds x g Hn0 both outs ins ns Hcl _ Hd) as Hw. exists g3.
  destruct (rp id); [|split; [done|]; split; [done|by exists vis]].
  rewrite (bind_val vars _ _ (g3, (a, y)) y) by done.
  split; [|split; [done|by eapply uw_step_readable]].
  unfold uw_step. cbn [fst snd]. rewrite (uw_takes_ok _ _ _ _ Hy Hw).
  rewrite (bind_val (lift_res _) _ _ (g3, (a, y)) (negb (bool_decide (dst x g field id ∈ vis)))) by done.
  case_bool_decide; simpl; [done|].
  destruct (uw_take_ok vis y u uid _ Hy Hw Hu) as (bits' & Hb' & ->). by case_bool_decide.
Qed.

(** ** The invariant *)
Definition hops (p : path) : Z := Z.of_nat (length p) - 1.
Definition chained (p : path) : Prop := ∀ i v w, p !! i = Some v → p !! S i = Some w → edge v w.
Record path_to (p : path) (v : Z) : Prop := {
  pt_head : head p = Some start;
  pt_last : last p = Some v;
  pt_chain : chained p
}.
Lemma path_to_snoc p v w : path_to p v → edge v w → path_to (p ++ [w]) w.
Proof.
  intros [H1 H2 H3] He. split; [|by rewrite last_snoc|].
  - rewrite head_lookup, lookup_app_l by (destruct p; [done|simpl; lia]). by rewrite <-head_lookup.
  - intros i a b Ha Hb. rewrite last_lookup in H2.
    destruct (decide (S i < length p)%nat) as [Hi|Hi].
    + rewrite lookup_app_l in Ha, Hb by lia. by eapply H3.
    + assert (i = pred (length p)) as ->.
      { pose proof (lookup_lt_Some _ _ _ Hb) as Hl. rewrite length_app in Hl. simpl in Hl. lia. }
      assert (0 < length p)%nat by (destruct p; [done|simpl; lia]).
      rewrite lookup_app_l, H2 in Ha by lia. injection Ha as <-.
      rewrite Nat.succ_pred in Hb by lia. rewrite lookup_app_r, Nat.sub_diag in Hb by done. by injection Hb as <-.
Qed.
Lemma path_to_rtc p v : path_to p v → rtc edge start v.
Proof.
  revert v. induction p as [|w p IH] using rev_ind; intros v [Hh Hl Hc]; [done|].
  rewrite last_snoc in Hl. injection Hl as ->.
  destruct (last p) as [u|] eqn:El; [|apply last_None in El as ->; injection Hh as ->; done].
  assert (p !! pred (length p) = Some u) as Eu by by rewrite <-last_lookup.
  assert (0 < length p)%nat by (destruct p; [done|simpl; lia]).
  apply (rtc_r start u v).
  - apply IH. split; [|done|].
    + rewrite head_lookup, lookup_app_l in Hh by done. by rewrite head_lookup.
    + intros i a b Ha Hb. apply (Hc i); by apply lookup_app_l_Some.
  - apply (Hc (pred (length p))); [by apply lookup_app_l_Some|]. rewrite Nat.succ_pred by lia.
    by rewrite lookup_app_r, Nat.sub_diag.
Qed.
Lemma path_to_hops p v : path_to p v → 0 ≤ hops p.
Proof. intros [H _ _]. unfold hops. destruct p; [done|simpl; lia]. Qed.

(** Nodes visited with their distances, and paths [Q] to some of them. *)
Record known (y : uw_vars) (vis : list Z) (Q : list path) : Prop := {
  kn_readable : readable vis y;
  kn_nodup : NoDup vis;
  kn_in v : v ∈ vis → v ∈ ns;
  kn_start : start ∈ vis ∧ dval y start = 0;
  kn_dist v : v ∈ vis → 0 ≤ dval y v < Z.of_nat (length vis);
  kn_path q : q ∈ Q → ∃ v, v ∈ vis ∧ path_to q v ∧ dval y v = hops q
}.
(** The successors of a node have been visited in time. *)
Definition expanded (y : uw_vars) (vis : list Z) (v : Z) : Prop :=
  ∀ w, w ∈ succs v → w ∈ vis ∧ dval y w ≤ dval y v + 1.
Definition not_found (y : uw_vars) (vis : list Z) : Prop :=
  uw_found y = false ∧ uw_spath y = spath0 ∧ (stop ∈ vis → stop = start).
Definition found_by (y : uw_vars) (u : path) (uid : Z) : Prop :=
  uw_found y = true ∧ stop ≠ start ∧ edge uid stop ∧ path_ (uw_spath y) = u ++ [stop] ∧ hops_ (uw_spath y) = hops u + 1.

Record level (h : Z) (y : uw_vars) (vis : list Z) (Q : list path) : Prop := {
  lv_low q : q ∈ Q → h ≤ hops q ≤ h + 1;
  lv_sorted : StronglySorted (λ p q, hops p ≤ hops q) Q;
  lv_vis v : v ∈ vis → dval y v ≤ h + 1
}.
Record outer (y : uw_vars) (vis : list Z) : Prop := {
  ou_known : known y vis (uw_frontier y);
  ou_expanded v : v ∈ vis → (∃ q, q ∈ uw_frontier y ∧ path_to q v) ∨ expanded y vis v;
  ou_level u rest : uw_frontier y = u :: rest → level (hops u) y vis (uw_frontier y);
  ou_found : not_found y vis
}.

(** A node at the end of a walk is visited in time, or a path in the frontier is
    shorter than the walk. *)
Lemma outer_walk y vis k v : outer y vis → nsteps edge k start v →
  (v ∈ vis ∧ dval y v ≤ Z.of_nat k) ∨ ∃ q, q ∈ uw_frontier y ∧ hops q < Z.of_nat k.
Proof.
  intros [[_ _ _ [Hs Hs0] _ Hp] He _ _]. revert v. induction k as [|k IH]; intros v Hk.
  - inversion Hk; subst. left. split; [done|lia].
  - apply nsteps_inv_r in Hk as (u & Hu & Huv). destruct (IH u Hu) as [[Hv Hd]|(q & Hq & Hh)].
    + destruct (He u Hv) as [(q & Hq & Hpq)|Hx].
      * right. exists q. split; [done|]. destruct (Hp q Hq) as (u' & _ & Hpu' & Hdq).
        assert (u' = u) as -> by (destruct Hpu', Hpq; congruence). lia.
      * left. destruct (Hx v Huv). split; [done|lia].
    + right. exists q. split; [done|lia].
Qed.

(** While the relationships of [uid] are followed. *)
Record inner (u : path) (uid : Z) (rest : list path) (vis0 : list Z) (y : uw_vars) (vis done : list Z) (new : list path) : Prop := {
  in_frontier : uw_frontier y = rest ++ new;
  in_known : known y vis (uw_frontier y);
  in_uid : uid ∈ vis ∧ dval y uid = hops u;
  in_level : level (hops u) y vis rest;
  in_new q : q ∈ new → hops q = hops u + 1;
  in_count : length vis = (length vis0 + length new)%nat;
  in_done w : w ∈ done → w ∈ vis;
  in_expanded v : v ∈ vis → (∃ q, q ∈ uw_frontier y ∧ path_to q v) ∨ v = uid ∨ expanded y vis v;
  in_found : not_found y vis ∨ found_by y u uid ∧ stop ∈ vis
}.

Lemma known_length y vis Q : known y vis Q → (length vis ≤ n)%nat.
Proof.
  intros [_ Hnd Hin _ _ _]. rewrite <-(Nat2Z.id n). apply bounded_NoDup; [done|]. intros v Hv.
  apply (node_bounds x g Hn0 both outs ins ns Hcl). by apply Hin.
Qed.

(** A node that was not visited is taken. *)
Record taken (u : path) (w : Z) (y y' : uw_vars) (vis : list Z) : Prop := {
  tk_readable : readable (vis ++ [w]) y';
  tk_frontier : uw_frontier y' = uw_frontier y ++ [u ++ [w]];
  tk_new : dval y' w = hops u + 1;
  tk_old v : v ∈ vis → dval y' v = dval y v;
  tk_found : if bool_decide (w = stop) then uw_found y' = true ∧ path_ (uw_spath y') = u ++ [w] ∧ hops_ (uw_spath y') = hops u + 1
             else uw_found y' = uw_found y ∧ uw_spath y' = uw_spath y
}.
Lemma uw_step_new u uid a y vis Q w : known y vis Q → uid ∈ vis → dval y uid = hops u → w ∈ ns → w ∉ vis →
  ∃ y', uw_step u uid w (a, y) = (a, y') ∧ taken u w y y' vis.
Proof.
  intros Hk Iu Ih Hw Hv. pose proof (known_length _ _ _ Hk) as Hlen. destruct Hk as [Kr Knd Kin _ Kd _].
  pose proof (node_bounds x g Hn0 both outs ins ns Hcl w Hw) as Hwb.
  pose proof (node_bounds x g Hn0 both outs ins ns Hcl uid (Kin uid Iu)) as Hub.
  unfold uw_step. cbn [fst snd]. rewrite (uw_takes_ok _ _ _ _ Kr Hwb), bool_decide_eq_false_2 by done. simpl.
  destruct (uw_take_ok vis y u uid w Kr Hwb Hub) as (bits' & Hb' & ->). rewrite Ih.
  assert (u64 (hops u + 1) = hops u + 1) as ->.
  { apply Z.mod_small. pose proof (Kd uid Iu). unfold num_nodes in Hlen. lia. }
  destruct Kr as [_ Hl]. eexists. split; [done|].
  assert (∀ v d, 0 ≤ v → v ≠ w → default 0 (<[Z.to_nat w := d]> (distance y) !! Z.to_nat v) = dval y v) as Hother.
  { intros v d H0 Hne. rewrite list_lookup_insert_ne by lia. done. }
  assert (∀ d, default 0 (<[Z.to_nat w := d]> (distance y) !! Z.to_nat w) = d) as Hself.
  { intros d. rewrite list_lookup_insert_eq by (unfold sized in Hl; lia). done. }
  case_bool_decide as Hs; (split; [split; [exact Hb'|by unfold sized in *; simpl; rewrite length_insert]|done|apply Hself| |]).
  - intros v Hvv. apply Hother; [|by intros ->]. pose proof (node_bounds x g Hn0 both outs ins ns Hcl v (Kin v Hvv)). lia.
  - by rewrite bool_decide_eq_true_2.
  - intros v Hvv. apply Hother; [|by intros ->]. pose proof (node_bounds x g Hn0 both outs ins ns Hcl v (Kin v Hvv)). lia.
  - by rewrite bool_decide_eq_false_2.
Qed.

Lemma hops_snoc u w : hops (u ++ [w]) = hops u + 1.
Proof. unfold hops. rewrite length_app. simpl. lia. Qed.

Lemma taken_known u uid w y y' vis Q : known y vis Q → taken u w y y' vis → w ∈ ns → w ∉ vis → uid ∈ vis →
  path_to u uid → dval y uid = hops u → edge uid w → known y' (vis ++ [w]) (Q ++ [u ++ [w]]).
Proof.
  intros [Kr Knd Kin [Ks Ks0] Kd Kp] [Tr Tf Tn To _] Hw Hv Iu Hp Hd He.
  pose proof (path_to_hops _ _ Hp) as Hh. pose proof (Kd uid Iu) as Hdu. split.
  - done.
  - apply NoDup_app. split_and!; [done|set_solver|apply NoDup_singleton].
  - intros v [?| ->%list_elem_of_singleton]%elem_of_app; auto.
  - split; [apply elem_of_app; by left|]. by rewrite To.
  - intros v Hvv. rewrite length_app. simpl. apply elem_of_app in Hvv as [Hvv| ->%list_elem_of_singleton].
    + rewrite To by done. pose proof (Kd v Hvv). lia.
    + rewrite Tn. lia.
  - intros q [Hq| ->%list_elem_of_singleton]%elem_of_app.
    + destruct (Kp q Hq) as (v & Hvv & Hpv & Hdv). exists v. split; [apply elem_of_app; by left|]. split; [done|]. by rewrite To.
    + exists w. split; [apply elem_of_app; right; by left|]. split; [by eapply path_to_snoc|]. by rewrite Tn, hops_snoc.
Qed.

Lemma taken_expanded u w y y' vis v : taken u w y y' vis → v ∈ vis → expanded y vis v → expanded y' (vis ++ [w]) v.
Proof.
  intros [_ _ _ To _] Hv He w' Hw'. destruct (He w' Hw') as [Hin Hd]. split; [apply elem_of_app; by left|]. by rewrite !To.
Qed.

Lemma inner_step u uid rest vis0 a y vis done new w : path_to u uid →
  inner u uid rest vis0 y vis done new → w ∈ ns → edge uid w →
  ∃ y' vis' new', uw_step u uid w (a, y) = (a, y') ∧ inner u uid rest vis0 y' vis' (done ++ [w]) new'.
Proof.
  intros Hu [Ifr Ik [Iu Ih] Il Inew Ic Idone Ie If] Hw He.
  destruct (decide (w ∈ vis)) as [Hv|Hv].
  { exists y, vis, new. split.
    - unfold uw_step. cbn [fst snd]. rewrite (uw_takes_ok _ _ _ _ (kn_readable _ _ _ Ik)).
      + by rewrite bool_decide_eq_true_2.
      + by apply (node_bounds x g Hn0 both outs ins ns Hcl).
    - split; try done. intros v [Hd| ->%list_elem_of_singleton]%elem_of_app; [by apply Idone|done]. }
  destruct (uw_step_new u uid a y vis _ w Ik Iu Ih Hw Hv) as (y' & E & Ht). exists y', (vis ++ [w]), (new ++ [u ++ [w]]).
  split; [done|]. pose proof Ht as [Tr Tf Tn To Tfo].
  assert (∀ v, v ∈ vis → v ∈ vis ++ [w]) as Hl by (intros; apply elem_of_app; by left).
  split.
  - by rewrite Tf, Ifr, <-app_assoc.
  - rewrite Tf. by eapply taken_known.
  - split; [by apply Hl|]. by rewrite To.
  - destruct Il as [L1 L2 L3]. split; [done|done|]. intros v [Hvv| ->%list_elem_of_singleton]%elem_of_app; [|lia].
    rewrite To by done. by apply L3.
  - intros q [Hq| ->%list_elem_of_singleton]%elem_of_app; [by apply Inew|]. apply hops_snoc.
  - rewrite !length_app, Ic. simpl. lia.
  - intros v [Hd| ->%list_elem_of_singleton]%elem_of_app; [by apply Hl, Idone|]. apply elem_of_app. right. by left.
  - intros v [Hvv| ->%list_elem_of_singleton]%elem_of_app.
    + destruct (Ie v Hvv) as [(q & Hq & Hpq)|[->|Hx]]; [left; exists q; rewrite Tf; set_solver|by right; left|].
      right; right. by eapply taken_expanded.
    + left. exists (u ++ [w]). split; [rewrite Tf; apply elem_of_app; right; by left|]. by eapply path_to_snoc.
  - case_bool_decide as Hs.
    + subst w. right. split; [|apply elem_of_app; right; by left]. destruct Tfo as (F1 & F2 & F3).
      split; [done|]. split; [|done]. intros ->. apply Hv, Ik.
    + destruct Tfo as [F1 F2]. destruct If as [(N1 & N2 & N3)|[(N1 & N2 & N3 & N4 & N5) N6]].
      * left. split; [congruence|]. split; [congruence|]. intros [Hin|Hin%list_elem_of_singleton]%elem_of_app; [by apply N3|done].
      * right. split; [|by apply Hl]. unfold found_by. by rewrite F1, F2.
Qed.

Lemma inner_fold u uid rest vis0 a ws : path_to u uid → uid ∈ ns → ∀ y vis done new,
  inner u uid rest vis0 y vis done new → (∀ w, w ∈ ws → edge uid w) →
  ∃ y' vis' new', foldl (λ s w, uw_step u uid w s) (a, y) ws = (a, y') ∧ inner u uid rest vis0 y' vis' (done ++ ws) new'.
Proof.
  intros Hu Huid. induction ws as [|w ws IH]; intros y vis done new HI Hws.
  { exists y, vis, new. by rewrite app_nil_r. }
  destruct (inner_step u uid rest vis0 a y vis done new w Hu HI) as (y1 & vis1 & new1 & E1 & HI1).
  - eapply (succs_in x g both outs ins rp ns Hcl uid w Huid). apply Hws. by left.
  - apply Hws. by left.
  - destruct (IH y1 vis1 (done ++ [w]) new1 HI1) as (y' & vis' & new' & E & HI'); [intros; apply Hws; by right|].
    exists y', vis', new'. cbn [foldl]. rewrite E1, E. split; [done|]. by rewrite <-app_assoc in HI'.
Qed.

(** ** The loop *)
Lemma outer_inner u rest y vis : outer y vis → uw_frontier y = u :: rest →
  ∃ uid, last u = Some uid ∧ path_to u uid ∧ uid ∈ ns ∧
    inner u uid rest vis (mk_uw rest (uw_visited y) (distance y) (uw_found y) (uw_spath y) (uw_spaths y)) vis [] [].
Proof.
  intros [Ok Oe Ol Of] Efr. destruct (Ol u rest Efr) as [L1 L2 L3]. pose proof Ok as [Kr Knd Kin Ks Kd Kp].
  rewrite Efr in *. destruct (Kp u) as (uid & Hu & Hpu & Hdu); [by left|]. exists uid.
  split; [apply Hpu|]. split; [done|]. split; [by apply Kin|].
  split; cbn [uw_frontier]; try done.
  - by rewrite app_nil_r.
  - split; try done. intros q Hq. apply Kp. by right.
  - split; [intros q Hq; apply L1; by right|by inversion L2|done].
  - by intros q ?%elem_of_nil.
  - by intros w ?%elem_of_nil.
  - intros v Hv. destruct (Oe v Hv) as [(q & [->|Hq]%elem_of_cons & Hpq)|Hx]; [|left; by exists q|by right; right].
    right; left. destruct Hpu, Hpq. congruence.
  - by left.
Qed.

Lemma inner_outer u uid rest vis0 y vis new : inner u uid rest vis0 y vis (succs uid) new → not_found y vis → outer y vis.
Proof.
  intros [Ifr Ik [Iu Ih] [L1 L2 L3] Inew Ic Idone Ie _] Hnf. split; [done| | |done].
  - intros v Hv. destruct (Ie v Hv) as [?|[->|?]]; [by left| |by right]. right. intros w Hw.
    split; [by apply Idone|]. rewrite Ih. apply L3. by apply Idone.
  - intros u' rest' Efr. rewrite Ifr in *.
    assert (hops u ≤ hops u' ∧ ∀ q, q ∈ rest ++ new → hops u' ≤ hops q ≤ hops u + 1) as [H1 H2].
    { assert (∀ q, q ∈ rest ++ new → hops u ≤ hops q ≤ hops u + 1) as Hall.
      { intros q [Hq|Hq]%elem_of_app; [by apply L1|rewrite (Inew q Hq); lia]. }
      split; [apply Hall; rewrite Efr; by left|]. intros q Hq. split; [|by apply Hall].
      destruct rest as [|p rest]; simpl in Efr.
      - simpl in Hq. rewrite (Inew q Hq). apply Z.eq_le_incl, Inew. rewrite Efr. by left.
      - injection Efr as -> <-. simpl in Hq. apply elem_of_cons in Hq as [->|Hq]; [lia|].
        apply elem_of_app in Hq as [Hq|Hq].
        + inversion L2 as [|? ? _ Hf]; subst. rewrite Forall_forall in Hf. by apply Hf.
        + rewrite (Inew q Hq). apply L1. by left. }
    split.
    + intros q Hq. destruct (H2 q Hq). split; [done|lia].
    + clear -L2 L1 Inew. induction rest as [|p rest IH]; simpl.
      * induction new as [|q new IH]; constructor; [apply IH; intros; apply Inew; by right|].
        apply Forall_forall. intros q' Hq'. rewrite (Inew q), (Inew q'); [done|by right|by left].
      * inversion L2 as [|? ? L2' Hf]; subst. constructor; [apply IH; [by intros; apply L1; right|done]|].
        apply Forall_app. split; [done|]. apply Forall_forall. intros q Hq. rewrite (Inew q Hq). apply L1. by left.
    + intros v Hv. pose proof (L3 v Hv). lia.
Qed.

(** The result of the search. *)
Definition shortest (y : uw_vars) (b : bool) : Prop :=
  if b then stop ≠ start ∧ path_to (path_ (uw_spath y)) stop ∧ hops_ (uw_spath y) = hops (path_ (uw_spath y))
            ∧ ∀ k, nsteps edge k start stop → hops_ (uw_spath y) ≤ Z.of_nat k
  else uw_spath y = spath0 ∧ (stop = start ∨ ¬ rtc edge start stop).

(** The caller's state after visiting nodes. *)
Definition visited_after (a a' : A) : Prop := ∃ l : list (Z * path), a' = foldl (λ b e, va e.1 e.2 b) a l.
Lemma uw_loop_ok fuel : ∀ g1 a y vis, reads x g g1 → outer y vis →
  (length (uw_frontier y) + (length ns - length vis) ≤ fuel)%nat →
  ∃ g2 a2 y2 b, uw_loop stop both rpred visit false fuel (g1, (a, y)) = ((g2, (a2, y2)), Val b) ∧ reads x g g2 ∧ shortest y2 b
    ∧ visited_after a a2.
Proof.
  induction fuel as [|fuel IH]; intros g1 a y vis R HO Hf; destruct (uw_frontier y) as [|u rest] eqn:Efr; try (simpl in Hf; lia);
    cbn [uw_loop]; rewrite (bind_val vars _ _ (g1, (a, y)) y) by done; rewrite Efr.
  1, 2: exists g1, a, y, false; split; [done|]; split; [done|]; pose proof HO as [_ _ _ (_ & Hsp & Hst)]; (split; [split; [done|]|by exists []]).
  1, 2: destruct (decide (stop = start)) as [|Hne]; [by left|right]; intros [k Hk]%rtc_nsteps;
    destruct (outer_walk y vis k stop HO Hk) as [[Hin _]|(q & Hq & _)]; [by apply Hne, Hst|rewrite Efr in Hq; by apply elem_of_nil in Hq].
  destruct (outer_inner u rest y vis HO Efr) as (uid & Hlast & Hpu & Hun & HI).
  rewrite (bind_val (lift_res (back u)) _ _ (g1, (a, y)) uid) by (unfold back; by rewrite Hlast).
  set (y0 := mk_uw rest _ _ _ _ _) in *. rewrite (bind_val (set_vars _) _ _ (g1, (a, y0)) tt) by done.
  destruct (node_sees x g both outs ins ns Hcl uid Hun) as (r & o & Ho). destruct (reads_rd _ _ _ R) as [Hn1 Hr1].
  destruct (node_by_id_sees x g1 tx (a, y0) uid r o) as (g2 & E2 & R2 & _);
    [by rewrite (reads_current _ _ _ R)|done|done|done|by rewrite (proj1 (reads_sees _ _ _ R))|].
  rewrite (bind_val _ _ _ _ _ E2). assert (reads x g g2) as R02 by (by etrans).
  destruct (Hvisit u uid r o g2 a Hun Ho R02) as (g3 & E3 & R3).
  rewrite (bind_val _ _ _ _ _ (user_ok _ _ _ _ _ y0 _ E3)).
  destruct (follow_ok x g tx Htx eq_refl Hr0 both outs ins rp ns Hcl
    (uw_push stop rpred false dest_node u uid) (uw_push stop rpred false src_node u uid) (uw_step u uid) uw_inv
    uid (r, o) g3 (va uid u a, y0)) as (g4 & E4 & R4 & _);
    [done|done|done|exists vis; apply HI|apply uw_push_ok; by apply (node_bounds x g Hn0 both outs ins ns Hcl)
    |intros _; apply uw_push_ok; by apply (node_bounds x g Hn0 both outs ins ns Hcl)|].
  cbn [fst] in E4. destruct (inner_fold u uid rest vis (va uid u a) (succs uid) Hpu Hun y0 vis [] [] HI) as (y1 & vis1 & new & E & HI1); [done|].
  simpl in HI1. rewrite E in E4. rewrite (bind_val _ _ _ _ _ E4).
  rewrite (bind_val vars _ _ (g4, (va uid u a, y1)) y1) by done. cbn [andb negb].
  destruct (in_found _ _ _ _ _ _ _ _ HI1) as [Hnf|[(F1 & F2 & F3 & F4 & F5) F6]].
  - pose proof Hnf as (-> & _). destruct (IH g4 (va uid u a) y1 vis1 R4) as (g5 & a5 & y5 & b & E5 & R5 & Hsh & l & ->);
      [by eapply inner_outer| |by exists g5, (foldl (λ b e, va e.1 e.2 b) (va uid u a) l), y5, b; repeat split; try done; exists ((uid, u) :: l)].
    destruct HI1 as [Ifr Ik _ _ _ Ic _ _ _]. rewrite Ifr, length_app. simpl in Hf.
    assert (length vis1 ≤ length ns)%nat; [|lia]. apply submseteq_length, NoDup_submseteq; [apply Ik|]. intros v. apply Ik.
  - rewrite F1. exists g4, (va uid u a), y1, true. split; [done|]. split; [done|]. split; [|by exists [(uid, u)]]. split; [done|]. rewrite F4, F5, hops_snoc.
    split; [by eapply path_to_snoc|]. split; [done|]. intros k Hk.
    destruct (outer_walk y vis k stop HO Hk) as [[Hin _]|(q & Hq & Hh)].
    + destruct HO as [_ _ _ (_ & _ & Hst)]. by destruct F2, Hst.
    + destruct (ou_level _ _ HO u rest Efr) as [L1 _ _]. specialize (L1 q Hq). lia.
Qed.

Lemma unweighted_finds fuel g1 a : reads x g g1 → start ∈ ns → (length ns ≤ fuel)%nat →
  ∃ g' a' it b, unweighted_shortest_path fuel start stop both rpred visit spath0 (g1, a) = ((g', a'), Val (b, it))
    ∧ reads x g g' ∧ (b = true ↔ stop ≠ start ∧ rtc edge start stop)
    ∧ (if b then path_to (path_ it) stop ∧ hops_ it = hops (path_ it) ∧ ∀ k, nsteps edge k start stop → hops_ it ≤ Z.of_nat k
      else it = spath0)
    ∧ visited_after a a'.
Proof.
  intros R1 Hs Hf. pose proof (node_bounds x g Hn0 both outs ins ns Hcl start Hs) as Hsb.
  unfold unweighted_shortest_path. rewrite (bind_val get_st _ _ (g1, a) (g1, a)) by done. cbn [fst].
  assert (num_nodes g1 = n) as En by (destruct R1 as (vn & vr & -> & [] & _); unfold num_nodes; cbn; congruence).
  destruct (set_bit_of n [] _ start (bits_of_none n) Hsb) as (bits & Eb & Hb).
  set (y := mk_uw [[start]] bits (<[Z.to_nat start := 0]> (replicate n UNKNOWN)) false spath0 []).
  assert (uw_start g1 start spath0 [] = Val y) as Ey.
  { unfold uw_start. rewrite En. rewrite put_elem_ok by (rewrite length_replicate; done). simpl. by rewrite Eb. }
  rewrite Ey, (bind_val (lift_res (Val y)) _ _ (g1, a) y) by done.
  assert (dval y start = 0) as Hd0.
  { unfold dval, y. simpl. rewrite list_lookup_insert_eq by (rewrite length_replicate; lia). done. }
  assert (path_to [start] start) as Hp.
  { split; [done|done|]. intros i v w _ Hw. by rewrite lookup_cons in Hw. }
  destruct (uw_loop_ok fuel g1 a y [start]) as (g2 & a2 & y2 & b & E & R & Hsh & Hva).
  - done.
  - split; simpl.
    + split; simpl.
      * split; [done|]. unfold sized, y. simpl. by rewrite length_insert, length_replicate.
      * apply NoDup_singleton.
      * by intros v ->%list_elem_of_singleton.
      * split; [by left|done].
      * intros v ->%list_elem_of_singleton. rewrite Hd0. lia.
      * intros q ->%list_elem_of_singleton. exists start. split; [by left|]. split; [done|]. rewrite Hd0. done.
    + intros v ->%list_elem_of_singleton. left. exists [start]. split; [by left|done].
    + intros u rest [= <- <-]. split; [intros q ->%list_elem_of_singleton; lia|by repeat constructor|].
      intros v ->%list_elem_of_singleton. rewrite Hd0. unfold hops. simpl. lia.
    + split; [done|]. split; [done|]. by intros ->%list_elem_of_singleton.
  - simpl. destruct ns; simpl in *; [by apply elem_of_nil in Hs|lia].
  - exists g2, a2, (uw_spath y2), b. split.
    { unfold run_search. unfold mbind at 1, M_bind at 1. cbn [fst snd]. by rewrite E. }
    split; [done|]. destruct b; simpl in Hsh.
    + destruct Hsh as (H1 & H2 & H3 & H4). split; [|by split]. split; [|done]. intros _. split; [done|by eapply path_to_rtc].
    + destruct Hsh as [H1 H2]. split; [|by split]. split; [done|]. intros [H3 H4]. by destruct H2.
Qed.

(** C29: the unweighted search returns [true] exactly when the goal is another
    node than the start and can be reached from it; the path it returns then
    leads from the start to the goal over relationships that may be passed, its
    number of hops is that of its relationships, and no walk to the goal is
    shorter.  Otherwise the caller's path stays as it was.  The search
    ends, after visiting a sequence of nodes. *)
Theorem unweighted_finds_shortest fuel a : start ∈ ns → (length ns ≤ fuel)%nat →
  ∃ g' a' it b, unweighted_shortest_path fuel start stop both rpred visit spath0 (g, a) = ((g', a'), Val (b, it))
    ∧ reads x g g' ∧ (b = true ↔ stop ≠ start ∧ rtc edge start stop)
    ∧ (if b then path_to (path_ it) stop ∧ hops_ it = hops (path_ it) ∧ ∀ k, nsteps edge k start stop → hops_ it ≤ Z.of_nat k
      else it = spath0)
    ∧ visited_after a a'.
Proof. apply unweighted_finds. by apply reads_refl. Qed.
End shortest.
