(* ===== verification/IndexCreate.v ===== *)
(** * IndexCreate: what [create_index] puts into an index

    The new index has an entry for every node of the label the transaction can
    read, in the order of the ids: a later node replaces an earlier one with the
    same raw value. *)

From Stdlib Require Import Sorting.Sorted.
From S2P Require Import Prelude VecSpec Txn Mvto DictSpec IndexSpec Literals Property PropertyList PropertyMap PropertyTable GraphState GraphOps QueryCtx GraphIndex GraphCommit GraphIndexFacts GraphFacts GraphNodes GraphRefine QueryFacts.

Section create.
Context {V : Type → Type} `{!Vec V} `{!VecScan V} {D : Type} `{!Dictionary D} {X : Type} `{!Indexes X}.
Notation db := (gdb V D X).
Implicit Types (g : db) (t : nobj).

(** The item the consumer of [create_index] gets for a version. *)
Definition item_for g (pc : Z) (o : obj node) : res p_item :=
  property_value (node_properties_ g) (node_plist (body_ o)) pc.
Definition fill_step g (i : nat) (pc : Z) (n : oref) : M X unit :=
  match vec_get (nodes_ g) n.1 with
  | None => mret tt
  | Some t =>
    o ← lift_res (self n.2 t).2;
    val ← lift_res (item_for g pc o);
    when (negb (is_empty val)) (ix_insert i (get_raw val) (node_id_ (body_ o)))
  end.
Definition fill g (i : nat) (pc : Z) (n : oref) : M (db * unit) unit :=
  on_fst (o ← node_ref n;
          val ← get_node_property_value (body_ o) pc;
          when (negb (is_empty val)) (on_indexes (ix_insert i (get_raw val) (node_id_ (body_ o))))).

(** The rest of the database while the index is filled. *)
Definition filling g (x : X) (s : db * unit) : Prop :=
  same_records (nodes_ g) (nodes_ s.1) ∧ s.1 = set_index_map x (set_nodes (nodes_ s.1) g).

Lemma fill_sim g i pc n t : vec_rd (nodes_ g) → vec_get (nodes_ g) n.1 = Some t →
  sim (filling g) (fill g i pc n) (fill_step g i pc n).
Proof.
  intros Hrd Ht x [g1 []] [Hs E]. simpl in Hs, E. destruct n as [id r]. simpl in Ht.
  unfold fill, fill_step, node_ref. cbn [fst snd]. rewrite Ht.
  destruct (sim_ref g (filling g) (λ γ s H, proj1 H)
    ltac:(intros γ g' a v [H1 H2] H3; split; [by eapply same_records_trans|simpl in *; by rewrite H2]) id t (self r) Ht
    (self_state _ _) x (g1, tt) (conj Hs E)) as ([g2 []] & E2 & H2). unfold on_fst in E2 |- *. cbn [fst snd] in *.
  destruct (at_node id (self r) g1) as [g2' [o|e]] eqn:Eo; injection E2 as -> E2; simpl in E2, H2.
  2:{ rewrite (bind_exn _ _ _ _ _ Eo). destruct (self r t).2; [done|]. injection E2 as ->. by exists (g2, tt). }
  rewrite (bind_val _ _ _ _ _ Eo). destruct (self r t).2 as [o'|]; [|done]. injection E2 as ->.
  rewrite (bind_val (lift_res (Val o')) _ x x o') by done. destruct H2 as [H2 Eg]. simpl in H2, Eg.
  assert (get_node_property_value (body_ o') pc g2 = (g2, item_for g pc o')) as Ep
    by (unfold get_node_property_value, mbind, M_bind, get_st, lift_res; rewrite Eg; done).
  unfold mbind, M_bind, lift_res. rewrite Ep. destruct (item_for g pc o') as [it|e]; [|exists (g2, tt); by split].
  destruct (is_empty it); simpl; [exists (g2, tt); by split|].
  unfold on_indexes. rewrite Eg. cbn [index_map_ set_index_map].
  destruct (ix_insert i (get_raw it) (node_id_ (body_ o')) x) as [x' q].
  eexists (_, tt). split; [done|]. split; [exact H2|]. cbn [fst nodes_ set_index_map set_nodes]. done.
Qed.

(** ** The entries *)

(** What the transaction can read of the nodes with the label. *)
Record indexable g (x lc pc : Z) : Prop := {
  ix_scan : scannable g x;
  ix_read id t : vec_get (nodes_ g) id = Some t → is_valid (main_ t) = true →
    ∃ r o, version_of x t = Val r ∧ (self r t).2 = Val o
      ∧ (node_label (body_ o) = lc → ∃ it, item_for g pc o = Val it ∧ 0 ≤ get_raw it < two64)
}.

(** The key and the value a node contributes. *)
Definition entry_of g (x lc pc id : Z) : option (Z * Z) :=
  t ← vec_get (nodes_ g) id;
  if is_valid (main_ t) then
    match (r ← version_of x t; o ← (self r t).2; it ← item_for g pc o; Val (o, it)) with
    | Val (o, it) => if bool_decide (node_label (body_ o) = lc) && negb (is_empty it)
                     then Some (get_raw it, node_id_ (body_ o)) else None
    | Exn _ => None
    end
  else None.
Definition index_entries g x lc pc (ids : list Z) : gmap Z Z :=
  foldl (λ m e, <[e.1 := e.2]> m) ∅ (omap (entry_of g x lc pc) ids).

Lemma entry_of_eq g x lc pc id t r o : vec_get (nodes_ g) id = Some t → is_valid (main_ t) = true →
  version_of x t = Val r → (self r t).2 = Val o →
  entry_of g x lc pc id
  = if bool_decide (node_label (body_ o) = lc) then
      match item_for g pc o with
      | Val it => if is_empty it then None else Some (get_raw it, node_id_ (body_ o))
      | Exn _ => None
      end
    else None.
Proof.
  intros Ht Ev Er Eo. unfold entry_of, mbind, option_bind, res_bind. rewrite Ht, Ev, Er, Eo.
  destruct (item_for g pc o) as [it|]; [|by destruct (bool_decide _)].
  by destruct (bool_decide _), (is_empty it).
Qed.
Lemma entry_of_none g x lc pc id : (∀ t, vec_get (nodes_ g) id = Some t → is_valid (main_ t) = false) →
  entry_of g x lc pc id = None.
Proof.
  intros H. unfold entry_of, mbind, option_bind. destruct (vec_get _ _) as [t|]; [|done]. by rewrite (H t).
Qed.

Lemma fill_one g x lc pc i im id m ix (test := λ c : Z, bool_decide (c = lc)) :
  indexable g x lc pc → ix_trees ix (<[i := m]> im) →
  ∃ ix', label_step g (fill_step g i pc) x test id ix = (ix', Val tt)
    ∧ ix_trees ix' (<[i := foldl (λ m e, <[e.1 := e.2]> m) m (option_list (entry_of g x lc pc id))]> im)
    ∧ ∀ s, ix_get_id ix' s = ix_get_id ix s.
Proof.
  intros [_ Hread] Hx. unfold label_step. destruct (vec_get (nodes_ g) id) as [t|] eqn:Ht.
  2:{ rewrite entry_of_none by (intros; congruence). by exists ix. }
  destruct (is_valid (main_ t)) eqn:Ev.
  2:{ rewrite entry_of_none by (intros; congruence). by exists ix. }
  destruct (Hread id t Ht Ev) as (r & o & Er & Eo & Hit). rewrite (entry_of_eq _ _ _ _ _ _ _ _ Ht Ev Er Eo), Er.
  cbn [when]. rewrite (bind_val (lift_res (Val r)) _ ix ix r) by done. rewrite Eo.
  rewrite (bind_val (lift_res (Val o)) _ ix ix o) by done. unfold test. case_bool_decide as El; [|by exists ix].
  destruct (Hit El) as (it & Ei & Hr). unfold fill_step. cbn [fst snd when]. rewrite Ht, Eo.
  rewrite (bind_val (lift_res (Val o)) _ ix ix o) by done. rewrite Ei.
  rewrite (bind_val (lift_res (Val it)) _ ix ix it) by done.
  destruct (is_empty it); cbn [negb when]; [by exists ix|].
  destruct (ix_insert_ok ix (<[i := m]> im) i m (get_raw it) (node_id_ (body_ o)) Hx) as (ix1 & E1 & Hx1 & Hs1);
    [by rewrite lookup_insert_eq|done|]. exists ix1. split; [done|]. split; [|done]. by rewrite insert_insert_eq in Hx1.
Qed.

Lemma fill_steps g x lc pc i im ids m ix (test := λ c : Z, bool_decide (c = lc)) :
  indexable g x lc pc → ix_trees ix (<[i := m]> im) →
  ∃ ix', for_each (label_step g (fill_step g i pc) x test) ids ix = (ix', Val tt)
    ∧ ix_trees ix' (<[i := foldl (λ m e, <[e.1 := e.2]> m) m (omap (entry_of g x lc pc) ids)]> im)
    ∧ ∀ s, ix_get_id ix' s = ix_get_id ix s.
Proof.
  intros Hi. revert m ix. induction ids as [|id ids IH]; intros m ix Hx; [by exists ix|].
  rewrite for_each_cons. cbn [omap list_omap].
  destruct (fill_one g x lc pc i im id m ix Hi Hx) as (ix1 & E1 & Hx1 & Hs1).
  rewrite (bind_val _ _ _ _ _ E1). destruct (IH _ _ Hx1) as (ix2 & E2 & Hx2 & Hs2). exists ix2.
  split; [done|]. split; [|intros s; by rewrite Hs2]. by destruct (entry_of g x lc pc id).
Qed.

(** [create_index] succeeds, and the new tree leads from the raw value of
    the property to the node, for every node with the label the transaction can
    read, the last one for each value; a node without the property counts as if
    it had the raw value 0.  The other trees stay as they were, and the name
    leads to the new tree unless it was registered before: then it keeps the
    old one. *)
Theorem create_index_fills g tx im label prop (pc := d_lookup_string (dict_ g) prop) (lc := d_lookup_string (dict_ g) label) :
  current_transaction_ g = Some tx → indexable g (xid_ tx) lc pc → ix_trees (index_map_ g) im →
  ∃ ids i g', create_index label prop g = (g', Val i)
    ∧ StronglySorted Z.lt ids ∧ (∀ id, id ∈ ids ↔ is_Some (vec_get (nodes_ g) id))
    ∧ im !! i = None ∧ ix_trees (index_map_ g') (<[i := index_entries g (xid_ tx) lc pc ids]> im)
    ∧ (∀ s, ix_get_id (index_map_ g') s
        = if decide (s = index_name label prop ∧ ix_get_id (index_map_ g) s = None) then Some i
          else ix_get_id (index_map_ g) s)
    ∧ (∀ id t r o, vec_get (nodes_ g) id = Some t → is_valid (main_ t) = true → version_of (xid_ tx) t = Val r →
        (self r t).2 = Val o → node_label (body_ o) = lc → item_for g pc o = Val zero_item →
        entry_of g (xid_ tx) lc pc id = Some (0, node_id_ (body_ o))).
Proof.
  intros Htx Hi Hx. destruct (ix_make_ok _ _ Hx) as (x1 & i & E1 & Hnone & Hx1 & Hs1).
  unfold create_index. rewrite (bind_val (on_indexes ix_make) _ g (set_index_map x1 g) i)
    by (unfold on_indexes; by rewrite E1).
  set (g1 := set_index_map x1 g). rewrite (bind_val (get_code prop) _ g1 g1 pc) by done.
  pose (test := λ c : Z, bool_decide (c = lc)).
  assert (indexable g1 (xid_ tx) lc pc) as Hi1 by (destruct Hi as [[] ?]; by split).
  pose proof (ix_scan _ _ _ _ Hi1) as Hsc.
  assert (∀ γ g' a v, filling g γ (g', a) → same_records (nodes_ g') v → filling g γ (set_nodes v g', a)) as Hw
    by (intros γ g' a v [H1 H2] H3; split; [by eapply same_records_trans|simpl in *; by rewrite H2]).
  destruct (scan_sim g (filling g) (sc_rd _ _ Hsc) (λ γ s H, proj1 H)
    (λ l, t ← node_at l; when (is_valid (main_ t))
       (nv ← get_valid_node_version l (xid_ tx); o ← on_fst (node_ref nv);
        when (bool_decide (node_label (body_ o) = lc)) (fill g i pc nv)))
    (label_step g (fill_step g i pc) (xid_ tx) test) x1 (g1, tt))
    as (ids & [g2 []] & Hs & Hin & E & HR).
  - intros id l t Ht Hl. apply (label_body g (filling g) (λ γ s H, proj1 H) Hw (fill g i pc) (fill_step g i pc) (xid_ tx)
      (λ n t, fill_sim g i pc n t (sc_rd _ _ Hsc)) (sc_ids _ _ Hsc) test id l t Ht Hl).
  - apply Hsc.
  - split; [apply same_records_refl, Hsc|]. by destruct g.
  - done.
  - destruct (fill_steps g (xid_ tx) lc pc i im ids ∅ x1 Hi) as (x2 & E2 & Hx2 & Hs2);
      [done|]. fold test in E2. rewrite E2 in E, HR. destruct HR as [Hsame HR]. simpl in Hsame, HR.
    assert (stateless (nodes_by_label label (λ n, on_fst (o ← node_ref n;
              val ← get_node_property_value (body_ o) pc;
              when (negb (is_empty val)) (on_indexes (ix_insert i (get_raw val) (node_id_ (body_ o))))))) g1
            = (g2, Val tt)) as Ef.
    { unfold stateless, nodes_by_label. rewrite (bind_val _ _ _ _ _ (scan_txid_ok g1 tx tt Htx)).
      rewrite (bind_val (on_fst (get_code label)) _ (g1, tt) (g1, tt) lc) by done.
      unfold fill in E. by rewrite E. }
    rewrite (bind_val _ _ _ _ _ Ef).
    destruct (ix_register_ok x2 _ (index_name label prop) i Hx2) as (x3 & E3 & Hx3 & Hs3);
      [by rewrite lookup_insert_eq|].
    rewrite (bind_val (on_indexes _) _ g2 (set_index_map x3 g2) tt)
      by (unfold on_indexes; rewrite HR; cbn [index_map_ set_index_map]; by rewrite E3).
    exists ids, i, (set_index_map x3 g2). split_and!; [done|done|done|done|done| |].
    + intros s. cbn [index_map_ set_index_map]. rewrite Hs3, !Hs2, !Hs1.
      destruct (decide (s = index_name label prop ∧ ix_get_id (index_map_ g) s = None)) as [[-> Hn]|Hn].
      * by rewrite decide_True.
      * by rewrite decide_False by naive_solver.
    + intros id t r o Ht Ev Er Eo El Ez. rewrite (entry_of_eq _ _ _ _ _ _ _ _ Ht Ev Er Eo), Ez.
      by rewrite bool_decide_eq_true_2.
Qed.
End create.

(** ** An update that adds an indexed property

    [index_update] takes the old value of the indexed property from the old
    list of properties at the position it has in the new list. *)

Section errors.
Context {V : Type → Type} `{!Vec V} {D : Type} `{!Dictionary D} {X : Type} `{!Indexes X}.
Variable junk : Z.
Notation db := (gdb V D X).
Implicit Types (g : db) (t : nobj).

Lemma changed_exn (d : D) m c label id (vs : list (dirty_object node pitems)) dn old l es x i pos :
  d_has d m → m !! c = Some label → entries m l es →
  first_named x label 0 es.*1 = (Some i, Z.of_nat pos) → vs = dn :: old :: drop 2 vs →
  (length (properties_ old) ≤ pos)%nat → changed_x d c id vs l x = (x, Exn undefined_behaviour).
Proof.
  intros Hd Hc He Hf Hvs Hlen. unfold changed_x. rewrite Hvs. cbn [length]. unfold assert_.
  rewrite bool_decide_eq_true_2 by lia. rewrite bind_ret, (index_of_ok _ _ _ _ _ _ _ Hd Hc He), Hf.
  rewrite (bind_val (lift_res (Val (Some i, Z.of_nat pos))) _ x x (Some i, Z.of_nat pos)) by done. cbn [fst lookup list_lookup].
  apply bind_exn. unfold delete_x, item_at. cbn [snd]. rewrite Nat2Z.id, lookup_ge_None_2 by done. done.
Qed.

(** When an update adds a property for which there is an index, commit
    reads the old value behind the end of the old list of properties, which is
    undefined; the changed node and its properties are in the tables by then,
    and the locks are not released. *)
Theorem update_adds_indexed_property g id xid t dn old p' pid m c label es i pos :
  vec_rd (nodes_ g) → vec_get (nodes_ g) id = Some t →
  classify t = commit_update dn → versions t = dn :: old :: drop 2 (versions t) →
  commit_props junk t (node_properties_ g) = (p', Val pid) →
  d_has (dict_ g) m → c = node_label (body_ (elem_ dn)) → m !! c = Some label → entries m (properties_ dn) es →
  first_named (index_map_ g) label 0 es.*1 = (Some i, Z.of_nat pos) → (length (properties_ old) ≤ pos)%nat →
  ∃ v', commit_dirty_node junk xid id g = (set_nodes v' (set_nprops p' g), Exn undefined_behaviour)
    ∧ tab_set (nodes_ g) id
        (set_main (set_body (set_node_plist pid)) (set_main (set_timestamps xid INF)
           (set_main (set_body (λ b, copy_node_fields b (body_ (elem_ dn)))) t))) v'.
Proof.
  intros Hrd Ht Ec Hvs Hp Hd -> Hl He Hf Hlen.
  destruct (sim_run id _ _ g t (sim_commit junk xid id) Hrd Ht) as (v' & E & Hs). exists v'. rewrite E.
  set (t1 := set_main (set_timestamps xid INF) (set_main _ t)) in *.
  assert (commit_view junk xid id (t, g)
    = ((set_main (set_body (set_node_plist pid)) t1, set_nprops p' g), Exn undefined_behaviour)) as Ev.
  2:{ rewrite Ev in *. by split. }
  unfold commit_view, commit_props in *. rewrite (bind_val (on_fst get_st) _ _ (t, g) t) by done. rewrite Ec in *.
  rewrite (bind_val _ _ _ _ _ (on_fst_put _ _ _)), (bind_val _ _ _ _ _ (on_fst_put _ _ _)). fold t1.
  rewrite (bind_val _ _ _ _ _ (copy_view_eq junk dn t1 g p' pid Hp)). apply bind_exn.
  unfold on_snd. cbn [fst snd]. rewrite index_changed_on. unfold on_indexes.
  change (index_map_ (set_nprops p' g)) with (index_map_ g). change (dict_ (set_nprops p' g)) with (dict_ g).
  erewrite changed_exn; [|done..]. by destruct g.
Qed.
End errors.
