(* ===== verification/BTree.v ===== *)
(** * BTree: the B+ tree in memory (src/btree/imbtree.hpp)

    [BPTree<KeyType, ValueType, N, M>] with keys and values as numbers.  Nodes
    live in a heap and are named by address; the arrays of a node have their
    fixed length and keep what was written to them, also behind [numKeys].  An
    access outside an array or through a dangling or null pointer is undefined
    behaviour. *)

From stdpp Require Import gmap.
From S2P Require Import Prelude.

(** ** Arrays and loops *)
Definition aget {A} (a : list A) (i : Z) : res A :=
  if bool_decide (0 ≤ i) then
    match a !! Z.to_nat i with Some x => Val x | None => Exn undefined_behaviour end
  else Exn undefined_behaviour.
Definition aset {A} (a : list A) (i : Z) (x : A) : res (list A) :=
  if bool_decide (0 ≤ i ∧ i < Z.of_nat (length a)) then Val (<[Z.to_nat i := x]> a)
  else Exn undefined_behaviour.

(** [for (i in l) body]: the indices a loop runs through, in order. *)
Fixpoint loop {S} (l : list Z) (body : Z → S → res S) (s : S) : res S :=
  match l with [] => Val s | i :: l' => s' ← body i s; loop l' body s' end.
(** [for (i = a; i < b; i++)] and [for (i = b; i > a; i--)] *)
Definition upward (a b : Z) : list Z := seqZ a (b - a).
Definition downward (b a : Z) : list Z := reverse (seqZ (a + 1) (b - a)).

(** ** Nodes *)
Record leaf_node : Type := mk_leaf {
  l_num : Z;                 (* [numKeys] *)
  l_keys : list Z;
  l_values : list Z;
  nextLeaf : option nat;
  prevLeaf : option nat
}.
Record branch_node : Type := mk_branch {
  b_num : Z;                 (* [numKeys] *)
  b_keys : list Z;
  b_children : list nat
}.
Record split_info : Type := mk_split { s_key : Z; s_left : nat; s_right : nat }.

(** The tree object with its heap. *)
Record bptree : Type := mk_bptree {
  depth : nat;
  rootNode : nat;
  leaves : gmap nat leaf_node;
  branches : gmap nat branch_node;
  next_addr : nat
}.

(** Assignments to members *)
Definition set_num (n : Z) (l : leaf_node) : leaf_node := mk_leaf n (l_keys l) (l_values l) (nextLeaf l) (prevLeaf l).
Definition set_next (p : option nat) (l : leaf_node) : leaf_node :=
  mk_leaf (l_num l) (l_keys l) (l_values l) p (prevLeaf l).
Definition set_prev (p : option nat) (l : leaf_node) : leaf_node :=
  mk_leaf (l_num l) (l_keys l) (l_values l) (nextLeaf l) p.
(** [node->keys[i] = k; node->values[i] = v;] *)
Definition set_entry (i k v : Z) (l : leaf_node) : res leaf_node :=
  ks ← aset (l_keys l) i k; vs ← aset (l_values l) i v;
  Val (mk_leaf (l_num l) ks vs (nextLeaf l) (prevLeaf l)).
Definition set_bnum (n : Z) (b : branch_node) : branch_node := mk_branch n (b_keys b) (b_children b).
Definition set_bkey (i k : Z) (b : branch_node) : res branch_node :=
  ks ← aset (b_keys b) i k; Val (mk_branch (b_num b) ks (b_children b)).
Definition set_child (i : Z) (c : nat) (b : branch_node) : res branch_node :=
  cs ← aset (b_children b) i c; Val (mk_branch (b_num b) (b_keys b) cs).
Definition set_depth_root (d r : nat) (t : bptree) : bptree :=
  mk_bptree d r (leaves t) (branches t) (next_addr t).

Section btree.
(** The capacities [N] and [M], and what uninitialised members hold. *)
Variables (N M : nat) (junk : Z) (junkp : nat).
Notation op := (Prelude.M bptree).

(** ** The heap *)
Definition leaf_at (a : nat) : op leaf_node :=
  t ← get_st; match leaves t !! a with Some l => mret l | None => throw undefined_behaviour end.
Definition branch_at (a : nat) : op branch_node :=
  t ← get_st; match branches t !! a with Some b => mret b | None => throw undefined_behaviour end.
Definition put_leaf (a : nat) (l : leaf_node) : op unit :=
  modify (λ t, mk_bptree (depth t) (rootNode t) (<[a := l]> (leaves t)) (branches t) (next_addr t)).
Definition put_branch (a : nat) (b : branch_node) : op unit :=
  modify (λ t, mk_bptree (depth t) (rootNode t) (leaves t) (<[a := b]> (branches t)) (next_addr t)).
Definition pointer (p : option nat) : op nat :=
  match p with Some a => mret a | None => throw undefined_behaviour end.

Definition empty_leaf : leaf_node := mk_leaf 0 (replicate M junk) (replicate M junk) None None.
Definition empty_branch : branch_node := mk_branch 0 (replicate N junk) (replicate (S N) junkp).
Definition new_addr : op nat :=
  t ← get_st;
  modify (λ t, mk_bptree (depth t) (rootNode t) (leaves t) (branches t) (S (next_addr t)));;
  mret (next_addr t).
Definition newLeafNode : op nat := a ← new_addr; put_leaf a empty_leaf;; mret a.
Definition newBranchNode : op nat := a ← new_addr; put_branch a empty_branch;; mret a.
Definition deleteLeafNode (a : nat) : op unit :=
  modify (λ t, mk_bptree (depth t) (rootNode t) (delete a (leaves t)) (branches t) (next_addr t)).
Definition deleteBranchNode (a : nat) : op unit :=
  modify (λ t, mk_bptree (depth t) (rootNode t) (leaves t) (delete a (branches t)) (next_addr t)).

(** [BPTree()] *)
Definition new_tree : bptree := mk_bptree 0 0 {[0%nat := empty_leaf]} ∅ 1.

(** ** Searching a node *)
Fixpoint scan_pos (test : Z → bool) (keys : list Z) (fuel : nat) (pos : Z) : res Z :=
  match fuel with
  | O => Val pos
  | S f => k ← aget keys pos; if test k then scan_pos test keys f (pos + 1) else Val pos
  end.
Definition lookupPositionInBranchNode (b : branch_node) (key : Z) : res Z :=
  scan_pos (λ k, bool_decide (k ≤ key)) (b_keys b) (Z.to_nat (b_num b)) 0.
Definition lookupPositionInLeafNode (l : leaf_node) (key : Z) : res Z :=
  scan_pos (λ k, bool_decide (k < key)) (l_keys l) (Z.to_nat (l_num l)) 0.

Fixpoint find_leaf (d node : nat) (key : Z) : op nat :=
  match d with
  | O => mret node
  | S d' =>
    b ← branch_at node;
    pos ← lift_res (lookupPositionInBranchNode b key);
    c ← lift_res (aget (b_children b) pos);
    find_leaf d' c key
  end.
Definition findLeafNode (key : Z) : op nat := t ← get_st; find_leaf (depth t) (rootNode t) key.

Definition lookup (key : Z) : op (option Z) :=
  a ← findLeafNode key; l ← leaf_at a;
  pos ← lift_res (lookupPositionInLeafNode l key);
  if bool_decide (pos < l_num l) then
    k ← lift_res (aget (l_keys l) pos);
    if bool_decide (k = key) then v ← lift_res (aget (l_values l) pos); mret (Some v) else mret None
  else mret None.

(** ** Scans: the calls of [func] in order *)
Definition leaf_entries (l : leaf_node) : res (list (Z * Z)) :=
  loop (upward 0 (l_num l)) (λ i acc, k ← aget (l_keys l) i; v ← aget (l_values l) i; Val (acc ++ [(k, v)])) [].
Fixpoint scan_leaves (fuel : nat) (a : option nat) : op (list (Z * Z)) :=
  match fuel, a with
  | _, None => mret []
  | O, Some _ => throw no_return
  | S f, Some a =>
    l ← leaf_at a; es ← lift_res (leaf_entries l); rest ← scan_leaves f (nextLeaf l); mret (es ++ rest)
  end.
Fixpoint leftmost (d node : nat) : op nat :=
  match d with O => mret node | S d' => b ← branch_at node; c ← lift_res (aget (b_children b) 0); leftmost d' c end.
(** A chain of leaves without a cycle is not longer than the heap. *)
Definition scan_fuel : op nat := t ← get_st; mret (S (size (leaves t))).
Definition scan : op (list (Z * Z)) :=
  t ← get_st; a ← leftmost (depth t) (rootNode t); f ← scan_fuel; scan_leaves f (Some a).

(** The range scan stops at the first key above the range. *)
Fixpoint take_upto (maxKey : Z) (es : list (Z * Z)) : list (Z * Z) * bool :=
  match es with
  | [] => ([], false)
  | e :: es' => if bool_decide (e.1 > maxKey) then ([], true)
                else let '(l, stop) := take_upto maxKey es' in (e :: l, stop)
  end.
Fixpoint range_leaves (fuel : nat) (maxKey : Z) (a : option nat) : op (list (Z * Z)) :=
  match fuel, a with
  | _, None => mret []
  | O, Some _ => throw no_return
  | S f, Some a =>
    l ← leaf_at a; es ← lift_res (leaf_entries l);
    let '(es', stop) := take_upto maxKey es in
    if (stop : bool) then mret es' else rest ← range_leaves f maxKey (nextLeaf l); mret (es' ++ rest)
  end.
Definition range_scan (minKey maxKey : Z) : op (list (Z * Z)) :=
  a ← findLeafNode minKey; f ← scan_fuel; range_leaves f maxKey (Some a).

(** ** Insertion *)
Definition insertInLeafNodeAtPosition (pos key val : Z) (l : leaf_node) : res leaf_node :=
  if bool_decide (pos < Z.of_nat M ∧ pos ≤ l_num l ∧ l_num l < Z.of_nat M) then
    l' ← loop (downward (l_num l) pos)
           (λ i l, k ← aget (l_keys l) (i - 1); v ← aget (l_values l) (i - 1); set_entry i k v l) l;
    l'' ← set_entry pos key val l';
    Val (set_num (l_num l + 1) l'')
  else Exn assertion_failed.

(** [middle] of a leaf (branch) node. *)
Definition leaf_middle : Z := (Z.of_nat M + 1) / 2.
Definition branch_middle : Z := (Z.of_nat N + 1) / 2.

(** The entries behind [middle] in a new sibling. *)
Definition leaf_upper (l : leaf_node) : res leaf_node :=
  loop (upward 0 (l_num l - leaf_middle))
    (λ i s, k ← aget (l_keys l) (i + leaf_middle); v ← aget (l_values l) (i + leaf_middle); set_entry i k v s)
    (set_num (l_num l - leaf_middle) empty_leaf).

Definition insertInLeafNode (node : nat) (key val : Z) : op (option split_info) :=
  l ← leaf_at node;
  pos ← lift_res (lookupPositionInLeafNode l key);
  dup ← (if bool_decide (pos < l_num l)
         then k ← lift_res (aget (l_keys l) pos); mret (bool_decide (k = key)) else mret false);
  if (dup : bool) then
    vs ← lift_res (aset (l_values l) pos val);
    put_leaf node (mk_leaf (l_num l) (l_keys l) vs (nextLeaf l) (prevLeaf l));;
    mret None
  else if bool_decide (l_num l = Z.of_nat M) then
    sibling ← newLeafNode;
    s ← lift_res (leaf_upper l);
    let l := set_num leaf_middle l in
    s' ← (if bool_decide (pos < leaf_middle) then mret s
          else lift_res (insertInLeafNodeAtPosition (pos - leaf_middle) key val s));
    l' ← (if bool_decide (pos < leaf_middle) then lift_res (insertInLeafNodeAtPosition pos key val l) else mret l);
    put_leaf node (set_next (Some sibling) l');;
    put_leaf sibling (set_prev (Some node) s');;
    k ← lift_res (aget (l_keys s') 0);
    mret (Some (mk_split k node sibling))
  else
    l' ← lift_res (insertInLeafNodeAtPosition pos key val l);
    put_leaf node l';; mret None.

(** The keys and children behind [middle] in a new sibling. *)
Definition branch_upper (b : branch_node) (middle : Z) : res branch_node :=
  s ← loop (upward 0 (b_num b - middle))
        (λ i s, k ← aget (b_keys b) (middle + i); c ← aget (b_children b) (middle + i);
                s' ← set_bkey i k s; set_child i c s')
        (set_bnum (b_num b - middle) empty_branch);
  c ← aget (b_children b) (b_num b);
  set_child (b_num b - middle) c s.

Definition splitBranchNode (node : nat) (splitKey : Z) : op split_info :=
  b ← branch_at node;
  km ← lift_res (aget (b_keys b) branch_middle);
  let middle := if bool_decide (splitKey > km) then branch_middle + 1 else branch_middle in
  sibling ← newBranchNode;
  s ← lift_res (branch_upper b middle);
  put_branch sibling s;;
  put_branch node (set_bnum (middle - 1) b);;
  k ← lift_res (aget (b_keys b) (middle - 1));
  mret (mk_split k node sibling).

(** The entry for a split child at [pos]. *)
Definition insert_child (pos : Z) (si : split_info) (b : branch_node) : res branch_node :=
  b1 ← (if bool_decide (pos < b_num b) then
          c ← aget (b_children b) (b_num b);
          b1 ← set_child (b_num b + 1) c b;
          loop (downward (b_num b) pos)
            (λ i b, c ← aget (b_children b) (i - 1); b' ← set_child i c b;
                    k ← aget (b_keys b') (i - 1); set_bkey i k b') b1
        else Val b);
  b2 ← set_bkey pos (s_key si) b1;
  b3 ← set_child pos (s_left si) b2;
  b4 ← set_child (pos + 1) (s_right si) b3;
  Val (set_bnum (b_num b + 1) b4).

Fixpoint insertInBranchNode (d node : nat) (key val : Z) : op (option split_info) :=
  match d with
  | O => throw undefined_behaviour
  | S d' =>
    b ← branch_at node;
    pos ← lift_res (lookupPositionInBranchNode b key);
    child ← lift_res (aget (b_children b) pos);
    csi ← (match d' with O => insertInLeafNode child key val | S _ => insertInBranchNode d' child key val end);
    match csi with
    | None => mret None
    | Some csi =>
      b ← branch_at node;
      if bool_decide (b_num b = Z.of_nat N) then
        si ← splitBranchNode node (s_key csi);
        let host := if bool_decide (key < s_key si) then s_left si else s_right si in
        h ← branch_at host;
        pos ← lift_res (lookupPositionInBranchNode h key);
        h' ← lift_res (insert_child pos csi h);
        put_branch host h';; mret (Some si)
      else
        b' ← lift_res (insert_child pos csi b);
        put_branch node b';; mret None
    end
  end.

Definition insert (key val : Z) : op unit :=
  t ← get_st;
  si ← (match depth t with
        | O => insertInLeafNode (rootNode t) key val
        | S _ => insertInBranchNode (depth t) (rootNode t) key val
        end);
  match si with
  | None => mret tt
  | Some si =>
    root ← newBranchNode;
    b ← branch_at root;
    b ← lift_res (set_bkey 0 (s_key si) b);
    b ← lift_res (set_child 0 (s_left si) b);
    b ← lift_res (set_child 1 (s_right si) b);
    put_branch root (set_bnum (b_num b + 1) b);;
    modify (λ t, set_depth_root (S (depth t)) root t)
  end.

(** ** Deletion, leaf level *)

(** The loop moves entries to the left up to the unsigned [numKeys - 1]; it stops
    at the latest at the end of the array, where the access is undefined. *)
Definition eraseFromLeafNode (key : Z) (l : leaf_node) : res (leaf_node * bool) :=
  pos ← lookupPositionInLeafNode l key;
  k ← aget (l_keys l) pos;
  if bool_decide (k = key) then
    let last := Z.min (u32 (l_num l - 1)) (Z.of_nat M) in
    l' ← loop (upward pos last)
           (λ i l, k ← aget (l_keys l) (i + 1); v ← aget (l_values l) (i + 1); set_entry i k v l) l;
    Val (set_num (u32 (l_num l - 1)) l', true)
  else Val (l, false).

(** Copying entries from one leaf to another. *)
Definition copy_entries (from : leaf_node) (src dst n : Z) : leaf_node → res leaf_node :=
  loop (upward 0 n)
    (λ i to, k ← aget (l_keys from) (src + i); v ← aget (l_values from) (src + i); set_entry (dst + i) k v to).

(** [node1] survives; the result is its address. *)
Definition mergeLeafNodes (node1 node2 : nat) : op nat :=
  l1 ← leaf_at node1; l2 ← leaf_at node2;
  assert_ (bool_decide (l_num l1 + l_num l2 ≤ Z.of_nat M));;
  l1' ← lift_res (copy_entries l2 0 (l_num l1) (l_num l2) l1);
  put_leaf node1 (set_next (nextLeaf l2) (set_num (l_num l1 + l_num l2) l1'));;
  put_leaf node2 (set_num 0 l2);;
  match nextLeaf l2 with
  | None => mret tt
  | Some n => l ← leaf_at n; put_leaf n (set_prev (Some node1) l)
  end;;
  mret node1.

Definition balanceLeafNodes (donor receiver : nat) : op unit :=
  d ← leaf_at donor; r ← leaf_at receiver;
  assert_ (bool_decide (l_num d > l_num r));;
  let balancedNum := (l_num d + l_num r) / 2 in
  let toMove := l_num d - balancedNum in
  if bool_decide (toMove = 0) then mret tt
  else
    kd ← lift_res (aget (l_keys d) 0); kr ← lift_res (aget (l_keys r) 0);
    if bool_decide (kd < kr) then
      r1 ← lift_res (loop (downward (l_num r) 0)
             (λ i r, k ← aget (l_keys r) (i - 1); v ← aget (l_values r) (i - 1); set_entry (i + toMove - 1) k v r) r);
      r2 ← lift_res (copy_entries d balancedNum 0 toMove r1);
      put_leaf receiver (set_num (l_num r + toMove) r2);;
      put_leaf donor (set_num (l_num d - toMove) d)
    else
      r1 ← lift_res (copy_entries d 0 (l_num r) toMove r);
      d1 ← lift_res (loop (upward 0 (l_num d - toMove))
             (λ i d, k ← aget (l_keys d) (toMove + i); v ← aget (l_values d) (toMove + i); set_entry i k v d) d);
      put_leaf receiver (set_num (l_num r + toMove) r1);;
      put_leaf donor (set_num (l_num d - toMove) d1).

(** [leaf->prevLeaf->numKeys] and [leaf->nextLeaf->numKeys] *)
Definition num_of (p : option nat) : op Z := a ← pointer p; l ← leaf_at a; mret (l_num l).

Definition underflowAtLeafLevel (node : nat) (pos : Z) (leaf : nat) : op unit :=
  b ← branch_at node;
  assert_ (bool_decide (pos ≤ b_num b));;
  l ← leaf_at leaf;
  let middle := leaf_middle in
  left ← (if bool_decide (pos > 0) then n ← num_of (prevLeaf l); mret (bool_decide (n > middle)) else mret false);
  right ← (if left : bool then mret false
           else if bool_decide (pos < b_num b)
           then n ← num_of (nextLeaf l); mret (bool_decide (n > middle)) else mret false);
  if left : bool then
    p ← pointer (prevLeaf l);
    balanceLeafNodes p leaf;;
    l ← leaf_at leaf; k ← lift_res (aget (l_keys l) 0);
    b' ← lift_res (set_bkey pos k b); put_branch node b'
  else if right : bool then
    p ← pointer (nextLeaf l);
    balanceLeafNodes p leaf;;
    l ← leaf_at leaf; q ← pointer (nextLeaf l); r ← leaf_at q;
    k ← lift_res (aget (l_keys r) 0);
    b' ← lift_res (set_bkey pos k b); put_branch node b'
  else
    mleft ← (if bool_decide (pos > 0) then n ← num_of (prevLeaf l); mret (bool_decide (n ≤ middle)) else mret false);
    survivor ←
      (if mleft : bool then
         p ← pointer (prevLeaf l); s ← mergeLeafNodes p leaf; deleteLeafNode leaf;; mret s
       else
         mright ← (if bool_decide (pos < b_num b)
                   then n ← num_of (nextLeaf l); mret (bool_decide (n ≤ middle)) else mret false);
         if mright : bool then
           q ← pointer (nextLeaf l); s ← mergeLeafNodes leaf q; deleteLeafNode q;; mret s
         else throw assertion_failed);
    if bool_decide (b_num b > 1) then
      let pos := if bool_decide (pos > 0) then pos - 1 else pos in
      b1 ← lift_res (loop (upward pos (b_num b - 1))
             (λ i b, k ← aget (b_keys b) (i + 1); b' ← set_bkey i k b;
                     c ← aget (b_children b') (i + 2); set_child (i + 1) c b') b);
      b2 ← lift_res (set_child pos survivor b1);
      put_branch node (set_bnum (b_num b - 1) b2)
    else modify (λ t, set_depth_root (depth t - 1) survivor t).

(** ** Deletion, inner levels *)
Definition mergeBranchNodes (sibling : nat) (key : Z) (node : nat) : op unit :=
  s ← branch_at sibling; n ← branch_at node;
  k0 ← lift_res (aget (b_keys n) 0); assert_ (bool_decide (key ≤ k0));;
  kl ← lift_res (aget (b_keys s) (b_num s - 1)); assert_ (bool_decide (kl < key));;
  s1 ← lift_res (set_bkey (b_num s) key s);
  c0 ← lift_res (aget (b_children n) 0);
  s2 ← lift_res (set_child (b_num s + 1) c0 s1);
  s3 ← lift_res (loop (upward 0 (b_num n))
         (λ i s', k ← aget (b_keys n) i; s1 ← set_bkey (b_num s + i + 1) k s';
                  c ← aget (b_children n) (i + 1); set_child (b_num s + i + 2) c s1) s2);
  put_branch sibling (set_bnum (b_num s + b_num n + 1) s3).

Definition balanceBranchNodes (donor receiver parent : nat) (pos : Z) : op unit :=
  d ← branch_at donor; r ← branch_at receiver; p ← branch_at parent;
  assert_ (bool_decide (b_num d > b_num r));;
  let balancedNum := (b_num d + b_num r) / 2 in
  let toMove := b_num d - balancedNum in
  if bool_decide (toMove = 0) then mret tt
  else
    kd ← lift_res (aget (b_keys d) 0); kr ← lift_res (aget (b_keys r) 0);
    if bool_decide (kd < kr) then
      c ← lift_res (aget (b_children r) (b_num r));
      r1 ← lift_res (set_child (b_num r + toMove) c r);
      r2 ← lift_res (loop (downward (b_num r) 0)
             (λ i r, k ← aget (b_keys r) (i - 1); r' ← set_bkey (i + toMove - 1) k r;
                     c ← aget (b_children r') (i - 1); set_child (i + toMove - 1) c r') r1);
      r3 ← lift_res (loop (upward 0 toMove)
             (λ i r, c ← aget (b_children d) (b_num d - toMove + 1 + i); set_child i c r) r2);
      r4 ← lift_res (loop (upward 0 (toMove - 1))
             (λ i r, k ← aget (b_keys d) (b_num d - toMove + 1 + i); set_bkey i k r) r3);
      kp ← lift_res (aget (b_keys p) pos);
      r5 ← lift_res (set_bkey (toMove - 1) kp r4);
      assert_ (bool_decide (b_num p > pos));;
      k ← lift_res (aget (b_keys d) (b_num d - toMove));
      p' ← lift_res (set_bkey pos k p);
      put_branch parent p';;
      put_branch receiver (set_bnum (b_num r + toMove) r5);;
      put_branch donor (set_bnum (b_num d - toMove) d)
    else
      let n := b_num r in
      r1 ← lift_res (loop (upward 0 toMove)
             (λ i r, c ← aget (b_children d) i; r' ← set_child (n + 1 + i) c r;
                     k ← aget (b_keys d) i; set_bkey (n + 1 + i) k r') r);
      kp ← lift_res (aget (b_keys p) pos);
      r2 ← lift_res (set_bkey n kp r1);
      k ← lift_res (aget (b_keys d) (toMove - 1));
      d1 ← lift_res (loop (upward 0 (b_num d - toMove))
             (λ i d, k ← aget (b_keys d) (toMove + i); d' ← set_bkey i k d;
                     c ← aget (b_children d') (toMove + i); set_child i c d') d);
      c ← lift_res (aget (b_children d1) (b_num d));
      d2 ← lift_res (set_child (b_num d - toMove) c d1);
      assert_ (bool_decide (b_num p > pos));;
      p' ← lift_res (set_bkey pos k p);
      put_branch parent p';;
      put_branch receiver (set_bnum (n + toMove) r2);;
      put_branch donor (set_bnum (b_num d - toMove) d2).

(** The number of keys of the sibling at a position; 0 when there is none. *)
Definition sibling_keys (b : branch_node) (ok : bool) (i : Z) : op Z :=
  if ok then a ← lift_res (aget (b_children b) i); s ← branch_at a; mret (b_num s) else mret 0.

Definition underflowAtBranchLevel (node : nat) (pos : Z) (child : nat) : op nat :=
  b ← branch_at node;
  let middle := branch_middle in
  prevKeys ← sibling_keys b (bool_decide (pos > 0)) (pos - 1);
  nextKeys ← sibling_keys b (bool_decide (pos < b_num b)) (pos + 1);
  if bool_decide (prevKeys > middle) then
    sibling ← lift_res (aget (b_children b) (pos - 1));
    balanceBranchNodes sibling child node (pos - 1);; mret child
  else if bool_decide (nextKeys > middle) then
    sibling ← lift_res (aget (b_children b) (pos + 1));
    balanceBranchNodes sibling child node pos;; mret child
  else
    p ← (if bool_decide (prevKeys > 0) then
           l ← lift_res (aget (b_children b) (pos - 1)); k ← lift_res (aget (b_keys b) (pos - 1));
           mergeBranchNodes l k child;; mret (pos - 1, child, l)
         else if bool_decide (nextKeys > 0) then
           r ← lift_res (aget (b_children b) (pos + 1)); k ← lift_res (aget (b_keys b) pos);
           mergeBranchNodes child k r;; mret (pos, r, child)
         else throw assertion_failed);
    let '(ppos, witnessNode, newChild) := p in
    b1 ← lift_res (loop (upward ppos (b_num b - 1)) (λ i b, k ← aget (b_keys b) (i + 1); set_bkey i k b) b);
    let pos := if bool_decide (pos = 0) then pos + 1 else pos in
    b2 ← lift_res (loop (upward pos (b_num b)) (λ i b, c ← aget (b_children b) (i + 1); set_child i c b) b1);
    put_branch node (set_bnum (b_num b - 1) b2);;
    deleteBranchNode witnessNode;;
    mret newChild.

Fixpoint eraseFromBranchNode (d node : nat) (key : Z) : op bool :=
  match d with
  | O => throw assertion_failed
  | S d' =>
    b ← branch_at node;
    pos ← lift_res (lookupPositionInBranchNode b key);
    n ← lift_res (aget (b_children b) pos);
    match d' with
    | O =>
      l ← leaf_at n;
      r ← lift_res (eraseFromLeafNode key l);
      put_leaf n r.1;;
      when (bool_decide (l_num r.1 < leaf_middle)) (underflowAtLeafLevel node pos n);;
      mret r.2
    | S _ =>
      deleted ← eraseFromBranchNode d' n key;
      b ← branch_at node;
      pos ← lift_res (lookupPositionInBranchNode b key);
      c ← branch_at n;
      when (bool_decide (b_num c < branch_middle))
        (child ← underflowAtBranchLevel node pos n;
         b ← branch_at node;
         t ← get_st;
         when (bool_decide (d = depth t ∧ b_num b = 0)) (modify (λ t, set_depth_root (depth t - 1) child t)));;
      mret deleted
    end
  end.

Definition erase (key : Z) : op bool :=
  t ← get_st;
  match depth t with
  | O => l ← leaf_at (rootNode t); r ← lift_res (eraseFromLeafNode key l); put_leaf (rootNode t) r.1;; mret r.2
  | S _ => eraseFromBranchNode (depth t) (rootNode t) key
  end.
End btree.
