(* ===== verification/BTreeNodes.v ===== *)
(** * BTreeNodes: what the operations of [BTree] do to one node

    [leaf_ok] and [branch_ok] say which entries (which children with their
    upper bounds) a node holds; the operations on nodes are list operations on
    them. *)

From stdpp Require Import gmap sorting.
From S2P Require Import Prelude BTree.

(** ** The loops as list operations *)

(** ** Access *)
Lemma aget_ok {A} (a : list A) (i : nat) x : a !! i = Some x → aget a (Z.of_nat i) = Val x.
Proof. intros H. unfold aget. rewrite bool_decide_eq_true_2 by lia. by rewrite Nat2Z.id, H. Qed.
Lemma aset_ok {A} (a : list A) (i : nat) x : (i < length a)%nat → aset a (Z.of_nat i) x = Val (<[i := x]> a).
Proof. intros H. unfold aset. rewrite bool_decide_eq_true_2 by lia. by rewrite Nat2Z.id. Qed.

Lemma take_lookup {A} (a l : list A) n i x : take n a = l → l !! i = Some x → a !! i = Some x.
Proof. intros <- H. apply lookup_take_Some in H as [H _]. done. Qed.

(** A step that only computes. *)
Lemma lift_val {S A B} (r : res A) (f : A → M S B) a s : r = Val a → (lift_res r ≫= f) s = f a s.
Proof. by intros ->. Qed.

Lemma res_val {A B} (r : res A) (f : A → res B) a : r = Val a → (r ≫= f) = f a.
Proof. by intros ->. Qed.

(** ** Index ranges *)
Lemma upward_cons a b : a < b → upward a b = a :: upward (a + 1) b.
Proof. intros H. unfold upward. rewrite seqZ_cons by lia. f_equal. f_equal; lia. Qed.
Lemma upward_nil a b : b ≤ a → upward a b = [].
Proof. intros H. unfold upward. by rewrite seqZ_nil by lia. Qed.
Lemma downward_cons b a : a < b → downward b a = b :: downward (b - 1) a.
Proof.
  intros H. unfold downward. replace (b - a) with ((b - 1 - a) + 1) by lia.
  rewrite seqZ_app by lia. rewrite reverse_app. change 1 with (Z.succ 0) at 3.
  rewrite (seqZ_cons _ (Z.succ 0)) by lia. rewrite seqZ_nil by lia. simpl. f_equal. lia.
Qed.
Lemma downward_nil b a : b ≤ a → downward b a = [].
Proof. intros H. unfold downward. by rewrite seqZ_nil by lia. Qed.

(** ** Moving entries up by one place *)

(** [m] steps of [a[i] = a[i-1]], downwards to [pos]. *)
Fixpoint shift_up {A} (m pos : nat) (a : list A) : list A :=
  match m with
  | O => a
  | S m' => shift_up m' pos (match a !! (pos + m')%nat with Some x => <[(pos + S m')%nat := x]> a | None => a end)
  end.

Lemma shift_up_length {A} m pos (a : list A) : length (shift_up m pos a) = length a.
Proof.
  revert a. induction m as [|m IH]; intros a; simpl; [done|]. rewrite IH.
  destruct (a !! _); [apply length_insert|done].
Qed.

Lemma shift_up_lookup {A} m pos (a : list A) j : (pos + m < length a)%nat →
  shift_up m pos a !! j = if decide (pos < j ≤ pos + m)%nat then a !! (j - 1)%nat else a !! j.
Proof.
  revert a. induction m as [|m IH]; intros a Hl; simpl.
  - rewrite decide_False by lia. done.
  - destruct (lookup_lt_is_Some_2 a (pos + m)) as [x Hx]; [lia|]. rewrite Hx.
    rewrite IH by (rewrite length_insert; lia).
    destruct (decide (j = pos + S m)%nat) as [->|Hj].
    + rewrite decide_False by lia. rewrite decide_True by lia.
      rewrite list_lookup_insert_eq by lia. by replace (pos + S m - 1)%nat with (pos + m)%nat by lia.
    + destruct (decide (pos < j ≤ pos + m)%nat).
      * rewrite decide_True by lia. rewrite list_lookup_insert_ne by lia. done.
      * rewrite decide_False by lia. by rewrite list_lookup_insert_ne by lia.
Qed.

(** The prefix after making room at [pos] and writing there. *)
Lemma shift_insert {A} (a l : list A) pos x : (pos ≤ length l < length a)%nat → take (length l) a = l →
  take (S (length l)) (<[pos := x]> (shift_up (length l - pos) pos a)) = take pos l ++ x :: drop pos l.
Proof.
  intros Hlen Ht. apply list_eq. intros j.
  assert (∀ i, (i < length l)%nat → a !! i = l !! i) as Hpre by (intros i Hi; rewrite <-Ht, lookup_take_lt; done || lia).
  destruct (decide (j < S (length l))%nat) as [Hj|Hj].
  - rewrite lookup_take_lt by lia. destruct (decide (j = pos)) as [->|Hne].
    + rewrite list_lookup_insert_eq by (rewrite shift_up_length; lia).
      rewrite lookup_app_r by (rewrite length_take; lia). by replace (pos - _)%nat with 0%nat by (rewrite length_take; lia).
    + rewrite list_lookup_insert_ne by done. rewrite shift_up_lookup by lia. case_decide.
      * rewrite lookup_app_r by (rewrite length_take; lia). rewrite length_take.
        destruct (j - pos `min` length l)%nat as [|i] eqn:E; [lia|]. simpl. rewrite lookup_drop, Hpre by lia. f_equal. lia.
      * rewrite lookup_app_l by (rewrite length_take; lia). rewrite lookup_take_lt by lia. apply Hpre. lia.
  - rewrite lookup_ge_None_2 by (rewrite length_take; lia).
    rewrite lookup_ge_None_2; [done|]. rewrite length_app, length_cons, length_take, length_drop. lia.
Qed.

(** ** Copying a range *)
Fixpoint copy_range {A} (m src dst : nat) (from to : list A) : list A :=
  match m with
  | O => to
  | S m' => copy_range m' (S src) (S dst) from
              (match from !! src with Some x => <[dst := x]> to | None => to end)
  end.

Lemma copy_range_length {A} m src dst (from to : list A) : length (copy_range m src dst from to) = length to.
Proof.
  revert src dst to. induction m as [|m IH]; intros; simpl; [done|]. rewrite IH.
  destruct (from !! src); [apply length_insert|done].
Qed.

Lemma copy_range_lookup {A} m src dst (from to : list A) j :
  (src + m ≤ length from)%nat → (dst + m ≤ length to)%nat →
  copy_range m src dst from to !! j
  = if decide (dst ≤ j < dst + m)%nat then from !! (src + (j - dst))%nat else to !! j.
Proof.
  revert src dst to. induction m as [|m IH]; intros src dst to H1 H2; simpl; [by rewrite decide_False by lia|].
  destruct (lookup_lt_is_Some_2 from src) as [x Hx]; [lia|]. rewrite Hx.
  rewrite IH by (rewrite ?length_insert; lia).
  destruct (decide (j = dst)) as [->|Hj].
  - rewrite decide_False by lia. rewrite decide_True by lia. rewrite list_lookup_insert_eq by lia.
    by replace (src + (dst - dst))%nat with src by lia.
  - destruct (decide (S dst ≤ j < S dst + m)%nat).
    + rewrite decide_True by lia. f_equal. lia.
    + rewrite decide_False by lia. by rewrite list_lookup_insert_ne by done.
Qed.

Lemma copy_range_take {A} m src (from to : list A) :
  (src + m ≤ length from)%nat → (m ≤ length to)%nat →
  take m (copy_range m src 0 from to) = take m (drop src from).
Proof.
  intros H1 H2. apply list_eq. intros j. destruct (decide (j < m)%nat).
  - rewrite !lookup_take_lt by lia. rewrite copy_range_lookup by lia. rewrite decide_True by lia.
    rewrite lookup_drop. f_equal. lia.
  - rewrite !lookup_take_ge by lia. done.
Qed.

(** ** The loops on nodes *)
Lemma loop_shift_leaf pos m l :
  (pos + m < length (l_keys l))%nat → (pos + m < length (l_values l))%nat →
  loop (downward (Z.of_nat (pos + m)) (Z.of_nat pos))
    (λ i l, k ← aget (l_keys l) (i - 1); v ← aget (l_values l) (i - 1); set_entry i k v l) l
  = Val (mk_leaf (l_num l) (shift_up m pos (l_keys l)) (shift_up m pos (l_values l)) (nextLeaf l) (prevLeaf l)).
Proof.
  revert l. induction m as [|m IH]; intros l Hk Hv.
  - rewrite downward_nil by lia. by destruct l.
  - rewrite downward_cons by lia. cbn [loop shift_up].
    destruct (lookup_lt_is_Some_2 (l_keys l) (pos + m)) as [k Ek]; [lia|].
    destruct (lookup_lt_is_Some_2 (l_values l) (pos + m)) as [v Ev]; [lia|]. rewrite Ek, Ev.
    replace (Z.of_nat (pos + S m) - 1) with (Z.of_nat (pos + m)) by lia.
    rewrite (aget_ok _ _ _ Ek), (aget_ok _ _ _ Ev). unfold set_entry, mbind, res_bind.
    rewrite (aset_ok (l_keys l)), (aset_ok (l_values l)) by lia.
    apply (IH (mk_leaf _ _ _ _ _)); simpl; rewrite length_insert; lia.
Qed.

Lemma loop_copy_leaf m src (l s : leaf_node) (i0 : nat) :
  (src + i0 + m ≤ length (l_keys l))%nat → (src + i0 + m ≤ length (l_values l))%nat →
  (i0 + m ≤ length (l_keys s))%nat → (i0 + m ≤ length (l_values s))%nat →
  loop (upward (Z.of_nat i0) (Z.of_nat (i0 + m)))
    (λ i s, k ← aget (l_keys l) (i + Z.of_nat src); v ← aget (l_values l) (i + Z.of_nat src); set_entry i k v s) s
  = Val (mk_leaf (l_num s) (copy_range m (src + i0) i0 (l_keys l) (l_keys s))
           (copy_range m (src + i0) i0 (l_values l) (l_values s)) (nextLeaf s) (prevLeaf s)).
Proof.
  revert i0 s. induction m as [|m IH]; intros i0 s H1 H2 H3 H4.
  - rewrite upward_nil by lia. by destruct s.
  - rewrite upward_cons by lia. cbn [loop copy_range].
    destruct (lookup_lt_is_Some_2 (l_keys l) (src + i0)) as [k Ek]; [lia|].
    destruct (lookup_lt_is_Some_2 (l_values l) (src + i0)) as [v Ev]; [lia|]. rewrite Ek, Ev.
    replace (Z.of_nat i0 + Z.of_nat src) with (Z.of_nat (src + i0)) by lia.
    rewrite (aget_ok _ _ _ Ek), (aget_ok _ _ _ Ev). unfold set_entry, mbind, res_bind.
    rewrite (aset_ok (l_keys s)), (aset_ok (l_values s)) by lia.
    replace (Z.of_nat i0 + 1) with (Z.of_nat (S i0)) by lia. replace (i0 + S m)%nat with (S i0 + m)%nat by lia.
    replace (S (src + i0))%nat with (src + S i0)%nat by lia.
    apply (IH (S i0) (mk_leaf _ _ _ _ _)); simpl; rewrite ?length_insert; lia.
Qed.

Lemma loop_shift_branch pos m b :
  (pos + m < length (b_keys b))%nat → (pos + m < length (b_children b))%nat →
  loop (downward (Z.of_nat (pos + m)) (Z.of_nat pos))
    (λ i b, c ← aget (b_children b) (i - 1); b' ← set_child i c b; k ← aget (b_keys b') (i - 1); set_bkey i k b') b
  = Val (mk_branch (b_num b) (shift_up m pos (b_keys b)) (shift_up m pos (b_children b))).
Proof.
  revert b. induction m as [|m IH]; intros b Hk Hv.
  - rewrite downward_nil by lia. by destruct b.
  - rewrite downward_cons by lia. cbn [loop shift_up].
    destruct (lookup_lt_is_Some_2 (b_keys b) (pos + m)) as [k Ek]; [lia|].
    destruct (lookup_lt_is_Some_2 (b_children b) (pos + m)) as [v Ev]; [lia|]. rewrite Ek, Ev.
    replace (Z.of_nat (pos + S m) - 1) with (Z.of_nat (pos + m)) by lia.
    rewrite (aget_ok _ _ _ Ev). unfold set_child, set_bkey, mbind, res_bind.
    rewrite (aset_ok (b_children b)) by lia. cbv beta iota. cbn [b_keys b_children b_num].
    rewrite (aget_ok _ _ _ Ek), (aset_ok (b_keys b)) by lia.
    apply (IH (mk_branch _ _ _)); simpl; rewrite length_insert; lia.
Qed.

Lemma loop_copy_branch m src (b s : branch_node) (i0 : nat) :
  (src + i0 + m ≤ length (b_keys b))%nat → (src + i0 + m ≤ length (b_children b))%nat →
  (i0 + m ≤ length (b_keys s))%nat → (i0 + m ≤ length (b_children s))%nat →
  loop (upward (Z.of_nat i0) (Z.of_nat (i0 + m)))
    (λ i s, k ← aget (b_keys b) (Z.of_nat src + i); c ← aget (b_children b) (Z.of_nat src + i);
            s' ← set_bkey i k s; set_child i c s') s
  = Val (mk_branch (b_num s) (copy_range m (src + i0) i0 (b_keys b) (b_keys s))
           (copy_range m (src + i0) i0 (b_children b) (b_children s))).
Proof.
  revert i0 s. induction m as [|m IH]; intros i0 s H1 H2 H3 H4.
  - rewrite upward_nil by lia. by destruct s.
  - rewrite upward_cons by lia. cbn [loop copy_range].
    destruct (lookup_lt_is_Some_2 (b_keys b) (src + i0)) as [k Ek]; [lia|].
    destruct (lookup_lt_is_Some_2 (b_children b) (src + i0)) as [v Ev]; [lia|]. rewrite Ek, Ev.
    replace (Z.of_nat src + Z.of_nat i0) with (Z.of_nat (src + i0)) by lia.
    rewrite (aget_ok _ _ _ Ek), (aget_ok _ _ _ Ev). unfold set_child, set_bkey, mbind, res_bind.
    rewrite (aset_ok (b_keys s)) by lia. cbv beta iota. cbn [b_keys b_children b_num].
    rewrite (aset_ok (b_children s)) by lia. cbv beta iota.
    replace (Z.of_nat i0 + 1) with (Z.of_nat (S i0)) by lia. replace (i0 + S m)%nat with (S i0 + m)%nat by lia.
    replace (S (src + i0))%nat with (src + S i0)%nat by lia.
    apply (IH (S i0) (mk_branch _ _ _)); simpl; rewrite ?length_insert; lia.
Qed.

(** A copy of [m] entries and one more. *)
Lemma copy_range_snoc {A} m src (from to : list A) x :
  (src + m < length from)%nat → (m < length to)%nat → from !! (src + m)%nat = Some x →
  take (S m) (<[m := x]> (copy_range m src 0 from to)) = take (S m) (drop src from).
Proof.
  intros H1 H2 Hx. apply list_eq. intros j. destruct (decide (j < S m)%nat).
  - rewrite !lookup_take_lt by lia. rewrite lookup_drop. destruct (decide (j = m)) as [->|].
    + by rewrite list_lookup_insert_eq by (rewrite copy_range_length; lia).
    + rewrite list_lookup_insert_ne by done. rewrite copy_range_lookup by lia. rewrite decide_True by lia. f_equal. lia.
  - rewrite !lookup_take_ge by lia. done.
Qed.

(** ** Linear search *)
Lemma scan_pos_from test (a l1 l2 : list Z) i n :
  (i + n = length (l1 ++ l2))%nat → (i ≤ length l1)%nat → take (length (l1 ++ l2)) a = l1 ++ l2 →
  Forall (λ k, test k = true) l1 → (∀ k, head l2 = Some k → test k = false) →
  scan_pos test a n (Z.of_nat i) = Val (Z.of_nat (length l1)).
Proof.
  intros Hn Hi Ht H1 H2. revert i Hn Hi. induction n as [|n IH]; intros i Hn Hi; simpl.
  - rewrite length_app in Hn. do 2 f_equal. lia.
  - rewrite length_app in Hn. destruct (decide (i < length l1)%nat) as [Hlt|Hge].
    + destruct (lookup_lt_is_Some_2 l1 i Hlt) as [k Hk].
      rewrite (aget_ok a i k) by (eapply take_lookup; [exact Ht|by apply lookup_app_l_Some]). cbn.
      rewrite Forall_lookup in H1. rewrite (H1 _ _ Hk). replace (Z.of_nat i + 1) with (Z.of_nat (S i)) by lia.
      apply IH; [rewrite length_app|]; lia.
    + assert (i = length l1) as -> by lia. destruct l2 as [|k l2]; [simpl in Hn; lia|].
      rewrite (aget_ok a (length l1) k) by (eapply take_lookup; [exact Ht|by apply list_lookup_middle]). cbn.
      by rewrite (H2 k eq_refl).
Qed.
Lemma scan_pos_ok test (a l1 l2 : list Z) n :
  n = length (l1 ++ l2) → take n a = l1 ++ l2 →
  Forall (λ k, test k = true) l1 → (∀ k, head l2 = Some k → test k = false) →
  scan_pos test a n 0 = Val (Z.of_nat (length l1)).
Proof. intros -> Ht H1 H2. apply (scan_pos_from test a l1 l2 0); auto; lia. Qed.

(** ** Nodes *)

(** ** Entries in key order *)
Notation entry := (Z * Z)%type.
Definition in_order (kv : list entry) : Prop := StronglySorted Z.lt kv.*1.
Definition before (key : Z) (kv : list entry) : list entry := filter (λ e, e.1 < key) kv.
Definition behind (key : Z) (kv : list entry) : list entry := filter (λ e, key < e.1) kv.
(** The entries after [insert]. *)
Definition with_entry (key val : Z) (kv : list entry) : list entry :=
  before key kv ++ (key, val) :: behind key kv.

Lemma filter_none {A} (P : A → Prop) `{∀ x, Decision (P x)} (l : list A) : Forall (λ x, ¬ P x) l → filter P l = [].
Proof. induction 1; [done|]. by rewrite filter_cons_False. Qed.
Lemma filter_all {A} (P : A → Prop) `{∀ x, Decision (P x)} (l : list A) : Forall P l → filter P l = l.
Proof. induction 1; [done|]. rewrite filter_cons_True by done. by f_equal. Qed.

(** A list in order around a key. *)
Lemma in_order_split key kv : in_order kv →
  ∃ mid, kv = before key kv ++ mid ++ behind key kv ∧ (mid = [] ∨ ∃ v, mid = [(key, v)]).
Proof.
  intros Hs. unfold in_order in Hs. induction kv as [|[k v] kv IH]; [exists []; auto|]. cbn in Hs.
  apply StronglySorted_inv in Hs as [Hs Hk]. rewrite Forall_map in Hk.
  unfold before, behind in *. destruct (decide (k < key)).
  - destruct (IH Hs) as (mid & E & H). exists mid.
    rewrite filter_cons_True, filter_cons_False by (simpl; lia). split; [cbn; by f_equal|done].
  - rewrite filter_cons_False by (simpl; lia).
    rewrite filter_none by (eapply Forall_impl; [exact Hk|intros ? ?; simpl in *; lia]).
    destruct (decide (k = key)) as [->|].
    + exists [(key, v)]. rewrite filter_cons_False by (simpl; lia).
      rewrite filter_all by (eapply Forall_impl; [exact Hk|intros ? ?; simpl in *; lia]). split; [done|eauto].
    + exists []. rewrite filter_cons_True by (simpl; lia).
      rewrite filter_all by (eapply Forall_impl; [exact Hk|intros ? ?; simpl in *; lia]). split; [done|auto].
Qed.
Lemma before_lt key kv : Forall (λ e, e.1 < key) (before key kv).
Proof. apply Forall_forall. by intros e [? _]%list_elem_of_filter. Qed.
Lemma behind_gt key kv : Forall (λ e, key < e.1) (behind key kv).
Proof. apply Forall_forall. by intros e [? _]%list_elem_of_filter. Qed.
Lemma with_entry_in_order key val kv : in_order kv → in_order (with_entry key val kv).
Proof.
  intros Hs. destruct (in_order_split key kv Hs) as (mid & E & _).
  unfold in_order, with_entry in *. rewrite fmap_app, fmap_cons. rewrite E, !fmap_app in Hs.
  apply StronglySorted_app in Hs as (_ & H1 & Hs). apply StronglySorted_app in Hs as (_ & _ & H2).
  apply StronglySorted_app. split_and!; [|done|].
  - intros x1 x2 Hx1 Hx2. apply list_elem_of_fmap in Hx1 as (e1 & -> & He1).
    pose proof (proj1 (Forall_forall _ _) (before_lt key kv) _ He1) as L1. simpl in L1.
    apply elem_of_cons in Hx2 as [-> | Hx2]; [done|].
    apply list_elem_of_fmap in Hx2 as (e2 & -> & He2).
    pose proof (proj1 (Forall_forall _ _) (behind_gt key kv) _ He2) as L2. simpl in *. lia.
  - constructor; [done|]. rewrite Forall_map. apply behind_gt.
Qed.

(** ** Leaves *)
Record leaf_ok (M : nat) (l : leaf_node) (kv : list entry) : Prop := {
  leaf_keys_len : length (l_keys l) = M;
  leaf_values_len : length (l_values l) = M;
  leaf_num : l_num l = Z.of_nat (length kv);
  leaf_keys : take (length kv) (l_keys l) = kv.*1;
  leaf_values : take (length kv) (l_values l) = kv.*2
}.

Lemma leaf_ok_le M l kv : leaf_ok M l kv → (length kv ≤ M)%nat.
Proof.
  intros H. pose proof (f_equal length (leaf_keys _ _ _ H)) as E.
  rewrite length_take, length_fmap, (leaf_keys_len _ _ _ H) in E. lia.
Qed.
Lemma leaf_ok_links M l kv p : leaf_ok M l kv → leaf_ok M (set_next p l) kv.
Proof. intros []. by split. Qed.
Lemma leaf_ok_prev M l kv p : leaf_ok M l kv → leaf_ok M (set_prev p l) kv.
Proof. intros []. by split. Qed.
Lemma leaf_ok_take M l kv n : leaf_ok M l kv → (n ≤ length kv)%nat → leaf_ok M (set_num (Z.of_nat n) l) (take n kv).
Proof.
  intros [H1 H2 H3 H4 H5] Hn. split; try done; cbn [set_num l_num l_keys l_values];
    rewrite ?length_take, ?fmap_take, <-?H4, <-?H5, ?take_take; repeat f_equal; lia.
Qed.
Lemma leaf_key M l kv i e : leaf_ok M l kv → kv !! i = Some e → aget (l_keys l) (Z.of_nat i) = Val e.1.
Proof.
  intros H He. apply aget_ok. eapply take_lookup; [exact (leaf_keys _ _ _ H)|].
  by rewrite list_lookup_fmap, He.
Qed.
Lemma leaf_value M l kv i e : leaf_ok M l kv → kv !! i = Some e → aget (l_values l) (Z.of_nat i) = Val e.2.
Proof.
  intros H He. apply aget_ok. eapply take_lookup; [exact (leaf_values _ _ _ H)|].
  by rewrite list_lookup_fmap, He.
Qed.

Lemma leaf_position M l kv1 kv2 key : leaf_ok M l (kv1 ++ kv2) →
  Forall (λ e, e.1 < key) kv1 → Forall (λ e, key ≤ e.1) kv2 →
  lookupPositionInLeafNode l key = Val (Z.of_nat (length kv1)).
Proof.
  intros H H1 H2. unfold lookupPositionInLeafNode.
  pose proof (leaf_keys _ _ _ H) as E. rewrite fmap_app in E.
  rewrite (scan_pos_ok _ _ kv1.*1 kv2.*1); [by rewrite length_fmap| | | |].
  - rewrite (leaf_num _ _ _ H), Nat2Z.id, !length_app, !length_fmap. done.
  - by rewrite (leaf_num _ _ _ H), Nat2Z.id.
  - rewrite Forall_map. eapply Forall_impl; [exact H1|]. intros e He. by apply bool_decide_eq_true_2.
  - intros k Hk. destruct kv2 as [|e kv2]; [done|]. injection Hk as <-. inv H2. apply bool_decide_eq_false_2. simpl in *. lia.
Qed.

Lemma leaf_insert_ok M l kv1 kv2 key val : leaf_ok M l (kv1 ++ kv2) → (length (kv1 ++ kv2) < M)%nat →
  ∃ l', insertInLeafNodeAtPosition M (Z.of_nat (length kv1)) key val l = Val l'
        ∧ leaf_ok M l' (kv1 ++ (key, val) :: kv2) ∧ nextLeaf l' = nextLeaf l ∧ prevLeaf l' = prevLeaf l.
Proof.
  intros [H1 H2 H3 H4 H5] Hlen. unfold insertInLeafNodeAtPosition. pose proof (length_app kv1 kv2) as La.
  rewrite bool_decide_eq_true_2 by lia. rewrite H3.
  replace (Z.of_nat (length (kv1 ++ kv2))) with (Z.of_nat (length kv1 + length kv2)) by lia.
  rewrite loop_shift_leaf by lia. unfold mbind, res_bind, set_entry. cbn [l_keys l_values l_num nextLeaf prevLeaf].
  rewrite !aset_ok by (rewrite shift_up_length; lia). eexists. split; [done|]. split; [|done].
  assert (length (kv1 ++ (key, val) :: kv2) = S (length (kv1 ++ kv2))) as Es by (rewrite !length_app; simpl; lia).
  split; cbn [set_num l_keys l_values l_num].
  - by rewrite length_insert, shift_up_length.
  - by rewrite length_insert, shift_up_length.
  - lia.
  - rewrite Es. pose proof (shift_insert (l_keys l) (kv1 ++ kv2).*1 (length kv1) key) as E.
    rewrite length_fmap in E. replace (length (kv1 ++ kv2) - length kv1)%nat with (length kv2) in E by lia.
    rewrite E by (rewrite ?H1, ?H4; done || lia).
    rewrite fmap_app, take_app_length', drop_app_length' by (by rewrite length_fmap). by rewrite fmap_app.
  - rewrite Es. pose proof (shift_insert (l_values l) (kv1 ++ kv2).*2 (length kv1) val) as E.
    rewrite length_fmap in E. replace (length (kv1 ++ kv2) - length kv1)%nat with (length kv2) in E by lia.
    rewrite E by (rewrite ?H2, ?H5; done || lia).
    rewrite fmap_app, take_app_length', drop_app_length' by (by rewrite length_fmap). by rewrite fmap_app.
Qed.

(** The entries as a scan delivers them. *)
Lemma leaf_entries_ok M l kv : leaf_ok M l kv → leaf_entries l = Val kv.
Proof.
  intros H. unfold leaf_entries. rewrite (leaf_num _ _ _ H).
  assert (∀ m i acc, (i + m = length kv)%nat → acc = take i kv →
    loop (upward (Z.of_nat i) (Z.of_nat (i + m)))
      (λ i acc, k ← aget (l_keys l) i; v ← aget (l_values l) i; Val (acc ++ [(k, v)])) acc = Val kv) as Hl.
  2: { apply (Hl (length kv) 0%nat []); done. }
  induction m as [|m IH]; intros i acc Hi ->.
  - rewrite upward_nil by lia. cbn. by rewrite take_ge by lia.
  - rewrite upward_cons by lia. cbn [loop].
    destruct (lookup_lt_is_Some_2 kv i) as [e He]; [lia|].
    erewrite res_val; [|erewrite res_val by (by eapply leaf_key); erewrite res_val by (by eapply leaf_value); reflexivity].
    replace (Z.of_nat i + 1) with (Z.of_nat (S i)) by lia. replace (i + S m)%nat with (S i + m)%nat by lia.
    apply IH; [lia|]. destruct e as [k v]. symmetry. by apply take_S_r.
Qed.

(** Replacing the value of an entry. *)
Lemma leaf_replace_ok M l kv1 key v val kv2 : leaf_ok M l (kv1 ++ (key, v) :: kv2) →
  ∃ vs, aset (l_values l) (Z.of_nat (length kv1)) val = Val vs
        ∧ leaf_ok M (mk_leaf (l_num l) (l_keys l) vs (nextLeaf l) (prevLeaf l)) (kv1 ++ (key, val) :: kv2).
Proof.
  intros H. pose proof (leaf_ok_le _ _ _ H) as Hle. destruct H as [H1 H2 H3 H4 H5].
  rewrite length_app in Hle. simpl in Hle. rewrite aset_ok by lia. eexists. split; [done|].
  split; cbn [l_num l_keys l_values]; rewrite ?length_insert; try done.
  - rewrite H3, !length_app. done.
  - rewrite !length_app in *. simpl in *. rewrite H4, !fmap_app. done.
  - rewrite !length_app in *. simpl in *. rewrite take_insert_lt by lia. rewrite H5, !fmap_app.
    rewrite insert_app_r_alt by (rewrite length_fmap; lia). rewrite length_fmap, Nat.sub_diag. done.
Qed.

Lemma leaf_upper_ok M junk l kv : leaf_ok M l kv → length kv = M →
  ∃ s, leaf_upper M junk l = Val s ∧ leaf_ok M s (drop (Z.to_nat (leaf_middle M)) kv) ∧ nextLeaf s = None.
Proof.
  intros [H1 H2 H3 H4 H5] Hm. unfold leaf_upper, leaf_middle in *.
  set (mid := Z.to_nat ((Z.of_nat M + 1) / 2)).
  assert ((Z.of_nat M + 1) / 2 = Z.of_nat mid) as Em by (subst mid; rewrite Z2Nat.id; [done|apply Z.div_pos; lia]).
  assert (mid ≤ M)%nat as Hmid by (assert ((Z.of_nat M + 1) / 2 < Z.of_nat M + 1) by (apply Z.div_lt; lia); lia).
  clearbody mid. rewrite Em. replace (l_num l - Z.of_nat mid) with (Z.of_nat (0 + (M - mid))) by lia.
  change 0 with (Z.of_nat 0) at 1.
  rewrite loop_copy_leaf by (cbn [set_num empty_leaf l_keys l_values]; rewrite ?length_replicate; lia). eexists. split; [done|].
  cbn [set_num empty_leaf l_keys l_values l_num]. rewrite Nat.add_0_r.
  assert (length (drop mid kv) = (M - mid)%nat) as El by (rewrite length_drop; lia).
  split; [|done]. split; cbn [l_keys l_values l_num]; rewrite ?copy_range_length, ?length_replicate, ?El; try (done || lia).
  - rewrite copy_range_take by (rewrite ?length_replicate; lia).
    rewrite fmap_drop, <-H4, skipn_firstn_comm. f_equal. lia.
  - rewrite copy_range_take by (rewrite ?length_replicate; lia).
    rewrite fmap_drop, <-H5, skipn_firstn_comm. f_equal. lia.
Qed.

(** ** Branch nodes: the children with their upper bounds *)
Notation child := (nat * Z)%type.

(** [hi] is the upper bound of the last child. *)
Record branch_ok (N : nat) (b : branch_node) (L : list child) (hi : Z) : Prop := {
  branch_keys_len : length (b_keys b) = N;
  branch_children_len : length (b_children b) = S N;
  branch_num : Z.of_nat (length L) = b_num b + 1;
  branch_num_nonneg : 0 ≤ b_num b;
  branch_children : take (length L) (b_children b) = L.*1;
  branch_keys : take (Z.to_nat (b_num b)) (b_keys b) ++ [hi] = L.*2
}.

Lemma branch_ok_le N b L hi : branch_ok N b L hi → (length L ≤ S N)%nat.
Proof.
  intros H. pose proof (f_equal length (branch_children _ _ _ _ H)) as E.
  rewrite length_take, length_fmap, (branch_children_len _ _ _ _ H) in E. lia.
Qed.
Lemma branch_child N b L hi i c : branch_ok N b L hi → L !! i = Some c → aget (b_children b) (Z.of_nat i) = Val c.1.
Proof.
  intros H Hc. apply aget_ok. eapply take_lookup; [exact (branch_children _ _ _ _ H)|].
  by rewrite list_lookup_fmap, Hc.
Qed.
Lemma branch_key N b L hi i c : branch_ok N b L hi → L !! i = Some c → (S i < length L)%nat →
  aget (b_keys b) (Z.of_nat i) = Val c.2.
Proof.
  intros [H1 H2 H3 H4 H5 H6] Hc Hi. apply aget_ok. eapply take_lookup; [reflexivity|].
  assert (L.*2 !! i = Some c.2) as E by (by rewrite list_lookup_fmap, Hc).
  rewrite <-H6, lookup_app_l in E; [exact E|].
  assert (length (take (Z.to_nat (b_num b)) (b_keys b) ++ [hi]) = length L) as El by (rewrite H6; apply length_fmap).
  rewrite length_app in El. simpl in El. lia.
Qed.

(** The separators are the upper bounds without the last one. *)
Lemma branch_seps N b L hi : branch_ok N b L hi →
  take (Z.to_nat (b_num b)) (b_keys b) = take (Z.to_nat (b_num b)) L.*2.
Proof.
  intros H. pose proof (branch_ok_le _ _ _ _ H). destruct H as [H1 H2 H3 H4 H5 <-].
  rewrite take_app_length'; [done|]. rewrite length_take. lia.
Qed.

Lemma branch_position N b L1 c u L2 hi key : branch_ok N b (L1 ++ (c, u) :: L2) hi →
  Forall (λ e, e.2 ≤ key) L1 → key < u →
  lookupPositionInBranchNode b key = Val (Z.of_nat (length L1)).
Proof.
  intros H HL1 Hu. pose proof (branch_seps _ _ _ _ H) as Ek. unfold lookupPositionInBranchNode.
  pose proof (branch_num _ _ _ _ H) as Hn. rewrite length_app in Hn. simpl in Hn.
  replace (Z.to_nat (b_num b)) with (length L1 + length L2)%nat in * by lia.
  assert (take (length L1 + length L2) (L1 ++ (c, u) :: L2).*2 = L1.*2 ++ take (length L2) (u :: L2.*2)) as Et.
  { rewrite fmap_app, fmap_cons, take_app, length_fmap, take_ge by (rewrite length_fmap; lia). do 2 f_equal. lia. }
  rewrite Et in Ek.
  rewrite (scan_pos_ok _ _ L1.*2 (take (length L2) (u :: L2.*2))); [by rewrite length_fmap| |done| |].
  - rewrite length_app, length_take, length_cons, !length_fmap. lia.
  - rewrite Forall_map. eapply Forall_impl; [exact HL1|]. intros e He. by apply bool_decide_eq_true_2.
  - intros k Hk. destruct L2; [done|]. injection Hk as <-. apply bool_decide_eq_false_2. lia.
Qed.

(** The child that was split is replaced by its two halves. *)
Lemma insert_child_ok N b L1 c u L2 hi k cl cr : branch_ok N b (L1 ++ (c, u) :: L2) hi →
  (length (L1 ++ (c, u) :: L2) ≤ N)%nat →
  ∃ b', insert_child (Z.of_nat (length L1)) (mk_split k cl cr) b = Val b'
        ∧ branch_ok N b' (L1 ++ (cl, k) :: (cr, u) :: L2) hi.
Proof.
  intros [H1 H2 H3 H4 H5 H6] Hlen.
  set (L := L1 ++ (c, u) :: L2) in *. set (pos := length L1).
  assert (length L = pos + S (length L2))%nat as El by (subst L pos; by rewrite length_app).
  set (n := (pos + length L2)%nat). assert (b_num b = Z.of_nat n) as En by lia.
  unfold insert_child. cbn [s_key s_left s_right].
  assert (∃ cs, (if bool_decide (Z.of_nat pos < b_num b) then
                  c ← aget (b_children b) (b_num b); b1 ← set_child (b_num b + 1) c b;
                  loop (downward (b_num b) (Z.of_nat pos))
                    (λ i b, c ← aget (b_children b) (i - 1); b' ← set_child i c b;
                            k ← aget (b_keys b') (i - 1); set_bkey i k b') b1
                else Val b)
          = Val (mk_branch (b_num b) (shift_up (length L2) pos (b_keys b)) cs) ∧ length cs = S N
          ∧ take (S (length L)) (<[(pos + 1)%nat := cr]> (<[pos := cl]> cs)) = L1.*1 ++ cl :: cr :: L2.*1) as (cs & -> & Hcs & Ecs).
  { pose proof (shift_insert (b_children b) L.*1 pos cl) as E. rewrite length_fmap in E.
    replace (length L - pos)%nat with (S (length L2)) in E by lia.
    assert (take (S (length L)) (<[(pos + 1)%nat:=cr]> (<[pos:=cl]> (shift_up (S (length L2)) pos (b_children b))))
            = L1.*1 ++ cl :: cr :: L2.*1) as Er.
    { rewrite take_insert_lt by lia. rewrite E by (rewrite ?H2; done || lia). subst L.
      rewrite fmap_app, take_app_length', drop_app_length' by (by rewrite length_fmap).
      rewrite insert_app_r_alt by (rewrite length_fmap; lia). rewrite length_fmap.
      replace (pos + 1 - length L1)%nat with 1%nat by (subst pos; lia). done. }
    cbn [shift_up] in Er. destruct (lookup_lt_is_Some_2 (b_children b) n) as [x Ex]; [lia|].
    subst n. rewrite Ex in Er. case_bool_decide as Hb.
    - rewrite En, (aget_ok _ _ _ Ex). unfold mbind at 1 2, res_bind, set_child at 1.
      replace (Z.of_nat (pos + length L2) + 1) with (Z.of_nat (pos + S (length L2))) by lia.
      rewrite aset_ok by lia. cbv beta iota. unfold mbind at 1, res_bind.
      rewrite loop_shift_branch by (cbn [b_keys b_children]; rewrite ?length_insert; lia).
      eexists. split; [by rewrite <-En|]. cbn [b_children]. split; [by rewrite shift_up_length, length_insert|exact Er].
    - assert (length L2 = 0%nat) as E0 by lia. rewrite E0 in *. cbn [shift_up] in *. rewrite Nat.add_0_r in *.
      exists (b_children b). split; [by destruct b|]. split; [done|].
      rewrite <-Er. f_equal. replace (pos + 1)%nat with (S pos) by lia. rewrite (list_insert_insert_ne _ pos (S pos)) by lia.
      by rewrite list_insert_insert_eq. }
  unfold set_bkey, set_child, mbind, res_bind. cbn [b_keys b_children b_num].
  rewrite aset_ok by (rewrite shift_up_length; lia). cbv beta iota. cbn [b_keys b_children b_num].
  rewrite aset_ok by lia. cbv beta iota. cbn [b_keys b_children b_num].
  replace (Z.of_nat pos + 1) with (Z.of_nat (pos + 1)) by lia. rewrite aset_ok by (rewrite length_insert; lia).
  eexists. split; [done|].
  assert (length (L1 ++ (cl, k) :: (cr, u) :: L2) = S (length L)) as El' by (rewrite length_app; simpl; lia).
  split; cbn [set_bnum b_keys b_children b_num].
  - by rewrite length_insert, shift_up_length.
  - by rewrite !length_insert.
  - lia.
  - lia.
  - rewrite El', Ecs. by rewrite fmap_app.
  - rewrite En. replace (Z.to_nat (Z.of_nat n + 1)) with (S n) by lia.
    assert (length (take n (b_keys b)) = n) as Eln by (rewrite length_take; lia).
    pose proof (shift_insert (b_keys b) (take n (b_keys b)) pos k) as E. rewrite Eln in E.
    replace (n - pos)%nat with (length L2) in E by lia. rewrite E by (done || lia).
    replace (Z.to_nat (b_num b)) with n in H6 by lia. subst L. rewrite fmap_app, fmap_cons in H6.
    rewrite fmap_app. cbn [fmap list_fmap snd]. change (list_fmap _ _ snd L2) with L2.*2.
    rewrite <-app_assoc. cbn [app]. apply (f_equal (take pos)) in H6 as H7. apply (f_equal (drop pos)) in H6 as H8.
    rewrite take_app_le, take_app_length' in H7 by (rewrite ?length_fmap; done || lia).
    rewrite drop_app_le, drop_app_length' in H8 by (rewrite ?length_fmap; done || lia).
    rewrite H7, H8. done.
Qed.

(** The two halves of a full branch node. *)
Lemma branch_upper_ok N junk junkp b L hi mid : branch_ok N b L hi → length L = S N → (mid ≤ N)%nat →
  ∃ s, branch_upper N junk junkp b (Z.of_nat mid) = Val s ∧ branch_ok N s (drop mid L) hi.
Proof.
  intros [H1 H2 H3 H4 H5 H6] HL Hmid. unfold branch_upper.
  assert (b_num b = Z.of_nat N) as En by lia. rewrite En.
  replace (Z.of_nat N - Z.of_nat mid) with (Z.of_nat (0 + (N - mid))) by lia. change 0 with (Z.of_nat 0) at 1.
  rewrite loop_copy_branch by (cbn [set_bnum empty_branch b_keys b_children]; rewrite ?length_replicate; lia).
  cbn [set_bnum empty_branch b_keys b_children b_num]. rewrite Nat.add_0_r, Nat.add_0_l.
  destruct (lookup_lt_is_Some_2 (b_children b) N) as [x Ex]; [lia|].
  unfold mbind, res_bind, set_child. rewrite (aget_ok _ _ _ Ex). cbn [b_keys b_children b_num].
  rewrite aset_ok by (rewrite copy_range_length, length_replicate; lia).
  eexists. split; [done|]. assert (length (drop mid L) = S (N - mid)) as El by (rewrite length_drop; lia).
  split; cbn [b_keys b_children b_num]; rewrite ?length_insert, ?copy_range_length, ?length_replicate, ?El; try (done || lia).
  - rewrite copy_range_snoc by (rewrite ?length_replicate; (lia || by replace (mid + (N - mid))%nat with N by lia)).
    rewrite fmap_drop, <-H5, skipn_firstn_comm. f_equal. lia.
  - rewrite Nat2Z.id, copy_range_take by (rewrite ?length_replicate; lia).
    rewrite fmap_drop, <-H6, En, Nat2Z.id, drop_app_le by (rewrite length_take; lia).
    by rewrite skipn_firstn_comm.
Qed.

Lemma branch_lower_ok N b L hi m c u : branch_ok N b L hi → L !! m = Some (c, u) → (S m < length L)%nat →
  branch_ok N (set_bnum (Z.of_nat m) b) (take (S m) L) u.
Proof.
  intros H Hu Hm. pose proof (branch_ok_le _ _ _ _ H). pose proof (branch_seps _ _ _ _ H) as Es.
  destruct H as [H1 H2 H3 H4 H5 H6].
  split; cbn [set_bnum b_keys b_children b_num]; rewrite ?length_take; try (done || lia).
  - rewrite fmap_take, <-H5, take_take. f_equal; lia.
  - rewrite Nat2Z.id, fmap_take. apply (f_equal (take m)) in Es. rewrite !take_take in Es.
    rewrite !Nat.min_l in Es by lia. rewrite Es. symmetry. apply take_S_r. by rewrite list_lookup_fmap, Hu.
Qed.
