(* ===== verification/BTreeTree.v ===== *)
(** * BTreeTree: the shape of the B+ tree and its searches

    [node_ok t d a lo hi kv fp] says that the node at address [a] is the root of
    a subtree of depth [d] whose keys lie in [lo .. hi-1], which holds the
    entries [kv] and lives at the addresses [fp]. *)

From stdpp Require Import gmap sorting.
From S2P Require Import Prelude BTree BTreeNodes.

(** ** Children in a row

    Each child with its upper bound, which is the lower bound of the next. *)
Section run.
Context (P : nat → Z → Z → list entry → gset nat → Prop).

Inductive run : Z → list child → Z → list entry → gset nat → Prop :=
  | run_nil lo : run lo [] lo [] ∅
  | run_cons lo c u L hi kv1 kv2 fp1 fp2 :
      lo < u → P c lo u kv1 fp1 → run u L hi kv2 fp2 → fp1 ## fp2 →
      run lo ((c, u) :: L) hi (kv1 ++ kv2) (fp1 ∪ fp2).

Lemma run_app lo L1 m kv1 fp1 L2 hi kv2 fp2 :
  run lo L1 m kv1 fp1 → run m L2 hi kv2 fp2 → fp1 ## fp2 → run lo (L1 ++ L2) hi (kv1 ++ kv2) (fp1 ∪ fp2).
Proof.
  induction 1 as [|lo c u L1 m kva kvb fpa fpb Hlt HP HL IH Hd]; intros H2 Hfp.
  - by rewrite (left_id_L ∅ (∪)).
  - rewrite <-(assoc_L (∪)), <-(assoc app). simpl. constructor; [done..| |set_solver]. apply IH; [done|set_solver].
Qed.
Lemma run_app_inv lo L1 L2 hi kv fp : run lo (L1 ++ L2) hi kv fp →
  ∃ m kv1 kv2 fp1 fp2, run lo L1 m kv1 fp1 ∧ run m L2 hi kv2 fp2 ∧ kv = kv1 ++ kv2 ∧ fp = fp1 ∪ fp2 ∧ fp1 ## fp2.
Proof.
  revert lo kv fp. induction L1 as [|[c u] L1 IH]; intros lo kv fp H.
  - exists lo, [], kv, ∅, fp. split_and!; [constructor|done|done|by rewrite (left_id_L ∅ (∪))|set_solver].
  - inversion H as [|? ? ? ? ? kva kvb fpa fpb Hlt HP HL Hd]; subst.
    destruct (IH _ _ _ HL) as (m & kv1 & kv2 & fp1 & fp2 & H1 & H2 & -> & -> & Hd').
    exists m, (kva ++ kv1), kv2, (fpa ∪ fp1), fp2. split_and!; [|done|by rewrite (assoc app)|by rewrite (assoc_L (∪))|set_solver].
    constructor; [done..|set_solver].
Qed.
Lemma run_one lo c u kv fp : lo < u → P c lo u kv fp → run lo [(c, u)] u kv fp.
Proof.
  intros H HP. rewrite <-(app_nil_r kv), <-(right_id_L ∅ (∪) fp). constructor; [done..|constructor|set_solver].
Qed.
Lemma run_one_inv lo c u hi kv fp : run lo [(c, u)] hi kv fp → u = hi ∧ lo < hi ∧ P c lo hi kv fp.
Proof.
  inversion 1 as [|? ? ? ? ? ? ? ? ? Hlt HP HL Hd]; subst. inversion HL; subst.
  by rewrite app_nil_r, (right_id_L ∅ (∪)).
Qed.
Lemma run_le lo L hi kv fp : run lo L hi kv fp → lo ≤ hi.
Proof. induction 1; lia. Qed.
(** The upper bounds increase and the last one is the bound of the row. *)
Lemma run_bounds lo L hi kv fp : run lo L hi kv fp → Forall (λ c, lo < c.2 ≤ hi) L ∧ StronglySorted Z.lt L.*2.
Proof.
  induction 1 as [|lo c u L hi kva kvb fpa fpb Hlt HP HL [IH1 IH2] Hd]; [split; constructor|].
  apply run_le in HL. split; cbn.
  - constructor; [simpl; lia|]. eapply Forall_impl; [exact IH1|]. intros ? ?; simpl in *; lia.
  - constructor; [done|]. rewrite Forall_map. eapply Forall_impl; [exact IH1|]. intros ? ?; simpl in *; lia.
Qed.
Lemma run_last lo L c u hi kv fp : run lo (L ++ [(c, u)]) hi kv fp → u = hi.
Proof. intros (m & ? & ? & ? & ? & _ & H & _)%run_app_inv. by apply run_one_inv in H as [-> _]. Qed.

(** The child a key belongs to. *)
Lemma run_route lo L hi kv fp key : run lo L hi kv fp → lo ≤ key < hi →
  ∃ L1 c u L2, L = L1 ++ (c, u) :: L2 ∧ Forall (λ e, e.2 ≤ key) L1 ∧ key < u.
Proof.
  induction 1 as [|lo c u L hi kva kvb fpa fpb Hlt HP HL IH Hd]; intros Hk; [lia|].
  destruct (decide (key < u)).
  - exists [], c, u, L. auto.
  - destruct IH as (L1 & c' & u' & L2 & -> & H1 & H2); [lia|]. exists ((c, u) :: L1), c', u', L2.
    split_and!; [done| |done]. constructor; [simpl; lia|done].
Qed.
Lemma run_at lo L1 c u L2 hi kv fp : run lo (L1 ++ (c, u) :: L2) hi kv fp →
  ∃ m kv1 kvc kv2 fp1 fpc fp2,
    run lo L1 m kv1 fp1 ∧ m < u ∧ P c m u kvc fpc ∧ run u L2 hi kv2 fp2
    ∧ kv = kv1 ++ kvc ++ kv2 ∧ fp = fp1 ∪ (fpc ∪ fp2) ∧ fp1 ## fpc ∪ fp2 ∧ fpc ## fp2.
Proof.
  intros (m & kv1 & kv2 & fp1 & fp2 & H1 & H2 & -> & -> & Hd)%run_app_inv.
  inversion H2 as [|? ? ? ? ? kvc kvb fpc fpb Hlt HP HL Hd']; subst.
  exists m, kv1, kvc, kvb, fp1, fpc, fpb. by split_and!.
Qed.
(** The lower bound of what follows children with bounds up to [key]. *)
Lemma run_lower lo L m kv fp key : run lo L m kv fp → lo ≤ key → Forall (λ e, e.2 ≤ key) L → m ≤ key.
Proof. induction 1; intros Hk HL; [done|]. inv HL. auto. Qed.
End run.

Lemma run_impl (P Q : nat → Z → Z → list entry → gset nat → Prop) lo L hi kv fp :
  run P lo L hi kv fp → (∀ c l h k f, f ⊆ fp → P c l h k f → Q c l h k f) → run Q lo L hi kv fp.
Proof.
  induction 1 as [|lo c u L hi kva kvb fpa fpb Hlt HP HL IH Hd]; intros H; constructor; auto.
  - apply H; [set_solver|done].
  - apply IH. intros; apply H; [set_solver|done].
Qed.

(** ** Subtrees *)
Section tree.
Context (N M : nat).

Fixpoint node_ok (t : bptree) (d a : nat) (lo hi : Z) (kv : list entry) (fp : gset nat) : Prop :=
  match d with
  | O => ∃ l, leaves t !! a = Some l ∧ leaf_ok M l kv ∧ in_order kv ∧ Forall (λ e, lo ≤ e.1 < hi) kv ∧ fp = {[a]}
  | S d' => ∃ b L fp', branches t !! a = Some b ∧ branch_ok N b L hi
              ∧ run (node_ok t d') lo L hi kv fp' ∧ a ∉ fp' ∧ fp = {[a]} ∪ fp'
  end.

(** Two heaps with the same nodes at some addresses. *)
Definition same_at (fp : gset nat) (t t' : bptree) : Prop :=
  ∀ a, a ∈ fp → leaves t' !! a = leaves t !! a ∧ branches t' !! a = branches t !! a.
Lemma same_at_sub fp fp' t t' : fp' ⊆ fp → same_at fp t t' → same_at fp' t t'.
Proof. intros Hs H a Ha. apply H. set_solver. Qed.

Lemma node_ok_same t t' d a lo hi kv fp : same_at fp t t' → node_ok t d a lo hi kv fp → node_ok t' d a lo hi kv fp.
Proof.
  revert a lo hi kv fp. induction d as [|d IH]; intros a lo hi kv fp Hs; cbn.
  - intros (l & Hl & H1 & H2 & H3 & ->). exists l. by rewrite (proj1 (Hs a ltac:(set_solver))).
  - intros (b & L & fp' & Hb & HL & Hrun & Ha & ->). exists b, L, fp'.
    rewrite (proj2 (Hs a ltac:(set_solver))). split_and!; try done.
    apply (run_impl _ _ _ _ _ _ _ Hrun). intros c l h k f Hf. apply IH. eapply same_at_sub; [|exact Hs]. set_solver.
Qed.
Lemma run_same t t' d lo L hi kv fp : same_at fp t t' →
  run (node_ok t d) lo L hi kv fp → run (node_ok t' d) lo L hi kv fp.
Proof.
  intros Hs Hr. apply (run_impl _ _ _ _ _ _ _ Hr). intros c l h k f Hf. apply node_ok_same. by eapply same_at_sub.
Qed.

(** The entries of a subtree lie between its bounds and are in order. *)
Definition between (lo hi : Z) (kv : list entry) : Prop := Forall (λ e, lo ≤ e.1 < hi) kv ∧ in_order kv.
Lemma between_app lo m hi kv1 kv2 : lo ≤ m ≤ hi → between lo m kv1 → between m hi kv2 → between lo hi (kv1 ++ kv2).
Proof.
  intros Hm [H1 S1] [H2 S2]. split.
  - apply Forall_app. split; (eapply Forall_impl; [eassumption|]); intros e He; simpl in *; lia.
  - unfold in_order in *. rewrite fmap_app. apply StronglySorted_app. split_and!; [|done..].
    intros x1 x2 Hx1 Hx2. apply list_elem_of_fmap in Hx1 as (e1 & -> & He1). apply list_elem_of_fmap in Hx2 as (e2 & -> & He2).
    rewrite Forall_forall in H1, H2. apply H1 in He1. apply H2 in He2. simpl in *. lia.
Qed.
Lemma run_between (P : nat → Z → Z → list entry → gset nat → Prop) lo L hi kv fp :
  (∀ c l h k f, P c l h k f → between l h k) → run P lo L hi kv fp → between lo hi kv.
Proof.
  intros HP. induction 1 as [|lo c u L hi kva kvb fpa fpb Hlt H HL IH Hd]; [split; constructor|].
  apply (between_app lo u hi); [|by eapply HP|done]. apply run_le in HL. lia.
Qed.
Lemma node_between t d a lo hi kv fp : node_ok t d a lo hi kv fp → between lo hi kv.
Proof.
  revert a lo hi kv fp. induction d as [|d IH]; intros a lo hi kv fp; cbn.
  - intros (l & _ & _ & H1 & H2 & _). by split.
  - intros (b & L & fp' & _ & _ & Hrun & _). eapply run_between; [|exact Hrun]. intros; by eapply IH.
Qed.

(** An insertion into the middle part of entries in order. *)
Lemma with_entry_app key val lo m u hi kv1 kvc kv2 : between lo m kv1 → between u hi kv2 → m ≤ key < u →
  kv1 ++ with_entry key val kvc ++ kv2 = with_entry key val (kv1 ++ kvc ++ kv2).
Proof.
  intros [H1 _] [H2 _] Hk. unfold with_entry, before, behind. rewrite !filter_app.
  assert (Forall (λ e : entry, e.1 < key) kv1) as A1 by (eapply Forall_impl; [exact H1|]; intros e He; simpl in *; lia).
  assert (Forall (λ e : entry, ¬ e.1 < key) kv2) as A2 by (eapply Forall_impl; [exact H2|]; intros e He; simpl in *; lia).
  assert (Forall (λ e : entry, ¬ key < e.1) kv1) as A3 by (eapply Forall_impl; [exact H1|]; intros e He; simpl in *; lia).
  assert (Forall (λ e : entry, key < e.1) kv2) as A4 by (eapply Forall_impl; [exact H2|]; intros e He; simpl in *; lia).
  rewrite (filter_all (λ e : entry, e.1 < key) kv1 A1), (filter_none (λ e : entry, e.1 < key) kv2 A2),
    (filter_none (λ e : entry, key < e.1) kv1 A3), (filter_all (λ e : entry, key < e.1) kv2 A4).
  rewrite app_nil_r. simpl. by rewrite <-!(assoc app).
Qed.

(** ** Searches *)

(** Routing in a branch node that holds a row of children. *)
Lemma branch_route P t a b L lo hi kv fp key :
  branches t !! a = Some b → branch_ok N b L hi → run P lo L hi kv fp → lo ≤ key < hi →
  ∃ L1 c u L2, L = L1 ++ (c, u) :: L2 ∧ Forall (λ e, e.2 ≤ key) L1 ∧ key < u
    ∧ branch_at a t = (t, Val b)
    ∧ lookupPositionInBranchNode b key = Val (Z.of_nat (length L1))
    ∧ aget (b_children b) (Z.of_nat (length L1)) = Val c.
Proof.
  intros Hb HL Hrun Hk. destruct (run_route _ _ _ _ _ _ key Hrun Hk) as (L1 & c & u & L2 & -> & H1 & H2).
  exists L1, c, u, L2. split_and!; try done.
  - unfold branch_at, get_st, mbind, M_bind. by rewrite Hb.
  - by eapply branch_position.
  - eapply (branch_child _ _ _ _ _ (c, u)); [exact HL|]. by apply list_lookup_middle.
Qed.

Lemma find_leaf_ok t d a lo hi kv fp key : node_ok t d a lo hi kv fp → lo ≤ key < hi →
  ∃ leaf l lo' hi' kv', find_leaf d a key t = (t, Val leaf) ∧ leaves t !! leaf = Some l
    ∧ leaf_ok M l kv' ∧ between lo' hi' kv' ∧ (∀ v, (key, v) ∈ kv' ↔ (key, v) ∈ kv).
Proof.
  revert a lo hi kv fp. induction d as [|d IH]; intros a lo hi kv fp; cbn [find_leaf node_ok].
  - intros (l & Hl & H1 & H2 & H3 & ->) Hk. exists a, l, lo, hi, kv. by split_and!.
  - intros (b & L & fp' & Hb & HL & Hrun & Ha & ->) Hk.
    destruct (branch_route _ _ _ _ _ _ _ _ _ _ Hb HL Hrun Hk) as (L1 & c & u & L2 & -> & HF & Hu & E1 & E2 & E3).
    destruct (run_at _ _ _ _ _ _ _ _ _ Hrun) as (m & kv1 & kvc & kv2 & fp1 & fpc & fp2 & R1 & Hm & Hc & R2 & -> & -> & D1 & D2).
    pose proof (run_lower _ _ _ _ _ _ _ R1 (proj1 Hk) HF) as Hmk.
    destruct (IH _ _ _ _ _ Hc (conj Hmk Hu)) as (leaf & l & lo' & hi' & kv' & F1 & F2 & F3 & F4 & F5).
    exists leaf, l, lo', hi', kv'. split_and!; try done.
    + by rewrite (bind_val _ _ _ _ _ E1), (lift_val _ _ _ _ E2), (lift_val _ _ _ _ E3).
    + intros v. rewrite F5, !elem_of_app. split; [by auto|]. intros [H|[H|H]]; [|done|].
      * apply run_between in R1 as [R1 _]; [|intros *; apply node_between].
        rewrite Forall_forall in R1. apply R1 in H. simpl in H. lia.
      * apply run_between in R2 as [R2 _]; [|intros *; apply node_between].
        rewrite Forall_forall in R2. apply R2 in H. simpl in H. lia.
Qed.

(** ** The map a tree stands for *)
Definition tree_ok (t : bptree) (kv : list entry) : Prop :=
  ∃ fp, node_ok t (depth t) (rootNode t) 0 two64 kv fp ∧ (∀ a, a ∈ fp → (a < next_addr t)%nat).
Definition represents (t : bptree) (m : gmap Z Z) : Prop := ∃ kv, tree_ok t kv ∧ m = list_to_map kv.

Lemma in_order_nodup kv : in_order kv → NoDup kv.*1.
Proof.
  unfold in_order. generalize (kv.*1). intros l. induction 1 as [|k l Hs IH Hk]; constructor; [|done].
  intros Hin. rewrite Forall_forall in Hk. apply Hk in Hin. lia.
Qed.

(** A lookup returns the value of the key, or reports that there is none. *)
Lemma lookup_represents t m key : represents t m → 0 ≤ key < two64 → lookup key t = (t, Val (m !! key)).
Proof.
  intros (kv & (fp & Hok & _) & ->) Hk.
  destruct (find_leaf_ok _ _ _ _ _ _ _ _ Hok Hk) as (leaf & l & lo' & hi' & kv' & F1 & F2 & F3 & F4 & F5).
  pose proof (node_between _ _ _ _ _ _ _ Hok) as [_ Hord].
  unfold lookup, findLeafNode. rewrite bind_assoc. rewrite (bind_val get_st _ t t t) by done.
  rewrite (bind_val _ _ _ _ _ F1), (bind_val (leaf_at leaf) _ t t l)
    by (unfold leaf_at, get_st, mbind, M_bind; by rewrite F2).
  destruct (in_order_split key kv' (proj2 F4)) as (mid & E & Hmid).
  pose proof (before_lt key kv') as Hb. pose proof (behind_gt key kv') as Hg.
  set (lt := before key kv') in *. set (gt := behind key kv') in *. clearbody lt gt.
  assert (lookupPositionInLeafNode l key = Val (Z.of_nat (length lt))) as Epos.
  { eapply (leaf_position _ _ _ (mid ++ gt)); [by rewrite <-E|done|].
    apply Forall_app. split; [|eapply Forall_impl; [exact Hg|intros ? ?; simpl in *; lia]].
    destruct Hmid as [-> | [v ->]]; [constructor|repeat constructor; done]. }
  rewrite (lift_val _ _ _ _ Epos), (leaf_num _ _ _ F3).
  destruct Hmid as [-> | [v ->]].
  - assert (list_to_map kv !! key = (None : option Z)) as ->.
    { apply not_elem_of_list_to_map_1. intros (e & -> & He)%list_elem_of_fmap. destruct e as [k v].
      apply F5 in He. rewrite E in He. cbn in He. apply elem_of_app in He as [He|He].
      - rewrite Forall_forall in Hb. apply Hb in He. simpl in He. lia.
      - rewrite Forall_forall in Hg. apply Hg in He. simpl in He. lia. }
    case_bool_decide as Hlt; [|done].
    destruct gt as [|[k v] gt]; [exfalso; rewrite E, length_app in Hlt; simpl in Hlt; lia|].
    erewrite lift_val; [|eapply leaf_key; [exact F3|rewrite E; cbn; by apply list_lookup_middle]].
    inv Hg. simpl in *. by rewrite bool_decide_eq_false_2 by lia.
  - assert (kv' !! length lt = Some (key, v)) as Ekey by (rewrite E; by apply list_lookup_middle).
    rewrite bool_decide_eq_true_2 by (apply lookup_lt_Some in Ekey; lia).
    rewrite (lift_val _ _ _ _ (leaf_key _ _ _ _ _ F3 Ekey)). cbn. rewrite bool_decide_eq_true_2 by done.
    rewrite (lift_val _ _ _ _ (leaf_value _ _ _ _ _ F3 Ekey)).
    assert (list_to_map kv !! key = Some v) as ->; [|done].
    apply elem_of_list_to_map_1; [by apply in_order_nodup|]. apply F5. rewrite E. set_solver.
Qed.
End tree.
