(* ===== verification/BTreeInsert.v ===== *)
(** * BTreeInsert: insertion keeps the B+ tree

    An insertion into a subtree leaves a row of one or two subtrees behind, the
    second one when the node was split; everything outside the subtree stays. *)

From stdpp Require Import gmap sorting.
From S2P Require Import Prelude BTree BTreeNodes BTreeTree.

(** ** What an insertion may change *)
Record grows (t t' : bptree) (fp fp' : gset nat) : Prop := {
  grows_depth : depth t' = depth t;
  grows_root : rootNode t' = rootNode t;
  grows_next : (next_addr t ≤ next_addr t')%nat;
  grows_same : ∀ a, (a < next_addr t)%nat → a ∉ fp →
                 leaves t' !! a = leaves t !! a ∧ branches t' !! a = branches t !! a;
  grows_fp : ∀ a, a ∈ fp' → a ∈ fp ∨ (next_addr t ≤ a < next_addr t')%nat
}.
Definition below (n : nat) (fp : gset nat) : Prop := ∀ a, a ∈ fp → (a < n)%nat.

Lemma below_union n fp1 fp2 : below n (fp1 ∪ fp2) ↔ below n fp1 ∧ below n fp2.
Proof. unfold below. set_solver. Qed.
Lemma grows_below t t' fp fp' : grows t t' fp fp' → below (next_addr t) fp → below (next_addr t') fp'.
Proof. intros H Hb a Ha. pose proof (grows_next _ _ _ _ H). destruct (grows_fp _ _ _ _ H a Ha) as [F|F]; [apply Hb in F|]; lia. Qed.
Lemma grows_fresh t t' fp fp' a : grows t t' fp fp' → (a < next_addr t)%nat → a ∉ fp → a ∉ fp'.
Proof. intros H Ha Hn Hin. destruct (grows_fp _ _ _ _ H a Hin) as [F|F]; [done|lia]. Qed.
Lemma grows_same_at t t' fp fp' fq : grows t t' fp fp' → below (next_addr t) fq → fq ## fp → same_at fq t t'.
Proof. intros H Hb Hd a Ha. apply (grows_same _ _ _ _ H); [by apply Hb|set_solver]. Qed.
Lemma grows_trans t t1 t2 fp fp1 fp2 : grows t t1 fp fp1 → grows t1 t2 fp1 fp2 → below (next_addr t) fp → grows t t2 fp fp2.
Proof.
  intros [D1 R1 N1 S1 F1] [D2 R2 N2 S2 F2] Hb. split; [congruence|congruence|lia| |].
  - intros a Ha Hn. assert (a ∉ fp1) as Hn1 by (intros Hin; destruct (F1 _ Hin); [done|lia]).
    destruct (S2 a ltac:(lia) Hn1) as [-> ->]. by apply S1.
  - intros a Ha. destruct (F2 a Ha) as [H|H]; [|lia]. destruct (F1 a H); [by auto|lia].
Qed.

(** What is left at the place of a node. *)
Definition halves (a : nat) (r : option split_info) (hi : Z) : list child :=
  match r with None => [(a, hi)] | Some si => [(s_left si, s_key si); (s_right si, hi)] end.

Section insert.
Context (N M : nat) (junk : Z) (junkp : nat).
Hypothesis HN : (2 < N)%nat.
Hypothesis HM : (1 < M)%nat.
Notation node_ok := (node_ok N M).

(** ** Leaves *)
Lemma middle_bounds : leaf_middle M = Z.of_nat (Z.to_nat (leaf_middle M)) ∧ (1 ≤ Z.to_nat (leaf_middle M) < M)%nat.
Proof.
  unfold leaf_middle. assert (1 ≤ (Z.of_nat M + 1) / 2) by (apply Z.div_le_lower_bound; lia).
  assert ((Z.of_nat M + 1) / 2 < Z.of_nat M) by (apply Z.div_lt_upper_bound; lia). lia.
Qed.

(** The two halves of a full leaf after the new entry is in one of them. *)
Lemma split_leaf_ok l kv lt gt key val : leaf_ok M l kv → length kv = M → kv = lt ++ gt →
  let mid := leaf_middle M in
  ∃ s0 s l' ka kb, leaf_upper M junk l = Val s0
    ∧ (if bool_decide (Z.of_nat (length lt) < mid) then s = s0
       else insertInLeafNodeAtPosition M (Z.of_nat (length lt) - mid) key val s0 = Val s)
    ∧ (if bool_decide (Z.of_nat (length lt) < mid)
       then insertInLeafNodeAtPosition M (Z.of_nat (length lt)) key val (set_num mid l) = Val l'
       else l' = set_num mid l)
    ∧ leaf_ok M l' ka ∧ leaf_ok M s kb ∧ ka ++ kb = lt ++ (key, val) :: gt ∧ ka ≠ [] ∧ kb ≠ [] ∧ nextLeaf s = None.
Proof.
  intros Hl Hlen ->. cbv zeta. destruct middle_bounds as [Em Hm].
  destruct (leaf_upper_ok M junk _ _ Hl Hlen) as (s0 & E0 & Hs0 & Hnx0).
  set (mid := Z.to_nat (leaf_middle M)) in *. rewrite Em in *. clearbody mid. rewrite length_app in Hlen.
  pose proof (leaf_ok_take _ _ _ mid Hl ltac:(rewrite length_app; lia)) as Hlo.
  case_bool_decide as Hb.
  - rewrite take_app_ge in Hlo by lia. rewrite drop_app_ge in Hs0 by lia.
    destruct (leaf_insert_ok _ _ _ _ key val Hlo) as (l' & E1 & H1 & _).
    { rewrite length_app, length_take. lia. }
    exists s0, s0, l', (lt ++ (key, val) :: take (mid - length lt) gt), (drop (mid - length lt) gt).
    split_and!; try done.
    + rewrite <-(assoc app). cbn. by rewrite take_drop.
    + by destruct lt.
    + intros E. apply (f_equal length) in E. rewrite length_drop in E. simpl in E. lia.
  - rewrite take_app_le in Hlo by lia. rewrite drop_app_le in Hs0 by lia.
    destruct (leaf_insert_ok _ _ _ _ key val Hs0) as (s & E1 & H1 & Hnx & _).
    { rewrite length_app, length_drop. lia. }
    rewrite length_drop in E1. replace (Z.of_nat (length lt - mid)) with (Z.of_nat (length lt) - Z.of_nat mid) in E1 by lia.
    exists s0, s, (set_num (Z.of_nat mid) l), (take mid lt), (drop mid lt ++ (key, val) :: gt). split_and!; try done.
    + by rewrite (assoc app), take_drop.
    + intros E. apply (f_equal length) in E. rewrite length_take in E. simpl in E. lia.
    + by destruct (drop mid lt).
    + by rewrite Hnx.
Qed.

Definition insert_post (t : bptree) (a : nat) (lo hi key val : Z) (kv : list entry) (fp : gset nat)
    (d : nat) (m : Prelude.M bptree (option split_info)) : Prop :=
  ∃ t' r fp', m t = (t', Val r) ∧ grows t t' fp fp'
    ∧ run (node_ok t' d) lo (halves a r hi) hi (with_entry key val kv) fp'.

Lemma between_cut lo hi ka kb e : between lo hi (ka ++ e :: kb) → ka ≠ [] →
  lo < e.1 < hi ∧ between lo e.1 ka ∧ between e.1 hi (e :: kb).
Proof.
  intros [H S] Hne. unfold in_order, between in *. rewrite fmap_app, fmap_cons in S.
  apply StronglySorted_app in S as (Hlt & S1 & S2). apply Forall_app in H as [H1 H2].
  apply Forall_cons in H2 as [H2 H3]. pose proof (StronglySorted_inv S2) as [S3 H4]. rewrite Forall_map in H4.
  assert (Forall (λ x : entry, lo ≤ x.1 < e.1) ka) as Hka.
  { rewrite Forall_forall in H1 |- *. intros x Hx. split; [by apply H1|]. apply Hlt; [by apply list_elem_of_fmap_2|left]. }
  split_and!; try done.
  - destruct ka as [|x ka]; [done|]. apply Forall_cons in Hka as [Hx _]. lia.
  - lia.
  - constructor; [lia|]. rewrite Forall_forall in H3, H4 |- *. intros x Hx. specialize (H3 x Hx). specialize (H4 x Hx). simpl in *. lia.
Qed.

(** The position of a key in a leaf. *)
Lemma leaf_lookup l kv key mid : leaf_ok M l kv → kv = before key kv ++ mid ++ behind key kv →
  mid = [] ∨ (∃ v, mid = [(key, v)]) →
  lookupPositionInLeafNode l key = Val (Z.of_nat (length (before key kv))).
Proof.
  intros Hok E Hmid. rewrite E in Hok at 1. eapply leaf_position; [exact Hok|apply before_lt|].
  apply Forall_app. split.
  - destruct Hmid as [-> | [v ->]]; repeat constructor; done.
  - eapply Forall_impl; [apply behind_gt|]. intros ? ?; simpl in *; lia.
Qed.

(** The test for a key that is already there, when it is not. *)
Lemma no_duplicate l kv key (t : bptree) : leaf_ok M l kv → kv = before key kv ++ behind key kv →
  (if bool_decide (Z.of_nat (length (before key kv)) < l_num l)
   then k ← (lift_res (aget (l_keys l) (Z.of_nat (length (before key kv)))) : Prelude.M bptree Z); mret (bool_decide (k = key))
   else mret false : Prelude.M bptree bool) t = (t, Val false).
Proof.
  intros Hok E. rewrite (leaf_num _ _ _ Hok). pose proof (behind_gt key kv) as Hg. case_bool_decide as Hlt; [|done].
  set (lt := before key kv) in *. set (gt := behind key kv) in *. clearbody lt gt.
  destruct gt as [|[k v] gt].
  - exfalso. rewrite E, length_app in Hlt. simpl in Hlt. lia.
  - erewrite lift_val; [|eapply leaf_key; [exact Hok|rewrite E; by apply list_lookup_middle]].
    inv Hg. simpl in *. by rewrite bool_decide_eq_false_2 by lia.
Qed.

Lemma leaf_at_ok t a l : leaves t !! a = Some l → leaf_at a t = (t, Val l).
Proof. intros H. unfold leaf_at, get_st, mbind, M_bind. by rewrite H. Qed.

(** A new key in a full leaf. *)
Lemma insert_full_leaf t a l kv key val : leaves t !! a = Some l → leaf_ok M l kv → length kv = M →
  kv = before key kv ++ behind key kv →
  ∃ l' s ka e kb,
    insertInLeafNode M junk a key val t
    = (mk_bptree (depth t) (rootNode t)
         (<[next_addr t := set_prev (Some a) s]> (<[a := set_next (Some (next_addr t)) l']>
            (<[next_addr t := empty_leaf M junk]> (leaves t)))) (branches t) (S (next_addr t)),
       Val (Some (mk_split e.1 a (next_addr t))))
    ∧ leaf_ok M l' ka ∧ leaf_ok M s (e :: kb) ∧ ka ++ e :: kb = with_entry key val kv ∧ ka ≠ [] ∧ nextLeaf s = None.
Proof.
  intros Hl Hok Hlen E.
  destruct (split_leaf_ok l kv _ _ key val Hok Hlen E) as (s0 & s & l' & ka & kb & E1 & E2 & E3 & H1 & H2 & H3 & Hka & Hkb & Hnx).
  destruct kb as [|e kb]; [done|]. exists l', s, ka, e, kb. split_and!; try done.
  unfold insertInLeafNode. rewrite (bind_val _ _ _ _ _ (leaf_at_ok _ _ _ Hl)).
  rewrite (lift_val _ _ _ _ (leaf_lookup _ _ _ [] Hok E ltac:(by left))).
  rewrite (bind_val _ _ _ _ _ (no_duplicate _ _ _ t Hok E)), (leaf_num _ _ _ Hok). cbv beta iota.
  rewrite bool_decide_eq_true_2 by lia.
  rewrite (bind_val (newLeafNode M junk) _ t _ (next_addr t) eq_refl), (lift_val _ _ _ _ E1).
  pose proof (leaf_key _ _ _ 0 e H2 eq_refl) as Ek. change (Z.of_nat 0) with 0 in Ek. case_bool_decide; cbn.
  - subst s0. unfold mbind, M_bind, lift_res. rewrite E3. cbn. by rewrite Ek.
  - subst l'. unfold mbind, M_bind, lift_res. rewrite E2. cbn. by rewrite Ek.
Qed.

Lemma with_entry_between lo hi key val kv : between lo hi kv → lo ≤ key < hi → between lo hi (with_entry key val kv).
Proof.
  intros [Hbt Hord] Hk. split; [|by apply with_entry_in_order]. unfold with_entry, before, behind.
  rewrite Forall_app, Forall_cons. rewrite Forall_forall in Hbt.
  split_and!; try (simpl; lia); apply Forall_forall; intros e [_ ?]%list_elem_of_filter; by apply Hbt.
Qed.

Lemma insert_leaf_ok t a lo hi kv fp key val :
  node_ok t 0 a lo hi kv fp → lo ≤ key < hi → below (next_addr t) fp →
  insert_post t a lo hi key val kv fp 0 (insertInLeafNode M junk a key val).
Proof.
  intros (l & Hl & Hok & Hord & Hbt & ->) Hk Hfp.
  assert (a < next_addr t)%nat as Ha by (apply Hfp; set_solver).
  destruct (in_order_split key kv Hord) as (mid & E & Hmid).
  pose proof (with_entry_between lo hi key val kv (conj Hbt Hord) Hk) as Hbt'.
  pose proof (leaf_lookup _ _ _ _ Hok E Hmid) as Epos. unfold insert_post.
  destruct Hmid as [-> | [v ->]]; [destruct (decide (length kv = M)) as [Hfull|Hroom]|].
  - (* a new key, the leaf is full *)
    destruct (insert_full_leaf t a l kv key val Hl Hok Hfull E) as (l' & s & ka & e & kb & E1 & H1 & H2 & H3 & Hka & _).
    rewrite <-H3 in Hbt'. destruct (between_cut _ _ _ _ _ Hbt' Hka) as (Hcut & B1 & B2).
    eexists _, _, ({[a]} ∪ {[next_addr t]}). split_and!; [exact E1| |].
    + split; try done; cbn; [lia| |].
      * intros x Hx Hn. rewrite !lookup_insert_ne by (set_solver || lia). done.
      * intros x Hx. assert (x = a ∨ x = next_addr t) as [-> | ->] by set_solver; [left; set_solver|right; lia].
    + cbn [halves s_left s_right s_key]. change [(a, e.1); (next_addr t, hi)] with ([(a, e.1)] ++ [(next_addr t, hi)]).
      rewrite <-H3. apply (run_app _ _ _ e.1); [apply run_one; [lia|]|apply run_one; [lia|]|].
      * exists (set_next (Some (next_addr t)) l'). cbn [leaves]. rewrite lookup_insert_ne, lookup_insert_eq by lia.
        split_and!; [done|by apply leaf_ok_links|apply B1|apply B1|done].
      * exists (set_prev (Some a) s). cbn [leaves]. rewrite lookup_insert_eq.
        split_and!; [done|by apply leaf_ok_prev|apply B2|apply B2|done].
      * apply disjoint_singleton_l. rewrite elem_of_singleton. lia.
  - (* a new key, there is room *)
    pose proof (leaf_ok_le _ _ _ Hok) as Hle. pose proof Hok as Hok'. cbn in E. rewrite E in Hok'.
    destruct (leaf_insert_ok _ _ _ _ key val Hok') as (l' & E1 & H1 & _); [rewrite <-E; lia|].
    exists (mk_bptree (depth t) (rootNode t) (<[a := l']> (leaves t)) (branches t) (next_addr t)), None, {[a]}. split_and!.
    + unfold insertInLeafNode. rewrite (bind_val _ _ _ _ _ (leaf_at_ok _ _ _ Hl)), (lift_val _ _ _ _ Epos).
      rewrite (bind_val _ _ _ _ _ (no_duplicate _ _ _ t Hok E)), (leaf_num _ _ _ Hok). cbv beta iota.
      rewrite bool_decide_eq_false_2 by lia. by rewrite (lift_val _ _ _ _ E1).
    + split; try done; cbn; [|by auto]. intros x Hx Hn. by rewrite lookup_insert_ne by set_solver.
    + apply run_one; [lia|]. exists l'. cbn [leaves]. rewrite lookup_insert_eq.
      split_and!; [done|done|apply Hbt'|apply Hbt'|done].
  - (* the key is there *)
    assert (kv !! length (before key kv) = Some (key, v)) as Ekey.
    { pose proof (list_lookup_middle (before key kv) (behind key kv) (key, v) _ eq_refl) as H. cbn in E. by rewrite <-E in H. }
    pose proof Hok as Hok'. rewrite E in Hok'. destruct (leaf_replace_ok _ _ _ _ _ val _ Hok') as (vs & E1 & H1).
    eexists (mk_bptree (depth t) (rootNode t) (<[a := _]> (leaves t)) (branches t) (next_addr t)), None, {[a]}. split_and!.
    + unfold insertInLeafNode. rewrite (bind_val _ _ _ _ _ (leaf_at_ok _ _ _ Hl)), (lift_val _ _ _ _ Epos).
      rewrite (leaf_num _ _ _ Hok).
      rewrite (bool_decide_eq_true_2 (Z.of_nat (length (before key kv)) < Z.of_nat (length kv))) by (apply lookup_lt_Some in Ekey; lia).
      rewrite bind_assoc.
      rewrite (lift_val _ _ _ _ (leaf_key _ _ _ _ _ Hok Ekey)). cbn [fst]. rewrite (bool_decide_eq_true_2 (key = key)) by done.
      rewrite bind_ret. cbv iota. by rewrite (lift_val _ _ _ _ E1), <-(leaf_num _ _ _ Hok).
    + split; try done; cbn; [|by auto]. intros x Hx Hn. by rewrite lookup_insert_ne by set_solver.
    + apply run_one; [lia|]. eexists. cbn [leaves]. rewrite lookup_insert_eq.
      split_and!; [done|exact H1|apply Hbt'|apply Hbt'|done].
Qed.

(** ** One child of a row *)
Lemma insert_in_row (f : Prelude.M bptree (option split_info)) t d lo L1 c u L2 hi kv fp key val :
  run (node_ok t d) lo (L1 ++ (c, u) :: L2) hi kv fp → lo ≤ key < u → Forall (λ e, e.2 ≤ key) L1 →
  below (next_addr t) fp →
  (∀ m kvc fpc, node_ok t d c m u kvc fpc → m ≤ key < u → below (next_addr t) fpc →
     insert_post t c m u key val kvc fpc d f) →
  ∃ t' r fp', f t = (t', Val r) ∧ grows t t' fp fp'
    ∧ run (node_ok t' d) lo (L1 ++ halves c r u ++ L2) hi (with_entry key val kv) fp'.
Proof.
  intros Hrun Hk HF Hbelow Hf.
  destruct (run_at _ _ _ _ _ _ _ _ _ Hrun) as (m & kv1 & kvc & kv2 & fp1 & fpc & fp2 & R1 & Hm & Hc & R2 & -> & -> & D1 & D2).
  apply below_union in Hbelow as [Hb1 [Hbc Hb2]%below_union].
  pose proof (run_lower _ _ _ _ _ _ _ R1 (proj1 Hk) HF) as Hmk.
  destruct (Hf _ _ _ Hc (conj Hmk (proj2 Hk)) Hbc) as (t' & r & fpc' & E & G & Rc).
  assert (∀ fq, below (next_addr t) fq → fq ## fpc → fq ## fpc') as Hdis.
  { intros fq Hq Hd a Ha Ha'. destruct (grows_fp _ _ _ _ G a Ha') as [F|F]; [set_solver|]. apply Hq in Ha. lia. }
  exists t', r, (fp1 ∪ (fpc' ∪ fp2)). split_and!; [done| |].
  - split; try apply G.
    + intros a Ha Hn. apply (grows_same _ _ _ _ G); [done|set_solver].
    + intros a Ha. rewrite !elem_of_union in Ha. destruct Ha as [Ha|[Ha|Ha]]; [set_solver| |set_solver].
      destruct (grows_fp _ _ _ _ G a Ha); [set_solver|by right].
  - rewrite <-(with_entry_app key val lo m u hi kv1 kvc kv2); [| |by eapply run_between, R2; intros *; apply node_between|lia].
    2: { eapply run_between, R1; intros *; apply node_between. }
    apply (run_app _ _ _ m); [|apply (run_app _ _ _ u)|].
    + eapply run_same, R1. eapply grows_same_at; [exact G|done|set_solver].
    + exact Rc.
    + eapply run_same, R2. eapply grows_same_at; [exact G|done|set_solver].
    + symmetry. apply Hdis; [done|set_solver].
    + apply disjoint_union_r. split; [|set_solver]. apply Hdis; [done|set_solver].
Qed.

(** ** Branch nodes *)

(** The insertion below a node: on a leaf or on a branch node. *)
Definition insert_at (d a : nat) (key val : Z) : Prelude.M bptree (option split_info) :=
  match d with
  | O => insertInLeafNode M junk a key val
  | S _ => insertInBranchNode N M junk junkp d a key val
  end.

Lemma branch_ok_snoc b L hi : branch_ok N b L hi → ∃ L' c, L = L' ++ [(c, hi)].
Proof.
  intros H. pose proof (branch_keys _ _ _ _ H) as E. destruct L as [|[c u] L] using rev_ind.
  - apply (f_equal length) in E. rewrite length_app in E. simpl in E. lia.
  - clear IHL. rewrite fmap_app in E. apply app_inj_tail in E as [_ ->]. by eauto.
Qed.

(** A row spread over two branch nodes. *)
Lemma two_branches t d a b bl br La lc Lb hi lo kv fp :
  branches t !! a = Some bl → branches t !! b = Some br → branch_ok N bl La lc → branch_ok N br Lb hi →
  run (node_ok t d) lo (La ++ Lb) hi kv fp → a ∉ fp → b ∉ fp → a ≠ b →
  run (node_ok t (S d)) lo [(a, lc); (b, hi)] hi kv ({[a; b]} ∪ fp).
Proof.
  intros Ea Eb Ha Hb Hrun Hna Hnb Hne.
  destruct (run_app_inv _ _ _ _ _ _ _ Hrun) as (m & kv1 & kv2 & fp1 & fp2 & R1 & R2 & -> & -> & D).
  destruct (branch_ok_snoc _ _ _ Ha) as (La' & c & ->). destruct (branch_ok_snoc _ _ _ Hb) as (Lb' & c' & ->).
  pose proof (run_last _ _ _ _ _ _ _ _ R1) as <-.
  pose proof (proj1 (run_bounds _ _ _ _ _ _ R1)) as B1. pose proof (proj1 (run_bounds _ _ _ _ _ _ R2)) as B2.
  apply Forall_app in B1 as [_ B1]. apply Forall_app in B2 as [_ B2]. inv B1. inv B2. simpl in *.
  replace ({[a; b]} ∪ (fp1 ∪ fp2)) with (({[a]} ∪ fp1) ∪ ({[b]} ∪ fp2)) by set_solver.
  change [(a, lc); (b, hi)] with ([(a, lc)] ++ [(b, hi)]).
  apply (run_app _ _ _ lc); [apply run_one; [lia|]|apply run_one; [lia|]|set_solver].
  - exists bl, (La' ++ [(c, lc)]), fp1. split_and!; try done. set_solver.
  - exists br, (Lb' ++ [(c', hi)]), fp2. split_and!; try done. set_solver.
Qed.

Lemma branch_middle_bounds : branch_middle N = Z.of_nat (Z.to_nat (branch_middle N)) ∧ (2 ≤ Z.to_nat (branch_middle N) < N)%nat.
Proof.
  unfold branch_middle. assert (2 ≤ (Z.of_nat N + 1) / 2) by (apply Z.div_le_lower_bound; lia).
  assert ((Z.of_nat N + 1) / 2 < Z.of_nat N) by (apply Z.div_lt_upper_bound; lia). lia.
Qed.

(** Splitting a full node and putting the two halves of its child into the
    right one of the two: the row is the one with the halves in place. *)
Lemma split_branch_ok b L1 c u L2 hi key si :
  branch_ok N b (L1 ++ (c, u) :: L2) hi → length (L1 ++ (c, u) :: L2) = S N →
  StronglySorted Z.lt (L1 ++ (c, u) :: L2).*2 → Forall (λ e, e.2 ≤ key) L1 → key < u →
  ∃ km sep s bl br La Lb,
    let mid := if bool_decide (s_key si > km) then branch_middle N + 1 else branch_middle N in
    aget (b_keys b) (branch_middle N) = Val km
    ∧ branch_upper N junk junkp b mid = Val s ∧ aget (b_keys b) (mid - 1) = Val sep
    ∧ branch_ok N bl La sep ∧ branch_ok N br Lb hi ∧ La ++ Lb = L1 ++ (s_left si, s_key si) :: (s_right si, u) :: L2
    ∧ ∃ host pos h', host = (if bool_decide (key < sep) then set_bnum (mid - 1) b else s)
      ∧ lookupPositionInBranchNode host key = Val pos ∧ insert_child pos si host = Val h'
      ∧ (if bool_decide (key < sep) then bl = h' ∧ br = s else bl = set_bnum (mid - 1) b ∧ br = h').
Proof.
  intros Hb HL Hsort HF Hu. destruct branch_middle_bounds as [Em Hm]. set (m0 := Z.to_nat (branch_middle N)) in *.
  set (L := L1 ++ (c, u) :: L2) in *.
  destruct (lookup_lt_is_Some_2 L m0) as [e0 E0]; [lia|].
  pose proof (branch_key _ _ _ _ _ _ Hb E0 ltac:(lia)) as Ekm. rewrite <-Em in Ekm.
  exists e0.2. set (mid := if bool_decide (s_key si > e0.2) then branch_middle N + 1 else branch_middle N).
  assert (∃ m, mid = Z.of_nat (S m) ∧ (S m ≤ N)%nat ∧ (1 ≤ m)%nat) as (m & Emid & Hmid & Hm1).
  { exists (Z.to_nat mid - 1)%nat. subst mid. case_bool_decide; lia. }
  clearbody mid. subst mid. cbv zeta. replace (Z.of_nat (S m) - 1) with (Z.of_nat m) by lia.
  destruct (lookup_lt_is_Some_2 L m) as [[cm sep] Esep]; [lia|].
  pose proof (branch_key _ _ _ _ _ _ Hb Esep ltac:(lia)) as Eks. cbn in Eks.
  destruct (branch_upper_ok N junk junkp b L hi (S m) Hb HL Hmid) as (s & Es & Hs).
  pose proof (branch_lower_ok _ _ _ _ _ _ _ Hb Esep ltac:(lia)) as Hlo.
  exists sep, s. destruct (decide (key < sep)) as [Hlt|Hge].
  - rewrite bool_decide_eq_true_2 by done.
    assert (length L1 < S m)%nat as Hpos.
    { destruct (decide (m < length L1)%nat) as [Hc|]; [exfalso|lia]. subst L. rewrite lookup_app_l in Esep by done.
      rewrite Forall_lookup in HF. apply HF in Esep. simpl in Esep. lia. }
    assert (take (S m) L = L1 ++ (c, u) :: take (m - length L1) L2) as Et.
    { subst L. rewrite take_app_ge by lia. by replace (S m - length L1)%nat with (S (m - length L1)) by lia. }
    assert (drop (S m) L = drop (m - length L1) L2) as Ed.
    { subst L. rewrite drop_app_ge by lia. by replace (S m - length L1)%nat with (S (m - length L1)) by lia. }
    rewrite Et in Hlo. rewrite Ed in Hs.
    destruct si as [k cl cr]. destruct (insert_child_ok N _ L1 c u _ sep k cl cr Hlo) as (h' & Eh & Hh).
    { rewrite <-Et, length_take. lia. }
    eexists h', s, _, _. split_and!; [done..|by rewrite <-(assoc app); cbn; rewrite take_drop|].
    eexists _, _, h'. split_and!; [done|by eapply branch_position|done..].
  - rewrite bool_decide_eq_false_2 by done.
    assert (S m ≤ length L1)%nat as Hpos.
    { destruct (decide (S m ≤ length L1)%nat) as [|Hc]; [done|exfalso].
      subst L. rewrite lookup_app_r in Esep by lia.
      destruct (m - length L1)%nat as [|i]; cbn in Esep; [injection Esep as <- <-; lia|].
      rewrite fmap_app, fmap_cons in Hsort. apply StronglySorted_app_1_r, StronglySorted_inv in Hsort as [_ Hsort].
      rewrite Forall_map, Forall_lookup in Hsort. apply Hsort in Esep. simpl in Esep. lia. }
    assert (take (S m) L = take (S m) L1) as Et by (subst L; by rewrite take_app_le by lia).
    assert (drop (S m) L = drop (S m) L1 ++ (c, u) :: L2) as Ed by (subst L; by rewrite drop_app_le by lia).
    rewrite Et in Hlo. rewrite Ed in Hs.
    destruct si as [k cl cr]. destruct (insert_child_ok N _ (drop (S m) L1) c u _ hi k cl cr Hs) as (h' & Eh & Hh).
    { rewrite <-Ed, length_drop. lia. }
    eexists _, h', _, _. split_and!; [done..|by rewrite (assoc app), take_drop|].
    eexists _, _, h'. split_and!; [done| |done..].
    eapply branch_position; [exact Hs|by apply Forall_drop|done].
Qed.

Lemma same_at_branches t t' fp : leaves t' = leaves t →
  (∀ a, a ∈ fp → branches t' !! a = branches t !! a) → same_at fp t t'.
Proof. intros El Eb a Ha. by rewrite El, Eb. Qed.

Lemma branch_at_ok t a b : branches t !! a = Some b → branch_at a t = (t, Val b).
Proof. intros H. unfold branch_at, get_st, mbind, M_bind. by rewrite H. Qed.

(** A step in a branch node, once its child is done. *)
Definition finish_branch (node : nat) (key pos : Z) (csi : option split_info) : Prelude.M bptree (option split_info) :=
  match csi with
  | None => mret None
  | Some csi =>
    b ← branch_at node;
    if bool_decide (b_num b = Z.of_nat N) then
      si ← splitBranchNode N junk junkp node (s_key csi);
      let host := if bool_decide (key < s_key si) then s_left si else s_right si in
      h ← branch_at host;
      pos ← lift_res (lookupPositionInBranchNode h key);
      h' ← lift_res (insert_child pos csi h);
      put_branch host h';; mret (Some si)
    else
      b' ← lift_res (insert_child pos csi b);
      put_branch node b';; mret None
  end.

Lemma finish_branch_ok t d a b L1 c u L2 lo hi key csi kv fp :
  branches t !! a = Some b → branch_ok N b (L1 ++ (c, u) :: L2) hi →
  StronglySorted Z.lt (L1 ++ (c, u) :: L2).*2 → Forall (λ e, e.2 ≤ key) L1 → key < u → lo < hi →
  run (node_ok t d) lo (L1 ++ halves c csi u ++ L2) hi kv fp → a ∉ fp → (a < next_addr t)%nat → below (next_addr t) fp →
  ∃ t' r fp', finish_branch a key (Z.of_nat (length L1)) csi t = (t', Val r) ∧ grows t t' ({[a]} ∪ fp) fp'
    ∧ run (node_ok t' (S d)) lo (halves a r hi) hi kv fp'.
Proof.
  intros Eb Hb Hsort HF Hu Hlo Hrun Ha Han Hfp. destruct csi as [csi|]; cbn [finish_branch halves] in *.
  2: { exists t, None, ({[a]} ∪ fp). split_and!; [done| |].
       - split; try done. by left.
       - apply run_one; [done|]. exists b, (L1 ++ (c, u) :: L2), fp. by split_and!. }
  rewrite (bind_val _ _ _ _ _ (branch_at_ok _ _ _ Eb)). case_bool_decide as Hfull.
  - (* the node is full *)
    pose proof (branch_num _ _ _ _ Hb) as Hn.
    destruct (split_branch_ok b L1 c u L2 hi key csi Hb ltac:(lia) Hsort HF Hu)
      as (km & sep & s & bl & br & La & Lb & E1 & E2 & E3 & Hl & Hr & EL & host & pos & h' & -> & E4 & E5 & E6).
    remember (if bool_decide (s_key csi > km) then branch_middle N + 1 else branch_middle N) as mid eqn:Emid.
    set (t' := mk_bptree (depth t) (rootNode t) (leaves t)
                 (<[a := bl]> (<[next_addr t := br]> (branches t))) (S (next_addr t))).
    set (t1 := mk_bptree (depth t) (rootNode t) (leaves t)
                 (<[a := set_bnum (mid - 1) b]> (<[next_addr t := s]> (<[next_addr t := empty_branch N junk junkp]> (branches t)))) (S (next_addr t))).
    assert (splitBranchNode N junk junkp a (s_key csi) t = (t1, Val (mk_split sep a (next_addr t)))) as Esp.
    { unfold splitBranchNode. rewrite (bind_val _ _ _ _ _ (branch_at_ok _ _ _ Eb)), (lift_val _ _ _ _ E1).
      cbv zeta. rewrite <-Emid. rewrite (bind_val (newBranchNode N junk junkp) _ t _ (next_addr t) eq_refl), (lift_val _ _ _ _ E2).
      unfold put_branch, modify, mbind, M_bind, lift_res. rewrite E3. done. }
    assert (next_addr t ≠ a) as Hne by lia.
    exists t', (Some (mk_split sep a (next_addr t))), ({[a; next_addr t]} ∪ fp). split_and!.
    + rewrite (bind_val _ _ _ _ _ Esp). cbn [s_key s_left s_right]. case_bool_decide.
      * destruct E6 as [<- <-]. rewrite (bind_val _ _ _ t1 (set_bnum (mid - 1) b)) by (apply branch_at_ok; by cbn; rewrite lookup_insert_eq).
        rewrite (lift_val _ _ _ _ E4), (lift_val _ _ _ _ E5). 
        unfold put_branch, modify, mbind, M_bind, t1, t'. cbn. by rewrite !insert_insert_eq.
      * destruct E6 as [E6 <-]. rewrite (bind_val _ _ _ t1 s) by (apply branch_at_ok; cbn; by rewrite lookup_insert_ne, lookup_insert_eq by done).
        rewrite (lift_val _ _ _ _ E4), (lift_val _ _ _ _ E5). 
        unfold put_branch, modify, mbind, M_bind, t1, t'. cbn. rewrite (insert_insert_ne _ (next_addr t) a) by done.
        by rewrite E6, !insert_insert_eq.
    + split; try done; cbn; [lia| |].
      * intros x Hx Hnx. rewrite !lookup_insert_ne by (set_solver || lia). done.
      * intros x Hx. rewrite !elem_of_union, !elem_of_singleton in Hx.
        destruct Hx as [[-> | ->]|Hx]; [left; set_solver|right; lia|left; set_solver].
    + cbn [halves s_left s_right s_key]. apply (two_branches t' d a (next_addr t) bl br La sep Lb hi); try done.
      * cbn. by rewrite lookup_insert_eq.
      * cbn. by rewrite lookup_insert_ne, lookup_insert_eq by done.
      * rewrite EL. apply (run_same N M t); [|exact Hrun]. apply same_at_branches; [done|]. intros x Hx. cbn.
        rewrite !lookup_insert_ne; [done| |set_solver]. apply Hfp in Hx. lia.
      * intros Hx%Hfp. lia.
  - (* there is room *)
    destruct csi as [k cl cr]. pose proof (branch_num _ _ _ _ Hb) as Hn. pose proof (branch_ok_le _ _ _ _ Hb).
    destruct (insert_child_ok N b L1 c u L2 hi k cl cr Hb ltac:(lia)) as (b' & E1 & Hb').
    exists (mk_bptree (depth t) (rootNode t) (leaves t) (<[a := b']> (branches t)) (next_addr t)), None, ({[a]} ∪ fp). split_and!.
    + by rewrite (lift_val _ _ _ _ E1).
    + split; try done; cbn; [|by auto]. intros x Hx Hnx. by rewrite lookup_insert_ne by set_solver.
    + apply run_one; [done|]. exists b', (L1 ++ (cl, k) :: (cr, u) :: L2), fp. cbn [branches]. rewrite lookup_insert_eq.
      split_and!; try done. apply (run_same N M t); [|exact Hrun]. apply same_at_branches; [done|]. intros x Hx. cbn.
      by rewrite lookup_insert_ne by set_solver.
Qed.

Lemma insert_at_ok d t a lo hi kv fp key val :
  node_ok t d a lo hi kv fp → lo ≤ key < hi → below (next_addr t) fp →
  insert_post t a lo hi key val kv fp d (insert_at d a key val).
Proof.
  revert a lo hi kv fp. induction d as [|d IH]; intros a lo hi kv fp Hok Hk Hfp; [by apply insert_leaf_ok|].
  destruct Hok as (b & L & fp' & Hb & HL & Hrun & Ha & ->). apply below_union in Hfp as [Hfa Hfp].
  pose proof (Hfa a ltac:(set_solver)) as Han.
  pose proof (proj2 (run_bounds _ _ _ _ _ _ Hrun)) as Hsort.
  destruct (branch_route _ _ _ _ _ _ _ _ _ _ _ Hb HL Hrun Hk) as (L1 & c & u & L2 & -> & HF & Hu & E1 & E2 & E3).
  destruct (insert_in_row (insert_at d c key val) t d lo L1 c u L2 hi kv fp' key val Hrun ltac:(lia) HF Hfp) as (t1 & r & fp1 & F1 & G1 & R1).
  { intros m kvc fpc Hc Hm Hbc. by apply IH. }
  destruct (grows_same _ _ _ _ G1 a Han Ha) as [_ Eb1]. rewrite Hb in Eb1.
  pose proof (grows_fresh _ _ _ _ _ G1 Han Ha) as Ha1. pose proof (grows_below _ _ _ _ G1 Hfp) as Hfp1.
  pose proof (grows_next _ _ _ _ G1) as Hnx.
  destruct (finish_branch_ok t1 d a b L1 c u L2 lo hi key r _ _ Eb1 HL Hsort HF Hu ltac:(lia) R1 Ha1 ltac:(lia) Hfp1) as (t2 & r2 & fp2 & F2 & G2 & R2).
  exists t2, r2, fp2. split_and!; [| |exact R2].
  - assert (insert_at (S d) a key val t = (csi ← insert_at d c key val; finish_branch a key (Z.of_nat (length L1)) csi) t) as ->.
    { cbn [insert_at insertInBranchNode]. rewrite (bind_val _ _ _ _ _ E1), (lift_val _ _ _ _ E2), (lift_val _ _ _ _ E3). done. }
    by rewrite (bind_val _ _ _ _ _ F1).
  - apply (grows_trans _ t1 _ _ ({[a]} ∪ fp1)); [|done|by apply below_union].
    split; try apply G1.
    + intros x Hx Hn. apply (grows_same _ _ _ _ G1); [done|set_solver].
    + intros x Hx. apply elem_of_union in Hx as [Hx|Hx]; [left; set_solver|].
      destruct (grows_fp _ _ _ _ G1 x Hx); [left; set_solver|by right].
Qed.

(** ** The tree *)

(** The new root after a split of the root. *)
Lemma new_root_ok k cl cr hi : ∃ b1 b2 b3,
  set_bkey 0 k (empty_branch N junk junkp) = Val b1 ∧ set_child 0 cl b1 = Val b2 ∧ set_child 1 cr b2 = Val b3
  ∧ b_num b3 = 0 ∧ branch_ok N (set_bnum 1 b3) [(cl, k); (cr, hi)] hi.
Proof.
  unfold set_bkey, set_child, mbind, res_bind. cbn [empty_branch b_keys b_children b_num].
  rewrite (aset_ok (replicate N junk) 0) by (rewrite length_replicate; lia). eexists _, _, _. split; [done|].
  cbn [b_keys b_children b_num]. rewrite (aset_ok (replicate (S N) junkp) 0) by (rewrite length_replicate; lia). split; [done|].
  cbn [b_keys b_children b_num]. rewrite (aset_ok _ 1) by (rewrite length_insert, length_replicate; lia). split; [done|].
  split; [done|]. destruct N as [|N']; [lia|]. split; cbn; rewrite ?length_replicate; (done || lia).
Qed.

Lemma insert_tree_ok t kv key val : tree_ok N M t kv → 0 ≤ key < two64 →
  ∃ t', insert N M junk junkp key val t = (t', Val tt) ∧ tree_ok N M t' (with_entry key val kv).
Proof.
  intros (fp & Hok & Hfp) Hk. destruct (insert_at_ok _ _ _ _ _ _ _ key val Hok Hk Hfp) as (t' & r & fp' & E & G & R).
  pose proof (grows_below _ _ _ _ G Hfp) as Hfp'. unfold insert. rewrite (bind_val get_st _ t t t) by done.
  assert ((match depth t with
           | O => insertInLeafNode M junk (rootNode t) key val
           | S _ => insertInBranchNode N M junk junkp (depth t) (rootNode t) key val
           end) t = (t', Val r)) as E' by (rewrite <-E; by destruct (depth t)).
  rewrite (bind_val _ _ _ _ _ E'). destruct r as [[k cl cr]|].
  - cbn [halves s_left s_right s_key] in R.
    destruct (new_root_ok k cl cr two64) as (b1 & b2 & b3 & E1 & E2 & E3 & En & Hb). set (nb := set_bnum 1 b3) in *.
    exists (mk_bptree (S (depth t')) (next_addr t') (leaves t') (<[next_addr t' := nb]> (<[next_addr t' := empty_branch N junk junkp]> (branches t'))) (S (next_addr t'))).
    split.
    + rewrite (bind_val (newBranchNode N junk junkp) _ t' _ (next_addr t') eq_refl).
      erewrite (bind_val (branch_at (next_addr t'))); [|apply branch_at_ok; cbn; by rewrite lookup_insert_eq].
      cbn [s_key s_left s_right]. rewrite (lift_val _ _ _ _ E1), (lift_val _ _ _ _ E2), (lift_val _ _ _ _ E3), En. done.
    + exists ({[next_addr t']} ∪ fp'). cbn [depth rootNode next_addr]. split.
      * exists nb, [(cl, k); (cr, two64)], fp'. cbn [branches]. rewrite lookup_insert_eq. split_and!; [done| | | |done].
        -- exact Hb.
        -- rewrite <-(grows_depth _ _ _ _ G) in R. apply (run_same N M t'); [|by rewrite (grows_depth _ _ _ _ G) in *].
           apply same_at_branches; [done|]. intros x Hx. cbn.
           rewrite !lookup_insert_ne by (apply Hfp' in Hx; lia). done.
        -- intros Hx%Hfp'. lia.
      * intros x Hx. apply elem_of_union in Hx as [Hx%elem_of_singleton|Hx%Hfp']; lia.
  - exists t'. split; [done|]. cbn in R. apply run_one_inv in R as (_ & _ & R).
    exists fp'. rewrite (grows_depth _ _ _ _ G), (grows_root _ _ _ _ G). done.
Qed.

Lemma new_tree_ok : tree_ok N M (new_tree M junk) [].
Proof.
  exists {[0%nat]}. split; [|intros a Ha; cbn; set_solver by lia].
  exists (empty_leaf M junk). cbn. split_and!; try done; [|constructor..].
  split; cbn; rewrite ?length_replicate; done.
Qed.

Lemma with_entry_map key val kv : in_order kv →
  list_to_map (with_entry key val kv) = <[key := val]> (list_to_map kv : gmap Z Z).
Proof.
  intros Hs. destruct (in_order_split key kv Hs) as (mid & E & Hmid).
  apply map_eq. intros k. unfold with_entry. rewrite E at 3.
  rewrite !list_to_map_app, list_to_map_cons. rewrite lookup_union.
  destruct (decide (k = key)) as [->|Hne].
  - rewrite !lookup_insert_eq. rewrite not_elem_of_list_to_map_1; [done|].
    intros (e & Ee & He)%list_elem_of_fmap. pose proof (proj1 (Forall_forall _ _) (before_lt key kv) _ He). simpl in *. lia.
  - rewrite !(lookup_insert_ne _ key) by done. rewrite !lookup_union.
    destruct Hmid as [-> | [v ->]]; cbn; rewrite ?lookup_insert_ne by done; rewrite lookup_empty; by destruct (_ !! k), (_ !! k).
Qed.
Lemma tree_in_order t kv : tree_ok N M t kv → in_order kv.
Proof. intros (fp & Hok & _). by apply node_between in Hok as [_ ?]. Qed.

Lemma insert_map t m key val : represents N M t m → 0 ≤ key < two64 →
  ∃ t', insert N M junk junkp key val t = (t', Val tt) ∧ represents N M t' (<[key := val]> m).
Proof.
  intros (kv & Hok & ->) Hk. destruct (insert_tree_ok t kv key val Hok Hk) as (t' & E & Hok').
  exists t'. split; [done|]. exists (with_entry key val kv). split; [done|].
  symmetry. apply with_entry_map. by eapply tree_in_order.
Qed.

(** C35: an insertion never fails; the tree stays a tree with all leaves at the
    same depth, with every node within its capacity and all keys in order
    between their separators, and it holds the new entry and all others. *)
Theorem insert_keeps_tree t kv key val : tree_ok N M t kv → 0 ≤ key < two64 →
  ∃ t', insert N M junk junkp key val t = (t', Val tt) ∧ tree_ok N M t' (with_entry key val kv)
        ∧ in_order (with_entry key val kv) ∧ list_to_map (with_entry key val kv) = <[key := val]> (list_to_map kv : gmap Z Z).
Proof.
  intros Hok Hk. destruct (insert_tree_ok t kv key val Hok Hk) as (t' & E & Hok'). exists t'.
  split_and!; [done..|by eapply tree_in_order|]. apply with_entry_map. by eapply tree_in_order.
Qed.

(** The entries of a list, later ones win. *)
Definition map_of (kvs : list entry) : gmap Z Z := foldl (λ m e, <[e.1 := e.2]> m) ∅ kvs.

Lemma inserts_map t m kvs : represents N M t m → Forall (λ e, 0 ≤ e.1 < two64) kvs →
  ∃ t', for_each (λ e, insert N M junk junkp e.1 e.2) kvs t = (t', Val tt)
        ∧ represents N M t' (foldl (λ m e, <[e.1 := e.2]> m) m kvs).
Proof.
  intros Ht Hk. revert t m Ht. induction Hk as [|e kvs He Hk IH]; intros t m Ht; [by exists t|].
  destruct (insert_map t m e.1 e.2 Ht He) as (t1 & E1 & Ht1). destruct (IH _ _ Ht1) as (t2 & E2 & Ht2).
  exists t2. split; [|done]. by rewrite for_each_cons, (bind_val _ _ _ _ _ E1).
Qed.

(** C34: after any sequence of insertions into a new tree, a lookup of any key
    returns the value inserted last for it, or reports that there is none, and
    does not change the tree. *)
Theorem inserts_lookup kvs : Forall (λ e, 0 ≤ e.1 < two64) kvs →
  ∃ t, for_each (λ e, insert N M junk junkp e.1 e.2) kvs (new_tree M junk) = (t, Val tt)
       ∧ ∀ key, 0 ≤ key < two64 → lookup key t = (t, Val (map_of kvs !! key)).
Proof.
  intros Hk. destruct (inserts_map (new_tree M junk) ∅ kvs) as (t & E & Ht); [|done|].
  { exists []. split; [apply new_tree_ok|done]. }
  exists t. split; [done|]. intros key Hkey. by apply (lookup_represents N M).
Qed.
End insert.

Lemma insert_keeps_tree_witness :
  ∃ t', insert 126 10 0 0 3 30 (new_tree 10 0) = (t', Val tt) ∧ tree_ok 126 10 t' [(3, 30)]
        ∧ in_order [(3, 30)] ∧ list_to_map [(3, 30)] = <[3 := 30]> (list_to_map [] : gmap Z Z).
Proof. apply (insert_keeps_tree 126 10 0 0 ltac:(lia) ltac:(lia) (new_tree 10 0) [] 3 30); [apply new_tree_ok; lia|done]. Defined.

Lemma inserts_lookup_witness :
  ∃ t, for_each (λ e, insert 3 2 0 0 e.1 e.2) [(5, 50); (1, 10); (4, 40); (3, 30); (1, 11)] (new_tree 2 0) = (t, Val tt)
       ∧ ∀ key, 0 ≤ key < two64 → lookup key t = (t, Val (map_of [(5, 50); (1, 10); (4, 40); (3, 30); (1, 11)] !! key)).
Proof. apply (inserts_lookup 3 2 0 0 ltac:(lia) ltac:(lia)). repeat constructor; done. Defined.
