(* ===== verification/BTreeErase.v ===== *)
(** * BTreeErase: deletion from a leaf, and what goes wrong around splits and
    underflows of leaves

    The behaviour of [eraseFromLeafNode] for keys that are there and for keys
    behind the last one, the chain of leaves after a split, and the separator
    after a rebalancing. *)

From stdpp Require Import gmap sorting.
From S2P Require Import Prelude BTree BTreeNodes BTreeTree BTreeInsert.

(** ** Moving entries down by one place *)

(** [m] steps of [a[i] = a[i+1]], upwards from [i]. *)
Fixpoint shift_down {A} (m i : nat) (a : list A) : list A :=
  match m with
  | O => a
  | S m' => shift_down m' (S i) (match a !! S i with Some x => <[i := x]> a | None => a end)
  end.
Lemma shift_down_length {A} m i (a : list A) : length (shift_down m i a) = length a.
Proof.
  revert i a. induction m as [|m IH]; intros i a; simpl; [done|]. rewrite IH.
  destruct (a !! _); [apply length_insert|done].
Qed.
Lemma shift_down_lookup {A} m i (a : list A) j : (i + m < length a)%nat →
  shift_down m i a !! j = if decide (i ≤ j < i + m)%nat then a !! S j else a !! j.
Proof.
  revert i a. induction m as [|m IH]; intros i a Hl; simpl; [by rewrite decide_False by lia|].
  destruct (lookup_lt_is_Some_2 a (S i)) as [x Hx]; [lia|]. rewrite Hx, IH by (rewrite length_insert; lia).
  destruct (decide (j = i)) as [->|Hj].
  - rewrite decide_False by lia. rewrite decide_True by lia. by rewrite list_lookup_insert_eq by lia.
  - destruct (decide (S i ≤ j < S i + m)%nat).
    + rewrite decide_True by lia. by rewrite list_lookup_insert_ne by lia.
    + rewrite decide_False by lia. by rewrite list_lookup_insert_ne by lia.
Qed.

(** The prefix after an entry was taken out. *)
Lemma shift_remove {A} (a l : list A) pos : take (length l) a = l → (pos < length l)%nat → (length l ≤ length a)%nat →
  take (length l - 1) (shift_down (length l - 1 - pos) pos a) = take pos l ++ drop (S pos) l.
Proof.
  intros Ht Hpos Hlen. apply list_eq. intros j.
  assert (∀ i, (i < length l)%nat → a !! i = l !! i) as Hpre by (intros i Hi; rewrite <-Ht, lookup_take_lt; done || lia).
  destruct (decide (j < length l - 1)%nat) as [Hj|Hj].
  - rewrite lookup_take_lt by lia. rewrite shift_down_lookup by lia. case_decide.
    + rewrite lookup_app_r by (rewrite length_take; lia). rewrite length_take, lookup_drop, Hpre by lia. f_equal. lia.
    + rewrite lookup_app_l by (rewrite length_take; lia). rewrite lookup_take_lt by lia. apply Hpre. lia.
  - rewrite lookup_ge_None_2 by (rewrite length_take; lia).
    rewrite lookup_ge_None_2; [done|]. rewrite length_app, length_take, length_drop. lia.
Qed.

Lemma loop_down_leaf m i l : (i + m < length (l_keys l))%nat → (i + m < length (l_values l))%nat →
  loop (upward (Z.of_nat i) (Z.of_nat (i + m)))
    (λ i l, k ← aget (l_keys l) (i + 1); v ← aget (l_values l) (i + 1); set_entry i k v l) l
  = Val (mk_leaf (l_num l) (shift_down m i (l_keys l)) (shift_down m i (l_values l)) (nextLeaf l) (prevLeaf l)).
Proof.
  revert i l. induction m as [|m IH]; intros i l Hk Hv; [rewrite upward_nil by lia; by destruct l|].
  rewrite upward_cons by lia. cbn [loop shift_down].
  destruct (lookup_lt_is_Some_2 (l_keys l) (S i)) as [k Ek]; [lia|].
  destruct (lookup_lt_is_Some_2 (l_values l) (S i)) as [v Ev]; [lia|]. rewrite Ek, Ev.
  replace (Z.of_nat i + 1) with (Z.of_nat (S i)) by lia.
  rewrite (aget_ok _ _ _ Ek), (aget_ok _ _ _ Ev). unfold set_entry, mbind, res_bind.
  rewrite (aset_ok (l_keys l)), (aset_ok (l_values l)) by lia.
  replace (i + S m)%nat with (S i + m)%nat by lia.
  apply (IH (S i) (mk_leaf _ _ _ _ _)); simpl; rewrite length_insert; lia.
Qed.

Section erase.
Context (M : nat).
Hypothesis HM : Z.of_nat M < two32.

(** Taking out the entry at a position whose key slot holds [key]. *)
Lemma erase_at l kv pos key : leaf_ok M l kv → (pos < length kv)%nat →
  lookupPositionInLeafNode l key = Val (Z.of_nat pos) → aget (l_keys l) (Z.of_nat pos) = Val key →
  ∃ l', eraseFromLeafNode M key l = Val (l', true) ∧ leaf_ok M l' (take pos kv ++ drop (S pos) kv)
        ∧ nextLeaf l' = nextLeaf l ∧ prevLeaf l' = prevLeaf l.
Proof.
  intros Hok Hpos E1 E2. pose proof (leaf_ok_le _ _ _ Hok) as Hle. destruct Hok as [H1 H2 H3 H4 H5].
  unfold eraseFromLeafNode. rewrite (res_val _ _ _ E1), (res_val _ _ _ E2), bool_decide_eq_true_2 by done.
  rewrite H3. assert (u32 (Z.of_nat (length kv) - 1) = Z.of_nat (length kv) - 1) as Eu by (apply Z.mod_small; lia).
  rewrite Eu, Z.min_l by lia.
  replace (Z.of_nat (length kv) - 1) with (Z.of_nat (pos + (length kv - 1 - pos))) by lia.
  erewrite res_val by (apply loop_down_leaf; lia). eexists. split; [done|]. split; [|done].
  assert (length (take pos kv ++ drop (S pos) kv) = (length kv - 1)%nat) as El by (rewrite length_app, length_take, length_drop; lia).
  split; cbn [set_num l_keys l_values l_num]; rewrite ?shift_down_length, ?El; try (done || lia).
  - pose proof (shift_remove (l_keys l) kv.*1 pos) as E. rewrite length_fmap in E. rewrite E by (done || lia).
    by rewrite fmap_app, fmap_take, fmap_drop.
  - pose proof (shift_remove (l_values l) kv.*2 pos) as E. rewrite length_fmap in E. rewrite E by (done || lia).
    by rewrite fmap_app, fmap_take, fmap_drop.
Qed.

(** Deleting a key that is in a leaf removes its entry and nothing else,
    keeps the links of the leaf and reports the deletion. *)
Theorem erase_leaf_ok l kv1 key v kv2 : leaf_ok M l (kv1 ++ (key, v) :: kv2) → in_order (kv1 ++ (key, v) :: kv2) →
  ∃ l', eraseFromLeafNode M key l = Val (l', true) ∧ leaf_ok M l' (kv1 ++ kv2) ∧ in_order (kv1 ++ kv2)
        ∧ nextLeaf l' = nextLeaf l ∧ prevLeaf l' = prevLeaf l.
Proof.
  intros Hok Hord. unfold in_order in *. rewrite fmap_app, fmap_cons in Hord.
  apply StronglySorted_app in Hord as (Hlt & S1 & S2). pose proof (StronglySorted_inv S2) as [S3 Hgt].
  destruct (erase_at l _ (length kv1) key Hok) as (l' & E & Hok' & Hl).
  - rewrite length_app. simpl. lia.
  - eapply leaf_position; [exact Hok| |].
    + apply Forall_forall. intros e He. apply Hlt; [by apply list_elem_of_fmap_2|left].
    + constructor; [simpl; lia|]. rewrite Forall_map in Hgt. eapply Forall_impl; [exact Hgt|]. intros e He. simpl in *. lia.
  - erewrite leaf_key; [|exact Hok|by apply list_lookup_middle]. done.
  - exists l'. rewrite take_app_length, (cons_middle (key, v) kv1 kv2), (assoc app), drop_app_length' in Hok'
      by (rewrite length_app; simpl; lia).
    split_and!; [done|done| |apply Hl..]. rewrite fmap_app. apply StronglySorted_app. split_and!; [|done..].
    intros x1 x2 H1 H2. apply Hlt; [done|by right].
Qed.

(** [eraseFromLeafNode] does not compare the position with [numKeys].  A key
    greater than all keys of the leaf is compared with what is behind them:
    when a deleted entry left the key there, the last entry, which has another
    key, is removed and reported as deleted; when the leaf is full, the access
    is outside the array. *)
Theorem erase_behind_end l kv e key : leaf_ok M l (kv ++ [e]) → Forall (λ e, e.1 < key) (kv ++ [e]) →
  (length (kv ++ [e]) = M → eraseFromLeafNode M key l = Exn undefined_behaviour)
  ∧ (l_keys l !! length (kv ++ [e]) = Some key →
     ∃ l', eraseFromLeafNode M key l = Val (l', true) ∧ leaf_ok M l' kv).
Proof.
  intros Hok Hlt.
  assert (lookupPositionInLeafNode l key = Val (Z.of_nat (length (kv ++ [e])))) as E1.
  { eapply (leaf_position _ _ _ []); [by rewrite app_nil_r|done|constructor]. }
  unfold eraseFromLeafNode. rewrite (res_val _ _ _ E1). split.
  - intros Hlen. assert (aget (l_keys l) (Z.of_nat (length (kv ++ [e]))) = Exn undefined_behaviour) as E2.
    { unfold aget. rewrite bool_decide_eq_true_2 by lia. rewrite Nat2Z.id, lookup_ge_None_2; [done|].
      rewrite (leaf_keys_len _ _ _ Hok). lia. }
    unfold mbind, res_bind. by rewrite E2.
  - intros Hst. rewrite (res_val _ _ _ (aget_ok _ _ _ Hst)). cbv beta. rewrite bool_decide_eq_true_2 by done.
    pose proof (leaf_ok_le _ _ _ Hok) as Hle. rewrite length_app in *. simpl in *.
    rewrite (leaf_num _ _ _ Hok), length_app. simpl.
    assert (u32 (Z.of_nat (length kv + 1) - 1) = Z.of_nat (length kv)) as -> by (unfold u32; rewrite Z.mod_small; lia).
    rewrite upward_nil by lia. cbn [loop]. eexists. split; [done|].
    pose proof (leaf_ok_take _ _ _ (length kv) Hok) as H. rewrite take_app_length in H. apply H. rewrite length_app. lia.
Qed.

(** Scanning a leaf, and going on with the next one. *)
Lemma scan_leaves_step t f a l kv : leaves t !! a = Some l → leaf_ok M l kv →
  scan_leaves (S f) (Some a) t = (rest ← scan_leaves f (nextLeaf l); mret (kv ++ rest)) t.
Proof.
  intros Hl Hok. cbn [scan_leaves]. by rewrite (bind_val _ _ _ _ _ (leaf_at_ok _ _ _ Hl)), (lift_val _ _ _ _ (leaf_entries_ok _ _ _ Hok)).
Qed.

(** When a leaf is split its new sibling gets no successor, whatever leaf
    followed before: a scan that comes to the leaf ends with the entries of its
    two halves, and all entries further on in the chain are lost to it. *)
Theorem split_cuts_chain junk t a l kv key val : (1 < M)%nat → leaves t !! a = Some l → leaf_ok M l kv → in_order kv →
  length kv = M → Forall (λ e, e.1 ≠ key) kv → (a < next_addr t)%nat →
  ∃ t' si, insertInLeafNode M junk a key val t = (t', Val (Some si))
    ∧ ∀ f, (2 < f)%nat → scan_leaves f (Some a) t' = (t', Val (with_entry key val kv)).
Proof.
  intros HM1 Hl Hok Hord Hlen Hne Ha.
  destruct (in_order_split key kv Hord) as (mid & E & [-> | [v ->]]).
  2: { exfalso. rewrite E, !Forall_app, Forall_cons in Hne. by apply Hne. }
  destruct (insert_full_leaf 3 M junk ltac:(lia) HM1 t a l kv key val Hl Hok Hlen E) as (l' & s & ka & e & kb & E1 & H1 & H2 & H3 & _ & Hnx).
  eexists _, _. split; [exact E1|]. intros f Hf. destruct f as [|[|[|f]]]; [lia..|].
  erewrite scan_leaves_step; [|cbn; by rewrite lookup_insert_ne, lookup_insert_eq by lia|apply leaf_ok_links; exact H1].
  cbn [set_next nextLeaf]. erewrite bind_val; [|erewrite scan_leaves_step;
    [|cbn; by rewrite lookup_insert_eq|apply leaf_ok_prev; exact H2]; cbn [set_prev nextLeaf]; rewrite Hnx; reflexivity].
  by rewrite app_nil_r, H3.
Qed.
End erase.

(** ** Whole trees, with the capacities of the index (126 and 10) *)
Definition tree_of (kvs : list entry) : bptree := (for_each (λ e, insert 126 10 0 0 e.1 e.2) kvs (new_tree 10 0)).1.
Definition keys_up (a n : Z) : list entry := (λ k, (10 * k, k)) <$> seqZ a n.

(** When a leaf is rebalanced from its left sibling, the separator is written
    behind the one between the two leaves: keys that moved are still in the
    tree, a scan delivers them, but no lookup finds them. *)
Theorem rebalance_hides_keys :
  let t := (for_each (λ k, erase 126 10 k;; mret tt) [110; 100] (tree_of (keys_up 1 11 ++ [(1, 0); (2, 0)]))).1 in
  (scan t).2 = Val ((1, 0) :: (2, 0) :: keys_up 1 9) ∧ (lookup 40 t).2 = Val None ∧ (lookup 50 t).2 = Val None.
Proof. split_and!; vm_compute; reflexivity. Qed.

(** ** Instances *)
Definition leaf3 : leaf_node := mk_leaf 3 [1; 2; 3; 3] [10; 20; 30; 30] None None.
Lemma leaf3_ok : leaf_ok 4 leaf3 [(1, 10); (2, 20); (3, 30)].
Proof. by split. Qed.

Lemma erase_leaf_ok_witness :
  ∃ l', eraseFromLeafNode 4 2 leaf3 = Val (l', true) ∧ leaf_ok 4 l' [(1, 10); (3, 30)] ∧ in_order [(1, 10); (3, 30)]
        ∧ nextLeaf l' = None ∧ prevLeaf l' = None.
Proof.
  apply (erase_leaf_ok 4 ltac:(done) leaf3 [(1, 10)] 2 20 [(3, 30)] leaf3_ok). repeat constructor; done.
Defined.

(** The key 3 was erased before and its copy is behind the end. *)
Definition leaf2 : leaf_node := mk_leaf 2 [1; 2; 3; 3] [10; 20; 30; 30] None None.
Lemma leaf2_ok : leaf_ok 4 leaf2 [(1, 10); (2, 20)].
Proof. by split. Qed.
Lemma erase_behind_end_witness :
  (2%nat = 4%nat → eraseFromLeafNode 4 3 leaf2 = Exn undefined_behaviour)
  ∧ (Some 3 = Some 3 → ∃ l', eraseFromLeafNode 4 3 leaf2 = Val (l', true) ∧ leaf_ok 4 l' [(1, 10)]).
Proof.
  apply (erase_behind_end 4 ltac:(done) leaf2 [(1, 10)] (2, 20) 3 leaf2_ok). repeat constructor; done.
Defined.

Definition full_leaf : leaf_node := mk_leaf 2 [1; 3] [10; 30] (Some 7%nat) None.
Definition chain : bptree := mk_bptree 0 0 {[0%nat := full_leaf]} ∅ 1.
Lemma split_cuts_chain_witness :
  ∃ t' si, insertInLeafNode 2 0 0 2 20 chain = (t', Val (Some si))
    ∧ ∀ f, (2 < f)%nat → scan_leaves f (Some 0%nat) t' = (t', Val [(1, 10); (2, 20); (3, 30)]).
Proof.
  apply (split_cuts_chain 2 0 chain 0%nat full_leaf [(1, 10); (3, 30)] 2 20); repeat constructor; done.
Defined.
