(* ===== verification/IndexMap.v ===== *)
(** * IndexMap: the indexes in memory (src/btree/index_map.cpp, btree.hpp)

    [index_map] is a map from names to trees; [std::shared_ptr]s to trees are
    addresses into the store of trees.  With the B+ tree of [BTree] it
    implements the interface [Indexes]. *)

From stdpp Require Import gmap.
From S2P Require Import Prelude IndexSpec BTree BTreeTree BTreeInsert.

Record index_map : Type := mk_imap {
  trees_ : gmap nat bptree;
  next_tree_ : nat;
  indexes_ : gmap str nat
}.
Definition set_trees (t : gmap nat bptree) (x : index_map) : index_map :=
  mk_imap t (next_tree_ x) (indexes_ x).
Definition set_names (n : gmap str nat) (x : index_map) : index_map :=
  mk_imap (trees_ x) (next_tree_ x) n.

(** [index_map()] *)
Definition new_index_map : index_map := mk_imap ∅ 0 ∅.

(** [unordered_map::insert] leaves an entry that exists. *)
Definition register_index (idx_name : str) (idx : nat) : M index_map unit :=
  modify (λ x, match indexes_ x !! idx_name with
               | Some _ => x
               | None => set_names (<[idx_name := idx]> (indexes_ x)) x
               end).
Definition unregister_index (idx_name : str) : M index_map unit :=
  x ← get_st;
  match indexes_ x !! idx_name with
  | None => throw unknown_index
  | Some _ => modify (λ x, set_names (delete idx_name (indexes_ x)) x)
  end.
Definition get_index (x : index_map) (idx_name : str) : res nat :=
  match indexes_ x !! idx_name with None => Exn unknown_index | Some idx => Val idx end.
Definition get_index_id (x : index_map) (idx_name : str) : index_id :=
  match indexes_ x !! idx_name with None => None | Some idx => Some idx end.
Definition has_index (x : index_map) (idx_name : str) : bool :=
  bool_decide (is_Some (indexes_ x !! idx_name)).
(** [clear()]: the trees in memory have no [close]. *)
Definition clear : M index_map unit := modify (set_names ∅).
Definition index_map_size (x : index_map) : Z := Z.of_nat (size (indexes_ x)).

(** The capacities of [im_btree_impl]. *)
Definition im_keys_branch : nat := 126.
Definition im_keys_leaf : nat := 10.

Lemma im_keys_ok : (2 < im_keys_branch)%nat ∧ (1 < im_keys_leaf)%nat.
Proof. unfold im_keys_branch, im_keys_leaf. lia. Qed.

Section trees.
Variables (junk : Z) (junkp : nat).

(** A computation on the tree behind a pointer. *)
Definition on_tree {A} (i : nat) (m : M bptree A) : M index_map A := λ x,
  match trees_ x !! i with
  | None => (x, Exn undefined_behaviour)
  | Some t => let '(t', r) := m t in (set_trees (<[i := t']> (trees_ x)) x, r)
  end.
Definition make_im_btree : M index_map nat :=
  x ← get_st;
  let i := next_tree_ x in
  modify (λ x, mk_imap (<[i := new_tree im_keys_leaf junk]> (trees_ x)) (S i) (indexes_ x));;
  mret i.
Definition tree_insert (i : nat) (key id : Z) : M index_map unit :=
  on_tree i (insert im_keys_branch im_keys_leaf junk junkp key id).
Definition tree_erase (i : nat) (key : Z) : M index_map bool := on_tree i (erase im_keys_branch im_keys_leaf key).
Definition tree_lookup (i : nat) (key : Z) : M index_map (option Z) := on_tree i (lookup key).

(** ** The interface *)
Record imap_trees (x : index_map) (m : gmap nat (gmap Z Z)) : Prop := {
  it_tree i : match trees_ x !! i, m !! i with
              | Some t, Some e => represents im_keys_branch im_keys_leaf t e
              | None, None => True
              | _, _ => False
              end;
  it_next i : is_Some (m !! i) → (i < next_tree_ x)%nat;
  it_names s i : indexes_ x !! s = Some i → is_Some (m !! i)
}.

Lemma new_index_map_trees : imap_trees new_index_map ∅.
Proof. split; [done|by intros i []|done]. Qed.

Lemma imap_tree x m i e : imap_trees x m → m !! i = Some e →
  ∃ t, trees_ x !! i = Some t ∧ represents im_keys_branch im_keys_leaf t e.
Proof. intros [Ht _ _] E. specialize (Ht i). rewrite E in Ht. destruct (trees_ x !! i) as [t|]; [by exists t|done]. Qed.

Lemma imap_trees_insert x m i e t' e' : imap_trees x m → m !! i = Some e →
  represents im_keys_branch im_keys_leaf t' e' →
  imap_trees (set_trees (<[i := t']> (trees_ x)) x) (<[i := e']> m).
Proof.
  intros [Ht Hn Hs] E Hr. assert (∀ j, is_Some (<[i := e']> m !! j) → is_Some (m !! j)) as Hsome.
  { intros j. destruct (decide (j = i)) as [->|]; [by rewrite E|by rewrite lookup_insert_ne]. }
  split; cbn.
  - intros j. destruct (decide (j = i)) as [->|]; [by rewrite !lookup_insert_eq|].
    rewrite !lookup_insert_ne by done. apply Ht.
  - intros j Hj. by apply Hn, Hsome.
  - intros s j Hj. destruct (decide (j = i)) as [->|]; [by rewrite lookup_insert_eq|].
    rewrite lookup_insert_ne by done. by eapply Hs.
Qed.

#[export, refine] Instance btree_Indexes : Indexes index_map := {|
  ix_make := make_im_btree;
  ix_insert := tree_insert;
  ix_erase := tree_erase;
  ix_lookup := tree_lookup;
  ix_register := register_index;
  ix_unregister := unregister_index;
  ix_get := get_index;
  ix_get_id := get_index_id;
  ix_has := has_index;
  ix_trees := imap_trees
|}.
Proof.
  - intros x m s i [_ _ Hs] E. apply (Hs s). unfold get_index_id in E. by destruct (indexes_ x !! s).
  - intros x s. unfold get_index, get_index_id. by destruct (indexes_ x !! s).
  - intros x s. unfold has_index, get_index_id. by destruct (indexes_ x !! s).
  - intros x m [Ht Hn Hs]. exists (mk_imap (<[next_tree_ x := new_tree im_keys_leaf junk]> (trees_ x))
      (S (next_tree_ x)) (indexes_ x)), (next_tree_ x).
    assert (m !! next_tree_ x = None) as Hnone.
    { destruct (m !! next_tree_ x) eqn:E; [|done]. specialize (Hn _ (mk_is_Some _ _ E)). lia. }
    split_and!; [done|done| |done]. split; cbn.
    + intros j. destruct (decide (j = next_tree_ x)) as [->|].
      * rewrite !lookup_insert_eq. exists []. split; [apply new_tree_ok; apply im_keys_ok|done].
      * rewrite !lookup_insert_ne by done. apply Ht.
    + intros j Hj. destruct (decide (j = next_tree_ x)); [lia|]. rewrite lookup_insert_ne in Hj by done.
      specialize (Hn _ Hj). lia.
    + intros s j E. destruct (decide (j = next_tree_ x)) as [->|]; [by rewrite lookup_insert_eq|].
      rewrite lookup_insert_ne by done. by eapply Hs.
  - intros x m i e k v Hx E Hk. destruct (imap_tree _ _ _ _ Hx E) as (t & Et & Hr).
    destruct (insert_map im_keys_branch im_keys_leaf junk junkp
      (proj1 im_keys_ok) (proj2 im_keys_ok) t e k v Hr Hk) as (t' & Ei & Hr').
    exists (set_trees (<[i := t']> (trees_ x)) x). unfold tree_insert, on_tree. rewrite Et, Ei.
    split; [done|]. split; [|done]. by eapply imap_trees_insert.
  - intros x m i e k Hx E Hk. destruct (imap_tree _ _ _ _ Hx E) as (t & Et & Hr).
    unfold tree_lookup, on_tree. rewrite Et, (lookup_represents _ _ _ _ _ Hr Hk).
    unfold set_trees. rewrite insert_id by done. by destruct x.
  - intros x m s i [Ht Hn Hs] Hi. unfold register_index, modify, get_index_id.
    destruct (indexes_ x !! s) as [j|] eqn:E; eexists; (split; [done|]).
    + split; [by split|]. intros s'. by rewrite decide_False by naive_solver.
    + split.
      * split; [done|done|]. cbn. intros s' j. destruct (decide (s' = s)) as [->|].
        -- rewrite lookup_insert_eq. by intros [= <-].
        -- rewrite lookup_insert_ne by done. apply Hs.
      * intros s'. cbn. destruct (decide (s' = s)) as [->|].
        -- by rewrite lookup_insert_eq, decide_True.
        -- rewrite lookup_insert_ne, decide_False by naive_solver. done.
  - intros x m s [Ht Hn Hs]. unfold get_index_id, unregister_index, mbind, M_bind, get_st.
    destruct (indexes_ x !! s) as [j|] eqn:E; [|done]. eexists. split; [done|]. split.
    + split; [done|done|]. cbn. intros s' j'. intros [_ Hj]%lookup_delete_Some. by eapply Hs.
    + intros s'. cbn. destruct (decide (s' = s)) as [->|]; [by rewrite lookup_delete_eq|].
      by rewrite lookup_delete_ne.
Defined.
End trees.
