(* ===== verification/GraphDemo.v ===== *)
(** * GraphDemo: the graph theorems at concrete databases

    An empty database over the vector and the dictionary in memory, and the
    witnesses of the theorems about [graph_db]. *)

From Stdlib Require Import Ascii.
From S2P Require Import Prelude VecSpec Chunk ChunkedVec VecIter DictSpec IndexSpec BTreeTree IndexMap StringPool Dict Literals.
From S2P Require Import Property PropertyList PropertyMap PropertyTable Demo.
From S2P Require Import Txn Mvto GraphState GraphOps QueryCtx GraphIndex GraphCommit GraphIndexFacts GraphFacts GraphNodes GraphRefine GraphLists.

#[export] Instance demo_indexes : Indexes index_map := btree_Indexes 0 0.
#[export] Instance demo_scan : VecScan mem_chunked_vec := chunked_vec_VecScan 2 two_pos two_small.

Notation demo_gdb := (gdb mem_chunked_vec (dict string_pool) index_map).
Definition empty_gdb : demo_gdb := mk_gdb vec_new vec_new vec_new vec_new demo_dict [] 0 [] None new_index_map.

Lemma empty_gdb_at_rest : at_rest empty_gdb ∅.
Proof. split; [done|done|apply vec_new_ok|apply vec_new_ok|apply demo_dict_has]. Qed.

(** ** Witnesses *)
Lemma add_commit_read_witness :
  at_rest empty_gdb ∅ ∧
  ∃ id g' g'',
    (begin_transaction 10;; id ← add_node no_date no_date 0 s_name props1 false; _ ← commit_transaction 0; mret id) empty_gdb
      = (g', Val id)
    ∧ (begin_transaction 20;; get_node_description id) g' = (g'', Val (mk_ndescr id s_name (valued entries1)))
    ∧ vec_get (nodes_ empty_gdb) id = None
    ∧ (∀ j, j ≠ id → vec_get (nodes_ g') j = vec_get (nodes_ empty_gdb) j)
    ∧ index_map_ g' = index_map_ empty_gdb.
Proof.
  split; [apply empty_gdb_at_rest|].
  apply (add_commit_read no_date no_date 0 empty_gdb ∅ s_name props1 entries1 false 10 20 empty_gdb_at_rest).
  - done.
  - done.
  - done.
  - exact props1_sorted.
  - exact props1_canonical.
  - apply takes_all_b_ok. vm_compute. reflexivity.
  - vm_compute. congruence.
  - intros key _. reflexivity.
Defined.

(** Tables with given records. *)
Definition table_of {T} `{Inhabited T} (l : list T) : mem_chunked_vec T :=
  foldl (λ v o, (vec_store o v).1) vec_new l.
Lemma table_of_ok {T} `{Inhabited T} (l : list T) : vec_ok (table_of l).
Proof.
  unfold table_of. assert (vec_ok (vec_new : mem_chunked_vec T)) as H0 by apply vec_new_ok. revert H0.
  generalize (vec_new : mem_chunked_vec T). induction l as [|o l IH]; intros v Hv; [done|]. cbn [foldl]. apply IH.
  destruct (vec_store_ok v o Hv) as (id & loc & v' & E & Hok & _). by rewrite E.
Qed.

(** One node, added by transaction 10, with a property. *)
Definition node0 : node := mk_node 0 UNKNOWN UNKNOWN UNKNOWN 1.
Definition gdb_added : demo_gdb :=
  mk_gdb (table_of [added 10 node0 [item41]]) vec_new vec_new vec_new demo_dict1 [10] 10 []
    (Some (mk_tx 10 [0] [])) new_index_map.
Definition committed0 : nobj := (commit_version copy_node_fields 10 10 (added 10 node0 [item41])).1.

Lemma commit_node_refines_witness :
  ∃ v' p', commit_dirty_node 0 10 0 gdb_added = (set_nodes v' (set_garbage [] (set_index_map new_index_map (set_nprops p' gdb_added))), Val tt)
    ∧ tab_set (nodes_ gdb_added) 0 (set_main (set_body (set_node_plist 0)) committed0) v'.
Proof.
  destruct (commit_node_refines 0 gdb_added 0 10 (added 10 node0 [item41]) committed0
    (commit_props 0 (added 10 node0 [item41]) (node_properties_ gdb_added)).1 0 new_index_map) as (v' & E & Hs).
  - apply vec_ok_rd, table_of_ok.
  - vm_compute. reflexivity.
  - vm_compute. reflexivity.
  - vm_compute. reflexivity.
  - vm_compute. reflexivity.
  - exists v', (commit_props 0 (added 10 node0 [item41]) (node_properties_ gdb_added)).1. exact (conj E Hs).
Defined.

(** A committed node with its properties in the table. *)
Definition node1 : node := mk_node 0 UNKNOWN UNKNOWN 0 1.
Definition gdb_stored : demo_gdb :=
  mk_gdb (table_of [stored 10 node1]) vec_new demo_table vec_new demo_dict1 [20] 20 [] (Some (mk_tx 20 [] []))
    new_index_map.

Lemma read_node_refines_witness :
  ∃ v', get_node_description 0 gdb_stored
    = (set_nodes v' gdb_stored, Val (mk_ndescr 0 s_age [(s_age, any_int 41)])).
Proof.
  pose proof (read_node_refines gdb_stored 0 (mk_tx 20 [] []) (stored 10 node1) [item41]) as H.
  assert (describe (P:=pitems) (xid_ (mk_tx 20 [] [])) [item41] (stored 10 node1)
    = (mk_tobj (mk_obj 0 10 INF 20 (Some false) node1) None 1, Val (node1, [item41]))) as E by (vm_compute; reflexivity).
  rewrite E in H. destruct H as (v' & Hr & _).
  - reflexivity.
  - apply vec_ok_rd, table_of_ok.
  - vm_compute. reflexivity.
  - split; [reflexivity|]. split; [reflexivity|constructor].
  - vm_compute. reflexivity.
  - exists v'. rewrite Hr. f_equal.
Defined.

Lemma abort_node_refines_witness :
  ∃ v', abort_node 10 0 gdb_added = (set_nodes v' gdb_added, Val tt) ∧ vec_get v' 0 = None.
Proof.
  destruct (abort_node_refines gdb_added 0 10 (added 10 node0 [item41])
    (abort_version 10 (added 10 node0 [item41])).1 false) as (v' & E & _ & Hg).
  - apply vec_ok_rd, table_of_ok.
  - vm_compute. reflexivity.
  - vm_compute. reflexivity.
  - exists v'. split; [exact E|exact (Hg 0)].
Defined.

Lemma abort_keeps_added_deleted_witness :
  ∃ v1 v2 t, at_node 0 (delete_op false 10 [] []) gdb_added = (set_nodes v1 gdb_added, Val 2%nat)
    ∧ abort_node 10 0 (set_nodes v1 gdb_added) = (set_nodes v2 gdb_added, Val tt)
    ∧ vec_get v2 0 = Some t ∧ (describe 30 [] t).2 = Val (node0, []).
Proof.
  destruct (abort_keeps_added_deleted gdb_added 0 10 node0 [item41] [] []) as (v1 & v2 & t & E1 & E2 & Ht & _ & Hd).
  - split; reflexivity.
  - apply vec_ok_rd, table_of_ok.
  - vm_compute. reflexivity.
  - exists v1, v2, t. split; [exact E1|]. split; [exact E2|]. split; [exact Ht|]. apply Hd. split; reflexivity.
Defined.

(** Two nodes and two relationships from the first to the second, the first of
    them deleted and no longer needed. *)
Definition src_demo : node := mk_node 0 1 UNKNOWN UNKNOWN 1.
Definition dest_demo : node := mk_node 1 UNKNOWN 1 UNKNOWN 1.
Definition rship0 : relationship := mk_rship 0 0 1 UNKNOWN UNKNOWN UNKNOWN 1.
Definition rship1 : relationship := mk_rship 1 0 1 0 0 UNKNOWN 1.
Definition old_obj {B} (b : B) (cts : Z) : tobj B pitems := mk_tobj (mk_obj 0 10 cts 20 (Some false) b) None 1.
Definition gdb_linked (tx : option transaction) : demo_gdb :=
  mk_gdb (table_of [old_obj src_demo INF; old_obj dest_demo INF])
    (table_of [old_obj rship0 20; old_obj rship1 INF]) vec_new vec_new demo_dict1 [] 30 [] tx new_index_map.

Lemma gdb_linked_lists k tx : k = from_list ∨ k = to_list → lists_ok k [] (gdb_linked tx).
Proof.
  intros Hk nid n Hn.
  destruct (vec_get_bounds _ _ _ (vec_ok_rd _ (table_of_ok [old_obj src_demo INF; old_obj dest_demo INF])) Hn) as [H0 H1].
  assert (nid = 0 ∨ nid = 1) as Hnid by (change (nid < 2) in H1; lia).
  assert (vec_get (rships_ (gdb_linked tx)) 0 = Some (old_obj rship0 20)) as E0 by (vm_compute; reflexivity).
  assert (vec_get (rships_ (gdb_linked tx)) 1 = Some (old_obj rship1 INF)) as E1 by (vm_compute; reflexivity).
  assert (∀ h, h = UNKNOWN → list_for k (gdb_linked tx) nid h []) as Hnil.
  { intros h ->. split; [done|by intros i ?%elem_of_nil]. }
  assert (∀ j w, owner_of k rship0 = j → owner_of k rship1 = j → w = 1 →
    next_of k rship1 = 0 → next_of k rship0 = UNKNOWN → list_for k (gdb_linked tx) j w [1; 0]) as Htwo.
  { intros j w Ho0 Ho1 -> Hn1 Hn0. split.
    - split; [done|]. split; [done|]. exists (old_obj rship1 INF). split; [exact E1|].
      split; [exact Hn1|]. split; [done|]. exists (old_obj rship0 20). split; [exact E0|exact Hn0].
    - intros i [-> | [-> | []%elem_of_nil]%elem_of_cons]%elem_of_cons; eauto. }
  destruct Hnid as [-> | ->].
  - assert (n = old_obj src_demo INF) as -> by (vm_compute in Hn; injection Hn as <-; reflexivity).
    destruct Hk as [-> | ->]; [exists [1; 0]|exists []]; (split; [|by intros i _ ?%elem_of_nil]); [by apply Htwo|by apply Hnil].
  - assert (n = old_obj dest_demo INF) as -> by (vm_compute in Hn; injection Hn as <-; reflexivity).
    destruct Hk as [-> | ->]; [exists []|exists [1; 0]]; (split; [|by intros i _ ?%elem_of_nil]); [by apply Hnil|by apply Htwo].
Qed.

Lemma vacuum_relationship_witness :
  ∃ g', vacuum_item (mk_gc 20 0 gc_rship) (gdb_linked None) = (g', Val true)
    ∧ vec_get (rships_ g') 0 = None ∧ lists_ok from_list [0] g' ∧ lists_ok to_list [0] g'.
Proof.
  apply (vacuum_relationship (gdb_linked None) 20 0 (old_obj rship0 20) (old_obj rship0 20)
    (old_obj src_demo INF) (old_obj dest_demo INF) []).
  - apply vec_ok_rd, table_of_ok.
  - apply vec_ok_rd, table_of_ok.
  - discriminate.
  - vm_compute. reflexivity.
  - vm_compute. reflexivity.
  - vm_compute. reflexivity.
  - vm_compute. reflexivity.
  - apply gdb_linked_lists. left. reflexivity.
  - apply gdb_linked_lists. right. reflexivity.
Defined.

(** A node without relationships, and a new one from it. *)
Definition lone : node := mk_node 0 UNKNOWN UNKNOWN UNKNOWN 1.
Definition gdb_link : demo_gdb :=
  mk_gdb (table_of [old_obj lone INF]) (table_of [old_obj rship0 INF]) vec_new vec_new demo_dict1 [30] 30 []
    (Some (mk_tx 30 [] [])) new_index_map.

Lemma link_makes_head_witness : linked from_list gdb_link 0 (old_obj lone INF) Main 0 [] 30.
Proof.
  apply (link_makes_head from_list gdb_link (mk_tx 30 [] []) 0 (old_obj lone INF) Main (main_ (old_obj lone INF)) 0
    (old_obj rship0 INF) []).
  - reflexivity.
  - discriminate.
  - vm_compute. discriminate.
  - apply vec_ok_rd, table_of_ok.
  - apply vec_ok_rd, table_of_ok.
  - vm_compute. reflexivity.
  - split; constructor.
  - constructor; [reflexivity|reflexivity|exact (mk_is_Some _ _ eq_refl)].
  - exists []. reflexivity.
  - apply vec_ok_rd, vec_new_ok.
  - vm_compute. reflexivity.
  - discriminate.
  - reflexivity.
  - reflexivity.
  - apply not_elem_of_nil.
Defined.

(** An integer literal that [std::stoi] cannot convert. *)
Definition s_big : str := replicate 10 "9"%char.
Definition gdb_label : demo_gdb :=
  mk_gdb vec_new vec_new vec_new vec_new demo_dict1 [10] 0 [] (Some (mk_tx 10 [] [])) new_index_map.

Lemma add_node_exception_leaves_node_witness :
  ∃ id v, add_node no_date no_date 0 s_age [(s_age, any_string s_big)] false gdb_label
      = (set_nodes v (set_gdict demo_dict1 gdb_label), Exn out_of_range_std)
    ∧ vec_get v id = Some (ghost 10 (set_node_id id (new_node 1))).
Proof.
  destruct (add_node_exception_leaves_node no_date no_date 0 gdb_label (mk_tx 10 [] []) s_age
    [(s_age, any_string s_big)] false 1 demo_dict1 demo_dict1 out_of_range_std) as (id & v & E & _ & Hg & _).
  - reflexivity.
  - discriminate.
  - apply vec_new_ok.
  - vm_compute. reflexivity.
  - discriminate.
  - reflexivity.
  - vm_compute. reflexivity.
  - exists id, v. exact (conj E Hg).
Defined.

(** A relationship deleted at time 20, with its property record freed, and a
    reader from time 15. *)
Definition freed_table : mem_chunked_vec property_set := (vec_erase 0 (table_of [demo_pset])).1.
Lemma freed_table_rd : vec_rd freed_table.
Proof.
  destruct (vec_erase_ok (table_of [demo_pset]) 0) as (v & E & _ & Hrd & _).
  - apply vec_ok_rd, table_of_ok.
  - vm_compute. by eexists.
  - unfold freed_table. by rewrite E.
Qed.
Definition gdb_deleted : demo_gdb :=
  mk_gdb vec_new (table_of [old_obj (mk_rship 0 0 1 UNKNOWN UNKNOWN 0 1) 20]) vec_new freed_table demo_dict1 [15] 15 []
    (Some (mk_tx 15 [] [])) new_index_map.

Lemma deleted_rship_unreadable_witness : ∃ g', get_rship_description 0 gdb_deleted = (g', Exn unknown_id).
Proof.
  apply (deleted_rship_unreadable gdb_deleted (mk_tx 15 [] []) 0 (old_obj (mk_rship 0 0 1 UNKNOWN UNKNOWN 0 1) 20)).
  - reflexivity.
  - discriminate.
  - apply vec_ok_rd, table_of_ok.
  - apply freed_table_rd.
  - vm_compute. reflexivity.
  - reflexivity.
  - reflexivity.
  - vm_compute. discriminate.
  - vm_compute. reflexivity.
  - vm_compute. discriminate.
  - discriminate.
  - vm_compute. reflexivity.
  - vm_compute. reflexivity.
Defined.
