(* ===== verification/QueryDemo.v ===== *)
(** * QueryDemo: scans, traversals and indexes at concrete databases

    The witnesses of the theorems about the query context and the indexes, and
    what a labelled traversal leaves out. *)

From Stdlib Require Import Ascii Sorting.Sorted.
From S2P Require Import Prelude VecSpec Chunk ChunkedVec VecIter DictSpec IndexSpec BTreeTree IndexMap StringPool Dict Literals.
From S2P Require Import Property PropertyList PropertyMap PropertyTable Demo.
From S2P Require Import Txn Mvto GraphState GraphOps QueryCtx GraphIndex GraphCommit GraphIndexFacts GraphFacts GraphNodes GraphRefine GraphLists.
From S2P Require Import QueryCtx GraphLists QueryFacts ParallelFacts QueryTraversal IndexCreate GraphDemo.

(** Three nodes; the first has three outgoing relationships, in this order 0, 1,
    2, with the labels 1, 2, 1. *)
Definition hub : node := mk_node 0 0 UNKNOWN UNKNOWN 1.
Definition leaf1 : node := mk_node 1 UNKNOWN 0 UNKNOWN 1.
Definition leaf2 : node := mk_node 2 UNKNOWN 1 UNKNOWN 1.
Definition spoke (id next label : Z) : relationship := mk_rship id 0 1 next UNKNOWN UNKNOWN label.
Definition gdb_star : demo_gdb :=
  mk_gdb (table_of [old_obj hub INF; old_obj leaf1 INF; old_obj leaf2 INF])
    (table_of [old_obj (spoke 0 1 1) INF; old_obj (spoke 1 2 2) INF; old_obj (spoke 2 UNKNOWN 1) INF])
    vec_new vec_new demo_dict1 [30] 30 [] (Some (mk_tx 30 [] [])) new_index_map.

Definition star_from : res (list oref) :=
  let s := foreach_variable_from_relationship_of_node 100 hub 1 1 collect (gdb_star, []) in
  match s.2 with Val _ => Val s.1.2 | Exn e => Exn e end.
Definition star_labelled : res (list oref) :=
  let s := foreach_variable_from_relationship_of_node_code 100 hub 1 1 1 collect (gdb_star, []) in
  match s.2 with Val _ => Val s.1.2 | Exn e => Exn e end.
Definition star_filtered : res (list oref) :=
  let s := foreach_from_relationship_of_node_code hub 1 collect (gdb_star, []) in
  match s.2 with Val _ => Val s.1.2 | Exn e => Exn e end.

(** A traversal with a label leaves out relationships of that label: when
    the list has a relationship with another label and others are still waiting,
    the rest of the list is dropped.  Going through the same list without hops
    delivers both relationships with the label. *)
Theorem labelled_traversal_misses :
  star_filtered = Val [(0, Main); (2, Main)] ∧ star_labelled = Val [(0, Main)] ∧ star_from = Val [(0, Main); (1, Main); (2, Main)].
Proof. split_and!; vm_compute; reflexivity. Qed.

(** ** Records of concrete tables *)
Definition all_records {T} `{Inhabited T} (v : mem_chunked_vec T) (P : Z → T → bool) : bool :=
  forallb (λ id, match vec_get v id with Some t => P id t | None => true end) (seqZ 0 (vec_capacity v)).
Lemma all_records_ok {T} `{Inhabited T} (v : mem_chunked_vec T) P id t :
  vec_rd v → all_records v P = true → vec_get v id = Some t → P id t = true.
Proof.
  intros Hrd Hall Ht. destruct (vec_get_bounds _ _ _ Hrd Ht).
  unfold all_records in Hall. rewrite forallb_forall in Hall.
  specialize (Hall id). rewrite Ht in Hall. apply Hall, list_elem_of_In, elem_of_seqZ. lia.
Qed.

Definition scannable_b (x id : Z) (t : nobj) : bool :=
  bool_decide (node_id_ (body_ (main_ t)) = id)
  && (negb (is_valid (main_ t)) || match version_of x t with Val _ => true | Exn e => bool_decide (e = unknown_id) end).
Lemma table_scannable (g : demo_gdb) x : vec_rd (nodes_ g) → vec_dense (nodes_ g) →
  all_records (nodes_ g) (scannable_b x) = true → scannable g x.
Proof.
  intros Hrd Hd Hall. split; [done|done|..].
  - intros id t Ht. pose proof (all_records_ok _ _ _ _ Hrd Hall Ht) as [H _]%andb_true_iff.
    by apply bool_decide_eq_true in H.
  - intros id t Ht Hv. pose proof (all_records_ok _ _ _ _ Hrd Hall Ht) as [_ H]%andb_true_iff.
    rewrite Hv in H. simpl in H. destruct (version_of x t) as [r|e]; [left; by exists r|right].
    apply bool_decide_eq_true in H. by subst.
Qed.

(** Three nodes: one committed, one that transaction 40 has added, and one
    that was deleted at time 35. *)
Definition gdb_scan : demo_gdb :=
  mk_gdb (table_of [old_obj hub INF; added 40 leaf1 []; old_obj leaf2 35])
    vec_new vec_new vec_new demo_dict1 [30; 40] 40 [] (Some (mk_tx 30 [] [])) new_index_map.

Lemma gdb_scan_scannable : scannable gdb_scan 30.
Proof.
  apply table_scannable.
  - apply vec_ok_rd, table_of_ok.
  - right. exists 0%nat. split; [lia|]. vm_compute. by eexists.
  - vm_compute. reflexivity.
Qed.

Lemma nodes_delivers_witness :
  ∃ s refs, nodes collect (gdb_scan, []) = ((s, refs), Val tt) ∧ StronglySorted Z.lt refs.*1 ∧ (0, Main) ∈ refs.
Proof.
  destruct (nodes_delivers gdb_scan (mk_tx 30 [] [])) as (v' & refs & E & _ & Hs & Hr).
  - reflexivity.
  - exact gdb_scan_scannable.
  - exists (set_nodes v' gdb_scan), refs. split; [exact E|]. split; [exact Hs|].
    apply (Hr 0 Main). exists (old_obj hub INF). split_and!; vm_compute; reflexivity.
Defined.

Lemma label_scan_fails_witness :
  (∃ s, nodes_by_label s_name collect (gdb_scan, []) = (s, Exn unknown_id))
  ∧ ∃ s, nodes collect (gdb_scan, []) = (s, Val tt).
Proof.
  apply (label_scan_fails gdb_scan (mk_tx 30 [] []) s_name 1 40 leaf1 []).
  - reflexivity.
  - exact gdb_scan_scannable.
  - vm_compute. reflexivity.
  - discriminate.
  - discriminate.
Defined.

Lemma scan_misses_deleted_witness :
  (∃ g', node_by_id 2 gdb_scan = (g', Val (2, Main)))
  ∧ ∃ s refs, nodes collect (gdb_scan, []) = ((s, refs), Val tt) ∧ 2 ∉ refs.*1.
Proof.
  apply (scan_misses_deleted gdb_scan (mk_tx 30 [] []) 2 (old_obj leaf2 35)).
  - reflexivity.
  - exact gdb_scan_scannable.
  - discriminate.
  - vm_compute. reflexivity.
  - reflexivity.
  - reflexivity.
  - discriminate.
  - reflexivity.
  - discriminate.
Defined.

(** ** Two threads

    The one range of the table is visited by the first task; the calling thread
    looks for further ranges in between. *)
Definition two_turns : list (option nat) :=
  [None; None] ++ replicate 6 (Some 1%nat) ++ [Some 0%nat; None] ++ replicate 6 (Some 0%nat).
Lemma gdb_star_scannable : scannable_all gdb_star 30.
Proof.
  assert (vec_rd (nodes_ gdb_star)) as Hrd by apply vec_ok_rd, table_of_ok. split.
  - apply table_scannable; [done| |vm_compute; reflexivity]. right. exists 0%nat. split; [lia|]. vm_compute. by eexists.
  - intros id t Ht Hv.
    assert (all_records (nodes_ gdb_star) (λ _ t, negb (is_valid (main_ t)) ||
      match version_of 30 t with Val _ => true | Exn _ => false end) = true) as Hall by (vm_compute; reflexivity).
    pose proof (all_records_ok _ _ _ _ Hrd Hall Ht) as H. cbv beta in H. rewrite Hv in H. simpl in H.
    destruct (version_of 30 t) as [r|]; [by exists r|done].
  - intros k Hk. assert (k = 0%nat) as -> by (change (vec_chunks (nodes_ gdb_star)) with 2%nat in Hk; unfold CHUNKS_PER_THREAD in Hk; lia).
    vm_compute. by eexists.
Qed.

Lemma parallel_nodes_delivers_witness :
  ∃ s refs, parallel_nodes two_turns collect (gdb_star, []) = ((s, refs), Val tt) ∧ (2, Main) ∈ refs.
Proof.
  destruct (parallel_nodes_delivers gdb_star (mk_tx 30 [] []) two_turns) as (v' & refs & out & E & _ & _ & _ & Hout).
  - reflexivity.
  - exact gdb_star_scannable.
  - exists (set_nodes v' gdb_star), refs. destruct Hout as [[-> Hin]|[_ Hf]].
    + split; [exact E|]. apply (Hin 2 (old_obj leaf2 INF) Main); vm_compute; reflexivity.
    + exfalso. apply Hf. exists [None; None], (replicate 6 (Some 1%nat) ++ [Some 0%nat; None] ++ replicate 6 (Some 0%nat)).
      split; [reflexivity|]. split; [vm_compute; lia|].
      intros [|[|i]] Hi; [vm_compute; lia..|]. change (S (S i) < 2)%nat in Hi. lia.
Defined.

(** ** A cycle of two nodes *)
Definition cyc0 : node := mk_node 0 0 1 UNKNOWN 1.
Definition cyc1 : node := mk_node 1 1 0 UNKNOWN 1.
Definition gdb_cycle : demo_gdb :=
  mk_gdb (table_of [old_obj cyc0 INF; old_obj cyc1 INF])
    (table_of [old_obj (mk_rship 0 0 1 UNKNOWN UNKNOWN UNKNOWN 1) INF; old_obj (mk_rship 1 1 0 UNKNOWN UNKNOWN UNKNOWN 1) INF])
    vec_new vec_new demo_dict1 [30] 30 [] (Some (mk_tx 30 [] [])) new_index_map.
Definition cycle_adj (nid : Z) : list Z := [nid].

Lemma cycle_closed :
  closed 30 gdb_cycle next_src_rship dest_node from_rship_list cycle_adj (λ nid, nid = 0 ∨ nid = 1).
Proof.
  intros nid [-> | ->].
  - exists Main, (main_ (fetched 30 (old_obj cyc0 INF))). split; [vm_compute; reflexivity|]. split.
    + split; [reflexivity|]. split; [discriminate|]. eexists _, _. split; vm_compute; reflexivity.
    + intros id ->%list_elem_of_singleton. right. vm_compute. reflexivity.
  - exists Main, (main_ (fetched 30 (old_obj cyc1 INF))). split; [vm_compute; reflexivity|]. split.
    + split; [reflexivity|]. split; [discriminate|]. eexists _, _. split; vm_compute; reflexivity.
    + intros id ->%list_elem_of_singleton. left. vm_compute. reflexivity.
Qed.

Lemma variable_relationships_delivered_witness :
  ∃ g' refs, foreach_variable_from_relationship_of_node 100 cyc0 1 3 collect (gdb_cycle, []) = ((g', refs), Val tt)
    ∧ refs ≡ₚ [(0, Main); (1, Main); (0, Main)].
Proof.
  destruct (variable_relationships_delivered gdb_cycle (mk_tx 30 [] []) 0 Main (main_ (fetched 30 (old_obj cyc0 INF))) cycle_adj
    (λ nid, nid = 0 ∨ nid = 1) 1 3) as [H _].
  - reflexivity.
  - apply vec_ok_rd, table_of_ok.
  - apply vec_ok_rd, table_of_ok.
  - exact cycle_closed.
  - left. reflexivity.
  - vm_compute. reflexivity.
  - destruct (H 100%nat) as (g' & refs & E & _ & Hp).
    + vm_compute. lia.
    + exists g', refs. split; [exact E|]. rewrite Hp. vm_compute. reflexivity.
Defined.

(** The list of the hub; the second relationship was changed at time 35. *)
Definition gdb_changed : demo_gdb :=
  mk_gdb (table_of [old_obj hub INF; old_obj leaf1 INF; old_obj leaf2 INF])
    (table_of [old_obj (spoke 0 1 1) INF; old_obj (spoke 1 2 2) 35; old_obj (spoke 2 UNKNOWN 1) INF])
    vec_new vec_new demo_dict1 [30] 40 [] (Some (mk_tx 30 [] [])) new_index_map.
Lemma gdb_changed_list : vlist 30 gdb_changed next_src_rship (from_rship_list hub) [0; 1; 2].
Proof.
  split; [reflexivity|]. split; [discriminate|]. eexists _, _. split; [vm_compute; reflexivity|].
  split; [reflexivity|]. split; [discriminate|]. eexists _, _. split; [vm_compute; reflexivity|].
  split; [reflexivity|]. split; [discriminate|]. eexists _, _. split; vm_compute; reflexivity.
Qed.

Lemma from_relationships_delivers_witness :
  ∃ g', foreach_from_relationship_of_node hub collect (gdb_changed, []) = ((g', [(0, Main); (2, Main)]), Val tt).
Proof.
  destruct (from_relationships_delivers gdb_changed (mk_tx 30 [] []) hub [0; 1; 2]) as (g' & E & _).
  - reflexivity.
  - apply vec_ok_rd, table_of_ok.
  - apply vec_ok_rd, table_of_ok.
  - exact gdb_changed_list.
  - exists g'. rewrite E. f_equal.
Defined.

(** ** Indexes *)

(** An empty index for the property age of the nodes with the label name. *)
Definition imap_age : index_map := ((i ← ix_make; ix_register (index_name s_name s_age) i) new_index_map).1.
Lemma no_trees : ix_trees new_index_map ∅.
Proof. exact new_index_map_trees. Qed.
Lemma imap_age_trees : ix_trees imap_age {[ 0%nat := ∅ ]}.
Proof.
  destruct (ix_make_ok new_index_map ∅ no_trees) as (x1 & i & E1 & _ & Hx1 & _).
  assert (i = 0%nat) as -> by (vm_compute in E1; congruence).
  destruct (ix_register_ok x1 _ (index_name s_name s_age) 0 Hx1) as (x2 & E2 & Hx2 & _).
  { exists ∅. by rewrite lookup_insert_eq. }
  unfold imap_age. rewrite (bind_val _ _ _ _ _ E1), E2. exact Hx2.
Qed.
Definition gdb_indexed : demo_gdb := mk_gdb vec_new vec_new vec_new vec_new demo_dict [] 0 [] None imap_age.

Definition props42 : properties_t := [(s_age, any_int 42)].
Definition entries42 : list (str * option any) := [(s_age, Some (any_int 42))].

Lemma indexed_node_found_witness :
  ∃ id g' g'',
    (begin_transaction 10;; id ← add_node no_date no_date 0 s_name props42 false; _ ← commit_transaction 0; mret id) gdb_indexed
      = (g', Val id)
    ∧ index_find (Some 0%nat) 42 g' = (g', Val (Some id))
    ∧ (on_fst (begin_transaction 20);; index_lookup (Some 0%nat) 42 (λ n s, ((s.1, s.2 ++ [n]), Val tt))) (g', [])
      = ((g'', [(id, Main)]), Val tt).
Proof.
  destruct (indexed_node_found no_date no_date 0 gdb_indexed ∅ {[ 0%nat := ∅ ]} s_name props42 entries42 false 10 20
    0%nat 0%nat s_age (any_int 42) 42 ∅) as (id & g' & g'' & E1 & E2 & E3).
  - split; [done|done|apply vec_new_ok|apply vec_new_ok|apply demo_dict_has].
  - exact imap_age_trees.
  - reflexivity.
  - discriminate.
  - reflexivity.
  - repeat constructor.
  - constructor; [|constructor]. split; [reflexivity|]. split; [split; [discriminate|reflexivity]|reflexivity].
  - apply takes_all_b_ok. vm_compute. reflexivity.
  - vm_compute. congruence.
  - vm_compute. reflexivity.
  - reflexivity.
  - reflexivity.
  - reflexivity.
  - exists id, g', g''. split; [exact E1|]. split; [|exact E3].
    rewrite E2 by (split; [discriminate|reflexivity]). reflexivity.
Defined.

(** Two nodes with the label, the first with the property. *)
Definition person (id plist : Z) : node := mk_node id UNKNOWN UNKNOWN plist 1.
Definition gdb_people : demo_gdb :=
  mk_gdb (table_of [old_obj (person 0 0) INF; old_obj (person 1 UNKNOWN) INF]) vec_new demo_table vec_new demo_dict1
    [30] 30 [] (Some (mk_tx 30 [] [])) new_index_map.

Lemma gdb_people_indexable : indexable gdb_people 30 1 1.
Proof.
  assert (vec_rd (nodes_ gdb_people)) as Hrd by apply vec_ok_rd, table_of_ok. split.
  - apply table_scannable; [exact Hrd| |vm_compute; reflexivity].
    right. exists 0%nat. split; [lia|]. vm_compute. by eexists.
  - intros id t Ht _. destruct (vec_get_bounds _ _ _ Hrd Ht) as [H0 H1].
    assert (id = 0 ∨ id = 1) as Hid by (change (id < 2) in H1; lia).
    destruct Hid as [-> | ->]; vm_compute in Ht; injection Ht as <-; eexists _, _;
      (split; [vm_compute; reflexivity|]); (split; [vm_compute; reflexivity|]); intros _; eexists;
      (split; [vm_compute; reflexivity|vm_compute; split; [discriminate|reflexivity]]).
Qed.

Lemma sorted_ids l1 l2 : StronglySorted Z.lt l1 → StronglySorted Z.lt l2 → (∀ id, id ∈ l1 ↔ id ∈ l2) → l1 = l2.
Proof.
  revert l2. induction l1 as [|a l1 IH]; intros [|b l2] H1 H2 H; [done|..].
  - exfalso. apply (not_elem_of_nil b), H. left.
  - exfalso. apply (not_elem_of_nil a), H. left.
  - apply StronglySorted_inv in H1 as [H1 F1], H2 as [H2 F2]. rewrite Forall_forall in F1, F2.
    assert (a = b) as ->.
    { assert (a ∈ b :: l2) as [? | Ha]%elem_of_cons by (apply H; left); [done|].
      assert (b ∈ a :: l1) as [? | Hb]%elem_of_cons by (apply H; left); [done|].
      specialize (F1 _ Hb). specialize (F2 _ Ha). lia. }
    f_equal. apply IH; [done|done|]. intros id. specialize (H id). rewrite !elem_of_cons in H.
    split; intros Hid; [specialize (F1 _ Hid)|specialize (F2 _ Hid)]; naive_solver lia.
Qed.

Lemma create_index_fills_witness :
  ∃ i g', create_index s_age s_age gdb_people = (g', Val i)
    ∧ ix_trees (index_map_ g') {[ i := {[ 41 := 0; 0 := 1 ]} ]}.
Proof.
  destruct (create_index_fills gdb_people (mk_tx 30 [] []) ∅ s_age s_age) as (ids & i & g' & E & Hs & Hin & _ & Hx & _).
  - reflexivity.
  - exact gdb_people_indexable.
  - exact no_trees.
  - exists i, g'. split; [exact E|]. assert (ids = [0; 1]) as ->; [|exact Hx].
    apply (sorted_ids ids [0; 1] Hs).
    + repeat constructor.
    + intros id. rewrite Hin. split.
      * intros [t Ht]. destruct (vec_get_bounds _ _ _ (vec_ok_rd _ (table_of_ok _)) Ht) as [H0 H1].
        change (id < 2) in H1. assert (id = 0 ∨ id = 1) as [-> | ->] by lia; [left|right; left].
      * intros [-> | [-> | []%elem_of_nil]%elem_of_cons]%elem_of_cons; vm_compute; by eexists.
Defined.

(** A committed node without properties; transaction 30 gives it an age, for
    which there is an index. *)
Definition imap_aged : index_map := ((i ← ix_make; ix_register (index_name s_age s_age) i) new_index_map).1.
Definition gdb_aged (n : nobj) : demo_gdb :=
  mk_gdb (table_of [n]) vec_new vec_new vec_new demo_dict1 [30] 30 [] (Some (mk_tx 30 [] [])) imap_aged.
Definition old_version : dirty_object node pitems :=
  mk_dirty true (mk_obj 0 10 30 20 (Some true) (person 0 UNKNOWN)) [] 1.
Definition new_version : dirty_object node pitems :=
  mk_dirty true (mk_obj 30 30 INF 20 (Some true) (person 0 UNKNOWN)) [mk_item 42 1 p_int] 2.
Definition changing : nobj :=
  mk_tobj (mk_obj 30 10 INF 20 (Some false) (person 0 UNKNOWN)) (Some [new_version; old_version]) 3.

Lemma update_adds_indexed_property_witness :
  vec_get (nodes_ (update_node no_date no_date 0 (0, Main) [(s_age, any_int 42)] []
                     (gdb_aged (old_obj (person 0 UNKNOWN) INF))).1) 0 = Some changing
  ∧ ∃ g', commit_dirty_node 0 30 0 (gdb_aged changing) = (g', Exn undefined_behaviour).
Proof.
  split; [vm_compute; reflexivity|].
  destruct (update_adds_indexed_property 0 (gdb_aged changing) 0 30 changing new_version old_version
    (commit_props 0 changing (node_properties_ (gdb_aged changing))).1 0 {[ 1 := s_age ]} 1 s_age
    [(s_age, Some (any_int 42))] 0%nat 0%nat) as (v' & E & _).
  - apply vec_ok_rd, table_of_ok.
  - vm_compute. reflexivity.
  - vm_compute. reflexivity.
  - vm_compute. reflexivity.
  - vm_compute. reflexivity.
  - exact demo_dict1_has.
  - reflexivity.
  - vm_compute. reflexivity.
  - constructor; [|constructor]. split; simpl; [by vm_compute|apply lookup_singleton_eq|vm_compute; reflexivity].
  - vm_compute. reflexivity.
  - vm_compute. auto.
  - eexists. exact E.
Defined.
