(* ===== verification/ExprDemo.v ===== *)
(** * ExprDemo: expressions and operators on concrete data

    Expressions over the people of [QueryDemo], the node 0 with an age and the
    node 1 without; then pipelines of operators over tuples of numbers. *)

From Stdlib Require Import Ascii Sorting.Sorted.
From S2P Require Import Prelude VecSpec Chunk ChunkedVec VecIter Txn DictSpec IndexSpec StringPool Dict Literals Property PropertyList PropertyMap PropertyTable Demo GraphState GraphOps QueryCtx QResult Expr Qop QopJoins QopAggregates QopUpdates GraphFacts ExprFacts QopFacts QopJoinFacts BTreeTree IndexMap GraphDemo QueryDemo.

Definition no_regex (s re : str) : bool := false.
Notation demo_value := (value_of Z.eqb Z.ltb no_regex zero_item).

(** [$0.age + 1 > 41] with an unsigned one. *)
Definition age_expr : expr demo_gdb :=
  binary gt_predicate (PLUS (variable 0 s_age 1 ty_INT) (UInt64 1)) (Int 41).

Lemma interpret_expression_typed_witness :
  ∃ g', interpret_expression Z.eqb Z.ltb no_regex zero_item age_expr [qr_node (Some (0, Main))] gdb_people
        = (g', Val (qr_int 1)).
Proof.
  destruct (interpret_expression_typed Z.eqb Z.ltb no_regex zero_item gdb_people [qr_node (Some (0, Main))] age_expr)
    as (g' & E & _).
  - apply vec_ok_rd, table_of_ok.
  - apply vec_ok_rd, vec_new_ok.
  - simpl. split; [|done]. split; [|split; [done|split; [by left|by right; left]]].
    exists (qr_int 41). split; vm_compute; reflexivity.
  - exists g'. rewrite E. vm_compute. reflexivity.
Defined.

(** [1 == 1 || $0.age == 5] for the node without an age. *)
Lemma missing_property_spoils_or_witness :
  (∃ g', interpret_bool_expression Z.eqb Z.ltb no_regex zero_item
     (OR (EQ (Int 1) (Int 1)) (EQ (variable 0 s_age 1 ty_INT) (Int 5))) [qr_node (Some (1, Main))] gdb_people = (g', Val false))
  ∧ ∃ g', interpret_bool_expression Z.eqb Z.ltb no_regex zero_item
     (OR (EQ (variable 0 s_age 1 ty_INT) (Int 5)) (EQ (Int 1) (Int 1))) [qr_node (Some (1, Main))] gdb_people = (g', Val true).
Proof.
  apply (missing_property_spoils_or Z.eqb Z.ltb no_regex zero_item gdb_people [qr_node (Some (1, Main))]
    (EQ (Int 1) (Int 1)) 0 s_age 1 ty_INT 5 1).
  - apply vec_ok_rd, table_of_ok.
  - apply vec_ok_rd, vec_new_ok.
  - exists (1, Main), zero_item. split; [reflexivity|]. split; [discriminate|]. split; vm_compute; reflexivity.
  - done.
  - reflexivity.
Defined.

(** A library with one function that doubles its argument; [f($0.age + 1) == 84]
    becomes [2 == 84]. *)
Definition s_double : str := String.list_ascii_of_string "double".
Definition double_it : query_result → M demo_gdb query_result := λ v,
  match v with qr_int i => mret (qr_int (2 * i)) | _ => throw bad_get end.
Definition demo_udf1 (name : str) : res (query_result → M demo_gdb query_result) :=
  if bool_decide (name = s_double) then Val double_it else Exn undefined_behaviour.

Lemma prepare_forgets_variable_witness :
  prepare_expr demo_udf1 (λ _, Exn undefined_behaviour) no_date (λ _, []) 0
    (EQ (func_call [] s_double [PLUS (variable 0 s_age 1 ty_INT) (Int 1)] ty_INT None None) (Int 84)) gdb_people
  = (gdb_people, Val (EQ (Int 2) (Int 84)))
  ∧ demo_value gdb_people [qr_node (Some (0, Main))]
      (EQ (func_call [] s_double [PLUS (variable 0 s_age 1 ty_INT) (Int 1)] ty_INT (Some double_it) None) (Int 84))
    = Val (qr_int 1).
Proof.
  split; [|vm_compute; reflexivity].
  apply (prepare_forgets_variable demo_udf1 (λ _, Exn undefined_behaviour) no_date (λ _, []) 0 gdb_people gdb_people
    [] s_double double_it).
  - discriminate.
  - reflexivity.
  - reflexivity.
Defined.

(** ** Query operators on concrete tuples

    Pipelines over an empty graph; the tuples hold numbers. *)

Definition no_double (b : Z) : str := [].
Definition numbers (l : list Z) : qr_tuple := qr_int <$> l.
Notation st0 := (@nil qr_tuple, false).

(** Joining on the first element of both sides. *)
Definition first_var : var_ref := mk_var 0 UNKNOWN_CODE ty_INT.
Definition first_elem (v : qr_tuple) : query_result := from_option id qr_null (v !! 0%nat).
Definition demo_left : list qr_tuple := [numbers [1; 10]; numbers [2; 20]; numbers [3; 30]].
Definition demo_right : list qr_tuple := [numbers [2; 5]; numbers [1; 6]; numbers [2; 7]].
(** A hash function that tells even from odd. *)
Definition parity (v : query_result) : Z := match v with qr_int i => i mod 2 | _ => 0 end.

Lemma parity_respects v w : variant_eqb Z.eqb v w = true → parity v = parity w.
Proof.
  unfold variant_eqb, parity. intros (E%bool_decide_eq_true & H)%andb_prop. destruct v, w; try discriminate E; try done.
  simpl in H. apply bool_decide_eq_true in H. by subst.
Qed.

(** The person of age 41, joined with numbers by its age. *)
Definition age_var : var_ref := mk_var 0 1 ty_INT.
Definition demo_persons : list qr_tuple := [[qr_node (Some (0, Main))]; numbers [5; 50]].
Definition demo_ages : list qr_tuple := [numbers [41; 5]; numbers [5; 6]; numbers [41; 7]].

Lemma hash_join_is_nested_loop_witness :
  same_end (run_join (hash_join Z.eqb no_double zero_item parity first_var age_var true collect_result) demo_persons demo_ages
      (gdb_people, ((0, ∅), st0)))
    ((feed collect_result [numbers [41; 5] ++ [qr_node (Some (0, Main))]; numbers [41; 7] ++ [qr_node (Some (0, Main))];
                           numbers [5; 6; 5; 50]];; finish collect_result) (gdb_people, st0)).
Proof.
  assert (nested_loop (λ v w, variant_eqb Z.eqb (join_value no_double zero_item gdb_people age_var v)
                                (join_value no_double zero_item gdb_people first_var w)) demo_persons demo_ages
    = [numbers [41; 5] ++ [qr_node (Some (0, Main))]; numbers [41; 7] ++ [qr_node (Some (0, Main))]; numbers [5; 6; 5; 50]])
    as <- by (vm_compute; reflexivity).
  apply (hash_join_is_nested_loop Z.eqb no_double zero_item parity first_var age_var collect_result
    demo_persons demo_ages gdb_people st0).
  - exact parity_respects.
  - repeat (constructor; [eexists; vm_compute; reflexivity|]); constructor.
  - repeat (constructor; [eexists; vm_compute; reflexivity|]); constructor.
  - by intros v g a Hg.
Defined.

(** Sorting by a comparison function, and by the age of a person and then
    downwards by a number. *)
Definition by_first : sort_globals := mk_globals [] (Some (λ v w, match v, w with qr_int i :: _, qr_int j :: _ => bool_decide (i < j)
  | qr_int _ :: _, _ => true | _, _ => false end)).


Lemma built_join_starves_sort_witness :
  ∃ s, run_join (cross_join false (order_by Z.eqb Z.ltb by_first collect_result)) demo_left demo_right
      (empty_gdb, ((0, []), ([], st0))) = ((empty_gdb, s), Val tt)
    ∧ s.2.2 = ([], true).
Proof. apply (built_join_starves_sort Z.eqb Z.ltb by_first demo_left demo_right empty_gdb). Defined.

Definition demo_walk (m : gmap Z (list val_t)) : list Z := (map_to_list m).*1.
Lemma group_by_counts_witness :
  ∃ s ids, (feed (group_by no_double zero_item (λ _, 0) id id demo_walk [int_group] [count_expr] collect_result) (row <$> [7; 9; 7]);;
        finish (group_by no_double zero_item (λ _, 0) id id demo_walk [int_group] [count_expr] collect_result))
      (empty_gdb, (no_groups, st0)) = ((empty_gdb, s), Val tt)
    ∧ s.2 = (counted [7; 9; 7] <$> ids, true) ∧ ids ≡ₚ [9; 7].
Proof.
  apply (group_by_counts no_double zero_item (λ _, 0) id id demo_walk [7; 9; 7] empty_gdb).
  - intros m. reflexivity.
  - repeat constructor; done.
  - reflexivity.
Defined.
Lemma group_by_merges_keys_witness :
  ∃ s, (feed (group_by no_double zero_item (λ _, 0) id id demo_walk [int_group; second_group] [count_expr] collect_result)
          [[qr_int 8; qr_int 21]; [qr_int 6; qr_int 24]];;
        finish (group_by no_double zero_item (λ _, 0) id id demo_walk [int_group; second_group] [count_expr] collect_result))
      (empty_gdb, (no_groups, st0)) = ((empty_gdb, s), Val tt)
    ∧ s.2 = ([[qr_int 8; qr_int 21; qr_int 2]], true).
Proof. apply (group_by_merges_keys no_double zero_item (λ _, 0) id id demo_walk empty_gdb). intros m. reflexivity. Defined.

(** ** More behaviour *)

(** Different tuples with the same string are taken for duplicates. *)
Example distinct_drops_different :
  let o := distinct_tuples (λ _, []) no_double collect_result in
  (feed o [numbers [1; 12]; numbers [11; 2]] (empty_gdb, ([], st0))).1.2.2 = ([numbers [1; 12]], false).
Proof. vm_compute. reflexivity. Qed.

(** The greatest of negative doubles is the least positive normal double. *)
Definition minus_one : Z := 2 ^ 63 + 1023 * 2 ^ 52.
Definition max_expr : aggr_expr := mk_aggr f_max 0 [] UNKNOWN_CODE double_type.
Example max_of_negatives :
  let o := aggregate no_double zero_item [max_expr] collect_result in
  ((feed o [[qr_double minus_one]];; finish o) (empty_gdb, (init_aggregates [max_expr], st0))).1.2.2 = ([[qr_double double_min]], true).
Proof. vm_compute. reflexivity. Qed.

(** A sum of [uint64_t] is a null node. *)
Definition sum_expr : aggr_expr := mk_aggr f_sum 0 [] UNKNOWN_CODE uint64_type.
Example sum_of_uint64 :
  let o := aggregate no_double zero_item [sum_expr] collect_result in
  ((feed o [[qr_uint64 3]; [qr_uint64 4]];; finish o) (empty_gdb, (init_aggregates [sum_expr], st0))).1.2.2 = ([[no_result]], true).
Proof. vm_compute. reflexivity. Qed.
