(* ===== verification/ImportDemo.v ===== *)
(** * ImportDemo: imports at concrete databases

    The witnesses of the theorems about the import, and ids of nodes that an
    import of relationships does not find. *)

From Stdlib Require Import Ascii.
From S2P Require Import Prelude VecSpec Chunk ChunkedVec VecIter DictSpec IndexSpec BTreeTree IndexMap StringPool Dict Literals.
From S2P Require Import Property PropertyList PropertyMap PropertyTable Demo.
From S2P Require Import Txn Mvto GraphState GraphOps GraphIndex GraphFacts GraphNodes GraphLists GraphImport GraphImportFacts GraphDemo.

Lemma import_node_read_witness :
  ∃ id g' g'' m', import_node no_date no_date 0 s_name props1 empty_gdb = (g', Val id)
    ∧ (begin_transaction 20;; get_node_description id) g' = (g'', Val (mk_ndescr id s_name (valued entries1)))
    ∧ vec_get (nodes_ empty_gdb) id = None
    ∧ (∀ j, j ≠ id → vec_get (nodes_ g') j = vec_get (nodes_ empty_gdb) j)
    ∧ at_rest g' m'.
Proof.
  apply (import_node_read no_date no_date 0 empty_gdb ∅ s_name props1 entries1 20 empty_gdb_at_rest).
  - done.
  - exact props1_sorted.
  - exact props1_canonical.
  - apply takes_all_b_ok. vm_compute. reflexivity.
  - vm_compute. congruence.
Defined.

(** A relationship from the destination of the others to their source. *)
Lemma import_relationship_links_witness :
  ∃ c rid g' out, d_insert s_age demo_dict1 = ((d_insert s_age demo_dict1).1, Val c)
    ∧ import_relationship no_date no_date 0 1 0 s_age [] (gdb_linked None) = (g', out)
    ∧ vec_get (rships_ (gdb_linked None)) rid = None ∧ lists_ok from_list [] g' ∧ lists_ok to_list [] g'
    ∧ import_result (gdb_linked None) 1 0 c (old_obj dest_demo INF) (old_obj src_demo INF) rid out g'.
Proof.
  assert (takes_b demo_dict1 s_age = true) as Ht by (vm_compute; reflexivity).
  apply takes_b_ok in Ht as [Hn Hf].
  apply (import_relationship_links no_date no_date 0 (gdb_linked None) {[ 1 := s_age ]} 1 0
    (old_obj dest_demo INF) (old_obj src_demo INF) s_age []).
  - apply vec_ok_rd, table_of_ok.
  - apply table_of_ok.
  - vm_compute. discriminate.
  - exact demo_dict1_has.
  - exact Hn.
  - exact Hf.
  - vm_compute. reflexivity.
  - vm_compute. reflexivity.
  - apply gdb_linked_lists. left. reflexivity.
  - apply gdb_linked_lists. right. reflexivity.
Defined.

(** One property, and an empty field behind it. *)
Lemma empty_last_field_loses_witness :
  let r := append_typed_strings no_date no_date 0 0 [1; 6] [p_int; p_int] [["7"%char]; []]
             (vec_new : mem_chunked_vec property_set, demo_dict1) in
  stores_nothing vec_new UNKNOWN r ∧ r.2 = Val UNKNOWN.
Proof.
  split; [|vm_compute; reflexivity].
  apply (empty_last_field_loses no_date no_date 0 0 [1; 6] [p_int; p_int] [["7"%char]; []]).
  - reflexivity.
  - reflexivity.
  - vm_compute. lia.
Defined.

(** Two imports whose second rows differ. *)
Definition import_demo : import_st := mk_import (gdb_linked None) None None.
Definition s_7 : str := ["7"]%char.
Definition s_8 : str := ["8"]%char.
Definition typed_demo (rows : list (list str)) : M import_st Z :=
  import_typed_rship_rows no_date no_date 0 1 (s_name, s_age) (s_name, s_age) [1] 2 [p_int] [s_7] rows.
Lemma typed_rows_repeat_first_witness :
  typed_demo [[s_7; s_7; s_8]] import_demo = typed_demo [[s_7; s_7; s_7]] import_demo.
Proof.
  apply (typed_rows_repeat_first no_date no_date 0 1 (s_name, s_age) (s_name, s_age) [1] 2 [p_int] [s_7]
    [[s_7; s_7; s_8]] [[s_7; s_7; s_7]] import_demo).
  - discriminate.
  - constructor; [reflexivity|constructor].
Defined.

(** ** Small ids

    Three nodes: the integers 4217 and 5000000000 as property [age], and no
    property at all. *)
Definition s_small : str := ["4"; "2"; "1"; "7"]%char.
Definition s_large : str := ["5"; "0"; "0"; "0"; "0"; "0"; "0"; "0"; "0"; "0"]%char.
Definition import_three : M demo_gdb (Z * Z * Z) :=
  label ← on_dict (d_insert s_name);
  key ← on_dict (d_insert s_age);
  a ← import_typed_node_strings no_date no_date 0 label [key] [get_datatype s_small] [s_small];
  b ← import_typed_node_strings no_date no_date 0 label [key] [get_datatype s_large] [s_large];
  c ← import_typed_node_strings no_date no_date 0 label [] [] [];
  mret (a, b, c).
(** The node whose property is the number, and the one an import of
    relationships takes for it. *)
Definition found (field : str) : option (Z * Z) :=
  match import_three empty_gdb with
  | (g, Val _) =>
    match get_node_id_for_property (d_lookup_string (dict_ g) s_name) (d_lookup_string (dict_ g) s_age)
            (match stoll field with Val k => k | Exn _ => 0 end) g,
          node_id_from_db s_name s_age field g with
    | (_, Val a), (_, Val b) => Some (a, b)
    | _, _ => None
    end
  | _ => None
  end.

(** A relationship whose end is named by an integer that [int] can hold gets
    the wrong node: the field counts as a quoted string, its inner characters
    are no word of the dictionary, and the code 0 for that equals the number
    that stands for a property which is missing, so the node without the property
    is taken instead of the one with the number.  An integer beyond [int] finds its
    node. *)
Theorem small_ids_find_wrong_node : found s_small = Some (0, 2) ∧ found s_large = Some (1, 1).
Proof. split; vm_compute; reflexivity. Qed.
