(* ===== verification/LruList.v ===== *)
(** * LruList: the list of pages by last use (src/bp_file/lru_list.hpp, lru_list.cpp)

    A doubly linked list between two sentinels; the least recently used page is
    behind the head.  Nodes are in a heap, named by address; reading or writing
    through a null or dangling pointer is undefined behaviour.  The mutex
    serialises the calls. *)

From stdpp Require Import gmap.
From S2P Require Import Prelude.

Record lru_node : Type := mk_lnode { ln_pid : Z; ln_prev : option nat; ln_next : option nat }.
Record lru_list : Type := mk_lru {
  lru_head : nat;
  lru_tail : nat;
  lru_size : Z;               (* [size_] *)
  lru_heap : gmap nat lru_node;
  lru_fresh : nat             (* the next address *)
}.
Notation op := (M lru_list).

(** ** Access through pointers *)
Definition set_heap (h : gmap nat lru_node) (t : lru_list) : lru_list :=
  mk_lru (lru_head t) (lru_tail t) (lru_size t) h (lru_fresh t).
Definition set_size (n : Z) (t : lru_list) : lru_list :=
  mk_lru (lru_head t) (lru_tail t) n (lru_heap t) (lru_fresh t).
Definition lru_deref (p : option nat) : op (nat * lru_node) :=
  t ← get_st;
  match p with
  | Some a => match lru_heap t !! a with Some n => mret (a, n) | None => throw undefined_behaviour end
  | None => throw undefined_behaviour
  end.
(** [p->next = q] and [p->prev = q] *)
Definition set_lnext (p q : option nat) : op unit :=
  n ← lru_deref p;
  modify (λ t, set_heap (<[n.1 := mk_lnode (ln_pid n.2) (ln_prev n.2) q]> (lru_heap t)) t).
Definition set_lprev (p q : option nat) : op unit :=
  n ← lru_deref p;
  modify (λ t, set_heap (<[n.1 := mk_lnode (ln_pid n.2) q (ln_next n.2)]> (lru_heap t)) t).
Definition get_lnext (p : option nat) : op (option nat) := n ← lru_deref p; mret (ln_next n.2).
Definition get_lprev (p : option nat) : op (option nat) := n ← lru_deref p; mret (ln_prev n.2).

(** [new node(pid)] and [delete n] *)
Definition new_lnode (pid : Z) : op nat :=
  t ← get_st;
  modify (λ t, mk_lru (lru_head t) (lru_tail t) (lru_size t)
                 (<[lru_fresh t := mk_lnode pid None None]> (lru_heap t)) (S (lru_fresh t)));;
  mret (lru_fresh t).
Definition delete_lnode (a : nat) : op unit := modify (λ t, set_heap (delete a (lru_heap t)) t).

(** [lru_list()] *)
Definition new_lru : lru_list :=
  mk_lru 0 1 0 {[0%nat := mk_lnode UNKNOWN None (Some 1%nat); 1%nat := mk_lnode UNKNOWN (Some 0%nat) None]} 2.

(** ** Operations *)
Definition add_to_mru (pid : Z) : op nat :=
  n ← new_lnode pid; t ← get_st; let tail := Some (lru_tail t) in
  set_lnext (Some n) tail;;
  p ← get_lprev tail; set_lprev (Some n) p;;
  p ← get_lprev tail; set_lnext p (Some n);;
  set_lprev tail (Some n);;
  modify (λ t, set_size (u64 (lru_size t + 1)) t);; mret n.

Definition add_to_lru (pid : Z) : op nat :=
  n ← new_lnode pid; t ← get_st; let head := Some (lru_head t) in
  set_lprev (Some n) head;;
  x ← get_lnext head; set_lnext (Some n) x;;
  x ← get_lnext head; set_lprev x (Some n);;
  set_lnext head (Some n);;
  modify (λ t, set_size (u64 (lru_size t + 1)) t);; mret n.

(** The iterator [begin()] is the node [lru()]; [end()] is the tail. *)
Definition lru : op (option nat) := t ← get_st; get_lnext (Some (lru_head t)).

Definition move_to_mru (n : option nat) : op unit :=
  t ← get_st; let tail := Some (lru_tail t) in
  pn ← get_lprev n; nn ← get_lnext n;
  set_lnext pn nn;; set_lprev nn pn;;
  set_lnext n tail;;
  p ← get_lprev tail; set_lprev n p;;
  p ← get_lprev tail; set_lnext p n;;
  set_lprev tail n.

Definition remove_lru_node : op Z :=
  t ← get_st;
  if bool_decide (lru_size t = 0) then mret UNKNOWN
  else
    let head := Some (lru_head t) in
    n ← get_lnext head;
    x ← get_lnext n; set_lprev x head;;
    x ← get_lnext n; set_lnext head x;;
    d ← lru_deref n;
    delete_lnode d.1;;
    modify (λ t, set_size (u64 (lru_size t - 1)) t);; mret (ln_pid d.2).

(** The node stays allocated. *)
Definition lru_remove (n : option nat) : op unit :=
  pn ← get_lprev n; nn ← get_lnext n;
  set_lnext pn nn;; set_lprev nn pn;;
  modify (λ t, set_size (u64 (lru_size t - 1)) t).

(** A list without a cycle has fewer nodes than the heap. *)
Fixpoint clear_loop (fuel : nat) (n : option nat) : op unit :=
  match fuel with
  | O => throw no_return
  | S f =>
    t ← get_st;
    if bool_decide (n = Some (lru_tail t)) then mret tt
    else d ← lru_deref n; delete_lnode d.1;; clear_loop f (ln_next d.2)
  end.
Definition lru_clear : op unit :=
  n ← lru; t ← get_st;
  clear_loop (S (size (lru_heap t))) n;;
  modify (set_size 0).

(** ** The list a heap stands for: addresses with their pages *)
Definition nextp (h : gmap nat lru_node) (a : nat) : option nat := h !! a ≫= ln_next.
Definition prevp (h : gmap nat lru_node) (a : nat) : option nat := h !! a ≫= ln_prev.

(** Nodes in a row, each linked with the next one. *)
Fixpoint dll (h : gmap nat lru_node) (A : list nat) : Prop :=
  match A with
  | [] => True
  | a :: A' => match A' with
               | [] => True
               | b :: _ => nextp h a = Some b ∧ prevp h b = Some a
               end ∧ dll h A'
  end.

Record lru_ok (t : lru_list) (l : list (nat * Z)) : Prop := {
  lru_dll : dll (lru_heap t) (lru_head t :: l.*1 ++ [lru_tail t]);
  lru_nodup : NoDup (lru_head t :: l.*1 ++ [lru_tail t]);
  lru_pids : Forall (λ e, ln_pid <$> lru_heap t !! e.1 = Some e.2) l;
  lru_alloc : Forall (λ a, is_Some (lru_heap t !! a)) (lru_head t :: l.*1 ++ [lru_tail t]);
  lru_below : ∀ a, is_Some (lru_heap t !! a) → (a < lru_fresh t)%nat;
  lru_len : lru_size t = Z.of_nat (length l);
  lru_max : Z.of_nat (length l) < two64
}.

(** ** The linked list behaves as a list

    Every operation of [LruList] on a well-formed list, as an operation on the
    list of its nodes; [clear] leaves the sentinels pointing to deleted nodes. *)

(** ** Rows of nodes *)
Lemma dll_cons2 h a b A : dll h (a :: b :: A) = ((nextp h a = Some b ∧ prevp h b = Some a) ∧ dll h (b :: A)).
Proof. done. Qed.
Lemma dll_app h A x B : dll h (A ++ x :: B) ↔ dll h (A ++ [x]) ∧ dll h (x :: B).
Proof.
  induction A as [|a A IH]; cbn [app].
  - split; [intros H; split; [by repeat split|exact H]|by intros [_ H]].
  - assert (∀ C, dll h (a :: C) ↔ match C with [] => True | b :: _ => nextp h a = Some b ∧ prevp h b = Some a end ∧ dll h C) as E by done.
    rewrite !E, IH. destruct A as [|b A]; cbn [app]; tauto.
Qed.
(** A row depends on the successors of all but its last and the predecessors of
    all but its first node. *)
Lemma dll_frame h h' A : dll h A →
  (∀ A1 a b A2, A = A1 ++ a :: b :: A2 → nextp h' a = nextp h a ∧ prevp h' b = prevp h b) → dll h' A.
Proof.
  induction A as [|a A IH]; [done|]. intros H Hf. destruct A as [|b A]; [done|].
  rewrite dll_cons2 in H |- *. destruct H as [[Hn Hp] H]. destruct (Hf [] a b A eq_refl) as [-> ->]. split; [done|].
  apply IH; [exact H|]. intros A1 a' b' A2 E. apply (Hf (a :: A1) a' b' A2). by rewrite E.
Qed.
Lemma dll_next h A a b B : dll h (A ++ a :: b :: B) → nextp h a = Some b ∧ prevp h b = Some a.
Proof. intros H. apply dll_app in H as [_ H]. apply H. Qed.

(** Taking a node out and putting one in, whatever else the heap holds. *)
Lemma dll_unlink h h' A x n y B : dll h (A ++ x :: n :: y :: B) → NoDup (A ++ x :: n :: y :: B) →
  (∀ a, a ≠ x → nextp h' a = nextp h a) → (∀ a, a ≠ y → prevp h' a = prevp h a) →
  nextp h' x = Some y → prevp h' y = Some x → dll h' (A ++ x :: y :: B).
Proof.
  intros H Hnd Hn Hp Ex Ey. apply dll_app in H as [H1 H2]. rewrite !dll_cons2 in H2. destruct H2 as (_ & _ & H3).
  apply NoDup_app in Hnd as (_ & Hd & Hnd). apply NoDup_cons in Hnd as [Hx Hnd]. apply NoDup_cons in Hnd as [_ Hnd].
  apply dll_app. split.
  - apply (dll_frame h); [done|]. intros A1 a b A2 E.
    assert (a ∈ A) as Ha.
    { destruct A2 as [|c A2] using rev_ind.
      - change (A1 ++ [a; b]) with (A1 ++ [a] ++ [b]) in E. rewrite (assoc app) in E. apply app_inj_tail in E as [-> _]. set_solver.
      - rewrite app_comm_cons, app_comm_cons, (assoc app) in E. apply app_inj_tail in E as [-> _]. set_solver. }
    split; [apply Hn|apply Hp]; [intros ->; eapply Hd; [exact Ha|set_solver]|].
    intros ->. assert (y ∈ A ++ [x]) as [Hy|Hy]%elem_of_app by (rewrite E; set_solver);
      [eapply Hd; [exact Hy|set_solver]|]. set_solver.
  - rewrite dll_cons2. split; [done|]. apply (dll_frame h); [done|]. intros A1 a b A2 E.
    assert (b ∈ B) as Hb by (destruct A1 as [|c A1]; injection E as -> ->; set_solver).
    split; [apply Hn|apply Hp].
    + intros ->. apply Hx. assert (x ∈ y :: B) by (rewrite E; set_solver). set_solver.
    + intros ->. apply NoDup_cons in Hnd as [Hy _]. set_solver.
Qed.

Lemma dll_link h h' A x n y B : dll h (A ++ x :: y :: B) → NoDup (A ++ x :: y :: B) → n ∉ A ++ x :: y :: B →
  (∀ a, a ≠ x → a ≠ n → nextp h' a = nextp h a) → (∀ a, a ≠ y → a ≠ n → prevp h' a = prevp h a) →
  nextp h' x = Some n → prevp h' n = Some x → nextp h' n = Some y → prevp h' y = Some n → dll h' (A ++ x :: n :: y :: B).
Proof.
  intros H Hnd Hnn Hn Hp Ex En En' Ey. apply dll_app in H as [H1 H2]. rewrite dll_cons2 in H2. destruct H2 as (_ & H3).
  apply NoDup_app in Hnd as (_ & Hd & Hnd). apply NoDup_cons in Hnd as [Hx Hnd].
  apply dll_app. split.
  - apply (dll_frame h); [done|]. intros A1 a b A2 E.
    assert (a ∈ A) as Ha.
    { destruct A2 as [|c A2] using rev_ind.
      - change (A1 ++ [a; b]) with (A1 ++ [a] ++ [b]) in E. rewrite (assoc app) in E. apply app_inj_tail in E as [-> _]. set_solver.
      - rewrite app_comm_cons, app_comm_cons, (assoc app) in E. apply app_inj_tail in E as [-> _]. set_solver. }
    assert (b ∈ A ++ [x]) as Hb by (rewrite E; set_solver).
    split; [apply Hn|apply Hp]; [intros ->; eapply Hd; [exact Ha|set_solver]|set_solver| |set_solver].
    intros ->. apply elem_of_app in Hb as [Hb|Hb]; [eapply Hd; [exact Hb|set_solver]|]. set_solver.
  - rewrite !dll_cons2. split_and!; try done. apply (dll_frame h); [done|]. intros A1 a b A2 E.
    assert (b ∈ B) as Hb by (destruct A1 as [|c A1]; injection E as -> ->; set_solver).
    assert (a ∈ y :: B) as Ha by (rewrite E; set_solver).
    split; [apply Hn|apply Hp]; [set_solver|set_solver| |set_solver].
    intros ->. apply NoDup_cons in Hnd as [Hy _]. set_solver.
Qed.

(** ** Assignments to pointers as heap updates *)
Definition hnext (a : nat) (q : option nat) (h : gmap nat lru_node) : gmap nat lru_node :=
  alter (λ n, mk_lnode (ln_pid n) (ln_prev n) q) a h.
Definition hprev (a : nat) (q : option nat) (h : gmap nat lru_node) : gmap nat lru_node :=
  alter (λ n, mk_lnode (ln_pid n) q (ln_next n)) a h.

Lemma nextp_hnext a q h b : is_Some (h !! a) → nextp (hnext a q h) b = if decide (b = a) then q else nextp h b.
Proof.
  intros [n Hn]. unfold nextp, hnext. case_decide as E; [subst b|].
  - by rewrite lookup_alter_eq, Hn.
  - by rewrite lookup_alter_ne by done.
Qed.
Lemma nextp_hprev a q h b : nextp (hprev a q h) b = nextp h b.
Proof. unfold nextp, hprev. destruct (decide (b = a)) as [->|]; [rewrite lookup_alter_eq; by destruct (h !! a)|by rewrite lookup_alter_ne]. Qed.
Lemma prevp_hprev a q h b : is_Some (h !! a) → prevp (hprev a q h) b = if decide (b = a) then q else prevp h b.
Proof.
  intros [n Hn]. unfold prevp, hprev. case_decide as E; [subst b|].
  - by rewrite lookup_alter_eq, Hn.
  - by rewrite lookup_alter_ne by done.
Qed.
Lemma prevp_hnext a q h b : prevp (hnext a q h) b = prevp h b.
Proof. unfold prevp, hnext. destruct (decide (b = a)) as [->|]; [rewrite lookup_alter_eq; by destruct (h !! a)|by rewrite lookup_alter_ne]. Qed.
Lemma hnext_some a q h b : is_Some (hnext a q h !! b) ↔ is_Some (h !! b).
Proof. unfold hnext. by rewrite lookup_alter_is_Some. Qed.
Lemma hprev_some a q h b : is_Some (hprev a q h !! b) ↔ is_Some (h !! b).
Proof. unfold hprev. by rewrite lookup_alter_is_Some. Qed.
Lemma hnext_pid a q h b : ln_pid <$> hnext a q h !! b = ln_pid <$> h !! b.
Proof. unfold hnext. destruct (decide (b = a)) as [->|]; [rewrite lookup_alter_eq; by destruct (h !! a)|by rewrite lookup_alter_ne]. Qed.
Lemma hprev_pid a q h b : ln_pid <$> hprev a q h !! b = ln_pid <$> h !! b.
Proof. unfold hprev. destruct (decide (b = a)) as [->|]; [rewrite lookup_alter_eq; by destruct (h !! a)|by rewrite lookup_alter_ne]. Qed.

Lemma lru_deref_some t a n : lru_heap t !! a = Some n → lru_deref (Some a) t = (t, Val (a, n)).
Proof. intros H. unfold lru_deref, get_st, mbind, M_bind. by rewrite H. Qed.
Lemma set_lnext_some t a q : is_Some (lru_heap t !! a) → set_lnext (Some a) q t = (set_heap (hnext a q (lru_heap t)) t, Val tt).
Proof.
  intros [n Hn]. unfold set_lnext. rewrite (bind_val _ _ _ _ _ (lru_deref_some _ _ _ Hn)). unfold modify. cbn.
  unfold hnext. by rewrite (alter_alt_Some _ _ _ _ Hn).
Qed.
Lemma set_lprev_some t a q : is_Some (lru_heap t !! a) → set_lprev (Some a) q t = (set_heap (hprev a q (lru_heap t)) t, Val tt).
Proof.
  intros [n Hn]. unfold set_lprev. rewrite (bind_val _ _ _ _ _ (lru_deref_some _ _ _ Hn)). unfold modify. cbn.
  unfold hprev. by rewrite (alter_alt_Some _ _ _ _ Hn).
Qed.
Lemma get_lnext_some t a : is_Some (lru_heap t !! a) → get_lnext (Some a) t = (t, Val (nextp (lru_heap t) a)).
Proof. intros [n Hn]. unfold get_lnext, nextp. rewrite (bind_val _ _ _ _ _ (lru_deref_some _ _ _ Hn)). by rewrite Hn. Qed.
Lemma get_lprev_some t a : is_Some (lru_heap t !! a) → get_lprev (Some a) t = (t, Val (prevp (lru_heap t) a)).
Proof. intros [n Hn]. unfold get_lprev, prevp. rewrite (bind_val _ _ _ _ _ (lru_deref_some _ _ _ Hn)). by rewrite Hn. Qed.

(** Side conditions: the nodes are allocated. *)
Ltac alloc := repeat first [rewrite hnext_some | rewrite hprev_some]; eauto.
Ltac heap_eq :=
  repeat first
    [ rewrite nextp_hprev | rewrite prevp_hnext
    | rewrite nextp_hnext by alloc | rewrite prevp_hprev by alloc ].
Ltac cases := repeat (first [rewrite decide_True by congruence | rewrite decide_False by congruence]); try done.

(** One access through a pointer to an allocated node. *)
Ltac pstep L := erewrite bind_val; [|apply L; cbn; alloc]; cbn [set_heap lru_head lru_tail lru_size lru_heap lru_fresh].

(** The neighbours of a node in the list. *)
Lemma around (head tail : nat) (l1 l2 : list (nat * Z)) n :
  ∃ A x y B, head :: (l1 ++ n :: l2).*1 ++ [tail] = A ++ x :: n.1 :: y :: B
    ∧ head :: (l1 ++ l2).*1 ++ [tail] = A ++ x :: y :: B.
Proof.
  destruct (exists_last (l := head :: l1.*1)) as (A & x & Ex); [done|].
  destruct (l2.*1 ++ [tail]) as [|y B] eqn:Ey; [by destruct l2|].
  exists A, x, y, B. rewrite !fmap_app, fmap_cons, <-!(assoc app). cbn [app].
  rewrite !app_comm_cons, Ex, <-!(assoc app). cbn [app]. by rewrite Ey.
Qed.
(** The last node before the tail. *)
Lemma before_tail (head tail : nat) (L : list nat) : ∃ A x, head :: L ++ [tail] = A ++ [x; tail] ∧ head :: L = A ++ [x].
Proof.
  destruct (exists_last (l := head :: L)) as (A & x & Ex); [done|].
  exists A, x. rewrite app_comm_cons, Ex, <-(assoc app). done.
Qed.

Lemma lru_alloc_at t l a : lru_ok t l → a ∈ lru_head t :: l.*1 ++ [lru_tail t] → is_Some (lru_heap t !! a).
Proof. intros H Ha. pose proof (lru_alloc _ _ H) as Hf. rewrite Forall_forall in Hf. by apply Hf. Qed.

(** ** Taking a node out *)

(** The heap after [pn->next = nn; nn->prev = pn]. *)
Definition unlinked (x y : nat) (h : gmap nat lru_node) : gmap nat lru_node :=
  hprev y (Some x) (hnext x (Some y) h).
Lemma unlinked_some x y h a : is_Some (unlinked x y h !! a) ↔ is_Some (h !! a).
Proof. unfold unlinked. by rewrite hprev_some, hnext_some. Qed.
Lemma unlinked_pid x y h a : ln_pid <$> unlinked x y h !! a = ln_pid <$> h !! a.
Proof. unfold unlinked. by rewrite hprev_pid, hnext_pid. Qed.

Lemma unlink_dll t l1 n l2 : lru_ok t (l1 ++ n :: l2) →
  ∃ x y, prevp (lru_heap t) n.1 = Some x ∧ nextp (lru_heap t) n.1 = Some y
    ∧ is_Some (lru_heap t !! n.1) ∧ is_Some (lru_heap t !! x) ∧ is_Some (lru_heap t !! y)
    ∧ dll (unlinked x y (lru_heap t)) (lru_head t :: (l1 ++ l2).*1 ++ [lru_tail t])
    ∧ NoDup (n.1 :: lru_head t :: (l1 ++ l2).*1 ++ [lru_tail t])
    ∧ (∀ a, a ∈ n.1 :: lru_head t :: (l1 ++ l2).*1 ++ [lru_tail t] → is_Some (lru_heap t !! a)).
Proof.
  intros H. pose proof (λ a, lru_alloc_at _ _ a H) as Hal.
  destruct (around (lru_head t) (lru_tail t) l1 l2 n) as (A & x & y & B & E1 & E2).
  pose proof (lru_dll _ _ H) as Hd. pose proof (lru_nodup _ _ H) as Hnd. rewrite E1 in Hd, Hnd, Hal.
  pose proof (dll_next _ _ _ _ _ Hd) as [Nx Pn].
  assert (nextp (lru_heap t) n.1 = Some y ∧ prevp (lru_heap t) y = Some n.1) as [Nn Py].
  { apply (dll_next _ (A ++ [x]) _ _ B). by rewrite <-(assoc app). }
  assert (is_Some (lru_heap t !! n.1)) by (apply Hal; set_solver).
  assert (is_Some (lru_heap t !! x)) by (apply Hal; set_solver).
  assert (is_Some (lru_heap t !! y)) by (apply Hal; set_solver).
  exists x, y. rewrite E2. split_and!; try done.
  - apply (dll_unlink (lru_heap t) _ A x n.1 y B); try done; intros; unfold unlinked; heap_eq; cases.
  - revert Hnd. clear. rewrite !NoDup_cons, !NoDup_app, !NoDup_cons. set_solver.
  - intros a Ha. apply Hal. set_solver.
Qed.

Lemma lru_remove_ok t l1 n l2 : lru_ok t (l1 ++ n :: l2) →
  ∃ t', lru_remove (Some n.1) t = (t', Val tt) ∧ lru_ok t' (l1 ++ l2)
        ∧ lru_head t' = lru_head t ∧ lru_tail t' = lru_tail t.
Proof.
  intros H. destruct (unlink_dll _ _ _ _ H) as (x & y & Pn & Nn & An & Ax & Ay & Hd & Hnd & Hal).
  exists (set_size (u64 (lru_size t - 1)) (set_heap (unlinked x y (lru_heap t)) t)). split_and!; [| |done..].
  - unfold lru_remove. rewrite (bind_val _ _ _ _ _ (get_lprev_some _ _ An)), Pn.
    rewrite (bind_val _ _ _ _ _ (get_lnext_some _ _ An)), Nn.
    pstep set_lnext_some. pstep set_lprev_some. done.
  - destruct H as [_ _ H3 H4 H5 H6 H7]. split; cbn [set_size set_heap lru_head lru_tail lru_size lru_heap lru_fresh].
    + exact Hd.
    + by apply NoDup_cons in Hnd as [_ Hnd].
    + rewrite Forall_app, Forall_cons in H3. rewrite Forall_app. destruct H3 as (Ha & _ & Hb).
      split; eapply Forall_impl; [exact Ha| |exact Hb|]; intros e He; cbn in *; by rewrite unlinked_pid.
    + rewrite Forall_forall. intros a Ha. apply unlinked_some. apply Hal. by right.
    + intros a Ha%unlinked_some. by apply H5.
    + rewrite H6. rewrite !length_app in *. cbn [length] in *. unfold u64. rewrite Z.mod_small; lia.
    + rewrite !length_app in *. cbn [length] in *. lia.
Qed.

(** ** Putting a node in front of the tail *)

(** The heap after [n->next = tail; n->prev = p; p->next = n; tail->prev = n]. *)
Definition link_last (n p tail : nat) (h : gmap nat lru_node) : gmap nat lru_node :=
  hprev tail (Some n) (hnext p (Some n) (hprev n (Some p) (hnext n (Some tail) h))).

Lemma link_last_dll h head tail L n : dll h (head :: L ++ [tail]) → NoDup (head :: L ++ [tail]) →
  n ∉ head :: L ++ [tail] → (∀ a, a ∈ n :: head :: L ++ [tail] → is_Some (h !! a)) →
  ∃ p, prevp h tail = Some p ∧ is_Some (h !! p) ∧ p ≠ n
       ∧ dll (link_last n p tail h) (head :: (L ++ [n]) ++ [tail]).
Proof.
  intros Hd Hnd Hn Hal. destruct (before_tail head tail L) as (A & p & E1 & E2). rewrite E1 in *.
  pose proof (dll_next _ A p tail [] Hd) as [Np Pt].
  assert (p ≠ tail) as Hpt by (apply NoDup_app in Hnd as (_ & _ & Hnd%NoDup_cons); set_solver).
  assert (is_Some (h !! n)) by (apply Hal; set_solver). assert (is_Some (h !! p)) by (apply Hal; set_solver).
  assert (is_Some (h !! tail)) by (apply Hal; set_solver).
  assert (p ≠ n ∧ tail ≠ n) as [Hpn Htn] by set_solver.
  exists p. split_and!; [done..|].
  rewrite <-(assoc app). cbn [app]. rewrite app_comm_cons, E2, <-(assoc app). cbn [app].
  apply (dll_link h); try done; intros; unfold link_last; heap_eq; cases.
Qed.

Lemma link_last_some n p tail h a : is_Some (link_last n p tail h !! a) ↔ is_Some (h !! a).
Proof. unfold link_last. by rewrite hprev_some, hnext_some, hprev_some, hnext_some. Qed.
Lemma link_last_pid n p tail h a : ln_pid <$> link_last n p tail h !! a = ln_pid <$> h !! a.
Proof. unfold link_last. by rewrite hprev_pid, hnext_pid, hprev_pid, hnext_pid. Qed.

Lemma add_to_mru_ok t l pid : lru_ok t l → Z.of_nat (S (length l)) < two64 →
  ∃ t' n, add_to_mru pid t = (t', Val n) ∧ lru_ok t' (l ++ [(n, pid)])
          ∧ lru_head t' = lru_head t ∧ lru_tail t' = lru_tail t.
Proof.
  intros H Hmax. pose proof (λ a, lru_alloc_at _ _ a H) as Hal. destruct H as [H1 H2 H3 H4 H5 H6 H7].
  set (n := lru_fresh t). set (h := <[n := mk_lnode pid None None]> (lru_heap t)).
  assert (lru_heap t !! n = None) as Hnone by (apply eq_None_not_Some; intros Hs%H5; lia).
  assert (n ∉ lru_head t :: l.*1 ++ [lru_tail t]) as Hn by (intros Hin%Hal; rewrite Hnone in Hin; by destruct Hin).
  assert (∀ a, is_Some (lru_heap t !! a) → h !! a = lru_heap t !! a) as Hold.
  { intros a Ha. subst h. apply lookup_insert_ne. intros <-. rewrite Hnone in Ha. by destruct Ha. }
  destruct (link_last_dll h (lru_head t) (lru_tail t) l.*1 n) as (p & Pt & Hp & Hpn & Hd); [|done|done| |].
  { apply (dll_frame (lru_heap t)); [done|]. intros A1 a b A2 E.
    unfold nextp, prevp. rewrite !Hold; [done|apply Hal; rewrite E; set_solver|apply Hal; rewrite E; set_solver]. }
  { intros a [->|Ha]%elem_of_cons; [subst h; by rewrite lookup_insert_eq|]. apply Hal in Ha as Ha'. by rewrite Hold. }
  assert (is_Some (h !! n)) as An by (subst h; by rewrite lookup_insert_eq).
  assert (is_Some (h !! lru_tail t)) as At by (rewrite Hold; apply Hal; set_solver).
  assert (lru_tail t ≠ n) by set_solver.
  exists (mk_lru (lru_head t) (lru_tail t) (u64 (lru_size t + 1)) (link_last n p (lru_tail t) h) (S n)), n.
  split_and!; [| |done..].
  - unfold add_to_mru. set (t1 := mk_lru (lru_head t) (lru_tail t) (lru_size t) h (S n)).
    rewrite (bind_val (new_lnode pid) _ t t1 n eq_refl), (bind_val get_st _ t1 t1 t1 eq_refl). subst t1. cbv zeta.
    cbn [lru_tail]. pstep set_lnext_some.
    pstep get_lprev_some. rewrite prevp_hnext, Pt. pstep set_lprev_some.
    pstep get_lprev_some. rewrite prevp_hprev by alloc. rewrite decide_False, prevp_hnext, Pt by done.
    pstep set_lnext_some. pstep set_lprev_some. done.
  - split; cbn [lru_head lru_tail lru_size lru_heap lru_fresh]; rewrite ?fmap_app; cbn [fmap list_fmap fst].
    + exact Hd.
    + revert H2 Hn. clear. rewrite <-(assoc app). cbn [app]. rewrite !NoDup_cons, !NoDup_app, !NoDup_cons. set_solver.
    + rewrite Forall_app, Forall_cons. split_and!; [|by rewrite link_last_pid; subst h; rewrite lookup_insert_eq|done].
      rewrite Forall_forall in H3 |- *. intros e He. rewrite link_last_pid, Hold; [by apply H3|].
      apply Hal. apply elem_of_cons. right. apply elem_of_app. left. by apply list_elem_of_fmap_2.
    + rewrite Forall_forall. intros a Ha. apply link_last_some. destruct (decide (a = n)) as [->|]; [done|].
      rewrite Hold; apply Hal; set_solver.
    + intros a Ha%link_last_some. destruct (decide (a = n)) as [->|Hne]; [lia|].
      subst h. rewrite lookup_insert_ne in Ha by done. apply H5 in Ha. lia.
    + rewrite H6, length_app. cbn [length]. unfold u64. rewrite Z.mod_small; lia.
    + rewrite length_app. cbn [length]. lia.
Qed.

(** ** The page used last *)
Lemma move_to_mru_ok t l1 n l2 : lru_ok t (l1 ++ n :: l2) →
  ∃ t', move_to_mru (Some n.1) t = (t', Val tt) ∧ lru_ok t' ((l1 ++ l2) ++ [n])
        ∧ lru_head t' = lru_head t ∧ lru_tail t' = lru_tail t.
Proof.
  intros H. destruct (unlink_dll _ _ _ _ H) as (x & y & Pn & Nn & An & Ax & Ay & Hd & Hnd & Hal).
  pose proof (proj1 (NoDup_cons _ _) Hnd) as [Hn Hnd'].
  destruct (link_last_dll _ _ _ _ n.1 Hd Hnd' Hn) as (p & Pt & Hp & Hpn & Hd').
  { intros a Ha. apply unlinked_some. by apply Hal. }
  assert (is_Some (lru_heap t !! lru_tail t)) as At by (apply Hal; set_solver).
  assert (lru_tail t ≠ n.1) by set_solver.
  exists (set_heap (link_last n.1 p (lru_tail t) (unlinked x y (lru_heap t))) t). split_and!; [| |done..].
  - unfold move_to_mru. rewrite (bind_val get_st _ t t t eq_refl). cbv zeta.
    rewrite (bind_val _ _ _ _ _ (get_lprev_some _ _ An)), Pn.
    rewrite (bind_val _ _ _ _ _ (get_lnext_some _ _ An)), Nn.
    pstep set_lnext_some. pstep set_lprev_some. fold (unlinked x y (lru_heap t)).
    erewrite bind_val; [|apply set_lnext_some; cbn; by apply unlinked_some].
    cbn [set_heap lru_head lru_tail lru_size lru_heap lru_fresh].
    assert (∀ a, is_Some (lru_heap t !! a) → is_Some (unlinked x y (lru_heap t) !! a)) as Hu by (intros a; apply unlinked_some).
    pstep get_lprev_some. rewrite prevp_hnext, Pt. pstep set_lprev_some.
    pstep get_lprev_some. rewrite prevp_hprev by alloc. rewrite decide_False, prevp_hnext, Pt by done.
    pstep set_lnext_some. rewrite set_lprev_some by (cbn; alloc). done.
  - destruct H as [_ _ H3 H4 H5 H6 H7]. split; cbn [set_size set_heap lru_head lru_tail lru_size lru_heap lru_fresh];
      rewrite ?(fmap_app _ (l1 ++ l2)); cbn [fmap list_fmap].
    + exact Hd'.
    + revert Hnd. clear. rewrite <-(assoc app). cbn [app]. rewrite !NoDup_cons, !NoDup_app, !NoDup_cons. set_solver.
    + assert (Forall (λ e : nat * Z, ln_pid <$> lru_heap t !! e.1 = Some e.2) ((l1 ++ l2) ++ [n])) as Hf.
      { rewrite !Forall_app, Forall_cons in *. naive_solver. }
      eapply Forall_impl; [exact Hf|]. intros e He. cbn in *. by rewrite link_last_pid, unlinked_pid.
    + rewrite Forall_forall. intros a Ha. apply link_last_some, unlinked_some, Hal. set_solver.
    + intros a Ha%link_last_some%unlinked_some. by apply H5.
    + rewrite H6, !length_app. cbn [length]. lia.
    + rewrite !length_app in *. cbn [length] in *. lia.
Qed.

(** The first node of the list, or the tail. *)
Lemma lru_first_ok t l : lru_ok t l →
  lru t = (t, Val (Some (match l with [] => lru_tail t | n :: _ => n.1 end))).
Proof.
  intros H. unfold lru. rewrite (bind_val get_st _ t t t eq_refl).
  rewrite get_lnext_some by (eapply lru_alloc_at; [exact H|left]).
  pose proof (lru_dll _ _ H) as Hd. destruct l as [|n l]; cbn in Hd; by destruct Hd as [[-> _] _].
Qed.
Lemma lru_next_ok t l1 n l2 : lru_ok t (l1 ++ n :: l2) →
  get_lnext (Some n.1) t = (t, Val (Some (match l2 with [] => lru_tail t | n' :: _ => n'.1 end))).
Proof.
  intros H. rewrite get_lnext_some by (eapply lru_alloc_at; [exact H|set_solver]).
  pose proof (lru_dll _ _ H) as Hd.
  assert (∃ A B, lru_head t :: (l1 ++ n :: l2).*1 ++ [lru_tail t]
                 = A ++ n.1 :: (match l2 with [] => lru_tail t | n' :: _ => n'.1 end) :: B) as (A & B & E).
  { exists (lru_head t :: l1.*1), (match l2 with [] => [] | _ :: l2' => l2'.*1 ++ [lru_tail t] end).
    rewrite fmap_app, fmap_cons. cbn [app]. rewrite <-app_assoc. by destruct l2. }
  rewrite E in Hd. by apply dll_next in Hd as [-> _].
Qed.

(** ** Clearing *)
Lemma clear_loop_ok t l1 l2 f h : lru_ok t (l1 ++ l2) → (length l2 < f)%nat →
  (∀ e, e ∈ l2 → h !! e.1 = lru_heap t !! e.1) →
  ∃ h', clear_loop f (Some (match l2 with [] => lru_tail t | n :: _ => n.1 end)) (set_heap h t) = (set_heap h' t, Val tt)
        ∧ ∀ a, h' !! a = if decide (a ∈ l2.*1) then None else h !! a.
Proof.
  revert l1 f h. induction l2 as [|n l2 IH]; intros l1 f h H Hf Hh; (destruct f as [|f]; [simpl in Hf; lia|]).
  - exists h. cbn. rewrite (bind_val get_st _ _ _ _ eq_refl). cbn. rewrite bool_decide_eq_true_2 by done.
    split; [done|]. intros a. by rewrite decide_False by set_solver.
  - pose proof (lru_nodup _ _ H) as Hnd. rewrite fmap_app, fmap_cons in Hnd.
    apply NoDup_cons in Hnd as [_ Hnd]. rewrite !NoDup_app, NoDup_cons in Hnd.
    assert (n.1 ≠ lru_tail t) as Hne by set_solver.
    pose proof (lru_next_ok t l1 n l2 H) as Hnext.
    destruct (lru_alloc_at _ _ n.1 H) as [d Hd]; [set_solver|].
    rewrite (get_lnext_some t n.1 (ltac:(eauto))) in Hnext. injection Hnext as Hnext. unfold nextp in Hnext. rewrite Hd in Hnext. cbn in Hnext.
    destruct (IH (l1 ++ [n]) f (delete n.1 h)) as (h' & E & Hh').
    + by rewrite <-(assoc app).
    + simpl in Hf. lia.
    + intros e He. rewrite lookup_delete_ne by set_solver. apply Hh. by right.
    + exists h'. split.
      * cbn [clear_loop]. rewrite (bind_val get_st _ _ _ _ eq_refl). cbn [set_heap lru_tail].
        rewrite bool_decide_eq_false_2 by congruence.
        erewrite bind_val; [|apply lru_deref_some; cbn; rewrite Hh by left; exact Hd]. cbn [fst snd]. rewrite Hnext. exact E.
      * intros a. rewrite Hh'. cbn [fmap list_fmap]. destruct (decide (a = n.1)) as [->|].
        -- rewrite (decide_True (P := n.1 ∈ n.1 :: _)) by set_solver. case_decide; [done|apply lookup_delete_eq].
        -- rewrite lookup_delete_ne by done. do 2 case_decide; (done || set_solver).
Qed.

(** [clear] frees the nodes but leaves the head and the tail pointing to
    them: the next page that is entered into the list writes through a dangling
    pointer. *)
Lemma lru_clear_ok t l n : lru_ok t (l ++ [n]) →
  ∃ t', lru_clear t = (t', Val tt) ∧ lru_size t' = 0 ∧ ∀ pid, (add_to_mru pid t').2 = Exn undefined_behaviour.
Proof.
  intros H. destruct (clear_loop_ok t [] (l ++ [n]) (S (size (lru_heap t))) (lru_heap t)) as (h' & E & Hh'); [done| |done|].
  { assert (length (l ++ [n]) ≤ size (lru_heap t))%nat; [|lia].
    rewrite <-(length_fmap fst), <-size_dom.
    pose proof (lru_nodup _ _ H) as [_ Hnd]%NoDup_cons. apply NoDup_app in Hnd as [Hnd _].
    rewrite <-(size_list_to_set (C := gset nat) _ Hnd). apply subseteq_size. intros a Ha%elem_of_list_to_set.
    apply elem_of_dom. eapply lru_alloc_at; [exact H|]. set_solver. }
  exists (set_size 0 (set_heap h' t)). split_and!; [|done|].
  - unfold lru_clear. rewrite (bind_val _ _ _ _ _ (lru_first_ok _ _ H)), (bind_val get_st _ t t t eq_refl).
    assert (set_heap (lru_heap t) t = t) as Es by by destruct t. rewrite Es in E. by rewrite (bind_val _ _ _ _ _ E).
  - intros pid. pose proof (lru_nodup _ _ H) as Hnd. pose proof (lru_dll _ _ H) as Hd.
    assert (prevp (lru_heap t) (lru_tail t) = Some n.1) as Ep.
    { rewrite fmap_app in Hd. cbn in Hd. rewrite <-(assoc app) in Hd. cbn in Hd.
      apply (dll_next _ (lru_head t :: l.*1) n.1 (lru_tail t) []) in Hd. apply Hd. }
    assert (lru_tail t ∉ (l ++ [n]).*1) as Htl.
    { intros Hin. apply NoDup_cons in Hnd as [_ Hnd]. apply NoDup_app in Hnd as (_ & Hnd & _). set_solver. }
    assert (lru_heap t !! lru_tail t = h' !! lru_tail t) as Et by (rewrite Hh', decide_False by done; done).
    destruct (lru_alloc_at _ _ (lru_tail t) H) as [d Ed]; [set_solver|].
    assert (lru_fresh t ≠ n.1 ∧ lru_fresh t ≠ lru_tail t) as [Hf1 Hf2].
    { split; intros Ha.
      - assert (n.1 < lru_fresh t)%nat; [|lia]. apply (lru_below _ _ H). eapply lru_alloc_at; [exact H|set_solver].
      - assert (lru_tail t < lru_fresh t)%nat; [|lia]. apply (lru_below _ _ H). eauto. }
    unfold add_to_mru. erewrite (bind_val (new_lnode pid)) by reflexivity. erewrite (bind_val get_st) by reflexivity. cbv zeta.
    cbn [set_heap set_size lru_head lru_tail lru_size lru_heap lru_fresh].
    assert (∀ h, h = <[lru_fresh t := mk_lnode pid None None]> h' → is_Some (h !! lru_fresh t) ∧ is_Some (h !! lru_tail t)
              ∧ prevp h (lru_tail t) = Some n.1 ∧ h !! n.1 = None) as Hh.
    { intros h ->. unfold prevp. rewrite lookup_insert_eq, !lookup_insert_ne by done. rewrite <-Et, Ed.
      unfold prevp in Ep. rewrite Ed in Ep. split_and!; [eauto..|done|]. rewrite Hh', decide_True; [done|set_solver]. }
    specialize (Hh _ eq_refl). set (h := <[lru_fresh t := _]> h') in *. clearbody h. destruct Hh as (Hs1 & Hs2 & Hp & Hnone).
    pstep set_lnext_some. pstep get_lprev_some. rewrite prevp_hnext, Hp. pstep set_lprev_some.
    pstep get_lprev_some. rewrite prevp_hprev by alloc. rewrite decide_False, prevp_hnext, Hp by done.
    unfold set_lnext at 1, lru_deref at 1, get_st, mbind, M_bind. cbn.
    destruct (hprev _ _ _ !! n.1) eqn:E'; [|done].
    assert (is_Some (h !! n.1)) as Hs by (rewrite <-(hnext_some (lru_fresh t) (Some (lru_tail t))), <-hprev_some; eauto).
    rewrite Hnone in Hs. by destruct Hs.
Qed.
