(* ===== verification/PagedFile.v ===== *)
(** * PagedFile: files of pages (src/bp_file/paged_file.hpp, paged_file.cpp)

    The header with its bitmap is kept in memory and written by [close]; pages
    are read and written in the file.  The stream is the list of the pages
    behind the header and the flag [good()]: reading behind the end clears the
    flag, and on a stream that is not good nothing is read or written. *)

From stdpp Require Import gmap.
From S2P Require Import Prelude.

(** The bytes of a page. *)
Notation page := (list Z).
(** The number of bits of [slots_]. *)
Definition num_slots : Z := 65536.

Record file_header : Type := mk_header {
  fid_ : list Z;
  ftype_ : Z;
  slots_ : gset Z;            (* the bits that are set *)
  payload_ : list Z
}.
(** What is on the disk. *)
Record disk : Type := mk_disk { disk_header : file_header; disk_pages : list page }.

Record paged_file : Type := mk_pfile {
  file_ : option disk;        (* the open stream *)
  good : bool;
  npages_ : Z;
  header_ : file_header
}.

(** [slots_.test(i)], [slots_.set(i, b)] *)
Definition slot_test (i : Z) (h : file_header) : res bool :=
  if bool_decide (0 ≤ i < num_slots) then Val (bool_decide (i ∈ slots_ h)) else Exn out_of_range_std.
Definition slot_set (i : Z) (b : bool) (h : file_header) : res file_header :=
  if bool_decide (0 ≤ i < num_slots)
  then Val (mk_header (fid_ h) (ftype_ h) (if b then {[i]} ∪ slots_ h else slots_ h ∖ {[i]}) (payload_ h))
  else Exn out_of_range_std.

Section paged_file.
(** [PF_PAGE_SIZE], [FHEADER_PAYLOAD_SIZE] and [sizeof(file_header)]. *)
Context (page_size payload_size : nat) (header_size : Z).
Notation op := (M paged_file).

Definition zero_page : page := replicate page_size 0.
Definition magic : list Z := [80; 83; 68; 78].
Definition new_header (ftype : Z) : file_header := mk_header magic ftype ∅ (replicate payload_size 0).

Definition set_npages (n : Z) (f : paged_file) : paged_file := mk_pfile (file_ f) (good f) n (header_ f).
Definition set_header (h : file_header) (f : paged_file) : paged_file := mk_pfile (file_ f) (good f) (npages_ f) h.
Definition set_good (b : bool) (f : paged_file) : paged_file := mk_pfile (file_ f) b (npages_ f) (header_ f).
Definition set_pages (ps : list page) (f : paged_file) : paged_file :=
  mk_pfile (match file_ f with Some d => Some (mk_disk (disk_header d) ps) | None => None end) (good f) (npages_ f) (header_ f).
Definition pages_of (f : paged_file) : list page := match file_ f with Some d => disk_pages d | None => [] end.

(** ** The stream *)

(** Reading the page at an index into a buffer. *)
Definition stream_read (i : Z) (buf : page) : op page :=
  f ← get_st;
  if good f then
    match pages_of f !! Z.to_nat i with
    | Some p => mret p
    | None => modify (set_good false);; mret buf
    end
  else mret buf.
(** Writing a page at an index; a gap is filled with zeros. *)
Definition stream_write (i : Z) (p : page) : op unit :=
  f ← get_st;
  when (good f)
    (let ps := pages_of f ++ replicate (S (Z.to_nat i) - length (pages_of f)) zero_page in
     modify (set_pages (<[Z.to_nat i := p]> ps))).

(** ** Open and close *)

(** [open] on a path without a file, and with one; the result of an invalid
    header is a closed file. *)
Definition pf_open (existing : option disk) (file_type : Z) : paged_file * bool :=
  match existing with
  | None => let h := new_header file_type in (mk_pfile (Some (mk_disk h [])) true 0 h, true)
  | Some d =>
    let h := disk_header d in
    if bool_decide (fid_ h = magic ∧ ftype_ h = file_type)
    then (mk_pfile (Some d) true (Z.of_nat (length (disk_pages d))) h, true)
    else (mk_pfile None true 0 h, false)
  end.
Definition is_open (f : paged_file) : bool := match file_ f with Some _ => true | None => false end.

(** [close]; the callback may change the payload.  The result is what is on the
    disk afterwards. *)
Definition pf_close (callback : option (list Z → list Z)) (f : paged_file) : paged_file * option disk :=
  match file_ f with
  | None => (f, None)
  | Some d =>
    let h := header_ f in
    let h' := mk_header (fid_ h) (ftype_ h) (slots_ h)
                (match callback with Some cb => cb (payload_ h) | None => payload_ h end) in
    (mk_pfile None (good f) (npages_ f) h', Some (if good f then mk_disk h' (disk_pages d) else d))
  end.

(** ** Pages *)
Fixpoint first_slot (n : nat) (i : Z) (h : file_header) : res Z :=
  match n with
  | O => Val UNKNOWN
  | S n' => b ← slot_test i h; if (b : bool) then first_slot n' (i + 1) h else Val i
  end.
Definition find_first_slot : op Z := f ← get_st; lift_res (first_slot (Z.to_nat (npages_ f)) 0 (header_ f)).

Definition mark_slot (i : Z) (b : bool) : op unit :=
  f ← get_st; h ← lift_res (slot_set i b (header_ f)); modify (set_header h).

(** A zeroed page at a freed index or at the end; the result is its id. *)
Definition place_page (i : Z) : op Z :=
  if bool_decide (i ≠ UNKNOWN) then stream_write i zero_page;; mret (i + 1)
  else
    f ← get_st;
    stream_write (Z.of_nat (length (pages_of f))) zero_page;;
    modify (λ f, set_npages (npages_ f + 1) f);;
    f ← get_st;
    (* [tellp()] of a stream that is not good is -1 *)
    mret (if good f then Z.of_nat (length (pages_of f))
          else (two64 - 1 - header_size) / Z.of_nat page_size).
Definition pf_allocate_page : op Z :=
  i ← find_first_slot;
  pid ← place_page i;
  assert_ (bool_decide (pid < num_slots));;
  mark_slot (pid - 1) true;;
  mret pid.

Fixpoint last_slot (n : nat) (h : file_header) : res (option Z) :=
  match n with
  | O => Val None
  | S n' => b ← slot_test (Z.of_nat n') h; if (b : bool) then Val (Some (Z.of_nat n' + 1)) else last_slot n' h
  end.
Definition pf_last_valid_page : op Z :=
  f ← get_st;
  if bool_decide (npages_ f = 0) then pf_allocate_page
  else r ← lift_res (last_slot (Z.to_nat (npages_ f)) (header_ f));
       match r with Some pid => mret pid | None => pf_allocate_page end.

Definition pf_free_page (pid : Z) : op bool :=
  f ← get_st;
  if bool_decide (pid = 0 ∨ npages_ f < pid - 1) then mret false
  else
    b ← lift_res (slot_test (pid - 1) (header_ f));
    if negb b then mret false else mark_slot (pid - 1) false;; mret true.

(** The test of [read_page] and [write_page]; the message of [read_page] tests
    the bit once more. *)
Definition check_pid (message : bool) (pid : Z) : op unit :=
  f ← get_st;
  ok ← (if bool_decide (pid = 0 ∨ npages_ f < pid - 1) then mret false
        else lift_res (slot_test (pid - 1) (header_ f)));
  if (ok : bool) then mret tt
  else
    when message (_ ← lift_res (slot_test (u64 (pid - 1)) (header_ f)); mret tt);;
    throw index_out_of_range.

Definition pf_read_page (pid : Z) (pg : page) : op (page * bool) :=
  check_pid true pid;;
  p ← stream_read (pid - 1) pg;
  f ← get_st; mret (p, good f).
Definition pf_write_page (pid : Z) (pg : page) : op bool :=
  check_pid false pid;;
  stream_write (pid - 1) pg;;
  f ← get_st; mret (good f).

Definition pf_is_valid (f : paged_file) (pid : Z) : res bool :=
  if bool_decide (pid < 1 ∨ npages_ f < pid) then Val false else slot_test (pid - 1) (header_ f).

(** [scan_pages]: the calls of the callback.  The loop reads once more after
    the last page; the buffer keeps the last page then. *)
Fixpoint scan_loop (ps : list page) (pid : Z) (pg : page) (h : file_header) : list (page * Z) * res page :=
  match ps with
  | [] =>
    match slot_test (pid - 1) h with
    | Val b => (if b then [(pg, pid)] else [], Val pg)
    | Exn e => ([], Exn e)
    end
  | p :: ps' =>
    match slot_test (pid - 1) h with
    | Val b => let '(calls, r) := scan_loop ps' (pid + 1) p h in (if b then (p, pid) :: calls else calls, r)
    | Exn e => ([], Exn e)
    end
  end.
(** On a stream that is not good the end is never reached: the loop ends when
    the bits are exhausted. *)
Definition scan_bad (pg : page) (h : file_header) : list (page * Z) * res page :=
  ((λ i, (pg, i + 1)) <$> filter (λ i, i ∈ slots_ h) (seqZ 0 num_slots), Exn out_of_range_std).
Definition pf_scan_pages (pg : page) (f : paged_file) : list (page * Z) * res page :=
  if good f then scan_loop (pages_of f) 1 pg (header_ f) else scan_bad pg (header_ f).

Definition pf_truncate : op unit :=
  modify (λ f, let h := header_ f in set_header (mk_header (fid_ h) (ftype_ h) ∅ (payload_ h)) f).
End paged_file.
