(* ===== verification/PagedFileFacts.v ===== *)
(** * PagedFileFacts: a paged file is a map from page ids to pages

    [page_at f] is the map; the operations of [PagedFile] on a well-formed open
    file, the limit of 65535 pages, and what [close] leaves for [open]. *)

From stdpp Require Import gmap.
From S2P Require Import Prelude PagedFile.

Section facts.
Context (page_size payload_size : nat) (header_size : Z).
Notation alloc := (pf_allocate_page page_size header_size).

Record file_ok (f : paged_file) : Prop := {
  file_open : is_Some (file_ f);
  file_good : good f = true;
  file_pages : npages_ f = Z.of_nat (length (pages_of f));
  file_max : npages_ f < num_slots;
  file_slots : ∀ i, i ∈ slots_ (header_ f) → 0 ≤ i < npages_ f
}.
Definition page_at (f : paged_file) (pid : Z) : option page :=
  if bool_decide (pid - 1 ∈ slots_ (header_ f)) then pages_of f !! Z.to_nat (pid - 1) else None.

Lemma page_at_some f pid p : file_ok f → page_at f pid = Some p →
  pid - 1 ∈ slots_ (header_ f) ∧ 1 ≤ pid ≤ npages_ f ∧ pages_of f !! Z.to_nat (pid - 1) = Some p.
Proof.
  intros Hf. unfold page_at. case_bool_decide as Hs; [|done]. intros Hp. apply (file_slots _ Hf) in Hs as Hr.
  split_and!; (done || lia).
Qed.
Lemma page_at_none f pid : file_ok f → page_at f pid = None → pid - 1 ∉ slots_ (header_ f).
Proof.
  intros Hf. unfold page_at. case_bool_decide as Hs; [|done]. intros Hp%lookup_ge_None. exfalso.
  apply (file_slots _ Hf) in Hs. rewrite (file_pages _ Hf) in Hs. lia.
Qed.
Lemma set_pages_of ps f : is_Some (file_ f) → pages_of (set_pages ps f) = ps.
Proof. unfold pages_of, set_pages. intros [d ->]. done. Qed.

Lemma slot_test_ok i h : 0 ≤ i < num_slots → slot_test i h = Val (bool_decide (i ∈ slots_ h)).
Proof. intros Hi. unfold slot_test. by rewrite (bool_decide_eq_true_2 (0 ≤ i < num_slots)) by done. Qed.

(** ** Reading and writing *)
Lemma check_pid_ok m f pid p : file_ok f → page_at f pid = Some p → check_pid m pid f = (f, Val tt).
Proof.
  intros Hf Hp. destruct (page_at_some _ _ _ Hf Hp) as (Hs & Hr & _). pose proof (file_max _ Hf).
  unfold check_pid. rewrite (bind_val get_st _ f f f eq_refl). rewrite bool_decide_eq_false_2 by lia.
  rewrite (slot_test_ok (pid - 1)), (bool_decide_eq_true_2 _ Hs) by lia. done.
Qed.

Lemma read_page_ok f pid p pg : file_ok f → page_at f pid = Some p → pf_read_page pid pg f = (f, Val (p, true)).
Proof.
  intros Hf Hp. unfold pf_read_page. rewrite (bind_val _ _ _ _ _ (check_pid_ok true _ _ _ Hf Hp)).
  destruct (page_at_some _ _ _ Hf Hp) as (_ & _ & E). unfold stream_read, get_st, mbind, M_bind.
  rewrite (file_good _ Hf), E. cbn. by rewrite (file_good _ Hf).
Qed.

Lemma write_page_ok f pid p0 p : file_ok f → page_at f pid = Some p0 →
  ∃ f', pf_write_page page_size pid p f = (f', Val true) ∧ file_ok f' ∧ header_ f' = header_ f
        ∧ ∀ q, page_at f' q = if decide (q = pid) then Some p else page_at f q.
Proof.
  intros Hf Hp. destruct (page_at_some _ _ _ Hf Hp) as (Hs & Hr & E).
  pose proof (lookup_lt_Some _ _ _ E) as Hlt.
  exists (set_pages (<[Z.to_nat (pid - 1) := p]> (pages_of f)) f).
  assert (pages_of (set_pages (<[Z.to_nat (pid - 1) := p]> (pages_of f)) f) = <[Z.to_nat (pid - 1) := p]> (pages_of f)) as Ep
    by (apply set_pages_of, Hf).
  split_and!; [| |done|].
  - unfold pf_write_page. rewrite (bind_val _ _ _ _ _ (check_pid_ok false _ _ _ Hf Hp)).
    unfold stream_write, get_st, mbind, M_bind. rewrite (file_good _ Hf). cbn.
    replace (S (Z.to_nat (pid - 1)) - length (pages_of f))%nat with 0%nat by lia. rewrite app_nil_r.
    unfold mret, M_ret. by rewrite (file_good _ Hf).
  - destruct Hf as [[d Hd] H2 H3 H4 H5]. split; cbn; try done.
    + rewrite Hd. eauto.
    + by rewrite Ep, length_insert.
  - intros q. unfold page_at. rewrite Ep. cbn [set_pages header_]. case_decide as Hq; [subst q|].
    + rewrite (bool_decide_eq_true_2 _ Hs). apply list_lookup_insert_eq. lia.
    + case_bool_decide as Hq'; [|done]. apply list_lookup_insert_ne. apply (file_slots _ Hf) in Hq'. lia.
Qed.

(** An id that is not in use is refused. *)
Lemma read_page_invalid f pid pg : file_ok f → 0 ≤ pid < two64 → page_at f pid = None →
  ∃ e, pf_read_page pid pg f = (f, Exn e).
Proof.
  intros Hf Hr Hp. pose proof (page_at_none _ _ Hf Hp) as Hs. pose proof (file_max _ Hf).
  unfold pf_read_page, check_pid. rewrite bind_assoc, (bind_val get_st _ f f f eq_refl).
  assert (∃ r, (if bool_decide (pid = 0 ∨ npages_ f < pid - 1) then mret false : M paged_file bool
           else lift_res (slot_test (pid - 1) (header_ f))) f = (f, r) ∧ r ≠ Val true) as (r & E & Hr').
  { case_bool_decide; [by eexists|]. rewrite (slot_test_ok (pid - 1)), (bool_decide_eq_false_2 _ Hs) by lia. by eexists. }
  rewrite bind_assoc. destruct r as [b|e].
  - rewrite (bind_val _ _ _ _ _ E). destruct b; [done|]. cbn [when].
    unfold lift_res, mbind, M_bind. destruct (slot_test (u64 (pid - 1)) (header_ f)); by eexists.
  - rewrite (bind_exn _ _ _ _ _ E). by eexists.
Qed.

(** ** Allocation *)
Lemma first_slot_ok h n i : 0 ≤ i → i + Z.of_nat n ≤ num_slots →
  ∃ r, first_slot n i h = Val r
    ∧ ((r = UNKNOWN ∧ ∀ j, i ≤ j < i + Z.of_nat n → j ∈ slots_ h) ∨ (i ≤ r < i + Z.of_nat n ∧ r ∉ slots_ h)).
Proof.
  revert i. induction n as [|n IH]; intros i Hi Hn; cbn [first_slot].
  - exists UNKNOWN. split; [done|]. left. split; [done|lia].
  - rewrite slot_test_ok by lia. cbn. case_bool_decide as Hs.
    + destruct (IH (i + 1)) as (r & E & H); [lia..|]. exists r. split; [done|].
      destruct H as [[-> H]|[H1 H2]]; [left|right; split; [lia|done]]. split; [done|].
      intros j Hj. destruct (decide (j = i)) as [->|]; [done|]. apply H. lia.
    + exists i. split; [done|]. right. split; [lia|done].
Qed.

Lemma slot_set_ok i b h : 0 ≤ i < num_slots →
  slot_set i b h = Val (mk_header (fid_ h) (ftype_ h) (if b then {[i]} ∪ slots_ h else slots_ h ∖ {[i]}) (payload_ h)).
Proof. intros Hi. unfold slot_set. by rewrite (bool_decide_eq_true_2 (0 ≤ i < num_slots)) by done. Qed.

(** The file with a zeroed page at an index and its bit set. *)
Definition with_page (i : Z) (ps : list page) (f : paged_file) : paged_file :=
  mk_pfile (match file_ f with Some d => Some (mk_disk (disk_header d) ps) | None => None end) true (Z.of_nat (length ps))
    (mk_header (fid_ (header_ f)) (ftype_ (header_ f)) ({[i]} ∪ slots_ (header_ f)) (payload_ (header_ f))).

Lemma with_page_ok i ps f : file_ok f → 0 ≤ i < Z.of_nat (length ps) → Z.of_nat (length ps) < num_slots →
  npages_ f ≤ Z.of_nat (length ps) → ps !! Z.to_nat i = Some (zero_page page_size) →
  (∀ j, 0 ≤ j < npages_ f → j ≠ i → ps !! Z.to_nat j = pages_of f !! Z.to_nat j) →
  file_ok (with_page i ps f)
  ∧ ∀ q, page_at (with_page i ps f) q = if decide (q = i + 1) then Some (zero_page page_size) else page_at f q.
Proof.
  intros Hf Hi Hmax Hn Ei Hold. assert (pages_of (with_page i ps f) = ps) as Ep.
  { unfold pages_of, with_page. destruct (file_open _ Hf) as [d ->]. done. }
  split.
  - split; cbn; try done.
    + destruct (file_open _ Hf) as [d ->]. eauto.
    + by rewrite Ep.
    + intros j [->%elem_of_singleton|Hj%(file_slots _ Hf)]%elem_of_union; lia.
  - intros q. unfold page_at. rewrite Ep. cbn [with_page header_ slots_]. case_decide as Hq; [subst q|].
    + replace (i + 1 - 1) with i by lia. rewrite bool_decide_eq_true_2 by set_solver. done.
    + case_bool_decide as Hb; case_bool_decide as Hb'; try done.
      * apply Hold; [by apply (file_slots _ Hf)|lia].
      * exfalso. apply Hb'. apply elem_of_union in Hb as [Hb%elem_of_singleton|]; [lia|done].
      * exfalso. set_solver.
Qed.

(** Writing a page at an index up to the end. *)
Lemma stream_write_ok f i : file_ok f → 0 ≤ i ≤ npages_ f →
  ∃ ps, stream_write page_size i (zero_page page_size) f = (set_pages ps f, Val tt)
    ∧ Z.of_nat (length ps) = Z.max (npages_ f) (i + 1) ∧ ps !! Z.to_nat i = Some (zero_page page_size)
    ∧ ∀ j, 0 ≤ j < npages_ f → j ≠ i → ps !! Z.to_nat j = pages_of f !! Z.to_nat j.
Proof.
  intros Hf Hi. eexists. unfold stream_write. rewrite (bind_val get_st _ f f f eq_refl), (file_good _ Hf).
  split; [done|]. pose proof (file_pages _ Hf). rewrite length_insert, length_app, length_replicate. split_and!.
  - lia.
  - apply list_lookup_insert_eq. rewrite length_app, length_replicate. lia.
  - intros j Hj Hne. rewrite list_lookup_insert_ne by lia. apply lookup_app_l. lia.
Qed.

(** When all pages are in use the new one is put at the end. *)
Lemma alloc_end f : file_ok f → (∀ i, 0 ≤ i < npages_ f → i ∈ slots_ (header_ f)) →
  (npages_ f < num_slots - 1 → ∃ ps, alloc f = (with_page (npages_ f) ps f, Val (npages_ f + 1))
    ∧ Z.of_nat (length ps) = npages_ f + 1 ∧ file_ok (with_page (npages_ f) ps f)
    ∧ ∀ q, page_at (with_page (npages_ f) ps f) q = if decide (q = npages_ f + 1) then Some (zero_page page_size) else page_at f q)
  ∧ (¬ npages_ f < num_slots - 1 → (alloc f).2 = Exn assertion_failed).
Proof.
  intros Hf Hused. pose proof (file_max _ Hf) as Hmax. pose proof (file_pages _ Hf) as Hn.
  destruct (first_slot_ok (header_ f) (Z.to_nat (npages_ f)) 0) as (r & E & Hr); [lia..|].
  destruct Hr as [[-> _]|[Hr Hfree]]; [|exfalso; apply Hfree, Hused; lia].
  assert (find_first_slot f = (f, Val UNKNOWN)) as Ef by (unfold find_first_slot; by rewrite (bind_val get_st _ f f f eq_refl), E).
  unfold pf_allocate_page. rewrite (bind_val _ _ _ _ _ Ef). unfold place_page.
  destruct (stream_write_ok f (npages_ f) Hf) as (ps & Ew & Hlen & Ei & Hold); [lia|].
  rewrite Z.max_r in Hlen by lia. rewrite (bool_decide_eq_false_2 (UNKNOWN ≠ UNKNOWN)) by auto.
  rewrite bind_assoc, (bind_val get_st _ f f f eq_refl), <-Hn, bind_assoc, (bind_val _ _ _ _ _ Ew).
  set (f1 := set_npages (npages_ f + 1) (set_pages ps f)).
  assert (pages_of f1 = ps) as Ep by (apply (set_pages_of ps f), Hf). assert (good f1 = true) as Eg by apply Hf.
  rewrite bind_assoc, (bind_val (modify (λ f, set_npages (npages_ f + 1) f)) _ (set_pages ps f) f1 tt eq_refl), bind_assoc, (bind_val get_st _ f1 f1 f1 eq_refl), Eg, Ep, bind_ret, Hlen.
  split; [|intros Hroom; rewrite bool_decide_eq_false_2; [done|lia]]. intros Hroom.
  destruct (with_page_ok (npages_ f) ps f) as [Hok Hat]; [done|lia..|done|done|].
  exists ps. split_and!; [|lia|done|exact Hat].
  rewrite bool_decide_eq_true_2 by lia. unfold assert_. rewrite bind_ret.
  unfold mark_slot. rewrite bind_assoc, (bind_val get_st _ f1 f1 f1 eq_refl), bind_assoc.
  replace (npages_ f + 1 - 1) with (npages_ f) by lia. rewrite slot_set_ok by lia. subst f1.
  unfold with_page, set_header, set_npages, set_pages, lift_res, mbind, M_bind, modify. cbn. by rewrite (file_good _ Hf), Hlen.
Qed.

(** A new page gets an id that is not in use, between 1 and 65535, is all
    zeros, and no other page changes, as long as the file has less than 65535
    pages or a page that was freed; else the assertion fails. *)
Theorem allocate_page_fresh f : file_ok f →
  let room := npages_ f < num_slots - 1 ∨ ∃ i, 0 ≤ i < npages_ f ∧ i ∉ slots_ (header_ f) in
  (room → ∃ f' pid, alloc f = (f', Val pid) ∧ file_ok f' ∧ 1 ≤ pid < num_slots ∧ page_at f pid = None
    ∧ ∀ q, page_at f' q = if decide (q = pid) then Some (zero_page page_size) else page_at f q)
  ∧ (¬ room → (alloc f).2 = Exn assertion_failed).
Proof.
  intros Hf. cbv zeta. pose proof (file_max _ Hf) as Hmax. pose proof (file_pages _ Hf) as Hn.
  destruct (first_slot_ok (header_ f) (Z.to_nat (npages_ f)) 0) as (r & E & Hr); [lia..|].
  destruct Hr as [[-> Hall]|[Hr Hfree]].
  - (* all pages are in use *)
    assert (∀ i, 0 ≤ i < npages_ f → i ∈ slots_ (header_ f)) as Hused by (intros i Hi; apply Hall; lia).
    destruct (alloc_end f Hf Hused) as [Ha Hb]. split; [|intros Hroom; apply Hb; intros Hlt; apply Hroom; by left].
    intros [Hroom|(i & Hi & Hni)]; [|by apply Hused in Hi]. destruct (Ha Hroom) as (ps & Ea & _ & Hok & Hat).
    exists (with_page (npages_ f) ps f), (npages_ f + 1). split_and!; [exact Ea|done|lia|unfold num_slots in *; lia| |exact Hat].
    unfold page_at. replace (npages_ f + 1 - 1) with (npages_ f) by lia. case_bool_decide as Hb'; [|done].
    apply (file_slots _ Hf) in Hb'. lia.
  - (* a freed page *)
    assert (find_first_slot f = (f, Val r)) as Ef by (unfold find_first_slot; by rewrite (bind_val get_st _ f f f eq_refl), E).
    unfold pf_allocate_page. rewrite (bind_val _ _ _ _ _ Ef). unfold place_page.
    split; [|intros []; right; exists r; split; [lia|done]]. intros _.
    destruct (stream_write_ok f r Hf) as (ps & Ew & Hlen & Ei & Hold); [lia|]. rewrite Z.max_l in Hlen by lia.
    rewrite (bool_decide_eq_true_2 (r ≠ UNKNOWN)) by (unfold UNKNOWN, two64, num_slots in *; lia).
    rewrite bind_assoc, (bind_val _ _ _ _ _ Ew), bind_ret.
    destruct (with_page_ok r ps f) as [Hok Hat]; [done|lia..|done|done|].
    exists (with_page r ps f), (r + 1). split_and!; [|done|lia|lia| |exact Hat].
    + rewrite bool_decide_eq_true_2 by lia. unfold assert_. rewrite bind_ret.
      unfold mark_slot. rewrite bind_assoc, (bind_val get_st _ _ _ _ eq_refl), bind_assoc.
      replace (r + 1 - 1) with r by lia. rewrite slot_set_ok by lia.
      unfold with_page, set_header, set_npages, set_pages, lift_res, mbind, M_bind, modify. cbn. by rewrite (file_good _ Hf), Hlen.
    + unfold page_at. replace (r + 1 - 1) with r by lia. by rewrite bool_decide_eq_false_2 by done.
Qed.
(** ** Freeing *)
Lemma free_page_ok f pid p : file_ok f → page_at f pid = Some p →
  ∃ f', pf_free_page pid f = (f', Val true) ∧ file_ok f' ∧ ∀ q, page_at f' q = if decide (q = pid) then None else page_at f q.
Proof.
  intros Hf Hp. destruct (page_at_some _ _ _ Hf Hp) as (Hs & Hr & E). pose proof (file_max _ Hf).
  eexists. split_and!.
  - unfold pf_free_page. rewrite (bind_val get_st _ f f f eq_refl), bool_decide_eq_false_2 by lia.
    rewrite (slot_test_ok (pid - 1)), (bool_decide_eq_true_2 _ Hs) by lia. cbn [negb].
    unfold mark_slot. rewrite (bind_val (lift_res (Val true)) _ f f true eq_refl). cbn [negb].
    rewrite bind_assoc, (bind_val get_st _ f f f eq_refl), bind_assoc, slot_set_ok by lia. reflexivity.
  - destruct Hf as [H1 H2 H3 H4 H5]. split; cbn; try done. intros i [Hi _]%elem_of_difference. by apply H5.
  - intros q. unfold page_at. cbn. change (pages_of (set_header _ f)) with (pages_of f).
    case_decide as Hq; [subst q|]; case_bool_decide as Hb; try done.
    + exfalso. set_solver.
    + rewrite bool_decide_eq_true_2; [done|set_solver].
    + rewrite bool_decide_eq_false_2; [done|]. intros Hin. apply Hb. apply elem_of_difference. split; [done|].
      intros ?%elem_of_singleton. lia.
Qed.

(** ** Closing and opening again *)

(** A file that is closed and opened again with the same type has the same
    pages, in use or free, and the payload of its header is what the callback
    left there; with another type it is refused. *)
Theorem close_open_roundtrip cb f t : file_ok f → fid_ (header_ f) = magic →
  ∃ d f' b, pf_close cb f = (mk_pfile None true (npages_ f) (disk_header d), Some d)
    ∧ pf_open payload_size (Some d) t = (f', b) ∧ b = bool_decide (t = ftype_ (header_ f))
    ∧ (t = ftype_ (header_ f) →
       file_ok f' ∧ (∀ q, page_at f' q = page_at f q)
       ∧ payload_ (header_ f') = default (λ l, l) cb (payload_ (header_ f))).
Proof.
  intros Hf Hm. destruct (file_open _ Hf) as [d Ed]. unfold pf_close. rewrite Ed, (file_good _ Hf).
  exists (mk_disk (mk_header (fid_ (header_ f)) (ftype_ (header_ f)) (slots_ (header_ f))
            (match cb with Some cb => cb (payload_ (header_ f)) | None => payload_ (header_ f) end)) (disk_pages d)).
  eexists _, _. split; [reflexivity|]. split; [apply surjective_pairing|]. unfold pf_open. cbn [disk_header fid_ ftype_].
  destruct (decide (t = ftype_ (header_ f))) as [->|Hne].
  - rewrite (bool_decide_eq_true_2 (fid_ (header_ f) = magic ∧ _)) by done.
    split; [by rewrite bool_decide_eq_true_2|]. intros _. pose proof (file_pages _ Hf) as Hn.
    assert (pages_of f = disk_pages d) as Ep by (unfold pages_of; by rewrite Ed).
    split_and!.
    + destruct Hf as [H1 H2 H3 H4 H5]. rewrite Ep in Hn. split; cbn; try done; rewrite <-?Hn; eauto.
    + intros q. unfold page_at. cbn. by rewrite Ep.
    + by destruct cb.
  - rewrite (bool_decide_eq_false_2 (fid_ (header_ f) = magic ∧ _)) by naive_solver.
    by rewrite bool_decide_eq_false_2.
Qed.
End facts.
