(* ===== verification/BufferPool.v ===== *)
(** * BufferPool: the page cache (src/bp_file/bufferpool.hpp, bufferpool.cpp)

    A page pointer is the position of a page in [buffer_].  The hash table of
    cached pages is a map; the order in which its iterator runs is a parameter.
    The recursive mutex serialises the calls. *)

From stdpp Require Import gmap.
From S2P Require Import Prelude LruList PagedFile.

Record buf_slot : Type := mk_slot {
  dirty_ : bool;
  pinned_ : bool;
  pos_ : nat;                 (* [p_] is [&buffer_[pos_]] *)
  lru_node_ : nat
}.
Record bufferpool : Type := mk_pool {
  bsize_ : nat;
  buffer_ : list page;
  lru_list_ : lru_list;
  ptable_ : gmap Z buf_slot;
  free_slots : list bool;     (* [slots_]: 1 is unused *)
  files_ : gmap Z paged_file;
  p_reads_ : Z;
  l_reads_ : Z
}.
Definition MAX_PFILES : Z := 15.

(** [pid & 0xFFFFFFFFFFFFFFF] and [(pid & 0xF000000000000000) >> 60] *)
Definition raw_pid (pid : Z) : Z := Z.land pid (2 ^ 60 - 1).
Definition file_id (pid : Z) : Z := Z.shiftr (Z.land pid (15 * 2 ^ 60)) 60.
(** [pid | (static_cast<uint64_t>(file_id) << 60)] *)
Definition with_file (fid pid : Z) : Z := Z.lor pid (u64 (Z.shiftl fid 60)).

Section bufferpool.
Context (page_size : nat) (header_size : Z).
(** The order of [for (iter = ptable_.begin(); ...)]. *)
Context (order : gmap Z buf_slot → list Z).
Notation op := (M bufferpool).

(** [memset(p, 0, sizeof(PF_PAGE_SIZE))]: the size of an [int]. *)
Definition memset_int (p : page) : page := replicate 4 0 ++ drop 4 p.

Definition new_bufferpool (bsize : nat) (initial : list page) : bufferpool :=
  mk_pool bsize initial new_lru ∅ (replicate bsize true) ∅ 0 0.

(** Assignments to members *)
Definition set_buffer (f : list page → list page) (b : bufferpool) : bufferpool :=
  mk_pool (bsize_ b) (f (buffer_ b)) (lru_list_ b) (ptable_ b) (free_slots b) (files_ b) (p_reads_ b) (l_reads_ b).
Definition set_lru (l : lru_list) (b : bufferpool) : bufferpool :=
  mk_pool (bsize_ b) (buffer_ b) l (ptable_ b) (free_slots b) (files_ b) (p_reads_ b) (l_reads_ b).
Definition set_ptable (f : gmap Z buf_slot → gmap Z buf_slot) (b : bufferpool) : bufferpool :=
  mk_pool (bsize_ b) (buffer_ b) (lru_list_ b) (f (ptable_ b)) (free_slots b) (files_ b) (p_reads_ b) (l_reads_ b).
Definition set_free (f : list bool → list bool) (b : bufferpool) : bufferpool :=
  mk_pool (bsize_ b) (buffer_ b) (lru_list_ b) (ptable_ b) (f (free_slots b)) (files_ b) (p_reads_ b) (l_reads_ b).
Definition set_files (f : gmap Z paged_file → gmap Z paged_file) (b : bufferpool) : bufferpool :=
  mk_pool (bsize_ b) (buffer_ b) (lru_list_ b) (ptable_ b) (free_slots b) (f (files_ b)) (p_reads_ b) (l_reads_ b).
Definition add_reads (p l : Z) (b : bufferpool) : bufferpool :=
  mk_pool (bsize_ b) (buffer_ b) (lru_list_ b) (ptable_ b) (free_slots b) (files_ b) (u64 (p_reads_ b + p)) (u64 (l_reads_ b + l)).
Definition set_dirty_flag (d : bool) (s : buf_slot) : buf_slot := mk_slot d (pinned_ s) (pos_ s) (lru_node_ s).
Definition set_pinned (d : bool) (s : buf_slot) : buf_slot := mk_slot (dirty_ s) d (pos_ s) (lru_node_ s).

(** A call on the list, a call on a file; the file has to be registered. *)
Definition on_lru {A} (m : M lru_list A) : op A := λ b,
  let '(l, r) := m (lru_list_ b) in (set_lru l b, r).
Definition on_file {A} (fid : Z) (m : M paged_file A) : op A := λ b,
  if bool_decide (fid < MAX_PFILES) then
    match files_ b !! fid with
    | Some f => let '(f', r) := m f in (set_files (insert fid f') b, r)
    | None => (b, Exn assertion_failed)
    end
  else (b, Exn assertion_failed).
Definition register_file (fid : Z) (f : paged_file) : op unit :=
  assert_ (bool_decide (fid < MAX_PFILES));; modify (set_files (insert fid f)).

Definition set_pin (d : bool) (pid : Z) : op unit := modify (set_ptable (alter (set_pinned d) pid)).
Definition pin_page : Z → op unit := set_pin true.
Definition unpin_page : Z → op unit := set_pin false.
Definition mark_dirty (pid : Z) : op unit := modify (set_ptable (alter (set_dirty_flag true) pid)).
Definition has_page (pid : Z) (b : bufferpool) : bool := bool_decide (is_Some (ptable_ b !! pid)).

Definition write_page_to_file (pid : Z) (pos : nat) : op unit :=
  b ← get_st;
  match buffer_ b !! pos with
  | Some pg => _ ← on_file (file_id pid) (pf_write_page page_size (raw_pid pid) pg); mret tt
  | None => throw undefined_behaviour
  end.

(** [slots_.find_first()] *)
Fixpoint find_first (l : list bool) : option nat :=
  match l with [] => None | true :: _ => Some 0%nat | false :: l' => S <$> find_first l' end.

Definition load_page_from_file (pid : Z) : op nat :=
  b ← get_st;
  match find_first (free_slots b) with
  | None => throw bufferpool_overrun
  | Some pos =>
    modify (set_free (insert pos false));;
    match buffer_ b !! pos with
    | Some pg =>
      r ← on_file (file_id pid) (pf_read_page (raw_pid pid) pg);
      modify (set_buffer (insert pos r.1));;
      mret pos
    | None => throw undefined_behaviour
    end
  end.

(** Taking a page out of the cache: the slot, the page, the list, the table. *)
Definition drop_page (pid : Z) (s : buf_slot) : op unit :=
  modify (set_free (insert (pos_ s) true));;
  modify (set_buffer (alter memset_int (pos_ s)));;
  on_lru (lru_remove (Some (lru_node_ s)));;
  modify (set_ptable (delete pid)).

(** The search for a victim, from the least recently used page on. *)
Fixpoint evict_loop (fuel : nat) (it : option nat) : op bool :=
  match fuel with
  | O => throw no_return
  | S f =>
    b ← get_st;
    if bool_decide (it = Some (lru_tail (lru_list_ b))) then mret false
    else
      n ← on_lru (lru_deref it);
      let pid := ln_pid n.2 in
      match ptable_ b !! pid with
      | Some s =>
        if pinned_ s then nx ← on_lru (get_lnext it); evict_loop f nx
        else
          when (dirty_ s) (write_page_to_file pid (pos_ s));;
          drop_page pid s;;
          mret true
      | None => nx ← on_lru (get_lnext it); evict_loop f nx
      end
  end.
Definition evict_page : op bool :=
  it ← on_lru lru; b ← get_st; evict_loop (S (size (lru_heap (lru_list_ b)))) it.

Definition fetch_page (pid : Z) : op nat :=
  modify (add_reads 0 1);;
  b ← get_st;
  match ptable_ b !! pid with
  | Some s => on_lru (move_to_mru (Some (lru_node_ s)));; mret (pos_ s)
  | None =>
    when (bool_decide (lru_size (lru_list_ b) = Z.of_nat (bsize_ b)))
      (res ← evict_page; assert_ res);;
    pos ← load_page_from_file pid;
    node ← on_lru (add_to_mru pid);
    modify (set_ptable (λ t, match t !! pid with
                             | Some _ => t   (* [emplace] *)
                             | None => <[pid := mk_slot false false pos node]> t
                             end));;
    mret pos
  end.

Definition allocate_page (fid : Z) : op (nat * Z) :=
  pid ← on_file fid (pf_allocate_page page_size header_size);
  p ← fetch_page (with_file fid pid); mret (p, pid).
Definition last_valid_page (fid : Z) : op (nat * Z) :=
  pid ← on_file fid (pf_last_valid_page page_size header_size);
  p ← fetch_page (with_file fid pid); mret (p, pid).

Definition free_page (pid : Z) : op unit :=
  b ← get_st;
  match ptable_ b !! pid with
  | None => mret tt
  | Some s =>
    assert_ (bool_decide (file_id pid < MAX_PFILES ∧ is_Some (files_ b !! file_id pid)));;
    modify (set_buffer (alter memset_int (pos_ s)));;
    on_lru (lru_remove (Some (lru_node_ s)));;
    modify (set_ptable (delete pid));;
    _ ← on_file (file_id pid) (pf_free_page (raw_pid pid)); mret tt
  end.

(** The loop body of [flush_all] and [flush_pages]. *)
Definition flush_if (cond : Z → bool) (pid : Z) : op unit :=
  b ← get_st;
  match ptable_ b !! pid with
  | Some s =>
    when (dirty_ s && cond pid)
      (write_page_to_file pid (pos_ s);; modify (set_ptable (alter (set_dirty_flag false) pid)))
  | None => mret tt
  end.
Definition flush_all : op unit := b ← get_st; for_each (flush_if (λ _, true)) (order (ptable_ b)).
Definition flush_pages (fid : Z) : op unit :=
  b ← get_st; for_each (flush_if (λ pid, bool_decide (fid = file_id pid))) (order (ptable_ b)).

Definition flush_page (pid : Z) (evict : bool) : op unit :=
  b ← get_st;
  match ptable_ b !! pid with
  | None => mret tt
  | Some s =>
    when (dirty_ s)
      (write_page_to_file pid (pos_ s);; modify (set_ptable (alter (set_dirty_flag false) pid)));;
    when evict
      (on_lru (lru_remove (Some (lru_node_ s)));;
       modify (set_free (insert (pos_ s) true));;
       modify (set_buffer (alter memset_int (pos_ s)));;
       modify (set_ptable (delete pid)))
  end.

Definition purge : op unit :=
  modify (λ b, set_free (λ _, replicate (bsize_ b) true) b);;
  on_lru lru_clear;;
  modify (set_ptable (λ _, ∅));;
  modify (λ b, set_buffer (λ _, replicate (bsize_ b) (replicate page_size 0)) b).

(** [scan_file]: the calls of the callback with the pages in order. *)
Definition scan_file (fid : Z) : op (list page) :=
  b ← get_st;
  assert_ (bool_decide (fid < MAX_PFILES ∧ is_Some (files_ b !! fid)));;
  (match find_first (free_slots b) with None => _ ← evict_page; mret tt | Some _ => mret tt end);;
  b ← get_st;
  match find_first (free_slots b) with
  | None => throw undefined_behaviour
  | Some pos =>
    modify (set_free (insert pos false));;
    b ← get_st;
    match files_ b !! fid, buffer_ b !! pos with
    | Some f, Some pg =>
      let '(calls, r) := pf_scan_pages pg f in
      modify (add_reads (Z.of_nat (length calls)) (Z.of_nat (length calls)));;
      p ← lift_res r;
      modify (set_buffer (insert pos p));;
      modify (set_free (insert pos true));;
      mret calls.*1
    | _, _ => throw undefined_behaviour
    end
  end.
End bufferpool.
