(* ===== verification/BufferPoolInv.v ===== *)
(** * BufferPoolInv: the invariant of the page cache

    [pool_ok b L] ties the hash table, the list of pages by last use, the
    occupied slots and the files together; [content b pid] is the page as a
    client sees it, in the cache or in its file. *)

From stdpp Require Import gmap.
From S2P Require Import Prelude LruList PagedFile PagedFileFacts BufferPool.

(** ** Page ids *)
Definition pid_ok (pid : Z) : Prop := 0 ≤ pid < two64.

Lemma raw_pid_mod pid : raw_pid pid = pid mod 2 ^ 60.
Proof. unfold raw_pid. change (2 ^ 60 - 1) with (Z.ones 60). by apply Z.land_ones. Qed.
Lemma file_id_div pid : file_id pid = (pid / 2 ^ 60) mod 2 ^ 4.
Proof.
  unfold file_id. rewrite Z.shiftr_land. change (Z.shiftr (15 * 2 ^ 60) 60) with (Z.ones 4).
  rewrite Z.land_ones by done. by rewrite Z.shiftr_div_pow2.
Qed.
Lemma pid_inj p q : pid_ok p → pid_ok q → file_id p = file_id q → raw_pid p = raw_pid q → p = q.
Proof.
  unfold pid_ok, two64. intros Hp Hq. rewrite !file_id_div, !raw_pid_mod. intros Hf Hr.
  assert (∀ x, 0 ≤ x < 2 ^ 64 → x / 2 ^ 60 mod 2 ^ 4 = x / 2 ^ 60) as Hd.
  { intros x Hx. apply Z.mod_small. split; [apply Z.div_pos; lia|]. apply Z.div_lt_upper_bound; [lia|]. change (2 ^ 60 * 2 ^ 4) with (2 ^ 64). lia. }
  rewrite !Hd in Hf by done. rewrite (Z.div_mod p (2 ^ 60)), (Z.div_mod q (2 ^ 60)) by lia. lia.
Qed.

(** ** What the files and the pool hold *)
Definition file_page (b : bufferpool) (pid : Z) : option page :=
  if bool_decide (file_id pid < MAX_PFILES) then files_ b !! file_id pid ≫= λ f, page_at f (raw_pid pid) else None.
Definition content (b : bufferpool) (pid : Z) : option page :=
  match ptable_ b !! pid with Some s => buffer_ b !! pos_ s | None => file_page b pid end.

Record pool_ok (b : bufferpool) (L : list (nat * Z)) : Prop := {
  pool_lru : lru_ok (lru_list_ b) L;
  pool_pids : NoDup L.*2;
  pool_table : ∀ pid a, (∃ s, ptable_ b !! pid = Some s ∧ lru_node_ s = a) ↔ (a, pid) ∈ L;
  pool_buffer : length (buffer_ b) = bsize_ b;
  pool_slots : length (free_slots b) = bsize_ b;
  pool_used : ∀ pid s, ptable_ b !! pid = Some s → free_slots b !! pos_ s = Some false;
  pool_owner : ∀ pos, free_slots b !! pos = Some false → ∃ pid s, ptable_ b !! pid = Some s ∧ pos_ s = pos;
  pool_inj : ∀ p q s s', ptable_ b !! p = Some s → ptable_ b !! q = Some s' → pos_ s = pos_ s' → p = q;
  pool_files : ∀ fid f, files_ b !! fid = Some f → file_ok f;
  pool_valid : ∀ pid s, ptable_ b !! pid = Some s → pid_ok pid ∧ is_Some (file_page b pid);
  pool_clean : ∀ pid s, ptable_ b !! pid = Some s → dirty_ s = false → buffer_ b !! pos_ s = file_page b pid;
  pool_bound : Z.of_nat (bsize_ b) < two64
}.

Lemma pool_entry b L pid s : pool_ok b L → ptable_ b !! pid = Some s → (lru_node_ s, pid) ∈ L.
Proof. intros H Hs. apply (pool_table _ _ H). eauto. Qed.
Lemma pool_pos b L pid s : pool_ok b L → ptable_ b !! pid = Some s → (pos_ s < bsize_ b)%nat.
Proof. intros H Hs. rewrite <-(pool_slots _ _ H). eapply lookup_lt_Some. by eapply pool_used. Qed.
Lemma pool_page b L pid s : pool_ok b L → ptable_ b !! pid = Some s → ∃ pg, buffer_ b !! pos_ s = Some pg.
Proof. intros H Hs. apply lookup_lt_is_Some_2. rewrite (pool_buffer _ _ H). by eapply pool_pos. Qed.

(** The cached pages are as many as the nodes of the list. *)
Lemma pool_size b L : pool_ok b L → size (ptable_ b) = length L.
Proof.
  intros H. rewrite <-size_dom. assert (dom (ptable_ b) = list_to_set L.*2) as ->.
  { apply set_eq. intros pid. rewrite elem_of_dom, elem_of_list_to_set. split.
    - intros [s Hs]. change pid with ((lru_node_ s, pid).2). apply list_elem_of_fmap_2. by eapply pool_entry.
    - intros ([a p] & -> & Hin)%list_elem_of_fmap. apply (pool_table _ _ H) in Hin as (s & Hs & _). eauto. }
  rewrite size_list_to_set by apply H. by rewrite length_fmap.
Qed.

(** A pool that is not full has an unused slot. *)
Lemma find_first_some l pos : find_first l = Some pos → l !! pos = Some true.
Proof.
  revert pos. induction l as [|[] l IH]; intros pos; cbn; [done|by intros [= <-]|].
  destruct (find_first l) as [i|]; [|done]. intros [= <-]. cbn. by apply IH.
Qed.
Lemma find_first_none l pos : find_first l = None → (pos < length l)%nat → l !! pos = Some false.
Proof.
  revert pos. induction l as [|[] l IH]; intros pos; cbn; [lia|done|].
  destruct (find_first l); [done|]. intros _ Hp. destruct pos as [|pos]; [done|]. cbn. apply IH; [done|lia].
Qed.

Lemma owners b L n : pool_ok b L → (∀ pos, (pos < n)%nat → free_slots b !! pos = Some false) →
  ∃ pids : list Z, length pids = n ∧ NoDup pids ∧ Forall (λ pid, ∃ s, ptable_ b !! pid = Some s ∧ (pos_ s < n)%nat) pids.
Proof.
  intros H. induction n as [|n IH]; intros Hn; [exists []; split_and!; [done|constructor..]|].
  destruct IH as (pids & Hl & Hnd & Hf); [intros pos Hp; apply Hn; lia|].
  destruct (pool_owner _ _ H n (Hn n ltac:(lia))) as (pid & s & Hs & Hpos).
  exists (pid :: pids). split_and!; [by simpl; f_equal| |].
  - constructor; [|done]. intros Hin. rewrite Forall_forall in Hf. destruct (Hf _ Hin) as (s' & Hs' & Hlt). simplify_eq. lia.
  - constructor; [exists s; split; [done|lia]|]. eapply Forall_impl; [exact Hf|]. intros p (s' & Hs' & Hlt). exists s'. split; [done|lia].
Qed.
Lemma pool_full b L : pool_ok b L → find_first (free_slots b) = None → (bsize_ b ≤ length L)%nat.
Proof.
  intros H Hnone. destruct (owners b L (bsize_ b) H) as (pids & Hl & Hnd & Hf).
  { intros pos Hp. apply find_first_none; [done|]. by rewrite (pool_slots _ _ H). }
  rewrite <-(pool_size _ _ H), <-size_dom, <-Hl, <-(size_list_to_set (C := gset Z) pids Hnd).
  apply subseteq_size. intros pid Hin%elem_of_list_to_set. rewrite Forall_forall in Hf.
  destruct (Hf _ Hin) as (s & Hs & _). apply elem_of_dom. eauto.
Qed.
(** The positions of the cached pages. *)
Lemma pool_positions b L : pool_ok b L →
  ∃ ps : list nat, length ps = length L ∧ NoDup ps ∧ Forall (λ p, (p < bsize_ b)%nat ∧ free_slots b !! p = Some false) ps.
Proof.
  intros H. rewrite <-(pool_size _ _ H). exists ((λ e, pos_ e.2) <$> map_to_list (ptable_ b)). split_and!.
  - by rewrite length_fmap, length_map_to_list.
  - apply NoDup_fmap_2_strong; [|apply NoDup_map_to_list].
    intros [p s] [q s'] Hp%elem_of_map_to_list Hq%elem_of_map_to_list E. cbn in E.
    assert (p = q) as -> by (by eapply pool_inj). by simplify_eq.
  - rewrite Forall_fmap, Forall_forall. intros [p s] Hp%elem_of_map_to_list. split; [by eapply pool_pos|by eapply pool_used].
Qed.
Lemma below_length (ps : list nat) n : NoDup ps → Forall (λ p, (p < n)%nat) ps → (length ps ≤ n)%nat.
Proof.
  intros Hnd Hf. assert (ps ⊆+ seq 0 n) as Hsub.
  { apply NoDup_submseteq; [done|]. intros p Hp. rewrite Forall_forall in Hf. apply elem_of_seq. split; [lia|]. by apply Hf. }
  apply submseteq_length in Hsub. by rewrite length_seq in Hsub.
Qed.
Lemma pool_length b L : pool_ok b L → (length L ≤ bsize_ b)%nat.
Proof.
  intros H. destruct (pool_positions b L H) as (ps & <- & Hnd & Hf). apply below_length; [done|].
  eapply Forall_impl; [exact Hf|]. by intros p [? _].
Qed.
(** In a full pool every slot is occupied. *)
Lemma pool_no_slot b L pos : pool_ok b L → length L = bsize_ b → free_slots b !! pos ≠ Some true.
Proof.
  intros H Hfull Hpos. destruct (pool_positions b L H) as (ps & Hl & Hnd & Hf).
  assert (length (pos :: ps) ≤ bsize_ b)%nat; [|simpl in *; lia]. apply below_length.
  - constructor; [|done]. intros Hin. rewrite Forall_forall in Hf. destruct (Hf _ Hin) as [_ Hx]. congruence.
  - constructor; [rewrite <-(pool_slots _ _ H); by eapply lookup_lt_Some|]. eapply Forall_impl; [exact Hf|]. by intros p [? _].
Qed.

(** ** What the operations of the page cache do

    Writing back, taking out, loading and fetching keep the invariant and the
    content of every page. *)

Section ops.
Context (page_size : nat) (header_size : Z).
Notation write_back := (write_page_to_file page_size).

(** The pages of all files after one of them changed. *)
Lemma file_page_insert b f f' pid pg : pid_ok pid → file_id pid < MAX_PFILES → files_ b !! file_id pid = Some f →
  (∀ r, page_at f' r = if decide (r = raw_pid pid) then pg else page_at f r) →
  ∀ q, pid_ok q → file_page (set_files (insert (file_id pid) f') b) q = if decide (q = pid) then pg else file_page b q.
Proof.
  intros Hp Hm Hf Hat q Hq. unfold file_page. cbn [set_files files_]. case_decide as E; [subst q|].
  - rewrite bool_decide_eq_true_2, lookup_insert_eq by done. cbn. by rewrite Hat, decide_True.
  - case_bool_decide; [|done]. destruct (decide (file_id q = file_id pid)) as [Ef|Ef].
    + rewrite Ef, lookup_insert_eq, Hf. cbn. rewrite Hat, decide_False; [done|]. intros Er. apply E. by apply pid_inj.
    + by rewrite lookup_insert_ne by done.
Qed.

Lemma file_page_file b pid pg : file_page b pid = Some pg →
  ∃ f, file_id pid < MAX_PFILES ∧ files_ b !! file_id pid = Some f ∧ page_at f (raw_pid pid) = Some pg.
Proof.
  unfold file_page. case_bool_decide; [|done]. destruct (files_ b !! file_id pid) as [f|]; [|done]. eauto.
Qed.

Lemma on_file_some {A} fid f (m : M paged_file A) b f' r : fid < MAX_PFILES → files_ b !! fid = Some f → m f = (f', r) →
  on_file fid m b = (set_files (insert fid f') b, r).
Proof. intros Hm Hf E. unfold on_file. rewrite bool_decide_eq_true_2 by done. by rewrite Hf, E. Qed.

(** ** Writing a page back *)
Lemma write_back_ok b L pid s pg : pool_ok b L → ptable_ b !! pid = Some s → buffer_ b !! pos_ s = Some pg →
  ∃ b', write_back pid (pos_ s) b = (b', Val tt) ∧ pool_ok b' L
    ∧ buffer_ b' = buffer_ b ∧ lru_list_ b' = lru_list_ b ∧ ptable_ b' = ptable_ b ∧ bsize_ b' = bsize_ b
    ∧ free_slots b' = free_slots b
    ∧ ∀ q, pid_ok q → file_page b' q = if decide (q = pid) then Some pg else file_page b q.
Proof.
  intros H Hs Hpg. destruct (pool_valid _ _ H _ _ Hs) as [Hpid [old Hold]].
  destruct (file_page_file _ _ _ Hold) as (f & Hm & Hf & Hat).
  destruct (write_page_ok page_size f (raw_pid pid) old pg (pool_files _ _ H _ _ Hf) Hat) as (f' & E & Hok & _ & Hat').
  pose proof (file_page_insert b f f' pid (Some pg) Hpid Hm Hf Hat') as Hfp.
  exists (set_files (insert (file_id pid) f') b). split_and!; try done.
  - unfold write_page_to_file. rewrite (bind_val get_st _ b b b eq_refl), Hpg.
    by rewrite (bind_val _ _ _ _ _ (on_file_some _ _ _ _ _ _ Hm Hf E)).
  - destruct H as [H1 H2 H3 H4 H5 H6 H7 H8 H9 H10 H11 H12].
    split; cbn [set_files lru_list_ ptable_ buffer_ free_slots bsize_ files_]; try done.
    + intros fid g. destruct (decide (fid = file_id pid)) as [->|].
      * rewrite lookup_insert_eq. by intros [= <-].
      * rewrite lookup_insert_ne by done. apply H9.
    + intros q s' Hs'. destruct (H10 _ _ Hs') as [Hq Hv]. split; [done|]. rewrite Hfp by done. case_decide; [by eexists|done].
    + intros q s' Hs' Hd. rewrite Hfp by apply (H10 _ _ Hs'). case_decide as Eq; [|by apply H11].
      subst q. by simplify_eq.
Qed.

(** Resetting or setting a flag of an entry. *)
Lemma alter_entry (g : buf_slot → buf_slot) pid (t : gmap Z buf_slot) q s :
  alter g pid t !! q = Some s ↔ ∃ s0, t !! q = Some s0 ∧ s = if decide (q = pid) then g s0 else s0.
Proof.
  destruct (decide (q = pid)) as [->|].
  - rewrite lookup_alter_eq. destruct (t !! pid); cbn; naive_solver.
  - rewrite lookup_alter_ne by done. naive_solver.
Qed.
Lemma pool_ok_alter b L g pid : pool_ok b L → (∀ s, pos_ (g s) = pos_ s ∧ lru_node_ (g s) = lru_node_ s) →
  (∀ s, ptable_ b !! pid = Some s → dirty_ (g s) = false → buffer_ b !! pos_ s = file_page b pid) →
  pool_ok (set_ptable (alter g pid) b) L.
Proof.
  intros [H1 H2 H3 H4 H5 H6 H7 H8 H9 H10 H11 H12] Hg Hd.
  assert (∀ q s, ptable_ (set_ptable (alter g pid) b) !! q = Some s →
            ∃ s0, ptable_ b !! q = Some s0 ∧ pos_ s0 = pos_ s ∧ lru_node_ s0 = lru_node_ s ∧ (q ≠ pid → s = s0) ∧ (q = pid → s = g s0)) as Hinv.
  { intros q s (s0 & Hs0 & ->)%alter_entry. exists s0. destruct (Hg s0) as [E1 E2]. case_decide; naive_solver. }
  split; cbn [set_ptable lru_list_ buffer_ free_slots bsize_ files_]; try done.
  - intros q a. rewrite <-H3. split.
    + intros (s & (s0 & Hs0 & _ & El & _)%Hinv & <-). eauto.
    + intros (s0 & Hs0 & <-). eexists. split; [apply alter_entry; eauto|]. case_decide; [apply Hg|done].
  - intros q s (s0 & Hs0 & Ep & _)%Hinv. rewrite <-Ep. by eapply H6.
  - intros pos (q & s0 & Hs0 & Ep)%H7. exists q. eexists. split; [apply alter_entry; eauto|]. rewrite <-Ep. case_decide; [apply Hg|done].
  - intros p q s s' (s0 & Hs0 & Ep & _)%Hinv (s1 & Hs1 & Eq & _)%Hinv E. eapply H8; [exact Hs0|exact Hs1|congruence].
  - intros q s (s0 & Hs0 & _)%Hinv. by eapply H10.
  - intros q s (s0 & Hs0 & Ep & _ & E1 & E2)%Hinv Hds. rewrite <-Ep. destruct (decide (q = pid)) as [->|].
    + eapply Hd; [done|]. by rewrite <-E2.
    + apply (H11 q s0 Hs0). by rewrite <-E1.
Qed.
Lemma content_alter b g pid q : (∀ s, pos_ (g s) = pos_ s) → content (set_ptable (alter g pid) b) q = content b q.
Proof.
  intros Hg. unfold content. cbn [set_ptable ptable_ buffer_]. destruct (decide (q = pid)) as [->|].
  - rewrite lookup_alter_eq. destruct (ptable_ b !! pid); cbn; [by rewrite Hg|done].
  - by rewrite lookup_alter_ne by done.
Qed.

(** ** Taking a page out of the cache *)
Lemma list_alter_length {A} (f : A → A) i l : length (alter f i l) = length l.
Proof. revert i. induction l as [|x l IH]; intros [|i]; cbn; auto. Qed.

Lemma drop_page_ok b L1 a pid L2 s : pool_ok b (L1 ++ (a, pid) :: L2) → ptable_ b !! pid = Some s →
  buffer_ b !! pos_ s = file_page b pid →
  ∃ b', drop_page pid s b = (b', Val tt) ∧ pool_ok b' (L1 ++ L2) ∧ ptable_ b' = delete pid (ptable_ b)
    ∧ bsize_ b' = bsize_ b ∧ files_ b' = files_ b ∧ free_slots b' !! pos_ s = Some true
    ∧ ∀ q, content b' q = content b q.
Proof.
  intros H Hs Hclean. pose proof (pool_entry _ _ _ _ H Hs) as Hin. pose proof (pool_pos _ _ _ _ H Hs) as Hpos.
  assert (lru_node_ s = a) as Ea.
  { assert (∃ s', ptable_ b !! pid = Some s' ∧ lru_node_ s' = a) as (s' & Hs' & <-) by (apply (pool_table _ _ H); set_solver).
    by simplify_eq. }
  destruct (lru_remove_ok _ _ _ _ (pool_lru _ _ H)) as (l' & E & Hl & _). cbn [fst] in E.
  eexists. split.
  { unfold drop_page. erewrite bind_val by reflexivity. erewrite bind_val by reflexivity.
    rewrite Ea. erewrite bind_val; [|unfold on_lru; cbn [set_buffer set_free lru_list_]; rewrite E; reflexivity]. reflexivity. }
  assert (∀ q s', ptable_ b !! q = Some s' → q ≠ pid → pos_ s' ≠ pos_ s) as Hne.
  { intros q s' Hs' Hq Ep. apply Hq. by eapply pool_inj. }
  assert (pid ∉ (L1 ++ L2).*2) as Hnp.
  { pose proof (pool_pids _ _ H) as Hnd. rewrite fmap_app, fmap_cons in Hnd. cbn in Hnd.
    apply NoDup_app in Hnd as (_ & Hd & [Hn _]%NoDup_cons). rewrite fmap_app. set_solver. }
  destruct H as [H1 H2 H3 H4 H5 H6 H7 H8 H9 H10 H11 H12]. split_and!; try done.
  - split; cbn [set_ptable set_lru set_buffer set_free lru_list_ ptable_ buffer_ free_slots bsize_ files_]; try done.
    + revert H2. rewrite !fmap_app, fmap_cons, !NoDup_app, NoDup_cons. set_solver.
    + intros q x. split.
      * intros (s' & Hs' & <-). apply lookup_delete_Some in Hs' as [Hq Hs'].
        assert ((lru_node_ s', q) ∈ L1 ++ (a, pid) :: L2) as Hx by (apply H3; eauto). set_solver.
      * intros Hx. assert (q ≠ pid) as Hq.
        { intros ->. apply Hnp. change pid with ((x, pid).2). by apply list_elem_of_fmap_2. }
        assert ((x, q) ∈ L1 ++ (a, pid) :: L2) as (s' & Hs' & <-)%H3 by set_solver.
        exists s'. by rewrite lookup_delete_ne by done.
    + by rewrite list_alter_length.
    + by rewrite length_insert.
    + intros q s' [Hq Hs']%lookup_delete_Some. rewrite list_lookup_insert_ne by (symmetry; by eapply Hne). by eapply H6.
    + intros pos Hp. destruct (decide (pos = pos_ s)) as [->|Hpn].
      * rewrite list_lookup_insert_eq in Hp by (rewrite H5; done). done.
      * rewrite list_lookup_insert_ne in Hp by done. destruct (H7 _ Hp) as (q & s' & Hs' & <-). exists q, s'. split; [|done].
        rewrite lookup_delete_ne; [done|]. intros <-. by simplify_eq.
    + intros p q s1 s2 [_ Hs1]%lookup_delete_Some [_ Hs2]%lookup_delete_Some. by eapply H8.
    + intros q s' [_ Hs']%lookup_delete_Some. by apply (H10 _ _ Hs').
    + intros q s' [Hq Hs']%lookup_delete_Some Hd. rewrite list_lookup_alter_ne by (symmetry; by eapply Hne). by apply H11.
  - cbn. apply list_lookup_insert_eq. by rewrite H5.
  - intros q. unfold content. cbn [set_ptable set_lru set_buffer set_free lru_list_ ptable_ buffer_ free_slots bsize_ files_].
    destruct (decide (q = pid)) as [->|Hq].
    + rewrite lookup_delete_eq, Hs. by rewrite Hclean.
    + rewrite lookup_delete_ne by done. destruct (ptable_ b !! q) as [s'|] eqn:Es'; [|done].
      apply list_lookup_alter_ne. symmetry. by eapply Hne.
Qed.
(** ** The search for a victim *)
Lemma on_lru_same {A} (m : M lru_list A) b r : m (lru_list_ b) = (lru_list_ b, r) → on_lru m b = (b, r).
Proof. intros E. unfold on_lru. rewrite E. by destruct b. Qed.

Definition pinned_at (b : bufferpool) (e : nat * Z) : Prop := ∃ s, ptable_ b !! e.2 = Some s ∧ pinned_ s = true.

(** The victim is the first page of the list that is not pinned. *)
Lemma evict_loop_ok b L1 L2 f : pool_ok b (L1 ++ L2) → (length L2 < f)%nat →
  ∃ b' r, evict_loop page_size f (Some (match L2 with [] => lru_tail (lru_list_ b) | n :: _ => n.1 end)) b = (b', Val r)
    ∧ if r : bool then
        ∃ La e Lb, L2 = La ++ e :: Lb ∧ Forall (pinned_at b) La ∧ ¬ pinned_at b e
          ∧ pool_ok b' (L1 ++ La ++ Lb) ∧ ptable_ b' = delete e.2 (ptable_ b) ∧ bsize_ b' = bsize_ b
          ∧ ∀ q, pid_ok q → content b' q = content b q
      else b' = b ∧ Forall (pinned_at b) L2.
Proof.
  revert L1 f. induction L2 as [|[a pid] L2 IH]; intros L1 f H Hf; (destruct f as [|f]; [simpl in Hf; lia|]); cbn [evict_loop].
  - exists b, false. rewrite (bind_val get_st _ b b b eq_refl), bool_decide_eq_true_2 by done. split_and!; [done..|constructor].
  - pose proof (pool_lru _ _ H) as Hl. cbn [fst].
    assert (a ≠ lru_tail (lru_list_ b)) as Hne.
    { pose proof (lru_nodup _ _ Hl) as [_ Hnd]%NoDup_cons. apply NoDup_app in Hnd as (_ & Hnd & _).
      intros Ea. apply (Hnd a); [rewrite fmap_app, fmap_cons; apply elem_of_app; right; by left|rewrite Ea; by left]. }
    rewrite (bind_val get_st _ b b b eq_refl), bool_decide_eq_false_2 by congruence.
    destruct (lru_alloc_at _ _ a Hl) as [d Hd].
    { right. rewrite fmap_app, fmap_cons. apply elem_of_app. left. apply elem_of_app. right. by left. }
    assert (ln_pid d = pid) as Ed.
    { pose proof (lru_pids _ _ Hl) as Hp. rewrite Forall_app, Forall_cons in Hp. destruct Hp as (_ & Hp & _).
      cbn in Hp. rewrite Hd in Hp. by injection Hp. }
    rewrite (bind_val _ _ _ _ _ (on_lru_same _ b _ (lru_deref_some _ _ _ Hd))). cbn [snd]. rewrite Ed.
    assert (∃ s, ptable_ b !! pid = Some s ∧ lru_node_ s = a) as (s & Hs & <-) by (apply (pool_table _ _ H); set_solver).
    rewrite Hs. destruct (pinned_ s) eqn:Epin.
    + (* pinned: go on *)
      rewrite (bind_val _ _ _ _ _ (on_lru_same _ b _ (lru_next_ok _ _ _ _ Hl))).
      destruct (IH (L1 ++ [(lru_node_ s, pid)]) f) as (b' & r & E & Hr); [by rewrite <-(assoc app)|simpl in Hf; lia|].
      assert (pinned_at b (lru_node_ s, pid)) as Hpin by (exists s; done).
      exists b', r. split; [exact E|]. destruct r.
      * destruct Hr as (La & e & Lb & -> & HLa & He & Hok & Hrest). exists ((lru_node_ s, pid) :: La), e, Lb.
        split_and!; [done|by constructor|done| |apply Hrest..]. by rewrite <-(assoc app) in Hok.
      * destruct Hr as [-> Hall]. split; [done|]. by constructor.
    + (* the victim *)
      destruct (pool_page _ _ _ _ H Hs) as [pg Hpg].
      assert (∃ b1, when (dirty_ s) (write_back pid (pos_ s)) b = (b1, Val tt) ∧ pool_ok b1 (L1 ++ (lru_node_ s, pid) :: L2)
              ∧ ptable_ b1 = ptable_ b ∧ bsize_ b1 = bsize_ b ∧ buffer_ b1 !! pos_ s = file_page b1 pid
              ∧ ∀ q, pid_ok q → content b1 q = content b q) as (b1 & E1 & H1 & Et & Eb & Hc1 & Hcont).
      { destruct (dirty_ s) eqn:Edirty; cbn [when].
        - destruct (write_back_ok _ _ _ _ _ H Hs Hpg) as (b1 & E1 & H1 & Ebuf & _ & Et & Eb & _ & Hfp). exists b1.
          destruct (pool_valid _ _ H _ _ Hs) as [Hpid _]. split_and!; try done.
          + by rewrite Ebuf, Hpg, Hfp, decide_True by done.
          + intros q Hq. unfold content. rewrite Et, Ebuf. destruct (ptable_ b !! q) eqn:Eq; [done|].
            rewrite Hfp by done. rewrite decide_False; [done|]. intros ->. by simplify_eq.
        - exists b. split_and!; try done. by eapply pool_clean. }
      rewrite (bind_val _ _ _ _ _ E1).
      destruct (drop_page_ok b1 L1 (lru_node_ s) pid L2 s H1) as (b2 & E2 & H2 & Et2 & Eb2 & _ & _ & Hc2); [by rewrite Et|done|].
      rewrite (bind_val _ _ _ _ _ E2). exists b2, true. split; [done|].
      exists [], (lru_node_ s, pid), L2. split_and!; try done.
      * intros (s' & Hs' & Hp). cbn in Hs'. congruence.
      * by rewrite Et2, Et.
      * by rewrite Eb2, Eb.
      * intros q Hq. by rewrite Hc2, Hcont.
Qed.

Lemma evict_page_ok b L : pool_ok b L →
  ∃ b' r, evict_page page_size b = (b', Val r)
    ∧ if r : bool then
        ∃ La e Lb, L = La ++ e :: Lb ∧ Forall (pinned_at b) La ∧ ¬ pinned_at b e
          ∧ pool_ok b' (La ++ Lb) ∧ ptable_ b' = delete e.2 (ptable_ b) ∧ bsize_ b' = bsize_ b
          ∧ ∀ q, pid_ok q → content b' q = content b q
      else b' = b ∧ Forall (pinned_at b) L.
Proof.
  intros H. unfold evict_page. pose proof (pool_lru _ _ H) as Hl.
  rewrite (bind_val _ _ _ _ _ (on_lru_same _ b _ (lru_first_ok _ _ Hl))), (bind_val get_st _ b b b eq_refl).
  apply (evict_loop_ok b [] L); [done|].
  assert (length L ≤ size (lru_heap (lru_list_ b)))%nat; [|lia].
  rewrite <-(length_fmap fst), <-size_dom.
  pose proof (lru_nodup _ _ Hl) as [_ Hnd]%NoDup_cons. apply NoDup_app in Hnd as [Hnd _].
  rewrite <-(size_list_to_set (C := gset nat) _ Hnd). apply subseteq_size. intros a Ha%elem_of_list_to_set.
  apply elem_of_dom. eapply lru_alloc_at; [exact Hl|]. set_solver.
Qed.

(** ** Entering a page *)
Definition entered (pid : Z) (pos n : nat) (pg : page) (l : lru_list) (b : bufferpool) : bufferpool :=
  set_ptable (insert pid (mk_slot false false pos n)) (set_lru l (set_buffer (insert pos pg) (set_free (insert pos false) b))).

Lemma entered_ok b L pid pos n pg l : pool_ok b L → pid_ok pid → ptable_ b !! pid = None →
  free_slots b !! pos = Some true → file_page b pid = Some pg → lru_ok l (L ++ [(n, pid)]) →
  pool_ok (entered pid pos n pg l b) (L ++ [(n, pid)]) ∧ ∀ q, content (entered pid pos n pg l b) q = content b q.
Proof.
  intros H Hpid Hnew Hfree Hpg Hl.
  assert (pos < bsize_ b)%nat as Hpos by (rewrite <-(pool_slots _ _ H); by eapply lookup_lt_Some).
  assert (∀ q s, ptable_ b !! q = Some s → pos_ s ≠ pos) as Hne.
  { intros q s Hs E. pose proof (pool_used _ _ H _ _ Hs) as Hu. congruence. }
  assert (∀ q s, ptable_ b !! q = Some s → q ≠ pid) as Hnq by (intros q s Hs ->; congruence).
  destruct H as [H1 H2 H3 H4 H5 H6 H7 H8 H9 H10 H11 H12]. split.
  - split; cbn [entered set_ptable set_lru set_buffer set_free lru_list_ ptable_ buffer_ free_slots bsize_ files_]; try done.
    + rewrite fmap_app. cbn. apply NoDup_app. split_and!; [done| |apply NoDup_singleton].
      intros q Hq ->%list_elem_of_singleton. apply list_elem_of_fmap in Hq as ([a q] & -> & Hin). cbn in Hnew.
      apply H3 in Hin as (s & Hs & _). congruence.
    + intros q a. rewrite elem_of_app, list_elem_of_singleton, <-H3. split.
      * intros (s & [[<- <-]|[Hq Hs]]%lookup_insert_Some & <-); [by right|]. left. eauto.
      * intros [(s & Hs & <-)|[= -> ->]]; [|rewrite lookup_insert_eq; by eexists].
        exists s. rewrite lookup_insert_ne; [done|]. symmetry. by eapply Hnq.
    + by rewrite length_insert.
    + by rewrite length_insert.
    + intros q s [[<- <-]|[Hq Hs]]%lookup_insert_Some; cbn.
      * apply list_lookup_insert_eq. lia.
      * rewrite list_lookup_insert_ne by (symmetry; by eapply Hne). by eapply H6.
    + intros p Hp. destruct (decide (p = pos)) as [->|Hpp].
      * exists pid. eexists. by rewrite lookup_insert_eq.
      * rewrite list_lookup_insert_ne in Hp by done. destruct (H7 _ Hp) as (q & s & Hs & <-).
        exists q, s. rewrite lookup_insert_ne; [done|]. symmetry. by eapply Hnq.
    + intros p q s s' [[<- <-]|[Hp Hs]]%lookup_insert_Some [[<- <-]|[Hq Hs']]%lookup_insert_Some E; cbn in *; try done.
      * symmetry in E. by apply (Hne _ _ Hs') in E.
      * by apply (Hne _ _ Hs) in E.
      * by eapply H8.
    + intros q s [[<- <-]|[Hq Hs]]%lookup_insert_Some; [split; [done|by eexists]|by eapply H10].
    + intros q s [[<- <-]|[Hq Hs]]%lookup_insert_Some Hd; cbn.
      * rewrite list_lookup_insert_eq by lia. done.
      * rewrite list_lookup_insert_ne by (symmetry; by eapply Hne). by apply H11.
  - intros q. unfold content. cbn [entered set_ptable set_lru set_buffer set_free lru_list_ ptable_ buffer_ free_slots bsize_ files_].
    destruct (decide (q = pid)) as [->|Hq].
    + rewrite lookup_insert_eq, Hnew. cbn. by rewrite list_lookup_insert_eq by lia.
    + rewrite lookup_insert_ne by done. destruct (ptable_ b !! q) as [s|] eqn:Es; [|done].
      apply list_lookup_insert_ne. symmetry. by eapply Hne.
Qed.

(** ** Fetching a page *)
Lemma pool_ok_reads b L m n : pool_ok b L → pool_ok (add_reads m n b) L.
Proof. intros []. by split. Qed.
Lemma pool_ok_moved b L1 e L2 l : pool_ok b (L1 ++ e :: L2) → lru_ok l ((L1 ++ L2) ++ [e]) → pool_ok (set_lru l b) ((L1 ++ L2) ++ [e]).
Proof.
  intros [H1 H2 H3 H4 H5 H6 H7 H8 H9 H10 H11 H12] Hl.
  assert ((L1 ++ L2) ++ [e] ≡ₚ L1 ++ e :: L2) as Hp by solve_Permutation. split; cbn [set_lru lru_list_ ptable_ buffer_ free_slots bsize_ files_]; try done.
  - by rewrite Hp.
  - intros q a. by rewrite H3, Hp.
Qed.

(** A file of a page that is there, and loading it. *)
Lemma load_ok b L pid pg : pool_ok b L → file_page b pid = Some pg → (length L < bsize_ b)%nat →
  ∃ pos, load_page_from_file pid b = (set_buffer (insert pos pg) (set_free (insert pos false) b), Val pos)
         ∧ free_slots b !! pos = Some true.
Proof.
  intros H Hpg Hlen. destruct (file_page_file _ _ _ Hpg) as (f & Hm & Hf & Hat).
  destruct (find_first (free_slots b)) as [pos|] eqn:Ef.
  2: { apply (pool_full _ _ H) in Ef. lia. }
  pose proof (find_first_some _ _ Ef) as Hpos. exists pos. split; [|done].
  assert (pos < length (buffer_ b))%nat as Hlt by (rewrite (pool_buffer _ _ H), <-(pool_slots _ _ H); by eapply lookup_lt_Some).
  destruct (lookup_lt_is_Some_2 _ _ Hlt) as [old Hold].
  unfold load_page_from_file. rewrite (bind_val get_st _ b b b eq_refl), Ef.
  erewrite bind_val by reflexivity. rewrite Hold.
  erewrite bind_val; [|eapply on_file_some; [exact Hm|exact Hf|apply (read_page_ok _ _ _ old (pool_files _ _ H _ _ Hf) Hat)]].
  unfold modify, mbind, M_bind. cbn. unfold set_free, set_buffer, set_files. cbn. by rewrite insert_id by done.
Qed.

Lemma fetch_page_ok b L pid : pool_ok b L → pid_ok pid → is_Some (content b pid) → (0 < bsize_ b)%nat →
  (is_Some (ptable_ b !! pid) ∨ (length L < bsize_ b)%nat ∨ ∃ e, e ∈ L ∧ ¬ pinned_at b e) →
  ∃ b' L' pos, fetch_page page_size pid b = (b', Val pos) ∧ pool_ok b' L' ∧ bsize_ b' = bsize_ b
    ∧ (∃ s, ptable_ b' !! pid = Some s ∧ pos_ s = pos)
    ∧ (∀ q, pid_ok q → content b' q = content b q)
    ∧ (∀ q s, ptable_ b' !! q = Some s → pinned_ s || dirty_ s = true → ptable_ b !! q = Some s).
Proof.
  intros H0 Hpid [pg Hc] Hb0 Hroom. unfold fetch_page. erewrite bind_val by reflexivity.
  apply (pool_ok_reads _ _ 0 1) in H0 as H. set (b1 := add_reads 0 1 b) in *.
  rewrite (bind_val get_st _ b1 b1 b1 eq_refl). change (ptable_ b) with (ptable_ b1) in Hroom.
  destruct (ptable_ b1 !! pid) as [s|] eqn:Es.
  - pose proof (pool_entry _ _ _ _ H Es) as Hin. apply list_elem_of_split in Hin as (L1 & L2 & ->).
    destruct (move_to_mru_ok _ _ _ _ (pool_lru _ _ H)) as (l' & E & Hl & _). cbn [fst] in E.
    exists (set_lru l' b1), ((L1 ++ L2) ++ [(lru_node_ s, pid)]), (pos_ s). split_and!; try done.
    + unfold on_lru. erewrite bind_val; [|rewrite E; reflexivity]. done.
    + by apply (pool_ok_moved _ _ _ _ _ H).
    + exists s. done.
  - unfold content in Hc. change (ptable_ b) with (ptable_ b1) in Hc. rewrite Es in Hc.
    assert (∃ b2 L2, when (bool_decide (lru_size (lru_list_ b1) = Z.of_nat (bsize_ b1))) (res ← evict_page page_size; assert_ res) b1 = (b2, Val tt)
              ∧ pool_ok b2 L2 ∧ (length L2 < bsize_ b2)%nat ∧ bsize_ b2 = bsize_ b ∧ ptable_ b2 !! pid = None ∧ file_page b2 pid = Some pg
              ∧ (∀ q, pid_ok q → content b2 q = content b q) ∧ (∀ q s, ptable_ b2 !! q = Some s → ptable_ b !! q = Some s))
      as (b2 & L2 & E2 & H2 & Hlen & Hb2 & Hn2 & Hf2 & Hc2 & Ht2).
    { rewrite (lru_len _ _ (pool_lru _ _ H)). pose proof (pool_length _ _ H) as Hle. case_bool_decide as Hfull; cbn [when].
      - destruct (evict_page_ok _ _ H) as (b2 & r & E & Hr). destruct r.
        + destruct Hr as (La & e & Lb & -> & HLa & He & Hok & Et & Ebs & Hcont).
          exists b2, (La ++ Lb). rewrite (bind_val _ _ _ _ _ E). rewrite !length_app in *. cbn [length] in *.
          assert (ptable_ b2 !! pid = None) as Hn by (rewrite Et; by apply lookup_delete_None; right).
          split_and!; try done; [lia| |].
          * specialize (Hcont pid Hpid). unfold content in Hcont. by rewrite Hn, Es in Hcont; rewrite Hcont.
          * intros q s. rewrite Et. by intros [_ Hs]%lookup_delete_Some.
        + destruct Hr as [_ Hall]. destruct Hroom as [[? ?]|[Hlt|(e & He & Hp)]]; [congruence|change (bsize_ b1) with (bsize_ b) in *; lia|].
          rewrite Forall_forall in Hall. by apply Hall in He.
      - exists b1, L. split_and!; try done. lia. }
    rewrite (bind_val _ _ _ _ _ E2). destruct (load_ok _ _ _ _ H2 Hf2 Hlen) as (pos & E3 & Hpos).
    rewrite (bind_val _ _ _ _ _ E3).
    destruct (add_to_mru_ok _ _ pid (pool_lru _ _ H2)) as (l' & n & E4 & Hl & _).
    { pose proof (pool_bound _ _ H2). lia. }
    destruct (entered_ok b2 L2 pid pos n pg l' H2 Hpid Hn2 Hpos Hf2 Hl) as [Hok Hcont].
    exists (entered pid pos n pg l' b2), (L2 ++ [(n, pid)]), pos. split_and!; try done.
    + erewrite bind_val; [|unfold on_lru; cbn [set_buffer set_free lru_list_]; rewrite E4; reflexivity].
      unfold modify, mbind, M_bind. cbn [mret M_ret]. unfold entered, set_ptable. cbn. by rewrite Hn2.
    + eexists. cbn. by rewrite lookup_insert_eq.
    + intros q Hq. by rewrite Hcont, Hc2.
    + intros q s Hq Hp. unfold entered in Hq. cbn in Hq. apply lookup_insert_Some in Hq as [[<- <-]|[_ Hs]]; [done|by apply Ht2].
Qed.
End ops.
