(* ===== verification/BufferPoolRefine.v ===== *)
(** * BufferPoolRefine: the page cache is transparent

    For every sequence of reads, writes and flushes of pages a client sees a map
    from page ids to pages, whatever is evicted in between; [flush_all] brings
    the files up to the map.  What freeing a page, a failed fetch and [purge] do
    to the cache. *)

From stdpp Require Import gmap.
From S2P Require Import Prelude LruList PagedFile PagedFileFacts BufferPool BufferPoolInv.

Section refine.
Context (page_size : nat) (header_size : Z).
Context (order : gmap Z buf_slot → list Z).
(** An iterator visits every entry of the hash table. *)
Hypothesis order_all : ∀ (t : gmap Z buf_slot) pid, is_Some (t !! pid) → pid ∈ order t.
Notation fetch := (fetch_page page_size).

(** ** Flushing *)

(** Two tables with the same entries up to the dirty flag. *)
Definition same_entry (s s' : buf_slot) : Prop :=
  pos_ s' = pos_ s ∧ lru_node_ s' = lru_node_ s ∧ pinned_ s' = pinned_ s ∧ (dirty_ s' = true → dirty_ s = true).
Definition same_entries (t t' : gmap Z buf_slot) : Prop :=
  ∀ q, match t !! q, t' !! q with Some s, Some s' => same_entry s s' | None, None => True | _, _ => False end.
#[local] Instance same_entries_refl : Reflexive same_entries.
Proof. intros t q. destruct (t !! q); [|done]. by repeat split. Qed.
#[local] Instance same_entries_trans : Transitive same_entries.
Proof.
  intros t1 t2 t3 H1 H2 q. specialize (H1 q). specialize (H2 q).
  destruct (t1 !! q), (t2 !! q), (t3 !! q); try done. unfold same_entry in *. naive_solver congruence.
Qed.

Record flushed (b b' : bufferpool) (L : list (nat * Z)) : Prop := {
  flushed_ok : pool_ok b' L;
  flushed_size : bsize_ b' = bsize_ b;
  flushed_content : ∀ q, pid_ok q → content b' q = content b q;
  flushed_table : same_entries (ptable_ b) (ptable_ b')
}.
Lemma flushed_trans b b1 b2 L : flushed b b1 L → flushed b1 b2 L → flushed b b2 L.
Proof.
  intros [H1 H2 H3 H4] [G1 G2 G3 G4]. split; [done|congruence| |by etrans].
  intros q Hq. rewrite G3, H3 by done. done.
Qed.

(** Writing one page back and resetting its flag. *)
Lemma write_clean_ok b L pid s : pool_ok b L → ptable_ b !! pid = Some s →
  ∃ b', (write_page_to_file page_size pid (pos_ s);; modify (set_ptable (alter (set_dirty_flag false) pid))) b = (b', Val tt)
    ∧ flushed b b' L ∧ ptable_ b' = alter (set_dirty_flag false) pid (ptable_ b).
Proof.
  intros H Hs. destruct (pool_page _ _ _ _ H Hs) as [pg Hpg]. destruct (pool_valid _ _ H _ _ Hs) as [Hpid _].
  destruct (write_back_ok page_size _ _ _ _ _ H Hs Hpg) as (b1 & E & H1 & Ebuf & El & Et & Eb & Ef & Hfp).
  exists (set_ptable (alter (set_dirty_flag false) pid) b1). split_and!.
  - by rewrite (bind_val _ _ _ _ _ E).
  - assert (∀ q, pid_ok q → content b1 q = content b q) as Hc.
    { intros q Hq. unfold content. rewrite Et, Ebuf. destruct (ptable_ b !! q) eqn:Eq; [done|].
      rewrite Hfp by done. rewrite decide_False; [done|]. intros ->. by simplify_eq. }
    split; [|done| |].
    + apply pool_ok_alter; [done|done|]. intros s' Hs' _. rewrite Et in Hs'. simplify_eq. by rewrite Ebuf, Hpg, Hfp, decide_True by done.
    + intros q Hq. rewrite content_alter by done. by apply Hc.
    + intros q. cbn [set_ptable ptable_]. rewrite Et. destruct (decide (q = pid)) as [->|].
      * rewrite lookup_alter_eq, Hs. cbn. by repeat split.
      * rewrite lookup_alter_ne by done. apply same_entries_refl.
  - cbn. by rewrite Et.
Qed.

Lemma flush_if_ok cond pid b L : pool_ok b L →
  ∃ b', flush_if page_size cond pid b = (b', Val tt) ∧ flushed b b' L
    ∧ (cond pid = true → ∀ s, ptable_ b' !! pid = Some s → dirty_ s = false).
Proof.
  intros H. unfold flush_if. rewrite (bind_val get_st _ b b b eq_refl). destruct (ptable_ b !! pid) as [s|] eqn:Es.
  - destruct (dirty_ s && cond pid) eqn:Ed; cbn [when].
    + destruct (write_clean_ok _ _ _ _ H Es) as (b' & E & Hf & Et). exists b'. split_and!; [done..|].
      intros _ s'. rewrite Et, lookup_alter_eq, Es. by intros [= <-].
    + exists b. split_and!; [done|by split|]. intros Hc s' Hs'. rewrite Hc, andb_true_r in Ed. congruence.
  - exists b. split_and!; [done|by split|]. intros _ s' Hs'. congruence.
Qed.

Lemma flush_loop_ok cond l b L : pool_ok b L →
  ∃ b', for_each (flush_if page_size cond) l b = (b', Val tt) ∧ flushed b b' L
    ∧ (∀ q s, q ∈ l → cond q = true → ptable_ b' !! q = Some s → dirty_ s = false).
Proof.
  revert b. induction l as [|pid l IH]; intros b H.
  - exists b. split_and!; [done|by split|]. intros q s Hq. set_solver.
  - destruct (flush_if_ok cond pid b L H) as (b1 & E1 & F1 & C1).
    destruct (IH b1 (flushed_ok _ _ _ F1)) as (b2 & E2 & F2 & C2). exists b2. split_and!.
    + by rewrite for_each_cons, (bind_val _ _ _ _ _ E1).
    + by eapply flushed_trans.
    + intros q s [->|Hq]%elem_of_cons Hc Hs; [|by eapply C2].
      pose proof (flushed_table _ _ _ F2 pid) as Ht. rewrite Hs in Ht.
      destruct (ptable_ b1 !! pid) as [s1|] eqn:Es1; [|done]. specialize (C1 Hc s1 eq_refl).
      destruct (dirty_ s) eqn:Ed; [|done]. destruct Ht as (_ & _ & _ & Ht). apply Ht in Ed. congruence.
Qed.

Lemma flush_all_ok b L : pool_ok b L →
  ∃ b', flush_all page_size order b = (b', Val tt) ∧ flushed b b' L ∧ ∀ q, pid_ok q → file_page b' q = content b q.
Proof.
  intros H. unfold flush_all. rewrite (bind_val get_st _ b b b eq_refl).
  destruct (flush_loop_ok (λ _, true) (order (ptable_ b)) b L H) as (b' & E & F & C).
  exists b'. split_and!; [done..|]. intros q Hq. rewrite <-(flushed_content _ _ _ F q Hq). unfold content.
  destruct (ptable_ b' !! q) as [s|] eqn:Es; [|done]. symmetry. eapply pool_clean; [apply F|done|].
  eapply C; [|done|done]. apply order_all.
  pose proof (flushed_table _ _ _ F q) as Ht. rewrite Es in Ht. destruct (ptable_ b !! q); [eauto|done].
Qed.

Lemma flush_page_ok b L pid evict : pool_ok b L →
  ∃ b' L', flush_page page_size pid evict b = (b', Val tt) ∧ pool_ok b' L' ∧ bsize_ b' = bsize_ b
    ∧ (∀ q, pid_ok q → content b' q = content b q)
    ∧ (∀ q s, ptable_ b' !! q = Some s → ∃ s0, ptable_ b !! q = Some s0 ∧ pinned_ s = pinned_ s0).
Proof.
  intros H. unfold flush_page. rewrite (bind_val get_st _ b b b eq_refl). destruct (ptable_ b !! pid) as [s|] eqn:Es.
  2: { exists b, L. split_and!; try done. eauto. }
  assert (∃ b1, when (dirty_ s) (write_page_to_file page_size pid (pos_ s);; modify (set_ptable (alter (set_dirty_flag false) pid))) b = (b1, Val tt)
          ∧ flushed b b1 L ∧ ∃ s1, ptable_ b1 !! pid = Some s1 ∧ dirty_ s1 = false ∧ pos_ s1 = pos_ s ∧ lru_node_ s1 = lru_node_ s)
    as (b1 & E1 & F1 & s1 & Hs1 & Hd1 & Hp1 & Hl1).
  { destruct (dirty_ s) eqn:Ed; cbn [when].
    - destruct (write_clean_ok _ _ _ _ H Es) as (b1 & E & Hf & Et). exists b1. split_and!; [done..|].
      eexists. rewrite Et, lookup_alter_eq, Es. by split_and!.
    - exists b. split_and!; [done|by split|]. by exists s. }
  rewrite (bind_val _ _ _ _ _ E1).
  assert (∀ q s', ptable_ b1 !! q = Some s' → ∃ s0, ptable_ b !! q = Some s0 ∧ pinned_ s' = pinned_ s0) as Hpin.
  { intros q s' Hs'. pose proof (flushed_table _ _ _ F1 q) as Ht. rewrite Hs' in Ht. destruct (ptable_ b !! q) as [s0|]; [|done].
    exists s0. split; [done|apply Ht]. }
  destruct F1 as [Hok Hsz Hcont _]. destruct evict; cbn [when]; [|by exists b1, L].
  pose proof (pool_entry _ _ _ _ Hok Hs1) as Hin. apply list_elem_of_split in Hin as (L1 & L2 & ->).
  destruct (drop_page_ok b1 L1 _ pid L2 s1 Hok Hs1) as (b2 & E2 & H2 & Et2 & Eb2 & _ & _ & Hc2); [by eapply pool_clean|].
  exists b2, (L1 ++ L2). split_and!; [|done|congruence|intros q Hq; by rewrite Hc2, Hcont|].
  - (* the same steps in another order *)
    revert E2. unfold drop_page. rewrite <-Hp1, <-Hl1. clear.
    unfold on_lru, modify, mbind, M_bind. cbn. by destruct (lru_remove (Some (lru_node_ s1)) (lru_list_ b1)) as [l [[]|e]].
  - intros q s'. rewrite Et2. intros [_ Hs']%lookup_delete_Some. by apply Hpin.
Qed.
(** ** Clients *)

(** What a client does with pages: [fetch_page] and a read or a write through
    the pointer, with [mark_dirty] after a write, and flushes. *)
Inductive pool_op : Type :=
  | Read (pid : Z)
  | Write (pid : Z) (pg : page)
  | Flush (pid : Z) (evict : bool)
  | FlushAll.
Definition run_op (o : pool_op) : M bufferpool (option page) :=
  match o with
  | Read pid => pos ← fetch pid; b ← get_st; mret (buffer_ b !! pos)
  | Write pid pg => pos ← fetch pid; modify (set_buffer (insert pos pg));; mark_dirty pid;; mret None
  | Flush pid evict => flush_page page_size pid evict;; mret None
  | FlushAll => flush_all page_size order;; mret None
  end.
Fixpoint run_ops (os : list pool_op) : M bufferpool (list (option page)) :=
  match os with [] => mret [] | o :: os' => r ← run_op o; rs ← run_ops os'; mret (r :: rs) end.

(** The same on a map. *)
Definition spec_op (o : pool_op) (m : gmap Z page) : gmap Z page * option page :=
  match o with
  | Read pid => (m, m !! pid)
  | Write pid pg => (<[pid := pg]> m, None)
  | Flush _ _ | FlushAll => (m, None)
  end.
Fixpoint spec_ops (os : list pool_op) (m : gmap Z page) : gmap Z page * list (option page) :=
  match os with
  | [] => (m, [])
  | o :: os' => let '(m1, r) := spec_op o m in let '(m2, rs) := spec_ops os' m1 in (m2, r :: rs)
  end.
Definition op_ok (m : gmap Z page) (o : pool_op) : Prop :=
  match o with Read pid | Write pid _ => pid_ok pid ∧ is_Some (m !! pid) | _ => True end.

(** The pool shows the map: no page is pinned, and every page that exists in a
    file is in the map. *)
Record shows (b : bufferpool) (m : gmap Z page) : Prop := {
  shows_ok : ∃ L, pool_ok b L;
  shows_size : (0 < bsize_ b)%nat;
  shows_unpinned : ∀ q s, ptable_ b !! q = Some s → pinned_ s = false;
  shows_content : ∀ q, pid_ok q → content b q = m !! q
}.

(** A write through the pointer to a cached page. *)
Lemma write_through_ok b L pid s pg : pool_ok b L → ptable_ b !! pid = Some s →
  let b' := set_ptable (alter (set_dirty_flag true) pid) (set_buffer (insert (pos_ s) pg) b) in
  pool_ok b' L ∧ ∀ q, content b' q = if decide (q = pid) then Some pg else content b q.
Proof.
  intros H Hs. cbv zeta. pose proof (pool_pos _ _ _ _ H Hs) as Hpos.
  assert (∀ q s', ptable_ b !! q = Some s' → q ≠ pid → pos_ s' ≠ pos_ s) as Hne.
  { intros q s' Hs' Hq Ep. apply Hq. by eapply pool_inj. }
  set (b0 := set_ptable (alter (set_dirty_flag true) pid) b).
  assert (pool_ok b0 L) as H0 by (by apply pool_ok_alter). split.
  - change (pool_ok (set_buffer (insert (pos_ s) pg) b0) L).
    destruct H0 as [H1 H2 H3 H4 H5 H6 H7 H8 H9 H10 H11 H12].
    split; cbn [set_buffer lru_list_ ptable_ buffer_ free_slots bsize_ files_]; try done.
    + by rewrite length_insert.
    + intros q s' Hs' Hd. apply (alter_entry (set_dirty_flag true)) in Hs' as (s0 & Hs0 & ->). case_decide as Hq; [done|].
      rewrite list_lookup_insert_ne by (symmetry; by eapply Hne). apply (pool_clean _ _ H _ _ Hs0 Hd).
  - intros q. rewrite content_alter by done. unfold content. cbn [set_buffer ptable_ buffer_]. case_decide as Hq; [subst q|].
    + rewrite Hs. apply list_lookup_insert_eq. by rewrite (pool_buffer _ _ H).
    + destruct (ptable_ b !! q) as [s'|] eqn:Es'; [|done]. apply list_lookup_insert_ne. symmetry. by eapply Hne.
Qed.

Lemma shows_fetch b m pid : shows b m → pid_ok pid → is_Some (m !! pid) →
  ∃ b' L' s, fetch pid b = (b', Val (pos_ s)) ∧ shows b' m ∧ pool_ok b' L' ∧ ptable_ b' !! pid = Some s
    ∧ (dirty_ s = true → ptable_ b !! pid = Some s).
Proof.
  intros [[L H] Hsz Hun Hc] Hpid Hm.
  destruct (fetch_page_ok page_size b L pid H Hpid) as (b' & L' & pos & E & H' & Hsz' & (s & Hs & <-) & Hc' & Hp'); [by rewrite Hc|done| |].
  - right. pose proof (pool_length _ _ H) as Hle. destruct (decide (length L < bsize_ b)%nat) as [|Hge]; [by left|right].
    destruct L as [|e L]; [simpl in *; lia|]. exists e. split; [left|]. intros (s & Hs & Hp). by rewrite (Hun _ _ Hs) in Hp.
  - exists b', L', s. split_and!; try done; [|intros Hd; apply Hp'; [done|by rewrite Hd, orb_true_r]].
    split; [by exists L'|by rewrite Hsz'| |].
    + intros q s' Hs'. destruct (pinned_ s') eqn:Ep; [|done]. by rewrite <-Ep, (Hun _ _ (Hp' _ _ Hs' ltac:(by rewrite Ep))).
    + intros q Hq. by rewrite Hc', Hc.
Qed.

Lemma run_op_ok b m o : shows b m → op_ok m o →
  ∃ b', run_op o b = (b', Val (spec_op o m).2) ∧ shows b' (spec_op o m).1 ∧ dom (spec_op o m).1 = dom m.
Proof.
  intros H Ho. destruct o as [pid|pid pg|pid ev|]; cbn [run_op spec_op op_ok fst snd] in *.
  - destruct Ho as [Hpid Hm]. destruct (shows_fetch b m pid H Hpid Hm) as (b' & L' & s & E & H' & Hok & Hs & _).
    exists b'. rewrite (bind_val _ _ _ _ _ E), (bind_val get_st _ b' b' b' eq_refl). split_and!; [|done..].
    rewrite <-(shows_content _ _ H' pid Hpid). unfold content. by rewrite Hs.
  - destruct Ho as [Hpid Hm]. destruct (shows_fetch b m pid H Hpid Hm) as (b' & L' & s & E & H' & Hok & Hs & _).
    destruct (write_through_ok b' L' pid s pg Hok Hs) as [Hok2 Hc2]. rewrite (bind_val _ _ _ _ _ E).
    eexists. split; [reflexivity|]. split; [|apply dom_insert_lookup_L; done]. destruct H' as [_ Hsz Hun Hc]. split.
    + by exists L'.
    + done.
    + intros q s' Hs'. cbn in Hs'. apply alter_entry in Hs' as (s0 & Hs0 & ->). case_decide; by apply Hun in Hs0.
    + intros q Hq. rewrite Hc2. case_decide as E'; [subst q; by rewrite lookup_insert_eq|]. by rewrite lookup_insert_ne, Hc.
  - destruct H as [[L H] Hsz Hun Hc]. destruct (flush_page_ok b L pid ev H) as (b' & L' & E & H' & Hsz' & Hc' & Hp').
    exists b'. rewrite (bind_val _ _ _ _ _ E). split_and!; [done| |done]. split; [by exists L'|by rewrite Hsz'| |].
    + intros q s (s0 & Hs0 & ->)%Hp'. by apply Hun in Hs0.
    + intros q Hq. by rewrite Hc', Hc.
  - destruct H as [[L H] Hsz Hun Hc]. destruct (flush_all_ok b L H) as (b' & E & [H' Hsz' Hc' Ht] & _).
    exists b'. rewrite (bind_val _ _ _ _ _ E). split_and!; [done| |done]. split; [by exists L|by rewrite Hsz'| |].
    + intros q s Hs. specialize (Ht q). rewrite Hs in Ht. destruct (ptable_ b !! q) as [s0|] eqn:E0; [|done].
      destruct Ht as (_ & _ & -> & _). by apply Hun in E0.
    + intros q Hq. by rewrite Hc', Hc.
Qed.

Lemma run_ops_ok os b m : shows b m → Forall (op_ok m) os →
  ∃ b', run_ops os b = (b', Val (spec_ops os m).2) ∧ shows b' (spec_ops os m).1.
Proof.
  revert b m. induction os as [|o os IH]; intros b m H Hos; [by exists b|]. apply Forall_cons in Hos as [Ho Hos].
  destruct (run_op_ok b m o H Ho) as (b1 & E1 & H1 & Hd). cbn [run_ops spec_ops]. rewrite (bind_val _ _ _ _ _ E1).
  destruct (spec_op o m) as [m1 r]. cbn [fst snd] in *. destruct (IH b1 m1 H1) as (b2 & E2 & H2).
  { eapply Forall_impl; [exact Hos|]. intros [pid|pid pg| |]; cbn; rewrite <-?(elem_of_dom (D := gset Z)), ?Hd; done. }
  exists b2. rewrite (bind_val _ _ _ _ _ E2). destruct (spec_ops os m1) as [m2 rs]. by split.
Qed.

(** C36: for every sequence of reads and writes of existing pages and of flushes,
    whatever has to be evicted in between, every call succeeds, each read
    returns what was written last to that page, and after [flush_all] the files
    hold exactly the pages of the map. *)
Theorem pool_refines os b m : shows b m → Forall (op_ok m) os →
  ∃ b' b'', run_ops os b = (b', Val (spec_ops os m).2) ∧ shows b' (spec_ops os m).1
    ∧ flush_all page_size order b' = (b'', Val tt) ∧ ∀ q, pid_ok q → file_page b'' q = (spec_ops os m).1 !! q.
Proof.
  intros H Hos. destruct (run_ops_ok os b m H Hos) as (b' & E & H'). destruct (shows_ok _ _ H') as [L Hok].
  destruct (flush_all_ok b' L Hok) as (b'' & E' & _ & Hf). exists b', b''. split_and!; try done.
  intros q Hq. rewrite Hf by done. by apply (shows_content _ _ H').
Qed.

(** ** What breaks the cache *)

(** A full pool with all pages pinned cannot fetch another one; the assertion
    fails. *)
Lemma load_overrun b pid : (∀ pos, free_slots b !! pos ≠ Some true) → load_page_from_file pid b = (b, Exn bufferpool_overrun).
Proof.
  intros H. unfold load_page_from_file. rewrite (bind_val get_st _ b b b eq_refl).
  destruct (find_first (free_slots b)) as [pos|] eqn:E; [|done]. by apply find_first_some, H in E.
Qed.

(** Freeing a page takes it out of the cache but leaves its slot occupied.
    In a full pool the next fetch of any page that is not cached finds neither a
    page to evict nor a free slot and throws [bufferpool_overrun]; a page that is
    not cached is not freed at all. *)
Theorem free_page_loses_slot b L pid s : pool_ok b L → ptable_ b !! pid = Some s → length L = bsize_ b →
  (∃ b', free_page pid b = (b', Val tt) ∧ ptable_ b' = delete pid (ptable_ b) ∧ file_page b' pid = None
    ∧ ∀ q, ptable_ b !! q = None → (fetch q b').2 = Exn bufferpool_overrun)
  ∧ ∀ q, ptable_ b !! q = None → free_page q b = (b, Val tt).
Proof.
  intros H Hs Hfull. split; [|intros q Hq; unfold free_page; by rewrite (bind_val get_st _ b b b eq_refl), Hq].
  destruct (pool_valid _ _ H _ _ Hs) as [Hpid [pg Hpg]]. destruct (file_page_file _ _ _ Hpg) as (f & Hm & Hf & Hat).
  destruct (free_page_ok f (raw_pid pid) pg (pool_files _ _ H _ _ Hf) Hat) as (f' & Ef & _ & Hat').
  pose proof (λ pos, pool_no_slot b L pos H Hfull) as Hno.
  pose proof (pool_entry _ _ _ _ H Hs) as Hin. apply list_elem_of_split in Hin as (L1 & L2 & ->).
  destruct (lru_remove_ok _ _ _ _ (pool_lru _ _ H)) as (l' & El & Hl & _). cbn [fst] in El.
  eexists. split.
  { unfold free_page. rewrite (bind_val get_st _ b b b eq_refl), Hs. rewrite bool_decide_eq_true_2 by eauto.
    unfold assert_. rewrite bind_ret. erewrite bind_val by reflexivity.
    erewrite bind_val; [|unfold on_lru; cbn [set_buffer lru_list_]; rewrite El; reflexivity].
    erewrite bind_val by reflexivity. erewrite bind_val; [|eapply on_file_some; [exact Hm|exact Hf|exact Ef]]. reflexivity. }
  cbn [set_files set_ptable set_lru set_buffer ptable_]. split_and!; [done| |].
  - unfold file_page. cbn [set_files files_]. rewrite bool_decide_eq_true_2, lookup_insert_eq by done. cbn. by rewrite Hat', decide_True.
  - intros q Hq. unfold fetch_page. erewrite bind_val by reflexivity. erewrite bind_val by reflexivity.
    cbn [add_reads set_files set_ptable set_lru set_buffer ptable_ lru_list_ bsize_].
    assert (delete pid (ptable_ b) !! q = None) as -> by (apply lookup_delete_None; by right). rewrite (lru_len _ _ Hl). rewrite !length_app in *. cbn [length] in *.
    rewrite bool_decide_eq_false_2 by lia. cbn [when]. rewrite bind_ret. unfold mbind, M_bind. rewrite load_overrun; [done|].
    exact Hno.
Qed.

(** A fetch of a page that its file does not have throws, and the slot that
    was chosen for it stays occupied by nobody: every such fetch makes the pool
    smaller. *)
Theorem failed_fetch_loses_slot b L pid f : pool_ok b L → pid_ok pid → ptable_ b !! pid = None → file_page b pid = None →
  file_id pid < MAX_PFILES → files_ b !! file_id pid = Some f → (length L < bsize_ b)%nat →
  ∃ b' e pos, fetch pid b = (b', Exn e) ∧ ptable_ b' = ptable_ b
    ∧ free_slots b !! pos = Some true ∧ free_slots b' = <[pos := false]> (free_slots b)
    ∧ ∀ q s, ptable_ b' !! q = Some s → pos_ s ≠ pos.
Proof.
  intros H Hpid Hnone Hpg Hm Hf Hlen. pose proof (pool_files _ _ H _ _ Hf) as Hfok.
  destruct (find_first (free_slots b)) as [pos|] eqn:Ef.
  2: { apply (pool_full _ _ H) in Ef. lia. }
  pose proof (find_first_some _ _ Ef) as Hpos.
  assert (pos < length (buffer_ b))%nat as Hlt by (rewrite (pool_buffer _ _ H), <-(pool_slots _ _ H); by eapply lookup_lt_Some).
  destruct (lookup_lt_is_Some_2 _ _ Hlt) as [pg Hbuf].
  assert (page_at f (raw_pid pid) = None) as Hat.
  { unfold file_page in Hpg. rewrite bool_decide_eq_true_2, Hf in Hpg by done. exact Hpg. }
  destruct (read_page_invalid f (raw_pid pid) pg Hfok) as (e & Er); [|done|].
  { rewrite raw_pid_mod. pose proof (Z.mod_pos_bound pid (2 ^ 60) ltac:(lia)). unfold two64. lia. }
  eexists _, e, pos. split.
  { unfold fetch_page. erewrite bind_val by reflexivity. erewrite bind_val by reflexivity.
    cbn [add_reads ptable_ lru_list_ bsize_]. rewrite Hnone, (lru_len _ _ (pool_lru _ _ H)), bool_decide_eq_false_2 by lia.
    cbn [when]. rewrite bind_ret. apply bind_exn. unfold load_page_from_file. erewrite bind_val by reflexivity.
    cbn [add_reads free_slots buffer_]. rewrite Ef. erewrite bind_val by reflexivity. rewrite Hbuf.
    apply bind_exn. eapply on_file_some; [exact Hm|exact Hf|exact Er]. }
  cbn. split_and!; try done. intros q s Hs E. subst pos. rewrite (pool_used _ _ H _ _ Hs) in Hpos. done.
Qed.

(** [purge] empties the table of a pool that holds pages, but its list of
    pages still leads to the freed nodes: the next fetch is undefined
    behaviour. *)
Theorem purge_breaks_pool b L e pid pg : pool_ok b (L ++ [e]) → file_page b pid = Some pg → (0 < bsize_ b)%nat →
  ∃ b', purge page_size b = (b', Val tt) ∧ ptable_ b' = ∅ ∧ (fetch pid b').2 = Exn undefined_behaviour.
Proof.
  intros H Hpg Hsz. destruct (file_page_file _ _ _ Hpg) as (f & Hm & Hf & Hat). pose proof (pool_files _ _ H _ _ Hf) as Hfok.
  destruct (lru_clear_ok _ _ _ (pool_lru _ _ H)) as (l' & El & Hl0 & Hbad).
  destruct (bsize_ b) as [|n] eqn:Eb; [lia|].
  set (b' := mk_pool (S n) (replicate (S n) (replicate page_size 0)) l' ∅ (replicate (S n) true) (files_ b) (p_reads_ b) (l_reads_ b)).
  exists b'. split_and!; [|done|].
  { unfold purge. erewrite bind_val by reflexivity.
    erewrite bind_val; [|unfold on_lru; cbn [set_free lru_list_]; rewrite El; reflexivity].
    erewrite bind_val by reflexivity. unfold modify, set_buffer, set_ptable, set_lru, set_free. cbn. by rewrite Eb. }
  unfold fetch_page. erewrite bind_val by reflexivity. erewrite bind_val by reflexivity.
  change (ptable_ (add_reads 0 1 b')) with (∅ : gmap Z buf_slot). rewrite lookup_empty.
  change (lru_list_ (add_reads 0 1 b')) with l'. change (bsize_ (add_reads 0 1 b')) with (S n).
  rewrite Hl0, bool_decide_eq_false_2 by lia. cbn [when]. rewrite bind_ret.
  assert (∃ b2, load_page_from_file pid (add_reads 0 1 b') = (b2, Val 0%nat) ∧ lru_list_ b2 = l') as (b2 & E2 & El2).
  { eexists. unfold load_page_from_file. erewrite bind_val by reflexivity. cbn [b' add_reads free_slots replicate find_first].
    split; [|shelve]. erewrite bind_val by reflexivity. cbn [b' add_reads buffer_ replicate lookup list_lookup].
    erewrite bind_val; [|eapply on_file_some; [exact Hm|exact Hf|by apply (read_page_ok _ _ _ _ Hfok Hat)]]. reflexivity.
    Unshelve. done. }
  rewrite (bind_val _ _ _ _ _ E2). specialize (Hbad pid). unfold on_lru, mbind, M_bind. rewrite El2.
  destruct (add_to_mru pid l') as [l2 r]. cbn in Hbad. by subst r.
Qed.
End refine.

(** ** A new pool *)
(** A new pool shows what is in its files. *)
Lemma new_lru_ok : lru_ok new_lru [].
Proof.
  split; cbn; try done; [repeat constructor; set_solver|repeat constructor; eauto|].
  intros a Ha. destruct (decide (a = 0%nat)) as [->|]; [lia|]. destruct (decide (a = 1%nat)) as [->|]; [lia|].
  rewrite lookup_insert_ne, lookup_singleton_ne in Ha by done. by destruct Ha.
Qed.
Definition pool_over (bufs : list page) (files : gmap Z paged_file) : bufferpool :=
  set_files (λ _, files) (new_bufferpool (length bufs) bufs).
Lemma new_pool_ok bufs files : Z.of_nat (length bufs) < two64 → (∀ fid f, files !! fid = Some f → file_ok f) →
  pool_ok (pool_over bufs files) [].
Proof.
  intros Hb Hf. split; cbn; try done.
  - apply new_lru_ok.
  - constructor.
  - intros pid a. rewrite elem_of_nil. split; [|done]. intros (s & Hs & _). by rewrite lookup_empty in Hs.
  - apply length_replicate.
  - intros pos Hp. apply lookup_replicate in Hp as [? _]. done.
Qed.
Lemma new_pool_shows bufs files m : (0 < length bufs)%nat → Z.of_nat (length bufs) < two64 →
  (∀ fid f, files !! fid = Some f → file_ok f) →
  (∀ q, pid_ok q → file_page (pool_over bufs files) q = m !! q) → shows (pool_over bufs files) m.
Proof.
  intros H0 Hb Hf Hm. split; [exists []; by apply new_pool_ok|done| |done].
  intros q s Hs. cbn in Hs. by rewrite lookup_empty in Hs.
Qed.
