(* ===== verification/BufferedVec.v ===== *)
(** * BufferedVec: the record vector over the page cache (src/vec/buffered_vec.hpp)

    Every page of a file holds one chunk; the bytes of a chunk are what the
    functions [enc] and [dec] make of it (the layout of the record type).  A
    pointer to a chunk is a position in the buffer of the page cache, a
    reference to a record such a position with a slot: it stays what it is when
    the page is evicted.  The free list is a bitset of 65536 bits.  The mutexes
    serialise the calls; callbacks for an undo log are null. *)

From S2P Require Import Prelude Chunk LruList PagedFile BufferPool.

Record bvec : Type := mk_bvec {
  bv_file_id : Z;
  available_slots_ : Z;
  bv_capacity : Z;
  freelist_ : Z
}.
Definition set_available (f : Z → Z) (v : bvec) : bvec :=
  mk_bvec (bv_file_id v) (f (available_slots_ v)) (bv_capacity v) (freelist_ v).
Definition set_bcapacity (c : Z) (v : bvec) : bvec := mk_bvec (bv_file_id v) (available_slots_ v) c (freelist_ v).
Definition set_freelist (f : Z) (v : bvec) : bvec := mk_bvec (bv_file_id v) (available_slots_ v) (bv_capacity v) f.

(** A reference to a record: the page in the buffer and the slot. *)
Notation bref := (nat * nat)%type.

(** The header of the vector in the payload of the file: the number of slots
    in eight bytes and the free list in 8192. *)
Definition hd_read (data : list Z) : Z * Z :=
  (little_endian_to_Z 8 (take 8 data), little_endian_to_Z 8 (take (Z.to_nat 8192) (drop 8 data))).
Definition hd_write (v : bvec) (data : list Z) : list Z :=
  Z_to_little_endian 8 8 (available_slots_ v) ++ Z_to_little_endian 8192 8 (freelist_ v) ++ drop (Z.to_nat 8200) data.

Section bvec.
Context {T : Type} `{!Inhabited T}.
(** [num_entries], the size of a page, [sizeof(file_header)] *)
Context (elems page_size : nat) (header_size : Z).
Context (enc : chunk T → page) (dec : page → chunk T).
Notation st := (bvec * bufferpool)%type.
Notation elems_per_chunk := (Z.of_nat elems).

Definition on_pool {A} (m : M bufferpool A) : M st A := λ s, let '(b, r) := m s.2 in ((s.1, b), r).
Definition hd : M st bvec := gets fst.
Definition set_hd (f : bvec → bvec) : M st unit := modify (λ s, (f s.1, s.2)).

(** [bpool_.get_file(file_id_)] *)
Definition the_file : M st paged_file := v ← hd; on_pool (on_file (bv_file_id v) get_st).
(** [pid | file_mask_] *)
Definition masked (pid : Z) : M st Z := v ← hd; mret (with_file (bv_file_id v) pid).

(** Reading and changing the chunk behind a pointer. *)
Definition chunk_of (pos : nat) : M st (chunk T) :=
  s ← get_st; match buffer_ s.2 !! pos with Some p => mret (dec p) | None => throw undefined_behaviour end.
Definition set_chunk (pos : nat) (c : chunk T) : M st unit := on_pool (modify (set_buffer (insert pos (enc c)))).
Definition chunk_do (pos : nat) (f : chunk T → chunk T) : M st unit := c ← chunk_of pos; set_chunk pos (f c).

(** ** The constructor, for a file that is registered *)
Definition new_bvec (fid : Z) : M bufferpool bvec :=
  f ← on_file fid get_st;
  let '(avail, free) := hd_read (payload_ (header_ f)) in
  mret (mk_bvec fid avail (npages_ f * elems_per_chunk) free).
Definition bv_clear : M st unit :=
  v ← hd; on_pool (on_file (bv_file_id v) pf_truncate);;
  set_hd (λ v, mk_bvec (bv_file_id v) 0 0 0).

(** ** Chunks *)
Definition bv_fetch (pid : Z) (modify_ : bool) : M st nat :=
  p ← masked pid;
  pos ← on_pool (fetch_page page_size p);
  when modify_ (on_pool (mark_dirty p));;
  mret pos.
Definition bv_find_chunk (idx : Z) (modify_ : bool) : M st nat := bv_fetch (u64 (idx / elems_per_chunk + 1)) modify_.
Definition bv_load_chunk (pid : Z) (modify_ : bool) : M st (option nat) :=
  f ← the_file;
  ok ← lift_res (pf_is_valid f pid);
  if (ok : bool) then pos ← bv_fetch pid modify_; mret (Some pos) else mret None.
Definition bv_get_last_chunk (modify_ : bool) : M st nat :=
  v ← hd;
  r ← on_pool (last_valid_page page_size header_size (bv_file_id v));
  when modify_ (p ← masked r.2; on_pool (mark_dirty p));;
  mret r.1.

(** ** The free list *)
Definition set_free_bit (idx : Z) (b : bool) : M st unit :=
  let i := idx / elems_per_chunk in
  if bool_decide (0 ≤ i < num_slots)
  then set_hd (λ v, set_freelist (if b then Z.setbit (freelist_ v) i else Z.clearbit (freelist_ v) i) v)
  else throw out_of_range_std.
Definition bv_remove_from_free_list (idx : Z) : M st unit := set_free_bit idx false.
Definition bv_add_to_free_list (idx : Z) : M st unit := set_free_bit idx true.
Fixpoint first_bit (n : nat) (i : Z) (bits : Z) : Z :=
  match n with O => 0 | S n' => if Z.testbit bits i then i + 1 else first_bit n' (i + 1) bits end.
Definition bv_find_in_free_list (v : bvec) : Z := first_bit (Z.to_nat num_slots) 0 (freelist_ v).

(** ** Growing *)
Definition bv_is_full (v : bvec) : bool := bool_decide (available_slots_ v = 0).
Definition add_page : M st unit :=
  v ← hd;
  pg ← on_pool (allocate_page page_size header_size (bv_file_id v));
  set_chunk pg.1 (new_chunk elems);;
  bv_add_to_free_list (u64 (pg.2 * elems_per_chunk - 1));;
  set_hd (λ v, set_available (λ a, u64 (a + elems_per_chunk)) (set_bcapacity (u64 (bv_capacity v + elems_per_chunk)) v)).
Fixpoint bv_resize (nchunks : nat) : M st unit := match nchunks with O => mret tt | S n => add_page;; bv_resize n end.

(** ** Records *)
Definition bv_slot_of (idx : Z) : nat := Z.to_nat (idx mod elems_per_chunk).
Definition bv_store_at (idx : Z) (o : T) : M st unit :=
  ch ← bv_find_chunk idx true;
  let pos := bv_slot_of idx in
  chunk_do ch (λ c, chunk_set elems (chunk_write c pos o) pos true);;
  c ← chunk_of ch;
  used ← lift_res (chunk_is_used c pos);
  when (negb used) (set_hd (set_available (λ a, u64 (a - 1))));;
  when (chunk_is_full c) (bv_remove_from_free_list idx).

(** What [append] and [store] do with the chunk they have chosen. *)
Definition put_in (ch : nat) (o : T) : M st (Z * bref) :=
  c ← chunk_of ch;
  match chunk_first_available c with
  | None => throw assertion_failed
  | Some pos =>
    f ← the_file;
    let offs := u64 ((npages_ f - 1) * elems_per_chunk) in
    set_hd (set_available (λ a, u64 (a - 1)));;
    chunk_do ch (λ c, chunk_write (chunk_set elems c pos true) pos o);;
    c ← chunk_of ch;
    when (chunk_is_full c) (bv_remove_from_free_list offs);;
    mret (u64 (offs + Z.of_nat pos), (ch, pos))
  end.
(** The last chunk, or a new one when it is full. *)
Definition last_chunk_with_room : M st nat :=
  tail ← bv_get_last_chunk true;
  c ← chunk_of tail;
  if chunk_is_full c then bv_resize 1;; bv_get_last_chunk true else mret tail.
Definition bv_append (o : T) : M st (Z * bref) :=
  v ← hd;
  when (bv_is_full v) (bv_resize 1);;
  tail ← last_chunk_with_room;
  put_in tail o.
Definition bv_store (o : T) : M st (Z * bref) :=
  v ← hd;
  ch ← (if bv_is_full v then bv_resize 1;; last_chunk_with_room
        else r ← bv_load_chunk (bv_find_in_free_list v) true;
             match r with Some ch => mret ch | None => throw assertion_failed end);
  put_in ch o.

Definition bv_erase (idx : Z) : M st unit :=
  ch ← bv_find_chunk idx true;
  let pos := bv_slot_of idx in
  chunk_do ch (λ c, chunk_set elems c pos false);;
  c ← chunk_of ch;
  used ← lift_res (chunk_is_used c pos);
  when used (set_hd (set_available (λ a, u64 (a + 1))));;
  when (chunk_is_full c) (bv_add_to_free_list idx).

Definition bv_first_available : M st Z :=
  v ← hd;
  if bool_decide (available_slots_ v = 0) then mret UNKNOWN
  else
    let pid := bv_find_in_free_list v in
    r ← bv_load_chunk pid false;
    match r with
    | None => mret UNKNOWN
    | Some ch =>
      c ← chunk_of ch;
      mret (match chunk_first_available c with
            | Some first => u64 ((pid - 1) * elems_per_chunk + Z.of_nat first)
            | None => UNKNOWN
            end)
    end.
(** What [add] of the tables and [add_properties] do with a record: a new page
    when the vector is full, the first free slot, an assertion, [store_at]. *)
Definition bv_add (o : T) : M st Z :=
  v ← hd;
  when (bv_is_full v) (bv_resize 1);;
  id ← bv_first_available;
  assert_ (bool_decide (id ≠ UNKNOWN));;
  bv_store_at id o;; mret id.
(** [SIZE_MAX] is added when the last page holds no record. *)
Definition bv_last_used : M st Z :=
  v ← hd;
  pg ← on_pool (last_valid_page page_size header_size (bv_file_id v));
  c ← chunk_of pg.1;
  mret (u64 ((pg.2 - 1) * elems_per_chunk
             + match chunk_last_used elems c with Some i => Z.of_nat i | None => two64 - 1 end)).
Definition bv_is_used (idx : Z) : M st bool :=
  ch ← bv_find_chunk idx false; c ← chunk_of ch; lift_res (chunk_is_used c (bv_slot_of idx)).
(** [at], [const_at]: the page is not marked as dirty. *)
Definition bv_at (idx : Z) : M st bref :=
  ch ← bv_find_chunk idx false;
  c ← chunk_of ch;
  used ← lift_res (chunk_is_used c (bv_slot_of idx));
  if (used : bool) then mret (ch, bv_slot_of idx) else throw unknown_id.
(** Reading and assigning through a reference. *)
Definition bv_deref (r : bref) : M st T :=
  c ← chunk_of r.1; match data_ c !! r.2 with Some o => mret o | None => throw undefined_behaviour end.
Definition bv_assign (r : bref) (o : T) : M st unit := chunk_do r.1 (λ c, chunk_write c r.2 o).
Definition bv_num_chunks : M st Z := f ← the_file; mret (npages_ f).
Definition pin (pid : Z) : M st unit := p ← masked pid; on_pool (pin_page p).
Definition unpin (pid : Z) : M st unit := p ← masked pid; on_pool (unpin_page p).

(** ** Iterators *)
Record biter : Type := mk_biter { curr_pid_ : Z; cptr_ : option nat; bpos_ : nat }.
(** Loading the chunk of an iterator, pinned. *)
Definition iter_load (pid : Z) : M st (option nat) :=
  r ← bv_load_chunk pid false;
  match r with Some ch => pin pid;; mret (Some ch) | None => mret None end.
(** [is_used(pos)] through the pointer of an iterator; past the end of the bits
    [bitset::test] throws. *)
Definition used_at (ch pos : nat) : M st bool := c ← chunk_of ch; lift_res (chunk_is_used c pos).

(** The loop of the constructor. *)
Fixpoint skip_unused (n : nat) (ch pos : nat) : M st nat :=
  match n with
  | O => mret pos
  | S n' => b ← used_at ch pos; if (b : bool) then mret pos else skip_unused n' ch (S pos)
  end.
Definition bv_begin : M st biter :=
  r ← iter_load 1;
  match r with
  | None => mret (mk_biter 1 None 0)
  | Some ch =>
    pos ← skip_unused elems ch 0;
    mret (if (pos =? elems)%nat then mk_biter 1 None 0 else mk_biter 1 (Some ch) pos)
  end.
(** [it != end()] *)
Definition bv_not_end (it : biter) : bool :=
  match cptr_ it with Some _ => true | None => negb (bpos_ it =? 0)%nat end.
(** [operator*] *)
Definition iter_ref (it : biter) : M st bref :=
  match cptr_ it with
  | None => throw assertion_failed
  | Some ch => b ← used_at ch (bpos_ it); assert_ b;; mret (ch, bpos_ it)
  end.
(** One step to the next slot, to the next page at the end of one. *)
Definition iter_step (it : biter) : M st biter :=
  if (S (bpos_ it) =? elems)%nat
  then unpin (curr_pid_ it);; ch ← iter_load (u64 (curr_pid_ it + 1)); mret (mk_biter (u64 (curr_pid_ it + 1)) ch 0)
  else mret (mk_biter (curr_pid_ it) (cptr_ it) (S (bpos_ it))).
Fixpoint bv_next (fuel : nat) (it : biter) : M st biter :=
  match fuel with
  | O => throw no_return
  | S f =>
    it' ← iter_step it;
    match cptr_ it' with
    | None => mret it'
    | Some ch => b ← used_at ch (bpos_ it'); if (b : bool) then mret it' else bv_next f it'
    end
  end.

(** [for (auto &x : vec) body(x)]; one round for every slot and one for the end *)
Fixpoint bv_loop (fuel : nat) (body : bref → M st unit) (it : biter) : M st unit :=
  match fuel with
  | O => throw no_return
  | S f =>
    if bv_not_end it then
      r ← iter_ref it; body r;;
      n ← bv_num_chunks;
      it' ← bv_next (S (Z.to_nat n * elems)) it;
      bv_loop f body it'
    else mret tt
  end.
Definition bv_for (body : bref → M st unit) : M st unit :=
  n ← bv_num_chunks; it ← bv_begin; bv_loop (S (Z.to_nat n * elems)) body it.

(** [range(first_chunk, last_chunk, start_pos)]: the first record is not
    looked for. *)
Definition bv_range (first_chunk start_pos : nat) : M st biter :=
  let pid := Z.of_nat first_chunk + 1 in
  ch ← iter_load pid; mret (mk_biter pid ch start_pos).
Definition range_more (last_chunk : nat) (it : biter) : bool :=
  bool_decide (curr_pid_ it ≤ Z.of_nat last_chunk + 1) && bool_decide (is_Some (cptr_ it)).
Fixpoint bv_range_next (fuel : nat) (last_chunk : nat) (it : biter) : M st biter :=
  match fuel with
  | O => throw no_return
  | S f =>
    it' ← iter_step it;
    match cptr_ it' with
    | Some ch =>
      if range_more last_chunk it' then
        b ← used_at ch (bpos_ it'); if (b : bool) then mret it' else bv_range_next f last_chunk it'
      else mret it'
    | None => mret it'
    end
  end.
End bvec.
