(* ===== verification/BufferedVecFacts.v ===== *)
(** * BufferedVecFacts: what the paged record vector stores

    As long as nothing is erased the vector is a list that grows: ids are
    consecutive and every record is found again, whatever the page cache
    evicts.  After an erasure [store] can return an id that leads to another
    slot; an assignment through a reference is lost when its page is evicted. *)

From S2P Require Import Prelude Chunk LruList PagedFile PagedFileFacts BufferPool BufferPoolInv BufferPoolRefine BufferedVec.

(** ** Page ids with the number of the file *)
Lemma with_file_add fid p : 0 ≤ fid < 16 → 0 ≤ p < 2 ^ 60 → with_file fid p = p + fid * 2 ^ 60.
Proof.
  intros Hf Hp. unfold with_file. rewrite Z.shiftl_mul_pow2 by lia. unfold u64, two64.
  rewrite Z.mod_small by lia.
  assert (Z.land p (fid * 2 ^ 60) = 0) as Hl.
  { apply Z.bits_inj'. intros k Hk. rewrite Z.land_spec, Z.bits_0. destruct (decide (k < 60)).
    - rewrite Z.mul_pow2_bits_low by lia. apply andb_false_r.
    - destruct (decide (p = 0)) as [->|]; [by rewrite Z.bits_0|]. rewrite (Z.bits_above_log2 p); [done|lia|].
      apply Z.log2_lt_pow2; [lia|]. apply (Z.lt_le_trans _ (2 ^ 60)); [lia|]. apply Z.pow_le_mono_r; lia. }
  by rewrite Z.add_nocarry_lxor, Z.lxor_lor.
Qed.
Section ids.
Context (fid : Z) (Hfid : 0 ≤ fid < MAX_PFILES).
Lemma with_file_ok p : 0 ≤ p < 2 ^ 60 → pid_ok (with_file fid p).
Proof. intros Hp. unfold MAX_PFILES in *. rewrite with_file_add by lia. unfold pid_ok, two64. lia. Qed.
Lemma with_file_id p : 0 ≤ p < 2 ^ 60 → file_id (with_file fid p) = fid.
Proof.
  intros Hp. unfold MAX_PFILES in *. rewrite with_file_add, file_id_div by lia. rewrite Z.div_add, Z.div_small by lia.
  rewrite Z.mod_small; lia.
Qed.
Lemma with_file_raw p : 0 ≤ p < 2 ^ 60 → raw_pid (with_file fid p) = p.
Proof. intros Hp. unfold MAX_PFILES in *. rewrite with_file_add, raw_pid_mod by lia. rewrite Z_mod_plus_full. by apply Z.mod_small. Qed.
Lemma with_file_inj p q : 0 ≤ p < 2 ^ 60 → 0 ≤ q < 2 ^ 60 → with_file fid p = with_file fid q → p = q.
Proof. intros Hp Hq E. rewrite <-(with_file_raw p), <-(with_file_raw q) by done. by rewrite E. Qed.
End ids.

(** ** The number of pages and the headers of the files

    Whatever happens to the cache, they stay. *)
Definition shape (b : bufferpool) : gmap Z (Z * file_header) := (λ f, (npages_ f, header_ f)) <$> files_ b.
Definition keeps {A} (m : M bufferpool A) : Prop := ∀ b, shape (m b).1 = shape b.

Lemma keeps_bind {A B} (m : M bufferpool A) (k : A → M bufferpool B) : keeps m → (∀ a, keeps (k a)) → keeps (m ≫= k).
Proof.
  intros Hm Hk b. specialize (Hm b). unfold mbind, M_bind. destruct (m b) as [b' [a|e]]; cbn in *; [|done]. by rewrite Hk.
Qed.
Lemma keeps_modify f : (∀ b, files_ (f b) = files_ b) → keeps (modify f).
Proof. intros Hf b. unfold shape. cbn. by rewrite Hf. Qed.
Lemma keeps_on_lru {A} (m : M lru_list A) : keeps (on_lru m).
Proof. intros b. unfold on_lru. by destruct (m (lru_list_ b)). Qed.
Lemma keeps_when c m : keeps m → keeps (when c m).
Proof. by destruct c; [|intros _ b]. Qed.
Lemma keeps_get : keeps get_st.
Proof. done. Qed.
Lemma keeps_ret {A} (a : A) : keeps (mret a).
Proof. done. Qed.
Lemma keeps_throw {A} e : keeps (throw (A:=A) e).
Proof. done. Qed.
Lemma keeps_assert c : keeps (assert_ c).
Proof. by destruct c. Qed.
Lemma keeps_on_file {A} fid (m : M paged_file A) :
  (∀ f, npages_ (m f).1 = npages_ f ∧ header_ (m f).1 = header_ f) → keeps (on_file fid m).
Proof.
  intros Hm b. unfold on_file. case_bool_decide; [|done]. destruct (files_ b !! fid) as [f|] eqn:Ef; [|done].
  specialize (Hm f). destruct (m f) as [f' r]. cbn in *. destruct Hm as [H1 H2]. unfold shape. cbn. rewrite fmap_insert, H1, H2.
  apply insert_id. by rewrite lookup_fmap, Ef.
Qed.
Definition still {S A} (m : M S A) : Prop := ∀ s, (m s).1 = s.
Lemma still_bind {S A B} (m : M S A) (k : A → M S B) : still m → (∀ a, still (k a)) → still (m ≫= k).
Proof.
  intros Hm Hk s. specialize (Hm s). unfold mbind, M_bind. destruct (m s) as [s' [a|e]]; cbn in *; [|done]. subst s'. apply Hk.
Qed.
Lemma check_pid_same msg pid f : (check_pid msg pid f).1 = f.
Proof.
  unfold check_pid. apply still_bind; [done|]. intros f'. apply still_bind; [by case_bool_decide|]. intros [|]; [done|].
  apply still_bind; [|done]. destruct msg; [|done]. by apply still_bind.
Qed.
Lemma keeps_write ps pid pos : keeps (write_page_to_file ps pid pos).
Proof.
  unfold write_page_to_file. apply keeps_bind; [done|]. intros b. destruct (buffer_ b !! pos) as [pg|]; [|apply keeps_throw].
  apply keeps_bind; [|done]. apply keeps_on_file. intros f. unfold pf_write_page.
  pose proof (check_pid_same false (raw_pid pid) f) as Hc. unfold mbind, M_bind.
  destruct (check_pid false (raw_pid pid) f) as [f' [[]|e]]; cbn in Hc; subst f'; [|done].
  unfold stream_write, mbind, M_bind, get_st, when, modify. destruct (good f); done.
Qed.
Lemma keeps_load pid : keeps (load_page_from_file pid).
Proof.
  unfold load_page_from_file. apply keeps_bind; [done|]. intros b. destruct (find_first _); [|apply keeps_throw].
  apply keeps_bind; [by apply keeps_modify|]. intros _. destruct (buffer_ b !! n); [|apply keeps_throw].
  apply keeps_bind; [|intros r; apply keeps_bind; [by apply keeps_modify|done]]. apply keeps_on_file. intros f. unfold pf_read_page.
  pose proof (check_pid_same true (raw_pid pid) f) as Hc. unfold mbind, M_bind.
  destruct (check_pid true (raw_pid pid) f) as [f' [[]|e]]; cbn in Hc; subst f'; [|done].
  unfold stream_read, mbind, M_bind, get_st, modify. destruct (good f); [|done]. destruct (pages_of f !! _); done.
Qed.
Lemma keeps_drop pid s : keeps (drop_page pid s).
Proof. unfold drop_page. repeat (apply keeps_bind; [(by apply keeps_modify) || apply keeps_on_lru|intros _]). by apply keeps_modify. Qed.
Lemma keeps_evict ps f : ∀ it, keeps (evict_loop ps f it).
Proof.
  induction f as [|f IH]; intros it; [apply keeps_throw|]. cbn [evict_loop]. apply keeps_bind; [done|]. intros b.
  case_bool_decide; [done|]. apply keeps_bind; [apply keeps_on_lru|]. intros n.
  destruct (ptable_ b !! _) as [s|]; [destruct (pinned_ s)|].
  - apply keeps_bind; [apply keeps_on_lru|apply IH].
  - apply keeps_bind; [apply keeps_when, keeps_write|intros _]. apply keeps_bind; [apply keeps_drop|done].
  - apply keeps_bind; [apply keeps_on_lru|apply IH].
Qed.
Lemma keeps_fetch ps pid : keeps (fetch_page ps pid).
Proof.
  unfold fetch_page. apply keeps_bind; [by apply keeps_modify|intros _]. apply keeps_bind; [done|]. intros b.
  destruct (ptable_ b !! pid) as [s|].
  - apply keeps_bind; [apply keeps_on_lru|done].
  - apply keeps_bind.
    + apply keeps_when. apply keeps_bind; [|intros r; apply keeps_assert]. unfold evict_page.
      apply keeps_bind; [apply keeps_on_lru|]. intros it. apply keeps_bind; [done|]. intros b'. apply keeps_evict.
    + intros _. apply keeps_bind; [apply keeps_load|]. intros pos. apply keeps_bind; [apply keeps_on_lru|]. intros nd.
      apply keeps_bind; [|done]. by apply keeps_modify.
Qed.

(** ** Writing through a pointer to a page that is marked *)
Lemma shows_mark b m pid : shows b m → shows (set_ptable (alter (set_dirty_flag true) pid) b) m.
Proof.
  intros [[L H] Hsz Hun Hc]. split; [exists L; by apply pool_ok_alter|done| |].
  - intros q s Hs. cbn in Hs. apply alter_entry in Hs as (s0 & Hs0 & ->). case_decide; by apply Hun in Hs0.
  - intros q Hq. by rewrite content_alter, Hc.
Qed.
Lemma shows_write b m pid sl pg : shows b m → pid_ok pid → ptable_ b !! pid = Some sl → dirty_ sl = true →
  shows (set_buffer (insert (pos_ sl) pg) b) (<[pid := pg]> m).
Proof.
  intros [[L H] Hsz Hun Hc] Hpid Hs Hd. destruct (write_through_ok b L pid sl pg H Hs) as [Hok Hc2].
  assert (set_ptable (alter (set_dirty_flag true) pid) (set_buffer (insert (pos_ sl) pg) b) = set_buffer (insert (pos_ sl) pg) b) as E.
  { unfold set_ptable, set_buffer. cbn. f_equal. apply map_eq. intros q. destruct (decide (q = pid)) as [->|].
    - rewrite lookup_alter_eq, Hs. cbn. destruct sl. cbn in *. by subst.
    - by rewrite lookup_alter_ne. }
  rewrite E in Hok, Hc2. split; [by exists L|done|done|]. intros q Hq. rewrite Hc2. case_decide as Eq.
  - subst q. by rewrite lookup_insert_eq.
  - by rewrite lookup_insert_ne, Hc.
Qed.
Lemma set_files_same fid f b : files_ b !! fid = Some f → set_files (insert fid f) b = b.
Proof. intros Hf. unfold set_files. rewrite insert_id by done. by destruct b. Qed.

(** The last page of a file whose last slot is in use, and a new page. *)
Lemma last_slot_ok h n : (0 < n)%nat → Z.of_nat n < num_slots → Z.of_nat n - 1 ∈ slots_ h → last_slot n h = Val (Some (Z.of_nat n)).
Proof.
  intros Hn Hb Hin. destruct n as [|n]; [lia|]. cbn [last_slot]. replace (Z.of_nat (S n) - 1) with (Z.of_nat n) in Hin by lia.
  rewrite slot_test_ok by lia. cbn. rewrite bool_decide_eq_true_2 by done. do 2 f_equal. lia.
Qed.
Lemma shows_new_page page_size fid (Hfid : 0 ≤ fid < MAX_PFILES) b m f f' n : shows b m → files_ b !! fid = Some f → file_ok f → npages_ f = n → n < num_slots - 1 → file_ok f' →
  (∀ q, page_at f' q = if decide (q = n + 1) then Some (zero_page page_size) else page_at f q) →
  shows (set_files (insert fid f') b) (<[with_file fid (n + 1) := zero_page page_size]> m).
Proof.
  intros [[L H] Hsz Hun Hc] Hf Hok Hn Hb Hok' Hat. pose proof (file_max _ Hok). pose proof (file_pages _ Hok) as Hlen.
  assert (0 ≤ n + 1 < 2 ^ 60) as Hp by (unfold num_slots in *; lia).
  set (pid := with_file fid (n + 1)). pose proof (with_file_ok fid Hfid _ Hp) as Hpid.
  pose proof (with_file_id fid Hfid _ Hp) as Hid. pose proof (with_file_raw fid Hfid _ Hp) as Hraw. fold pid in Hpid, Hid, Hraw.
  assert (∀ q, pid_ok q → file_page (set_files (insert fid f') b) q = if decide (q = pid) then Some (zero_page page_size) else file_page b q) as Hfp.
  { intros q Hq. rewrite <-Hid. apply (file_page_insert b f f' pid); rewrite ?Hid, ?Hraw; try done; lia. }
  assert (file_page b pid = None) as Hnone.
  { unfold file_page. rewrite Hid, Hf, Hraw. case_bool_decide; [|done]. cbn. unfold page_at. case_bool_decide as Hs; [|done].
    apply (file_slots _ Hok) in Hs. lia. }
  assert (∀ q s, ptable_ b !! q = Some s → q ≠ pid) as Hne.
  { intros q s Hs ->. destruct (pool_valid _ _ H _ _ Hs) as [_ [? ?]]. congruence. }
  split; [exists L| |done|].
  - destruct H as [H1 H2 H3 H4 H5 H6 H7 H8 H9 H10 H11 H12]. split; cbn [set_files lru_list_ ptable_ buffer_ free_slots bsize_ files_]; try done.
    + intros k g [[<- <-]|[_ Hg]]%lookup_insert_Some; [done|by eapply H9].
    + intros q s Hs. destruct (H10 q s Hs) as [Hq Hv]. split; [done|]. rewrite Hfp, decide_False by (try done; by eapply Hne). done.
    + intros q s Hs Hd. destruct (H10 q s Hs) as [Hq _]. rewrite Hfp, decide_False by (try done; by eapply Hne). by apply H11.
  - done.
  - intros q Hq. unfold content. cbn [set_files ptable_ buffer_]. specialize (Hc q Hq). unfold content in Hc.
    destruct (ptable_ b !! q) as [s|] eqn:Es.
    + rewrite lookup_insert_ne by (symmetry; by eapply Hne). done.
    + rewrite Hfp by done. case_decide as Eq; [subst q; by rewrite lookup_insert_eq|]. by rewrite lookup_insert_ne.
Qed.

Section facts.
Context {T : Type} `{!Inhabited T}.
Context (elems page_size : nat) (header_size : Z).
Context (enc : chunk T → page) (dec : page → chunk T).
Context (fid : Z).
Hypothesis Hfid : 0 ≤ fid < MAX_PFILES.
Hypothesis Helems : (0 < elems)%nat ∧ Z.of_nat elems < 2 ^ 32.
(** A chunk is read from a page as it was written. *)
Hypothesis dec_enc : ∀ c, chunk_wf elems c → dec (enc c) = c.
Notation st := (bvec * bufferpool)%type.
Notation E := (Z.of_nat elems).

(** The vector holds the list [l] in the chunks [cs]: every chunk but the last
    one is full. *)
Record bv_inv (l : list T) (cs : list (chunk T)) (m : gmap Z page) (h : file_header) (s : st) : Prop := {
  bi_file : bv_file_id s.1 = fid;
  bi_shows : shows s.2 m;
  bi_shape : shape s.2 !! fid = Some (Z.of_nat (length cs), h);
  bi_slots : ∀ i, i ∈ slots_ h ↔ 0 ≤ i < Z.of_nat (length cs);
  bi_pages : ∀ p c, cs !! p = Some c → m !! with_file fid (Z.of_nat (S p)) = Some (enc c);
  bi_none : ∀ p, Z.of_nat (length cs) < p < 2 ^ 60 → m !! with_file fid p = None;
  bi_wf : ∀ p c, cs !! p = Some c → chunk_wf elems c;
  bi_records : ∀ p c j, cs !! p = Some c → (j < elems)%nat → chunk_lookup c j = l !! (p * elems + j)%nat;
  bi_length : (length l ≤ length cs * elems ≤ length l + elems)%nat;
  bi_available : available_slots_ s.1 = Z.of_nat (length cs * elems) - Z.of_nat (length l);
  bi_free : freelist_ s.1 = if decide (length l < length cs * elems)%nat then Z.setbit 0 (Z.of_nat (length cs) - 1) else 0
}.

Lemma bi_file_ok l cs m h s : bv_inv l cs m h s →
  ∃ f, files_ s.2 !! fid = Some f ∧ npages_ f = Z.of_nat (length cs) ∧ header_ f = h ∧ file_ok f.
Proof.
  intros H. pose proof (bi_shape _ _ _ _ _ H) as Hs. unfold shape in Hs. rewrite lookup_fmap in Hs.
  destruct (files_ s.2 !! fid) as [f|] eqn:Ef; [|done]. cbn in Hs. exists f. destruct (shows_ok _ _ (bi_shows _ _ _ _ _ H)) as [L Hok].
  split_and!; [done|congruence|congruence|by eapply pool_files].
Qed.
Lemma bi_bound l cs m h s : bv_inv l cs m h s → Z.of_nat (length cs) < num_slots.
Proof. intros (f & _ & <- & _ & Hf)%bi_file_ok. apply Hf. Qed.
Lemma bi_pid p (cs : list (chunk T)) : (p < length cs)%nat → Z.of_nat (length cs) < num_slots → 0 ≤ Z.of_nat (S p) < 2 ^ 60.
Proof. unfold num_slots. lia. Qed.

Lemma the_file_ok l cs m h s : bv_inv l cs m h s →
  ∃ f, the_file s = (s, Val f) ∧ npages_ f = Z.of_nat (length cs) ∧ header_ f = h.
Proof.
  intros H. destruct (bi_file_ok _ _ _ _ _ H) as (f & Ef & Hn & Hh & _). exists f. split_and!; [|done..].
  unfold the_file, hd. rewrite (bind_val _ _ s s s.1 eq_refl). rewrite (bi_file _ _ _ _ _ H). unfold on_pool, on_file.
  rewrite (bool_decide_eq_true_2 (fid < MAX_PFILES)) by lia. rewrite Ef. cbn. rewrite set_files_same by done. by destruct s.
Qed.

(** ** Fetching a chunk *)
Lemma fetch_ok l cs m h s p c md : bv_inv l cs m h s → cs !! p = Some c →
  ∃ s' sl, bv_fetch page_size (Z.of_nat (S p)) md s = (s', Val (pos_ sl)) ∧ bv_inv l cs m h s' ∧ s'.1 = s.1
    ∧ ptable_ s'.2 !! with_file fid (Z.of_nat (S p)) = Some sl ∧ buffer_ s'.2 !! pos_ sl = Some (enc c)
    ∧ (if md then dirty_ sl = true else dirty_ sl = true → ptable_ s.2 !! with_file fid (Z.of_nat (S p)) = Some sl).
Proof.
  intros H Hc. pose proof (bi_bound _ _ _ _ _ H) as Hb. pose proof (bi_pid p cs (lookup_lt_Some _ _ _ Hc) Hb) as Hp.
  pose proof (with_file_ok fid Hfid _ Hp) as Hpid. pose proof (bi_pages _ _ _ _ _ H _ _ Hc) as Hm.
  destruct (shows_fetch page_size s.2 m _ (bi_shows _ _ _ _ _ H) Hpid) as (b' & L' & sl & Ef & Hsh & Hok & Hsl & Hcl); [by rewrite Hm|].
  pose proof (keeps_fetch page_size (with_file fid (Z.of_nat (S p))) s.2) as Hk. rewrite Ef in Hk. cbn in Hk.
  assert (buffer_ b' !! pos_ sl = Some (enc c)) as Hbuf.
  { rewrite <-Hm, <-(shows_content _ _ Hsh _ Hpid). unfold content. by rewrite Hsl. }
  assert (∀ b2, shows b2 m → shape b2 = shape s.2 → bv_inv l cs m h (s.1, b2)) as Hinv.
  { intros b2 H2 Hk2. destruct H. split; cbn; try done. by rewrite Hk2. }
  assert (bv_fetch page_size (Z.of_nat (S p)) md s = ((s.1, if md then set_ptable (alter (set_dirty_flag true) (with_file fid (Z.of_nat (S p)))) b' else b'), Val (pos_ sl))) as E1.
  { unfold bv_fetch, masked, hd. rewrite bind_assoc, (bind_val _ _ s s s.1 eq_refl), bind_ret, (bi_file _ _ _ _ _ H).
    erewrite bind_val; [|unfold on_pool; rewrite Ef; reflexivity]. by destruct md. }
  destruct md.
  - eexists _, (set_dirty_flag true sl). split; [exact E1|]. split_and!; [|done| |done|done].
    + apply Hinv; [by apply shows_mark|]. by rewrite <-Hk.
    + cbn. by rewrite lookup_alter_eq, Hsl.
  - eexists _, sl. split; [exact E1|]. split_and!; try done. by apply Hinv.
Qed.
Lemma chunk_of_ok (s : st) pos c : buffer_ s.2 !! pos = Some (enc c) → chunk_wf elems c → chunk_of dec pos s = (s, Val c).
Proof. intros Hb Hw. unfold chunk_of. by rewrite (bind_val get_st _ s s s eq_refl), Hb, dec_enc. Qed.

(** ** Reading *)
Lemma index_split (i : nat) : Z.of_nat i / E = Z.of_nat (i / elems) ∧ bv_slot_of elems (Z.of_nat i) = (i mod elems)%nat
  ∧ i = (i / elems * elems + i mod elems)%nat ∧ (i mod elems < elems)%nat.
Proof.
  destruct Helems as [He _]. split_and!.
  - by rewrite Nat2Z.inj_div.
  - unfold bv_slot_of. rewrite <-Nat2Z.inj_mod by lia. lia.
  - rewrite Nat.mul_comm. apply Nat.div_mod. lia.
  - apply Nat.mod_upper_bound. lia.
Qed.
Lemma index_page (i n : nat) : (i < n * elems)%nat → Z.of_nat n < num_slots →
  (i / elems < n)%nat ∧ u64 (Z.of_nat i / E + 1) = Z.of_nat (S (i / elems)).
Proof.
  intros Hi Hn. destruct (index_split i) as (Ei & _ & Hs & Hm).
  assert (i / elems < n)%nat as Hlt by (apply Nat.Div0.div_lt_upper_bound; lia).
  split; [done|]. rewrite Ei. unfold u64, two64, num_slots in *. rewrite Z.mod_small by lia. lia.
Qed.
Lemma lookup_used (c : chunk T) j : (j < elems)%nat → chunk_wf elems c → chunk_is_used c j = Val (bool_decide (is_Some (chunk_lookup c j))).
Proof.
  intros Hj Hw. unfold chunk_is_used, chunk_lookup. destruct (lookup_lt_is_Some_2 (Chunk.slots_ c) j) as [b Hb]; [by rewrite (wf_slots _ _ Hw)|].
  destruct (lookup_lt_is_Some_2 (data_ c) j) as [d Hd]; [by rewrite (wf_data _ _ Hw)|].
  rewrite Hb. destruct b; [rewrite Hd; rewrite bool_decide_eq_true_2; [done|by exists d]|]. by rewrite (bool_decide_eq_false_2 (is_Some (None : option T))) by (by intros [? ?]).
Qed.
Lemma lookup_data (c : chunk T) j x : chunk_lookup c j = Some x → data_ c !! j = Some x.
Proof. unfold chunk_lookup. destruct (Chunk.slots_ c !! j) as [[]|]; done. Qed.

Lemma find_chunk_ok l cs m h s i md : bv_inv l cs m h s → (i < length cs * elems)%nat →
  ∃ s' sl c, bv_find_chunk elems page_size (Z.of_nat i) md s = (s', Val (pos_ sl)) ∧ bv_inv l cs m h s' ∧ s'.1 = s.1
    ∧ cs !! (i / elems)%nat = Some c ∧ ptable_ s'.2 !! with_file fid (Z.of_nat (S (i / elems))) = Some sl
    ∧ buffer_ s'.2 !! pos_ sl = Some (enc c) ∧ (if md then dirty_ sl = true else dirty_ sl = true → ptable_ s.2 !! with_file fid (Z.of_nat (S (i / elems))) = Some sl)
    ∧ chunk_lookup c (i mod elems) = l !! i.
Proof.
  intros H Hi. destruct (index_page i _ Hi (bi_bound _ _ _ _ _ H)) as [Hp Hu]. destruct (index_split i) as (_ & _ & Hsp & Hm).
  destruct (lookup_lt_is_Some_2 cs (i / elems)%nat Hp) as [c Hc].
  destruct (fetch_ok l cs m h s _ c md H Hc) as (s' & sl & Ef & Hinv & H1 & H2 & H3 & H4).
  exists s', sl, c. unfold bv_find_chunk. rewrite Hu. split_and!; try done.
  rewrite (bi_records _ _ _ _ _ H _ _ _ Hc Hm). by rewrite <-Hsp.
Qed.

(** A record is found under its position, a free slot of a page is an unknown
    id. *)
Lemma at_ok l cs m h s i : bv_inv l cs m h s → (i < length cs * elems)%nat →
  ∃ s', bv_inv l cs m h s' ∧ match l !! i with
    | Some x => ∃ r, bv_at elems page_size dec (Z.of_nat i) s = (s', Val r) ∧ bv_deref dec r s' = (s', Val x)
    | None => bv_at elems page_size dec (Z.of_nat i) s = (s', Exn unknown_id)
    end.
Proof.
  intros H Hi. destruct (find_chunk_ok l cs m h s i false H Hi) as (s' & sl & c & Ef & Hinv & _ & Hc & _ & Hb & _ & Hl).
  exists s'. split; [done|]. pose proof (bi_wf _ _ _ _ _ H _ _ Hc) as Hw. destruct (index_split i) as (_ & Es & _ & Hm).
  pose proof (chunk_of_ok s' (pos_ sl) c Hb Hw) as Ec.
  assert (∀ k, (bv_find_chunk elems page_size (Z.of_nat i) false ≫= λ ch, c ← chunk_of dec ch; used ← lift_res (chunk_is_used c (bv_slot_of elems (Z.of_nat i))); k ch (used : bool)) s
     = k (pos_ sl) (bool_decide (is_Some (l !! i))) s' :> st * res (nat * nat)) as Ek.
  { intros k. rewrite (bind_val _ _ _ _ _ Ef), (bind_val _ _ _ _ _ Ec). rewrite Es, lookup_used, Hl by done. done. }
  unfold bv_at. rewrite (Ek (λ ch used, if used then mret (ch, bv_slot_of elems (Z.of_nat i)) else throw unknown_id)).
  destruct (l !! i) as [x|]; [|by rewrite bool_decide_eq_false_2 by (by intros [? ?])].
  rewrite bool_decide_eq_true_2 by eauto. eexists. split; [done|]. unfold bv_deref. rewrite (bind_val _ _ _ _ _ Ec). cbn [snd].
  rewrite Es. by rewrite (lookup_data _ _ _ Hl).
Qed.

(** ** The last page *)
(** The file of a vector whose pages are all in use. *)
Definition full_file (n : Z) (s : st) : Prop :=
  bv_file_id s.1 = fid ∧ ∃ f, files_ s.2 !! fid = Some f ∧ npages_ f = n ∧ n < num_slots ∧ ∀ i, 0 ≤ i < n → i ∈ slots_ (header_ f).
Lemma inv_full_file l cs m h s : bv_inv l cs m h s → full_file (Z.of_nat (length cs)) s.
Proof.
  intros H. split; [apply H|]. destruct (bi_file_ok _ _ _ _ _ H) as (f & Ef & Hn & Hh & Hf). exists f. split_and!; [done..|by rewrite <-Hn; apply Hf|].
  intros i Hi. rewrite Hh. by apply (bi_slots _ _ _ _ _ H).
Qed.
Lemma get_last_fetch n s : (0 < n)%nat → full_file (Z.of_nat n) s →
  bv_get_last_chunk page_size header_size true s = bv_fetch page_size (Z.of_nat n) true s.
Proof.
  intros Hn (Hid & f & Ef & Hnp & Hb & Hall). unfold bv_get_last_chunk, bv_fetch, masked, hd.
  rewrite (bind_val _ _ s s s.1 eq_refl), bind_assoc, (bind_val _ _ s s s.1 eq_refl), bind_ret, Hid.
  assert (on_file fid (pf_last_valid_page page_size header_size) s.2 = (s.2, Val (Z.of_nat n))) as El.
  { unfold on_file. rewrite bool_decide_eq_true_2 by lia. rewrite Ef. unfold pf_last_valid_page.
    rewrite (bind_val get_st _ f f f eq_refl), Hnp, (bool_decide_eq_false_2 (Z.of_nat n = 0)) by lia. rewrite Nat2Z.id.
    unfold lift_res, mbind, M_bind. rewrite (last_slot_ok _ n) by (try apply Hall; lia). cbn. by rewrite set_files_same. }
  assert (last_valid_page page_size header_size fid s.2 = (p ← fetch_page page_size (with_file fid (Z.of_nat n)); mret (p, Z.of_nat n)) s.2) as Elv.
  { unfold last_valid_page. by rewrite (bind_val _ _ _ _ _ El). }
  unfold on_pool, mbind, M_bind. cbn. rewrite Elv. unfold mbind, M_bind.
  destruct (fetch_page page_size (with_file fid (Z.of_nat n)) s.2) as [b' [pos|e]]; cbn; by rewrite ?Hid.
Qed.

(** ** Putting a record into the last page *)

(** A list of records seen through the last chunk. *)
Lemma last_first l cs0 c m h s : bv_inv l (cs0 ++ [c]) m h s → (length l < length (cs0 ++ [c]) * elems)%nat →
  first_ c = (length l - length cs0 * elems)%nat ∧ (first_ c < elems)%nat ∧ (length cs0 * elems ≤ length l)%nat.
Proof.
  intros H Hl. pose proof (bi_length _ _ _ _ _ H) as Hlen. rewrite length_app in *. cbn [length] in *.
  assert ((cs0 ++ [c]) !! length cs0 = Some c) as Hc by (by rewrite list_lookup_middle).
  pose proof (bi_wf _ _ _ _ _ H _ _ Hc) as Hw. pose proof (bi_records _ _ _ _ _ H) as Hr.
  assert (∀ j, (j < first_ c)%nat → (length cs0 * elems + j < length l)%nat) as Hbelow.
  { intros j Hj. pose proof (wf_first _ _ Hw). specialize (Hr _ c j Hc ltac:(lia)). apply lookup_lt_is_Some_1. rewrite <-Hr.
    unfold chunk_lookup. rewrite (wf_below _ _ Hw) by done. apply lookup_lt_is_Some_2. rewrite (wf_data _ _ Hw). lia. }
  assert (first_ c < elems)%nat as Hfe.
  { destruct (decide (first_ c < elems)%nat); [done|]. exfalso. specialize (Hbelow (elems - 1)%nat). pose proof (wf_first _ _ Hw). lia. }
  split_and!; [|done|lia]. specialize (Hr _ c (first_ c) Hc Hfe). unfold chunk_lookup in Hr. rewrite (wf_at _ _ Hw) in Hr by done.
  symmetry in Hr. apply lookup_ge_None in Hr. destruct (decide (first_ c = 0)%nat); [lia|]. specialize (Hbelow (first_ c - 1)%nat). lia.
Qed.

Lemma new_chunk_put (c : chunk T) j o : chunk_wf elems c → (j < elems)%nat →
  let c' := chunk_write (chunk_set elems c j true) j o in
  chunk_wf elems c' ∧ ∀ k, (k < elems)%nat → chunk_lookup c' k = if decide (j = k) then Some o else chunk_lookup c k.
Proof.
  intros Hw Hj. pose proof (chunk_set_wf elems c j true Hw Hj) as Hw1. cbv zeta. split; [by apply chunk_write_wf|].
  intros k Hk. rewrite chunk_lookup_write by (by rewrite (wf_data _ _ Hw1)). case_decide as Ej.
  - subst k. rewrite chunk_set_slots, list_lookup_insert_eq by (by rewrite (wf_slots _ _ Hw)). by rewrite decide_True.
  - rewrite chunk_lookup_set_true, decide_False by (by intros [? _]). done.
Qed.
Lemma full_iff l cs0 c m h s : bv_inv l (cs0 ++ [c]) m h s →
  chunk_is_full c = true ↔ length l = (length (cs0 ++ [c]) * elems)%nat.
Proof.
  intros H. assert ((cs0 ++ [c]) !! length cs0 = Some c) as Hc by (by rewrite list_lookup_middle).
  pose proof (bi_wf _ _ _ _ _ H _ _ Hc) as Hw. pose proof (bi_length _ _ _ _ _ H) as Hl. rewrite chunk_is_full_wf by done. split.
  - intros Hf. destruct (decide (length l < length (cs0 ++ [c]) * elems)%nat) as [Hlt|]; [|lia].
    destruct (last_first _ _ _ _ _ _ H Hlt) as (_ & ? & _). lia.
  - intros Hf. destruct (decide (first_ c = elems)) as [|Hne]; [done|]. pose proof (wf_first _ _ Hw).
    pose proof (bi_records _ _ _ _ _ H _ _ (first_ c) Hc ltac:(lia)) as Hr. unfold chunk_lookup in Hr. rewrite (wf_at _ _ Hw) in Hr by lia.
    symmetry in Hr. apply lookup_ge_None in Hr. rewrite length_app in *. cbn [length] in *. lia.
Qed.

(** The invariant after a record was put into the last chunk. *)
Lemma inv_put l cs0 c m h s sl o v j :
  bv_inv l (cs0 ++ [c]) m h s → first_ c = j → (length l < length (cs0 ++ [c]) * elems)%nat →
  ptable_ s.2 !! with_file fid (Z.of_nat (S (length cs0))) = Some sl → dirty_ sl = true →
  let c' := chunk_write (chunk_set elems c j true) j o in
  bv_file_id v = fid → available_slots_ v = available_slots_ s.1 - 1 →
  freelist_ v = (if decide (S (length l) < length (cs0 ++ [c]) * elems)%nat then Z.setbit 0 (Z.of_nat (length cs0)) else 0) →
  bv_inv (l ++ [o]) (cs0 ++ [c']) (<[with_file fid (Z.of_nat (S (length cs0))) := enc c']> m) h
    (v, set_buffer (insert (pos_ sl) (enc c')) s.2).
Proof.
  intros H Hj Hl Hs Hd c' Hv1 Hv2 Hv3. destruct (last_first _ _ _ _ _ _ H Hl) as (Hf & Hfe & Hle). rewrite Hj in *.
  pose proof (bi_bound _ _ _ _ _ H) as Hb. pose proof (bi_length _ _ _ _ _ H) as Hlen.
  assert ((cs0 ++ [c]) !! length cs0 = Some c) as Hc by (by rewrite list_lookup_middle).
  pose proof (bi_wf _ _ _ _ _ H _ _ Hc) as Hw. destruct (new_chunk_put c j o Hw Hfe) as [Hw' Hl'].
  assert (0 ≤ Z.of_nat (S (length cs0)) < 2 ^ 60) as Hp by (apply (bi_pid _ (cs0 ++ [c])); rewrite ?length_app in *; cbn [length] in *; lia).
  assert (∀ p, (p < length (cs0 ++ [c]))%nat → 0 ≤ Z.of_nat (S p) < 2 ^ 60) as Hps by (intros p Hp'; by apply (bi_pid _ (cs0 ++ [c]))).
  assert (∀ p d, (cs0 ++ [c']) !! p = Some d → (p = length cs0 ∧ d = c') ∨ (p ≠ length cs0 ∧ (cs0 ++ [c]) !! p = Some d)) as Hcase.
  { intros p d Hd'. destruct (decide (p = length cs0)) as [->|Hne]; [left; split; [done|]; rewrite list_lookup_middle in Hd' by done; congruence|right].
    split; [done|]. pose proof (lookup_lt_Some _ _ _ Hd') as Hlt. rewrite length_app in Hlt. cbn in Hlt. rewrite lookup_app_l in Hd' |- * by lia. done. }
  assert (length (cs0 ++ [c']) = length (cs0 ++ [c])) as El by (by rewrite !length_app).
  split; cbn [fst snd].
  - done.
  - apply shows_write; [apply H|by apply with_file_ok|done..].
  - rewrite El. apply (bi_shape _ _ _ _ _ H).
  - rewrite El. apply (bi_slots _ _ _ _ _ H).
  - intros p d [[-> ->]|[Hne Hd']]%Hcase; [by rewrite lookup_insert_eq|].
    rewrite lookup_insert_ne; [by apply (bi_pages _ _ _ _ _ H)|]. intros E%with_file_inj; [lia|done|done|]. apply Hps. by eapply lookup_lt_Some.
  - rewrite El. intros p Hp'. rewrite lookup_insert_ne; [by apply (bi_none _ _ _ _ _ H)|].
    rewrite length_app in Hp'. cbn [length] in Hp'. intros E%with_file_inj; try done; lia.
  - intros p d [[-> ->]|[Hne Hd']]%Hcase; [done|by eapply bi_wf].
  - intros p d k [[-> ->]|[Hne Hd']]%Hcase Hk.
    + rewrite Hl' by done. rewrite (bi_records _ _ _ _ _ H _ _ _ Hc Hk). destruct (decide (j = k)) as [Ek|Ek].
      * subst k. rewrite lookup_app_r by lia. by replace (length cs0 * elems + j - length l)%nat with 0%nat by lia.
      * destruct (decide (length cs0 * elems + k < length l)%nat); [by rewrite lookup_app_l by done|].
        rewrite (lookup_ge_None_2 l) by lia. symmetry. apply lookup_ge_None_2. rewrite length_app. cbn. lia.
    + rewrite (bi_records _ _ _ _ _ H _ _ _ Hd' Hk). symmetry. apply lookup_app_l.
      pose proof (lookup_lt_Some _ _ _ Hd') as Hlt. rewrite length_app in Hlt. cbn in Hlt.
      assert (S p * elems ≤ length cs0 * elems)%nat by (apply Nat.mul_le_mono_r; lia). lia.
  - rewrite El, !length_app in *. cbn [length] in *. lia.
  - rewrite El, Hv2, (bi_available _ _ _ _ _ H), !length_app. cbn [length]. lia.
  - rewrite El, Hv3, !length_app in *. cbn [length] in *. destruct (decide _), (decide _); try lia. f_equal. lia.
Qed.

Lemma put_in_ok l cs0 c m h s sl o :
  bv_inv l (cs0 ++ [c]) m h s → (length l < length (cs0 ++ [c]) * elems)%nat →
  ptable_ s.2 !! with_file fid (Z.of_nat (S (length cs0))) = Some sl → buffer_ s.2 !! pos_ sl = Some (enc c) → dirty_ sl = true →
  ∃ s' c' m' r, put_in elems enc dec (pos_ sl) o s = (s', Val (Z.of_nat (length l), r)) ∧ bv_inv (l ++ [o]) (cs0 ++ [c']) m' h s'.
Proof.
  intros H Hl Hs Hbuf Hd. destruct (last_first _ _ _ _ _ _ H Hl) as (Hf & Hfe & Hle). destruct Helems as [He0 HeM].
  pose proof (bi_bound _ _ _ _ _ H) as Hb. pose proof (bi_length _ _ _ _ _ H) as Hlen.
  assert ((cs0 ++ [c]) !! length cs0 = Some c) as Hc by (by rewrite list_lookup_middle).
  pose proof (bi_wf _ _ _ _ _ H _ _ Hc) as Hw. destruct (new_chunk_put c (first_ c) o Hw Hfe) as [Hw' Hl'].
  set (c' := chunk_write (chunk_set elems c (first_ c) true) (first_ c) o) in *.
  destruct (the_file_ok _ _ _ _ _ H) as (f & Ef & Hn & Hh).
  assert (Z.of_nat (length (cs0 ++ [c]) * elems) < 2 ^ 48) as Hsmall.
  { unfold num_slots in Hb. rewrite Nat2Z.inj_mul. change (2 ^ 48) with (65536 * 2 ^ 32). apply Z.mul_lt_mono_nonneg; lia. }
  assert (npages_ f * E = Z.of_nat (length cs0 * elems) + E) as Hoff by (rewrite Hn, length_app; cbn [length]; lia).
  assert (u64 ((npages_ f - 1) * E) = Z.of_nat (length cs0 * elems)) as Eo.
  { unfold u64, two64. rewrite length_app in Hsmall. cbn [length] in Hsmall. rewrite Z.mod_small; lia. }
  assert (u64 (available_slots_ s.1 - 1) = available_slots_ s.1 - 1) as Ea.
  { rewrite (bi_available _ _ _ _ _ H). unfold u64, two64. rewrite Z.mod_small; lia. }
  set (v1 := set_available (λ a, u64 (a - 1)) s.1).
  set (b' := set_buffer (insert (pos_ sl) (enc c')) s.2).
  assert (buffer_ b' !! pos_ sl = Some (enc c')) as Hb'.
  { subst b'. cbn. apply list_lookup_insert_eq. by eapply lookup_lt_Some. }
  set (v2 := if chunk_is_full c' then set_freelist (Z.clearbit (freelist_ v1) (Z.of_nat (length cs0))) v1 else v1).
  pose proof (λ v, inv_put l cs0 c m h s sl o v (first_ c) H eq_refl Hl Hs Hd) as Hput. cbv zeta in Hput. fold c' b' in Hput.
  assert (bv_inv (l ++ [o]) (cs0 ++ [c']) (<[with_file fid (Z.of_nat (S (length cs0))):=enc c']> m) h (v2, b')) as Hinv.
  { assert (chunk_is_full c' = true ↔ ¬ (S (length l) < length (cs0 ++ [c]) * elems)%nat) as Hfull.
    { assert (bv_inv (l ++ [o]) (cs0 ++ [c']) (<[with_file fid (Z.of_nat (S (length cs0))):=enc c']> m) h
        (mk_bvec fid (available_slots_ s.1 - 1) 0 (if decide (S (length l) < length (cs0 ++ [c]) * elems)%nat then Z.setbit 0 (Z.of_nat (length cs0)) else 0), b')) as H2
        by (by apply Hput).
      rewrite (full_iff _ _ _ _ _ _ H2). rewrite !length_app. rewrite length_app in Hl. cbn [length] in *. lia. }
    apply Hput.
    - subst v2. destruct (chunk_is_full c'); apply H.
    - subst v2. destruct (chunk_is_full c'); cbn; apply Ea.
    - pose proof (bi_free _ _ _ _ _ H) as Hfr. rewrite decide_True in Hfr by done. rewrite length_app in Hfr. cbn [length] in Hfr.
      replace (Z.of_nat (length cs0 + 1) - 1) with (Z.of_nat (length cs0)) in Hfr by lia.
      subst v2. destruct (chunk_is_full c') eqn:Efu; cbn [set_freelist freelist_ v1 set_available]; rewrite Hfr.
      + rewrite decide_False by (by apply Hfull). apply Z.bits_inj'. intros k Hk.
        rewrite Z.clearbit_eqb, Z.setbit_eqb, Z.bits_0 by lia. by destruct (Z.of_nat (length cs0) =? k).
      + rewrite decide_True; [done|]. destruct (decide _) as [|Hn']; [done|]. apply Hfull in Hn'. congruence. }
  eexists _, c', _, _. split; [|exact Hinv].
  unfold put_in. rewrite (bind_val _ _ _ _ _ (chunk_of_ok _ _ _ Hbuf Hw)).
  rewrite (chunk_first_available_wf _ _ Hw), decide_True by done. rewrite (bind_val _ _ _ _ _ Ef). cbv zeta. rewrite Eo.
  rewrite (bind_val (set_hd _) _ _ (v1, s.2) tt eq_refl).
  erewrite bind_val; [|unfold chunk_do; rewrite (bind_val _ _ _ _ _ (chunk_of_ok (v1, s.2) _ _ Hbuf Hw)); reflexivity].
  fold c'. change (set_buffer _ (v1, s.2).2) with b'. cbn [fst].
  rewrite (bind_val _ _ _ _ _ (chunk_of_ok (v1, b') _ _ Hb' Hw')).
  assert (when (chunk_is_full c') (bv_remove_from_free_list elems (Z.of_nat (length cs0 * elems))) (v1, b') = ((v2, b'), Val tt)) as Ewhen.
  { subst v2. destruct (chunk_is_full c'); [|done]. cbn [when]. unfold bv_remove_from_free_list, set_free_bit.
    rewrite Nat2Z.inj_mul, Z.div_mul by lia. rewrite length_app in Hb. cbn [length] in Hb. rewrite bool_decide_eq_true_2 by lia. done. }
  rewrite (bind_val _ _ _ _ _ Ewhen).
  assert (u64 (Z.of_nat (length cs0 * elems) + Z.of_nat (first_ c)) = Z.of_nat (length l)) as ->; [|reflexivity].
  rewrite length_app in Hsmall, Hl. cbn [length] in Hsmall, Hl. rewrite Hf. unfold u64, two64. rewrite Z.mod_small; lia.
Qed.

(** ** A new page *)

(** Fetching a cached page does not look at the buffer. *)
Lemma fetch_cached pid b s : ptable_ b !! pid = Some s →
  fetch_page page_size pid b = (let '(l, r) := move_to_mru (Some (lru_node_ s)) (lru_list_ b) in
    (set_lru l (add_reads 0 1 b), match r with Val _ => Val (pos_ s) | Exn e => Exn e end)).
Proof.
  intros Hs. unfold fetch_page. rewrite (bind_val (modify _) _ b (add_reads 0 1 b) tt eq_refl), (bind_val get_st _ _ _ _ eq_refl).
  change (ptable_ (add_reads 0 1 b)) with (ptable_ b). rewrite Hs. unfold on_lru, mbind, M_bind. cbn [add_reads lru_list_].
  by destruct (move_to_mru _ _) as [l [[]|e]].
Qed.
(** A page that is initialised in the cache, fetched again and marked. *)
Lemma init_fetch_ok v b m pid sl pg : shows b m → pid_ok pid → is_Some (m !! pid) → ptable_ b !! pid = Some sl →
  ∀ p, with_file (bv_file_id v) p = pid → ∃ b',
  bv_fetch page_size p true (v, set_buffer (insert (pos_ sl) pg) b) = ((v, b'), Val (pos_ sl)) ∧ shows b' (<[pid := pg]> m) ∧ shape b' = shape b
    ∧ ptable_ b' !! pid = Some (set_dirty_flag true sl) ∧ buffer_ b' !! pos_ sl = Some pg.
Proof.
  intros H Hpid Hm Hs p Hp. destruct (shows_fetch page_size b m pid H Hpid Hm) as (b2 & L2 & sl2 & E2 & H2 & Hok2 & Hs2 & _).
  pose proof (keeps_fetch page_size pid b) as Hk. rewrite E2 in Hk. cbn in Hk.
  pose proof (fetch_cached pid b sl Hs) as Ec. rewrite E2 in Ec. destruct (move_to_mru _ _) as [l' [u|e]] eqn:El; [|done].
  injection Ec as Eb Ep. subst b2. cbn [set_lru add_reads ptable_] in Hs2. assert (sl2 = sl) as -> by congruence.
  exists (set_buffer (insert (pos_ sl) pg) (set_ptable (alter (set_dirty_flag true) pid) (set_lru l' (add_reads 0 1 b)))).
  split_and!.
  - unfold bv_fetch, masked, hd. rewrite bind_assoc, (bind_val (gets fst) _ (v, set_buffer (insert (pos_ sl) pg) b) _ v eq_refl), bind_ret, Hp.
    erewrite bind_val; [|unfold on_pool; cbn [snd]; rewrite (fetch_cached pid _ sl) by done; cbn [set_buffer lru_list_]; rewrite El; reflexivity].
    done.
  - apply (shows_write _ m pid (set_dirty_flag true sl)); [by apply shows_mark|done| |done]. cbn. by rewrite lookup_alter_eq, Hs.
  - rewrite <-Hk. done.
  - cbn. by rewrite lookup_alter_eq, Hs.
  - cbn. apply list_lookup_insert_eq. destruct (shows_ok _ _ H) as [L Hok]. destruct (pool_page _ _ _ _ Hok Hs) as [pg0 Hpg].
    by eapply lookup_lt_Some.
Qed.

Lemma lookup_app_Some_sing (cs : list (chunk T)) d p c : (cs ++ [d]) !! p = Some c → cs !! p = Some c ∨ (p = length cs ∧ d = c).
Proof.
  intros [?|[Hl Hp]]%lookup_app_Some; [by left|right]. destruct (p - length cs)%nat eqn:E'; [|done]. cbn in Hp. split; [lia|congruence].
Qed.
Lemma grow_ok l cs m h s : bv_inv l cs m h s → length l = (length cs * elems)%nat → Z.of_nat (length cs) < num_slots - 1 →
  ∃ s' sl m' h', (bv_resize elems page_size header_size enc 1;; bv_get_last_chunk page_size header_size true) s = (s', Val (pos_ sl))
    ∧ bv_inv l (cs ++ [new_chunk elems]) m' h' s' ∧ ptable_ s'.2 !! with_file fid (Z.of_nat (S (length cs))) = Some sl
    ∧ buffer_ s'.2 !! pos_ sl = Some (enc (new_chunk elems)) ∧ dirty_ sl = true.
Proof.
  intros H Hl Hb. destruct (bi_file_ok _ _ _ _ _ H) as (f & Ef & Hn & Hh & Hok). destruct Helems as [He0 HeM].
  destruct (proj1 (alloc_end page_size header_size f Hok ltac:(intros i Hi; rewrite Hh; apply (bi_slots _ _ _ _ _ H); lia)) ltac:(lia))
    as (ps & Ea & Hps & Hok' & Hat). set (f' := with_page (npages_ f) ps f) in *. rewrite Hn in Ea, Hat.
  set (n1 := Z.of_nat (length cs) + 1) in *. assert (0 ≤ n1 < 2 ^ 60) as Hp by (unfold num_slots in *; lia).
  pose proof (shows_new_page page_size fid Hfid s.2 m f f' _ (bi_shows _ _ _ _ _ H) Ef Hok Hn Hb Hok' Hat) as Hsh1. fold n1 in Hsh1.
  pose proof (with_file_ok fid Hfid _ Hp) as Hpid. set (pid := with_file fid n1) in *.
  destruct (shows_fetch page_size _ _ pid Hsh1 Hpid) as (b2 & L2 & sl & E2 & Hsh2 & Hok2 & Hsl & _); [by rewrite lookup_insert_eq|].
  pose proof (keeps_fetch page_size pid (set_files (insert fid f') s.2)) as Hk. rewrite E2 in Hk. cbn [fst] in Hk.
  set (nw := new_chunk elems : chunk T). set (n := Z.of_nat (length cs)) in *.
  set (v1 := mk_bvec fid (u64 (available_slots_ s.1 + E)) (u64 (bv_capacity s.1 + E)) (Z.setbit (freelist_ s.1) n)).
  destruct (init_fetch_ok v1 b2 _ pid sl (enc nw) Hsh2 Hpid ltac:(by rewrite lookup_insert_eq) Hsl n1 eq_refl)
    as (b' & E3 & Hsh3 & Hk3 & Hs3 & Hbuf3).
  assert (shape b' !! fid = Some (n1, header_ f')) as Hshape.
  { rewrite Hk3, Hk. unfold shape. cbn [set_files files_]. rewrite lookup_fmap, lookup_insert_eq. cbn. by rewrite Hps, Hn. }
  exists (v1, b'), (set_dirty_flag true sl), (<[pid := enc nw]> (<[pid := zero_page page_size]> m)), (header_ f').
  assert (Z.of_nat (S (length cs)) = n1) as En1 by lia. rewrite En1.
  split_and!; [|split; cbn [fst snd]|done..].
  - assert (bv_resize elems page_size header_size enc 1 s = ((v1, set_buffer (insert (pos_ sl) (enc nw)) b2), Val tt)) as Eadd.
    { cbn [bv_resize]. erewrite bind_val; [done|]. unfold add_page, hd. rewrite (bind_val _ _ s s s.1 eq_refl).
      assert (on_pool (allocate_page page_size header_size (bv_file_id s.1)) s = ((s.1, b2), Val (pos_ sl, n1))) as Eall.
      { rewrite (bi_file _ _ _ _ _ H). unfold on_pool, allocate_page. erewrite bind_val; [|by apply (on_file_some fid f _ _ f' (Val n1)); [lia|..]].
        fold pid. by rewrite (bind_val _ _ _ _ _ E2). }
      rewrite (bind_val _ _ _ _ _ Eall). cbn [fst snd]. rewrite (bind_val (set_chunk enc (pos_ sl) nw) _ (s.1, b2) (s.1, set_buffer (insert (pos_ sl) (enc nw)) b2) tt eq_refl).
      unfold bv_add_to_free_list, set_free_bit.
      assert (u64 (n1 * E - 1) / E = n) as ->.
      { assert (n1 * E < 2 ^ 48) by (change (2 ^ 48) with (65536 * 2 ^ 32); unfold num_slots in *; apply Z.mul_lt_mono_nonneg; lia).
        unfold u64, two64. assert (E ≤ n1 * E) by nia. rewrite Z.mod_small by lia.
        replace (n1 * E - 1) with ((E - 1) + n * E) by lia. rewrite Z.div_add, Z.div_small by lia. lia. }
      rewrite bool_decide_eq_true_2 by lia. unfold set_hd, modify, mbind, M_bind. cbn. unfold v1. by rewrite <-(bi_file _ _ _ _ _ H). }
    rewrite (bind_val _ _ _ _ _ Eadd). rewrite (get_last_fetch (S (length cs))); [by rewrite En1|lia|].
    split; [done|]. cbn [snd]. assert (shape (set_buffer (insert (pos_ sl) (enc nw)) b2) !! fid = Some (n1, header_ f')) as Hsh by (rewrite <-Hshape, Hk3; done).
    unfold shape in Hsh. rewrite lookup_fmap in Hsh. apply fmap_Some in Hsh as (f2 & Ef2 & Hx). pose proof (f_equal fst Hx) as Hn2. pose proof (f_equal snd Hx) as Hh2. cbn [fst snd] in Hn2, Hh2.
    exists f2. split_and!; [done|congruence|lia|]. intros i Hi. rewrite <-Hh2. unfold f', with_page. cbn. apply elem_of_union.
    destruct (decide (i = n)); [left; apply elem_of_singleton; lia|right]. rewrite Hh. apply (bi_slots _ _ _ _ _ H). lia.
  - done.
  - done.
  - rewrite length_app, Hshape. cbn [length]. do 2 f_equal. lia.
  - intros i. unfold f', with_page. cbn. rewrite elem_of_union, elem_of_singleton, Hh, (bi_slots _ _ _ _ _ H), length_app. cbn. lia.
  - intros p c [Hp'|[-> <-]]%lookup_app_Some_sing.
    + pose proof (lookup_lt_Some _ _ _ Hp'). rewrite !lookup_insert_ne; [by apply (bi_pages _ _ _ _ _ H)|..];
        (intros E%with_file_inj; [lia|done|lia|unfold num_slots in *; lia]).
    + by rewrite En1, lookup_insert_eq.
  - intros p Hp'. rewrite length_app in Hp'. cbn [length] in Hp'. rewrite !lookup_insert_ne;
      [apply (bi_none _ _ _ _ _ H); lia|..]; (intros E%with_file_inj; [lia|done|lia|lia]).
  - intros p c [Hp'|[-> <-]]%lookup_app_Some_sing; [by eapply bi_wf|]. apply new_chunk_wf.
  - intros p c j [Hp'|[-> <-]]%lookup_app_Some_sing Hj; [by eapply bi_records|]. unfold nw; rewrite (chunk_lookup_new elems j).
    symmetry. apply lookup_ge_None_2. lia.
  - rewrite length_app. cbn. lia.
  - unfold v1. cbn [available_slots_]. rewrite (bi_available _ _ _ _ _ H), length_app. cbn [length]. unfold u64, two64. rewrite Z.mod_small; lia.
  - unfold v1. cbn [freelist_]. rewrite (bi_free _ _ _ _ _ H), length_app, decide_False, decide_True by (cbn; lia). cbn [length]. f_equal. lia.
Qed.

(** ** Adding records *)
Notation append := (bv_append elems page_size header_size enc dec).
Notation store := (bv_store elems page_size header_size enc dec).

(** The last chunk when it has room. *)
Lemma last_ok l cs0 c m h s : bv_inv l (cs0 ++ [c]) m h s → ∃ s' sl,
  bv_fetch page_size (Z.of_nat (length (cs0 ++ [c]))) true s = (s', Val (pos_ sl)) ∧ bv_inv l (cs0 ++ [c]) m h s'
    ∧ ptable_ s'.2 !! with_file fid (Z.of_nat (S (length cs0))) = Some sl ∧ buffer_ s'.2 !! pos_ sl = Some (enc c) ∧ dirty_ sl = true.
Proof.
  intros H. assert ((cs0 ++ [c]) !! length cs0 = Some c) as Hc by (by rewrite list_lookup_middle).
  destruct (fetch_ok _ _ _ _ _ _ _ true H Hc) as (s' & sl & Ef & Hinv & _ & H2 & H3 & H4). exists s', sl.
  rewrite length_app, Nat.add_1_r. by split_and!.
Qed.
Lemma room_read s pos c : buffer_ s.2 !! pos = Some (enc c) → chunk_wf elems c → chunk_is_full c = false → ∀ m,
  (c ← chunk_of dec pos; if chunk_is_full c then m else mret pos) s = (s, Val pos) :> st * res nat.
Proof. intros Hb Hw Hf m. by rewrite (bind_val _ _ _ _ _ (chunk_of_ok s pos c Hb Hw)), Hf. Qed.
Lemma room_ok l cs m h s : bv_inv l cs m h s → (Z.of_nat (length l) < (num_slots - 1) * E) →
  let full := bv_is_full s.1 in
  ∃ s' sl cs0 c m' h', (when full (bv_resize elems page_size header_size enc 1);; last_chunk_with_room elems page_size header_size enc dec) s = (s', Val (pos_ sl))
    ∧ bv_inv l (cs0 ++ [c]) m' h' s' ∧ (length l < length (cs0 ++ [c]) * elems)%nat
    ∧ ptable_ s'.2 !! with_file fid (Z.of_nat (S (length cs0))) = Some sl ∧ buffer_ s'.2 !! pos_ sl = Some (enc c) ∧ dirty_ sl = true.
Proof.
  intros H Hroom full. destruct Helems as [He0 HeM]. pose proof (bi_length _ _ _ _ _ H) as Hlen.
  assert (full = bool_decide (length l = length cs * elems)%nat) as ->.
  { unfold full, bv_is_full. rewrite (bi_available _ _ _ _ _ H). apply bool_decide_ext. lia. }
  case_bool_decide as Hfull; cbn [when].
  - destruct (grow_ok l cs m h s H Hfull) as (s' & sl & m' & h' & Eg & Hinv & Hs & Hb & Hd); [nia|].
    exists s', sl, cs, (new_chunk elems), m', h'. assert ((cs ++ [new_chunk elems]) !! length cs = Some (new_chunk elems : chunk T)) as Hc by (by rewrite list_lookup_middle).
    split_and!; [|done|rewrite length_app; cbn; lia|done..].
    unfold last_chunk_with_room. rewrite <-bind_assoc, (bind_val _ _ _ _ _ Eg). apply (room_read _ _ (new_chunk elems)); [done|apply new_chunk_wf|].
    destruct (chunk_is_full _) eqn:E'; [|done]. apply (full_iff _ _ _ _ _ _ Hinv) in E'. rewrite length_app in E'. cbn in E'. lia.
  - destruct (decide (cs = [])) as [->|Hne]; [cbn in *; lia|]. destruct (exists_last Hne) as (cs0 & c & ->).
    destruct (last_ok _ _ _ _ _ _ H) as (s' & sl & Ef & Hinv & Hs & Hb & Hd). exists s', sl, cs0, c, m, h.
    assert ((cs0 ++ [c]) !! length cs0 = Some c) as Hc by (by rewrite list_lookup_middle).
    split_and!; [|done|lia|done..]. rewrite bind_ret. unfold last_chunk_with_room.
    rewrite (bind_val _ _ s s' (pos_ sl)); [|rewrite (get_last_fetch (length (cs0 ++ [c]))); [done|rewrite length_app; cbn; lia|by eapply inv_full_file]].
    apply (room_read _ _ c); [done|by eapply bi_wf|].
    destruct (chunk_is_full _) eqn:E'; [|done]. apply (full_iff _ _ _ _ _ _ Hinv) in E'. lia.
Qed.

Lemma append_ok l cs m h s o : bv_inv l cs m h s → (Z.of_nat (length l) < (num_slots - 1) * E) →
  ∃ s' cs' m' h' r, append o s = (s', Val (Z.of_nat (length l), r)) ∧ bv_inv (l ++ [o]) cs' m' h' s'.
Proof.
  intros H Hroom. destruct (room_ok l cs m h s H Hroom) as (s1 & sl & cs0 & c & m1 & h1 & Er & Hinv & Hl & Hs & Hb & Hd).
  destruct (put_in_ok l cs0 c m1 h1 s1 sl o Hinv Hl Hs Hb Hd) as (s' & c' & m' & r & Ep & Hinv'). exists s', (cs0 ++ [c']), m', h1, r.
  split; [|done]. unfold bv_append, hd. rewrite (bind_val _ _ s s s.1 eq_refl). rewrite <-bind_assoc, (bind_val _ _ _ _ _ Er). exact Ep.
Qed.

Lemma first_bit_ok k i j : i ≤ j < i + Z.of_nat k → 0 ≤ i → first_bit k i (Z.setbit 0 j) = j + 1.
Proof.
  revert i. induction k as [|k IH]; intros i Hij Hi; [lia|]. cbn [first_bit]. rewrite Z.setbit_eqb, Z.bits_0, orb_false_r by lia.
  destruct (Z.eqb_spec j i); [by subst|]. apply IH; lia.
Qed.
Lemma store_ok l cs m h s o : bv_inv l cs m h s → (Z.of_nat (length l) < (num_slots - 1) * E) →
  ∃ s' cs' m' h' r, store o s = (s', Val (Z.of_nat (length l), r)) ∧ bv_inv (l ++ [o]) cs' m' h' s'.
Proof.
  intros H Hroom. pose proof (room_ok l cs m h s H Hroom) as Hr. cbv zeta in Hr. pose proof (bi_length _ _ _ _ _ H) as Hlen.
  unfold bv_store, hd. rewrite (bind_val _ _ s s s.1 eq_refl). destruct (bv_is_full s.1) eqn:Ef.
  - destruct Hr as (s1 & sl & cs0 & c & m1 & h1 & Er & Hinv & Hl & Hs & Hb & Hd).
    destruct (put_in_ok l cs0 c m1 h1 s1 sl o Hinv Hl Hs Hb Hd) as (s' & c' & m' & r & Ep & Hinv'). exists s', (cs0 ++ [c']), m', h1, r.
    split; [|done]. cbn [when] in Er. by rewrite (bind_val _ _ _ _ _ Er).
  - assert (length l < length cs * elems)%nat as Hlt.
    { apply bool_decide_eq_false in Ef. rewrite (bi_available _ _ _ _ _ H) in Ef. lia. }
    destruct (decide (cs = [])) as [->|Hne]; [cbn in *; lia|]. destruct (exists_last Hne) as (cs0 & c & ->).
    destruct (last_ok _ _ _ _ _ _ H) as (s1 & sl & Efe & Hinv & Hs & Hb & Hd). pose proof (bi_bound _ _ _ _ _ H) as Hbound.
    destruct (put_in_ok l cs0 c m h s1 sl o Hinv Hlt Hs Hb Hd) as (s' & c' & m' & r & Ep & Hinv'). exists s', (cs0 ++ [c']), m', h, r.
    split; [|done]. rewrite (bind_val _ _ s s1 (pos_ sl)); [exact Ep|].
    set (n := length (cs0 ++ [c])) in *. assert (0 < n)%nat by (unfold n; rewrite length_app; cbn; lia).
    assert (bv_find_in_free_list s.1 = Z.of_nat n) as ->.
    { unfold bv_find_in_free_list. rewrite (bi_free _ _ _ _ _ H), decide_True by done. rewrite first_bit_ok; [fold n; lia| |lia].
      rewrite Z2Nat.id by done. fold n. lia. }
    destruct (the_file_ok _ _ _ _ _ H) as (f & Eth & Hn & Hh). fold n in Hn.
    assert (pf_is_valid f (Z.of_nat n) = Val true) as Ev.
    { unfold pf_is_valid. rewrite bool_decide_eq_false_2 by lia. rewrite slot_test_ok by lia. rewrite Hh, bool_decide_eq_true_2; [done|].
      apply (bi_slots _ _ _ _ _ H). fold n. lia. }
    unfold bv_load_chunk. rewrite bind_assoc, (bind_val _ _ _ _ _ Eth). unfold lift_res. rewrite Ev. cbn [mbind res_bind]. unfold mbind at 1 2, M_bind at 1 2.
    unfold mbind, M_bind. by rewrite Efe.
Qed.

(** What a client does with the vector, and the same on a list. *)
Inductive bv_op : Type := Append (o : T) | Store (o : T) | At (i : nat).
Definition bv_run (a : bv_op) : M st (Z + T) :=
  match a with
  | Append o => r ← append o; mret (inl r.1)
  | Store o => r ← store o; mret (inl r.1)
  | At i => r ← bv_at elems page_size dec (Z.of_nat i); x ← bv_deref dec r; mret (inr x)
  end.
Fixpoint bv_runs (l : list bv_op) : M st (list (Z + T)) :=
  match l with [] => mret [] | a :: l' => r ← bv_run a; rs ← bv_runs l'; mret (r :: rs) end.
Definition list_run (a : bv_op) (l : list T) : list T * option (Z + T) :=
  match a with
  | Append o | Store o => (l ++ [o], Some (inl (Z.of_nat (length l))))
  | At i => (l, inr <$> l !! i)
  end.
Fixpoint list_runs (l : list bv_op) (x : list T) : list T * option (list (Z + T)) :=
  match l with
  | [] => (x, Some [])
  | a :: l' => let '(x1, r) := list_run a x in let '(x2, rs) := list_runs l' x1 in
               (x2, r1 ← r; rs1 ← rs; Some (r1 :: rs1))
  end.
Definition bv_holds (l : list T) (s : st) : Prop := ∃ cs m h, bv_inv l cs m h s.

(** C25: a vector over the page cache that is filled by [append] and [store] is a
    list: the ids are the positions 0, 1, 2, ..., a record is read under its
    id with every later [at], whatever pages have to be evicted in between, and
    no call fails as long as the records fit into 65535 pages. *)
Theorem bv_refines_list os l s rs : bv_holds l s → (Z.of_nat (length l + length os) ≤ (num_slots - 1) * E) →
  (list_runs os l).2 = Some rs → ∃ s', bv_runs os s = (s', Val rs) ∧ bv_holds (list_runs os l).1 s'.
Proof.
  revert l s rs. induction os as [|a os IH]; intros l s rs H Hroom Hrs; [by injection Hrs as <-; exists s|].
  cbn [list_runs bv_runs] in *. destruct (list_run a l) as [l1 r] eqn:E1. destruct (list_runs os l1) as [l2 rs2] eqn:E2. cbn [fst snd] in *.
  destruct r as [r1|]; [|done]. destruct rs2 as [rs1|]; [|done]. cbn in Hrs. injection Hrs as <-. cbn [length] in Hroom.
  assert (∃ s1, bv_run a s = (s1, Val r1) ∧ bv_holds l1 s1 ∧ (length l1 ≤ length l + 1)%nat) as (s1 & Ea & H1 & Hl1).
  { destruct H as (cs & m & h & H). destruct a as [o|o|i]; cbn [list_run bv_run] in *; injection E1 as Hx Hr; subst l1; try subst r1.
    - destruct (append_ok l cs m h s o H) as (s1 & cs' & m' & h' & r & Ea & Hinv); [lia|]. exists s1. rewrite (bind_val _ _ _ _ _ Ea).
      split_and!; [done|by exists cs', m', h'|rewrite length_app; cbn; lia].
    - destruct (store_ok l cs m h s o H) as (s1 & cs' & m' & h' & r & Ea & Hinv); [lia|]. exists s1. rewrite (bind_val _ _ _ _ _ Ea).
      split_and!; [done|by exists cs', m', h'|rewrite length_app; cbn; lia].
    - apply fmap_Some in Hr as (x & Ei & ->). pose proof (lookup_lt_Some _ _ _ Ei). pose proof (bi_length _ _ _ _ _ H).
      destruct (at_ok l cs m h s i H) as (s1 & Hinv & Hat); [lia|]. rewrite Ei in Hat. destruct Hat as (r & Ea & Ed). exists s1.
      rewrite (bind_val _ _ _ _ _ Ea), (bind_val _ _ _ _ _ Ed). split_and!; [done|by exists cs, m, h|lia]. }
  destruct (IH l1 s1 rs1 H1) as (s2 & Eo & H2); [lia|by rewrite E2|]. rewrite E2 in H2. exists s2.
  by rewrite (bind_val _ _ _ _ _ Ea), (bind_val _ _ _ _ _ Eo).
Qed.

(** ** Assignments through a reference *)

(** What is in a free slot of the buffer does not matter. *)
Lemma shows_free_slot b m pos y : shows b m → (∀ q s, ptable_ b !! q = Some s → pos_ s ≠ pos) → shows (set_buffer (insert pos y) b) m.
Proof.
  intros [[L H] Hsz Hun Hc] Hp. split; [exists L|done|done|].
  - destruct H as [H1 H2 H3 H4 H5 H6 H7 H8 H9 H10 H11 H12]. split; cbn [set_buffer lru_list_ ptable_ buffer_ free_slots bsize_ files_]; try done.
    + by rewrite length_insert.
    + intros q s Hs Hd. rewrite list_lookup_insert_ne by (intros E; by apply (Hp _ _ Hs)). by apply H11.
  - intros q Hq. rewrite <-Hc by done. unfold content. cbn [set_buffer ptable_ buffer_]. destruct (ptable_ b !! q) as [s|] eqn:Es; [|done].
    apply list_lookup_insert_ne. intros E. by apply (Hp _ _ Es).
Qed.
(** Taking a clean page out of the cache forgets what was assigned to it. *)
Lemma evict_assigned b m pid sl pg : shows b m → pid_ok pid → ptable_ b !! pid = Some sl → dirty_ sl = false →
  ∃ b', flush_page page_size pid true (set_buffer (insert (pos_ sl) pg) b) = (b', Val tt) ∧ shows b' m ∧ shape b' = shape b.
Proof.
  intros [[L H] Hsz Hun Hc] Hpid Hs Hd. pose proof (pool_entry _ _ _ _ H Hs) as Hin. apply list_elem_of_split in Hin as (L1 & L2 & ->).
  destruct (drop_page_ok b L1 _ pid L2 sl H Hs) as (b2 & E2 & H2 & Et2 & Eb2 & Ef2 & _ & Hc2); [by eapply pool_clean|].
  assert (shows b2 m) as Hsh2.
  { split; [by exists (L1 ++ L2)|by rewrite Eb2| |intros q Hq; by rewrite Hc2, Hc].
    intros q s. rewrite Et2. intros [_ Hq]%lookup_delete_Some. by apply (Hun q). }
  exists (set_buffer (insert (pos_ sl) (memset_int pg)) b2). split_and!; [| |unfold shape; cbn; by rewrite Ef2].
  - unfold flush_page. rewrite (bind_val get_st _ _ _ _ eq_refl). cbn [set_buffer ptable_]. rewrite Hs, Hd. cbn [when]. rewrite bind_ret.
    revert E2. unfold drop_page, on_lru, modify, mbind, M_bind. cbn. destruct (lru_remove (Some (lru_node_ sl)) (lru_list_ b)) as [lr [[]|e]]; [|done].
    intros [= <-]. unfold set_buffer, set_free, set_lru, set_ptable. cbn. do 2 f_equal.
    destruct (pool_page _ _ _ _ H Hs) as [pg0 Hpg0]. pose proof (lookup_lt_Some _ _ _ Hpg0).
    rewrite (list_alter_Some_insert _ _ _ pg) by (by apply list_lookup_insert_eq).
    rewrite (list_alter_Some_insert _ _ _ pg0) by done. by rewrite !list_insert_insert_eq.
  - apply shows_free_slot; [done|]. intros q s. rewrite Et2. intros [Hne Hq]%lookup_delete_Some Ep.
    apply Hne. exact (eq_sym (pool_inj _ _ H _ _ _ _ Hq Hs Ep)).
Qed.

(** [at] does not mark the page as changed, so an assignment through the
    reference it returns is lost when the page is taken out of the cache: the
    vector holds the old record again. *)
Theorem assignment_lost l s cs m h i x o : bv_inv l cs m h s → l !! i = Some x →
  (∀ sl, ptable_ s.2 !! with_file fid (Z.of_nat (S (i / elems))) = Some sl → dirty_ sl = false) →
  ∃ r s1 s2 s3, bv_at elems page_size dec (Z.of_nat i) s = (s1, Val r) ∧ bv_assign enc dec r o s1 = (s2, Val tt)
    ∧ bv_deref dec r s2 = (s2, Val o)
    ∧ on_pool (flush_page page_size (with_file fid (Z.of_nat (S (i / elems)))) true) s2 = (s3, Val tt) ∧ bv_inv l cs m h s3.
Proof.
  intros H Hx Hclean. pose proof (lookup_lt_Some _ _ _ Hx) as Hi. pose proof (bi_length _ _ _ _ _ H).
  destruct (find_chunk_ok l cs m h s i false H) as (s1 & sl & c & Ef & Hinv & _ & Hc & Hs & Hb & Hd & Hl); [lia|].
  pose proof (bi_wf _ _ _ _ _ H _ _ Hc) as Hw. destruct (index_split i) as (_ & Es & _ & Hm).
  assert (dirty_ sl = false) as Hd0 by (destruct (dirty_ sl) eqn:Ed; [|done]; rewrite <-Ed; apply Hclean, Hd; done).
  pose proof (bi_pid _ cs (lookup_lt_Some _ _ _ Hc) (bi_bound _ _ _ _ _ H)) as Hp.
  pose proof (chunk_of_ok s1 (pos_ sl) c Hb Hw) as Ec. rewrite Hx in Hl.
  set (c' := chunk_write c (i mod elems)%nat o : chunk T). assert (chunk_wf elems c') as Hw' by (by apply chunk_write_wf).
  destruct (evict_assigned s1.2 m _ sl (enc c') (bi_shows _ _ _ _ _ Hinv) (with_file_ok fid Hfid _ Hp) Hs Hd0) as (b' & E3 & Hsh & Hk).
  exists (pos_ sl, (i mod elems)%nat), s1, (s1.1, set_buffer (insert (pos_ sl) (enc c')) s1.2), (s1.1, b'). split_and!.
  - unfold bv_at. rewrite (bind_val _ _ _ _ _ Ef), (bind_val _ _ _ _ _ Ec), Es, lookup_used by done.
    rewrite Hl, bool_decide_eq_true_2 by eauto. done.
  - unfold bv_assign, chunk_do. cbn [fst snd]. by rewrite (bind_val _ _ _ _ _ Ec).
  - unfold bv_deref. cbn [fst snd]. 
    rewrite (bind_val _ _ _ _ _ (chunk_of_ok (s1.1, set_buffer (insert (pos_ sl) (enc c')) s1.2) (pos_ sl) c'
      ltac:(cbn; apply list_lookup_insert_eq; by eapply lookup_lt_Some) Hw')).
    assert (data_ c' !! (i mod elems)%nat = Some o) as ->; [|done]. apply list_lookup_insert_eq. by rewrite (wf_data _ _ Hw).
  - unfold on_pool. cbn [fst snd]. by rewrite E3.
  - destruct Hinv. split; cbn; try done. by rewrite Hk.
Qed.
End facts.
