(* ===== verification/PagedPool.v ===== *)
(** * PagedPool: the strings of the dictionary in a paged file (src/dict/paged_string_pool.cpp)

    Every page begins with four bytes for the position behind its last string
    and holds zero-terminated strings; the position of a string, counted over
    all pages, is its code.  A page is reached through the page cache, so it may
    be evicted between any two calls.  Codes and positions are 32 bits wide.
    [scan] reads the file, not the cache. *)

From Stdlib Require Import Ascii.
From S2P Require Import Prelude DictSpec StringPool LruList PagedFile PagedFileFacts BufferPool BufferPoolInv BufferPoolRefine BufferedVecFacts.

Record paged_string_pool : Type := mk_ppool { pp_file_id : Z; pp_npages : Z }.

(** The byte of a character, as [uint8_t] and as the signed [char]. *)
Definition byte_of (c : ascii) : Z := Z.of_N (N_of_ascii c).
Definition of_byte (z : Z) : ascii := ascii_of_N (Z.to_N z).
Definition char_of (c : ascii) : Z := if bool_decide (byte_of c < 128) then byte_of c else byte_of c - 256.

Section ppool.
Context (page_size : nat) (header_size : Z).
Notation P := (Z.of_nat page_size).
Notation st := (paged_string_pool * bufferpool)%type.

Definition on_bp {A} (m : M bufferpool A) : M st A := λ s, let '(b, r) := m s.2 in ((s.1, b), r).
Definition this : M st paged_string_pool := gets fst.
Definition or_ub {A} (o : option A) : M st A := match o with Some a => mret a | None => throw undefined_behaviour end.

(** Reading and writing through a pointer to a page. *)
Definition payload_at (pos : nat) : M st page := s ← get_st; or_ub (buffer_ s.2 !! pos).
Definition write_at (pos : nat) (off : Z) (bytes : list Z) : M st unit :=
  pg ← payload_at pos;
  pg' ← or_ub (memcpy pg (Z.to_nat off) bytes);
  on_bp (modify (set_buffer (insert pos pg'))).

(** ** The constructor, for a file that is registered *)
Definition new_paged_pool (fid : Z) : M bufferpool paged_string_pool :=
  f ← on_file fid get_st;
  if bool_decide (npages_ f = 0) then _ ← allocate_page page_size header_size fid; mret (mk_ppool fid 1)
  else mret (mk_ppool fid (npages_ f)).

(** ** Reading a string *)

(** The page a code belongs to. *)
Definition page_of_code (pos : Z) : M st nat :=
  v ← this; on_bp (fetch_page page_size (with_file (pp_file_id v) (u32 (pos / P + 1)))).
Definition page_extract (pos : Z) : M st str :=
  pg ← page_of_code pos; data ← payload_at pg;
  or_ub (cstr (of_byte <$> drop (Z.to_nat (pos mod P)) data)).

(** The loop of [equal] from character [i] on; [i + page_offset] is a 32-bit
    sum; a byte of the page is compared with a signed character. *)
Fixpoint page_equal_from (data : page) (off : Z) (i : Z) (s : str) : option bool :=
  let at_i := data !! Z.to_nat (u32 (off + i)) in
  match s with
  | c :: s' =>
    if bool_decide (u32 (i + off) < P) then
      b ← at_i; if bool_decide (b = char_of c) then page_equal_from data off (u32 (i + 1)) s' else Some false
    else b ← at_i; Some (bool_decide (b = 0))
  | [] => b ← at_i; Some (bool_decide (b = 0))
  end.
Definition page_equal (pos : Z) (s : str) : M st bool :=
  pg ← page_of_code pos; data ← payload_at pg; or_ub (page_equal_from data (pos mod P) 0 s).

(** ** Adding a string *)
Definition read_last (data : page) : Z := little_endian_to_Z 8 (take 4 data).

(** The page, the total position and the position on the page for a string of
    this length: the last page or a new one. *)
Definition room_for (len : Z) : M st ((nat * Z) * (Z * Z)) :=
  v ← this;
  pg ← on_bp (last_valid_page page_size header_size (pp_file_id v));
  data ← payload_at pg.1;
  let last_pos := if bool_decide (read_last data = 0) then 4 else read_last data in
  let page_pos := u64 (last_pos - u64 (u64 (pp_npages v - 1) * P)) in
  if bool_decide (P ≤ u64 (page_pos + len + 1)) then
    pg ← on_bp (allocate_page page_size header_size (pp_file_id v));
    let n := u64 (pp_npages v + 1) in
    modify (λ s, (mk_ppool (pp_file_id v) n, s.2));;
    mret (pg, (u32 (u64 (n - 1) * P + 4), 4))
  else mret (pg, (last_pos, page_pos)).
Definition page_add (s : str) : M st Z :=
  let len := Z.of_nat (length s) in
  r ← room_for len;
  let '(pg, (pos, page_pos)) := r in
  write_at pg.1 page_pos (byte_of <$> s);;
  write_at pg.1 (u64 (u64 (page_pos + (len + 1)) - 1)) [0];;
  write_at pg.1 0 (Z_to_little_endian 4 8 (u32 (pos + (len + 1))));;
  v ← this;
  on_bp (mark_dirty (with_file (pp_file_id v) pg.2));;
  mret pos.

(** ** Scanning the file *)

(** One page: [p] runs over the bytes, [lastp] is where the current string
    begins, [spos] and [ppos] are the same over all pages.  The callback takes
    the position as a 32-bit code. *)
Fixpoint page_scan_from (data : page) (n p lastp : nat) (spos ppos : Z) : option (list (str * Z)) :=
  match n with
  | O => Some []
  | S n' =>
    c ← data !! p; l ← data !! lastp;
    if bool_decide (c = 0 ∧ l ≠ 0) then
      s ← cstr (of_byte <$> drop lastp data);
      rest ← page_scan_from data n' (S p) (S p) (spos + 1) (spos + 1);
      Some ((s, u32 ppos) :: rest)
    else page_scan_from data n' (S p) lastp (spos + 1) ppos
  end.
Definition scan_one (npage : nat) (data : page) : option (list (str * Z)) :=
  let spos := u32 (Z.of_nat npage * P) + 4 in page_scan_from data (page_size - 4) 4 4 spos spos.
Fixpoint scan_pages_from (npage : nat) (pages : list page) : option (list (str * Z)) :=
  match pages with
  | [] => Some []
  | pg :: pages' => l ← scan_one npage pg; rest ← scan_pages_from (S npage) pages'; Some (l ++ rest)
  end.
(** The calls of the callback and the result. *)
Definition page_scan : M st (list (str * Z) * bool) :=
  v ← this;
  pages ← on_bp (scan_file page_size (pp_file_id v));
  l ← or_ub (scan_pages_from 0 pages);
  mret (l, bool_decide (Z.of_nat (length pages) = pp_npages v)).
End ppool.

(** ** Bytes and positions *)
Lemma of_byte_of c : of_byte (byte_of c) = c.
Proof. unfold of_byte, byte_of. by rewrite N2Z.id, ascii_N_embedding. Qed.
Lemma of_bytes_of (s : str) : of_byte <$> (byte_of <$> s) = s.
Proof. rewrite <-list_fmap_compose. rewrite <-(list_fmap_id s) at 2. apply list_fmap_ext. intros i c _. apply of_byte_of. Qed.
Lemma byte_of_inj c d : byte_of c = byte_of d → c = d.
Proof. intros E. by rewrite <-(of_byte_of c), <-(of_byte_of d), E. Qed.
Lemma byte_of_range c : 0 ≤ byte_of c < 256.
Proof. unfold byte_of. pose proof (N_ascii_bounded c). lia. Qed.
Lemma char_of_ascii c : byte_of c < 128 → char_of c = byte_of c.
Proof. intros H. unfold char_of. by rewrite bool_decide_eq_true_2. Qed.

Lemma read_last_write n pg : 0 ≤ n < two32 → read_last (Z_to_little_endian 4 8 n ++ pg) = n.
Proof.
  intros Hn. unfold read_last. pose proof (length_Z_to_little_endian 4 8 n ltac:(lia)).
  rewrite take_app_length' by lia. rewrite little_endian_to_Z_to_little_endian by lia. apply Z.mod_small. exact Hn.
Qed.
Lemma read_last_zero pg : read_last (replicate 4 0 ++ pg) = 0.
Proof. done. Qed.

(** Writing behind the end of some bytes, in front of others. *)
Lemma memcpy_app {A} (a b c bytes : list A) n : n = length a → length b = length bytes →
  memcpy (a ++ b ++ c) n bytes = Some (a ++ bytes ++ c).
Proof.
  intros -> Hb. unfold memcpy. rewrite (proj2 (Nat.leb_le _ _)) by (rewrite !length_app; lia).
  rewrite take_app_length. do 3 f_equal. rewrite app_assoc. apply drop_app_length'. rewrite length_app. lia.
Qed.

(** The bytes of a page that holds the strings [strs] from the position [base]
    on. *)
Definition last_of (base : Z) (strs : list str) : Z :=
  match strs with [] => 0 | _ => base + 4 + Z.of_nat (length (layout strs)) end.
Definition page_img (page_size : nat) (base : Z) (strs : list str) : page :=
  Z_to_little_endian 4 8 (last_of base strs) ++ (byte_of <$> layout strs) ++ replicate (page_size - 4 - length (layout strs)) 0.

Lemma length_le4 n : length (Z_to_little_endian 4 8 n) = 4%nat.
Proof. pose proof (length_Z_to_little_endian 4 8 n ltac:(lia)). lia. Qed.
Lemma length_page_img ps base strs : (4 + length (layout strs) ≤ ps)%nat → length (page_img ps base strs) = ps.
Proof. intros H. unfold page_img. rewrite !length_app, length_le4, length_fmap, length_replicate. lia. Qed.
Lemma page_img_nil ps base : (4 ≤ ps)%nat → page_img ps base [] = zero_page ps.
Proof.
  intros H. unfold page_img, zero_page. change (Z_to_little_endian 4 8 (last_of base [])) with (replicate 4 0).
  cbn [layout concat fmap list_fmap length app]. rewrite Nat.sub_0_r. rewrite <-replicate_add. f_equal. lia.
Qed.
Lemma page_img_drop ps base strs n : 
  drop (4 + n) (page_img ps base strs) = drop n ((byte_of <$> layout strs) ++ replicate (ps - 4 - length (layout strs)) 0).
Proof. unfold page_img. rewrite <-drop_drop. by rewrite drop_app_length' by (symmetry; apply length_le4). Qed.

(** What stands at the place of a string. *)
Lemma page_img_string ps base strs pre s post : layout strs = pre ++ s ++ NUL :: post →
  ∃ tl, drop (4 + length pre) (page_img ps base strs) = (byte_of <$> s) ++ 0 :: tl.
Proof.
  intros E. rewrite page_img_drop, E, !fmap_app. cbn [fmap list_fmap]. rewrite <-!app_assoc.
  rewrite drop_app_length' by (by rewrite length_fmap). by eexists.
Qed.
Lemma cstr_bytes s tl : no_nul s → cstr (of_byte <$> ((byte_of <$> s) ++ 0 :: tl)) = Some s.
Proof. intros Hs. rewrite fmap_app, of_bytes_of. by apply cstr_app. Qed.

(** Writing a string, its terminator and the new end. *)
Lemma page_img_add ps base strs s pg : (4 + length (layout strs) + length s + 1 ≤ ps)%nat → 
  last_of base (strs ++ [s]) = pg → ∃ pg1 pg2,
  memcpy (page_img ps base strs) (4 + length (layout strs)) (byte_of <$> s) = Some pg1
  ∧ memcpy pg1 (4 + length (layout strs) + length s) [0] = Some pg2
  ∧ memcpy pg2 0 (Z_to_little_endian 4 8 pg) = Some (page_img ps base (strs ++ [s])).
Proof.
  intros Hl <-. set (rest := (ps - 4 - length (layout strs) - length s - 1)%nat).
  assert (replicate (ps - 4 - length (layout strs)) 0 = replicate (length s) 0 ++ [0] ++ replicate rest 0 :> list Z) as Er.
  { change ([0] ++ replicate rest 0) with (replicate (1 + rest) 0 : list Z). rewrite <-replicate_add. f_equal. lia. }
  unfold page_img at 1. rewrite Er. eexists _, _. split_and!.
  - rewrite app_assoc. apply memcpy_app; [by rewrite length_app, length_le4, length_fmap|by rewrite length_replicate, length_fmap].
  - rewrite (app_assoc _ (byte_of <$> s)). apply memcpy_app; [|done]. by rewrite !length_app, length_le4, !length_fmap.
  - rewrite <-!app_assoc. pose proof (memcpy_app [] (Z_to_little_endian 4 8 (last_of base strs))
      ((byte_of <$> layout strs) ++ (byte_of <$> s) ++ [0] ++ replicate rest 0) (Z_to_little_endian 4 8 (last_of base (strs ++ [s]))) 0) as Hm.
    cbn [app] in *. rewrite Hm by (by rewrite ?length_le4). unfold page_img.
    rewrite (layout_app strs [s]), (layout_cons s []), fmap_app, fmap_app. cbn [fmap list_fmap layout concat]. rewrite <-!app_assoc. cbn [app].
    assert (ps - 4 - length (layout strs ++ s ++ [NUL]) = rest)%nat as -> by (unfold rest; rewrite !length_app; cbn [length]; lia). done.
Qed.

(** ** The strings of a pool *)
Section facts.
Context (page_size : nat) (header_size : Z) (fid : Z).
Hypothesis Hfid : 0 ≤ fid < MAX_PFILES.
Hypothesis Hps : (5 ≤ page_size)%nat.
Notation P := (Z.of_nat page_size).
Notation st := (paged_string_pool * bufferpool)%type.
Notation base p := (Z.of_nat p * P).
Notation img := (page_img page_size).
Notation pid_of p := (with_file fid (Z.of_nat (S p))).

(** The pool holds the strings [pp], page by page; every code has 32 bits. *)
Record pp_inv (pp : list (list str)) (m : gmap Z page) (h : file_header) (s : st) : Prop := {
  pi_file : pp_file_id s.1 = fid;
  pi_npages : pp_npages s.1 = Z.of_nat (length pp);
  pi_shows : shows s.2 m;
  pi_shape : shape s.2 !! fid = Some (Z.of_nat (length pp), h);
  pi_slots : ∀ i, i ∈ slots_ h ↔ 0 ≤ i < Z.of_nat (length pp);
  pi_pages : ∀ p strs, pp !! p = Some strs → m !! pid_of p = Some (img (base p) strs);
  pi_fit : ∀ p strs, pp !! p = Some strs → (4 + length (layout strs) ≤ page_size)%nat;
  pi_nul : ∀ p strs, pp !! p = Some strs → Forall no_nul strs;
  pi_bound : base (length pp) < two32
}.

(** The strings with their codes. *)
Definition pp_codes (pp : list (list str)) : list (str * Z) := mjoin (imap (λ p strs, coded (base p + 4) strs) pp).

Lemma pp_codes_elem pp s c : (s, c) ∈ pp_codes pp ↔ ∃ p strs, pp !! p = Some strs ∧ (s, c) ∈ coded (base p + 4) strs.
Proof.
  unfold pp_codes. rewrite list_elem_of_join. split.
  - intros (l & Hin & Hl). apply elem_of_lookup_imap in Hl as (p & strs & -> & Hp). eauto.
  - intros (p & strs & Hp & Hin). exists (coded (base p + 4) strs). split; [done|]. apply elem_of_lookup_imap. eauto.
Qed.
(** A code splits into the page and the position on it. *)
Lemma pp_code_split pp m h st0 s c : pp_inv pp m h st0 → (s, c) ∈ pp_codes pp → ∃ p strs pre post,
  pp !! p = Some strs ∧ layout strs = pre ++ s ++ NUL :: post ∧ no_nul s
  ∧ c = base p + Z.of_nat (4 + length pre) ∧ c / P = Z.of_nat p ∧ c mod P = Z.of_nat (4 + length pre)
  ∧ (4 + length pre + length s < page_size)%nat ∧ 0 < c < two32.
Proof.
  intros H (p & strs & Hp & Hin)%pp_codes_elem. pose proof (pi_fit _ _ _ _ H _ _ Hp) as Hfit.
  assert (no_nul s) as Hs.
  { pose proof (pi_nul _ _ _ _ H _ _ Hp) as Hn. rewrite Forall_forall in Hn. apply Hn. rewrite <-(coded_fst (base p + 4) strs).
    apply list_elem_of_fmap. by exists (s, c). }
  apply coded_layout in Hin as (pre & post & El & ->). rewrite El in Hfit. rewrite !length_app in Hfit. cbn [length] in Hfit.
  replace (base p + 4 + Z.of_nat (length pre)) with (Z.of_nat (4 + length pre) + base p) by lia.
  exists p, strs, pre, post. rewrite Z.div_add, Z.div_small, Z.mod_add, Z.mod_small by lia. split_and!; try done; try lia.
  pose proof (pi_bound _ _ _ _ H). pose proof (lookup_lt_Some _ _ _ Hp). nia.
Qed.

(** ** Fetching a page *)
Lemma pp_pages_lt pp m h s : pp_inv pp m h s → Z.of_nat (length pp) < num_slots.
Proof.
  intros H. pose proof (pi_shape _ _ _ _ H) as Hs. unfold shape in Hs. rewrite lookup_fmap in Hs.
  destruct (files_ s.2 !! fid) as [f|] eqn:Ef; [|done]. destruct (shows_ok _ _ (pi_shows _ _ _ _ H)) as [L Hok].
  pose proof (file_max _ (pool_files _ _ Hok _ _ Ef)). cbn in Hs. injection Hs as <- _. done.
Qed.
Lemma pp_pid pp m h s p : pp_inv pp m h s → (p < length pp)%nat → 0 ≤ Z.of_nat (S p) < 2 ^ 60.
Proof. intros Hn%pp_pages_lt Hp. unfold num_slots in Hn. lia. Qed.
(** Only the cache has changed. *)
Lemma pp_inv_cache pp m h s b : pp_inv pp m h s → shows b m → shape b = shape s.2 → pp_inv pp m h (s.1, b).
Proof. intros [] Hb Hk. split; cbn; try done. by rewrite Hk. Qed.
Lemma pp_fetch pp m h s p strs : pp_inv pp m h s → pp !! p = Some strs →
  ∃ b sl, fetch_page page_size (pid_of p) s.2 = (b, Val (pos_ sl)) ∧ pp_inv pp m h (s.1, b)
    ∧ ptable_ b !! pid_of p = Some sl ∧ buffer_ b !! pos_ sl = Some (img (base p) strs).
Proof.
  intros H Hp. pose proof (pp_pid _ _ _ _ _ H (lookup_lt_Some _ _ _ Hp)) as Hr. pose proof (with_file_ok fid Hfid _ Hr) as Hpid.
  pose proof (pi_pages _ _ _ _ H _ _ Hp) as Hm.
  destruct (shows_fetch page_size s.2 m _ (pi_shows _ _ _ _ H) Hpid) as (b & L & sl & Ef & Hsh & Hok & Hsl & _); [by rewrite Hm|].
  pose proof (keeps_fetch page_size (pid_of p) s.2) as Hk. rewrite Ef in Hk. cbn in Hk. exists b, sl. split_and!; [done| |done|].
  - by apply pp_inv_cache.
  - rewrite <-Hm, <-(shows_content _ _ Hsh _ Hpid). unfold content. by rewrite Hsl.
Qed.
Lemma payload_ok (s : st) pos pg : buffer_ s.2 !! pos = Some pg → payload_at pos s = (s, Val pg).
Proof. intros Hb. unfold payload_at. by rewrite (bind_val get_st _ s s s eq_refl), Hb. Qed.
(** The page of a code. *)
Lemma page_of_code_ok pp m h s p strs c : pp_inv pp m h s → pp !! p = Some strs → c / P = Z.of_nat p →
  ∃ s' pos, page_of_code page_size c s = (s', Val pos) ∧ pp_inv pp m h s' ∧ payload_at pos s' = (s', Val (img (base p) strs)).
Proof.
  intros H Hp Hc. destruct (pp_fetch _ _ _ _ _ _ H Hp) as (b & sl & Ef & Hinv & _ & Hb). exists (s.1, b), (pos_ sl).
  split_and!; [|done|by apply payload_ok]. unfold page_of_code, this. rewrite (bind_val _ _ s s s.1 eq_refl), Hc, (pi_file _ _ _ _ H).
  assert (u32 (Z.of_nat p + 1) = Z.of_nat (S p)) as ->.
  { pose proof (pp_pages_lt _ _ _ _ H). pose proof (lookup_lt_Some _ _ _ Hp). unfold u32, two32, num_slots in *. rewrite Z.mod_small; lia. }
  unfold on_bp. by rewrite Ef.
Qed.

(** A string is read back under its code. *)
Lemma page_extract_ok pp m h s0 s c : pp_inv pp m h s0 → (s, c) ∈ pp_codes pp →
  ∃ s', page_extract page_size c s0 = (s', Val s) ∧ pp_inv pp m h s'.
Proof.
  intros H Hin. destruct (pp_code_split _ _ _ _ _ _ H Hin) as (p & strs & pre & post & Hp & El & Hs & _ & Hd & Hm & _).
  destruct (page_of_code_ok _ _ _ _ _ _ _ H Hp Hd) as (s' & pos & Eg & Hinv & Epl). exists s'. split; [|done].
  unfold page_extract. rewrite (bind_val _ _ _ _ _ Eg), (bind_val _ _ _ _ _ Epl), Hm, Nat2Z.id.
  destruct (page_img_string page_size (base p) strs pre s post El) as [tl ->]. by rewrite cstr_bytes.
Qed.

(** ** Adding a string *)

(** Writing through a pointer to a cached page and marking it. *)
Lemma shows_write_mark b m pid sl pg : shows b m → pid_ok pid → ptable_ b !! pid = Some sl →
  shows (set_ptable (alter (set_dirty_flag true) pid) (set_buffer (insert (pos_ sl) pg) b)) (<[pid := pg]> m).
Proof.
  intros [[L H] Hsz Hun Hc] Hpid Hs. destruct (write_through_ok b L pid sl pg H Hs) as [Hok Hc2].
  split; [by exists L|done| |].
  - intros q s' Hs'. cbn in Hs'. apply alter_entry in Hs' as (s0 & Hs0 & ->). case_decide; by apply Hun in Hs0.
  - intros q Hq. rewrite Hc2. case_decide as Eq; [subst q; by rewrite lookup_insert_eq|]. by rewrite lookup_insert_ne, Hc.
Qed.
Lemma write_at_ok (s : st) pos off n bytes pg pg' : buffer_ s.2 !! pos = Some pg → off = Z.of_nat n → memcpy pg n bytes = Some pg' →
  write_at pos off bytes s = ((s.1, set_buffer (insert pos pg') s.2), Val tt).
Proof.
  intros Hb -> Hm. unfold write_at. rewrite (bind_val _ _ _ _ _ (payload_ok _ _ _ Hb)), Nat2Z.id, Hm. done.
Qed.
Lemma set_buffer_twice b pos pg pg' : set_buffer (insert pos pg') (set_buffer (insert pos pg) b) = set_buffer (insert pos pg') b.
Proof. unfold set_buffer. cbn. by rewrite list_insert_insert_eq. Qed.

(** The invariant after the last page has changed. *)
Lemma pp_inv_last pp0 strs s m h st0 v b : pp_inv (pp0 ++ [strs]) m h st0 → no_nul s →
  (4 + length (layout (strs ++ [s])) ≤ page_size)%nat → pp_file_id v = fid → pp_npages v = pp_npages st0.1 →
  shows b (<[pid_of (length pp0) := img (base (length pp0)) (strs ++ [s])]> m) → shape b = shape st0.2 →
  pp_inv (pp0 ++ [strs ++ [s]]) (<[pid_of (length pp0) := img (base (length pp0)) (strs ++ [s])]> m) h (v, b).
Proof.
  intros H Hs Hfit Hv1 Hv2 Hsh Hk.
  assert (length (pp0 ++ [strs ++ [s]]) = length (pp0 ++ [strs])) as El by (by rewrite !length_app).
  assert (∀ p x, (pp0 ++ [strs ++ [s]]) !! p = Some x → (p = length pp0 ∧ x = strs ++ [s]) ∨ (p ≠ length pp0 ∧ (pp0 ++ [strs]) !! p = Some x)) as Hcase.
  { intros p x [Hx|[Hp Hx]]%lookup_app_Some; [right; pose proof (lookup_lt_Some _ _ _ Hx); rewrite lookup_app_l by done; split; [lia|done]|left].
    destruct (p - length pp0)%nat eqn:E; [|done]. cbn in Hx. split; [lia|congruence]. }
  assert ((pp0 ++ [strs]) !! length pp0 = Some strs) as Hlast by (by rewrite list_lookup_middle).
  split; cbn [fst snd]; rewrite ?El.
  - done.
  - rewrite Hv2. apply (pi_npages _ _ _ _ H).
  - done.
  - rewrite Hk. apply (pi_shape _ _ _ _ H).
  - apply (pi_slots _ _ _ _ H).
  - intros p x [[-> ->]|[Hne Hx]]%Hcase; [by rewrite lookup_insert_eq|].
    rewrite lookup_insert_ne; [by apply (pi_pages _ _ _ _ H)|]. intros E%with_file_inj; [lia|done|..];
      eapply pp_pid; try done; by eapply lookup_lt_Some.
  - intros p x [[-> ->]|[Hne Hx]]%Hcase; [done|by eapply pi_fit].
  - intros p x [[-> ->]|[Hne Hx]]%Hcase; [|by eapply pi_nul].
    apply Forall_app_2; [by eapply pi_nul|by repeat constructor].
  - apply (pi_bound _ _ _ _ H).
Qed.
Lemma pp_codes_last pp0 strs s :
  pp_codes (pp0 ++ [strs ++ [s]]) = pp_codes (pp0 ++ [strs]) ++ [(s, base (length pp0) + 4 + Z.of_nat (length (layout strs)))].
Proof.
  unfold pp_codes. rewrite !imap_app, !join_app. cbn. by rewrite !app_nil_r, Nat.add_0_r, coded_app, app_assoc.
Qed.
Lemma pp_codes_new pp : pp_codes (pp ++ [[]]) = pp_codes pp.
Proof. unfold pp_codes. rewrite imap_app, join_app. cbn. by rewrite app_nil_r. Qed.

(** A new page at the end of the file. *)
Lemma page_grow pp m h s : pp_inv pp m h s → Z.of_nat (length pp) < num_slots - 1 → base (S (length pp)) < two32 →
  ∃ b sl m' h', allocate_page page_size header_size fid s.2 = (b, Val (pos_ sl, Z.of_nat (S (length pp))))
    ∧ pp_inv (pp ++ [[]]) m' h' (mk_ppool fid (Z.of_nat (S (length pp))), b)
    ∧ ptable_ b !! pid_of (length pp) = Some sl ∧ buffer_ b !! pos_ sl = Some (img (base (length pp)) []).
Proof.
  intros H Hroom Hbound. destruct (shows_ok _ _ (pi_shows _ _ _ _ H)) as [L Hok0].
  pose proof (pi_shape _ _ _ _ H) as Hs. unfold shape in Hs. rewrite lookup_fmap in Hs.
  destruct (files_ s.2 !! fid) as [f|] eqn:Ef; [|done]. cbn in Hs. injection Hs as Hn Hh. pose proof (pool_files _ _ Hok0 _ _ Ef) as Hok.
  destruct (proj1 (alloc_end page_size header_size f Hok ltac:(intros i Hi; rewrite Hh; apply (pi_slots _ _ _ _ H); lia)) ltac:(lia))
    as (ps & Ea & Hlen & Hok' & Hat). set (f' := with_page (npages_ f) ps f) in *. rewrite Hn in Ea, Hat.
  assert (Z.of_nat (length pp) + 1 = Z.of_nat (S (length pp))) as En by lia.
  assert (0 ≤ Z.of_nat (S (length pp)) < 2 ^ 60) as Hp by (unfold num_slots in *; lia).
  pose proof (shows_new_page page_size fid Hfid s.2 m f f' _ (pi_shows _ _ _ _ H) Ef Hok Hn Hroom Hok' Hat) as Hsh1.
  rewrite En in Ea, Hsh1. pose proof (with_file_ok fid Hfid _ Hp) as Hpid. set (pid := pid_of (length pp)) in *.
  destruct (shows_fetch page_size _ _ pid Hsh1 Hpid) as (b & L2 & sl & E2 & Hsh2 & Hok2 & Hsl & _); [by rewrite lookup_insert_eq|].
  pose proof (keeps_fetch page_size pid (set_files (insert fid f') s.2)) as Hk. rewrite E2 in Hk. cbn [fst] in Hk.
  exists b, sl, (<[pid := zero_page page_size]> m), (header_ f'). rewrite page_img_nil by lia. split_and!; [|split; cbn [fst snd]|done|].
  - unfold allocate_page. erewrite bind_val; [|apply (on_file_some fid f _ _ f' (Val (Z.of_nat (S (length pp))))); [lia|done|exact Ea]].
    fold pid. by rewrite (bind_val _ _ _ _ _ E2).
  - done.
  - rewrite length_app. cbn. lia.
  - done.
  - rewrite Hk. unfold shape. cbn [set_files files_]. rewrite lookup_fmap, lookup_insert_eq, length_app. cbn. do 2 f_equal. lia.
  - intros i. unfold f', with_page. cbn. rewrite elem_of_union, elem_of_singleton, Hh, (pi_slots _ _ _ _ H), length_app. cbn. lia.
  - intros p x [Hx|[Hpl Hx]]%lookup_app_Some.
    + pose proof (lookup_lt_Some _ _ _ Hx). rewrite lookup_insert_ne; [by apply (pi_pages _ _ _ _ H)|].
      intros E%with_file_inj; [lia|done|lia|]. by eapply pp_pid.
    + destruct (p - length pp)%nat eqn:E; [|done]. cbn in Hx. injection Hx as <-. assert (p = length pp) as -> by lia.
      by rewrite lookup_insert_eq, page_img_nil by lia.
  - intros p x [Hx|[Hpl Hx]]%lookup_app_Some; [by eapply pi_fit|]. destruct (p - length pp)%nat; [|done]. injection Hx as <-. cbn. lia.
  - intros p x [Hx|[Hpl Hx]]%lookup_app_Some; [by eapply pi_nul|]. destruct (p - length pp)%nat; [|done]. by injection Hx as <-.
  - rewrite length_app. cbn [length]. by rewrite Nat.add_1_r.
  - pose proof (shows_content _ _ Hsh2 _ Hpid) as Hc. rewrite lookup_insert_eq in Hc.
    unfold content in Hc. by rewrite Hsl in Hc.
Qed.

(** The last page of the file. *)
Lemma last_page pp m h s : pp_inv pp m h s → (0 < length pp)%nat →
  last_valid_page page_size header_size fid s.2
  = (p ← fetch_page page_size (with_file fid (Z.of_nat (length pp))); mret (p, Z.of_nat (length pp))) s.2.
Proof.
  intros H Hpos. pose proof (pi_shape _ _ _ _ H) as Hs. unfold shape in Hs. rewrite lookup_fmap in Hs.
  destruct (files_ s.2 !! fid) as [f|] eqn:Ef; [|done]. cbn in Hs. injection Hs as Hn Hh. pose proof (pp_pages_lt _ _ _ _ H).
  assert (on_file fid (pf_last_valid_page page_size header_size) s.2 = (s.2, Val (Z.of_nat (length pp)))) as El.
  { unfold on_file. rewrite bool_decide_eq_true_2 by lia. rewrite Ef. unfold pf_last_valid_page.
    rewrite (bind_val get_st _ f f f eq_refl), Hn, (bool_decide_eq_false_2 (Z.of_nat (length pp) = 0)) by lia. rewrite Nat2Z.id.
    unfold lift_res, mbind, M_bind. rewrite (last_slot_ok _ (length pp)) by (try (rewrite Hh; apply (pi_slots _ _ _ _ H)); lia). cbn. by rewrite set_files_same. }
  unfold last_valid_page. by rewrite (bind_val _ _ _ _ _ El).
Qed.

Lemma read_last_img b strs : 0 ≤ last_of b strs < two32 → read_last (img b strs) = last_of b strs.
Proof. apply read_last_write. Qed.

(** The string goes to the last page if it fits there, else to a new one. *)
Definition place (pp : list (list str)) (s : str) : list (list str) :=
  match last pp with
  | Some strs => if bool_decide (4 + length (layout strs) + length s + 1 < page_size)%nat then pp else pp ++ [[]]
  | None => pp ++ [[]]
  end.
Lemma room_for_ok pp m h s0 s : pp_inv pp m h s0 → (0 < length pp)%nat → (5 + length s ≤ page_size)%nat →
  (last pp = Some [] → length pp = 1%nat) → Z.of_nat (length pp) < num_slots - 1 → base (S (length pp)) < two32 →
  ∃ s' sl pp0 strs m' h', let pos := Z.of_nat (4 + length (layout strs)) in
    room_for page_size header_size (Z.of_nat (length s)) s0
      = (s', Val ((pos_ sl, Z.of_nat (S (length pp0))), (base (length pp0) + pos, pos)))
    ∧ pp_inv (pp0 ++ [strs]) m' h' s' ∧ pp0 ++ [strs] = place pp s
    ∧ ptable_ s'.2 !! pid_of (length pp0) = Some sl ∧ buffer_ s'.2 !! pos_ sl = Some (img (base (length pp0)) strs)
    ∧ (4 + length (layout strs) + length s + 1 ≤ page_size)%nat.
Proof.
  intros H Hpos Hlen Hne Hroom Hbound. destruct (exists_last (l := pp)) as (pp0 & strs & ->); [intros ->; cbn in *; lia|].
  assert ((pp0 ++ [strs]) !! length pp0 = Some strs) as Hlast by (by rewrite list_lookup_middle).
  destruct (pp_fetch _ _ _ _ _ _ H Hlast) as (b & sl & Ef & Hinv & Hsl & Hb). pose proof (pi_fit _ _ _ _ H _ _ Hlast) as Hfit.
  unfold room_for, this. rewrite (bind_val _ _ s0 s0 s0.1 eq_refl).
  assert (length (pp0 ++ [strs]) = S (length pp0)) as El by (rewrite length_app; cbn; lia). rewrite El in *.
  assert (on_bp (last_valid_page page_size header_size (pp_file_id s0.1)) s0 = ((s0.1, b), Val (pos_ sl, Z.of_nat (S (length pp0))))) as E1.
  { unfold on_bp. rewrite (pi_file _ _ _ _ H), (last_page _ _ _ _ H) by lia. rewrite El, (bind_val _ _ _ _ _ Ef). done. }
  rewrite (bind_val _ _ _ _ _ E1). cbn [fst]. rewrite (bind_val _ _ _ _ _ (payload_ok (s0.1, b) _ _ Hb)).
  pose proof (pi_bound _ _ _ _ H) as Hbd. rewrite El in Hbd.
  assert (0 ≤ base (length pp0) ∧ base (S (length pp0)) = base (length pp0) + P ∧ base (S (S (length pp0))) = base (S (length pp0)) + P) as (Hb0 & Hb1 & Hb2) by lia.
  set (pos := Z.of_nat (4 + length (layout strs))).
  assert (0 ≤ last_of (base (length pp0)) strs < two32
    ∧ (if bool_decide (last_of (base (length pp0)) strs = 0) then 4 else last_of (base (length pp0)) strs) = base (length pp0) + pos) as [Hl1 Hl2].
  { rewrite last_snoc in Hne. destruct strs as [|x strs]; cbn [last_of].
    - assert (length pp0 = 0%nat) as -> by (specialize (Hne eq_refl); lia). unfold two32. by split; [lia|].
    - rewrite bool_decide_eq_false_2 by lia. unfold two32 in *. lia. }
  rewrite read_last_img, Hl2, (pi_npages _ _ _ _ H), El by done.
  assert (∀ n, u64 (u64 (Z.of_nat (S n) - 1) * P) = u64 (base n)) as Eu.
  { intros n. unfold u64. rewrite Zmult_mod_idemp_l. f_equal. lia. }
  assert (∀ x, 0 ≤ x ≤ two32 + P → u64 x = x) as Esm by (intros x Hx; unfold u64, two64, two32 in *; rewrite Z.mod_small; lia).
  rewrite (Eu (length pp0)), (Esm (base (length pp0))) by (unfold two32 in *; lia). replace (base (length pp0) + pos - base (length pp0)) with pos by lia.
  rewrite (Esm pos), (Esm (pos + _ + 1)) by (unfold two32 in *; lia).
  unfold place. rewrite last_snoc.
  destruct (decide (4 + length (layout strs) + length s + 1 < page_size)%nat) as [Hin|Hout].
  - rewrite (bool_decide_eq_false_2 (P ≤ _)), (bool_decide_eq_true_2 (_ < page_size)%nat) by lia.
    exists (s0.1, b), sl, pp0, strs, m, h. by split_and!; try done; try lia.
  - rewrite (bool_decide_eq_true_2 (P ≤ _)), (bool_decide_eq_false_2 (_ < page_size)%nat) by lia.
    destruct (page_grow _ m h (s0.1, b) Hinv) as (b' & sl' & m' & h' & Ea & Hinv' & Hsl' & Hb'); [rewrite El; done..|]. rewrite El in *.
    exists (mk_ppool fid (Z.of_nat (S (S (length pp0)))), b'), sl', (pp0 ++ [strs]), [], m', h'. cbv zeta.
    rewrite El. split_and!; [|done..|cbn; lia].
    erewrite bind_val; [|unfold on_bp; rewrite (pi_file _ _ _ _ H), Ea; reflexivity].
    rewrite (Esm (Z.of_nat (S (length pp0)) + 1)) by (unfold num_slots, two32 in *; lia).
    replace (Z.of_nat (S (length pp0)) + 1) with (Z.of_nat (S (S (length pp0)))) by lia.
    rewrite (bind_val (modify _) _ _ (mk_ppool fid (Z.of_nat (S (S (length pp0)))), b') tt) by (cbn; by rewrite (pi_file _ _ _ _ H)).
    cbn [layout concat fmap list_fmap length]. unfold u32.
    replace (u64 (Z.of_nat (S (S (length pp0))) - 1)) with (Z.of_nat (S (length pp0))).
    { rewrite Z.mod_small by lia. done. }
    rewrite Esm; unfold num_slots, two32 in *; lia.
Qed.
Lemma page_add_ok pp m h s0 s : pp_inv pp m h s0 → (0 < length pp)%nat → no_nul s → (5 + length s ≤ page_size)%nat →
  (last pp = Some [] → length pp = 1%nat) → Z.of_nat (length pp) < num_slots - 1 → base (S (length pp)) < two32 →
  ∃ s' pp0 strs m' h', let c := base (length pp0) + Z.of_nat (4 + length (layout strs)) in
    page_add page_size header_size s s0 = (s', Val c) ∧ pp0 ++ [strs] = place pp s
    ∧ pp_inv (pp0 ++ [strs ++ [s]]) m' h' s' ∧ pp_codes (pp0 ++ [strs ++ [s]]) = pp_codes pp ++ [(s, c)].
Proof.
  intros H Hpos Hs Hlen Hne Hroom Hbound.
  destruct (room_for_ok _ _ _ _ s H Hpos Hlen Hne Hroom Hbound) as (s1 & sl & pp0 & strs & m1 & h1 & Er & Hinv & Hpl & Hsl & Hb & Hfit).
  cbv zeta in Er. set (pos := Z.of_nat (4 + length (layout strs))) in *. set (c := base (length pp0) + pos) in *.
  assert (layout (strs ++ [s]) = layout strs ++ s ++ [NUL]) as El by (by rewrite layout_app, layout_cons).
  assert (length (layout (strs ++ [s])) = length (layout strs) + length s + 1)%nat as Ell by (rewrite El, !length_app; cbn; lia).
  assert (last_of (base (length pp0)) (strs ++ [s]) = c + (Z.of_nat (length s) + 1)) as Elast.
  { unfold last_of. destruct (strs ++ [s]) eqn:E; [by destruct strs|]. rewrite Ell. unfold c, pos. lia. }
  destruct (page_img_add page_size (base (length pp0)) strs s _ Hfit Elast) as (pg1 & pg2 & W1 & W2 & W3).
  pose proof (pi_bound _ _ _ _ Hinv) as Hbd. rewrite length_app in Hbd. cbn [length] in Hbd.
  assert (c + Z.of_nat (length s) + 1 ≤ base (length pp0 + 1)) as Hc by (unfold c, pos; lia).
  set (pid := pid_of (length pp0)) in *.
  assert (0 ≤ Z.of_nat (S (length pp0)) < 2 ^ 60) as Hp by (eapply pp_pid; [exact Hinv|rewrite length_app; cbn; lia]).
  pose proof (pi_file _ _ _ _ Hinv) as Hid.
  assert (page_add page_size header_size s s0
    = ((s1.1, set_ptable (alter (set_dirty_flag true) pid) (set_buffer (insert (pos_ sl) (img (base (length pp0)) (strs ++ [s]))) s1.2)), Val c)) as E.
  { unfold page_add. rewrite (bind_val _ _ _ _ _ Er). cbn [fst snd].
    rewrite (bind_val _ _ _ _ _ (write_at_ok s1 (pos_ sl) pos _ _ _ _ Hb eq_refl W1)).
    assert (u64 (u64 (pos + (Z.of_nat (length s) + 1)) - 1) = Z.of_nat (4 + length (layout strs) + length s)) as ->.
    { unfold u64, two64, two32 in *. rewrite (Z.mod_small (pos + _)) by (unfold pos; lia). rewrite Z.mod_small by (unfold pos; lia). unfold pos. lia. }
    erewrite bind_val; [|eapply write_at_ok; [|reflexivity|exact W2]; cbn; apply list_lookup_insert_eq; by eapply lookup_lt_Some].
    cbn [fst snd]. rewrite set_buffer_twice.
    assert (u32 (c + (Z.of_nat (length s) + 1)) = c + (Z.of_nat (length s) + 1)) as -> by (unfold u32; apply Z.mod_small; unfold c, pos; lia).
    erewrite bind_val; [|eapply (write_at_ok _ _ _ 0%nat); [|reflexivity|exact W3]; cbn; apply list_lookup_insert_eq; by eapply lookup_lt_Some].
    cbn [fst snd]. rewrite set_buffer_twice. unfold this. erewrite (bind_val (gets fst)); [|reflexivity]. cbn [fst]. by rewrite Hid. }
  eexists _, pp0, strs, _, h1. split_and!; [exact E|done| |].
  - apply (pp_inv_last _ _ _ m1 h1 s1); try done; [by rewrite Ell; lia|]. apply shows_write_mark; [apply Hinv|by apply with_file_ok|done].
  - rewrite pp_codes_last. f_equal; [|unfold c, pos; do 2 f_equal; lia]. rewrite Hpl. unfold place.
    destruct (last pp); [case_bool_decide; [done|]|]; apply pp_codes_new.
Qed.

(** ** Comparing a string *)
Definition is_ascii (s : str) : Prop := Forall (λ c, byte_of c < 128) s.
#[local] Instance is_ascii_dec s : Decision (is_ascii s).
Proof. unfold is_ascii. apply _. Defined.
Lemma char_of_byte c d : char_of c = byte_of d ↔ c = d ∧ byte_of c < 128.
Proof.
  unfold char_of. pose proof (byte_of_range c). pose proof (byte_of_range d). case_bool_decide as E; split.
  - intros ->%byte_of_inj. done.
  - by intros [-> _].
  - lia.
  - intros [_ ?]. lia.
Qed.
Lemma byte_of_nul c : byte_of c = 0 ↔ c = NUL.
Proof. split; [|by intros ->]. intros E. apply byte_of_inj. by rewrite E. Qed.

(** The loop compares the rest of the stored string with the rest of the other
    one. *)
Lemma equal_from_ok data off s u : base 1 ≤ two32 → (off + length s < page_size)%nat → no_nul s →
  (∀ i b, ((byte_of <$> s) ++ [0]) !! i = Some b → data !! (off + i)%nat = Some b) →
  ∀ i, (i ≤ length s)%nat → no_nul u →
  page_equal_from page_size data (Z.of_nat off) (Z.of_nat i) u = Some (bool_decide (drop i s = u ∧ is_ascii u)).
Proof.
  intros HP Hoff Hs Hdata. unfold two32 in HP.
  assert (∀ i b, ((byte_of <$> s) ++ [0]) !! i = Some b → (i ≤ length s)%nat → data !! Z.to_nat (u32 (Z.of_nat off + Z.of_nat i)) = Some b) as Hat.
  { intros i b Hb Hi. unfold u32, two32. rewrite Z.mod_small by lia. rewrite <-Nat2Z.inj_add, Nat2Z.id. by apply Hdata. }
  assert (∀ i, (i ≤ length s)%nat → (∃ c, s !! i = Some c ∧ c ≠ NUL ∧ drop i s = c :: drop (S i) s ∧ data !! Z.to_nat (u32 (Z.of_nat off + Z.of_nat i)) = Some (byte_of c))
      ∨ (drop i s = [] ∧ data !! Z.to_nat (u32 (Z.of_nat off + Z.of_nat i)) = Some 0)) as Hcase.
  { intros i Hi. destruct (decide (i < length s)%nat) as [Hlt|].
    - destruct (lookup_lt_is_Some_2 s i Hlt) as [c Hc]. left. exists c. split_and!; [done| |by apply drop_S|].
      + intros ->. by apply Hs, (list_elem_of_lookup_2 _ i).
      + apply Hat; [|done]. rewrite lookup_app_l by (by rewrite length_fmap). by rewrite list_lookup_fmap, Hc.
    - right. split; [apply drop_ge; lia|]. apply Hat; [|done]. assert (i = length s) as -> by lia.
      by rewrite lookup_app_r, length_fmap, Nat.sub_diag by (by rewrite length_fmap). }
  induction u as [|d u IH]; intros i Hi Hu; cbn [page_equal_from].
  - destruct (Hcase i Hi) as [(c & Hc & Hn & Ed & ->)|[-> ->]]; cbn [mbind option_bind]; [|done].
    f_equal. apply bool_decide_ext. rewrite Ed, byte_of_nul. split; [done|]. by intros [? _].
  - rewrite bool_decide_eq_true_2 by (unfold u32, two32; rewrite Z.mod_small; lia).
    assert (d ≠ NUL ∧ no_nul u) as [Hd Hu'] by (split; [intros ->; apply Hu; by left|intros ?; apply Hu; by right]).
    destruct (Hcase i Hi) as [(c & Hc & Hn & Ed & ->)|[-> ->]]; cbn [mbind option_bind].
    + rewrite Ed. case_bool_decide as Eb.
      * symmetry in Eb. apply char_of_byte in Eb as [-> Ha].
        assert (u32 (Z.of_nat i + 1) = Z.of_nat (S i)) as -> by (apply lookup_lt_Some in Hc; unfold u32, two32; rewrite Z.mod_small; lia).
        rewrite IH; [|by apply lookup_lt_Some in Hc|done]. f_equal. apply bool_decide_ext. unfold is_ascii. rewrite Forall_cons. naive_solver.
      * f_equal. symmetry. apply bool_decide_eq_false_2. intros [[= Ecd _] [Ha _]%Forall_cons]. apply Eb. symmetry. by apply char_of_byte.
    + rewrite (bool_decide_eq_false_2 (0 = char_of d)); [done|intros E; apply Hd, byte_of_nul; pose proof (byte_of_range d); unfold char_of in E; case_bool_decide; lia].
Qed.
Lemma page_equal_ok pp m h s0 s c u : pp_inv pp m h s0 → (s, c) ∈ pp_codes pp → no_nul u →
  ∃ s', page_equal page_size c u s0 = (s', Val (bool_decide (s = u ∧ is_ascii u))) ∧ pp_inv pp m h s'.
Proof.
  intros H Hin Hu. destruct (pp_code_split _ _ _ _ _ _ H Hin) as (p & strs & pre & post & Hp & El & Hs & _ & Hd & Hm & Hl & _).
  destruct (page_of_code_ok _ _ _ _ _ _ _ H Hp Hd) as (s' & pos & Eg & Hinv & Epl). exists s'. split; [|done].
  unfold page_equal. rewrite (bind_val _ _ _ _ _ Eg), (bind_val _ _ _ _ _ Epl), Hm.
  destruct (page_img_string page_size (base p) strs pre s post El) as [tl Ed].
  rewrite (equal_from_ok _ _ s u) with (i := 0%nat); [done| |done|done| |lia|done].
  - pose proof (pi_bound _ _ _ _ H). pose proof (lookup_lt_Some _ _ _ Hp). nia.
  - intros i b Hb. rewrite <-lookup_drop, Ed. apply (prefix_lookup_Some ((byte_of <$> s) ++ [0])); [done|]. exists tl. by rewrite <-app_assoc.
Qed.

(** ** Scanning *)

(** One string, from its character [s2] on. *)
Lemma scan_string data full s2 n p lastp spos ppos rest b0 : no_nul s2 → data !! lastp = Some b0 → b0 ≠ 0 →
  (∃ tl, drop p data = (byte_of <$> s2) ++ 0 :: tl) → cstr (of_byte <$> drop lastp data) = Some full →
  let k := (length s2 + 1)%nat in
  page_scan_from data n (p + k) (p + k) (spos + Z.of_nat k) (spos + Z.of_nat k) = Some rest →
  page_scan_from data (k + n) p lastp spos ppos = Some ((full, u32 ppos) :: rest).
Proof.
  intros Hs Hb0 Hne. revert p spos. induction s2 as [|c s2 IH]; intros p spos [tl Hd] Hc; cbv zeta; cbn [length Nat.add page_scan_from].
  - intros Hr. assert (data !! p = Some 0) as -> by (by rewrite <-(Nat.add_0_r p), <-lookup_drop, Hd). rewrite Hb0. cbn [mbind option_bind].
    rewrite bool_decide_eq_true_2, Hc by done. cbn [mbind option_bind]. replace (S p) with (p + 1)%nat by lia. change (Z.of_nat 1) with 1 in Hr. by rewrite Hr.
  - intros Hr. assert (data !! p = Some (byte_of c)) as -> by (by rewrite <-(Nat.add_0_r p), <-lookup_drop, Hd). rewrite Hb0. cbn [mbind option_bind].
    rewrite bool_decide_eq_false_2 by (intros [->%byte_of_nul _]; apply Hs; by left).
    apply IH; [intros ?; apply Hs; by right| |done|].
    + exists tl. replace (S p) with (p + 1)%nat by lia. by rewrite <-drop_drop, Hd.
    + replace (S p + (length s2 + 1))%nat with (p + S (length s2 + 1))%nat by lia.
      by replace (spos + 1 + Z.of_nat (length s2 + 1)) with (spos + Z.of_nat (S (length s2 + 1))) by lia.
Qed.
(** A terminator where a string should begin: nothing more is delivered. *)
Lemma scan_stuck data lastp : data !! lastp = Some 0 → ∀ n p spos ppos, (p + n ≤ length data)%nat →
  page_scan_from data n p lastp spos ppos = Some [].
Proof.
  intros Hl. induction n as [|n IH]; intros p spos ppos Hn; cbn [page_scan_from]; [done|].
  destruct (lookup_lt_is_Some_2 data p) as [c ->]; [lia|]. rewrite Hl. cbn [mbind option_bind].
  rewrite bool_decide_eq_false_2 by tauto. apply IH. lia.
Qed.
(** The strings of a page up to an empty one, or the zeros behind the last. *)
Lemma scan_strings strs tl n data p pos : Forall no_nul strs → Forall (λ s, s ≠ []) strs → 
  0 ≤ pos → pos + Z.of_nat (length (layout strs)) < two32 → drop p data = (byte_of <$> layout strs) ++ tl →
  (p + length (layout strs) + n = length data)%nat → (n = 0%nat ∨ head tl = Some 0) →
  page_scan_from data (length (layout strs) + n) p p pos pos = Some (coded pos strs).
Proof.
  intros Hn He. revert p pos. induction strs as [|s strs IH]; intros p pos Hpos Hb Hd Hlen Htl.
  - cbn [coded layout concat fmap list_fmap length Nat.add] in *. destruct Htl as [->|Htl]; [done|]. apply scan_stuck; [|lia].
    rewrite <-(Nat.add_0_r p), <-lookup_drop, Hd. cbn [app]. by destruct tl.
  - apply Forall_cons in Hn as [Hs Hn]. apply Forall_cons in He as [Hne He].
    rewrite layout_cons, length_app in *. cbn [length coded] in *. rewrite fmap_app in Hd. cbn [fmap list_fmap] in Hd.
    change (byte_of NUL) with 0 in Hd. rewrite <-app_assoc in Hd. cbn [app] in Hd.
    replace (length s + S (length (layout strs)) + n)%nat with (length s + 1 + (length (layout strs) + n))%nat by lia.
    destruct s as [|c s0] eqn:Es; [done|]. rewrite <-Es in *.
    replace pos with (u32 pos) at 3 by (unfold u32; apply Z.mod_small; lia).
    apply (scan_string _ s s _ _ _ _ _ _ (byte_of c)); [done| | |by eexists| |].
    + by rewrite <-(Nat.add_0_r p), <-lookup_drop, Hd, Es.
    + intros ->%byte_of_nul. apply Hs. rewrite Es. by left.
    + rewrite Hd. by apply cstr_bytes.
    + rewrite IH; [|done..|lia|lia| |lia|done].
      * do 2 f_equal. lia.
      * rewrite <-drop_drop, Hd. rewrite cons_middle, app_assoc.
        apply drop_app_length'. rewrite length_app, length_fmap. cbn. lia.
Qed.
(** A page is delivered string by string, but nothing behind an empty one. *)
Lemma scan_one_ok p strs rest : Forall no_nul strs → Forall (λ s, s ≠ []) strs → (rest = [] ∨ head rest = Some []) →
  (4 + length (layout (strs ++ rest)) ≤ page_size)%nat → base (S p) < two32 →
  scan_one page_size p (img (base p) (strs ++ rest)) = Some (coded (base p + 4) strs).
Proof.
  intros Hn He Hr Hfit Hb. unfold scan_one. assert (u32 (base p) = base p) as -> by (unfold u32; apply Z.mod_small; lia).
  pose proof (length_page_img page_size (base p) _ Hfit) as Hl. rewrite layout_app, length_app in Hfit.
  replace (page_size - 4)%nat with (length (layout strs) + (page_size - 4 - length (layout strs)))%nat by lia.
  apply (scan_strings _ ((byte_of <$> layout rest) ++ replicate (page_size - 4 - length (layout (strs ++ rest))) 0)); [done|done|lia|lia| |lia|].
  - change 4%nat with (4 + 0)%nat at 1. rewrite page_img_drop. cbn [drop]. rewrite layout_app, fmap_app. by rewrite <-app_assoc.
  - destruct Hr as [->|Hr]; [|right; by destruct rest as [|[] rest]]. rewrite app_nil_r. cbn [layout concat fmap list_fmap app].
    destruct (page_size - 4 - length (layout strs))%nat; [by left|by right].
Qed.

(** All pages of the file, when no cached page is newer. *)
Definition clean (b : bufferpool) : Prop := ∀ q sl, ptable_ b !! q = Some sl → dirty_ sl = false.
Lemma file_pages_ok pp m h s f : pp_inv pp m h s → clean s.2 → files_ s.2 !! fid = Some f →
  pages_of f = imap (λ p strs, img (base p) strs) pp.
Proof.
  intros H Hcl Ef. destruct (shows_ok _ _ (pi_shows _ _ _ _ H)) as [L Hok]. pose proof (pool_files _ _ Hok _ _ Ef) as Hf.
  pose proof (pi_shape _ _ _ _ H) as Hs. unfold shape in Hs. rewrite lookup_fmap, Ef in Hs. cbn in Hs. injection Hs as Hn Hh.
  rewrite (file_pages _ Hf) in Hn. apply list_eq. intros p. rewrite list_lookup_imap.
  destruct (pp !! p) as [strs|] eqn:Ep; cbn.
  - pose proof (lookup_lt_Some _ _ _ Ep) as Hp. pose proof (pp_pid _ _ _ _ _ H Hp) as Hr. pose proof (with_file_ok fid Hfid _ Hr) as Hpid.
    pose proof (shows_content _ _ (pi_shows _ _ _ _ H) _ Hpid) as Hc. rewrite (pi_pages _ _ _ _ H _ _ Ep) in Hc.
    assert (file_page s.2 (pid_of p) = Some (img (base p) strs)) as Hfp.
    { rewrite <-Hc. unfold content. destruct (ptable_ s.2 !! pid_of p) as [sl|] eqn:Esl; [|done]. symmetry. eapply pool_clean; [done..|by eapply Hcl]. }
    revert Hfp. unfold file_page. rewrite with_file_id, with_file_raw by done. rewrite bool_decide_eq_true_2, Ef by lia. cbn.
    intros (_ & _ & E)%page_at_some; [|done]. by replace (Z.to_nat (Z.of_nat (S p) - 1)) with p in E by lia.
  - apply lookup_ge_None in Ep. apply lookup_ge_None. lia.
Qed.
Lemma scan_loop_ok h ps : ∀ i pg, (∀ j, 0 ≤ j < Z.of_nat i + Z.of_nat (length ps) → j ∈ slots_ h) → Z.of_nat i + Z.of_nat (length ps) ∉ slots_ h →
  Z.of_nat i + Z.of_nat (length ps) < num_slots →
  ∃ calls pg', scan_loop ps (Z.of_nat (S i)) pg h = (calls, Val pg') ∧ calls.*1 = ps.
Proof.
  induction ps as [|p ps IH]; intros i pg Hin Hout Hb; cbn [scan_loop length] in *.
  - rewrite slot_test_ok by lia. rewrite bool_decide_eq_false_2; [by exists [], pg|]. intros E. apply Hout. by replace (Z.of_nat i + Z.of_nat 0) with (Z.of_nat (S i) - 1) by lia.
  - rewrite slot_test_ok, bool_decide_eq_true_2 by (try apply Hin; lia).
    destruct (IH (S i) p) as (calls & pg' & E & Ec); [intros j Hj; apply Hin; lia|by replace (Z.of_nat (S i) + Z.of_nat (length ps)) with (Z.of_nat i + Z.of_nat (S (length ps))) by lia|lia|].
    replace (Z.of_nat (S i) + 1) with (Z.of_nat (S (S i))) by lia. rewrite E. eexists _, pg'. split; [done|]. cbn. by rewrite Ec.
Qed.
(** The strings of a page before the first empty one. *)
Fixpoint before_empty (strs : list str) : list str :=
  match strs with [] => [] | s :: strs' => if decide (s = []) then [] else s :: before_empty strs' end.
Lemma before_empty_split strs : ∃ rest, strs = before_empty strs ++ rest ∧ (rest = [] ∨ head rest = Some []) ∧ Forall (λ s, s ≠ []) (before_empty strs).
Proof.
  induction strs as [|s strs (rest & E & Hr & Hf)]; [exists []; by auto|]. cbn [before_empty]. case_decide as Es.
  - subst s. exists ([] :: strs). by auto.
  - exists rest. split_and!; [by rewrite E at 1|done|by constructor].
Qed.
Lemma before_empty_all strs : Forall (λ s, s ≠ []) strs → before_empty strs = strs.
Proof. induction 1 as [|s strs Hs _ IH]; [done|]. cbn. by rewrite decide_False, IH. Qed.
Definition pp_scanned (pp : list (list str)) : list (str * Z) := mjoin (imap (λ p strs, coded (base p + 4) (before_empty strs)) pp).

Lemma scan_pages_ok n pp : base (n + length pp) < two32 → Forall (λ strs, Forall no_nul strs ∧ (4 + length (layout strs) ≤ page_size)%nat) pp →
  scan_pages_from page_size n (imap (λ p strs, img (base (n + p)) strs) pp)
  = Some (mjoin (imap (λ p strs, coded (base (n + p) + 4) (before_empty strs)) pp)).
Proof.
  intros Hb Hpp. revert n Hb. induction Hpp as [|strs pp (Hn & Hfit) Hpp IH]; intros n Hb; [done|]. cbn [imap scan_pages_from mjoin list_join length] in *.
  rewrite Nat.add_0_r. destruct (before_empty_split strs) as (rest & E & Hr & He).
  assert (scan_one page_size n (img (base n) strs) = Some (coded (base n + 4) (before_empty strs))) as ->.
  { rewrite E in Hn, Hfit |- * at 1. apply scan_one_ok; [by apply Forall_app in Hn as [? _]|done|done|done|nia]. }
  cbn [mbind option_bind]. specialize (IH (S n)).
  erewrite (imap_ext (_ ∘ S)); [rewrite IH|]; [|nia|].
  - cbn [mbind option_bind]. do 2 f_equal. f_equal. apply imap_ext. intros i x _. cbn. do 3 f_equal. lia.
  - intros i x _. cbn. do 3 f_equal. lia.
Qed.

(** Reading the file through a free place of the buffer changes nothing. *)
Lemma scan_file_ok pp m h s pos : pp_inv pp m h s → clean s.2 → find_first (free_slots s.2) = Some pos →
  ∃ b, scan_file page_size fid s.2 = (b, Val (imap (λ p strs, img (base p) strs) pp)) ∧ pp_inv pp m h (s.1, b).
Proof.
  intros H Hcl Hff. pose proof (pi_shows _ _ _ _ H) as Hsh. destruct (shows_ok _ _ Hsh) as [L Hok].
  pose proof (pi_shape _ _ _ _ H) as Hs. unfold shape in Hs. rewrite lookup_fmap in Hs.
  destruct (files_ s.2 !! fid) as [f|] eqn:Ef; [|done]. cbn in Hs. injection Hs as Hn Hh. pose proof (pool_files _ _ Hok _ _ Ef) as Hf.
  pose proof (find_first_some _ _ Hff) as Hfree.
  destruct (lookup_lt_is_Some_2 (buffer_ s.2) pos) as [pg Hpg]; [rewrite (pool_buffer _ _ Hok), <-(pool_slots _ _ Hok); by eapply lookup_lt_Some|].
  pose proof (file_pages_ok _ _ _ _ _ H Hcl Ef) as Hpages. pose proof (file_pages _ Hf) as Hfp. rewrite Hn in Hfp.
  destruct (scan_loop_ok h (pages_of f) 0 pg) as (calls & pg' & Esc & Ecalls).
  { intros j Hj. apply (pi_slots _ _ _ _ H). lia. }
  { rewrite (pi_slots _ _ _ _ H). lia. }
  { pose proof (pp_pages_lt _ _ _ _ H). lia. }
  set (k := Z.of_nat (length calls)). exists (set_buffer (insert pos pg') (add_reads k k s.2)). split.
  - unfold scan_file. rewrite (bind_val get_st _ s.2 s.2 s.2 eq_refl). rewrite bool_decide_eq_true_2 by (split; [lia|by rewrite Ef]).
    unfold assert_. rewrite bind_ret, Hff, bind_ret, (bind_val get_st _ s.2 s.2 s.2 eq_refl), Hff.
    rewrite (bind_val (modify _) _ s.2 (set_free (insert pos false) s.2) tt eq_refl), (bind_val get_st _ _ _ _ eq_refl).
    cbn [set_free files_ buffer_]. rewrite Ef, Hpg. unfold pf_scan_pages. rewrite (file_good _ Hf), Hh.
    change (Z.of_nat 1) with 1 in Esc. rewrite Esc, <-Hpages, <-Ecalls. cbn.
    trans (set_free (insert pos true) (set_buffer (insert pos pg') (add_reads k k (set_free (insert pos false) s.2))), Val calls.*1); [reflexivity|].
    unfold set_free, set_buffer, add_reads. cbn. by rewrite list_insert_insert_eq, (list_insert_id (free_slots s.2)).
  - apply (pp_inv_cache _ m h s); [done| |done]. apply shows_free_slot.
    + destruct Hsh as [_ H1 H2 H3]. split; [exists L; by apply pool_ok_reads|done..].
    + intros q sl Hq Ep. pose proof (pool_used _ _ Hok _ _ Hq) as Hu. rewrite Ep in Hu. cbn in Hu. congruence.
Qed.
Lemma page_scan_ok pp m h s pos : pp_inv pp m h s → clean s.2 → find_first (free_slots s.2) = Some pos →
  ∃ s', page_scan page_size s = (s', Val (pp_scanned pp, true)) ∧ pp_inv pp m h s'.
Proof.
  intros H Hcl Hff. destruct (scan_file_ok _ _ _ _ _ H Hcl Hff) as (b & E & Hinv). exists (s.1, b). split; [|done].
  unfold page_scan, this. rewrite (bind_val _ _ s s s.1 eq_refl). erewrite bind_val; [|unfold on_bp; rewrite (pi_file _ _ _ _ H), E; reflexivity].
  rewrite (scan_pages_ok 0); [|apply (pi_bound _ _ _ _ H)|].
  - cbn [or_ub]. rewrite bind_ret, length_imap, (pi_npages _ _ _ _ H), bool_decide_eq_true_2 by done. done.
  - apply Forall_forall. intros strs (p & Hp)%list_elem_of_lookup. split; [by eapply pi_nul|by eapply pi_fit].
Qed.
Lemma pp_scanned_all pp : Forall (λ sc, sc.1 ≠ []) (pp_codes pp) → pp_scanned pp = pp_codes pp.
Proof.
  intros He. unfold pp_scanned, pp_codes. f_equal. apply imap_ext. intros p strs Hp. f_equal. apply before_empty_all.
  apply Forall_forall. intros s Hs. rewrite <-(coded_fst (base p + 4) strs) in Hs. apply list_elem_of_fmap in Hs as ([s' c] & -> & Hin).
  rewrite Forall_forall in He. apply (He (s', c)). apply pp_codes_elem. eauto.
Qed.

(** ** What a client relies on *)

(** The pool holds the strings [l] with their codes. *)
Definition pp_holds (l : list (str * Z)) (s : st) : Prop := ∃ pp m h, pp_inv pp m h s ∧ l = pp_codes pp
  ∧ (0 < length pp)%nat ∧ ∀ p, pp !! p = Some [] → p = 0%nat.
(** A string of this length fits on a page, and a page more into the file and
    below the largest code. *)
Definition pp_room (s : str) (st0 : st) : Prop :=
  (5 + length s ≤ page_size)%nat ∧ pp_npages st0.1 < num_slots - 1 ∧ (pp_npages st0.1 + 1) * P < two32.

Lemma place_cases pp s pp0 strs : pp0 ++ [strs] = place pp s → pp0 ++ [strs] = pp ∨ (pp0 = pp ∧ strs = []).
Proof.
  unfold place. destruct (last pp); [case_bool_decide|]; intros E; [by left|..]; right; by apply app_inj_tail in E.
Qed.
Lemma page_add_holds l s0 s : pp_holds l s0 → no_nul s → pp_room s s0 →
  ∃ s1 c, page_add page_size header_size s s0 = (s1, Val c) ∧ 0 < c < two32 ∧ c ∉ l.*2 ∧ pp_holds (l ++ [(s, c)]) s1.
Proof.
  intros (pp & m & h & H & -> & Hpos & Hne) Hs (Hlen & Hr1 & Hr2). rewrite (pi_npages _ _ _ _ H) in Hr1, Hr2.
  destruct (page_add_ok pp m h s0 s H Hpos Hs Hlen) as (s1 & pp0 & strs & m' & h' & E & Hpl & Hinv & Ec); [|done|lia|].
  { intros Hl. rewrite last_lookup in Hl. apply Hne in Hl. lia. }
  cbv zeta in *. set (c := base (length pp0) + Z.of_nat (4 + length (layout strs))) in *. exists s1, c.
  assert ((s, c) ∈ pp_codes (pp0 ++ [strs ++ [s]])) as Hin by (rewrite Ec; apply elem_of_app; right; by left).
  destruct (pp_code_split _ _ _ _ _ _ Hinv Hin) as (_ & _ & _ & _ & _ & _ & _ & _ & _ & _ & _ & Hc).
  split_and!; [done|lia|lia| |].
  - intros ([t d] & Hd & Hin')%list_elem_of_fmap. cbn in Hd. subst d. pose proof (place_cases _ _ _ _ Hpl) as Hpc.
    destruct (pp_code_split _ _ _ _ _ _ H Hin') as (p & strs' & pre & post & Hp & El & _ & Hcp & Hdiv & Hmod & Hlt & _).
    pose proof (lookup_lt_Some _ _ _ Hp). assert (p = length pp0) as ->.
    { pose proof (pi_fit _ _ _ _ Hinv (length pp0) (strs ++ [s])) as Hf. rewrite list_lookup_middle in Hf by done. specialize (Hf eq_refl).
      rewrite layout_app, length_app in Hf. unfold c in Hdiv. rewrite Z.add_comm, Z.div_add, Z.div_small in Hdiv by (rewrite ?layout_cons, ?length_app in Hf; cbn in Hf; lia). lia. }
    destruct Hpc as [Hpc|[-> _]]; [|lia]. rewrite <-Hpc, list_lookup_middle in Hp by done. injection Hp as <-.
    assert (length pre = length (layout strs)) as Hlp by (unfold c in Hcp; lia). rewrite El, length_app in Hlp. cbn in Hlp. rewrite length_app in Hlp. cbn in Hlp. lia.
  - exists (pp0 ++ [strs ++ [s]]), m', h'. split_and!; [done|by rewrite Ec|rewrite length_app; cbn; lia|].
    intros p [Hp|[Hp1 Hp2]]%lookup_app_Some; [|destruct (p - length pp0)%nat; [|done]; cbn in Hp2; injection Hp2 as Hp2; by destruct strs].
    apply Hne. destruct (place_cases _ _ _ _ Hpl) as [<-|[-> _]]; [|done]. rewrite lookup_app_l; [done|by eapply lookup_lt_Some].
Qed.

(** C24: the pool gives back what was added, whatever pages are evicted in between: a
    new string gets a new code; every string added so far is read back under
    its code; [equal] tells whether a string is the stored one, as long as it
    consists of ASCII characters. *)
Theorem pool_keeps_strings l s0 s : pp_holds l s0 → no_nul s → pp_room s s0 →
  ∃ s1 c, page_add page_size header_size s s0 = (s1, Val c) ∧ 0 < c < two32 ∧ c ∉ l.*2
    ∧ pp_holds (l ++ [(s, c)]) s1
    ∧ ∀ t d, (t, d) ∈ l ++ [(s, c)] →
        (∃ s2, page_extract page_size d s1 = (s2, Val t) ∧ pp_holds (l ++ [(s, c)]) s2)
        ∧ ∀ u, no_nul u → ∃ s2, page_equal page_size d u s1 = (s2, Val (bool_decide (t = u ∧ is_ascii u))) ∧ pp_holds (l ++ [(s, c)]) s2.
Proof.
  intros H Hs Hr. destruct (page_add_holds _ _ _ H Hs Hr) as (s1 & c & E & Hc & Hnew & H1). exists s1, c. split_and!; [done|lia|lia|done..|].
  destruct H1 as (pp & m & h & H1 & -> & Hpos & Hne). intros t d Hin. split.
  - destruct (page_extract_ok _ _ _ _ _ _ H1 Hin) as (s2 & E2 & H2). exists s2. split; [done|]. by exists pp, m, h.
  - intros u Hu. destruct (page_equal_ok _ _ _ _ _ _ _ H1 Hin Hu) as (s2 & E2 & H2). exists s2. split; [done|]. by exists pp, m, h.
Qed.

(** ** Opening a pool *)

(** On a file without pages. *)
Lemma new_pool_holds b m h : shows b m → shape b !! fid = Some (0, h) → slots_ h = ∅ → P < two32 →
  ∃ b' v, new_paged_pool page_size header_size fid b = (b', Val v) ∧ pp_holds [] (v, b').
Proof.
  intros Hsh Hs Hh HP. assert (pp_inv [] m h (mk_ppool fid 0, b)) as H.
  { split; cbn; try done. intros i. rewrite Hh, elem_of_empty. lia. }
  destruct (page_grow [] m h _ H) as (b' & sl & m' & h' & E & Hinv & _ & _); [done|cbn [length]; lia|]. cbn [snd length app] in *.
  unfold shape in Hs. rewrite lookup_fmap in Hs. destruct (files_ b !! fid) as [f|] eqn:Ef; [|done]. cbn in Hs. injection Hs as Hn _.
  exists b', (mk_ppool fid 1). split.
  - unfold new_paged_pool. erewrite bind_val; [|by apply (on_file_some fid f get_st b f (Val f)); [lia|..]]. rewrite set_files_same by done.
    rewrite bool_decide_eq_true_2 by done. by rewrite (bind_val _ _ _ _ _ E).
  - exists [[]], m', h'. split_and!; [done|done|cbn; lia|]. by intros [|p] Hp.
Qed.

Lemma keeps_for_each {A} (f : A → M bufferpool unit) l : (∀ a, keeps (f a)) → keeps (for_each f l).
Proof.
  intros Hf. induction l as [|a l IH]; [apply keeps_ret|]. intros b. rewrite for_each_cons. by apply keeps_bind.
Qed.
Lemma keeps_flush_all order : keeps (flush_all page_size order).
Proof.
  unfold flush_all. apply keeps_bind; [done|]. intros b. apply keeps_for_each. intros pid. unfold flush_if.
  apply keeps_bind; [done|]. intros b'. destruct (ptable_ b' !! pid); [|done]. apply keeps_when. apply keeps_bind; [apply keeps_write|].
  intros _. by apply keeps_modify.
Qed.

(** C23: after [flush_all] strings that are not empty survive the page cache: a
    pool opened on the same file with an empty cache holds them under the same
    codes, and [scan] delivers exactly them, in the order in which they were
    added.  (At an empty string [scan] stops, see [scan_stops_at_empty].) *)
Theorem pool_survives_restart order l s0 bufs : (∀ (t : gmap Z buf_slot) q, is_Some (t !! q) → q ∈ order t) →
  pp_holds l s0 → Forall (λ sc, sc.1 ≠ []) l → (0 < length bufs)%nat → Z.of_nat (length bufs) < two64 →
  ∃ b1 v, flush_all page_size order s0.2 = (b1, Val tt) ∧ let b2 := pool_over bufs (files_ b1) in
    new_paged_pool page_size header_size fid b2 = (b2, Val v) ∧ pp_holds l (v, b2)
    ∧ ∃ s3, page_scan page_size (v, b2) = (s3, Val (l, true)) ∧ pp_holds l s3.
Proof.
  intros Hord (pp & m & h & H & -> & Hpos & Hne) He Hb1 Hb2. destruct (shows_ok _ _ (pi_shows _ _ _ _ H)) as [L Hok].
  destruct (flush_all_ok page_size order Hord s0.2 L Hok) as (b1 & E & F & Hfp). pose proof (keeps_flush_all order s0.2) as Hk. rewrite E in Hk. cbn in Hk.
  set (b2 := pool_over bufs (files_ b1)). set (v := mk_ppool fid (Z.of_nat (length pp))). exists b1, v.
  assert (pp_inv pp m h (v, b2)) as H2.
  { assert (shows b2 m) as Hsh.
    { apply new_pool_shows; [done|done|intros k f; by eapply pool_files, flushed_ok|]. intros q Hq.
      rewrite <-(shows_content _ _ (pi_shows _ _ _ _ H) q Hq), <-(Hfp q Hq). done. }
    destruct H. split; cbn [fst snd]; try done. change (shape b2) with (shape b1). by rewrite Hk. }
  assert (pp_holds (pp_codes pp) (v, b2)) as Hh by (by exists pp, m, h).
  split; [done|]. cbv zeta. fold b2. split_and!; [|done|].
  - pose proof (pi_shape _ _ _ _ H2) as Hs. unfold shape in Hs. cbn [snd] in Hs. rewrite lookup_fmap in Hs.
    destruct (files_ b2 !! fid) as [f|] eqn:Ef; [|done]. cbn in Hs. injection Hs as Hn _.
    unfold new_paged_pool. erewrite bind_val; [|by apply (on_file_some fid f get_st b2 f (Val f)); [lia|..]]. rewrite set_files_same by done.
    by rewrite bool_decide_eq_false_2, Hn by lia.
  - destruct (page_scan_ok pp m h (v, b2) 0%nat H2) as (s3 & Es & H3).
    + intros q sl Hq. cbn in Hq. by rewrite lookup_empty in Hq.
    + cbn [b2 pool_over set_files new_bufferpool free_slots snd]. destruct (length bufs); [lia|done].
    + rewrite pp_scanned_all in Es by done. exists s3. split; [done|]. by exists pp, m, h.
Qed.

(** An empty string hides what follows it: [scan], which rebuilds the table of
    the dictionary, delivers on every page only the strings before the first
    empty one, and still reports success; the others are read under their
    codes as before. *)
Theorem scan_stops_at_empty pp m h s0 pos : pp_inv pp m h s0 → clean s0.2 → find_first (free_slots s0.2) = Some pos →
  ∃ s1, page_scan page_size s0 = (s1, Val (pp_scanned pp, true))
    ∧ ∀ s c, (s, c) ∈ pp_codes pp → ∃ s2, page_extract page_size c s1 = (s2, Val s).
Proof.
  intros H Hcl Hff. destruct (page_scan_ok _ _ _ _ _ H Hcl Hff) as (s1 & E & H1). exists s1. split; [done|].
  intros s c Hin. destruct (page_extract_ok _ _ _ _ _ _ H1 Hin) as (s2 & E2 & _). by exists s2.
Qed.
End facts.
