(* ===== verification/BufferPoolDemo.v ===== *)
(** * BufferPoolDemo: a pool of one page over a file of two

    The theorems on paged files and the page cache at concrete inputs: with room
    for one page every other read evicts. *)

From Stdlib Require Import Ascii.
From stdpp Require Import gmap.
From S2P Require Import Prelude Chunk LruList PagedFile PagedFileFacts BufferPool BufferPoolInv BufferPoolRefine BufferedVec BufferedVecFacts DictSpec PagedPool.

(** ** A file with two pages of four bytes *)
Definition two_pages : paged_file :=
  mk_pfile (Some (mk_disk (new_header 0 1) [[1; 1; 1; 1]; [2; 2; 2; 2]])) true 2 (mk_header magic 1 {[0; 1]} []).
Lemma two_pages_ok : file_ok two_pages.
Proof. split; cbn; try done. intros i Hi. assert (i = 0 ∨ i = 1) as [-> | ->] by set_solver; lia. Qed.

Definition one_slot : bufferpool := pool_over [[0; 0; 0; 0]] {[0 := two_pages]}.
Definition the_map : gmap Z page := {[1 := [1; 1; 1; 1]; 2 := [2; 2; 2; 2]]}.

Lemma one_file_ok fid f : ({[0 := two_pages]} : gmap Z paged_file) !! fid = Some f → file_ok f.
Proof. intros [_ <-]%lookup_singleton_Some. apply two_pages_ok. Qed.
Lemma one_slot_shows : shows one_slot the_map.
Proof.
  apply new_pool_shows; [simpl; lia|done|exact one_file_ok|]. intros q Hq.
  destruct (decide (q = 1)) as [->|H1]; [by vm_compute|]. destruct (decide (q = 2)) as [->|H2]; [by vm_compute|].
  unfold the_map. rewrite lookup_insert_ne, lookup_singleton_ne by done. unfold file_page. case_bool_decide; [|done].
  cbn [pool_over set_files files_]. destruct (decide (file_id q = 0)) as [E|E].
  - rewrite E, lookup_singleton_eq. cbn. unfold page_at. case_bool_decide as Hin; [|done]. exfalso.
    assert (raw_pid q = 1 ∨ raw_pid q = 2) as [Er|Er] by (cbn in Hin; assert (raw_pid q - 1 = 0 ∨ raw_pid q - 1 = 1) by set_solver; lia).
    + apply H1. by apply pid_inj.
    + apply H2. by apply pid_inj.
  - by rewrite lookup_singleton_ne by done.
Qed.

Definition map_keys (t : gmap Z buf_slot) : list Z := (map_to_list t).*1.
Lemma map_keys_all t pid : is_Some (t !! pid) → pid ∈ map_keys t.
Proof. intros [s Hs]. apply list_elem_of_fmap. exists (pid, s). split; [done|]. by apply elem_of_map_to_list. Qed.

Lemma pool_refines_witness :
  ∃ b' b'', run_ops 4 map_keys [Read 1; Write 2 [7; 7; 7; 7]; Read 1; Read 2] one_slot
            = (b', Val [Some [1; 1; 1; 1]; None; Some [1; 1; 1; 1]; Some [7; 7; 7; 7]])
    ∧ shows b' {[1 := [1; 1; 1; 1]; 2 := [7; 7; 7; 7]]}
    ∧ flush_all 4 map_keys b' = (b'', Val tt)
    ∧ ∀ q, pid_ok q → file_page b'' q = ({[1 := [1; 1; 1; 1]; 2 := [7; 7; 7; 7]]} : gmap Z page) !! q.
Proof.
  apply (pool_refines 4 map_keys map_keys_all [Read 1; Write 2 [7; 7; 7; 7]; Read 1; Read 2] one_slot the_map one_slot_shows).
  repeat constructor; cbn; try done; by eexists.
Defined.

Lemma allocate_page_fresh_witness :
  ∃ f' pid, pf_allocate_page 4 17416 two_pages = (f', Val pid) ∧ file_ok f' ∧ 1 ≤ pid < num_slots ∧ page_at two_pages pid = None
    ∧ ∀ q, page_at f' q = if decide (q = pid) then Some (zero_page 4) else page_at two_pages q.
Proof. apply (proj1 (allocate_page_fresh 4 17416 two_pages two_pages_ok)). left. done. Defined.

Lemma close_open_roundtrip_witness :
  ∃ d f' b, pf_close None two_pages = (mk_pfile None true 2 (disk_header d), Some d)
    ∧ pf_open 0 (Some d) 1 = (f', b) ∧ b = true
    ∧ (1 = 1 → file_ok f' ∧ (∀ q, page_at f' q = page_at two_pages q) ∧ payload_ (header_ f') = []).
Proof. apply (close_open_roundtrip 0 None two_pages 1 two_pages_ok eq_refl). Defined.

(** The pool after the first page was read. *)
Definition after_read : bufferpool := (fetch_page 4 1 one_slot).1.
Lemma after_read_ok : ∃ a, pool_ok after_read [(a, 1)] ∧ ptable_ after_read !! 1 = Some (mk_slot false false 0 a).
Proof.
  destruct (fetch_page_ok 4 one_slot [] 1) as (b' & L' & pos & E & H & Hsz & (s & Hs & Hp) & _).
  - apply new_pool_ok; [done|exact one_file_ok].
  - done.
  - vm_compute; by eexists.
  - simpl. lia.
  - right. left. simpl. lia.
  - exists 2%nat. assert (b' = after_read) as -> by (unfold after_read; by rewrite E).
    assert (ptable_ after_read !! 1 = Some (mk_slot false false 0 2)) as Ht by by vm_compute. split; [|done].
    pose proof (pool_size _ _ H) as Hlen. assert (size (ptable_ after_read) = 1%nat) as E1 by by vm_compute. rewrite E1 in Hlen.
    pose proof (pool_entry _ _ _ _ H Ht) as Hin. destruct L' as [|e [|? ?]]; [set_solver| |done].
    by apply list_elem_of_singleton in Hin as <-.
Qed.

Lemma free_page_loses_slot_witness :
  (∃ b', free_page 1 after_read = (b', Val tt) ∧ ptable_ b' = delete 1 (ptable_ after_read) ∧ file_page b' 1 = None
    ∧ ∀ q, ptable_ after_read !! q = None → (fetch_page 4 q b').2 = Exn bufferpool_overrun)
  ∧ ∀ q, ptable_ after_read !! q = None → free_page q after_read = (after_read, Val tt).
Proof. destruct after_read_ok as (a & H & Ht). by apply (free_page_loses_slot 4 after_read [(a, 1)] 1 _ H Ht). Defined.

Lemma failed_fetch_loses_slot_witness :
  ∃ b' e pos, fetch_page 4 3 one_slot = (b', Exn e) ∧ ptable_ b' = ptable_ one_slot
    ∧ free_slots one_slot !! pos = Some true ∧ free_slots b' = <[pos := false]> (free_slots one_slot)
    ∧ ∀ q s, ptable_ b' !! q = Some s → pos_ s ≠ pos.
Proof.
  apply (failed_fetch_loses_slot 4 one_slot [] 3 two_pages); try done; [|simpl; lia].
  apply new_pool_ok; [done|exact one_file_ok].
Defined.

Lemma purge_breaks_pool_witness :
  ∃ b', purge 4 after_read = (b', Val tt) ∧ ptable_ b' = ∅ ∧ (fetch_page 4 2 b').2 = Exn undefined_behaviour.
Proof.
  destruct after_read_ok as (a & H & _). apply (purge_breaks_pool 4 after_read [] (a, 1) 2 [2; 2; 2; 2] H); [by vm_compute|].
  vm_compute. lia.
Defined.

(** ** A paged vector with two numbers per page

    The theorems about the paged vector over a page cache with room for one
    page, and runs that show what erasing and [store_at] do to it. *)

(** The layout of a chunk of two numbers. *)
Definition enc2 (c : chunk Z) : page := data_ c ++ (Z.b2z <$> Chunk.slots_ c) ++ [Z.of_nat (first_ c)].
Definition dec2 (p : page) : chunk Z :=
  mk_chunk (take 2 p) ((λ z, negb (bool_decide (z = 0))) <$> take 2 (drop 2 p)) (Z.to_nat (default 0 (p !! 4%nat))).
Lemma dec2_enc2 c : chunk_wf 2 c → dec2 (enc2 c) = c.
Proof.
  intros [Hd Hs _ _ _]. destruct c as [d s f]. cbn in Hd, Hs. destruct d as [|d1 [|d2 [|]]]; try done. destruct s as [|s1 [|s2 [|]]]; try done.
  unfold dec2, enc2. cbn. rewrite Nat2Z.id. by destruct s1, s2.
Qed.

Definition no_pages : paged_file := mk_pfile (Some (mk_disk (new_header 0 5) [])) true 0 (mk_header magic 5 ∅ []).
Definition small_pool : bufferpool := pool_over [[0; 0; 0; 0; 0]] {[5 := no_pages]}.
Definition empty_bvec : bvec * bufferpool := (mk_bvec 5 0 0 0, small_pool).
Lemma empty_bvec_opened : new_bvec 2 5 small_pool = (small_pool, Val empty_bvec.1).
Proof. reflexivity. Qed.

Notation st := (bvec * bufferpool)%type.
Notation append2 := (bv_append 2 5 17416 enc2 dec2).
Notation store2 := (bv_store 2 5 17416 enc2 dec2).
Notation erase2 := (bv_erase 2 5 enc2 dec2).
Notation add2 := (bv_add 2 5 17416 enc2 dec2).
Notation at2 := (bv_at 2 5 dec2).

Lemma empty_bvec_inv : bv_inv 2 enc2 5 [] [] ∅ (header_ no_pages) empty_bvec.
Proof.
  assert (∀ q, pid_ok q → file_page small_pool q = None) as Hno.
  { intros q _. unfold file_page. case_bool_decide; [|done]. cbn [small_pool pool_over set_files files_].
    destruct (decide (file_id q = 5)) as [->|]; [by rewrite lookup_singleton_eq|by rewrite lookup_singleton_ne]. }
  split; cbn; try done; try lia.
  - apply new_pool_shows; [cbn; lia|done| |intros q Hq; by rewrite Hno].
    intros fid f [_ <-]%lookup_singleton_Some. by split.
  - intros i. rewrite elem_of_empty. lia.
Qed.

(** Five records and three reads, with room for one page in the cache. *)
Lemma bv_refines_list_witness :
  ∃ s', bv_runs 2 5 17416 enc2 dec2 [Append 10; Store 20; Append 30; At 0; Store 40; Append 50; At 4; At 1] empty_bvec
        = (s', Val [inl 0; inl 1; inl 2; inr 10; inl 3; inl 4; inr 50; inr 20])
    ∧ bv_holds 2 enc2 5 [10; 20; 30; 40; 50] s'.
Proof.
  apply (bv_refines_list 2 5 17416 enc2 dec2 5 ltac:(done) ltac:(lia) dec2_enc2
    [Append 10; Store 20; Append 30; At 0; Store 40; Append 50; At 4; At 1] [] empty_bvec); [|cbn; unfold num_slots; lia|reflexivity].
  exists [], ∅, (header_ no_pages). apply empty_bvec_inv.
Defined.

(** ** Erasing *)

(** After a record was erased, [store] can return an id under which the
    record is not found: the slot that was erased is counted as used, so a new
    page is added while the old one still has room, and the next record goes to
    the old page with an id that belongs to the new one.  Here the fourth record
    gets the id 3 and is found under 1. *)
Theorem store_returns_wrong_id :
  ∃ s, (a ← store2 10; erase2 0;; b ← store2 20; c ← store2 30; d ← store2 40; mret [a.1; b.1; c.1; d.1]) empty_bvec
       = (s, Val [0; 0; 2; 3])
    ∧ (at2 3 s).2 = Exn unknown_id ∧ ((r ← at2 1; bv_deref dec2 r) s).2 = Val 40.
Proof. eexists. split; [vm_compute; reflexivity|]. by vm_compute. Qed.

(** [store_at] does not count the slot it uses: a table that is filled by [add]
    fails as soon as its first page is full. *)
Theorem add_stops_after_one_page :
  ((a ← add2 10; b ← add2 20; mret (a, b)) empty_bvec).2 = Val (0, 1)
  ∧ ((a ← add2 10; b ← add2 20; c ← add2 30; mret (a, b, c)) empty_bvec).2 = Exn assertion_failed.
Proof. split; vm_compute; reflexivity. Qed.

(** A reference stays bound to a place in the buffer: with another page in it
    the reference to the first record yields the third one. *)
Theorem reference_dangles :
  ((append2 10;; append2 20;; append2 30;; r ← at2 0; _ ← at2 2; bv_deref dec2 r) empty_bvec).2 = Val 30.
Proof. vm_compute. reflexivity. Qed.


(** A loop over the vector visits every record; what it assigns to a page that
    is taken out of the cache afterwards is lost. *)
Example loop_loses_first_page :
  ((append2 10;; append2 20;; append2 30;; bv_for 2 5 dec2 (λ r, x ← bv_deref dec2 r; bv_assign enc2 dec2 r (x + 1));;
    r ← at2 2; x ← bv_deref dec2 r; r ← at2 0; y ← bv_deref dec2 r; mret (x, y)) empty_bvec).2 = Val (31, 10).
Proof. vm_compute. reflexivity. Qed.

(** The records of a reopened vector: the header of the file tells how many
    slots are left, the cache is empty. *)
Definition two_records : paged_file :=
  mk_pfile (Some (mk_disk (new_header 0 5) [enc2 (mk_chunk [10; 20] [true; true] 2)])) true 1
    (mk_header magic 5 {[0]} (Z_to_little_endian 8 8 0 ++ Z_to_little_endian 8192 8 0)).
Definition opened_vec : bvec * bufferpool := (mk_bvec 5 0 2 0, pool_over [[0; 0; 0; 0; 0]] {[5 := two_records]}).
Lemma opened_vec_opened : new_bvec 2 5 opened_vec.2 = (opened_vec.2, Val opened_vec.1).
Proof. vm_compute. reflexivity. Qed.

Definition two_chunk : chunk Z := mk_chunk [10; 20] [true; true] 2.
Lemma two_chunk_wf : chunk_wf 2 two_chunk.
Proof. split; cbn; try done; try lia. intros [|[|j]] Hj; [done..|lia]. Qed.
Definition opened_map : gmap Z page := {[with_file 5 1 := enc2 two_chunk]}.
Lemma opened_content q : pid_ok q → file_page opened_vec.2 q = opened_map !! q.
Proof.
  intros Hq. unfold opened_map. destruct (decide (q = with_file 5 1)) as [->|Hne]; [rewrite lookup_singleton_eq; by vm_compute|].
  rewrite lookup_singleton_ne by done. unfold file_page. case_bool_decide; [|done]. cbn [opened_vec snd pool_over set_files files_].
  destruct (decide (file_id q = 5)) as [E|]; [|by rewrite lookup_singleton_ne]. rewrite E, lookup_singleton_eq. cbn. unfold page_at.
  case_bool_decide as Hin; [|done]. exfalso. apply Hne. change (raw_pid q - 1 ∈ ({[0]} : gset Z)) in Hin. apply elem_of_singleton in Hin. apply pid_inj; [done|by vm_compute|done|].
  cbn in Hin. assert (raw_pid q = 1) as -> by lia. by vm_compute.
Qed.
Lemma opened_inv : bv_inv 2 enc2 5 [10; 20] [two_chunk] opened_map (header_ two_records) opened_vec.
Proof.
  split.
  - done.
  - apply new_pool_shows; [cbn; lia|done| |apply opened_content]. intros fid f [_ <-]%lookup_singleton_Some. split; try done.
    intros i Hi. change (i ∈ ({[0]} : gset Z)) in Hi. apply elem_of_singleton in Hi as ->. cbn. lia.
  - done.
  - intros i. change (i ∈ ({[0]} : gset Z) ↔ 0 ≤ i < 1). rewrite elem_of_singleton. lia.
  - intros [|p] c Hc; [|done]. injection Hc as <-. by vm_compute.
  - intros p Hp. unfold opened_map. rewrite lookup_singleton_ne; [done|]. intros E%with_file_inj; [cbn in Hp; lia|by vm_compute|lia|cbn in *; lia].
  - intros [|p] c Hc; [|done]. injection Hc as <-. apply two_chunk_wf.
  - intros [|p] c j Hc Hj; [|done]. injection Hc as <-. destruct j as [|[|j]]; [done..|lia].
  - cbn. lia.
  - done.
  - done.
Qed.
Lemma assignment_lost_witness :
  ∃ r s1 s2 s3, at2 0 opened_vec = (s1, Val r) ∧ bv_assign enc2 dec2 r 11 s1 = (s2, Val tt) ∧ bv_deref dec2 r s2 = (s2, Val 11)
    ∧ on_pool (flush_page 5 (with_file 5 1) true) s2 = (s3, Val tt)
    ∧ bv_inv 2 enc2 5 [10; 20] [two_chunk] opened_map (header_ two_records) s3.
Proof.
  apply (assignment_lost 2 5 enc2 dec2 5 ltac:(done) ltac:(lia) dec2_enc2 [10; 20] opened_vec _ _ _ 0 10 11 opened_inv); [done|].
  intros sl Hs. cbn in Hs. by rewrite lookup_empty in Hs.
Defined.

(** ** Strings in pages of sixteen bytes, with room for one page in the cache *)
Definition string_cache : bufferpool := pool_over [replicate 16 0] {[5 := no_pages]}.
Definition opened_on (b : bufferpool) : PagedPool.paged_string_pool * bufferpool :=
  let '(b, r) := new_paged_pool 16 17416 5 b in (match r with Val v => v | Exn _ => mk_ppool 5 0 end, b).
Definition string_pool_0 := opened_on string_cache.
Lemma string_cache_shows : shows string_cache ∅.
Proof.
  apply new_pool_shows; [cbn; lia|done| |].
  - intros fid f [_ <-]%lookup_singleton_Some. by split.
  - intros q Hq. rewrite lookup_empty. unfold file_page. case_bool_decide; [|done]. cbn [string_cache pool_over set_files files_].
    destruct (decide (file_id q = 5)) as [->|]; [by rewrite lookup_singleton_eq|by rewrite lookup_singleton_ne].
Qed.
Lemma string_pool_0_holds : pp_holds 16 5 [] string_pool_0.
Proof.
  destruct (new_pool_holds 16 17416 5 ltac:(done) ltac:(lia) string_cache ∅ (header_ no_pages) string_cache_shows) as (b & v & E & H); [done..|].
  unfold string_pool_0, opened_on. by rewrite E.
Qed.
Definition s_ab : str := ["a"; "b"]%char.
Definition s_utf8 : str := ["195"; "164"]%char.
Notation add16 := (page_add 16 17416).
Notation extract16 := (page_extract 16).
Notation equal16 := (page_equal 16).
Notation scan16 := (page_scan 16).

Lemma room_at_start s : (length s ≤ 11)%nat → pp_room 16 s string_pool_0.
Proof. intros Hs. split_and!; [lia|by vm_compute|by vm_compute]. Qed.
Lemma pool_keeps_strings_witness :
  ∃ s1, add16 s_ab string_pool_0 = (s1, Val 4) ∧ (∃ s2, extract16 4 s1 = (s2, Val s_ab)) ∧ ∃ s3, equal16 4 s_ab s1 = (s3, Val true).
Proof.
  destruct (pool_keeps_strings 16 17416 5 ltac:(done) ltac:(lia) [] string_pool_0 s_ab string_pool_0_holds) as (s1 & c & E & _ & _ & _ & H).
  - apply (bool_decide_unpack _). vm_compute. exact I.
  - apply room_at_start. cbn. lia.
  - destruct (H s_ab c ltac:(by left)) as [(s2 & E2 & _) Heq]. destruct (Heq s_ab) as (s3 & E3 & _); [apply (bool_decide_unpack _); vm_compute; exact I|].
    assert (c = 4) as -> by (pose proof (f_equal snd E) as Ec; vm_compute in Ec; congruence).
    exists s1. split; [exact E|]. split; [by exists s2|]. exists s3. rewrite E3. f_equal.
Defined.
Lemma pool_survives_restart_witness :
  ∃ b1 v, flush_all 16 map_keys (add16 s_ab string_pool_0).1.2 = (b1, Val tt)
    ∧ ∃ s3, scan16 (v, pool_over [replicate 16 0] (files_ b1)) = (s3, Val ([(s_ab, 4)], true)).
Proof.
  destruct (page_add_holds 16 17416 5 ltac:(done) ltac:(lia) [] string_pool_0 s_ab string_pool_0_holds) as (s1 & c & E & _ & _ & H).
  - apply (bool_decide_unpack _). vm_compute. exact I.
  - apply room_at_start. cbn. lia.
  - assert (c = 4) as -> by (pose proof (f_equal snd E) as Ec; vm_compute in Ec; congruence). rewrite E.
    destruct (pool_survives_restart 16 17416 5 ltac:(done) ltac:(lia) map_keys [(s_ab, 4)] s1 [replicate 16 0] map_keys_all H)
      as (b1 & v & E1 & _ & _ & s3 & E3 & _); [by repeat constructor|cbn; lia|done|]. exists b1, v. split; [exact E1|]. by exists s3.
Defined.

(** A string with an umlaut in UTF-8 is stored and read back, but [equal] says
    that it is another one: bytes above 127 are compared with signed
    characters. *)
Theorem equal_denies_umlaut : ∃ s1, add16 s_utf8 string_pool_0 = (s1, Val 4)
  ∧ (extract16 4 s1).2 = Val s_utf8 ∧ (equal16 4 s_utf8 s1).2 = Val false.
Proof. eexists. split; [vm_compute; reflexivity|]. by vm_compute. Qed.

(** A string that does not fit on a page is not refused: the bytes behind the
    end of a page are written. *)
Theorem long_string_overruns : (add16 (replicate 13 "x"%char) string_pool_0).2 = Exn undefined_behaviour.
Proof. by vm_compute. Qed.

(** The string behind an empty one is not delivered by [scan]; strings on pages
    that are changed only in the cache are not delivered either. *)
Theorem scan_misses_strings :
  ((add16 []%list;; add16 s_ab;; on_bp (flush_all 16 map_keys);; scan16) string_pool_0).2 = Val ([], true)
  ∧ ((add16 s_ab;; scan16) (opened_on (pool_over [replicate 16 0; replicate 16 0] {[5 := no_pages]}))).2 = Val ([], true).
Proof. split; by vm_compute. Qed.
