(* ===== verification/WalLog.v ===== *)
(** * WalLog: the write-ahead log (src/log/walog.hpp, walog.cpp)

    The log is a file of bytes: a header with the last sequence number, then the
    records one behind the other in the layout the structs have on a 64 bit
    machine (fields aligned to their size, little endian).  Reading and writing
    move the position of the file like [fread], [fwrite] and [fseek]; the stream
    is not buffered, so what was written is what a crash leaves behind.  Padding
    is written as zeros and never looked at; members a constructor leaves
    uninitialised are parameters. *)

From stdpp Require Import list_numbers.
From S2P Require Import Prelude GraphState.

(** ** Records *)

(** [log_entry_type], [log_object_type], [log_tx_type] *)
Definition log_tx : Z := 1.
Definition log_insert : Z := 2.
Definition log_update : Z := 3.
Definition log_delete : Z := 4.
Definition log_chkpt : Z := 5.
Definition log_none : Z := 1.
Definition log_node : Z := 2.
Definition log_rship : Z := 3.
Definition log_property : Z := 4.
Definition log_dict : Z := 5.
Definition log_bot : Z := 1.
Definition log_commit : Z := 2.
Definition log_abort : Z := 3.

(** The members all records begin with ([log_dummy]). *)
Record log_hd : Type := mk_loghd { rec_type : Z; rec_obj : Z; rec_lsn : Z; rec_tx : Z; rec_prev : Z }.
Record node_image : Type := mk_nimage { ni_label : Z; ni_from : Z; ni_to : Z; ni_props : Z }.
Record rship_image : Type := mk_rimage { ri_label : Z; ri_src : Z; ri_dest : Z; ri_next_src : Z; ri_next_dest : Z }.
Inductive log_record : Type :=
  | log_tx_record (h : log_hd) (tx_cmd : Z)
  | log_node_record (h : log_hd) (oid : Z) (before after : node_image)
  | log_rship_record (h : log_hd) (oid : Z) (before after : rship_image)
  | log_dict_record (h : log_hd) (code : Z) (s : str)
  | log_checkpoint_record (h : log_hd).
Definition record_hd (r : log_record) : log_hd :=
  match r with
  | log_tx_record h _ | log_node_record h _ _ _ | log_rship_record h _ _ _ | log_dict_record h _ _ | log_checkpoint_record h => h
  end.

(** ** Layout *)
Definition le (k : nat) (z : Z) : list Z := Z_to_little_endian (Z.of_nat k) 8 z.
Definition un_le (k off : nat) (bs : list Z) : Z := little_endian_to_Z 8 (take k (drop off bs)).

Definition hd_bytes (h : log_hd) : list Z :=
  [rec_type h + 8 * rec_obj h] ++ replicate 7 0 ++ le 8 (rec_lsn h) ++ le 8 (rec_tx h) ++ le 8 (rec_prev h).
Definition node_bytes (i : node_image) : list Z :=
  le 4 (ni_label i) ++ replicate 4 0 ++ le 8 (ni_from i) ++ le 8 (ni_to i) ++ le 8 (ni_props i).
Definition rship_bytes (i : rship_image) : list Z :=
  le 4 (ri_label i) ++ replicate 4 0 ++ le 8 (ri_src i) ++ le 8 (ri_dest i) ++ le 8 (ri_next_src i) ++ le 8 (ri_next_dest i).
Definition char_byte (c : Ascii.ascii) : Z := Z.of_N (Ascii.N_of_ascii c).
Definition byte_char (z : Z) : Ascii.ascii := Ascii.ascii_of_N (Z.to_N z).
Definition DICT_STR : nat := 1024.
Definition record_bytes (r : log_record) : list Z :=
  match r with
  | log_tx_record h c => hd_bytes h ++ [c] ++ replicate 7 0
  | log_node_record h oid b a => hd_bytes h ++ le 8 oid ++ node_bytes b ++ node_bytes a
  | log_rship_record h oid b a => hd_bytes h ++ le 8 oid ++ rship_bytes b ++ rship_bytes a
  | log_dict_record h c s => hd_bytes h ++ le 4 c ++ (char_byte <$> s) ++ replicate (DICT_STR - length s) 0 ++ replicate 4 0
  | log_checkpoint_record h => hd_bytes h
  end.

(** [sizeof] of the structs *)
Definition dummy_size : nat := 32.
Definition tx_size : nat := 40.
Definition node_size : nat := 104.
Definition rship_size : nat := 120.
Definition dict_rec_size : nat := 1064.
Definition checkpoint_size : nat := 32.

(** [get<T>()]: the bytes seen as a record. *)
Definition get_hd (e : list Z) : log_hd :=
  mk_loghd (Z.land (default 0 (e !! 0%nat)) 7) (Z.land (Z.shiftr (default 0 (e !! 0%nat)) 3) 7) (un_le 8 8 e) (un_le 8 16 e) (un_le 8 24 e).
Definition get_tx_cmd (e : list Z) : Z := default 0 (e !! 32%nat).
Definition get_oid (e : list Z) : Z := un_le 8 32 e.
Definition get_node_image (off : nat) (e : list Z) : node_image :=
  mk_nimage (un_le 4 off e) (un_le 8 (off + 8) e) (un_le 8 (off + 16) e) (un_le 8 (off + 24) e).
Definition get_rship_image (off : nat) (e : list Z) : rship_image :=
  mk_rimage (un_le 4 off e) (un_le 8 (off + 8) e) (un_le 8 (off + 16) e) (un_le 8 (off + 24) e) (un_le 8 (off + 32) e).
Definition get_dcode_field (e : list Z) : Z := un_le 4 32 e.
(** [std::string(rec->str)] reads up to the first zero. *)
Fixpoint upto_zero (bs : list Z) : list Z :=
  match bs with [] => [] | b :: bs' => if bool_decide (b = 0) then [] else b :: upto_zero bs' end.
Definition get_str (e : list Z) : str := byte_char <$> upto_zero (take DICT_STR (drop 36 e)).

(** ** The file *)
Record cfile : Type := mk_cfile { f_bytes : list Z; f_pos : nat; f_eof : bool }.
Definition fread (n : nat) : M cfile (list Z) := λ f,
  let got := take n (drop (f_pos f) (f_bytes f)) in
  (mk_cfile (f_bytes f) (f_pos f + length got) (f_eof f || (length got <? n)%nat), Val got).
Definition fwrite (d : list Z) : M cfile unit := λ f,
  (mk_cfile (take (f_pos f) (f_bytes f) ++ d ++ drop (f_pos f + length d) (f_bytes f)) (f_pos f + length d) (f_eof f), Val tt).
Definition fseek_set (pos : nat) : M cfile unit := modify (λ f, mk_cfile (f_bytes f) pos false).
Definition fseek_end : M cfile unit := modify (λ f, mk_cfile (f_bytes f) (length (f_bytes f)) false).

(** [header_] in the file: the identifier and [last_lsn_] *)
Definition file_hd_size : nat := 16.
Definition wal_magic : list Z := [80; 83; 76; 71].
Definition file_hd (last : Z) : list Z := wal_magic ++ replicate 4 0 ++ le 8 last.

Record wa_log : Type := mk_walog { log_fp_ : option cfile; last_lsn_ : Z; last_offsets_ : gmap Z Z }.
Definition set_fp (f : option cfile) (w : wa_log) : wa_log := mk_walog f (last_lsn_ w) (last_offsets_ w).
Definition set_offsets (o : gmap Z Z) (w : wa_log) : wa_log := mk_walog (log_fp_ w) (last_lsn_ w) o.
(** An operation on [log_fp_], which must not be null. *)
Definition on_fp {A} (m : M cfile A) : M wa_log A := λ w,
  match log_fp_ w with
  | None => (w, Exn undefined_behaviour)
  | Some f => let '(f', r) := m f in (set_fp (Some f') w, r)
  end.
Definition ftell : M wa_log Z := on_fp (gets (λ f, Z.of_nat (f_pos f))).

(** The constructor, for a path without a file and with one. *)
Definition wal_open (disk : option (list Z)) : wa_log :=
  match disk with
  | None => mk_walog (Some (mk_cfile (file_hd 0) file_hd_size false)) 0 ∅
  | Some bs =>
    let got := take file_hd_size bs in
    if bool_decide (take 4 got = wal_magic ∧ length got = file_hd_size)
    then mk_walog (Some (mk_cfile bs (length bs) false)) (un_le 8 8 got) ∅
    else mk_walog None (un_le 8 8 got) ∅
  end.
(** [close(trunc)]; the result is what is in the file afterwards. *)
Definition wal_close (trunc : bool) (w : wa_log) : wa_log * option (list Z) :=
  match log_fp_ w with
  | None => (w, None)
  | Some f =>
    let bs := f_bytes (fwrite (file_hd (last_lsn_ w)) (mk_cfile (f_bytes f) 0 false)).1 in
    (set_fp None w, Some (if trunc then take file_hd_size bs else bs))
  end.
Definition rewind : M wa_log unit := on_fp (fseek_set file_hd_size).

(** ** Writing *)
Definition next_lsn : M wa_log Z := λ w,
  let n := u64 (last_lsn_ w + 1) in (mk_walog (log_fp_ w) n (last_offsets_ w), Val n).
(** [append(void *, uint32_t)] *)
Definition append_bytes (d : list Z) : M wa_log unit := on_fp (fwrite d).

Definition transaction_begin (txid : Z) : M wa_log unit :=
  n ← next_lsn; p ← ftell;
  (* [emplace] keeps an entry that is there *)
  modify (λ w, match last_offsets_ w !! txid with Some _ => w | None => set_offsets (<[txid := p]> (last_offsets_ w)) w end);;
  append_bytes (record_bytes (log_tx_record (mk_loghd log_tx log_none n txid 0) log_bot)).
Definition transaction_end (cmd txid : Z) : M wa_log unit :=
  n ← next_lsn; w ← get_st;
  append_bytes (record_bytes (log_tx_record (mk_loghd log_tx log_none n txid (default 0 (last_offsets_ w !! txid))) cmd));;
  modify (λ w, set_offsets (delete txid (last_offsets_ w)) w).
Definition transaction_commit : Z → M wa_log unit := transaction_end log_commit.
Definition transaction_abort : Z → M wa_log unit := transaction_end log_abort.

(** What the three [append]s do: the sequence number, the transaction and the
    offset of its last record are set in the record. *)
Definition set_record_hd (n txid prev : Z) (r : log_record) : log_record :=
  let set h := mk_loghd (rec_type h) (rec_obj h) n txid prev in
  match r with
  | log_tx_record h c => log_tx_record (set h) c
  | log_node_record h oid b a => log_node_record (set h) oid b a
  | log_rship_record h oid b a => log_rship_record (set h) oid b a
  | log_dict_record h c s => log_dict_record (set h) c s
  | log_checkpoint_record h => log_checkpoint_record (set h)
  end.
Definition wal_append (txid : Z) (r : log_record) : M wa_log unit :=
  n ← next_lsn; w ← get_st;
  let prev := default (rec_prev (record_hd r)) (last_offsets_ w !! txid) in
  p ← ftell;
  modify (set_offsets (<[txid := p]> (last_offsets_ w)));;
  append_bytes (record_bytes (set_record_hd n txid prev r)).
Definition checkpoint : M wa_log unit :=
  on_fp fseek_end;; n ← next_lsn;
  append_bytes (record_bytes (log_checkpoint_record (mk_loghd log_chkpt log_none n 0 0))).

(** ** The records of changes *)
Section records.
(** What uninitialised members hold. *)
Context (junk_node : node_image) (junk_rship : rship_image) (junk_prev : Z).
Definition new_hd (type obj : Z) : log_hd := mk_loghd type obj 0 0 junk_prev.
Definition image_of_node (n : node) : node_image := mk_nimage (node_label n) (from_rship_list n) (to_rship_list n) (node_plist n).
Definition image_of_rship (r : relationship) : rship_image :=
  mk_rimage (rship_label r) (src_node r) (dest_node r) (next_src_rship r) (next_dest_rship r).
Definition create_insert_node_record (nptr : node) : log_record :=
  log_node_record (new_hd log_insert log_node) (node_id_ nptr) junk_node (image_of_node nptr).
Definition create_delete_node_record (n : node) : log_record :=
  log_node_record (new_hd log_delete log_node) (node_id_ n) (image_of_node n) junk_node.
Definition create_update_node_record (n_old n_new : node) : log_record :=
  log_node_record (new_hd log_update log_node) (node_id_ n_old) (image_of_node n_old) (image_of_node n_new).
Definition create_insert_rship_record (rptr : relationship) : log_record :=
  log_rship_record (new_hd log_insert log_rship) (rship_id_ rptr) junk_rship (image_of_rship rptr).
Definition create_delete_rship_record (r : relationship) : log_record :=
  log_rship_record (new_hd log_delete log_rship) (rship_id_ r) (image_of_rship r) junk_rship.
Definition create_update_rship_record (r_old r_new : relationship) : log_record :=
  log_rship_record (new_hd log_update log_rship) (rship_id_ r_old) (image_of_rship r_old) (image_of_rship r_new).
(** [strcpy] of a string that does not fit writes behind the record. *)
Definition create_dict_record (c : Z) (s : str) : res log_record :=
  let s' := byte_char <$> upto_zero (char_byte <$> s) in
  if (length s' <? DICT_STR)%nat then Val (log_dict_record (new_hd log_insert log_dict) c s') else Exn undefined_behaviour.
End records.

(** ** Reading *)
Record log_iter : Type := mk_liter { it_more : bool; it_entry : list Z; it_pos : Z }.

(** The number of bytes of a record by its types; [log_property] and unknown
    types have none. *)
Definition record_size (type obj : Z) : nat :=
  if bool_decide (obj = log_none) then
    (if bool_decide (type = log_tx) then tx_size else if bool_decide (type = log_chkpt) then checkpoint_size else 0%nat)
  else if bool_decide (obj = log_node) then node_size
  else if bool_decide (obj = log_rship) then rship_size
  else if bool_decide (obj = log_dict) then dict_rec_size else 0%nat.

Section reading.
(** The bytes of an uninitialised [log_dummy]. *)
Context (junk : list Z).
Definition read_log_entry (it : log_iter) : M wa_log log_iter :=
  pos ← ftell;
  got ← on_fp (fread dummy_size);
  eof ← on_fp (gets f_eof);
  if bool_decide (length got = 0%nat) && eof then mret (mk_liter false (it_entry it) pos)
  else
    let rec := take dummy_size (got ++ drop (length got) junk) in
    let h := get_hd rec in
    let nbytes := record_size (rec_type h) (rec_obj h) in
    if (nbytes <? dummy_size)%nat then throw undefined_behaviour
    else
      rest ← on_fp (fread (nbytes - dummy_size));
      eof ← on_fp (gets f_eof);
      mret (mk_liter (negb eof) (rec ++ rest ++ drop (length rec + length rest) (it_entry it)) pos).
Definition log_begin : M wa_log log_iter :=
  rewind;; read_log_entry (mk_liter true [] 0).

(** [for (auto li = log.log_begin(); li != log.log_end(); ++li) body(li)] over
    the log and a state of the loop; a record takes at least 32 bytes. *)
Definition on_log {X A} (m : M wa_log A) : M (wa_log * X) A := λ s, let '(w, r) := m s.1 in ((w, s.2), r).
Definition on_rest {X A} (m : M X A) : M (wa_log * X) A := λ s, let '(x, r) := m s.2 in ((s.1, x), r).
Fixpoint wal_loop {X} (fuel : nat) (body : log_iter → M X unit) (it : log_iter) : M (wa_log * X) unit :=
  match fuel with
  | O => throw no_return
  | S f =>
    if it_more it then on_rest (body it);; it' ← on_log (read_log_entry it); wal_loop f body it' else mret tt
  end.
Definition log_bytes (w : wa_log) : nat := match log_fp_ w with Some f => length (f_bytes f) | None => 0%nat end.
Definition wal_for {X} (body : log_iter → M X unit) : M (wa_log * X) unit :=
  s ← get_st; it ← on_log log_begin; wal_loop (S (log_bytes s.1)) body it.

(** [fetch_record(pos)]: checkpoints are read as records of transactions. *)
Definition fetch_record (pos : nat) : M wa_log (option (list Z)) :=
  on_fp (fseek_set pos);;
  got ← on_fp (fread dummy_size);
  eof ← on_fp (gets f_eof);
  if bool_decide (length got = 0%nat) && eof then mret None
  else
    let rec := take dummy_size (got ++ drop (length got) junk) in
    let h := get_hd rec in
    let nbytes := if bool_decide (rec_obj h = log_none) then tx_size else record_size (rec_type h) (rec_obj h) in
    if (nbytes <? dummy_size)%nat || (rship_size <? nbytes)%nat then throw undefined_behaviour
    else rest ← on_fp (fread (nbytes - dummy_size)); mret (Some (rec ++ rest)).
End reading.
