(* ===== verification/WalFacts.v ===== *)
(** * WalFacts: the log gives back what was written

    Decoding inverts encoding; reading a log that a crash has cut off anywhere
    behind its header delivers exactly the records that were written
    completely, in order and at their positions. *)

From stdpp Require Import list_numbers.
From S2P Require Import Prelude GraphState WalLog.

(** ** Numbers in bytes *)
Lemma length_le k z : length (le k z) = k.
Proof. unfold le. pose proof (length_Z_to_little_endian (Z.of_nat k) 8 z). lia. Qed.
Lemma un_le_app k off l1 z l2 : length l1 = off → 0 ≤ z < 2 ^ (Z.of_nat k * 8) → un_le k off (l1 ++ le k z ++ l2) = z.
Proof.
  intros Hl Hz. unfold un_le. rewrite drop_app_length' by done. rewrite take_app_length' by (symmetry; apply length_le).
  unfold le. rewrite little_endian_to_Z_to_little_endian by lia. by apply Z.mod_small.
Qed.
Lemma un_le_skip k off m l1 l2 : length l1 = m → (m ≤ off)%nat → un_le k off (l1 ++ l2) = un_le k (off - m) l2.
Proof. intros <- Hm. unfold un_le. by rewrite drop_app_ge. Qed.
Lemma un_le_here k z l : 0 ≤ z < 2 ^ (Z.of_nat k * 8) → un_le k 0 (le k z ++ l) = z.
Proof. intros Hz. by apply (un_le_app k 0 []). Qed.
Lemma un_le_end k z : 0 ≤ z < 2 ^ (Z.of_nat k * 8) → un_le k 0 (le k z) = z.
Proof. intros Hz. rewrite <-(app_nil_r (le k z)). by apply un_le_here. Qed.
Definition fits (k : nat) (z : Z) : Prop := 0 ≤ z < 2 ^ (Z.of_nat k * 8).

(** ** Records that can be written *)
Definition hd_ok (h : log_hd) : Prop :=
  0 ≤ rec_type h < 8 ∧ 0 ≤ rec_obj h < 8 ∧ fits 8 (rec_lsn h) ∧ fits 8 (rec_tx h) ∧ fits 8 (rec_prev h).
Definition node_image_ok (i : node_image) : Prop := fits 4 (ni_label i) ∧ fits 8 (ni_from i) ∧ fits 8 (ni_to i) ∧ fits 8 (ni_props i).
Definition rship_image_ok (i : rship_image) : Prop :=
  fits 4 (ri_label i) ∧ fits 8 (ri_src i) ∧ fits 8 (ri_dest i) ∧ fits 8 (ri_next_src i) ∧ fits 8 (ri_next_dest i).
Definition record_ok (r : log_record) : Prop :=
  hd_ok (record_hd r) ∧
  match r with
  | log_tx_record h _ => rec_type h = log_tx ∧ rec_obj h = log_none
  | log_node_record h oid b a => rec_obj h = log_node ∧ fits 8 oid ∧ node_image_ok b ∧ node_image_ok a
  | log_rship_record h oid b a => rec_obj h = log_rship ∧ fits 8 oid ∧ rship_image_ok b ∧ rship_image_ok a
  | log_dict_record h c s => rec_obj h = log_dict ∧ fits 4 c ∧ (length s < DICT_STR)%nat ∧ Forall (λ a, char_byte a ≠ 0) s
  | log_checkpoint_record h => rec_type h = log_chkpt ∧ rec_obj h = log_none
  end.
(** The bytes as the record their types say. *)
Definition get_record (e : list Z) : option log_record :=
  let h := get_hd e in
  if bool_decide (rec_obj h = log_none) then
    (if bool_decide (rec_type h = log_tx) then Some (log_tx_record h (get_tx_cmd e))
     else if bool_decide (rec_type h = log_chkpt) then Some (log_checkpoint_record h) else None)
  else if bool_decide (rec_obj h = log_node) then Some (log_node_record h (get_oid e) (get_node_image 40 e) (get_node_image 72 e))
  else if bool_decide (rec_obj h = log_rship) then Some (log_rship_record h (get_oid e) (get_rship_image 40 e) (get_rship_image 80 e))
  else if bool_decide (rec_obj h = log_dict) then Some (log_dict_record h (get_dcode_field e) (get_str e))
  else None.

(** ** Decoding *)
Lemma length_hd h : length (hd_bytes h) = dummy_size.
Proof. unfold hd_bytes. by rewrite !length_app, !length_replicate, !length_le. Qed.
Lemma length_node_bytes i : length (node_bytes i) = 32%nat.
Proof. unfold node_bytes. by rewrite !length_app, !length_le. Qed.
Lemma length_rship_bytes i : length (rship_bytes i) = 40%nat.
Proof. unfold rship_bytes. by rewrite !length_app, !length_le. Qed.

(** A number at an offset: skip what stands before it. *)
Ltac solve_length := rewrite ?length_app, ?length_hd, ?length_le, ?length_replicate, ?length_node_bytes, ?length_rship_bytes; reflexivity.
Ltac solve_un_le :=
  rewrite <-?(assoc_L (++)); repeat (erewrite un_le_skip; [|solve_length|lia]; cbn [Nat.sub]);
  first [by apply un_le_here|by apply un_le_end].
Lemma get_hd_bytes h t : hd_ok h → get_hd (hd_bytes h ++ t) = h.
Proof.
  intros (Ht & Ho & Hl & Hx & Hp). destruct h as [ty ob ls tx pv]. cbn [rec_type rec_obj rec_lsn rec_tx rec_prev] in *. unfold get_hd.
  assert (hd_bytes (mk_loghd ty ob ls tx pv) !! 0%nat = Some (ty + 8 * ob)) as Hb by done.
  rewrite (lookup_app_l_Some _ t _ _ Hb). cbn [default from_option id]. unfold id.
  assert (Z.land (ty + 8 * ob) 7 = ty) as ->.
  { change 7 with (Z.ones 3). rewrite Z.land_ones by lia. change (2 ^ 3) with 8. replace (ty + 8 * ob) with (ty + ob * 8) by lia.
    rewrite Z_mod_plus_full. by apply Z.mod_small. }
  assert (Z.land (Z.shiftr (ty + 8 * ob) 3) 7 = ob) as ->.
  { rewrite Z.shiftr_div_pow2 by lia. change (2 ^ 3) with 8. replace (ty + 8 * ob) with (ty + ob * 8) by lia.
    rewrite Z.div_add, Z.div_small by lia. change 7 with (Z.ones 3). rewrite Z.land_ones by lia. change (2 ^ 3) with 8. by apply Z.mod_small. }
  f_equal; unfold hd_bytes; cbn [rec_type rec_obj rec_lsn rec_tx rec_prev].
  all: solve_un_le.
Qed.

Lemma upto_zero_app l t : Forall (λ b, b ≠ 0) l → upto_zero (l ++ 0 :: t) = l.
Proof. induction 1 as [|b l Hb _ IH]; [done|]. cbn. rewrite bool_decide_eq_false_2 by done. by rewrite IH. Qed.
Lemma byte_char_byte a : byte_char (char_byte a) = a.
Proof. unfold byte_char, char_byte. rewrite N2Z.id. apply Ascii.ascii_N_embedding. Qed.
Lemma get_str_bytes c s l t : length l = 32%nat → (length s < DICT_STR)%nat → Forall (λ a, char_byte a ≠ 0) s →
  get_str (l ++ le 4 c ++ (char_byte <$> s) ++ replicate (DICT_STR - length s) 0 ++ t) = s.
Proof.
  intros Hl Hs Hnz. unfold get_str. rewrite (assoc_L (++) l), drop_app_length' by (by rewrite length_app, Hl, length_le).
  rewrite (assoc_L (++)), take_app_length' by (rewrite length_app, length_fmap, length_replicate; lia).
  destruct (DICT_STR - length s)%nat as [|n] eqn:E; [lia|]. cbn [replicate]. rewrite upto_zero_app by (by apply Forall_fmap).
  rewrite <-list_fmap_compose. rewrite <-(list_fmap_id s) at 2. apply list_fmap_ext. intros _ a _. apply byte_char_byte.
Qed.
Lemma get_node_image_bytes off l i t : length l = off → node_image_ok i → get_node_image off (l ++ node_bytes i ++ t) = i.
Proof.
  intros Hl (H1 & H2 & H3 & H4). destruct i as [a b c d]. unfold get_node_image, node_bytes. cbn in *.
  rewrite <-!(assoc_L (++)).
  assert (∀ k m, un_le k (off + m) (l ++ le 4 a ++ replicate 4 0 ++ le 8 b ++ le 8 c ++ le 8 d ++ t) = un_le k m (le 4 a ++ replicate 4 0 ++ le 8 b ++ le 8 c ++ le 8 d ++ t)) as Hk.
  { intros k m. rewrite (un_le_skip k _ off) by (done || lia). f_equal. lia. }
  rewrite <-(Nat.add_0_r off) at 1. rewrite !Hk. f_equal; solve_un_le.
Qed.
Lemma get_rship_image_bytes off l i t : length l = off → rship_image_ok i → get_rship_image off (l ++ rship_bytes i ++ t) = i.
Proof.
  intros Hl (H1 & H2 & H3 & H4 & H5). destruct i as [a b c d e]. unfold get_rship_image, rship_bytes. cbn in *.
  rewrite <-!(assoc_L (++)).
  assert (∀ k m, un_le k (off + m) (l ++ le 4 a ++ replicate 4 0 ++ le 8 b ++ le 8 c ++ le 8 d ++ le 8 e ++ t)
            = un_le k m (le 4 a ++ replicate 4 0 ++ le 8 b ++ le 8 c ++ le 8 d ++ le 8 e ++ t)) as Hk.
  { intros k m. rewrite (un_le_skip k _ off) by (done || lia). f_equal. lia. }
  rewrite <-(Nat.add_0_r off) at 1. rewrite !Hk. f_equal; solve_un_le.
Qed.

Lemma record_bytes_hd r : ∃ t, record_bytes r = hd_bytes (record_hd r) ++ t.
Proof. destruct r; cbn [record_bytes record_hd]; [by eexists..|]. exists []. by rewrite app_nil_r. Qed.
Lemma get_hd_record r t : record_ok r → get_hd (record_bytes r ++ t) = record_hd r.
Proof. intros [Hh _]. destruct (record_bytes_hd r) as [t' ->]. rewrite <-(assoc_L (++)). by apply get_hd_bytes. Qed.
Lemma get_record_bytes r t : record_ok r → get_record (record_bytes r ++ t) = Some r.
Proof.
  intros H. unfold get_record. rewrite get_hd_record by done. destruct H as [Hh H].
  destruct r as [h c|h oid b a|h oid b a|h c s|h]; cbn [record_hd] in *.
  - destruct H as [-> ->]. done.
  - destruct H as (-> & Ho & Hb & Ha). cbn -[record_bytes get_node_image]. cbn [record_bytes]. do 2 f_equal.
    + unfold get_oid. solve_un_le.
    + rewrite <-!(assoc_L (++)), (assoc_L (++) (hd_bytes h)). apply get_node_image_bytes; [solve_length|done].
    + rewrite <-!(assoc_L (++)), (assoc_L (++) (hd_bytes h)), (assoc_L (++) (_ ++ _) (node_bytes b)).
      apply get_node_image_bytes; [solve_length|done].
  - destruct H as (-> & Ho & Hb & Ha). cbn -[record_bytes get_rship_image]. cbn [record_bytes]. do 2 f_equal.
    + unfold get_oid. solve_un_le.
    + rewrite <-!(assoc_L (++)), (assoc_L (++) (hd_bytes h)). apply get_rship_image_bytes; [solve_length|done].
    + rewrite <-!(assoc_L (++)), (assoc_L (++) (hd_bytes h)), (assoc_L (++) (_ ++ _) (rship_bytes b)).
      apply get_rship_image_bytes; [solve_length|done].
  - destruct H as (-> & Hc & Hs & Hnz). cbn -[record_bytes get_str]. cbn [record_bytes]. do 2 f_equal.
    + unfold get_dcode_field. solve_un_le.
    + rewrite <-!(assoc_L (++)). by apply get_str_bytes.
  - destruct H as [-> ->]. done.
Qed.
Definition size_of (r : log_record) : nat := record_size (rec_type (record_hd r)) (rec_obj (record_hd r)).
Lemma length_record r : record_ok r → length (record_bytes r) = size_of r.
Proof.
  intros [_ H]. unfold size_of. destruct r as [h c|h oid b a|h oid b a|h c s|h]; cbn [record_hd record_bytes] in *;
    try destruct H as [-> ->]; try destruct H as (-> & H); rewrite ?length_app, ?length_hd, ?length_le, ?length_node_bytes, ?length_rship_bytes, ?length_replicate, ?length_fmap; try done.
  change (record_size (rec_type h) log_dict) with dict_rec_size. destruct H as (_ & Hs & _). unfold dict_rec_size, dummy_size, DICT_STR in *. lia.
Qed.
Lemma size_ge r : record_ok r → (dummy_size ≤ size_of r)%nat.
Proof.
  intros [_ H]. unfold size_of. destruct r as [h c|h oid b a|h oid b a|h c s|h]; cbn [record_hd] in *;
    try destruct H as [-> ->]; try destruct H as (-> & H); apply Nat.leb_le; reflexivity.
Qed.

(** ** Reading one record *)
Section reading.
Context (junk : list Z).
Notation read := (read_log_entry junk).
(** The log is open on these bytes, at this position, with these members. *)
Definition open_at (bs : list Z) (p : nat) (w : wa_log) : wa_log := set_fp (Some (mk_cfile bs p false)) w.
(** What a write that was cut off leaves of a record. *)
Definition torn_ok (t : list Z) : Prop := t = [] ∨ ∃ r k, record_ok r ∧ (0 < k < size_of r)%nat ∧ t = take k (record_bytes r).

Lemma get_hd_take r k t : record_ok r → (0 < k)%nat →
  let h := get_hd (take k (record_bytes r) ++ t) in rec_type h = rec_type (record_hd r) ∧ rec_obj h = rec_obj (record_hd r).
Proof.
  intros H Hk. pose proof (get_hd_record r [] H) as E. rewrite app_nil_r in E.
  destruct (record_bytes_hd r) as [t' Eb]. unfold get_hd in *. cbn [rec_type rec_obj].
  assert ((take k (record_bytes r) ++ t) !! 0%nat = record_bytes r !! 0%nat) as ->; [|by rewrite <-E].
  rewrite Eb. destruct k; [lia|]. done.
Qed.
Lemma read_full w bs p it r t : record_ok r → drop p bs = record_bytes r ++ t →
  read it (open_at bs p w) = (open_at bs (p + size_of r) w, Val (mk_liter true (record_bytes r ++ drop (size_of r) (it_entry it)) (Z.of_nat p))).
Proof.
  intros Hr Hd. pose proof (length_record r Hr) as Hl. pose proof (size_ge r Hr) as Hge.
  set (hd32 := take dummy_size (record_bytes r)). set (rest := drop dummy_size (record_bytes r)).
  assert (length hd32 = dummy_size) as Hl32 by (unfold hd32; rewrite length_take; lia).
  assert (record_bytes r = hd32 ++ rest) as Er by (symmetry; apply take_drop).
  assert (length rest = size_of r - dummy_size)%nat as Hlr by (unfold rest; rewrite length_drop; lia).
  assert (take dummy_size (drop p bs) = hd32) as E1.
  { rewrite Hd. unfold hd32. rewrite take_app_le by lia. done. }
  assert (take (size_of r - dummy_size) (drop (p + dummy_size) bs) = rest) as E2.
  { rewrite <-drop_drop, Hd, Er, <-(assoc_L (++)), drop_app_length' by done. by rewrite take_app_length' by done. }
  unfold read_log_entry. rewrite (bind_val _ _ (open_at bs p w) (open_at bs p w) (Z.of_nat p) eq_refl).
  rewrite (bind_val _ _ (open_at bs p w) (open_at bs (p + dummy_size) w) hd32).
  2: { unfold on_fp, open_at, fread. cbn [set_fp log_fp_ f_bytes f_pos f_eof]. rewrite E1, Hl32. done. }
  rewrite (bind_val _ _ (open_at bs (p + dummy_size) w) (open_at bs (p + dummy_size) w) false eq_refl). rewrite andb_false_r, Hl32.
  rewrite take_app_length' by done.
  destruct (get_hd_take r dummy_size [] Hr) as [Et Eo]; [unfold dummy_size; lia|]. rewrite app_nil_r in Et, Eo. fold hd32 in Et, Eo. rewrite Et, Eo.
  fold (size_of r). destruct (Nat.ltb_spec (size_of r) dummy_size) as [|_]; [lia|].
  rewrite (bind_val _ _ (open_at bs (p + dummy_size) w) (open_at bs (p + size_of r) w) rest).
  2: { unfold on_fp, open_at, fread. cbn [set_fp log_fp_ f_bytes f_pos f_eof]. rewrite E2, Hlr, Nat.ltb_irrefl.
       by replace (p + dummy_size + (size_of r - dummy_size))%nat with (p + size_of r)%nat by lia. }
  rewrite (bind_val _ _ (open_at bs (p + size_of r) w) (open_at bs (p + size_of r) w) false eq_refl). cbn [negb].
  rewrite Hl32, Hlr, Er, <-(assoc_L (++)). by replace (dummy_size + (size_of r - dummy_size))%nat with (size_of r) by lia.
Qed.
(** The log is still open on these bytes. *)
Definition over (bs : list Z) (w w' : wa_log) : Prop := ∃ p e, w' = set_fp (Some (mk_cfile bs p e)) w.
Lemma read_end w bs p it : drop p bs = [] → ∃ w', over bs w w' ∧ read it (open_at bs p w) = (w', Val (mk_liter false (it_entry it) (Z.of_nat p))).
Proof.
  intros Hd. exists (set_fp (Some (mk_cfile bs (p + 0) true)) w). split; [by eexists _, _|]. unfold read_log_entry. rewrite (bind_val _ _ (open_at bs p w) (open_at bs p w) (Z.of_nat p) eq_refl).
  erewrite bind_val; [|unfold on_fp, open_at, fread; cbn [set_fp log_fp_ f_bytes f_pos f_eof]; rewrite Hd; reflexivity].
  erewrite bind_val by reflexivity. reflexivity.
Qed.
Lemma read_torn w bs p it t : torn_ok t → drop p bs = t → ∃ w' it', over bs w w' ∧ read it (open_at bs p w) = (w', Val it') ∧ it_more it' = false.
Proof.
  intros [->|(r & k & Hr & Hk & Ht)] Hd; [destruct (read_end w bs p it Hd) as (w' & Ho & E); by exists w', (mk_liter false (it_entry it) (Z.of_nat p))|].
  pose proof (length_record r Hr) as Hl. pose proof (size_ge r Hr) as Hge.
  set (got := take dummy_size (drop p bs)). assert (got = take (dummy_size `min` k) (record_bytes r)) as Egot by (unfold got; by rewrite Hd, Ht, take_take).
  assert (length got = (dummy_size `min` k)%nat) as Elen by (rewrite Egot, length_take; lia).
  set (e := (length got <? dummy_size)%nat).
  set (w1 := set_fp (Some (mk_cfile bs (p + length got) e)) w).
  unfold read_log_entry. rewrite (bind_val _ _ (open_at bs p w) (open_at bs p w) (Z.of_nat p) eq_refl).
  rewrite (bind_val _ _ (open_at bs p w) w1 got eq_refl). rewrite (bind_val _ _ w1 w1 e eq_refl).
  rewrite bool_decide_eq_false_2 by (rewrite Elen; unfold dummy_size; lia). cbn [andb].
  destruct (get_hd_take r (dummy_size `min` k) (take (dummy_size - length got) (drop (length got) junk)) Hr) as [Et Eo]; [unfold dummy_size; lia|].
  rewrite take_app, (take_ge got) by lia. rewrite Egot in Et, Eo |- *. rewrite Et, Eo. fold (size_of r).
  destruct (Nat.ltb_spec (size_of r) dummy_size) as [|_]; [lia|].
  set (n := (size_of r - dummy_size)%nat). set (rest := take n (drop (p + length got) bs)).
  set (w2 := set_fp (Some (mk_cfile bs (p + length got + length rest) (e || (length rest <? n)%nat))) w).
  rewrite (bind_val _ _ w1 w2 rest eq_refl). rewrite (bind_val _ _ w2 w2 (e || (length rest <? n)%nat) eq_refl).
  eexists _, _. split; [|split; [reflexivity|]]; [by eexists _, _|]. cbn [it_more]. apply negb_false_iff, orb_true_iff. unfold e. rewrite !Nat.ltb_lt.
  destruct (decide (k < dummy_size)%nat); [left; lia|right]. unfold rest, n. rewrite length_take, <-drop_drop, Hd, Ht, Elen.
  rewrite length_drop, length_take. lia.
Qed.

(** ** Reading the log *)

(** What the iterator is at each record. *)
Fixpoint visits (rs : list log_record) (p : nat) (old : list Z) : list log_iter :=
  match rs with
  | [] => []
  | r :: rs' => let e := record_bytes r ++ drop (size_of r) old in mk_liter true e (Z.of_nat p) :: visits rs' (p + size_of r) e
  end.
Lemma wal_loop_ok {X} (body : log_iter → M X unit) rs t : Forall record_ok rs → torn_ok t → ∀ w bs p it x n,
  drop p bs = mjoin (record_bytes <$> rs) ++ t → it_more it = true → (length rs < n)%nat →
  ∃ w', over bs w w' ∧ wal_loop junk (S n) body it (open_at bs p w, x)
    = let '(x', r) := (body it;; for_each body (visits rs p (it_entry it))) x in ((w', x'), r).
Proof.
  intros Hrs Ht. induction Hrs as [|r rs Hr _ IH]; intros w bs p it x n Hd Hm Hn.
  - cbn [wal_loop]. rewrite Hm. unfold on_rest, on_log, mbind, M_bind. cbn [fst snd]. destruct (body it x) as [x' [[]|e]];
      [|exists (open_at bs p w); split; [by eexists _, _|done]].
    cbn [fst snd] in *. destruct (read_torn w bs p it t Ht Hd) as (w' & it' & Ho & E & Hf). rewrite E. destruct n; [cbn in Hn; lia|]. cbn [wal_loop]. rewrite Hf. by exists w'.
  - destruct n as [|n]; [lia|]. cbn [wal_loop visits]. rewrite Hm. cbn [fmap list_fmap mjoin list_join] in Hd. rewrite <-(assoc_L (++)) in Hd.
    set (it' := mk_liter true (record_bytes r ++ drop (size_of r) (it_entry it)) (Z.of_nat p)).
    assert (drop (p + size_of r) bs = mjoin (record_bytes <$> rs) ++ t) as Hd'.
    { rewrite <-drop_drop, Hd. apply drop_app_length'. by rewrite length_record. }
    destruct (body it x) as [x' [[]|e]] eqn:Eb.
    2: { exists (open_at bs p w). split; [by eexists _, _|]. rewrite (bind_exn _ _ _ (open_at bs p w, x') e), (bind_exn _ _ _ x' e Eb); [done|]. unfold on_rest. cbn [fst snd]. by rewrite Eb. }
    rewrite (bind_val _ _ _ (open_at bs p w, x') tt) by (unfold on_rest; cbn [fst snd]; by rewrite Eb). rewrite (bind_val _ _ _ x' tt Eb).
    rewrite (bind_val _ _ _ (open_at bs (p + size_of r) w, x') it') by (unfold on_log; cbn [fst snd]; by rewrite (read_full _ _ _ _ _ _ Hr Hd)).
    cbn [length] in Hn. apply (IH w bs (p + size_of r)%nat it' x' n Hd' eq_refl). lia.
Qed.
Lemma wal_for_ok {X} (body : log_iter → M X unit) rs t w h x : Forall record_ok rs → torn_ok t → length h = file_hd_size → ∀ p e,
  let bs := h ++ mjoin (record_bytes <$> rs) ++ t in
  ∃ w', over bs w w' ∧ wal_for junk body (set_fp (Some (mk_cfile bs p e)) w, x)
    = let '(x', r) := for_each body (visits rs file_hd_size []) x in ((w', x'), r).
Proof.
  intros Hrs Ht Hh p e bs. unfold wal_for. rewrite (bind_val get_st _ _ _ _ eq_refl). cbn [fst].
  assert (drop file_hd_size bs = mjoin (record_bytes <$> rs) ++ t) as Hd by (by apply drop_app_length').
  assert (on_log (X:=X) (log_begin junk) (set_fp (Some (mk_cfile bs p e)) w, x) = on_log (read (mk_liter true [] 0)) (open_at bs file_hd_size w, x)) as Eb by done.
  destruct rs as [|r rs].
  - destruct (read_torn w bs file_hd_size (mk_liter true [] 0) t Ht Hd) as (w' & it' & Ho & E & Hf). exists w'. split; [done|].
    rewrite (bind_val _ _ _ (w', x) it') by (rewrite Eb; unfold on_log; cbn [fst snd]; by rewrite E). cbn [wal_loop]. by rewrite Hf.
  - apply Forall_cons in Hrs as [Hr Hrs]. cbn [fmap list_fmap mjoin list_join] in Hd. rewrite <-(assoc_L (++)) in Hd.
    assert (drop (file_hd_size + size_of r) bs = mjoin (record_bytes <$> rs) ++ t) as Hd'.
    { rewrite <-drop_drop, Hd. apply drop_app_length'. by rewrite length_record. }
    cbn [visits]. set (it' := mk_liter true (record_bytes r ++ drop (size_of r) []) (Z.of_nat file_hd_size)).
    rewrite (bind_val _ _ _ (open_at bs (file_hd_size + size_of r) w, x) it')
      by (rewrite Eb; unfold on_log; cbn [fst snd]; by rewrite (read_full _ _ _ _ _ _ Hr Hd)).
    destruct (wal_loop_ok body rs t Hrs Ht w bs (file_hd_size + size_of r) it' x (length bs) Hd' eq_refl) as [w' E]; [|by exists w'].
    assert (length rs ≤ length (mjoin (record_bytes <$> rs)))%nat as Hle.
    { clear -Hrs. induction Hrs as [|r rs Hr _ IH]; [done|].
      change (mjoin (record_bytes <$> r :: rs)) with (record_bytes r ++ mjoin (record_bytes <$> rs)).
      rewrite length_app, length_record by done. pose proof (size_ge r Hr). unfold dummy_size in *. cbn [length]. lia. }
    subst bs. change (mjoin (record_bytes <$> r :: rs)) with (record_bytes r ++ mjoin (record_bytes <$> rs)).
    rewrite !length_app, Hh, length_record by done. pose proof (size_ge r Hr). unfold dummy_size in *. lia.
Qed.
End reading.

(** ** Writing *)
Inductive wal_op : Type :=
  | Begin (txid : Z) | Change (txid : Z) (r : log_record) | Commit (txid : Z) | Abort (txid : Z) | Checkpoint.
Definition run_wal (o : wal_op) : M wa_log unit :=
  match o with
  | Begin tx => transaction_begin tx | Change tx r => wal_append tx r
  | Commit tx => transaction_commit tx | Abort tx => transaction_abort tx | Checkpoint => checkpoint
  end.
(** The record of a call, and the offsets afterwards, by the sequence number, the
    offsets and the position of the file. *)
Definition op_record (o : wal_op) (n : Z) (offs : gmap Z Z) : log_record :=
  match o with
  | Begin tx => log_tx_record (mk_loghd log_tx log_none n tx 0) log_bot
  | Change tx r => set_record_hd n tx (default (rec_prev (record_hd r)) (offs !! tx)) r
  | Commit tx => log_tx_record (mk_loghd log_tx log_none n tx (default 0 (offs !! tx))) log_commit
  | Abort tx => log_tx_record (mk_loghd log_tx log_none n tx (default 0 (offs !! tx))) log_abort
  | Checkpoint => log_checkpoint_record (mk_loghd log_chkpt log_none n 0 0)
  end.
Definition op_offsets (o : wal_op) (pos : Z) (offs : gmap Z Z) : gmap Z Z :=
  match o with
  | Begin tx => match offs !! tx with Some _ => offs | None => <[tx := pos]> offs end
  | Change tx _ => <[tx := pos]> offs
  | Commit tx | Abort tx => delete tx offs
  | Checkpoint => offs
  end.
Fixpoint written (os : list wal_op) (lsn : Z) (offs : gmap Z Z) (pos : nat) : list log_record :=
  match os with
  | [] => []
  | o :: os' =>
    let r := op_record o (u64 (lsn + 1)) offs in
    r :: written os' (u64 (lsn + 1)) (op_offsets o (Z.of_nat pos) offs) (pos + length (record_bytes r))
  end.
(** An open log at its end. *)
Definition wal_at (bs : list Z) (lsn : Z) (offs : gmap Z Z) : wa_log := mk_walog (Some (mk_cfile bs (length bs) false)) lsn offs.
Lemma append_at_end bs d lsn offs : append_bytes d (wal_at bs lsn offs) = (wal_at (bs ++ d) lsn offs, Val tt).
Proof.
  unfold append_bytes, on_fp, fwrite, wal_at. cbn. rewrite firstn_all, drop_ge by lia. by rewrite app_nil_r, length_app.
Qed.
Lemma run_wal_ok o bs lsn offs :
  let r := op_record o (u64 (lsn + 1)) offs in
  run_wal o (wal_at bs lsn offs) = (wal_at (bs ++ record_bytes r) (u64 (lsn + 1)) (op_offsets o (Z.of_nat (length bs)) offs), Val tt).
Proof.
  destruct o as [tx|tx r|tx|tx|]; cbn [run_wal op_record op_offsets].
  - unfold transaction_begin. rewrite (bind_val next_lsn _ (wal_at bs lsn offs) (wal_at bs (u64 (lsn + 1)) offs) (u64 (lsn + 1)) eq_refl).
    rewrite (bind_val ftell _ (wal_at bs (u64 (lsn + 1)) offs) (wal_at bs (u64 (lsn + 1)) offs) (Z.of_nat (length bs)) eq_refl).
    erewrite bind_val by reflexivity. cbn [wal_at last_offsets_]. destruct (offs !! tx); apply append_at_end.
  - unfold wal_append. rewrite (bind_val next_lsn _ (wal_at bs lsn offs) (wal_at bs (u64 (lsn + 1)) offs) (u64 (lsn + 1)) eq_refl).
    rewrite (bind_val get_st _ _ _ _ eq_refl), (bind_val ftell _ (wal_at bs (u64 (lsn + 1)) offs) (wal_at bs (u64 (lsn + 1)) offs) (Z.of_nat (length bs)) eq_refl).
    erewrite bind_val by reflexivity. apply append_at_end.
  - unfold transaction_commit, transaction_end. rewrite (bind_val next_lsn _ (wal_at bs lsn offs) (wal_at bs (u64 (lsn + 1)) offs) (u64 (lsn + 1)) eq_refl).
    rewrite (bind_val get_st _ _ _ _ eq_refl), (bind_val _ _ _ _ _ (append_at_end _ _ _ _)). done.
  - unfold transaction_abort, transaction_end. rewrite (bind_val next_lsn _ (wal_at bs lsn offs) (wal_at bs (u64 (lsn + 1)) offs) (u64 (lsn + 1)) eq_refl).
    rewrite (bind_val get_st _ _ _ _ eq_refl), (bind_val _ _ _ _ _ (append_at_end _ _ _ _)). done.
  - unfold checkpoint. rewrite (bind_val (on_fp fseek_end) _ (wal_at bs lsn offs) (wal_at bs lsn offs) tt eq_refl).
    rewrite (bind_val next_lsn _ (wal_at bs lsn offs) (wal_at bs (u64 (lsn + 1)) offs) (u64 (lsn + 1)) eq_refl). apply append_at_end.
Qed.
Lemma runs_wal_ok os : ∀ bs lsn offs, ∃ lsn' offs',
  for_each run_wal os (wal_at bs lsn offs) = (wal_at (bs ++ mjoin (record_bytes <$> written os lsn offs (length bs))) lsn' offs', Val tt).
Proof.
  induction os as [|o os IH]; intros bs lsn offs; [exists lsn, offs; cbn; by rewrite app_nil_r|].
  rewrite for_each_cons, (bind_val _ _ _ _ _ (run_wal_ok o bs lsn offs)). cbn [written].
  set (r := op_record o (u64 (lsn + 1)) offs). destruct (IH (bs ++ record_bytes r) (u64 (lsn + 1)) (op_offsets o (Z.of_nat (length bs)) offs)) as (l & of1 & E).
  exists l, of1. rewrite E. rewrite length_app.
  change (mjoin (record_bytes <$> r :: ?x)) with (record_bytes r ++ mjoin (record_bytes <$> x)). by rewrite <-(assoc_L (++)).
Qed.

(** ** A log that was cut off *)
Lemma cut_records rs k : Forall record_ok rs → ∃ n t, (n ≤ length rs)%nat ∧ torn_ok t
  ∧ take k (mjoin (record_bytes <$> rs)) = mjoin (record_bytes <$> take n rs) ++ t
  ∧ (length (mjoin (record_bytes <$> take n rs)) ≤ k)%nat
  ∧ (n = length rs ∨ k < length (mjoin (record_bytes <$> take (S n) rs)))%nat.
Proof.
  intros Hrs. revert k. induction Hrs as [|r rs Hr _ IH]; intros k; [exists 0%nat, []; rewrite !take_nil; split_and!; [done|by left|by destruct k|cbn; lia|by left]|].
  change (mjoin (record_bytes <$> r :: rs)) with (record_bytes r ++ mjoin (record_bytes <$> rs)).
  pose proof (length_record r Hr) as Hl. destruct (decide (k < size_of r)%nat) as [Hk|Hk].
  - exists 0%nat, (take k (record_bytes r)). split_and!; [lia| |by rewrite take_app_le by lia|cbn; lia|].
    + destruct k; [by left|]. right. exists r, (S k). split_and!; try done; lia.
    + right. cbn [take]. change (mjoin (record_bytes <$> r :: ?x)) with (record_bytes r ++ mjoin (record_bytes <$> x)). rewrite length_app. lia.
  - destruct (IH (k - size_of r)%nat) as (n & t & Hn & Ht & E & Ha & Hb). exists (S n), t. split_and!; [cbn; lia|done| | |].
    + rewrite take_app_ge by lia. rewrite Hl, E. cbn [take]. change (mjoin (record_bytes <$> r :: ?x)) with (record_bytes r ++ mjoin (record_bytes <$> x)).
      by rewrite (assoc_L (++)).
    + cbn [take length]. change (mjoin (record_bytes <$> r :: ?x)) with (record_bytes r ++ mjoin (record_bytes <$> x)). rewrite length_app. lia.
    + cbn [length]. destruct Hb as [->|Hb]; [by left|right]. cbn [take] in *. change (mjoin (record_bytes <$> r :: ?x)) with (record_bytes r ++ mjoin (record_bytes <$> x)).
      rewrite length_app. lia.
Qed.
Lemma visits_records rs p old : Forall record_ok rs → Forall2 (λ it r, it_more it = true ∧ get_record (it_entry it) = Some r) (visits rs p old) rs.
Proof. intros H. revert p old. induction H as [|r rs Hr _ IH]; intros p old; constructor; [|apply IH]. split; [done|by apply get_record_bytes]. Qed.

(** C22: a crash may cut the log off anywhere behind its header: when it is opened
    again, a loop over the log visits exactly the records that were written
    completely, each as it was written, in order. *)
Theorem log_survives_crash junk os : let rs := written os 0 ∅ file_hd_size in Forall record_ok rs →
  ∃ w bs, for_each run_wal os (wal_open None) = (w, Val tt) ∧ f_bytes <$> log_fp_ w = Some bs
    ∧ ∀ k, (file_hd_size ≤ k)%nat → ∃ n its,
      (file_hd_size + length (mjoin (record_bytes <$> take n rs)) ≤ k)%nat
      ∧ (n = length rs ∨ k < file_hd_size + length (mjoin (record_bytes <$> take (S n) rs)))%nat
      ∧ Forall2 (λ it r, get_record (it_entry it) = Some r) its (take n rs)
      ∧ ∀ X (body : log_iter → M X unit) x, ∃ w',
          wal_for junk body (wal_open (Some (take k bs)), x) = let '(x', r) := for_each body its x in ((w', x'), r).
Proof.
  intros rs Hrs. destruct (runs_wal_ok os (file_hd 0) 0 ∅) as (lsn' & offs' & E). fold rs in E.
  eexists _, (file_hd 0 ++ mjoin (record_bytes <$> rs)). split_and!; [exact E|done|]. intros k Hk.
  destruct (cut_records rs (k - file_hd_size) Hrs) as (n & t & Hn & Ht & Ecut & Ha & Hb).
  exists n, (visits (take n rs) file_hd_size []). assert (Forall record_ok (take n rs)) as Hrn by (by apply Forall_take). split_and!.
  - unfold file_hd_size in *. lia.
  - destruct Hb as [->|Hb]; [by left|]. right. unfold file_hd_size in *. lia.
  - eapply Forall2_impl; [by apply visits_records|]. by intros it r [_ ?].
  - intros X body x. assert (take k (file_hd 0 ++ mjoin (record_bytes <$> rs)) = file_hd 0 ++ mjoin (record_bytes <$> take n rs) ++ t) as ->.
    { rewrite take_app_ge by (change (length (file_hd 0)) with file_hd_size; lia). change (length (file_hd 0)) with file_hd_size. by rewrite Ecut. }
    unfold wal_open. rewrite take_app_length' by done. rewrite bool_decide_eq_true_2 by done.
    destruct (wal_for_ok junk body (take n rs) t (mk_walog None 0 ∅) (file_hd 0) x Hrn Ht eq_refl
      (length (file_hd 0 ++ mjoin (record_bytes <$> take n rs) ++ t)) false) as (w' & _ & E'). by exists w'.
Qed.
