(* ===== verification/Recovery.v ===== *)
(** * Recovery: redoing the log (src/storage/graph_db_recovery.cpp, the logging in graph_db.cpp)

    What commit appends to the log for an object, and [apply_log], which is
    called when a database is opened: it looks for losers and for the last
    checkpoint, redoes the records behind it in the tables, writes a checkpoint
    and does nothing about the losers.  The tables are the vectors of
    [VecSpec]; flushing the page cache does not change what they hold. *)

From S2P Require Import Prelude VecSpec DictSpec Literals Property PropertyList Txn Mvto GraphState WalLog.

Section recovery.
Context {V : Type → Type} `{!Vec V} {D : Type} `{!Dictionary D} {X : Type}.
Notation db := (gdb V D X).

(** ** Logging: the record [commit_dirty_node] and [commit_dirty_relationship]
    append for a dirty version, by the three cases of commit.  It is made from
    the objects as they are before the properties are stored. *)
Section logging.
Context (junk_node : node_image) (junk_rship : rship_image) (junk_prev : Z).
Definition node_log_record (n : node) (updated : bool) (elem : obj node) : log_record :=
  if negb updated then create_insert_node_record junk_node junk_prev (body_ elem)
  else if bool_decide (bts_ elem = cts_ elem) then create_delete_node_record junk_node junk_prev n
  else create_update_node_record junk_prev n (body_ elem).
Definition rship_log_record (r : relationship) (updated : bool) (elem : obj relationship) : log_record :=
  if negb updated then create_insert_rship_record junk_rship junk_prev (body_ elem)
  else if bool_decide (bts_ elem = cts_ elem) then create_delete_rship_record junk_rship junk_prev r
  else create_update_rship_record junk_prev r (body_ elem).
(** [add_node] logs a label the dictionary does not know, [add_relationship]
    every label. *)
Definition log_label (txid code : Z) (label : str) : M wa_log unit :=
  r ← lift_res (create_dict_record junk_prev code label); wal_append txid r.
End logging.

(** ** Redo *)

(** The members of [relationship r;] before they are assigned, and the bytes of
    an uninitialised record. *)
Context (junk_r : relationship) (junk : list Z).

Definition redone_node (oid : Z) (a : node_image) : nobj :=
  new_tobj (mk_node oid (ni_from a) (ni_to a) (ni_props a) (ni_label a)).
Definition redone_rship (a : rship_image) : robj :=
  new_tobj (mk_rship (rship_id_ junk_r) (ri_src a) (ri_dest a) (ri_next_src a) (ri_next_dest a) (rship_plist junk_r) (ri_label a)).
(** The message of the handler asks [is_used], which throws the same exception
    once more. *)
Definition redo_node (oid : Z) (a : node_image) : M db unit :=
  on_nodes (try_catch (vec_store_at oid (redone_node oid a)) index_out_of_range (throw index_out_of_range)).
Definition redo_rship (oid : Z) (a : rship_image) : M db unit := on_rships (vec_store_at oid (redone_rship a)).

Definition apply_redo (it : log_iter) : M db unit :=
  let e := it_entry it in
  let obj := rec_obj (get_hd e) in
  let type := rec_type (get_hd e) in
  if bool_decide (type = log_insert ∨ type = log_update) then
    if bool_decide (obj = log_node) then redo_node (get_oid e) (get_node_image 72 e)
    else if bool_decide (obj = log_rship) then redo_rship (get_oid e) (get_rship_image 80 e)
    else if bool_decide (obj = log_dict) then _ ← on_dict (d_insert (get_str e)); mret tt
    else mret tt
  else if bool_decide (type = log_delete) then
    if bool_decide (obj = log_node) then on_nodes (tab_remove (get_oid e))
    else if bool_decide (obj = log_rship) then on_rships (tab_remove (get_oid e))
    else mret tt
  else mret tt.
(** The body of [apply_undo] is empty. *)
Definition apply_undo (txid pos : Z) : M db unit := mret tt.

(** ** [apply_log] *)

(** The first loop: transactions that did not commit, with the position of their
    last record, and the sequence number of the last checkpoint. *)
Definition analyze (it : log_iter) : M (gmap Z Z * Z) unit := modify (λ s,
  let e := it_entry it in
  let h := get_hd e in
  let '(loser_tx, max_lsn) := s in
  if bool_decide (rec_type h = log_tx) then
    let cmd := get_tx_cmd e in
    if bool_decide (cmd = log_bot) then
      (match loser_tx !! rec_tx h with Some _ => loser_tx | None => <[rec_tx h := it_pos it]> loser_tx end, max_lsn)
    else if bool_decide (cmd = log_commit) then (delete (rec_tx h) loser_tx, max_lsn)
    else if bool_decide (cmd = log_abort) then (<[rec_tx h := it_pos it]> loser_tx, max_lsn)
    else (loser_tx, max_lsn)
  else if bool_decide (rec_type h = log_chkpt) then (loser_tx, rec_lsn h)
  else (<[rec_tx h := it_pos it]> loser_tx, max_lsn)).
(** The second loop, with the flag [redo_performed]. *)
Definition redo_step (max_lsn : Z) (it : log_iter) : M (bool * db) unit :=
  let h := get_hd (it_entry it) in
  when (bool_decide (max_lsn < rec_lsn h ∧ rec_obj h ≠ log_none))
    (λ s, let '(g, r) := apply_redo it s.2 in ((true, g), r)).

(** The result is the log file after the destructor has closed the log. *)
Definition apply_log (disk : option (list Z)) : M db (option (list Z)) := λ g,
  match wal_for junk analyze (wal_open disk, (∅, 0)) with
  | (_, Exn e) => (g, Exn e)
  | ((w1, (loser_tx, max_lsn)), Val _) =>
    match wal_for junk (redo_step max_lsn) (w1, (false, g)) with
    | ((_, (_, g1)), Exn e) => (g1, Exn e)
    | ((w2, (redo_performed, g1)), Val _) =>
      match when redo_performed checkpoint w2 with
      | (_, Exn e) => (g1, Exn e)
      | (w3, Val _) =>
        match for_each (λ '(txid, pos), apply_undo txid pos) (map_to_list loser_tx) g1 with
        | (g2, Exn e) => (g2, Exn e)
        | (g2, Val _) => (g2, Val (wal_close false w3).2)
        end
      end
    end
  end.
End recovery.
