(* ===== verification/RecoveryFacts.v ===== *)
(** * RecoveryFacts: what the tables hold after recovery

    [apply_log] on a log that a crash may have cut off: the tables are those of
    before with the records behind the last checkpoint replayed, in order,
    whether their transactions committed or not.  Logs of small databases at the
    end. *)

From stdpp Require Import list_numbers.
From Stdlib Require Import Ascii.
From S2P Require Import Prelude VecSpec Chunk ChunkedVec Txn DictSpec IndexSpec StringPool Dict Literals Property PropertyList Demo GraphState BTreeTree IndexMap GraphDemo WalLog WalFacts Recovery.

(** ** The tables as maps *)
Record images : Type := mk_images { im_nodes : gmap Z nobj; im_rships : gmap Z robj }.
Definition last_checkpoint (rs : list log_record) : Z :=
  foldl (λ m r, if bool_decide (rec_type (record_hd r) = log_chkpt) then rec_lsn (record_hd r) else m) 0 rs.
(** The records that are replayed. *)
Definition replays (max_lsn : Z) (r : log_record) : Prop := max_lsn < rec_lsn (record_hd r) ∧ rec_obj (record_hd r) ≠ log_none.
#[export] Instance replays_dec m r : Decision (replays m r).
Proof. unfold replays. apply _. Defined.
Definition writes (r : log_record) : Prop := rec_type (record_hd r) = log_insert ∨ rec_type (record_hd r) = log_update.
#[export] Instance writes_dec r : Decision (writes r).
Proof. unfold writes. apply _. Defined.
Definition removes (r : log_record) : Prop := rec_type (record_hd r) = log_delete.
#[export] Instance removes_dec r : Decision (removes r).
Proof. unfold removes. apply _. Defined.
Definition replay (junk_r : relationship) (s : images) (r : log_record) : images :=
  match r with
  | log_node_record _ oid _ a =>
    if decide (writes r) then mk_images (<[oid := redone_node oid a]> (im_nodes s)) (im_rships s)
    else if decide (removes r) then mk_images (delete oid (im_nodes s)) (im_rships s) else s
  | log_rship_record _ oid _ a =>
    if decide (writes r) then mk_images (im_nodes s) (<[oid := redone_rship junk_r a]> (im_rships s))
    else if decide (removes r) then mk_images (im_nodes s) (delete oid (im_rships s)) else s
  | _ => s
  end.
(** The strings that are replayed. *)
Definition replayed_strings (rs : list log_record) : list str :=
  omap (λ r, match r with log_dict_record _ _ s => if decide (writes r) then Some s else None | _ => None end) rs.

Lemma get_record_hd e r : get_record e = Some r → get_hd e = record_hd r.
Proof. unfold get_record. intros H. repeat case_bool_decide; by simplify_eq. Qed.

Section recovery.
Context {V : Type → Type} `{!Vec V} `{!VecRedo V} {D : Type} `{!Dictionary D} {X : Type}.
Context (junk_r : relationship) (junk : list Z).
Notation db := (gdb V D X).
Implicit Types g : db.

(** The tables hold these images, and the positions up to [nn] and [nr] exist. *)
Record holds g (s : images) (nn nr : Z) : Prop := {
  hold_nrd : vec_rd (nodes_ g); hold_rrd : vec_rd (rships_ g);
  hold_ncap : vec_capacity (nodes_ g) = nn; hold_rcap : vec_capacity (rships_ g) = nr;
  hold_nodes : ∀ id, vec_get (nodes_ g) id = im_nodes s !! id;
  hold_rships : ∀ id, vec_get (rships_ g) id = im_rships s !! id
}.
(** Only the tables of objects and the dictionary differ. *)
Definition redone g g' : Prop := g' = set_gdict (dict_ g') (set_rships (rships_ g') (set_nodes (nodes_ g') g)).
Lemma redone_refl g : redone g g.
Proof. by destruct g. Qed.
Lemma redone_trans g1 g2 g3 : redone g1 g2 → redone g2 g3 → redone g1 g3.
Proof. unfold redone. destruct g1, g2, g3. cbn. intros [=] [=]. by subst. Qed.
(** The record belongs to a position that exists. *)
Definition within (nn nr : Z) (r : log_record) : Prop :=
  match r with
  | log_node_record _ oid _ _ => oid < nn
  | log_rship_record _ oid _ _ => oid < nr
  | _ => True
  end.

Lemma tab_remove_any {B} (v : V (tobj B pitems)) id : vec_rd v → 0 ≤ id < vec_capacity v →
  ∃ v', tab_remove id v = (v', Val tt) ∧ vec_rd v' ∧ vec_capacity v' = vec_capacity v
    ∧ ∀ j, vec_get v' j = if decide (j = id) then None else vec_get v j.
Proof.
  intros Hrd Hid. unfold tab_remove. rewrite (bind_val get_st _ v v v eq_refl), bool_decide_eq_false_2 by lia.
  by apply vec_erase_any.
Qed.

(** What one record does, by its object and its type. *)
Notation redo := (apply_redo (V:=V) (D:=D) (X:=X) junk_r).
Lemma redo_node_ok g s nn nr it h oid b a : get_record (it_entry it) = Some (log_node_record h oid b a) →
  holds g s nn nr → 0 ≤ oid < nn →
  ∃ g', redo it g = (g', Val tt) ∧ holds g' (replay junk_r s (log_node_record h oid b a)) nn nr ∧ redone g g' ∧ dict_ g' = dict_ g.
Proof.
  intros Hit [Hnrd Hrrd Hnc Hrc Hn Hr] Hid. unfold get_record in Hit. repeat case_bool_decide; simplify_eq.
  unfold apply_redo. rewrite (bool_decide_eq_true_2 (rec_obj _ = log_node)) by done. cbn [replay]. unfold writes, removes. cbn [record_hd].
  repeat case_bool_decide; repeat case_decide; try tauto.
  - unfold redo_node, on_nodes, try_catch.
    destruct (vec_store_at_ok (nodes_ g) (get_oid (it_entry it)) (redone_node (get_oid (it_entry it)) (get_node_image 72 (it_entry it))) Hnrd ltac:(lia))
      as (v & E & Hrd & Hc & Hg). rewrite E. eexists. split; [done|]. split_and!; [|by destruct g|by destruct g].
    split; cbn; try done. intros id. rewrite Hg. rewrite lookup_insert. repeat case_decide; by subst || done.
  - unfold on_nodes. destruct (tab_remove_any (nodes_ g) (get_oid (it_entry it)) Hnrd ltac:(lia)) as (v & E & Hrd & Hc & Hg). rewrite E.
    eexists. split; [done|]. split_and!; [|by destruct g|by destruct g].
    split; cbn; try done. intros id. rewrite Hg, lookup_delete. repeat case_decide; by subst || done.
  - exists g. split_and!; try done. apply redone_refl.
Qed.
Lemma redo_rship_ok g s nn nr it h oid b a : get_record (it_entry it) = Some (log_rship_record h oid b a) →
  holds g s nn nr → 0 ≤ oid < nr →
  ∃ g', redo it g = (g', Val tt) ∧ holds g' (replay junk_r s (log_rship_record h oid b a)) nn nr ∧ redone g g' ∧ dict_ g' = dict_ g.
Proof.
  intros Hit [Hnrd Hrrd Hnc Hrc Hn Hr] Hid. unfold get_record in Hit. repeat case_bool_decide; simplify_eq.
  unfold apply_redo. rewrite (bool_decide_eq_false_2 (rec_obj _ = log_node)), (bool_decide_eq_true_2 (rec_obj _ = log_rship)) by done.
  cbn [replay]. unfold writes, removes. cbn [record_hd].
  repeat case_bool_decide; repeat case_decide; try tauto.
  - unfold redo_rship, on_rships.
    destruct (vec_store_at_ok (rships_ g) (get_oid (it_entry it)) (redone_rship junk_r (get_rship_image 80 (it_entry it))) Hrrd ltac:(lia))
      as (v & E & Hrd & Hc & Hg). rewrite E. eexists. split; [done|]. split_and!; [|by destruct g|by destruct g].
    split; cbn; try done. intros id. rewrite Hg, lookup_insert. repeat case_decide; by subst || done.
  - unfold on_rships. destruct (tab_remove_any (rships_ g) (get_oid (it_entry it)) Hrrd ltac:(lia)) as (v & E & Hrd & Hc & Hg). rewrite E.
    eexists. split; [done|]. split_and!; [|by destruct g|by destruct g].
    split; cbn; try done. intros id. rewrite Hg, lookup_delete. repeat case_decide; by subst || done.
  - exists g. split_and!; try done. apply redone_refl.
Qed.

(** The dictionary knows these strings, and what it knew. *)
Definition learnt g (m : gmap Z str) (l : list str) g' : Prop :=
  ∃ m', d_has (dict_ g') m' ∧ m ⊆ m' ∧ ∀ s, s ∈ l → ∃ c, m' !! c = Some s.
Lemma redo_dict_ok g m it h c s rest : get_record (it_entry it) = Some (log_dict_record h c s) → d_has (dict_ g) m →
  dict_takes (dict_ g) (replayed_strings [log_dict_record h c s] ++ rest) →
  ∃ g' m', redo it g = (g', Val tt) ∧ nodes_ g' = nodes_ g ∧ rships_ g' = rships_ g ∧ redone g g'
    ∧ d_has (dict_ g') m' ∧ m ⊆ m' ∧ (∀ s', s' ∈ replayed_strings [log_dict_record h c s] → ∃ c', m' !! c' = Some s') ∧ dict_takes (dict_ g') rest.
Proof.
  intros Hit Hd Ht. unfold get_record in Hit. repeat case_bool_decide; simplify_eq.
  unfold apply_redo. rewrite (bool_decide_eq_false_2 (rec_obj _ = log_node)), (bool_decide_eq_false_2 (rec_obj _ = log_rship)), (bool_decide_eq_true_2 (rec_obj _ = log_dict)) by done.
  cbn -[get_hd get_str] in Ht |- *. unfold writes in *. cbn [record_hd] in *. case_bool_decide as Hw.
  - rewrite decide_True in Ht |- * by done. destruct Ht as (Hs & Hf & Ht).
    destruct (d_insert_ok (dict_ g) m (get_str (it_entry it)) Hd Hs Hf) as (d' & c' & E & Hd' & _ & Hc & _). rewrite E in Ht.
    exists (set_gdict d' g), (<[c' := get_str (it_entry it)]> m). split_and!; try done.
    + unfold mbind, M_bind, on_dict. by rewrite E.
    + destruct Hc as [Hc|Hc]; [by apply insert_subseteq|by rewrite insert_id].
    + intros s' ->%list_elem_of_singleton. exists c'. by rewrite lookup_insert_eq.
  - rewrite decide_False in Ht |- * by done. exists g, m. split_and!; try done.
    + by case_bool_decide.
    + apply redone_refl.
    + intros s' []%not_elem_of_nil.
Qed.

(** The loop over the log. *)
Notation step := (redo_step (V:=V) (D:=D) (X:=X) junk_r).
Lemma redo_steps_ok max_lsn its rs : Forall2 (λ it r, get_record (it_entry it) = Some r) its rs → Forall record_ok rs →
  ∀ g s nn nr m done_, let todo := filter (replays max_lsn) rs in
  holds g s nn nr → Forall (within nn nr) todo → d_has (dict_ g) m → dict_takes (dict_ g) (replayed_strings todo) →
  ∃ g', for_each (step max_lsn) its (done_, g) = ((done_ || negb (bool_decide (todo = [])), g'), Val tt)
    ∧ holds g' (foldl (replay junk_r) s todo) nn nr ∧ redone g g' ∧ learnt g m (replayed_strings todo) g'.
Proof.
  intros Hits Hrs. induction Hits as [|it r its rs Hit Hits IH]; intros g s nn nr m done_ todo Hh Hw Hd Ht; subst todo.
  { exists g. rewrite orb_false_r. split_and!; try done; [apply redone_refl|]. exists m. split_and!; try done. intros ? []%not_elem_of_nil. }
  apply Forall_cons in Hrs as [Hr Hrs]. rewrite for_each_cons.
  assert (step max_lsn it (done_, g) = if decide (replays max_lsn r) then let '(g', r') := redo it g in ((true, g'), r') else ((done_, g), Val tt)) as Es.
  { unfold redo_step, replays, when. rewrite (get_record_hd _ _ Hit). case_decide; [by rewrite bool_decide_eq_true_2|by rewrite bool_decide_eq_false_2]. }
  destruct (decide (replays max_lsn r)) as [Hp|Hp].
  2: { rewrite (bind_val _ _ _ _ _ Es). rewrite (filter_cons_False _ r) in * by done. by apply (IH Hrs). }
  rewrite (filter_cons_True _ r) in * by done. cbn [foldl]. apply Forall_cons in Hw as [Hwr Hw].
  set (todo := filter (replays max_lsn) rs) in *. change (r :: todo) with ([r] ++ todo) in *.
  unfold replayed_strings in *. rewrite omap_app in *. fold (replayed_strings [r]) (replayed_strings todo) in *.
  assert (∃ g' m', redo it g = (g', Val tt) ∧ holds g' (replay junk_r s r) nn nr ∧ redone g g' ∧ d_has (dict_ g') m' ∧ m ⊆ m'
    ∧ (∀ s', s' ∈ replayed_strings [r] → ∃ c', m' !! c' = Some s') ∧ dict_takes (dict_ g') (replayed_strings todo)) as (g1 & m1 & E & Hh1 & Hg1 & Hd1 & Hm1 & Hs1 & Ht1).
  { destruct r as [h c|h oid b a|h oid b a|h c s0|h].
    - destruct Hp as [_ Hp], Hr as [_ [_ Ho]]. done.
    - destruct (redo_node_ok g s nn nr it h oid b a Hit Hh) as (g1 & E & Hh1 & Hg1 & Ed); [destruct Hr as (_ & _ & [Ho _] & _); by split|].
      exists g1, m. rewrite Ed. split_and!; try done. intros ? []%not_elem_of_nil.
    - destruct (redo_rship_ok g s nn nr it h oid b a Hit Hh) as (g1 & E & Hh1 & Hg1 & Ed); [destruct Hr as (_ & _ & [Ho _] & _); by split|].
      exists g1, m. rewrite Ed. split_and!; try done. intros ? []%not_elem_of_nil.
    - destruct (redo_dict_ok g m it h c s0 _ Hit Hd Ht) as (g1 & m1 & E & En & Er & Hg1 & H1). exists g1, m1. split; [done|]. split; [|done].
      destruct Hh. by split; rewrite ?En, ?Er.
    - destruct Hp as [_ Hp], Hr as [_ [_ Ho]]. done. }
  destruct (IH Hrs g1 (replay junk_r s r) nn nr m1 true Hh1 Hw Hd1 Ht1) as (g2 & E2 & Hh2 & Hg2 & m2 & Hd2 & Hm2 & Hs2).
  exists g2. rewrite (bind_val _ _ (done_, g) (true, g1) tt) by (by rewrite Es, E). rewrite E2. split_and!.
  - by rewrite orb_true_r.
  - done.
  - by eapply redone_trans.
  - exists m2. split_and!; [done|by etrans|]. intros s' [Hs'|Hs']%elem_of_app; [|by apply Hs2].
    destruct (Hs1 s' Hs') as [c' Hc']. exists c'. by eapply lookup_weaken.
Qed.

Lemma analyze_steps_ok its rs : Forall2 (λ it r, get_record (it_entry it) = Some r) its rs → ∀ losers m, ∃ losers',
  for_each analyze its (losers, m)
  = ((losers', foldl (λ m r, if bool_decide (rec_type (record_hd r) = log_chkpt) then rec_lsn (record_hd r) else m) m rs), Val tt).
Proof.
  induction 1 as [|it r its rs Hit Hits IH]; intros losers m; [by eexists|]. rewrite for_each_cons.
  cbn [foldl]. assert (∃ l', analyze it (losers, m) = ((l', if bool_decide (rec_type (record_hd r) = log_chkpt) then rec_lsn (record_hd r) else m), Val tt)) as [l' E].
  { unfold analyze, modify. rewrite (get_record_hd _ _ Hit). case_bool_decide as E1.
    - rewrite (bool_decide_eq_false_2 (_ = log_chkpt)) by (by rewrite E1). repeat case_match; by eexists.
    - case_match; by eexists. }
  rewrite (bind_val _ _ _ _ _ E). apply IH.
Qed.

(** Closing writes the header over the old one. *)
Lemma close_header last last' offs bs p e :
  (wal_close false (mk_walog (Some (mk_cfile (file_hd last ++ bs) p e)) last' offs)).2 = Some (file_hd last' ++ bs).
Proof. unfold wal_close, fwrite. cbn -[file_hd]. by rewrite (drop_app_length' (file_hd last)) by done. Qed.
Lemma open_header last bs : fits 8 last → wal_open (Some (file_hd last ++ bs)) = wal_at (file_hd last ++ bs) last ∅.
Proof.
  intros Hl. unfold wal_open. rewrite take_app_length' by done. rewrite bool_decide_eq_true_2 by done.
  unfold wal_at. f_equal. unfold file_hd. rewrite (assoc_L (++)). rewrite <-(app_nil_r (le 8 last)). by apply un_le_app.
Qed.

(** C21: recovery succeeds on every log that a crash has cut off while records were
    written, if the positions of the records exist and the dictionary takes the
    strings.  Afterwards the tables are those of before with the records behind
    the last checkpoint replayed in their order, committed or not; the
    dictionary knows the strings; nothing else has changed.  The log ends with a
    checkpoint, when something was replayed. *)
Theorem recovery_redoes g s nn nr m last rs t :
  let todo := filter (replays (last_checkpoint rs)) rs in
  let bs := mjoin (record_bytes <$> rs) ++ t in
  let ckpt := log_checkpoint_record (mk_loghd log_chkpt log_none (u64 (last + 1)) 0 0) in
  fits 8 last → Forall record_ok rs → torn_ok t →
  holds g s nn nr → Forall (within nn nr) todo → d_has (dict_ g) m → dict_takes (dict_ g) (replayed_strings todo) →
  ∃ g', apply_log junk_r junk (Some (file_hd last ++ bs)) g
      = (g', Val (Some (if bool_decide (todo = []) then file_hd last ++ bs else file_hd (u64 (last + 1)) ++ bs ++ record_bytes ckpt)))
    ∧ holds g' (foldl (replay junk_r) s todo) nn nr ∧ redone g g' ∧ learnt g m (replayed_strings todo) g'.
Proof.
  intros todo bs ckpt Hl Hrs Ht Hh Hw Hd Htk. set (w0 := mk_walog None last ∅).
  assert (Forall2 (λ it r, get_record (it_entry it) = Some r) (visits rs file_hd_size []) rs) as Hits.
  { eapply Forall2_impl; [by apply visits_records|]. by intros it r [_ ?]. }
  unfold apply_log. rewrite open_header by done. set (all := file_hd last ++ bs).
  change (wal_at all last ∅) with (set_fp (Some (mk_cfile all (length all) false)) w0).
  destruct (wal_for_ok junk analyze rs t w0 (file_hd last) (∅, 0) Hrs Ht eq_refl (length all) false) as (w1 & (p1 & e1 & ->) & E1).
  fold bs all in E1. destruct (analyze_steps_ok _ _ Hits ∅ 0) as [losers Ea]. rewrite Ea in E1. rewrite E1.
  fold (last_checkpoint rs). set (max_lsn := last_checkpoint rs) in *.
  destruct (wal_for_ok junk (step max_lsn) rs t w0 (file_hd last) (false, g) Hrs Ht eq_refl p1 e1) as (w2 & (p2 & e2 & ->) & E2).
  fold bs all in E2. destruct (redo_steps_ok max_lsn _ _ Hits Hrs g s nn nr m false Hh Hw Hd Htk) as (g' & Er & Hh' & Hg' & Hl').
  rewrite Er in E2. rewrite E2. fold todo. exists g'. split; [|by split_and!].
  assert (∀ l x, for_each (λ '(txid, pos), apply_undo (V:=V) (D:=D) (X:=X) txid pos) l x = (x, Val tt)) as Hu.
  { induction l as [|[tx p] l IHl]; intros x; [done|]. rewrite for_each_cons. apply IHl. }
  cbn [orb]. destruct (bool_decide (todo = [])); cbn [negb when mret M_ret].
  - by rewrite Hu.
  - change (checkpoint (set_fp (Some (mk_cfile all p2 e2)) w0)) with (run_wal Checkpoint (wal_at all last ∅)).
    rewrite run_wal_ok, Hu. unfold wal_at, all. rewrite <-(assoc_L (++)). by rewrite close_header.
Qed.

(** Writing behind the end of a table. *)
Lemma redo_out g s nn nr it r : get_record (it_entry it) = Some r → writes r → ¬ within nn nr r → holds g s nn nr →
  redo it g = (g, Exn index_out_of_range).
Proof.
  intros Hit Hwr Hout [Hnrd Hrrd Hnc Hrc _ _]. pose proof (get_record_hd _ _ Hit) as Eh.
  unfold apply_redo. rewrite Eh. rewrite bool_decide_eq_true_2 by done. unfold get_record in Hit. rewrite Eh in Hit.
  destruct r as [h c|h oid b a|h oid b a|h c s0|h]; cbn [within record_hd] in *; try tauto; repeat case_bool_decide; simplify_eq; try done.
  - unfold redo_node, on_nodes, try_catch. rewrite vec_store_at_out by (done || lia). rewrite bool_decide_eq_true_2 by done. by destruct g.
  - unfold redo_rship, on_rships. rewrite vec_store_at_out by (done || lia). by destruct g.
Qed.

(** A record for a position behind the end of its table stops recovery, with
    whatever was replayed before it. *)
Theorem recovery_stops last rs t r rs' g s nn nr m : let max_lsn := last_checkpoint (rs ++ r :: rs') in
  fits 8 last → Forall record_ok (rs ++ r :: rs') → torn_ok t → replays max_lsn r → ¬ within nn nr r → writes r →
  let todo := filter (replays max_lsn) rs in
  holds g s nn nr → Forall (within nn nr) todo → d_has (dict_ g) m → dict_takes (dict_ g) (replayed_strings todo) →
  ∃ g', apply_log junk_r junk (Some (file_hd last ++ mjoin (record_bytes <$> rs ++ r :: rs') ++ t)) g = (g', Exn index_out_of_range).
Proof.
  intros max_lsn Hl Hrs Ht Hp Hout Hwr todo Hh Hw Hd Htk. set (w0 := mk_walog None last ∅).
  assert (Forall2 (λ it r, get_record (it_entry it) = Some r) (visits (rs ++ r :: rs') file_hd_size []) (rs ++ r :: rs')) as Hits.
  { eapply Forall2_impl; [by apply visits_records|]. by intros it x [_ ?]. }
  unfold apply_log. rewrite open_header by done.
  set (bs := mjoin (record_bytes <$> rs ++ r :: rs') ++ t). set (all := file_hd last ++ bs).
  change (wal_at all last ∅) with (set_fp (Some (mk_cfile all (length all) false)) w0).
  destruct (wal_for_ok junk analyze _ t w0 (file_hd last) (∅, 0) Hrs Ht eq_refl (length all) false) as (w1 & (p1 & e1 & ->) & E1).
  fold bs all in E1. destruct (analyze_steps_ok _ _ Hits ∅ 0) as [losers Ea]. rewrite Ea in E1. rewrite E1.
  fold (last_checkpoint (rs ++ r :: rs')). fold max_lsn.
  destruct (wal_for_ok junk (step max_lsn) _ t w0 (file_hd last) (false, g) Hrs Ht eq_refl p1 e1) as (w2 & (p2 & e2 & ->) & E2).
  fold bs all in E2. apply Forall2_app_inv_r in Hits as (its & its' & Hits & Hits' & Ev). rewrite Ev in E2.
  apply Forall2_cons_inv_r in Hits' as (it & its2 & Hit & Hits2 & ->). apply Forall_app in Hrs as [Hrs Hrs'].
  destruct (redo_steps_ok max_lsn _ _ Hits Hrs g s nn nr m false Hh Hw Hd Htk) as (g' & Er & Hh' & _ & _).
  rewrite for_each_app, (bind_val _ _ _ _ _ Er), for_each_cons in E2.
  assert (redo it g' = (g', Exn index_out_of_range)) as Eo by (by eapply redo_out).
  rewrite (bind_exn _ _ _ (true, g') index_out_of_range) in E2; [rewrite E2; by exists g'|].
  unfold redo_step. rewrite (get_record_hd _ _ Hit). rewrite bool_decide_eq_true_2 by done. cbn [when snd]. by rewrite Eo.
Qed.
End recovery.

(** ** Recovery of concrete databases

    A database with two nodes in memory and logs that are cut off after some
    transactions: what recovery restores, and three ways in which it does not. *)

#[export] Instance demo_redo : VecRedo mem_chunked_vec := chunked_vec_Redo 2 two_pos two_small.
Definition junk_rship : relationship := mk_rship 7 0 0 0 0 7 0.
Notation recover := (apply_log (V:=mem_chunked_vec) (D:=dict string_pool) (X:=index_map) junk_rship []).

(** A process writes to the log and dies; opening the log begins with recovery. *)
Definition session (os : list wal_op) (disk : option (list Z)) : option (list Z) :=
  f_bytes <$> log_fp_ (for_each run_wal os (wal_open disk)).1.
Definition opened (s : demo_gdb * option (list Z)) : demo_gdb * option (list Z) :=
  match recover s.2 s.1 with (g, Val d) => (g, d) | (g, Exn _) => (g, None) end.
Definition write_log (os : list wal_op) (s : demo_gdb * option (list Z)) : demo_gdb * option (list Z) := (s.1, session os s.2).

Definition lnode (id label : Z) : node := mk_node id UNKNOWN UNKNOWN UNKNOWN label.
Definition zero_nimage : node_image := mk_nimage 0 0 0 0.
Definition two_nodes : demo_gdb :=
  mk_gdb (table_of [new_tobj (lnode 0 1); new_tobj (lnode 1 1)]) vec_new vec_new vec_new demo_dict [] 0 [] None new_index_map.
(** Transaction [tx] gives the node [id] a label. *)
Definition relabel (tx id label : Z) : wal_op := Change tx (create_update_node_record 0 (lnode id 1) (lnode id label)).
Definition label_at (g : demo_gdb) (id : Z) : option Z := node_label ∘ body_ ∘ main_ <$> vec_get (nodes_ g) id.
Definition inserted_node : node := mk_node 1 UNKNOWN UNKNOWN 5 3.
Definition demo_ops : list wal_op :=
  [Begin 10; Change 10 (create_insert_node_record zero_nimage 0 inserted_node); relabel 10 0 11; Commit 10].
Definition demo_records : list log_record := written demo_ops 0 ∅ file_hd_size.

Lemma demo_records_ok : Forall record_ok demo_records.
Proof. repeat (apply Forall_cons; split); try apply Forall_nil; repeat split; vm_compute; congruence. Qed.

Lemma log_survives_crash_witness : Forall record_ok demo_records ∧ ∃ w bs,
  for_each run_wal demo_ops (wal_open None) = (w, Val tt) ∧ f_bytes <$> log_fp_ w = Some bs
  ∧ ∃ n its, (n = 1%nat) ∧ Forall2 (λ it r, get_record (it_entry it) = Some r) its (take n demo_records)
    ∧ ∀ X (body : log_iter → M X unit) x, ∃ w',
          wal_for [] body (wal_open (Some (take 100 bs)), x) = let '(x', r) := for_each body its x in ((w', x'), r).
Proof.
  split; [exact demo_records_ok|].
  destruct (log_survives_crash [] demo_ops demo_records_ok) as (w & bs & E & Eb & H). exists w, bs. split; [exact E|]. split; [exact Eb|].
  destruct (H 100%nat) as (n & its & H1 & H2 & Hits & Hf); [vm_compute; lia|]. exists n, its. split; [|by split].
  destruct n as [|[|n]]; [exfalso|done|exfalso].
  - destruct H2 as [H2|H2]; [discriminate H2|]. vm_compute in H2. lia.
  - fold demo_records in H1. rewrite (eq_refl : take (S (S n)) demo_records = take 2 demo_records ++ take n (drop 2 demo_records)) in H1.
    rewrite fmap_app, join_app, length_app in H1. change (length (mjoin (record_bytes <$> take 2 demo_records))) with 144%nat in H1.
    unfold file_hd_size in H1. lia.
Defined.

(** ** Recovery *)
Lemma two_nodes_hold : holds two_nodes (mk_images {[0 := new_tobj (lnode 0 1); 1 := new_tobj (lnode 1 1)]} ∅) 2 0.
Proof.
  split; [apply vec_ok_rd, table_of_ok|apply vec_ok_rd, vec_new_ok|done|done| |].
  - intros id. destruct (vec_get (nodes_ two_nodes) id) as [x|] eqn:E.
    + destruct (vec_get_bounds (nodes_ two_nodes) id x (vec_ok_rd _ (table_of_ok _)) E) as [H1 H2].
      change (vec_capacity (nodes_ two_nodes)) with 2 in H2. assert (id = 0 ∨ id = 1) as [-> | ->] by lia; by vm_compute in E |- *.
    + cbn [im_nodes]. assert (id ≠ 0 ∧ id ≠ 1) as [H0 H1] by (split; intros ->; by vm_compute in E).
      by rewrite lookup_insert_ne, lookup_singleton_ne by congruence.
  - intros id. change (vec_get (vec_new : mem_chunked_vec robj) id = (∅ : gmap Z robj) !! id). by rewrite lookup_empty, vec_new_get.
Qed.

Lemma recovery_redoes_witness : ∃ g',
  recover (Some (file_hd 0 ++ mjoin (record_bytes <$> demo_records) ++ [])) two_nodes
    = (g', Val (Some (file_hd 1 ++ (mjoin (record_bytes <$> demo_records) ++ []) ++ record_bytes (log_checkpoint_record (mk_loghd log_chkpt log_none 1 0 0)))))
  ∧ vec_get (nodes_ g') 1 = Some (new_tobj inserted_node) ∧ vec_get (nodes_ g') 0 = Some (new_tobj (lnode 0 11)).
Proof.
  destruct (recovery_redoes junk_rship [] two_nodes (mk_images {[0 := new_tobj (lnode 0 1); 1 := new_tobj (lnode 1 1)]} ∅) 2 0 ∅ 0 demo_records [])
    as (g' & E & Hh & _).
  - by vm_compute.
  - exact demo_records_ok.
  - by left.
  - exact two_nodes_hold.
  - repeat (apply Forall_cons; split); try apply Forall_nil; by vm_compute.
  - exact demo_dict_has.
  - exact I.
  - exists g'. split; [exact E|]. rewrite !(hold_nodes _ _ _ _ Hh). split; by vm_compute.
Defined.
Lemma recovery_stops_witness : ∃ g',
  recover (Some (file_hd 0 ++ mjoin (record_bytes <$> [] ++ written [relabel 10 2 11] 0 ∅ file_hd_size) ++ [])) two_nodes = (g', Exn index_out_of_range).
Proof.
  apply (recovery_stops junk_rship [] 0 [] [] (set_record_hd 1 10 0 (create_update_node_record 0 (lnode 2 1) (lnode 2 11))) [] two_nodes
    (mk_images {[0 := new_tobj (lnode 0 1); 1 := new_tobj (lnode 1 1)]} ∅) 2 0 ∅).
  - by vm_compute.
  - repeat (apply Forall_cons; split); try apply Forall_nil; repeat split; vm_compute; congruence.
  - by left.
  - by vm_compute.
  - by vm_compute.
  - by right.
  - exact two_nodes_hold.
  - constructor.
  - exact demo_dict_has.
  - exact I.
Defined.

(** ** What recovery gets wrong *)

(** After a crash the sequence numbers start again at the header's, which is
    only written when the log is closed.  Transaction 10 gives the node 0 the
    label 3 and transaction 20, which begins after recovery and commits, the
    label 9.  The third recovery afterwards skips the record of 20, as its
    number is not above the checkpoint's, and replays the older one of 10. *)
Theorem recovery_reverts_commit :
  let t10 := [Begin 10; relabel 10 1 5; relabel 10 1 6; relabel 10 0 3; Commit 10] in
  let t20 := [Begin 20; relabel 20 0 9; Commit 20] in
  let s1 := opened (write_log t10 (two_nodes, None)) in
  let s2 := opened (write_log t20 s1) in
  let s3 := opened s2 in
  label_at s1.1 0 = Some 3 ∧ label_at s2.1 0 = Some 9 ∧ label_at s3.1 0 = Some 9 ∧ label_at (opened s3).1 0 = Some 3.
Proof. split_and!; vm_compute; reflexivity. Qed.
(** A transaction that did not commit is redone. *)
Theorem recovery_redoes_loser :
  label_at (opened (write_log [Begin 10; relabel 10 0 11] (two_nodes, None))).1 0 = Some 11.
Proof. vm_compute. reflexivity. Qed.
(** A checkpoint written behind a record that was cut off is read as the rest of
    that record; with two more records the next recovery reads a record of no
    known type and size. *)
Definition torn_log : option (list Z) := take 180 <$> session [Begin 10; relabel 10 1 5; relabel 10 0 11; Commit 10] None.
Theorem checkpoint_behind_torn_record :
  let s1 := opened (two_nodes, torn_log) in
  let s2 := write_log [Begin 20; Commit 20] s1 in
  label_at s1.1 0 = Some 1 ∧ label_at s1.1 1 = Some 5 ∧ (recover s2.2 s2.1).2 = Exn undefined_behaviour.
Proof. split_and!; vm_compute; reflexivity. Qed.
