(* ===== verification/Csr.v ===== *)
(** * Csr: the graph as arrays of compressed rows (src/analytics/graph_db_analytics.cpp)

    [host_csr_build] copies the graph a transaction sees into three arrays: the
    neighbours of all nodes one behind the other, the weights of the
    relationships, and for every node the offset of its first neighbour.  With
    CSR_DELTA every commit leaves records of what it changed in a delta store
    (src/storage/csr_delta.hpp, .cpp), and [host_csr_update_with_delta] makes
    the next arrays from the last ones and the merged records.  ADJ_DELTA keeps
    the new neighbours of a changed node, DIFF_DELTA those inserted and deleted.

    Records of the delta store are only appended and cleared, so their chunked
    vector is the list of what was stored.  [reserve] changes no contents. *)

From Stdlib Require Import SpecFloat.
From stdpp Require Import sorting.
From S2P Require Import Prelude VecSpec Txn DictSpec IndexSpec Literals Property PropertyList GraphState GraphOps QueryCtx.

Notation double := spec_float.
Notation float := spec_float.
(** The conversion of a double to a float rounds to 24 bits. *)
Definition to_float (d : double) : float :=
  match d with S754_finite s m e => binary_normalize 24 128 (cond_Zopp s (Zpos m)) e s | _ => d end.

Record csr_arrays : Type := mk_csr { row_offsets : list Z; col_indices : list Z; edge_values : list float }.
Definition new_csr : csr_arrays := mk_csr [] [] [].
Definition push_row (o : Z) (c : csr_arrays) : csr_arrays := mk_csr (row_offsets c ++ [o]) (col_indices c) (edge_values c).
Definition push_edges (cols : list Z) (vals : list float) (c : csr_arrays) : csr_arrays :=
  mk_csr (row_offsets c) (col_indices c ++ cols) (edge_values c ++ vals).

(** [for (offset_t i = 0; i < n; i++) body(i)] *)
Definition for_upto {S} (n : Z) (body : Z → M S unit) : M S unit := for_each body (seqZ 0 n).

(** ** Building the arrays *)
Section build.
Context {V : Type → Type} `{!Vec V} `{!VecUsed V} {D : Type} `{!Dictionary D} {X : Type} `{!Indexes X}.
Notation db := (gdb V D X).
Context (weight_func : relationship → double).
(** The arrays and the counter [edges]. *)
Notation st := (db * (csr_arrays * Z))%type.
Definition on_csr (f : csr_arrays * Z → csr_arrays * Z) : M st unit := modify (λ s, (s.1, f s.2)).

Definition csr_rship (target : relationship → Z) (r : oref) : M st unit :=
  o ← on_fst (rship_ref r);
  on_csr (λ c, (push_edges [target (body_ o)] [to_float (weight_func (body_ o))] c.1, u64 (c.2 + 1))).
(** One of the two loops over the list of a node. *)
Definition csr_list (next target : relationship → Z) (txid first : Z) : M st unit :=
  f ← on_fst list_fuel; rship_loop next (λ o, is_valid_for o txid) (csr_rship target) f first.
Definition csr_node (txid : Z) (bidirectional : bool) (nid : Z) : M st unit :=
  s ← get_st;
  used ← lift_res (vec_is_used (nodes_ s.1) nid);
  when used
    (n ← on_fst (node_by_id nid);
     o ← on_fst (node_ref n);
     csr_list next_src_rship dest_node txid (from_rship_list (body_ o));;
     when bidirectional
       (o ← on_fst (node_ref n); csr_list next_dest_rship src_node txid (to_rship_list (body_ o))));;
  on_csr (λ c, (push_row c.2 c.1, c.2)).
Definition host_csr_build (bidirectional : bool) : M (db * csr_arrays) unit := λ s,
  let '((g, (c, _)), r) :=
    (txid ← on_fst tx_xid;
     s ← get_st;
     let max_num_nodes := u64 (vec_last_used (nodes_ s.1) + 1) in
     on_csr (λ c, (push_row 0 c.1, c.2));;
     for_upto max_num_nodes (csr_node txid bidirectional)) (s.1, (s.2, 0)) in
  ((g, c), r).
End build.

(** ** Arrays made from old ones *)
Section update.
(** A range of an array. *)
Definition range_of {A} (l : list A) (i n : Z) : res (list A) :=
  if bool_decide (0 ≤ i ∧ 0 ≤ n ∧ i + n ≤ Z.of_nat (length l))
  then Val (take (Z.to_nat n) (drop (Z.to_nat i) l)) else Exn undefined_behaviour.

(** The new arrays and [next_nid]. *)
Notation st := (csr_arrays * Z)%type.
Definition add_row (cols : list Z) (vals : list float) : M st unit :=
  s ← get_st; b ← lift_res (back (row_offsets s.1));
  modify (λ s, (push_edges cols vals (push_row (u64 (b + Z.of_nat (length cols))) s.1), u64 (s.2 + 1))).
(** An unchanged node: its row is copied. *)
Definition copy_row (old : csr_arrays) : M st unit :=
  s ← get_st;
  hi ← lift_res (elem (row_offsets old) (s.2 + 1)); lo ← lift_res (elem (row_offsets old) s.2);
  let edges := u64 (hi - lo) in
  b ← lift_res (back (row_offsets s.1));
  cols ← lift_res (range_of (col_indices old) lo edges);
  vals ← lift_res (range_of (edge_values old) lo edges);
  modify (λ s, (push_edges cols vals (push_row (u64 (b + edges)) s.1), u64 (s.2 + 1))).
(** [while (next_nid < nid)] *)
Definition while_before (nid : Z) (body : M st unit) : M st unit :=
  s ← get_st; for_each (λ _, body) (seqZ (s.2) (nid - s.2)).
(** The rest of the old arrays behind the last changed node. *)
Definition copy_rest (old : csr_arrays) : M st unit :=
  s ← get_st;
  lo ← lift_res (elem (row_offsets old) s.2);
  cols ← lift_res (range_of (col_indices old) lo (Z.of_nat (length (col_indices old)) - lo));
  vals ← lift_res (range_of (edge_values old) lo (Z.of_nat (length (edge_values old)) - lo));
  modify (λ s, (push_edges cols vals s.1, s.2));;
  while_before (Z.of_nat (length (row_offsets old)) - 1)
    (s ← get_st;
     hi ← lift_res (elem (row_offsets old) (s.2 + 1)); lo ← lift_res (elem (row_offsets old) s.2);
     b ← lift_res (back (row_offsets s.1));
     modify (λ s, (push_row (u64 (b + u64 (hi - lo))) s.1, u64 (s.2 + 1)))).
(** A position no node uses. *)
Definition empty_row : M st unit :=
  s ← get_st; b ← lift_res (back (row_offsets s.1)); modify (λ s, (push_row b s.1, u64 (s.2 + 1))).

(** Both configurations: [changed] and [added] are the entries of the delta map
    up to the last node of the old arrays and behind it, in order; [changed_row]
    makes the row of a changed node, [row] that of a new one. *)
Definition update_arrays {E} (old : csr_arrays) (changed added : list (Z * E))
    (changed_row : E → M st (list Z * list float)) (row : E → list Z * list float) : M st unit :=
  modify (λ s, (push_row 0 s.1, s.2));;
  for_each (λ '(nid, d), while_before nid (copy_row old);; r ← changed_row d; add_row r.1 r.2) changed;;
  copy_rest old;;
  for_each (λ '(nid, d), while_before nid empty_row;; add_row (row d).1 (row d).2) added.
End update.

(** ** The delta store *)
Record delta_store (R P : Type) : Type := mk_ds {
  bidirectional_ : bool;
  last_node_id_ : Z;
  last_txn_id_ : Z;
  delta_mode_ : bool;
  num_delta_recs_ : Z;
  max_delta_recs_ : Z;
  delta_recs_ : list R;
  delta_data : P;             (* the vectors the records point into *)
  current_csr : csr_arrays    (* [row_offsets_], [col_indices_], [edge_values_] *)
}.
Arguments mk_ds {R P}.
Arguments bidirectional_ {R P}. Arguments last_node_id_ {R P}. Arguments last_txn_id_ {R P}. Arguments delta_mode_ {R P}.
Arguments num_delta_recs_ {R P}. Arguments max_delta_recs_ {R P}. Arguments delta_recs_ {R P}. Arguments delta_data {R P}. Arguments current_csr {R P}.

Section store.
Context {R P : Type}.
Notation ds := (delta_store R P).
Implicit Types d : ds.
Definition new_delta_store (bidirectional : bool) (p : P) : ds :=
  mk_ds bidirectional UNKNOWN UNKNOWN true 0 18174889 [] p new_csr.
Definition set_recs (n : Z) (l : list R) d : ds :=
  mk_ds (bidirectional_ d) (last_node_id_ d) (last_txn_id_ d) (delta_mode_ d) n (max_delta_recs_ d) l (delta_data d) (current_csr d).
Definition set_mode (b : bool) d : ds :=
  mk_ds (bidirectional_ d) (last_node_id_ d) (last_txn_id_ d) b (num_delta_recs_ d) (max_delta_recs_ d) (delta_recs_ d) (delta_data d) (current_csr d).
Definition set_data (p : P) d : ds :=
  mk_ds (bidirectional_ d) (last_node_id_ d) (last_txn_id_ d) (delta_mode_ d) (num_delta_recs_ d) (max_delta_recs_ d) (delta_recs_ d) p (current_csr d).
Definition store_rec (r : R) d : ds := set_recs (u64 (num_delta_recs_ d + 1)) (delta_recs_ d ++ [r]) d.
Definition clear_deltas d : ds := set_mode true (set_recs 0 [] d).
(** The new arrays become the current ones. *)
Definition set_csr (txid : Z) (c : csr_arrays) d : ds :=
  mk_ds (bidirectional_ d) (u64 (Z.of_nat (length (row_offsets c)) - 2)) txid (delta_mode_ d) (num_delta_recs_ d)
    (max_delta_recs_ d) (delta_recs_ d) (delta_data d) c.

(** The end of [host_csr_build]: which records the new arrays contain. *)
Context (rec_txid : R → Z) (set_merged : R → R).
Definition after_build (txid : Z) (c : csr_arrays) d : ds :=
  let recs := (λ r, if bool_decide (rec_txid r < txid) then set_merged r else r) <$> delta_recs_ d in
  let clear := forallb (λ r, negb (bool_decide (txid < rec_txid r))) (delta_recs_ d) in
  let d1 := set_csr txid c (set_recs (num_delta_recs_ d) recs d) in
  if clear then clear_deltas d1 else d1.

(** ** Merging: the loop over the records with its local variables

    [merge_rec] is what a configuration does with a record that counts, given
    the transaction of the node's last merged record. *)
Context {E : Type} (rec_merged : R → bool).
Record merge_state : Type := mk_merge { ms_recs : list R; ms_deltas : gmap Z E; nid_to_txid : gmap Z Z; ms_clear : bool }.
Context (merge_rec : R → M merge_state unit).
Definition merge_step (last txid : Z) (r : R) : M merge_state unit :=
  if bool_decide (txid < rec_txid r)
  then modify (λ s, mk_merge (ms_recs s ++ [r]) (ms_deltas s) (nid_to_txid s) false)
  else if bool_decide (rec_txid r < last) && rec_merged r
  then modify (λ s, mk_merge (ms_recs s ++ [r]) (ms_deltas s) (nid_to_txid s) (ms_clear s))
  else merge_rec r.
Definition merge_deltas (txid : Z) d : res (ds * gmap Z E) :=
  match for_each (merge_step (last_txn_id_ d) txid) (delta_recs_ d) (mk_merge [] ∅ ∅ true) with
  | (_, Exn e) => Exn e
  | (s, Val _) =>
    let d1 := set_recs (num_delta_recs_ d) (ms_recs s) d in
    Val (if ms_clear s then clear_deltas d1 else d1, ms_deltas s)
  end.
End store.
Arguments mk_merge {R E}. Arguments ms_recs {R E}. Arguments ms_deltas {R E}. Arguments nid_to_txid {R E}. Arguments ms_clear {R E}.

(** The entries of a [std::map] in order. *)
Definition entries_in_order {E} (m : gmap Z E) : list (Z * E) :=
  omap (λ k, pair k <$> m !! k) (merge_sort Z.le (map_to_list m).*1).

(** ** ADJ_DELTA *)
Record adj_rec : Type := mk_adj { ar_txid : Z; ar_node : Z; ar_pos : Z; ar_count : Z; ar_merged : bool }.
Definition adj_set_merged (r : adj_rec) : adj_rec := mk_adj (ar_txid r) (ar_node r) (ar_pos r) (ar_count r) true.
Record adj_data : Type := mk_adata { ad_ids : list Z; ad_weights : list double; next_pos_ : Z }.
Notation adj_store := (delta_store adj_rec adj_data).
(** [delta]: the neighbours and the weights. *)
Notation adj_delta := (list Z * list double)%type.

Definition store_delta (txid nid : Z) (ids : list Z) (weights : list double) (d : adj_store) : adj_store :=
  let p := delta_data d in
  store_rec (mk_adj txid nid (next_pos_ p) (s32 (Z.of_nat (length ids))) false)
    (set_data (mk_adata (ad_ids p ++ ids) (ad_weights p ++ weights) (u64 (next_pos_ p + Z.of_nat (length ids)))) d).
Definition adj_content (p : adj_data) (r : adj_rec) : res adj_delta :=
  ids ← range_of (ad_ids p) (ar_pos r) (ar_count r); ws ← range_of (ad_weights p) (ar_pos r) (ar_count r); Val (ids, ws).
(** The first record of a node, one of a newer transaction, and others, which
    are not marked as merged. *)
Definition adj_merge (p : adj_data) (r : adj_rec) : M (merge_state (R:=adj_rec) (E:=adj_delta)) unit :=
  s ← get_st;
  let take_it :=
    c ← lift_res (adj_content p r);
    modify (λ s, mk_merge (ms_recs s ++ [adj_set_merged r]) (<[ar_node r := c]> (ms_deltas s))
                          (<[ar_node r := ar_txid r]> (nid_to_txid s)) (ms_clear s)) in
  match nid_to_txid s !! ar_node r with
  | None => take_it
  | Some t =>
    if bool_decide (t < ar_txid r) then take_it
    else modify (λ s, mk_merge (ms_recs s ++ [r]) (ms_deltas s) (nid_to_txid s) (ms_clear s))
  end.
Definition adj_merge_deltas (txid : Z) (d : adj_store) : res (adj_store * gmap Z adj_delta) :=
  merge_deltas ar_txid ar_merged (adj_merge (delta_data d)) txid d.
Definition adj_row (d : adj_delta) : list Z * list float := (d.1, to_float <$> d.2).
Definition adj_update (lnid : Z) (old : csr_arrays) (deltas : gmap Z adj_delta) : M csr_arrays unit := λ c,
  let es := entries_in_order deltas in
  let '((c', _), r) := update_arrays old (filter (λ e, e.1 ≤ lnid) es) (filter (λ e, lnid < e.1) es)
    (λ d, mret (adj_row d)) adj_row (c, 0) in (c', r).

(** ** DIFF_DELTA *)
Record diff_rec : Type := mk_diff {
  dr_txid : Z; dr_node : Z; dr_deleted : bool;
  deletes_pos_ : Z; deletes_count_ : Z; inserts_pos_ : Z; inserts_count_ : Z;
  dr_merged : bool
}.
Definition diff_set_merged (r : diff_rec) : diff_rec :=
  mk_diff (dr_txid r) (dr_node r) (dr_deleted r) (deletes_pos_ r) (deletes_count_ r) (inserts_pos_ r) (inserts_count_ r) true.
Definition diff_set_inserts (pos n : Z) (r : diff_rec) : diff_rec :=
  mk_diff (dr_txid r) (dr_node r) (dr_deleted r) (deletes_pos_ r) (deletes_count_ r) pos n (dr_merged r).
Record diff_data : Type := mk_ddata {
  dd_deletes : list Z; dd_inserts : list Z; dd_weights : list double; next_deletes_pos_ : Z; next_inserts_pos_ : Z }.
Notation diff_store := (delta_store diff_rec diff_data).
Record diff_delta : Type := mk_ddelta { deleted_ : bool; deletes_ : list Z; inserts_ : list Z; weights_ : list double }.

(** [delta_ids] of a transaction and its operations; both maps in order. *)
Record diff_ids : Type := mk_dids {
  dn_deleted : list Z; deleted_neighbours_ : gmap Z (list Z); inserted_neighbours_ : gmap Z (list Z * list double) }.
Definition diff_add_deleted_node (nid : Z) (t : diff_ids) : diff_ids :=
  mk_dids (dn_deleted t ++ [nid]) (delete nid (deleted_neighbours_ t)) (inserted_neighbours_ t).
Definition diff_add_deleted_neighbour (nid id : Z) (t : diff_ids) : diff_ids :=
  mk_dids (dn_deleted t) (<[nid := default [] (deleted_neighbours_ t !! nid) ++ [id]]> (deleted_neighbours_ t)) (inserted_neighbours_ t).
Definition diff_add_inserted_node (nid : Z) (t : diff_ids) : diff_ids :=
  mk_dids (dn_deleted t) (deleted_neighbours_ t) (<[nid := default ([], []) (inserted_neighbours_ t !! nid)]> (inserted_neighbours_ t)).
Definition diff_add_inserted_neighbour (nid id : Z) (w : double) (t : diff_ids) : diff_ids :=
  let e := default ([], []) (inserted_neighbours_ t !! nid) in
  mk_dids (dn_deleted t) (deleted_neighbours_ t) (<[nid := (e.1 ++ [id], e.2 ++ [w])]> (inserted_neighbours_ t)).

(** [store_deltas]; the members that are not initialised hold [junk].  The third
    loop completes the records of the second one, which follow those of the
    deleted nodes. *)
Definition store_deltas (junk txid : Z) (t : diff_ids) (d : diff_store) : diff_store :=
  let d1 := foldl (λ d nid, store_rec (mk_diff txid nid true junk 0 junk 0 false) d) d (dn_deleted t) in
  let start := length (delta_recs_ d1) in
  let d2 := foldl (λ d '(nid, dels),
      let p := delta_data d in
      store_rec (mk_diff txid nid false (next_deletes_pos_ p) (s32 (Z.of_nat (length dels))) junk 0 false)
        (set_data (mk_ddata (dd_deletes p ++ dels) (dd_inserts p) (dd_weights p)
                     (u64 (next_deletes_pos_ p + Z.of_nat (length dels))) (next_inserts_pos_ p)) d))
    d1 (entries_in_order (deleted_neighbours_ t)) in
  foldl (λ d '(nid, (ids, ws)),
      let p := delta_data d in
      let pos := next_inserts_pos_ p in
      let n := Z.of_nat (length ids) in
      let d' := set_data (mk_ddata (dd_deletes p) (dd_inserts p ++ ids) (dd_weights p ++ ws) (next_deletes_pos_ p) (u64 (pos + n))) d in
      match list_find (λ e, e.1 = nid) (entries_in_order (deleted_neighbours_ t)) with
      | Some (i, _) => set_recs (num_delta_recs_ d') (alter (diff_set_inserts pos (s32 n)) (start + i)%nat (delta_recs_ d')) d'
      | None => store_rec (mk_diff txid nid false junk 0 pos (s32 n) false) d'
      end)
    d2 (entries_in_order (inserted_neighbours_ t)).
Definition diff_content (p : diff_data) (r : diff_rec) : res (list Z * list Z * list double) :=
  dels ← range_of (dd_deletes p) (if bool_decide (deletes_count_ r = 0) then 0 else deletes_pos_ r) (deletes_count_ r);
  let ipos := if bool_decide (inserts_count_ r = 0) then 0 else inserts_pos_ r in
  ins ← range_of (dd_inserts p) ipos (inserts_count_ r);
  ws ← range_of (dd_weights p) ipos (inserts_count_ r); Val (dels, ins, ws).
(** The first record of a node starts its entry; every other one is appended,
    records of the same transaction excepted. *)
Definition diff_merge (p : diff_data) (r : diff_rec) : M (merge_state (R:=diff_rec) (E:=diff_delta)) unit :=
  s ← get_st;
  let node := dr_node r in
  match nid_to_txid s !! node with
  | None =>
    (* [emplace] *)
    let e := default (mk_ddelta (dr_deleted r) [] [] []) (ms_deltas s !! node) in
    c ← (if deleted_ e then mret e
         else c ← lift_res (diff_content p r);
              mret (mk_ddelta (deleted_ e) (deletes_ e ++ c.1.1) (inserts_ e ++ c.1.2) (weights_ e ++ c.2)));
    modify (λ s, mk_merge (ms_recs s ++ [diff_set_merged r]) (<[node := c]> (ms_deltas s))
                          (<[node := dr_txid r]> (nid_to_txid s)) (ms_clear s))
  | Some t =>
    if bool_decide (t = dr_txid r) then modify (λ s, mk_merge (ms_recs s ++ [r]) (ms_deltas s) (nid_to_txid s) (ms_clear s))
    else
      let e := default (mk_ddelta false [] [] []) (ms_deltas s !! node) in
      c ← (if dr_deleted r then mret (mk_ddelta true (deletes_ e) (inserts_ e) (weights_ e))
           else c ← lift_res (diff_content p r);
                mret (mk_ddelta (deleted_ e) (deletes_ e ++ c.1.1) (inserts_ e ++ c.1.2) (weights_ e ++ c.2)));
      modify (λ s, mk_merge (ms_recs s ++ [diff_set_merged r]) (<[node := c]> (ms_deltas s))
                            (if bool_decide (t < dr_txid r) then <[node := dr_txid r]> (nid_to_txid s) else nid_to_txid s) (ms_clear s))
  end.
Definition diff_merge_deltas (txid : Z) (d : diff_store) : res (diff_store * gmap Z diff_delta) :=
  merge_deltas dr_txid dr_merged (diff_merge (delta_data d)) txid d.
(** Taking the deleted neighbours out of the copy of a row. *)
Fixpoint erase_deleted (dels cols : list Z) (vals : list float) : res (list Z * list float) :=
  match cols, vals with
  | [], _ => Val ([], vals)
  | c :: cols', v :: vals' =>
    r ← erase_deleted dels cols' vals';
    Val (if bool_decide (c ∈ dels) then r else (c :: r.1, v :: r.2))
  | _ :: _, [] => Exn undefined_behaviour
  end.
Definition diff_row (d : diff_delta) : list Z * list float := (inserts_ d, to_float <$> weights_ d).
Definition diff_changed_row (old : csr_arrays) (d : diff_delta) : M (csr_arrays * Z) (list Z * list float) :=
  s ← get_st;
  hi ← lift_res (elem (row_offsets old) (s.2 + 1)); lo ← lift_res (elem (row_offsets old) s.2);
  let edges := u64 (hi - lo) in
  cols ← lift_res (range_of (col_indices old) lo edges);
  vals ← lift_res (range_of (edge_values old) lo edges);
  r ← lift_res (erase_deleted (deletes_ d) (cols ++ inserts_ d) (vals ++ weights_ d));
  mret (r.1, to_float <$> r.2).
Definition diff_update (lnid : Z) (old : csr_arrays) (deltas : gmap Z diff_delta) : M csr_arrays unit := λ c,
  let es := entries_in_order deltas in
  let '((c', _), r) := update_arrays old (filter (λ e, e.1 ≤ lnid) es) (filter (λ e, lnid < e.1) es)
    (diff_changed_row old) diff_row (c, 0) in (c', r).

(** ** The operations of [graph_db] *)
Section ops.
Context {V : Type → Type} `{!Vec V} `{!VecUsed V} `{!VecScan V} {D : Type} `{!Dictionary D} {X : Type} `{!Indexes X}.
Notation db := (gdb V D X).
Context (weight_func : relationship → double).
Section delta.
(** A configuration: [merge_deltas] and how it makes the new arrays. *)
Context {R P E : Type} (rec_txid : R → Z) (set_merged : R → R).
Context (merge : Z → delta_store R P → res (delta_store R P * gmap Z E)).
Context (update : Z → csr_arrays → gmap Z E → M csr_arrays unit).
Notation st := (delta_store R P * (db * csr_arrays))%type.
(** [host_csr_build] with CSR_DELTA. *)
Definition delta_csr_build (weight : relationship → double) (bidirectional : bool) : M st unit :=
  on_snd (host_csr_build weight bidirectional);;
  txid ← on_snd (on_fst tx_xid);
  modify (λ s, (after_build rec_txid set_merged txid s.2.2 s.1, s.2)).
Definition host_csr_update_with_delta : M st unit :=
  s ← get_st;
  match current_transaction_ s.2.1 with
  | None => throw out_of_transaction_scope
  | Some tx =>
    let txid := xid_ tx in
    let d := s.1 in
    if bool_decide (last_txn_id_ d = UNKNOWN) then delta_csr_build weight_func (bidirectional_ d)
    else if bool_decide (txid < last_txn_id_ d) then throw invalid_csr_update
    else
      m ← lift_res (merge txid d);
      modify (λ s, (m.1, s.2));;
      if bool_decide (m.2 = ∅) then mret tt
      else
        on_snd (on_snd (update (last_node_id_ m.1) (current_csr m.1) m.2));;
        modify (λ s, (set_csr txid s.2.2 s.1, s.2))
  end.
Definition poseidon_to_csr (weight : relationship → double) (bidirectional : bool) : M st unit :=
  s ← get_st;
  if delta_mode_ s.1 then host_csr_update_with_delta else delta_csr_build weight bidirectional.
End delta.

(** *** What commit leaves in the store *)

(** [delta_ids] with ADJ_DELTA. *)
Record adj_ids : Type := mk_aids { updated_nodes_ : list Z; an_deleted : gset Z; deleted_rships_ : gset Z }.
Definition add_updated_node (nid : Z) (t : adj_ids) : adj_ids := mk_aids (updated_nodes_ t ++ [nid]) (an_deleted t) (deleted_rships_ t).
Definition adj_add_deleted_node (nid : Z) (t : adj_ids) : adj_ids := mk_aids (updated_nodes_ t) ({[nid]} ∪ an_deleted t) (deleted_rships_ t).
Definition add_deleted_rship (rid : Z) (t : adj_ids) : adj_ids := mk_aids (updated_nodes_ t) (an_deleted t) ({[rid]} ∪ deleted_rships_ t).

(** The neighbours on one list of a node, in the tables themselves. *)
Fixpoint adj_list (next target : relationship → Z) (deleted : gset Z) (fuel : nat) (rid : Z) : M (db * adj_delta) unit :=
  match fuel with
  | O => throw no_return
  | S f =>
    if bool_decide (rid = UNKNOWN) then mret tt
    else
      o ← on_fst (at_rship rid (self Main));
      when (bool_decide (rid ∉ deleted))
        (modify (λ s, (s.1, (s.2.1 ++ [target (body_ o)], s.2.2 ++ [weight_func (body_ o)]))));;
      adj_list next target deleted f (next (body_ o))
  end.
Definition adj_of_node (bidirectional : bool) (t : adj_ids) (nid : Z) : M (db * adj_delta) unit :=
  o ← on_fst (at_node nid (self Main));
  when (bool_decide (nid ∉ an_deleted t))
    (f ← on_fst list_fuel;
     adj_list next_src_rship dest_node (deleted_rships_ t) f (from_rship_list (body_ o));;
     when bidirectional (adj_list next_dest_rship src_node (deleted_rships_ t) f (to_rship_list (body_ o)))).
Definition store_adj_deltas (xid : Z) (t : adj_ids) : M (adj_store * db) unit :=
  s ← get_st;
  let d := s.1 in
  if negb (delta_mode_ d) then mret tt
  else if bool_decide (max_delta_recs_ d < u64 (num_delta_recs_ d + Z.of_nat (length (updated_nodes_ t))))
  then modify (λ s, (set_mode false s.1, s.2))
  else
    for_each (λ nid s,
      let '((g, a), r) := adj_of_node (bidirectional_ s.1) t nid (s.2, ([], [])) in
      match r with
      | Val _ => ((store_delta xid nid a.1 a.2 s.1, g), Val tt)
      | Exn e => ((s.1, g), Exn e)
      end) (updated_nodes_ t).
Definition store_diff_deltas (junk xid : Z) (t : diff_ids) (d : diff_store) : diff_store :=
  let count := u64 (num_delta_recs_ d + Z.of_nat (length (dn_deleted t)) + Z.of_nat (size (deleted_neighbours_ t))
                    + Z.of_nat (length (filter (λ e, deleted_neighbours_ t !! e.1 = None) (entries_in_order (inserted_neighbours_ t))))) in
  if negb (delta_mode_ d) then d
  else if bool_decide (max_delta_recs_ d < count) then set_mode false d
  else store_deltas junk xid t d.

(** *** Edge lists *)

(** [poseidon_to_coo]: every record of the table, with its weight. *)
Definition poseidon_to_coo (bidirectional : bool) : M (db * list (Z * Z * float)) unit :=
  for_vec rships_ (λ l,
    t ← rship_at l;
    let r := body_ (main_ t) in
    let w := to_float (weight_func r) in
    modify (λ s, (s.1, s.2 ++ [(src_node r, dest_node r, w)]));;
    when bidirectional (modify (λ s, (s.1, s.2 ++ [(dest_node r, src_node r, w)])))).
End ops.
