(* ===== verification/CsrFacts.v ===== *)
(** * CsrFacts: the arrays of compressed rows

    The arrays stand for a list of rows, the neighbours and the weights of each
    node ([csr_of]).  The build delivers the rows the transaction sees; the
    update with a delta map delivers the old rows with those of the map in
    their places, which is what a new build delivers when the map holds the
    rows that changed. *)

From stdpp Require Import sorting.
From S2P Require Import Prelude VecSpec Txn Mvto DictSpec IndexSpec Literals Property PropertyList GraphState GraphOps GraphIndex GraphCommit GraphFacts GraphNodes QueryCtx QueryFacts QueryTraversal Csr.

(** ** Rows *)
Notation row := (list Z * list float)%type.
Definition cols (rows : list row) : list Z := rows ≫= fst.
Definition vals (rows : list row) : list float := rows ≫= snd.
Definition offset (rows : list row) (i : nat) : Z := Z.of_nat (length (cols (take i rows))).
Definition csr_of (rows : list row) : csr_arrays :=
  mk_csr (offset rows <$> seq 0 (S (length rows))) (cols rows) (vals rows).
(** Every neighbour has a weight, and the offsets are words. *)
Definition rows_ok (rows : list row) : Prop :=
  Forall (λ r, length r.1 = length r.2) rows ∧ Z.of_nat (length (cols rows)) < two64 ∧ Z.of_nat (length rows) < two64.

Section rows.
Implicit Types (rows done : list row) (r : row).

Lemma cols_app rows1 rows2 : cols (rows1 ++ rows2) = cols rows1 ++ cols rows2.
Proof. apply bind_app. Qed.
Lemma vals_app rows1 rows2 : vals (rows1 ++ rows2) = vals rows1 ++ vals rows2.
Proof. apply bind_app. Qed.
Lemma cols_snoc rows r : cols (rows ++ [r]) = cols rows ++ r.1.
Proof. rewrite cols_app. unfold cols at 2. cbn. by rewrite app_nil_r. Qed.
Lemma vals_snoc rows r : vals (rows ++ [r]) = vals rows ++ r.2.
Proof. rewrite vals_app. unfold vals at 2. cbn. by rewrite app_nil_r. Qed.
Lemma vals_length rows : Forall (λ r, length r.1 = length r.2) rows → length (vals rows) = length (cols rows).
Proof.
  induction 1 as [|r rows Hr _ IH]; [done|]. unfold cols, vals in *. cbn. rewrite !length_app, IH. lia.
Qed.
Lemma cols_take rows i : (length (cols (take i rows)) ≤ length (cols rows))%nat.
Proof. rewrite <-(take_drop i rows) at 2. rewrite cols_app, length_app. lia. Qed.
Lemma rows_ok_take rows i : rows_ok rows → rows_ok (take i rows).
Proof. intros (H1 & H2 & H3). split; [by apply Forall_take|]. pose proof (cols_take rows i). rewrite length_take. lia. Qed.
Lemma offset_S rows i r : rows !! i = Some r → offset rows (S i) = offset rows i + Z.of_nat (length r.1).
Proof. intros Hr. unfold offset. rewrite (take_S_r _ _ _ Hr), cols_snoc, length_app. lia. Qed.
Lemma offset_app rows1 rows2 i : (i ≤ length rows1)%nat → offset (rows1 ++ rows2) i = offset rows1 i.
Proof. intros Hi. unfold offset. by rewrite take_app_le. Qed.
Lemma offset_all rows : offset rows (length rows) = Z.of_nat (length (cols rows)).
Proof. unfold offset. by rewrite firstn_all. Qed.
Lemma offset_le rows i j : (i ≤ j)%nat → offset rows i ≤ offset rows j.
Proof.
  intros Hij. unfold offset. replace i with (i `min` j)%nat by lia. rewrite <-take_take. pose proof (cols_take (take j rows) i). lia.
Qed.

Lemma csr_of_nil : csr_of [] = push_row 0 new_csr.
Proof. done. Qed.
Lemma csr_of_snoc rows r :
  csr_of (rows ++ [r]) = push_edges r.1 r.2 (push_row (Z.of_nat (length (cols rows ++ r.1))) (csr_of rows)).
Proof.
  unfold csr_of, push_edges, push_row. cbn [row_offsets col_indices edge_values]. f_equal; [|apply cols_snoc|apply vals_snoc].
  rewrite length_app. cbn [length]. rewrite Nat.add_1_r. rewrite (seq_S (S (length rows))), fmap_app. f_equal.
  - apply list_fmap_ext. intros i j Hj. apply lookup_seq in Hj. rewrite offset_app; [done|lia].
  - cbn [fmap list_fmap Nat.add]. unfold offset. rewrite firstn_all2 by (rewrite length_app; simpl; lia). by rewrite cols_snoc.
Qed.

Lemma row_offsets_length rows : length (row_offsets (csr_of rows)) = S (length rows).
Proof. cbn [csr_of row_offsets]. by rewrite length_fmap, length_seq. Qed.
Lemma row_offsets_elem rows i : 0 ≤ i ≤ Z.of_nat (length rows) → elem (row_offsets (csr_of rows)) i = Val (offset rows (Z.to_nat i)).
Proof.
  intros Hi. unfold elem. rewrite bool_decide_eq_true_2 by lia. cbn [csr_of row_offsets].
  rewrite list_lookup_fmap, lookup_seq_lt by lia. done.
Qed.
Lemma row_offsets_back rows : back (row_offsets (csr_of rows)) = Val (Z.of_nat (length (cols rows))).
Proof. unfold back. cbn [csr_of row_offsets]. rewrite seq_S, fmap_app, list_fmap_singleton, last_snoc. by rewrite offset_all. Qed.

Lemma range_of_take {A} (l1 l2 l3 : list A) : range_of (l1 ++ l2 ++ l3) (Z.of_nat (length l1)) (Z.of_nat (length l2)) = Val l2.
Proof.
  unfold range_of. rewrite bool_decide_eq_true_2 by (rewrite !length_app; lia).
  by rewrite !Nat2Z.id, drop_app_length, take_app_length.
Qed.
Lemma split_row rows i r : rows !! i = Some r →
  cols rows = cols (take i rows) ++ r.1 ++ cols (drop (S i) rows) ∧ vals rows = vals (take i rows) ++ r.2 ++ vals (drop (S i) rows).
Proof.
  intros Hr. rewrite <-(take_drop_middle _ _ _ Hr) at 1 4. by rewrite cols_app, vals_app.
Qed.
(** The range of a node holds its row. *)
Lemma row_range rows i r : rows_ok rows → rows !! i = Some r →
  range_of (cols rows) (offset rows i) (Z.of_nat (length r.1)) = Val r.1
  ∧ range_of (vals rows) (offset rows i) (Z.of_nat (length r.1)) = Val r.2.
Proof.
  intros [Hw _] Hr. destruct (split_row _ _ _ Hr) as [-> ->]. unfold offset. split; [apply range_of_take|].
  rewrite <-(vals_length (take i rows)) by by apply Forall_take. rewrite (Forall_lookup_1 _ _ _ _ Hw Hr). apply range_of_take.
Qed.
Lemma edges_of rows i r : rows_ok rows → rows !! i = Some r →
  u64 (offset rows (S i) - offset rows i) = Z.of_nat (length r.1).
Proof.
  intros Hw Hr. rewrite (offset_S _ _ _ Hr). unfold u64. rewrite Z.mod_small; [lia|].
  pose proof (cols_take rows (S i)) as Hc. rewrite (take_S_r _ _ _ Hr), cols_snoc, length_app in Hc. destruct Hw. lia.
Qed.
End rows.

(** ** The entries of a map in order *)
Section order.
Context {E : Type}.
Implicit Types (m : gmap Z E) (l : list (Z * E)).
Definition before (a b : Z * E) : Prop := a.1 < b.1.

Lemma entries_in_order_elem m k d : (k, d) ∈ entries_in_order m ↔ m !! k = Some d.
Proof.
  unfold entries_in_order. rewrite list_elem_of_omap. split.
  - intros (k' & _ & Hk). by destruct (m !! k') eqn:?; simplify_eq/=.
  - intros Hm. exists k. rewrite Hm. split; [|done]. rewrite merge_sort_Permutation. apply list_elem_of_fmap.
    exists (k, d). split; [done|]. by apply elem_of_map_to_list.
Qed.
Lemma entries_before m : StronglySorted before (entries_in_order m).
Proof.
  unfold entries_in_order.
  assert (NoDup (merge_sort Z.le (map_to_list m).*1)) as Hnd by (rewrite merge_sort_Permutation; apply NoDup_fst_map_to_list).
  pose proof (StronglySorted_merge_sort Z.le (map_to_list m).*1) as Hs. revert Hnd Hs.
  generalize (merge_sort Z.le (map_to_list m).*1) as ks. induction ks as [|k ks IH]; intros Hnd Hs; [constructor|].
  inversion Hnd; subst. inversion Hs as [|? ? Hs' Hk]; subst. cbn [omap list_omap].
  destruct (m !! k) as [d|]; cbn [fmap option_fmap option_map]; [|by apply IH]. constructor; [by apply IH|].
  apply Forall_forall. intros [k' d'] (k2 & Hin & Heq)%list_elem_of_omap. destruct (m !! k2) eqn:?; simplify_eq/=.
  unfold before. cbn. rewrite Forall_forall in Hk. specialize (Hk _ Hin). assert (k ≠ k') by (by intros ->). lia.
Qed.
Lemma filter_before (P : Z * E → Prop) `{!∀ e, Decision (P e)} l : StronglySorted before l → StronglySorted before (filter P l).
Proof.
  induction 1 as [|e l _ IH He]; [constructor|]. rewrite filter_cons. destruct (decide (P e)); [|done].
  constructor; [done|]. apply Forall_forall. intros e' [_ Hin]%list_elem_of_filter. by eapply Forall_forall in He.
Qed.
End order.

(** ** The loops of an update

    The new arrays are made row by row towards those of the rows [T]. *)
Section target.
Variables (old T : list row).
Hypothesis old_ok : rows_ok old.
Hypothesis T_ok : rows_ok T.
Notation st k := (csr_of (take k T), Z.of_nat k).

Lemma total_bound k : Z.of_nat (length (cols (take k T))) < two64.
Proof. by apply (rows_ok_take T k). Qed.
Lemma next_pos k : (k < length T)%nat → u64 (Z.of_nat k + 1) = Z.of_nat (S k).
Proof. intros Hk. destruct T_ok as (_ & _ & Hl). unfold u64. rewrite Z.mod_small; lia. Qed.
Lemma take_next k r : T !! k = Some r → cols (take (S k) T) = cols (take k T) ++ r.1.
Proof. intros Hr. by rewrite (take_S_r _ _ _ Hr), cols_snoc. Qed.
Lemma row_pushed k r n : T !! k = Some r → n = Z.of_nat (length r.1) →
  push_edges r.1 r.2 (push_row (u64 (Z.of_nat (length (cols (take k T))) + n)) (csr_of (take k T))) = csr_of (take (S k) T).
Proof.
  intros Hr ->. rewrite (take_S_r _ _ _ Hr), csr_of_snoc. do 2 f_equal.
  pose proof (total_bound (S k)) as Hb. rewrite (take_next _ _ Hr) in Hb. rewrite length_app in *. unfold u64. rewrite Z.mod_small; lia.
Qed.

Lemma add_row_ok k r : T !! k = Some r → add_row r.1 r.2 (st k) = (st (S k), Val tt).
Proof.
  intros Hr. unfold add_row. rewrite bind_get. cbn [fst snd]. rewrite row_offsets_back, bind_lift.
  unfold modify. cbn [fst snd]. rewrite (row_pushed _ _ _ Hr eq_refl), next_pos; [done|by eapply lookup_lt_Some].
Qed.
Lemma empty_row_ok k : T !! k = Some ([], []) → empty_row (st k) = (st (S k), Val tt).
Proof.
  intros Hr. unfold empty_row. rewrite bind_get. cbn [fst snd]. rewrite row_offsets_back, bind_lift.
  unfold modify. cbn [fst snd]. rewrite next_pos by (by eapply lookup_lt_Some). rewrite (take_S_r _ _ _ Hr), csr_of_snoc.
  cbn [fst snd]. rewrite app_nil_r. unfold push_edges, push_row. cbn. by rewrite !app_nil_r.
Qed.

(** Reading two offsets of the old arrays. *)
Lemma old_range {U B} k r (f : Z → Z → M U B) s : old !! k = Some r →
  (hi ← lift_res (elem (row_offsets (csr_of old)) (Z.of_nat k + 1)); lo ← lift_res (elem (row_offsets (csr_of old)) (Z.of_nat k)); f hi lo) s
  = f (offset old (S k)) (offset old k) s.
Proof.
  intros Hr. apply lookup_lt_Some in Hr. rewrite !row_offsets_elem by lia. rewrite !bind_lift.
  rewrite Nat2Z.id. by replace (Z.to_nat (Z.of_nat k + 1)) with (S k) by lia.
Qed.
Lemma copy_row_ok k : (k < length old)%nat → T !! k = old !! k → copy_row (csr_of old) (st k) = (st (S k), Val tt).
Proof.
  intros Hk HT. destruct (lookup_lt_is_Some_2 old k Hk) as [r Hr]. rewrite Hr in HT.
  unfold copy_row. rewrite bind_get. cbn [fst snd]. rewrite (old_range k r) by done. cbv zeta.
  rewrite row_offsets_back, bind_lift, (edges_of _ _ _ old_ok Hr).
  change (col_indices (csr_of old)) with (cols old). change (edge_values (csr_of old)) with (vals old). destruct (row_range _ _ _ old_ok Hr) as [-> ->].
  rewrite !bind_lift. unfold modify. cbn [fst snd].
  rewrite (row_pushed _ _ _ HT eq_refl), next_pos; [done|by eapply lookup_lt_Some].
Qed.

Lemma while_before_ok body k n : (k ≤ n)%nat → (∀ i, (k ≤ i < n)%nat → body (st i) = (st (S i), Val tt)) →
  while_before (Z.of_nat n) body (st k) = (st n, Val tt).
Proof.
  intros Hkn Hb. unfold while_before. rewrite bind_get. cbn [fst snd].
  replace (Z.of_nat n - Z.of_nat k) with (Z.of_nat (n - k)) by lia. remember (n - k)%nat as m eqn:Em.
  revert k Hkn Hb Em. induction m as [|m IH]; intros k Hkn Hb Em; [by replace n with k by lia|].
  rewrite seqZ_cons by lia. cbn [for_each]. rewrite (bind_val _ _ _ _ _ (Hb k ltac:(lia))).
  replace (Z.succ (Z.of_nat k)) with (Z.of_nat (S k)) by lia. replace (Z.pred (Z.of_nat (S m))) with (Z.of_nat m) by lia.
  apply IH; [lia| |lia]. intros i Hi. apply Hb. lia.
Qed.

(** Going through entries in order, with a filler for the positions between
    them. *)
Lemma fill_ok {E} (filler : M (csr_arrays * Z) unit) (body : E → M (csr_arrays * Z) unit) l k :
  StronglySorted before l → (∀ nid d, (nid, d) ∈ l → Z.of_nat k ≤ nid) →
  (∀ nid d, (nid, d) ∈ l → body d (st (Z.to_nat nid)) = (st (S (Z.to_nat nid)), Val tt)) →
  (∀ i e, (k ≤ i)%nat → e ∈ l → Z.of_nat i ≤ e.1 → Z.of_nat i ∉ l.*1 → filler (st i) = (st (S i), Val tt)) →
  ∃ k', for_each (λ '(nid, d), while_before nid filler;; body d) l (st k) = (st k', Val tt)
    ∧ (k ≤ k')%nat ∧ (∀ e, e ∈ l → e.1 < Z.of_nat k') ∧ (k' = k ∨ Z.of_nat k' - 1 ∈ l.*1).
Proof.
  intros Hs. revert k. induction Hs as [|[nid d] l Hs IH Hlt]; intros k Hk Hb Hf.
  { exists k. repeat split; [lia|by intros e ?%elem_of_nil|by left]. }
  assert (∀ i, i ≤ nid → i ∉ l.*1) as Hnot.
  { intros i Hi (e & -> & He)%list_elem_of_fmap. rewrite Forall_forall in Hlt. specialize (Hlt _ He). unfold before in Hlt. cbn in Hlt. lia. }
  pose proof (Hk nid d ltac:(by left)) as Hkn.
  assert (while_before nid filler (st k) = (st (Z.to_nat nid), Val tt)) as Ew.
  { rewrite (Z2Nat.id nid) by lia. pose proof (while_before_ok filler k (Z.to_nat nid)) as Ew. rewrite (Z2Nat.id nid) in Ew by lia. apply Ew; [lia|].
    intros i Hi. apply (Hf i (nid, d)); [lia|by left|cbn; lia|]. cbn. intros [?|Hin]%elem_of_cons; [lia|].
    by apply (Hnot (Z.of_nat i)); [lia|]. }
  cbn [for_each]. rewrite bind_assoc, (bind_val _ _ _ _ _ Ew).
  rewrite (bind_val _ _ _ _ _ (Hb nid d ltac:(by left))).
  destruct (IH (S (Z.to_nat nid))) as (k' & E' & Hk' & Hall & Hlast).
  - intros nid' d' Hin. rewrite Forall_forall in Hlt. specialize (Hlt _ Hin). unfold before in Hlt. cbn in Hlt. lia.
  - intros nid' d' Hin. apply (Hb nid'). by right.
  - intros i e Hi He Hle Hni. apply (Hf i e); [lia|by right|done|]. cbn. intros [?|?]%elem_of_cons; [lia|done].
  - exists k'. split; [exact E'|]. split; [lia|]. split; [intros e [->|He]%elem_of_cons; [cbn; lia|by apply Hall]|].
    right. cbn [fmap list_fmap fst]. apply elem_of_cons. destruct Hlast as [->|Hl]; [left; lia|by right].
Qed.

(** The rest of the old arrays. *)
Lemma push_offsets j : (j < length T)%nat → row_offsets (csr_of (take (S j) T)) = row_offsets (csr_of (take j T)) ++ [offset T (S j)].
Proof.
  intros Hj. destruct (lookup_lt_is_Some_2 T j Hj) as [r Hr]. rewrite (take_S_r _ _ _ Hr), csr_of_snoc. cbn [push_edges push_row row_offsets].
  do 2 f_equal. unfold offset. by rewrite (take_S_r _ _ _ Hr), cols_snoc.
Qed.
Lemma drop_same k : (length old ≤ length T)%nat → (∀ i, (k ≤ i < length old)%nat → T !! i = old !! i) →
  drop k (take (length old) T) = drop k old.
Proof.
  intros Hl H. apply list_eq. intros i. rewrite !lookup_drop. destruct (decide (k + i < length old)%nat).
  - rewrite lookup_take_lt by done. apply H. lia.
  - rewrite lookup_take_ge by lia. symmetry. apply lookup_ge_None. lia.
Qed.
Lemma rest_range {A} (f : list row → list A) k n : (∀ l1 l2, f (l1 ++ l2) = f l1 ++ f l2) → n = Z.of_nat (length (f (take k old))) →
  range_of (f old) n (Z.of_nat (length (f old)) - n) = Val (f (drop k old)).
Proof.
  intros Hf ->. rewrite <-(take_drop k old) at 1 3. rewrite !Hf. rewrite length_app.
  replace (Z.of_nat _ - _) with (Z.of_nat (length (f (drop k old)))) by lia.
  rewrite <-(app_nil_r (f (drop k old))) at 1. apply range_of_take.
Qed.
Lemma copy_rest_ok k : (k ≤ length old)%nat → (length old ≤ length T)%nat → (∀ i, (k ≤ i < length old)%nat → T !! i = old !! i) →
  copy_rest (csr_of old) (st k) = (st (length old), Val tt).
Proof.
  intros Hk Hl H. unfold copy_rest. rewrite bind_get. cbn [fst snd]. rewrite row_offsets_elem, bind_lift, Nat2Z.id by lia.
  change (col_indices (csr_of old)) with (cols old). change (edge_values (csr_of old)) with (vals old).
  rewrite (rest_range cols k (offset old k) cols_app eq_refl), bind_lift.
  rewrite (rest_range vals k (offset old k) vals_app), bind_lift.
  2: { unfold offset. rewrite <-(vals_length (take k old)); [done|]. apply Forall_take, old_ok. }
  rewrite bind_modify. cbn [fst snd]. rewrite row_offsets_length.
  replace (Z.of_nat (S (length old)) - 1) with (Z.of_nat (length old)) by lia.
  (* the edges are there, the offsets follow *)
  set (sr j := (mk_csr (row_offsets (csr_of (take j T))) (cols (take (length old) T)) (vals (take (length old) T)), Z.of_nat j)).
  assert (take (length old) T = take k T ++ drop k old) as ET.
  { rewrite <-(drop_same k) by done. rewrite <-(take_drop k (take (length old) T)) at 1. by rewrite take_take, Nat.min_l by lia. }
  assert ((push_edges (cols (drop k old)) (vals (drop k old)) (csr_of (take k T)), Z.of_nat k) = sr k) as ->.
  { unfold sr. rewrite ET, cols_app, vals_app. done. }
  assert (st (length old) = sr (length old)) as -> by done. unfold while_before. rewrite bind_get. change (sr k).2 with (Z.of_nat k).
  replace (Z.of_nat (length old) - Z.of_nat k) with (Z.of_nat (length old - k)) by lia. remember (length old - k)%nat as m eqn:Em.
  clear ET. revert k Hk H Em. induction m as [|m IH]; intros k Hk H Em; [by replace k with (length old) by lia|].
  rewrite seqZ_cons by lia. cbn [for_each].
  assert ((s ← get_st; hi ← lift_res (elem (row_offsets (csr_of old)) (s.2 + 1)); lo ← lift_res (elem (row_offsets (csr_of old)) s.2);
     b ← lift_res (back (row_offsets s.1));
     modify (λ s, (push_row (u64 (b + u64 (hi - lo))) s.1, u64 (s.2 + 1)))) (sr k) = (sr (S k), Val tt)) as Estep.
  { destruct (lookup_lt_is_Some_2 old k ltac:(lia)) as [r Hr]. assert (T !! k = Some r) as HT by (rewrite H; [done|lia]).
    rewrite bind_get. unfold sr at 1 2. cbn [fst snd]. rewrite (old_range k r) by done.
    unfold sr at 1. cbn [fst snd row_offsets]. rewrite row_offsets_back, bind_lift, (edges_of _ _ _ old_ok Hr).
    unfold modify. unfold sr. cbn [fst snd]. rewrite next_pos by lia. f_equal. f_equal. unfold push_row. cbn [row_offsets col_indices edge_values].
    f_equal. rewrite push_offsets by lia. do 2 f_equal. rewrite (offset_S _ _ _ HT).
    pose proof (total_bound (S k)) as Hb. rewrite (take_next _ _ HT), length_app in Hb. unfold offset, u64. rewrite Z.mod_small; lia. }
  rewrite (bind_val _ _ _ _ _ Estep). replace (Z.succ (Z.of_nat k)) with (Z.of_nat (S k)) by lia.
  replace (Z.pred (Z.of_nat (S m))) with (Z.of_nat m) by lia. apply IH; [lia| |lia]. intros i Hi. apply H. lia.
Qed.

(** Both loops with the copy between them. *)
Lemma update_arrays_ok {E} (es : list (Z * E)) lnid changed_row (new_row : E → row) :
  length old = S lnid → (length old ≤ length T)%nat → StronglySorted before es →
  (∀ nid d, (nid, d) ∈ es → 0 ≤ nid < Z.of_nat (length T)) →
  (∀ nid d, (nid, d) ∈ es → nid ≤ Z.of_nat lnid →
    ∃ r, T !! Z.to_nat nid = Some r ∧ changed_row d (st (Z.to_nat nid)) = (st (Z.to_nat nid), Val r)) →
  (∀ nid d, (nid, d) ∈ es → Z.of_nat lnid < nid → T !! Z.to_nat nid = Some (new_row d)) →
  (∀ i, (i < length T)%nat → Z.of_nat i ∉ es.*1 → T !! i = Some (default ([], []) (old !! i))) →
  (length T = length old ∨ Z.of_nat (length T) - 1 ∈ es.*1) →
  update_arrays (csr_of old) (filter (λ e, e.1 ≤ Z.of_nat lnid) es) (filter (λ e, Z.of_nat lnid < e.1) es) changed_row new_row (new_csr, 0)
  = ((csr_of T, Z.of_nat (length T)), Val tt).
Proof.
  intros Hlo Hlen Hs Hin Hch Hnew Hsame Hlast.
  assert (∀ (P : Z * E → Prop) `{!∀ e, Decision (P e)} i, (∀ d, (i, d) ∈ es → P (i, d)) → i ∉ (filter P es).*1 → i ∉ es.*1) as Hfilter.
  { intros P HP i Hi Hni ([i' d] & -> & He)%list_elem_of_fmap. apply Hni, list_elem_of_fmap. exists (i', d). split; [done|].
    apply list_elem_of_filter. split; [by apply Hi|done]. }
  unfold update_arrays. rewrite bind_modify. cbn [fst snd].
  destruct (fill_ok (copy_row (csr_of old)) (λ d, r ← changed_row d; add_row r.1 r.2) (filter (λ e, e.1 ≤ Z.of_nat lnid) es) 0)
    as (k1 & E1 & _ & Hall1 & Hl1).
  - by apply filter_before.
  - intros nid d [_ He]%list_elem_of_filter. specialize (Hin _ _ He). lia.
  - intros nid d [Hle He]%list_elem_of_filter. destruct (Hch _ _ He Hle) as (r & Hr & Er).
    rewrite (bind_val _ _ _ _ _ Er). by apply add_row_ok.
  - intros i e _ [Hle _]%list_elem_of_filter Hie Hni. apply copy_row_ok; [lia|].
    rewrite Hsame; [|lia|]. { destruct (lookup_lt_is_Some_2 old i) as [r ->]; [lia|done]. }
    eapply Hfilter; [|exact Hni]. intros d _. cbn. lia.
  - change (csr_of (take 0 T), Z.of_nat 0) with (push_row 0 new_csr, 0) in E1. rewrite (bind_val _ _ _ _ _ E1).
    assert (k1 ≤ length old)%nat as Hk1.
    { destruct Hl1 as [->|(e & Ee & [He _]%list_elem_of_filter)%list_elem_of_fmap]; lia. }
    rewrite (bind_val _ _ _ _ _ (copy_rest_ok k1 Hk1 Hlen ltac:(intros i Hi; rewrite Hsame;
      [by destruct (lookup_lt_is_Some_2 old i ltac:(lia)) as [r ->]|lia|];
      eapply (Hfilter (λ e, e.1 ≤ Z.of_nat lnid) _); [intros d _; cbn; lia|];
      intros ([i' d] & Hi' & He)%list_elem_of_fmap; assert (Z.of_nat i = i') by done; specialize (Hall1 _ He); cbn in Hall1; lia))).
    destruct (fill_ok empty_row (λ d, add_row (new_row d).1 (new_row d).2) (filter (λ e, Z.of_nat lnid < e.1) es) (length old))
      as (k2 & E2 & Hk2 & Hall2 & Hl2).
    + by apply filter_before.
    + intros nid d [Hlt He]%list_elem_of_filter. cbn in Hlt. lia.
    + intros nid d [Hlt He]%list_elem_of_filter. apply add_row_ok, (Hnew _ d); done.
    + intros i [nid d] Hi [Hlt He]%list_elem_of_filter Hie Hni. apply empty_row_ok. cbn in Hie. specialize (Hin _ _ He).
      rewrite Hsame; [by rewrite (lookup_ge_None_2 old) by lia|lia|]. eapply Hfilter; [|exact Hni]. intros d' _. cbn. lia.
    + rewrite E2. assert (k2 = length T) as ->; [|by rewrite firstn_all].
      destruct Hlast as [HT|([i' d] & Hi & He)%list_elem_of_fmap].
      * destruct Hl2 as [->|([i' d] & Hi & [Hlt He]%list_elem_of_filter)%list_elem_of_fmap]; [done|]. specialize (Hin _ _ He). cbn in *. lia.
      * cbn in Hi. destruct (decide (length T = length old)) as [HT|HT].
        { destruct Hl2 as [->|([i2 d2] & Hi2 & [Hlt He2]%list_elem_of_filter)%list_elem_of_fmap]; [done|]. specialize (Hin _ _ He2). cbn in *. lia. }
        assert (k2 ≤ length T)%nat.
        { destruct Hl2 as [->|([i2 d2] & Hi2 & [Hlt He2]%list_elem_of_filter)%list_elem_of_fmap]; [done|]. specialize (Hin _ _ He2). cbn in *. lia. }
        assert ((i', d) ∈ filter (λ e, Z.of_nat lnid < e.1) es) as He' by (apply list_elem_of_filter; split; [cbn; lia|done]).
        specialize (Hall2 _ He'). cbn in Hall2. lia.
Qed.
End target.

(** ** Updates as functions of the rows *)
Section updates.
Implicit Types (rows : list row) (k : nat).

(** The rows of [n] nodes with those of a map in their places. *)
Definition updated {E} (n : nat) (row_of : option row → E → row) (m : gmap Z E) rows : list row :=
  (λ i, from_option (row_of (rows !! i)) (default ([], []) (rows !! i)) (m !! Z.of_nat i)) <$> seq 0 n.
(** The number of nodes behind an update. *)
Definition nodes_after {E} (m : gmap Z E) rows (n : nat) : Prop :=
  (length rows ≤ n)%nat ∧ (∀ i, is_Some (m !! i) → 0 ≤ i < Z.of_nat n)
  ∧ (n = length rows ∨ is_Some (m !! (Z.of_nat n - 1))).

Lemma updated_length {E} n (row_of : option row → E → row) m rows : length (updated n row_of m rows) = n.
Proof. unfold updated. by rewrite length_fmap, length_seq. Qed.
Lemma updated_lookup {E} n (row_of : option row → E → row) m rows i : (i < n)%nat →
  updated n row_of m rows !! i =
  Some (from_option (row_of (rows !! i)) (default ([], []) (rows !! i)) (m !! Z.of_nat i)).
Proof. intros Hi. unfold updated. by rewrite list_lookup_fmap, lookup_seq_lt. Qed.
Lemma entries_key {E} (m : gmap Z E) i : i ∈ (entries_in_order m).*1 ↔ is_Some (m !! i).
Proof.
  rewrite list_elem_of_fmap. split.
  - intros ([i' d] & -> & H%entries_in_order_elem). by eexists.
  - intros [d H]. exists (i, d). split; [done|]. by apply entries_in_order_elem.
Qed.
Lemma last_node rows : rows ≠ [] → rows_ok rows →
  u64 (Z.of_nat (length (row_offsets (csr_of rows))) - 2) = Z.of_nat (length rows - 1).
Proof.
  intros Hne (_ & _ & Hl). rewrite row_offsets_length. unfold u64.
  destruct rows; [done|]. cbn [length] in *. rewrite Z.mod_small; lia.
Qed.

Lemma update_ok {E} rows (m : gmap Z E) n (row_of : option row → E → row) changed_row new_row :
  rows ≠ [] → rows_ok rows → nodes_after m rows n → rows_ok (updated n row_of m rows) →
  (∀ d, row_of None d = new_row d) →
  (∀ k r d c, m !! Z.of_nat k = Some d → rows !! k = Some r → changed_row d (c, Z.of_nat k) = ((c, Z.of_nat k), Val (row_of (Some r) d))) →
  let lnid := Z.of_nat (length rows - 1) in
  update_arrays (csr_of rows) (filter (λ e, e.1 ≤ lnid) (entries_in_order m)) (filter (λ e, lnid < e.1) (entries_in_order m)) changed_row new_row (new_csr, 0)
  = ((csr_of (updated n row_of m rows), Z.of_nat n), Val tt).
Proof.
  intros Hne Hrows (Hn & Hkeys & Hlast) HT Hnew Hch lnid. assert (0 < length rows)%nat by (destruct rows; [done|simpl; lia]).
  assert (Z.of_nat n = Z.of_nat (length (updated n row_of m rows))) as -> by by rewrite updated_length.
  apply update_arrays_ok; rewrite ?updated_length; try done; [lia|apply entries_before|..].
  - intros nid d Hin%entries_in_order_elem. by apply Hkeys.
  - intros nid d Hin%entries_in_order_elem Hle. pose proof (Hkeys nid ltac:(by eexists)).
    destruct (lookup_lt_is_Some_2 rows (Z.to_nat nid)) as [r Hr]; [lia|]. exists (row_of (Some r) d).
    rewrite updated_lookup by lia. rewrite Hr, Z2Nat.id, Hin by lia. split; [done|].
    pose proof (Hch (Z.to_nat nid) r d) as E'. rewrite Z2Nat.id in E' by lia. by apply E'.
  - intros nid d Hin%entries_in_order_elem Hlt. pose proof (Hkeys nid ltac:(by eexists)).
    rewrite updated_lookup by lia. rewrite (lookup_ge_None_2 rows) by lia. rewrite Z2Nat.id, Hin by lia. simpl. by rewrite Hnew.
  - intros i Hi Hni. rewrite updated_lookup by done. rewrite entries_key in Hni.
    destruct (m !! Z.of_nat i); [exfalso; by apply Hni|done].
  - rewrite entries_key. done.
Qed.

(** With ADJ_DELTA a row is replaced, *)
Definition adj_row_of (_ : option row) (d : list Z * list double) : row := adj_row d.
Lemma adj_update_ok rows m n : rows ≠ [] → rows_ok rows → nodes_after m rows n → rows_ok (updated n adj_row_of m rows) →
  adj_update (Z.of_nat (length rows - 1)) (csr_of rows) m new_csr = (csr_of (updated n adj_row_of m rows), Val tt).
Proof. intros Hne H1 Hn H2. unfold adj_update. by rewrite (update_ok rows m n adj_row_of). Qed.

(** with DIFF_DELTA it loses the deleted neighbours and gets the new ones. *)
Definition kept (dels : list Z) (cs : list Z) (vs : list float) : list (Z * float) := filter (λ e, e.1 ∉ dels) (zip cs vs).
Lemma erase_deleted_ok dels cs vs : length cs = length vs →
  erase_deleted dels cs vs = Val ((kept dels cs vs).*1, (kept dels cs vs).*2).
Proof.
  revert vs. induction cs as [|c cs IH]; intros [|v vs] Hl; try done. injection Hl as Hl. cbn [erase_deleted]. rewrite IH by done.
  unfold kept. cbn [zip zip_with]. rewrite filter_cons. cbn [fst]. unfold mbind, res_bind.
  destruct (decide (c ∉ dels)).
  - by rewrite bool_decide_eq_false_2.
  - by rewrite bool_decide_eq_true_2 by (by apply dec_stable).
Qed.
Definition diff_row_of (r : option row) (d : diff_delta) : row :=
  match r with
  | None => diff_row d
  | Some r => let l := kept (deletes_ d) (r.1 ++ inserts_ d) (r.2 ++ weights_ d) in (l.*1, to_float <$> l.*2)
  end.
Lemma diff_update_ok rows m n : rows ≠ [] → rows_ok rows → nodes_after m rows n → rows_ok (updated n diff_row_of m rows) →
  (∀ i d, m !! i = Some d → length (inserts_ d) = length (weights_ d)) →
  diff_update (Z.of_nat (length rows - 1)) (csr_of rows) m new_csr = (csr_of (updated n diff_row_of m rows), Val tt).
Proof.
  intros Hne H1 Hn H2 Hw. unfold diff_update.
  rewrite (update_ok rows m n diff_row_of); [done..|]. intros k r d c Hm Hr.
  unfold diff_changed_row. rewrite bind_get. cbn [snd]. rewrite (old_range rows k r) by done. cbv zeta.
  rewrite (edges_of _ _ _ H1 Hr). destruct (row_range _ _ _ H1 Hr) as [E1 E2].
  change (col_indices (csr_of rows)) with (cols rows). change (edge_values (csr_of rows)) with (vals rows).
  rewrite E1, E2, !bind_lift, erase_deleted_ok; [done|].
  rewrite !length_app, (Forall_lookup_1 _ _ _ _ (proj1 H1) Hr). f_equal. by eapply Hw.
Qed.
End updates.
