(* ===== verification/CsrBuild.v ===== *)
(** * CsrBuild: what the build and the merge of the delta store deliver

    [host_csr_build] makes the arrays of the rows its transaction sees.  The
    merge keeps, of every node, the newest record that counts; an update with
    them equals a new build when the records tell which rows changed. *)

From S2P Require Import Prelude VecSpec Txn Mvto DictSpec IndexSpec Literals Property PropertyList GraphState GraphOps GraphIndex GraphCommit GraphFacts GraphNodes QueryCtx QueryFacts QueryTraversal SearchFacts Csr CsrFacts.

(** ** The build *)
Section build.
Context {V : Type → Type} `{!Vec V} `{!VecUsed V} {D : Type} `{!Dictionary D} {X : Type} `{!Indexes X}.
Notation db := (gdb V D X).
Implicit Types (g : db).
Context (weight_func : relationship → double).
Variable x : Z.

(** The neighbours on a list of a node that the transaction sees. *)
Definition seen_edge g (target : relationship → Z) (id : Z) : option (Z * float) :=
  p ← sees x (rships_ g) id;
  if is_valid_for p.2 x then Some (target (body_ p.2), to_float (weight_func (body_ p.2))) else None.
Definition seen_edges g (target : relationship → Z) (l : list Z) : row :=
  ((omap (seen_edge g target) l).*1, (omap (seen_edge g target) l).*2).
(** The row of a node with the lists [outs] and [ins]. *)
Definition seen_row g (bidirectional : bool) (outs ins : list Z) : row :=
  let o := seen_edges g dest_node outs in
  let i := if bidirectional then seen_edges g src_node ins else ([], []) in (o.1 ++ i.1, o.2 ++ i.2).

(** The transaction sees every node, and the lists of each. *)
Definition lists_seen g (outs ins : Z → list Z) : Prop := ∀ nid, is_Some (vec_get (nodes_ g) nid) →
  ∃ r o, sees x (nodes_ g) nid = Some (r, o)
    ∧ vlist x g next_src_rship (from_rship_list (body_ o)) (outs nid)
    ∧ vlist x g next_dest_rship (to_rship_list (body_ o)) (ins nid).
Definition seen_node g (bidirectional : bool) (outs ins : Z → list Z) (nid : Z) : row :=
  match vec_get (nodes_ g) nid with Some _ => seen_row g bidirectional (outs nid) (ins nid) | None => ([], []) end.
Definition max_num_nodes g : Z := u64 (vec_last_used (nodes_ g) + 1).
Definition seen_rows g (bidirectional : bool) (outs ins : Z → list Z) : list row :=
  seen_node g bidirectional outs ins <$> seqZ 0 (max_num_nodes g).

Definition pushed (r : row) (c : csr_arrays * Z) : csr_arrays * Z :=
  (push_edges r.1 r.2 c.1, u64 (c.2 + Z.of_nat (length r.1))).
Lemma pushed_app r1 r2 c : pushed r2 (pushed r1 c) = pushed (r1.1 ++ r2.1, r1.2 ++ r2.2) c.
Proof.
  unfold pushed, push_edges. cbn [fst snd row_offsets col_indices edge_values]. rewrite <-!app_assoc, length_app. f_equal.
  unfold u64. rewrite Zplus_mod_idemp_l. f_equal. lia.
Qed.
Lemma pushed_nil c : 0 ≤ c.2 < two64 → pushed ([], []) c = c.
Proof.
  intros Hc. destruct c as [[a b e] n]. unfold pushed, push_edges. cbn in *. rewrite !app_nil_r, Z.add_0_r. unfold u64. by rewrite Z.mod_small.
Qed.
Lemma pushed_word r c : 0 ≤ (pushed r c).2 < two64.
Proof. unfold pushed, u64. cbn [snd]. by apply Z.mod_pos_bound. Qed.

Section run.
Variables (g : db) (tx : transaction).
Hypothesis Htx : current_transaction_ g = Some tx.
Hypothesis Hx : xid_ tx = x.
Hypothesis Hn0 : vec_rd (nodes_ g).
Hypothesis Hr0 : vec_rd (rships_ g).

Definition push_one (target : relationship → Z) (c : csr_arrays * Z) (r : oref) (o : obj relationship) : csr_arrays * Z :=
  (push_edges [target (body_ o)] [to_float (weight_func (body_ o))] c.1, u64 (c.2 + 1)).
Lemma push_one_ok target g1 c r o : reads x g g1 → refers (rships_ g1) r o →
  ∃ g2, csr_rship weight_func target r (g1, c) = ((g2, push_one target c r o), Val tt) ∧ reads x g1 g2 ∧ refers (rships_ g2) r o.
Proof.
  intros R Ro. destruct (reads_rd _ _ _ R) as [Hn Hr]. destruct (rship_ref_refers x g1 c r o Hn Hr Ro) as (g2 & E & R2 & Ro2).
  exists g2. unfold csr_rship. by rewrite (bind_val _ _ _ _ _ E).
Qed.
Lemma fed_pushed target l c : 0 ≤ c.2 < two64 →
  foldl (fed x g (push_one target) (λ o, is_valid_for o x)) c l = pushed (seen_edges g target l) c.
Proof.
  revert c. induction l as [|id l IH]; intros c Hc; [by rewrite pushed_nil|]. cbn [foldl].
  assert (fed x g (push_one target) (λ o, is_valid_for o x) c id = pushed (seen_edges g target [id]) c) as ->.
  { unfold fed, seen_edges, seen_edge. cbn [omap list_omap]. unfold mbind, option_bind.
    destruct (sees x (rships_ g) id) as [[r o]|]; cbn [snd]; [destruct (is_valid_for o x)|]; cbn [fmap list_fmap];
      [done|by rewrite pushed_nil..]. }
  rewrite IH by apply pushed_word. rewrite pushed_app. f_equal. unfold seen_edges. cbn [omap list_omap].
  by destruct (seen_edge g target id).
Qed.
Lemma csr_list_ok next target g1 c first l : reads x g g1 → vlist x g next first l → 0 ≤ c.2 < two64 →
  ∃ g2, csr_list weight_func next target x first (g1, c) = ((g2, pushed (seen_edges g target l) c), Val tt) ∧ reads x g g2.
Proof.
  intros R Hl Hc. unfold csr_list. rewrite (bind_val _ _ _ _ _ (list_fuel_ok g1 c)), (reads_capacity _ _ _ R).
  destruct (rship_loop_feeds x g (csr_rship weight_func target) (push_one target) (push_one_ok target)
    next (λ o, is_valid_for o x) tx (S (Z.to_nat (vec_capacity (rships_ g)))) g1 c first l Htx Hx R Hl) as (g2 & E & R2).
  { pose proof (vlist_length _ _ _ _ _ Hr0 Hl). lia. }
  exists g2. rewrite E. by rewrite fed_pushed.
Qed.

Variables (bidirectional : bool) (outs ins : Z → list Z).
Hypothesis Hlists : lists_seen g outs ins.
Lemma node_pushed g1 c nid : reads x g g1 → is_Some (vec_get (nodes_ g) nid) → 0 ≤ c.2 < two64 →
  ∃ g2, (n ← on_fst (node_by_id nid); o ← on_fst (node_ref n);
     csr_list weight_func next_src_rship dest_node x (from_rship_list (body_ o));;
     when bidirectional (o ← on_fst (node_ref n); csr_list weight_func next_dest_rship src_node x (to_rship_list (body_ o)))) (g1, c)
    = ((g2, pushed (seen_row g bidirectional (outs nid) (ins nid)) c), Val tt) ∧ reads x g g2.
Proof.
  intros R Hu Hc. destruct (Hlists nid Hu) as (r & o & Ho & Hout & Hin). destruct (reads_rd _ _ _ R) as [Hn1 Hr1].
  destruct (node_by_id_sees x g1 tx c nid r o) as (g2 & E2 & R2 & Ro2); [by rewrite (reads_current _ _ _ R)|done..| |].
  { by rewrite (proj1 (reads_sees _ _ _ R)). }
  rewrite (bind_val _ _ _ _ _ E2). destruct (reads_rd _ _ _ R2) as [Hn2 Hr2].
  destruct (node_ref_refers x g2 c (nid, r) o Hn2 Hr2 Ro2) as (g3 & E3 & R3 & Ro3). rewrite (bind_val _ _ _ _ _ E3).
  assert (reads x g g3) as R03 by (by do 2 (etrans; [|eassumption])).
  destruct (csr_list_ok next_src_rship dest_node g3 c _ _ R03 Hout Hc) as (g4 & E4 & R4). rewrite (bind_val _ _ _ _ _ E4).
  unfold seen_row. destruct bidirectional; cbn [when fst snd].
  2: { exists g4. by rewrite !app_nil_r. }
  destruct (reads_rd _ _ _ R4) as [Hn4 Hr4].
  destruct (sees_refers x (nodes_ g4) nid r o) as (o' & Ro' & Eb & _); [by rewrite (proj1 (reads_sees _ _ _ R4))|].
  set (c4 := pushed (seen_edges g dest_node (outs nid)) c).
  destruct (node_ref_refers x g4 c4 (nid, r) o' Hn4 Hr4 Ro') as (g5 & E5 & R5 & _). rewrite (bind_val _ _ _ _ _ E5), Eb.
  destruct (csr_list_ok next_dest_rship src_node g5 c4 _ _ ltac:(by etrans) Hin (pushed_word _ _)) as (g6 & E6 & R6).
  exists g6. rewrite E6. unfold c4. by rewrite pushed_app.
Qed.

Lemma csr_node_ok g1 c nid : reads x g g1 → 0 ≤ nid < vec_capacity (nodes_ g) → 0 ≤ c.2 < two64 →
  let c' := pushed (seen_node g bidirectional outs ins nid) c in
  ∃ g2, csr_node weight_func x bidirectional nid (g1, c) = ((g2, (push_row c'.2 c'.1, c'.2)), Val tt) ∧ reads x g g2.
Proof.
  intros R Hid Hc c'. destruct (reads_rd _ _ _ R) as [Hn1 Hr1].
  assert (vec_capacity (nodes_ g1) = vec_capacity (nodes_ g) ∧ (is_Some (vec_get (nodes_ g1) nid) ↔ is_Some (vec_get (nodes_ g) nid)))
    as [Ecap Eused] by (destruct R as (vn & vr & -> & [] & _); done).
  unfold csr_node. rewrite bind_get. cbn [fst]. rewrite vec_is_used_ok, bind_lift by (by rewrite ?Ecap).
  rewrite (bool_decide_ext _ _ Eused). unfold c', seen_node. destruct (vec_get (nodes_ g) nid) as [t|] eqn:Et.
  - rewrite bool_decide_eq_true_2 by (by eexists). cbn [when].
    destruct (node_pushed g1 c nid R ltac:(by rewrite Et; eexists) Hc) as (g2 & E2 & R2). exists g2. by rewrite (bind_val _ _ _ _ _ E2).
  - rewrite bool_decide_eq_false_2 by (by intros [? ?]). cbn [when]. exists g1. rewrite pushed_nil by done. by rewrite bind_ret.
Qed.

(** The arrays of the rows of the first nodes. *)
Lemma csr_nodes_ok n k g1 rows : reads x g g1 → Z.of_nat n + Z.of_nat k ≤ vec_capacity (nodes_ g) →
  rows = seen_node g bidirectional outs ins <$> seqZ 0 (Z.of_nat k) →
  let rows' := seen_node g bidirectional outs ins <$> seqZ 0 (Z.of_nat (n + k)) in
  Z.of_nat (length (cols rows')) < two64 →
  ∃ g2, for_each (csr_node weight_func x bidirectional) (seqZ (Z.of_nat k) (Z.of_nat n))
      (g1, (csr_of rows, Z.of_nat (length (cols rows))))
    = ((g2, (csr_of rows', Z.of_nat (length (cols rows')))), Val tt) ∧ reads x g g2.
Proof.
  revert k g1 rows. induction n as [|n IH]; intros k g1 rows R Hcap -> rows' Hlen.
  { exists g1. by split. }
  assert (seqZ 0 (Z.of_nat (S k)) = seqZ 0 (Z.of_nat k) ++ [Z.of_nat k]) as ES.
  { replace (Z.of_nat (S k)) with (Z.of_nat k + 1) by lia. rewrite seqZ_app by lia. f_equal. }
  set (rows0 := seen_node g bidirectional outs ins <$> seqZ 0 (Z.of_nat k)) in *.
  set (r := seen_node g bidirectional outs ins (Z.of_nat k)).
  assert (seen_node g bidirectional outs ins <$> seqZ 0 (Z.of_nat (S k)) = rows0 ++ [r]) as ER by by rewrite ES, fmap_app.
  assert (length (cols (rows0 ++ [r])) ≤ length (cols rows'))%nat as Hle.
  { unfold rows'. rewrite <-ER. replace (Z.of_nat (S n + k)) with (Z.of_nat (S k) + Z.of_nat n) by lia.
    rewrite seqZ_app, fmap_app, cols_app, length_app by lia. lia. }
  rewrite cols_snoc, length_app in Hle.
  rewrite seqZ_cons by lia. rewrite for_each_cons.
  destruct (csr_node_ok g1 (csr_of rows0, Z.of_nat (length (cols rows0))) (Z.of_nat k) R) as (g2 & E2 & R2); [lia|cbn; lia|].
  rewrite (bind_val _ _ _ _ _ E2). fold r.
  assert ((pushed r (csr_of rows0, Z.of_nat (length (cols rows0)))).2 = Z.of_nat (length (cols (rows0 ++ [r])))) as Elen.
  { cbn [pushed snd]. rewrite cols_snoc, length_app. unfold u64. rewrite Z.mod_small; lia. }
  rewrite Elen. assert (push_row (Z.of_nat (length (cols (rows0 ++ [r])))) (pushed r (csr_of rows0, Z.of_nat (length (cols rows0)))).1
    = csr_of (rows0 ++ [r])) as ->.
  { rewrite csr_of_snoc, cols_snoc. done. }
  replace (Z.succ (Z.of_nat k)) with (Z.of_nat (S k)) by lia. replace (Z.pred (Z.of_nat (S n))) with (Z.of_nat n) by lia.
  destruct (IH (S k) g2 (rows0 ++ [r]) R2 ltac:(lia) (eq_sym ER)) as (g3 & E3 & R3).
  { by replace (n + S k)%nat with (S n + k)%nat by lia. }
  exists g3. split; [|done]. replace (n + S k)%nat with (S n + k)%nat in E3 by lia. exact E3.
Qed.
End run.

(** The build, run to its end. *)
Lemma host_csr_build_ok g tx bidirectional outs ins :
  current_transaction_ g = Some tx → xid_ tx = x → vec_rd (nodes_ g) → vec_rd (rships_ g) →
  vec_capacity (nodes_ g) ≤ UNKNOWN → lists_seen g outs ins →
  let rows := seen_rows g bidirectional outs ins in
  Z.of_nat (length (cols rows)) < two64 →
  ∃ g', host_csr_build weight_func bidirectional (g, new_csr) = ((g', csr_of rows), Val tt) ∧ reads x g g'.
Proof.
  intros Htx Hx Hn Hr Hcap Hl rows Hlen. unfold host_csr_build. cbn [fst snd].
  destruct (vec_last_used_ok _ Hn Hcap) as [Hlu _]. fold (max_num_nodes g) in Hlu.
  destruct (csr_nodes_ok g tx Htx Hx Hr bidirectional outs ins Hl (Z.to_nat (max_num_nodes g)) 0 g []) as (g' & E & R); [by apply reads_refl|lia|done| |].
  { rewrite Nat.add_0_r, Z2Nat.id by lia. done. }
  rewrite Nat.add_0_r, Z2Nat.id in E by lia. exists g'. split; [|done].
  assert (on_fst tx_xid (g, (new_csr, 0)) = ((g, (new_csr, 0)), Val x)) as Ex.
  { unfold on_fst. cbn [fst snd]. by rewrite (tx_xid_ok _ _ Htx), Hx. }
  rewrite (bind_val _ _ _ _ _ Ex), bind_get. cbv zeta. unfold on_csr. rewrite bind_modify. unfold for_upto. cbn [fst snd].
  fold (max_num_nodes g). change (push_row 0 new_csr, 0) with (csr_of [], Z.of_nat (length (cols []))). change (Z.of_nat 0) with 0 in E. by rewrite E.
Qed.

Lemma seen_rows_ok g bidirectional outs ins :
  vec_rd (nodes_ g) → vec_capacity (nodes_ g) ≤ UNKNOWN → Z.of_nat (length (cols (seen_rows g bidirectional outs ins))) < two64 →
  rows_ok (seen_rows g bidirectional outs ins).
Proof.
  intros Hn Hcap Hlen. destruct (vec_last_used_ok _ Hn Hcap) as [Hlu _]. fold (max_num_nodes g) in Hlu. split; [|split; [done|]].
  - unfold seen_rows. apply Forall_fmap, Forall_forall. intros nid _. cbn. unfold seen_node. destruct (vec_get _ _); [|done].
    unfold seen_row. cbn [fst snd]. rewrite !length_app. destruct bidirectional; cbn [seen_edges fst snd]; by rewrite !length_fmap.
  - unfold seen_rows. rewrite length_fmap, length_seqZ. unfold UNKNOWN in *. lia.
Qed.
Lemma seen_rows_lookup g bidirectional outs ins nid : 0 ≤ nid < max_num_nodes g →
  seen_rows g bidirectional outs ins !! Z.to_nat nid = Some (seen_node g bidirectional outs ins nid).
Proof.
  intros Hid. unfold seen_rows. rewrite list_lookup_fmap, lookup_seqZ_lt by lia. cbn. do 2 f_equal. lia.
Qed.
End build.

(** ** Merging the records of ADJ_DELTA *)
Section merge.
Notation store := (delta_store adj_rec adj_data).
Implicit Types (d : store) (r : adj_rec) (l : list adj_rec) (p : adj_data).

(** The records a merge considers, and the newest of a node. *)
Definition counted (last txid : Z) r : Prop := ar_txid r ≤ txid ∧ ¬ (ar_txid r < last ∧ ar_merged r = true).
Definition newest (last txid : Z) l r : Prop :=
  r ∈ l ∧ counted last txid r ∧ ∀ r', r' ∈ l → counted last txid r' → ar_node r' = ar_node r → ar_txid r' ≤ ar_txid r.
Definition readable p l : Prop := ∀ r, r ∈ l → ∃ c, adj_content p r = Val c.

Record merged_upto (last txid : Z) p l (s : merge_state (R:=adj_rec) (E:=list Z * list double)) : Prop := {
  mu_none nid : ms_deltas s !! nid = None → ∀ r, r ∈ l → counted last txid r → ar_node r ≠ nid;
  mu_some nid c : ms_deltas s !! nid = Some c →
    ∃ r, newest last txid l r ∧ ar_node r = nid ∧ adj_content p r = Val c ∧ nid_to_txid s !! nid = Some (ar_txid r);
  mu_txid nid : is_Some (nid_to_txid s !! nid) → is_Some (ms_deltas s !! nid);
  mu_recs : Forall2 (λ r r', r' = r ∨ ar_txid r ≤ txid ∧ r' = adj_set_merged r) l (ms_recs s);
  mu_clear : ms_clear s = true ↔ ∀ r, r ∈ l → ar_txid r ≤ txid
}.

Lemma newest_snoc_other last txid l r r0 :
  newest last txid l r → (counted last txid r0 → ar_node r0 = ar_node r → ar_txid r0 ≤ ar_txid r) → newest last txid (l ++ [r0]) r.
Proof.
  intros (Hin & Hc & Hmax) H0. split; [set_solver|]. split; [done|].
  intros r' [Hr'| ->%list_elem_of_singleton]%elem_of_app; [by apply Hmax|done].
Qed.
Lemma merge_step_ok last txid p l r s : merged_upto last txid p l s → (∃ c, adj_content p r = Val c) →
  ∃ s', merge_step ar_txid ar_merged (adj_merge p) last txid r s = (s', Val tt) ∧ merged_upto last txid p (l ++ [r]) s'.
Proof.
  intros M [c Hc]. unfold merge_step.
  assert (∀ s', ms_deltas s' = ms_deltas s → nid_to_txid s' = nid_to_txid s → ¬ counted last txid r →
    ms_recs s' = ms_recs s ++ [r] → (ms_clear s' = true ↔ ms_clear s = true ∧ ar_txid r ≤ txid) → merged_upto last txid p (l ++ [r]) s') as Hskip.
  { intros s' E1 E2 Hn E3 E4. destruct M as [M1 M2 M3 M4 M5]. split; rewrite ?E1, ?E2, ?E3.
    - intros nid Hnid r' [Hr'| ->%list_elem_of_singleton]%elem_of_app; [by apply M1|done].
    - intros nid c' Hs. destruct (M2 _ _ Hs) as (r' & Hnew & H). exists r'. split; [by apply newest_snoc_other|done].
    - apply M3.
    - apply Forall2_app; [done|]. by repeat constructor.
    - rewrite E4, M5. set_solver. }
  case_bool_decide as Hlt.
  { eexists. split; [done|]. apply Hskip; try done; [intros [? _]; lia|]. cbn. split; [done|intros [_ ?]; lia]. }
  destruct (bool_decide (ar_txid r < last) && ar_merged r) eqn:Em.
  { apply andb_true_iff in Em as [Em1%bool_decide_eq_true Em2]. eexists. split; [done|]. apply Hskip; try done; [by intros [_ []]|].
    cbn. split; [intros ?; split; [done|lia]|tauto]. }
  assert (counted last txid r) as Hcnt.
  { split; [lia|]. intros [H1 H2]. rewrite bool_decide_eq_true_2, H2 in Em by done. done. }
  clear Hskip Em. destruct M as [M1 M2 M3 M4 M5]. unfold adj_merge. rewrite bind_get. cbv zeta.
  assert (∀ nt, (∀ r', newest last txid l r' → ar_node r' = ar_node r → ar_txid r' < ar_txid r) → nt = <[ar_node r := ar_txid r]> (nid_to_txid s) →
    merged_upto last txid p (l ++ [r]) (mk_merge (ms_recs s ++ [adj_set_merged r]) (<[ar_node r := c]> (ms_deltas s)) nt (ms_clear s))) as Htake.
  { intros nt Hnew ->. split; cbn.
    - intros nid Hnid%lookup_insert_None r' [Hr'| ->%list_elem_of_singleton]%elem_of_app Hcr'; [by apply M1; [apply Hnid|..]|destruct Hnid as [_ Hne]; congruence].
    - intros nid c' [[<- <-]|[Hne Hs]]%lookup_insert_Some.
      + exists r. split; [|split; [done|split; [done|by rewrite lookup_insert_eq]]]. split; [set_solver|]. split; [done|].
        intros r' [Hr'| ->%list_elem_of_singleton]%elem_of_app Hcr' Hnode; [|lia].
        destruct (ms_deltas s !! ar_node r) as [c'|] eqn:E; [|exfalso; by eapply M1].
        destruct (M2 _ _ E) as (r2 & Hnew2 & Hn2 & _). specialize (Hnew _ Hnew2 Hn2). destruct Hnew2 as (_ & _ & Hmax).
        specialize (Hmax r' Hr' Hcr' ltac:(congruence)). lia.
      + destruct (M2 _ _ Hs) as (r' & Hnew' & <- & Hc' & Ht'). exists r'. split; [by apply newest_snoc_other; [|congruence]|].
        split; [done|split; [done|by rewrite lookup_insert_ne]].
    - intros nid [<-|[Hne Hs]]%lookup_insert_is_Some; [rewrite lookup_insert_eq; by eexists|].
      rewrite lookup_insert_ne by done. by apply M3.
    - apply Forall2_app; [done|]. constructor; [right; split; [lia|done]|constructor].
    - rewrite M5. split; [|set_solver]. intros H r' [Hr'| ->%list_elem_of_singleton]%elem_of_app; [by apply H|lia]. }
  destruct (nid_to_txid s !! ar_node r) as [t|] eqn:Et; [case_bool_decide as Hlt'|].
  - rewrite Hc, bind_lift. eexists. split; [done|]. apply Htake; [|done]. intros r' Hnew' Hn'.
    destruct (M3 (ar_node r) ltac:(by rewrite Et; eexists)) as [c' Hc']. destruct (M2 _ _ Hc') as (r2 & (Hi2 & Hc2 & _) & Hn2 & _ & Ht2).
    destruct Hnew' as (Hi' & Hc'' & Hmax'). rewrite Et in Ht2. injection Ht2 as ->.
    destruct (M2 _ _ Hc') as (r3 & (_ & _ & Hmax3) & Hn3 & _ & Ht3). rewrite Et in Ht3. injection Ht3 as Ht3.
    specialize (Hmax3 r' Hi' Hc'' ltac:(congruence)). lia.
  - eexists. split; [done|]. destruct (M3 (ar_node r) ltac:(by rewrite Et; eexists)) as [c' Hc'].
    destruct (M2 _ _ Hc') as (r2 & Hnew2 & Hn2 & _ & Ht2). rewrite Et in Ht2. injection Ht2 as ->. split; cbn.
    + intros nid Hnid r' [Hr'| ->%list_elem_of_singleton]%elem_of_app Hcr'; [by apply M1|]. intros <-. congruence.
    + intros nid c2 Hs. destruct (M2 _ _ Hs) as (r3 & Hnew3 & Hn3 & Hc3 & Ht3). exists r3. split; [|done].
      apply newest_snoc_other; [done|]. intros _ Hnr. assert (nid = ar_node r) as -> by congruence. rewrite Et in Ht3. injection Ht3 as Ht3. lia.
    + apply M3.
    + apply Forall2_app; [done|]. by repeat constructor; left.
    + rewrite M5. split; [|set_solver]. intros H r' [Hr'| ->%list_elem_of_singleton]%elem_of_app; [by apply H|lia].
  - rewrite Hc, bind_lift. eexists. split; [done|]. apply Htake; [|done]. intros r' (Hi' & Hc' & _) Hn'. exfalso.
    destruct (ms_deltas s !! ar_node r) as [c'|] eqn:E; [|by eapply M1].
    destruct (M2 _ _ E) as (r2 & _ & _ & _ & Ht2). congruence.
Qed.

Lemma merge_loop_ok last txid p l : readable p l →
  ∃ s, for_each (merge_step ar_txid ar_merged (adj_merge p) last txid) l (mk_merge [] ∅ ∅ true) = (s, Val tt) ∧ merged_upto last txid p l s.
Proof.
  induction l as [|r l IH] using rev_ind; intros Hr.
  { eexists. split; [done|]. split; cbn.
    - by intros nid _ r ?%elem_of_nil.
    - by intros nid c ?%lookup_empty_Some.
    - by intros nid ?%lookup_empty_is_Some.
    - constructor.
    - split; [by intros _ r ?%elem_of_nil|done]. }
  destruct IH as (s & E & M); [intros r' Hr'; apply Hr; set_solver|].
  destruct (merge_step_ok last txid p l r s M (Hr r ltac:(set_solver))) as (s' & E' & M').
  exists s'. split; [|done]. rewrite for_each_app, (bind_val _ _ _ _ _ E), for_each_cons, (bind_val _ _ _ _ _ E'). done.
Qed.
Lemma merge_ok txid d : readable (delta_data d) (delta_recs_ d) →
  ∃ d' m s, adj_merge_deltas txid d = Val (d', m) ∧ m = ms_deltas s ∧ merged_upto (last_txn_id_ d) txid (delta_data d) (delta_recs_ d) s
    ∧ last_node_id_ d' = last_node_id_ d ∧ current_csr d' = current_csr d ∧ delta_data d' = delta_data d
    ∧ delta_recs_ d' = if ms_clear s then [] else ms_recs s.
Proof.
  intros Hr. destruct (merge_loop_ok (last_txn_id_ d) txid _ _ Hr) as (s & E & M).
  unfold adj_merge_deltas, merge_deltas. rewrite E. eexists _, _, s. split; [done|]. split; [done|]. split; [done|].
  by destruct (ms_clear s).
Qed.
End merge.

(** ** The records of the store

    The positions of the records stay inside the vectors. *)
Section records.
Implicit Types d : delta_store adj_rec adj_data.
Record store_ok d : Prop := {
  so_next : next_pos_ (delta_data d) = Z.of_nat (length (ad_ids (delta_data d)));
  so_weights : length (ad_weights (delta_data d)) = length (ad_ids (delta_data d));
  so_word : Z.of_nat (length (ad_ids (delta_data d))) < two64;
  so_recs r : r ∈ delta_recs_ d → 0 ≤ ar_pos r ∧ 0 ≤ ar_count r ∧ ar_pos r + ar_count r ≤ Z.of_nat (length (ad_ids (delta_data d)))
}.
Lemma range_of_Some {A} (l : list A) i n : 0 ≤ i → 0 ≤ n → i + n ≤ Z.of_nat (length l) → ∃ l', range_of l i n = Val l'.
Proof. intros. unfold range_of. rewrite bool_decide_eq_true_2 by done. by eexists. Qed.
Lemma range_of_app {A} (l1 l2 : list A) i n l : range_of l1 i n = Val l → range_of (l1 ++ l2) i n = Val l.
Proof.
  unfold range_of. case_bool_decide as H; [|done]. intros [= <-]. rewrite bool_decide_eq_true_2 by (rewrite length_app; lia).
  f_equal. rewrite drop_app_le by lia. rewrite take_app_le; [done|rewrite length_drop; lia].
Qed.
Lemma range_of_end {A} (l1 l2 : list A) n : n = length l1 → range_of (l1 ++ l2) (Z.of_nat n) (Z.of_nat (length l2)) = Val l2.
Proof. intros ->. rewrite <-(app_nil_r l2) at 1. apply range_of_take. Qed.
Lemma store_ok_readable d : store_ok d → readable (delta_data d) (delta_recs_ d).
Proof.
  intros [_ Hw _ Hr] r Hin. destruct (Hr _ Hin) as (H1 & H2 & H3). unfold adj_content.
  destruct (range_of_Some (ad_ids (delta_data d)) _ _ H1 H2 H3) as [l ->]. rewrite <-Hw in H3.
  destruct (range_of_Some (ad_weights (delta_data d)) _ _ H1 H2 H3) as [l' ->]. by eexists.
Qed.
Lemma content_app p ids ws r n c : adj_content p r = Val c → adj_content (mk_adata (ad_ids p ++ ids) (ad_weights p ++ ws) n) r = Val c.
Proof.
  unfold adj_content. cbn. destruct (range_of (ad_ids p) _ _) as [l|] eqn:E1; [|done]. destruct (range_of (ad_weights p) _ _) as [l'|] eqn:E2; [|done].
  intros [= <-]. by rewrite (range_of_app _ _ _ _ _ E1), (range_of_app _ _ _ _ _ E2).
Qed.

(** What a transaction stores of a node is what a merge reads; the records that
    were there stay as they were, and so does the layout. *)
Lemma store_delta_ok txid nid ids ws d : store_ok d → length ws = length ids → Z.of_nat (length ids) < 2 ^ 31 →
  Z.of_nat (length (ad_ids (delta_data d)) + length ids) < two64 →
  let d' := store_delta txid nid ids ws d in
  store_ok d' ∧ (∃ r, delta_recs_ d' = delta_recs_ d ++ [r] ∧ ar_txid r = txid ∧ ar_node r = nid ∧ ar_merged r = false
      ∧ adj_content (delta_data d') r = Val (ids, ws))
  ∧ ∀ r c, r ∈ delta_recs_ d → adj_content (delta_data d) r = Val c → adj_content (delta_data d') r = Val c.
Proof.
  intros [Hn Hw Hb Hr] Hl Hint Hlen d'. assert (s32 (Z.of_nat (length ids)) = Z.of_nat (length ids)) as E32 by (apply s32_small; lia).
  split; [|split].
  - split; cbn [d' store_delta store_rec set_recs set_data delta_data ad_ids ad_weights next_pos_ delta_recs_].
    + rewrite Hn, length_app. unfold u64. rewrite Z.mod_small; lia.
    + rewrite !length_app. lia.
    + rewrite length_app. lia.
    + rewrite length_app. intros r [Hin| ->%list_elem_of_singleton]%elem_of_app; [specialize (Hr _ Hin); lia|]. cbn -[s32]. rewrite Hn, E32. lia.
  - eexists. split; [done|]. do 3 (split; [done|]). unfold adj_content. cbn -[s32]. rewrite Hn, E32.
    by rewrite (range_of_end _ _ _ eq_refl), <-Hl, range_of_end.
  - intros r c _. apply content_app.
Qed.
End records.

(** ** The theorems *)
Section theorems.
Context {V : Type → Type} `{!Vec V} `{!VecUsed V} {D : Type} `{!Dictionary D} {X : Type} `{!Indexes X}.
Notation db := (gdb V D X).

(** C20: A build of the arrays for a transaction that sees every used node ends
    without an exception, changes nothing the transaction sees, and gives every
    node the range of its neighbours: the ends of the relationships the
    transaction sees on the lists of the node, in the order of the lists, each
    with its weight; a position without a node has an empty range. *)
Theorem csr_build_neighbours (g : db) tx weight bidirectional outs ins :
  current_transaction_ g = Some tx → vec_rd (nodes_ g) → vec_rd (rships_ g) → vec_capacity (nodes_ g) ≤ UNKNOWN →
  lists_seen (xid_ tx) g outs ins →
  Z.of_nat (length (cols (seen_rows weight (xid_ tx) g bidirectional outs ins))) < two64 →
  ∃ g' c, host_csr_build weight bidirectional (g, new_csr) = ((g', c), Val tt) ∧ reads (xid_ tx) g g'
    ∧ ∀ nid, 0 ≤ nid < max_num_nodes g → ∃ lo hi,
        elem (row_offsets c) nid = Val lo ∧ elem (row_offsets c) (nid + 1) = Val hi
        ∧ range_of (col_indices c) lo (hi - lo) = Val (seen_node weight (xid_ tx) g bidirectional outs ins nid).1
        ∧ range_of (edge_values c) lo (hi - lo) = Val (seen_node weight (xid_ tx) g bidirectional outs ins nid).2.
Proof.
  intros Htx Hn Hr Hcap Hl Hlen. destruct (host_csr_build_ok weight (xid_ tx) g tx bidirectional outs ins) as (g' & E & R); [done..|].
  exists g', (csr_of (seen_rows weight (xid_ tx) g bidirectional outs ins)). split; [done|]. split; [done|]. intros nid Hid.
  pose proof (seen_rows_lookup weight (xid_ tx) g bidirectional outs ins nid Hid) as Hrow.
  pose proof (seen_rows_ok weight (xid_ tx) g bidirectional outs ins Hn Hcap Hlen) as Hok.
  pose proof (lookup_lt_Some _ _ _ Hrow) as Hlt. rewrite !row_offsets_elem by lia. eexists _, _. do 2 (split; [done|]).
  replace (Z.to_nat (nid + 1)) with (S (Z.to_nat nid)) by lia. rewrite (offset_S _ _ _ Hrow).
  replace (_ + _ - _) with (Z.of_nat (length (seen_node weight (xid_ tx) g bidirectional outs ins nid).1)) by lia.
  by apply row_range.
Qed.

(** C19: The offsets a build makes stay in bounds: there is one more than
    positions of nodes, the first is 0, none is smaller than the one before it,
    and the last is the number of neighbours, which is the number of weights and
    fits into a word. *)
Theorem csr_build_bounds (g : db) tx weight bidirectional outs ins :
  current_transaction_ g = Some tx → vec_rd (nodes_ g) → vec_rd (rships_ g) → vec_capacity (nodes_ g) ≤ UNKNOWN →
  lists_seen (xid_ tx) g outs ins →
  Z.of_nat (length (cols (seen_rows weight (xid_ tx) g bidirectional outs ins))) < two64 →
  ∃ g' c, host_csr_build weight bidirectional (g, new_csr) = ((g', c), Val tt)
    ∧ Z.of_nat (length (row_offsets c)) = max_num_nodes g + 1 ∧ max_num_nodes g ≤ vec_capacity (nodes_ g)
    ∧ elem (row_offsets c) 0 = Val 0 ∧ back (row_offsets c) = Val (Z.of_nat (length (col_indices c)))
    ∧ length (edge_values c) = length (col_indices c)
    ∧ ∀ i j, 0 ≤ i ≤ j → j ≤ max_num_nodes g → ∃ lo hi,
        elem (row_offsets c) i = Val lo ∧ elem (row_offsets c) j = Val hi ∧ 0 ≤ lo ≤ hi ∧ hi ≤ Z.of_nat (length (col_indices c)) < two64.
Proof.
  intros Htx Hn Hr Hcap Hl Hlen. destruct (host_csr_build_ok weight (xid_ tx) g tx bidirectional outs ins) as (g' & E & _); [done..|].
  destruct (vec_last_used_ok _ Hn Hcap) as [Hlu _]. fold (max_num_nodes g) in Hlu.
  destruct (seen_rows_ok weight (xid_ tx) g bidirectional outs ins Hn Hcap Hlen) as (Hw & _).
  set (rows := seen_rows weight (xid_ tx) g bidirectional outs ins) in *.
  assert (Z.of_nat (length rows) = max_num_nodes g) as Hrl by (unfold rows, seen_rows; rewrite length_fmap, length_seqZ; lia).
  exists g', (csr_of rows). split; [done|]. rewrite row_offsets_length. split; [lia|]. split; [lia|].
  split; [by rewrite row_offsets_elem by lia|]. split; [by rewrite row_offsets_back|]. split; [by apply vals_length|].
  intros i j Hij Hj. rewrite !row_offsets_elem by lia. eexists _, _. do 2 (split; [done|]).
  pose proof (offset_le rows (Z.to_nat i) (Z.to_nat j) ltac:(lia)). change (col_indices (csr_of rows)) with (cols rows).
  pose proof (cols_take rows (Z.to_nat j)). unfold offset in *. lia.
Qed.

(** A merge of the records of ADJ_DELTA delivers for every node the
    neighbours and weights of the newest record that counts: records of later
    transactions do not count, nor do those an earlier merge marked.  A node
    without such a record has no entry.  The records are cleared when no later
    transaction needs one; otherwise each of them stays where it is, and those
    of later transactions are left unmarked. *)
Theorem adj_merge_newest txid (d : delta_store adj_rec adj_data) :
  store_ok d →
  ∃ d' m, adj_merge_deltas txid d = Val (d', m)
    ∧ (∀ nid, m !! nid = None ↔ ∀ r, r ∈ delta_recs_ d → counted (last_txn_id_ d) txid r → ar_node r ≠ nid)
    ∧ (∀ nid c, m !! nid = Some c → ∃ r, newest (last_txn_id_ d) txid (delta_recs_ d) r ∧ ar_node r = nid ∧ adj_content (delta_data d) r = Val c)
    ∧ ((∀ r, r ∈ delta_recs_ d → ar_txid r ≤ txid) → delta_recs_ d' = [])
    ∧ ((∃ r, r ∈ delta_recs_ d ∧ txid < ar_txid r) →
        Forall2 (λ r r', r' = r ∨ ar_txid r ≤ txid ∧ r' = adj_set_merged r) (delta_recs_ d) (delta_recs_ d')).
Proof.
  intros Hs. destruct (merge_ok txid d (store_ok_readable _ Hs)) as (d' & m & s & E & -> & [M1 M2 M3 M4 M5] & _ & _ & _ & Er).
  exists d', (ms_deltas s). split; [done|]. split; [|split; [|split]].
  - intros nid. split; [by apply M1|]. intros Hnone. destruct (ms_deltas s !! nid) as [c|] eqn:Es; [|done].
    destruct (M2 _ _ Es) as (r & (Hin & Hc & _) & Hnode & _). exfalso. by eapply Hnone.
  - intros nid c Hm. destruct (M2 _ _ Hm) as (r & Hnew & Hnode & Hc & _). by exists r.
  - intros Hall. apply M5 in Hall. by rewrite Er, Hall.
  - intros (r & Hin & Hlt). destruct (ms_clear s) eqn:Ec; [|by rewrite Er]. destruct M5 as [M5 _]. specialize (M5 eq_refl r Hin). lia.
Qed.

(** What the records tell of the graph a transaction sees: the newest record of
    a node holds its row, and a node without one has the row of the arrays the
    store keeps. *)
Record records_tell (weight : relationship → double) (x : Z) (g : db) (outs ins : Z → list Z)
    (d : delta_store adj_rec adj_data) (rows : list row) : Prop := {
  rt_current : current_csr d = csr_of rows;
  rt_rows : rows ≠ [] ∧ rows_ok rows;
  rt_last : last_node_id_ d = Z.of_nat (length rows - 1);
  rt_changed r : newest (last_txn_id_ d) x (delta_recs_ d) r → 0 ≤ ar_node r < max_num_nodes g
    ∧ ∀ c, adj_content (delta_data d) r = Val c → adj_row c = seen_node weight x g (bidirectional_ d) outs ins (ar_node r);
  rt_same nid : 0 ≤ nid < max_num_nodes g →
    (∀ r, r ∈ delta_recs_ d → counted (last_txn_id_ d) x r → ar_node r ≠ nid) →
    seen_node weight x g (bidirectional_ d) outs ins nid = default ([], []) (rows !! Z.to_nat nid);
  rt_some : ∃ r, r ∈ delta_recs_ d ∧ counted (last_txn_id_ d) x r;
  rt_nodes : Z.of_nat (length rows) ≤ max_num_nodes g
    ∧ (max_num_nodes g = Z.of_nat (length rows) ∨ ∃ r, newest (last_txn_id_ d) x (delta_recs_ d) r ∧ ar_node r = max_num_nodes g - 1)
}.

(** C18: When the records of the delta store tell which rows changed and how,
    and there is one to merge, an update of the arrays kept in the store
    delivers exactly the arrays a new build would deliver for the same
    transaction; the store keeps them with its transaction and the last node. *)
Theorem csr_update_is_build (g : db) tx weight outs ins (d : delta_store adj_rec adj_data) rows :
  current_transaction_ g = Some tx → vec_rd (nodes_ g) → vec_rd (rships_ g) → vec_capacity (nodes_ g) ≤ UNKNOWN →
  lists_seen (xid_ tx) g outs ins →
  Z.of_nat (length (cols (seen_rows weight (xid_ tx) g (bidirectional_ d) outs ins))) < two64 →
  store_ok d → last_txn_id_ d ≠ UNKNOWN → last_txn_id_ d ≤ xid_ tx →
  records_tell weight (xid_ tx) g outs ins d rows →
  ∃ g' csr d', host_csr_build weight (bidirectional_ d) (g, new_csr) = ((g', csr), Val tt)
    ∧ host_csr_update_with_delta weight ar_txid adj_set_merged adj_merge_deltas adj_update (d, (g, new_csr)) = ((d', (g, csr)), Val tt)
    ∧ current_csr d' = csr ∧ last_txn_id_ d' = xid_ tx ∧ last_node_id_ d' = max_num_nodes g - 1.
Proof.
  intros Htx Hn Hr Hcap Hl Hlen Hs Hunk Hle [Hcur [Hne Hrows] Hlast Hch Hsame (r0 & Hr0 & Hc0) [Hlo Hnodes]].
  destruct (host_csr_build_ok weight (xid_ tx) g tx (bidirectional_ d) outs ins) as (g' & E & _); [done..|].
  pose proof (seen_rows_ok weight (xid_ tx) g (bidirectional_ d) outs ins Hn Hcap Hlen) as Hok.
  destruct (merge_ok (xid_ tx) d (store_ok_readable _ Hs)) as (d' & m & s & Em & -> & [M1 M2 M3 _ _] & Eln & Ecur & _ & _).
  assert (∀ r, newest (last_txn_id_ d) (xid_ tx) (delta_recs_ d) r → is_Some (ms_deltas s !! ar_node r)) as Hhas.
  { intros r (Hin & Hc & _). destruct (ms_deltas s !! ar_node r) eqn:Es; [by eexists|]. exfalso. by eapply M1. }
  destruct (vec_last_used_ok _ Hn Hcap) as [Hlu _]. fold (max_num_nodes g) in Hlu.
  assert (∃ n, Z.of_nat n = max_num_nodes g) as [n Hnz] by (exists (Z.to_nat (max_num_nodes g)); lia).
  assert (nodes_after (ms_deltas s) rows n) as Hafter.
  { split; [lia|]. split.
    - intros i [c Hi]. destruct (M2 _ _ Hi) as (r & Hnew & <- & _). destruct (Hch _ Hnew). lia.
    - destruct Hnodes as [?|(r & Hnew & En)]; [left; lia|right]. replace (Z.of_nat n - 1) with (ar_node r) by lia. by apply Hhas. }
  assert (updated n adj_row_of (ms_deltas s) rows = seen_rows weight (xid_ tx) g (bidirectional_ d) outs ins) as EU.
  { apply list_eq_same_length with n; [|by rewrite updated_length|].
    { unfold seen_rows. rewrite length_fmap, length_seqZ. lia. }
    intros i r1 r2 Hi H1 H2. rewrite updated_lookup in H1 by done. injection H1 as <-.
    assert (0 ≤ Z.of_nat i < max_num_nodes g) as Hi' by lia.
    pose proof (seen_rows_lookup weight (xid_ tx) g (bidirectional_ d) outs ins (Z.of_nat i) Hi') as H3.
    rewrite Nat2Z.id, H2 in H3. injection H3 as ->. destruct (ms_deltas s !! Z.of_nat i) as [c|] eqn:Ei; cbn.
    - destruct (M2 _ _ Ei) as (r & Hnew & En & Hc & _). destruct (Hch _ Hnew) as [_ Hrow]. unfold adj_row_of. rewrite (Hrow _ Hc). by rewrite En.
    - rewrite (Hsame (Z.of_nat i)); [by rewrite Nat2Z.id|lia|by apply M1]. }
  exists g', (csr_of (seen_rows weight (xid_ tx) g (bidirectional_ d) outs ins)),
    (set_csr (xid_ tx) (csr_of (seen_rows weight (xid_ tx) g (bidirectional_ d) outs ins)) d').
  split; [done|]. split.
  - unfold host_csr_update_with_delta. rewrite bind_get. cbn [fst snd]. rewrite Htx. cbv zeta.
    rewrite !bool_decide_eq_false_2 by (done || lia). rewrite Em, bind_lift, bind_modify. cbn [fst snd].
    rewrite bool_decide_eq_false_2.
    2: { intros He. eapply M1; [|exact Hr0|exact Hc0|reflexivity]. by rewrite He. }
    rewrite Eln, Ecur, Hcur, Hlast.
    pose proof (adj_update_ok rows (ms_deltas s) n Hne Hrows Hafter ltac:(by rewrite EU)) as EA. rewrite EU in EA.
    assert (on_snd (on_snd (adj_update (Z.of_nat (length rows - 1)) (csr_of rows) (ms_deltas s))) (d', (g, new_csr))
      = ((d', (g, csr_of (seen_rows weight (xid_ tx) g (bidirectional_ d) outs ins))), Val tt)) as ES.
    { unfold on_snd. cbn [fst snd]. by rewrite EA. }
    rewrite (bind_val _ _ _ _ _ ES). done.
  - split; [done|]. split; [done|]. cbn [set_csr last_node_id_]. rewrite last_node by (done || (rewrite <-EU; intros H0; apply (f_equal length) in H0;
      rewrite updated_length in H0; destruct rows; [done|]; cbn [length] in *; lia)).
    rewrite <-EU, updated_length. destruct rows; [done|]. cbn [length] in *. lia.
Qed.

(** When no record is to be merged, an update delivers no arrays at all:
    the arrays it was given stay empty, while the store has the current ones. *)
Theorem csr_update_delivers_nothing (g : db) tx weight (d : delta_store adj_rec adj_data) :
  current_transaction_ g = Some tx → last_txn_id_ d ≠ UNKNOWN → last_txn_id_ d ≤ xid_ tx → store_ok d →
  (∀ r, r ∈ delta_recs_ d → ¬ counted (last_txn_id_ d) (xid_ tx) r) →
  ∃ d', host_csr_update_with_delta weight ar_txid adj_set_merged adj_merge_deltas adj_update (d, (g, new_csr)) = ((d', (g, new_csr)), Val tt)
    ∧ current_csr d' = current_csr d.
Proof.
  intros Htx Hunk Hle Hs Hno. destruct (merge_ok (xid_ tx) d (store_ok_readable _ Hs)) as (d' & m & s & Em & -> & [M1 M2 _ _ _] & _ & Ecur & _).
  exists d'. split; [|done]. unfold host_csr_update_with_delta. rewrite bind_get. cbn [fst snd]. rewrite Htx. cbv zeta.
  rewrite !bool_decide_eq_false_2 by (done || lia). rewrite Em, bind_lift, bind_modify. cbn [fst snd].
  rewrite bool_decide_eq_true_2; [done|]. apply map_empty. intros nid. destruct (ms_deltas s !! nid) as [c|] eqn:Es; [|done].
  destruct (M2 _ _ Es) as (r & (Hin & Hc & _) & _). exfalso. by eapply Hno.
Qed.

(** What a transaction stores of a node is what a merge reads of its record,
    as long as a node has less than 2^31 neighbours and the vectors hold less
    than 2^64; storing it leaves what
    the records before it hold. *)
Theorem store_delta_roundtrip txid nid ids ws (d : delta_store adj_rec adj_data) : store_ok d → length ws = length ids → Z.of_nat (length ids) < 2 ^ 31 →
  Z.of_nat (length (ad_ids (delta_data d)) + length ids) < two64 →
  let d' := store_delta txid nid ids ws d in
  store_ok d' ∧ (∃ r, delta_recs_ d' = delta_recs_ d ++ [r] ∧ ar_txid r = txid ∧ ar_node r = nid ∧ ar_merged r = false
      ∧ adj_content (delta_data d') r = Val (ids, ws))
  ∧ ∀ r c, r ∈ delta_recs_ d → adj_content (delta_data d) r = Val c → adj_content (delta_data d') r = Val c.
Proof. apply store_delta_ok. Qed.

(** With DIFF_DELTA an update gives every changed node of the old arrays its
    old neighbours and the inserted ones, without all that are among the
    deleted ones, whether old or inserted; a new node gets those inserted, the
    others keep their rows, and positions no node uses are empty.  That the node
    itself is deleted is not looked at. *)
Theorem diff_update_rows rows (m : gmap Z diff_delta) n :
  rows ≠ [] → rows_ok rows → nodes_after m rows n → rows_ok (updated n diff_row_of m rows) →
  (∀ i d, m !! i = Some d → length (inserts_ d) = length (weights_ d)) →
  ∃ T, diff_update (Z.of_nat (length rows - 1)) (csr_of rows) m new_csr = (csr_of T, Val tt) ∧ length T = n
    ∧ ∀ i, (i < n)%nat → T !! i = Some
        match m !! Z.of_nat i, rows !! i with
        | None, Some r => r
        | None, None => ([], [])
        | Some d, None => (inserts_ d, to_float <$> weights_ d)
        | Some d, Some r =>
          let l := filter (λ e, e.1 ∉ deletes_ d) (zip (r.1 ++ inserts_ d) (r.2 ++ weights_ d)) in (l.*1, to_float <$> l.*2)
        end.
Proof.
  intros Hne H1 Hn H2 Hw. exists (updated n diff_row_of m rows). split; [by apply diff_update_ok|].
  split; [apply updated_length|]. intros i Hi. rewrite updated_lookup by done.
  by destruct (m !! Z.of_nat i) as [d|], (rows !! i) as [r|].
Qed.
End theorems.
