(* ===== verification/QopAlgorithms.v ===== *)
(** * QopAlgorithms: operators that call graph algorithms (src/query/plan_op/qop_analytics.cpp,
      qop_algorithm.hpp, qop_algorithm.cpp, algorithms.cpp)

    The searches are those of [ShortestPath]; an operator
    turns what they find into tuples.  Doubles of a tuple are their bits. *)

From Stdlib Require Import Ascii SpecFloat.
From stdpp Require Import relations.
From S2P Require Import Prelude VecSpec Txn Mvto DictSpec IndexSpec Literals Property PropertyList GraphState GraphOps QueryCtx Bfs ShortestPath QResult Expr Qop.
From S2P Require Import GraphCommit GraphIndexFacts GraphFacts GraphNodes QueryFacts QueryTraversal SearchFacts ShortestFacts.

Section algorithms.
Context {V : Type → Type} `{!Vec V} `{!VecScan V} {D : Type} `{!Dictionary D} {X : Type} `{!Indexes X}.
Notation db := (gdb V D X).
Notation op := (op (V:=V) (D:=D) (X:=X)).
Context {A : Type}.
Notation st := (db * A)%type.
Implicit Types next : op A.

(** [boost::get<node *>(v[i])->id()] *)
Definition id_at (v : qr_tuple) (i : nat) : M st Z :=
  qv ← elem_at v i; n ← node_ptr qv; o ← on_fst (node_ref n); mret (node_id_ (body_ o)).
(** The visitor the operators pass does nothing. *)
Definition no_visit (n : oref) (p : list Z) : M st unit := mret tt.
Definition path_value (p : path_item) : query_result := qr_array (path_ p).
Definition weight_value (p : path_item) : query_result := qr_double (sf_to_bits (weight_ p)).

(** ** Searches between two nodes of the tuple *)
Section paths.
Variables (start_ stop_ : nat) (bidirectional : bool) (rpred_ : oref → M st bool).
Definition shortest_path_op (fuel : nat) (all_spaths_ : bool) next : op A :=
  mk_op (λ v,
      start ← id_at v start_; stop ← id_at v stop_;
      if all_spaths_ then
        r ← all_unweighted_shortest_paths fuel start stop bidirectional rpred_ no_visit [];
        for_each (λ p, consume next (v ++ [path_value p])) r.2
      else
        r ← unweighted_shortest_path fuel start stop bidirectional rpred_ no_visit new_path_item;
        when r.1 (consume next (v ++ [path_value r.2])))
    (finish next).
Definition weighted_shortest_path_op (rweight_ : oref → M st double) (all_spaths_ : bool) next : op A :=
  mk_op (λ v,
      start ← id_at v start_; stop ← id_at v stop_;
      if all_spaths_ then
        r ← all_weighted_shortest_paths start stop bidirectional rpred_ rweight_ [];
        for_each (λ p, consume next (v ++ [weight_value p])) r.2
      else
        r ← weighted_shortest_path start stop bidirectional rpred_ rweight_ new_path_item;
        when r.1 (consume next (v ++ [weight_value r.2])))
    (finish next).
End paths.
Definition k_weighted_shortest_path_op (ptime_of_date time_from_string : str → res Z) (junk : Z) (start_ stop_ k_ : nat) (bidirectional : bool)
    (rpred_ : oref → M st bool) (rweight_ : oref → M st double) next : op A :=
  mk_op (λ v,
      start ← id_at v start_; stop ← id_at v stop_;
      r ← k_weighted_shortest_path ptime_of_date time_from_string junk start stop k_ bidirectional rpred_ rweight_;
      for_each (λ p, consume next (v ++ [weight_value p])) r.2)
    (finish next).

(** ** The row of a node *)
Definition collect_edge (weight_func_ : relationship → double) (side : relationship → Z) (r : oref)
    : M (db * (A * (list Z * list double))) unit :=
  o ← on_fst (rship_ref r);
  x ← vars; set_vars (x.1 ++ [side (body_ o)], x.2 ++ [weight_func_ (body_ o)]).
Definition row_values (ids : list Z) (ws : list double) : qr_tuple :=
  concat (zip_with (λ i w, [qr_uint64 i; qr_double (sf_to_bits w)]) ids ws).
Definition csr_data (weight_func_ : relationship → double) (bidirectional : bool) (pos_ : option nat) next : op A :=
  mk_op (λ v,
      qv ← elem_or_back v pos_; n ← node_ptr qv;
      r ← run_search ([], [])
        (o ← on_fst (node_ref n);
         foreach_from_relationship_of_node (body_ o) (collect_edge weight_func_ dest_node);;
         when bidirectional
           (o ← on_fst (node_ref n); foreach_to_relationship_of_node (body_ o) (collect_edge weight_func_ src_node)));
      o ← on_fst (node_ref n);
      let '(ids, ws) := r.2 in
      consume next (v ++ [qr_uint64 (node_id_ (body_ o)); qr_int (Z.of_nat (length ids))] ++ row_values ids ws))
    (finish next).

(** ** Algorithms called by name

    Their arguments are [std::any] values; a missing first argument is read
    behind the end of the vector. *)
Notation tuple_list := (list qr_tuple).
Definition tuple_algorithm_func : Type := qr_tuple → list any → M st tuple_list.
Definition set_algorithm_func : Type := list qr_tuple → list any → M st tuple_list.

Definition string_arg (args : list any) (i : nat) : res str :=
  match args !! i with Some (any_string s) => Val s | Some _ => Exn bad_any_cast | None => Exn undefined_behaviour end.
(** [args.size() > i ? std::any_cast<int>(args[i]) == 1 : false] *)
Definition flag_arg (args : list any) (i : nat) : res bool :=
  match args !! i with Some (any_int k) => Val (bool_decide (k = 1)) | Some _ => Exn bad_any_cast | None => Val false end.
Definition labelled_with (label : Z) (r : oref) : M st bool :=
  o ← on_fst (rship_ref r); mret (bool_decide (rship_label (body_ o) = label)).
(** [get_property<double>(rd.properties, key)], 0.0 when there is none *)
Definition property_weight (key : str) (r : oref) : M st double :=
  o ← on_fst (rship_ref r);
  rd ← on_fst (get_rship_description (rship_id_ (body_ o)));
  match find_property (rd_properties rd) key with
  | None => mret zero_weight
  | Some (any_double b) => mret (bits_to_sf b)
  | Some _ => throw query_processing_error
  end.

Definition shortest_path_algorithm (fuel : nat) : tuple_algorithm_func := λ v args,
  if bool_decide (length v < 2)%nat then mret []
  else
    start ← id_at v (length v - 2); stop ← id_at v (length v - 1);
    s ← lift_res (string_arg args 0); label ← on_fst (get_code s);
    bidirectional ← lift_res (flag_arg args 1); all_spaths ← lift_res (flag_arg args 2);
    if all_spaths : bool then
      r ← all_unweighted_shortest_paths fuel start stop bidirectional (labelled_with label) no_visit [];
      mret ((λ p, [path_value p]) <$> r.2)
    else
      r ← unweighted_shortest_path fuel start stop bidirectional (labelled_with label) no_visit new_path_item;
      mret (if r.1 : bool then [[path_value r.2]] else []).
Definition weighted_shortest_path_algorithm : tuple_algorithm_func := λ v args,
  if bool_decide (length v < 2)%nat then mret []
  else
    start ← id_at v (length v - 2); stop ← id_at v (length v - 1);
    s ← lift_res (string_arg args 0); label ← on_fst (get_code s);
    weight_label ← lift_res (string_arg args 1);
    bidirectional ← lift_res (flag_arg args 2); all_spaths ← lift_res (flag_arg args 3);
    if all_spaths : bool then
      r ← all_weighted_shortest_paths start stop bidirectional (labelled_with label) (property_weight weight_label) [];
      mret ((λ p, [path_value p]) <$> r.2)
    else
      r ← weighted_shortest_path start stop bidirectional (labelled_with label) (property_weight weight_label) new_path_item;
      mret (if r.1 : bool then [[path_value r.2]] else []).

(** The counters are incoming, outgoing. *)
Definition count_incoming (r : oref) : M (db * (A * (Z * Z))) unit := x ← vars; set_vars (s32 (x.1 + 1), x.2).
Definition count_outgoing (r : oref) : M (db * (A * (Z * Z))) unit := x ← vars; set_vars (x.1, s32 (x.2 + 1)).
Definition num_links : tuple_algorithm_func := λ v args,
  qv ← last_value v; n ← node_ptr qv;
  r ← run_search (0, 0)
    (o ← on_fst (node_ref n); foreach_from_relationship_of_node (body_ o) count_outgoing;;
     o ← on_fst (node_ref n); foreach_to_relationship_of_node (body_ o) count_incoming);
  mret [[qr_int r.2.1; qr_int r.2.2]].

(** The date so far and the tweet. *)
Definition check_tweet (tweet_label creation_label : Z) (r : oref) : M (db * (A * (str * option oref))) unit :=
  o ← on_fst (rship_ref r);
  tweet ← on_fst (node_by_id (src_node (body_ o)));
  t ← on_fst (node_ref tweet);
  when (bool_decide (node_label (body_ t) = tweet_label))
    (pval ← on_fst (get_node_property_value (body_ t) creation_label);
     c ← lift_res (get_dcode pval);
     date_str ← on_fst (get_string c);
     x ← vars;
     when (str_lt date_str x.1) (set_vars (date_str, Some tweet))).
Definition oldest_tweet : tuple_algorithm_func := λ v args,
  qv ← last_value v; n ← node_ptr qv;
  tweet_label ← on_fst (get_code (String.list_ascii_of_string "Tweet"));
  creation_label ← on_fst (get_code (String.list_ascii_of_string "created_at"));
  r ← run_search (String.list_ascii_of_string "ZZZZZZZZZZZZ", None)
    (o ← on_fst (node_ref n); foreach_to_relationship_of_node (body_ o) (check_tweet tweet_label creation_label));
  mret (match r.2.2 with Some t => [[qr_node (Some t)]] | None => [] end).

(** The maps of algorithms; [insert] does not replace an entry. *)
Record algorithm_maps : Type := mk_algorithms {
  tuple_algorithms_ : list (str * tuple_algorithm_func);
  set_algorithms_ : list (str * set_algorithm_func)
}.
Definition find_algorithm {F} (name : str) (l : list (str * F)) : option F :=
  snd <$> (snd <$> list_find (λ e, e.1 = name) l).
Definition register_algorithm (name : str) (f : tuple_algorithm_func) (m : algorithm_maps) : algorithm_maps :=
  match find_algorithm name (tuple_algorithms_ m) with
  | None => mk_algorithms ((name, f) :: tuple_algorithms_ m) (set_algorithms_ m)
  | Some _ => m
  end.
Definition register_set_algorithm (name : str) (f : set_algorithm_func) (m : algorithm_maps) : algorithm_maps :=
  match find_algorithm name (set_algorithms_ m) with
  | None => mk_algorithms (tuple_algorithms_ m) ((name, f) :: set_algorithms_ m)
  | Some _ => m
  end.
Definition builtin_algorithms (fuel : nat) : algorithm_maps := mk_algorithms
  [(String.list_ascii_of_string "OldestTweet", oldest_tweet); (String.list_ascii_of_string "NumLinks", num_links);
   (String.list_ascii_of_string "ShortestPath", shortest_path_algorithm fuel);
   (String.list_ascii_of_string "WeightedShortestPath", weighted_shortest_path_algorithm)] [].

Inductive mode_t : Type := m_tuple | m_set.
(** The constructor finds the function of the mode. *)
Record algorithm : Type := mk_algorithm {
  call_mode_ : mode_t; args_ : list any;
  tuple_func_ptr_ : option tuple_algorithm_func; set_func_ptr_ : option set_algorithm_func
}.
Definition new_algorithm (m : algorithm_maps) (algo_name : str) (mode : mode_t) (args : list any) : algorithm :=
  match mode with
  | m_tuple => mk_algorithm mode args (find_algorithm algo_name (tuple_algorithms_ m)) None
  | m_set => mk_algorithm mode args None (find_algorithm algo_name (set_algorithms_ m))
  end.
(** Calling an empty [std::function]. *)
Definition call {F} (f : option F) : res F := match f with Some f => Val f | None => Exn bad_function_call end.
End algorithms.
Arguments mk_algorithms {V D X A}. Arguments mk_algorithm {V D X A}.
Arguments call_mode_ {V D X A}. Arguments args_ {V D X A}. Arguments tuple_func_ptr_ {V D X A}. Arguments set_func_ptr_ {V D X A}.

(** ** [algorithm_op]

    The algorithms run over the database; [input_] is a member. *)
Section algorithm_op.
Context {V : Type → Type} `{!Vec V} `{!VecScan V} {D : Type} `{!Dictionary D} {X : Type} `{!Indexes X}.
Notation op := (op (V:=V) (D:=D) (X:=X)).
Context {A : Type}.
Definition no_function (a : algorithm (V:=V) (D:=D) (X:=X) (A:=A)) : bool :=
  match tuple_func_ptr_ a, set_func_ptr_ a with None, None => true | _, _ => false end.
Definition algorithm_op (a : algorithm (V:=V) (D:=D) (X:=X) (A:=A)) (next : op A) : op (list qr_tuple * A) :=
  mk_op (λ v,
      assert_ (negb (no_function a));;
      match call_mode_ a with
      | m_tuple =>
        on_next (f ← lift_res (call (tuple_func_ptr_ a)); res ← f v (args_ a);
                 for_each (λ tup, consume next (v ++ tup)) res)
      | m_set => input ← own; set_own (input ++ [v])
      end)
    (match call_mode_ a with
     | m_set => input ← own;
                on_next (f ← lift_res (call (set_func_ptr_ a)); res ← f input (args_ a); for_each (consume next) res)
     | m_tuple => mret tt
     end;;
     on_next (finish next)).
End algorithm_op.

(** ** The theorems *)
Section theorems.
Context {V : Type → Type} `{!Vec V} `{!VecScan V} {D : Type} `{!Dictionary D} {X : Type} `{!Indexes X}.
Notation db := (gdb V D X).
Context {A : Type}.
Implicit Types (g : db) (a : A).

(** A node the transaction sees, read through the reference in a tuple. *)
Lemma node_seen {S} g x (s : S) g1 id r o : reads x g g1 → sees x (nodes_ g) id = Some (r, o) →
  ∃ g2 o', on_fst (node_ref (id, r)) (g1, s) = ((g2, s), Val o') ∧ reads x g g2 ∧ body_ o' = body_ o.
Proof.
  intros R Ho. destruct (reads_rd _ _ _ R) as [Hn Hr].
  destruct (sees_refers x (nodes_ g1) id r o) as (o' & Ro & Eb & _); [by rewrite (proj1 (reads_sees _ _ _ R))|].
  destruct (node_ref_refers x g1 s (id, r) o' Hn Hr Ro) as (g2 & E & R2 & _). exists g2, o'. split; [done|]. split; [by etrans|done].
Qed.
Lemma id_at_ok g x a v i id r o g1 : reads x g g1 → v !! i = Some (qr_node (Some (id, r))) → sees x (nodes_ g) id = Some (r, o) →
  ∃ g2, id_at v i (g1, a) = ((g2, a), Val (node_id_ (body_ o))) ∧ reads x g g2.
Proof.
  intros R Hv Ho. unfold id_at, elem_at. rewrite Hv, bind_ret. unfold node_ptr. cbn [qv_get_node].
  destruct (node_seen g x a g1 id r o R Ho) as (g2 & o' & E & R2 & Eb). exists g2. split; [|done].
  rewrite bind_assoc, bind_lift, bind_ret. rewrite (bind_val _ _ _ _ _ E). by rewrite Eb.
Qed.
Lemma no_visits g tx ns p : visits g tx ns (λ r, no_visit r p) (λ _ a, a) (A := A).
Proof. intros id r o g1 a _ _ R. by exists g1. Qed.
Lemma not_visited {B C} (l : list C) (a : B) : foldl (λ b _, b) a l = a.
Proof. by induction l. Qed.

(** C17: The operator for unweighted shortest paths passes a tuple on exactly when
    its second node is another one than its first and can be reached from it;
    the tuple then ends with the nodes of a path between them, and no walk is
    shorter.  Apart from what its subscriber does, it changes nothing the
    transaction sees. *)
Theorem shortest_path_op_delivers g tx (both : bool) outs ins rp ns (rpred : oref → M (db * A) bool) v i j id1 r1 o1 id2 r2 o2 fuel (next : op A) a :
  current_transaction_ g = Some tx → vec_rd (nodes_ g) → vec_rd (rships_ g) → vec_capacity (nodes_ g) < two64 →
  searchable (xid_ tx) g both outs ins ns → NoDup ns → asks g tx rp rpred →
  v !! i = Some (qr_node (Some (id1, r1))) → sees (xid_ tx) (nodes_ g) id1 = Some (r1, o1) →
  v !! j = Some (qr_node (Some (id2, r2))) → sees (xid_ tx) (nodes_ g) id2 = Some (r2, o2) →
  let start := node_id_ (body_ o1) in let stop := node_id_ (body_ o2) in
  let edge := edge g tx both outs ins rp in
  let o := shortest_path_op i j both rpred fuel false next in
  start ∈ ns → (length ns ≤ fuel)%nat →
  ∃ g', reads (xid_ tx) g g' ∧
    ((stop ≠ start ∧ rtc edge start stop
      ∧ ∃ p, consume o v (g, a) = consume next (v ++ [qr_array p]) (g', a)
         ∧ path_to g tx both outs ins rp start p stop ∧ ∀ k, nsteps edge k start stop → Z.of_nat (length p) - 1 ≤ Z.of_nat k)
     ∨ (¬ (stop ≠ start ∧ rtc edge start stop) ∧ consume o v (g, a) = ((g', a), Val tt))).
Proof.
  intros Htx Hn Hr Hcap Hcl Hnd Hrp Hv1 Hs1 Hv2 Hs2 start stop edge o Hstart Hfuel. unfold o, shortest_path_op. cbn [consume].
  destruct (id_at_ok g (xid_ tx) a v i id1 r1 o1 g (reads_refl _ g Hn Hr) Hv1 Hs1) as (g1 & E1 & R1). rewrite (bind_val _ _ _ _ _ E1).
  destruct (id_at_ok g (xid_ tx) a v j id2 r2 o2 g1 R1 Hv2 Hs2) as (g2 & E2 & R2). rewrite (bind_val _ _ _ _ _ E2). cbv iota.
  destruct (unweighted_finds g tx Htx Hn Hr Hcap both outs ins rp ns Hcl Hnd rpred no_visit (λ _ _ a, a) Hrp (no_visits g tx ns)
    start stop new_path_item fuel g2 a R2 Hstart Hfuel) as (g' & a' & it & b & E & R & Hb & Hit & l & ->).
  rewrite not_visited in E. rewrite (bind_val _ _ _ _ _ E). exists g'. split; [done|]. cbn [fst snd].
  destruct b; cbn [when]; [left|right].
  - destruct Hb as [Hb _]. destruct (Hb eq_refl) as [Hne Hrtc]. split; [done|]. split; [done|]. exists (path_ it).
    destruct Hit as (Hp & Hh & Hmin). split; [done|]. split; [done|]. intros k Hk. specialize (Hmin k Hk). rewrite Hh in Hmin. exact Hmin.
  - split; [|done]. intros H. by apply Hb in H.
Qed.

(** Counting on a list. *)
Lemma count_fed g tx (up : Z * Z → Z * Z) (get : Z * Z → Z) l : (∀ y, 0 ≤ get y < 2 ^ 31 - 1 → get (up y) = get y + 1) →
  ∀ (a : A) y, 0 ≤ get y → get y + Z.of_nat (length l) < 2 ^ 31 →
  ∃ y', foldl (fed (xid_ tx) g (λ b _ _, (b.1, up b.2)) is_valid) (a, y) l = (a, y')
    ∧ get y' = get y + Z.of_nat (length (filter (λ id, live (xid_ tx) g id = true) l))
    ∧ (∀ get' : Z * Z → Z, (∀ z, get' (up z) = get' z) → get' y' = get' y).
Proof.
  intros Hup. induction l as [|id l IH]; intros a y H0 Hl; [by exists y; cbn; split; [|split; [lia|]]|].
  cbn [length] in Hl. rewrite filter_cons. cbn [foldl].
  assert (fed (xid_ tx) g (λ b _ _, (b.1, up b.2)) is_valid (a, y) id = (a, if live (xid_ tx) g id then up y else y)) as ->.
  { unfold fed, live. destruct (sees (xid_ tx) (rships_ g) id) as [[r o]|]; [|done]. by destruct (is_valid o). }
  destruct (live (xid_ tx) g id).
  - specialize (Hup y ltac:(lia)). destruct (IH a (up y) ltac:(lia) ltac:(lia)) as (y' & E & Hy & Hg). exists y'. split; [done|].
    rewrite decide_True by done. cbn [length]. split; [lia|]. intros get' Hg'. by rewrite Hg, Hg'.
  - rewrite decide_False by done. apply IH; lia.
Qed.

(** The algorithm NumLinks counts, of the lists of the last node of the
    tuple, the incoming and the outgoing relationships whose current version the
    transaction sees, as long as they are fewer than 2^31. *)
Theorem num_links_counts g tx v id r o outs ins args a :
  current_transaction_ g = Some tx → vec_rd (nodes_ g) → vec_rd (rships_ g) →
  last v = Some (qr_node (Some (id, r))) → sees (xid_ tx) (nodes_ g) id = Some (r, o) →
  vlist (xid_ tx) g next_src_rship (from_rship_list (body_ o)) outs → vlist (xid_ tx) g next_dest_rship (to_rship_list (body_ o)) ins →
  Z.of_nat (length outs) < 2 ^ 31 → Z.of_nat (length ins) < 2 ^ 31 →
  let links l := Z.of_nat (length (filter (λ id, live (xid_ tx) g id = true) l)) in
  ∃ g', num_links v args (g, a) = ((g', a), Val [[qr_int (links ins); qr_int (links outs)]]) ∧ reads (xid_ tx) g g'.
Proof.
  intros Htx Hn Hr Hv Hs Houts Hins Hlo Hli links. unfold num_links, last_value. rewrite Hv, bind_ret. unfold node_ptr. cbn [qv_get_node].
  rewrite bind_assoc, bind_lift, bind_ret.
  destruct (node_seen g (xid_ tx) (a, (0, 0)) g id r o (reads_refl _ g Hn Hr) Hs) as (g1 & o1 & E1 & R1 & Eb1).
  assert (∀ next (k : oref → M (db * (A * (Z * Z))) unit) up g0 c first l, (∀ r s, k r s = ((s.1, (s.2.1, up s.2.2)), Val tt)) →
    vlist (xid_ tx) g next first l → reads (xid_ tx) g g0 →
    ∃ g2, (f ← on_fst list_fuel; rship_loop next is_valid k f first) (g0, c)
      = ((g2, foldl (fed (xid_ tx) g (λ b _ _, (b.1, up b.2)) is_valid) c l), Val tt) ∧ reads (xid_ tx) g g2) as Hloop.
  { intros next k up g0 c first l Hk Hl R0. rewrite (bind_val _ _ _ _ _ (list_fuel_ok g0 c)), (reads_capacity _ _ _ R0).
    apply (rship_loop_feeds (xid_ tx) g k (λ b _ _, (b.1, up b.2))) with (tx := tx); try done.
    - intros g3 b r' o' R3 Ro. destruct (reads_rd _ _ _ R3). exists g3. rewrite Hk. split; [done|]. split; [by apply reads_refl|done].
    - pose proof (vlist_length _ _ _ _ _ Hr Hl). lia. }
  destruct (Hloop next_src_rship count_outgoing (λ y, (y.1, s32 (y.2 + 1))) g1 (a, (0, 0)) _ _ ltac:(done) Houts R1) as (g2 & E2 & R2).
  destruct (count_fed g tx (λ y, (y.1, s32 (y.2 + 1))) snd outs) with (a := a) (y := (0, 0)) as (y & Ey & Hy & Hkeep);
    [intros z Hz; cbn; apply s32_small; lia|done|cbn; lia|].
  rewrite Ey in E2. destruct (node_seen g (xid_ tx) (a, y) g2 id r o R2 Hs) as (g3 & o3 & E3 & R3 & Eb3).
  destruct (Hloop next_dest_rship count_incoming (λ y, (s32 (y.1 + 1), y.2)) g3 (a, y) _ _ ltac:(done) Hins R3) as (g4 & E4 & R4).
  pose proof (Hkeep fst ltac:(done)) as Hfst.
  destruct (count_fed g tx (λ y, (s32 (y.1 + 1), y.2)) fst ins) with (a := a) (y := y) as (y' & Ey' & Hy' & Hkeep');
    [intros z Hz; cbn; apply s32_small; lia|rewrite Hfst; done|rewrite Hfst; cbn; lia|].
  rewrite Ey' in E4. exists g4. split; [|done]. unfold run_search. unfold mbind at 1, M_bind at 1. cbn [fst snd].
  rewrite (bind_val _ _ _ _ _ E1), Eb1. unfold foreach_from_relationship_of_node. rewrite (bind_val _ _ _ _ _ E2).
  rewrite (bind_val _ _ _ _ _ E3), Eb3. unfold foreach_to_relationship_of_node. rewrite E4. cbn.
  specialize (Hkeep' snd ltac:(done)). rewrite Hy', Hkeep', Hfst, Hy. done.
Qed.

(** In SET mode an algorithm gets all tuples in the order they came, and
    its results are passed on before the end is; a name without a function ends
    in an exception even when no tuple came, after an assertion has failed at the
    first tuple, if there was one. *)
Theorem algorithm_set_mode (alg : algorithm (A := A)) (vs : list qr_tuple) (next : op A) g a input :
  call_mode_ alg = m_set → tuple_func_ptr_ alg = None →
  match set_func_ptr_ alg with
  | Some f => (for_each (consume (algorithm_op alg next)) vs;; finish (algorithm_op alg next)) (g, (input, a))
      = on_next (res ← f (input ++ vs) (args_ alg); for_each (consume next) res;; finish next) (g, (input ++ vs, a))
  | None => ((vs = [] ∧ (finish (algorithm_op alg next) (g, (input, a))).2 = Exn bad_function_call)
            ∨ (vs ≠ [] ∧ (for_each (consume (algorithm_op alg next)) vs (g, (input, a))).2 = Exn assertion_failed))
  end.
Proof.
  intros Hm Ht. destruct (set_func_ptr_ alg) as [f|] eqn:Hf.
  - revert input. induction vs as [|v vs IH]; intros input.
    + cbn [for_each]. rewrite bind_ret, app_nil_r. unfold algorithm_op. cbn [finish]. rewrite Hm, Hf. cbn [call].
      rewrite bind_assoc. rewrite (bind_val own _ (g, (input, a)) (g, (input, a)) input eq_refl).
      unfold on_next. unfold mbind, M_bind. cbn [fst snd lift_res]. destruct (f input (args_ alg) (g, a)) as [[g' a'] [res|e]]; [|done].
      destruct (for_each (consume next) res (g', a')) as [[g2 a2] [[]|e]]; [|done]. cbn. done.
    + cbn [for_each]. rewrite bind_assoc.
      assert (consume (algorithm_op alg next) v (g, (input, a)) = ((g, (input ++ [v], a)), Val tt)) as E.
      { unfold algorithm_op, no_function. cbn [consume]. rewrite Hm, Ht, Hf. done. }
      rewrite (bind_val _ _ _ _ _ E), IH. by rewrite <-app_assoc.
  - destruct vs as [|v vs]; [left|right]; (split; [done|]).
    + unfold algorithm_op. cbn [finish]. by rewrite Hm, Hf.
    + cbn [for_each]. assert (consume (algorithm_op alg next) v (g, (input, a)) = ((g, (input, a)), Exn assertion_failed)) as E.
      { unfold algorithm_op, no_function. cbn [consume]. by rewrite Ht, Hf. }
      by rewrite (bind_exn _ _ _ _ _ E).
Qed.
End theorems.
