(* ===== verification/AnalyticsDemo.v ===== *)
(** * AnalyticsDemo: analytics at a concrete database

    A test that a graph is closed, a small graph with a cycle, and the witnesses
    of the theorems about the searches, the operators that call them, the arrays
    of compressed rows and the delta store; runs that show what the records of
    the delta store lose. *)

From Stdlib Require Import SpecFloat.
From stdpp Require Import relations.
From S2P Require Import Prelude VecSpec Chunk ChunkedVec VecIter DictSpec IndexSpec BTreeTree IndexMap StringPool Dict Literals.
From S2P Require Import Property PropertyList Demo.
From S2P Require Import Txn Mvto GraphState GraphOps QueryCtx GraphNodes GraphDemo QueryFacts QueryTraversal.
From S2P Require Import Bfs ShortestPath QResult Expr Qop SearchFacts ShortestFacts QopAlgorithms.
From S2P Require Import Csr CsrFacts CsrBuild.

(** ** Testing that a graph is closed *)
Section test.
Variables (x : Z) (g : demo_gdb).
Fixpoint vlist_b (next : relationship → Z) (id : Z) (l : list Z) : bool :=
  match l with
  | [] => bool_decide (id = UNKNOWN)
  | i :: l' => bool_decide (id = i) && bool_decide (i ≠ UNKNOWN) &&
               match sees x (rships_ g) i with Some (_, o) => vlist_b next (next (body_ o)) l' | None => false end
  end.
Lemma vlist_b_ok next id l : vlist_b next id l = true → vlist x g next id l.
Proof.
  revert id. induction l as [|i l IH]; intros id; cbn [vlist_b vlist]; [apply bool_decide_eq_true|].
  intros [[H1%bool_decide_eq_true H2%bool_decide_eq_true]%andb_true_iff H3]%andb_true_iff.
  split; [done|]. split; [done|]. destruct (sees x (rships_ g) i) as [[r o]|]; [|done]. exists r, o. by auto.
Qed.
Definition closed_b (next other : relationship → Z) (hd : node → Z) (adj : Z → list Z) (ns : list Z) : bool :=
  forallb (λ nid, match sees x (nodes_ g) nid with
                  | Some (_, o) => vlist_b next (hd (body_ o)) (adj nid)
                                   && forallb (λ id, bool_decide (dst x g other id ∈ ns)) (adj nid)
                  | None => false
                  end) ns.
Lemma closed_b_ok next other hd adj ns : closed_b next other hd adj ns = true → closed x g next other hd adj (λ nid, nid ∈ ns).
Proof.
  unfold closed_b. rewrite forallb_forall. intros H nid Hn%list_elem_of_In. specialize (H nid Hn).
  destruct (sees x (nodes_ g) nid) as [[r o]|]; [|done]. apply andb_true_iff in H as [H1%vlist_b_ok H2].
  exists r, o. split; [done|]. split; [done|]. intros id Hid%list_elem_of_In. rewrite forallb_forall in H2.
  by apply (bool_decide_eq_true_1 _), H2.
Qed.
End test.

(** ** A graph

    0 → 1 → 2 → 0, 0 → 3, and the node 4, from which one gets to 0. *)
Definition net_node (id from to : Z) : node := mk_node id from to UNKNOWN 1.
Definition net_rship (id src dest nsrc ndest : Z) : relationship := mk_rship id src dest nsrc ndest UNKNOWN 1.
Definition gdb_net : demo_gdb :=
  mk_gdb (table_of [old_obj (net_node 0 3 4) INF; old_obj (net_node 1 1 0) INF; old_obj (net_node 2 2 1) INF;
                    old_obj (net_node 3 UNKNOWN 3) INF; old_obj (net_node 4 4 UNKNOWN) INF])
    (table_of [old_obj (net_rship 0 0 1 UNKNOWN UNKNOWN) INF; old_obj (net_rship 1 1 2 UNKNOWN UNKNOWN) INF;
               old_obj (net_rship 2 2 0 UNKNOWN UNKNOWN) INF; old_obj (net_rship 3 0 3 0 UNKNOWN) INF;
               old_obj (net_rship 4 4 0 UNKNOWN 2) INF])
    vec_new vec_new demo_dict1 [30] 30 [] (Some (mk_tx 30 [] [])) new_index_map.
Definition net_outs (nid : Z) : list Z :=
  if bool_decide (nid = 0) then [3; 0] else if bool_decide (nid = 1) then [1]
  else if bool_decide (nid = 2) then [2] else if bool_decide (nid = 4) then [4] else [].
Definition net_ids : list Z := [0; 1; 2; 3; 4].
Definition all_pass (r : oref) : M (demo_gdb * list Z) bool := mret true.
Definition note_id (n : oref) : M (demo_gdb * list Z) unit := λ s, ((s.1, s.2 ++ [n.1]), Val tt).
Definition note_path (n : oref) (p : list Z) : M (demo_gdb * list Z) unit := note_id n.

Lemma net_searchable : searchable 30 gdb_net false net_outs (λ _, []) net_ids.
Proof. split; [|done]. apply closed_b_ok. vm_compute. reflexivity. Qed.
Lemma net_rd : vec_rd (nodes_ gdb_net) ∧ vec_rd (rships_ gdb_net).
Proof. split; apply vec_ok_rd, table_of_ok. Qed.
Lemma net_ids_NoDup : NoDup net_ids.
Proof. apply (bool_decide_unpack _). vm_compute. reflexivity. Qed.
Lemma net_asks : asks gdb_net (mk_tx 30 [] []) (λ _, true) all_pass.
Proof. intros id r o g1 a _ R. by exists g1. Qed.
Lemma net_visits : visits gdb_net (mk_tx 30 [] []) net_ids note_id (λ v a, a ++ [v]).
Proof. intros id r o g1 a _ _ R. by exists g1. Qed.

Lemma bfs_visits_reachable_witness : ∃ g' order,
  bfs 6 0 false all_pass note_id (gdb_net, []) = ((g', order), Val tt) ∧ NoDup order ∧ 2 ∈ order.
Proof.
  destruct net_rd as [Hn Hr].
  destruct (bfs_visits_reachable gdb_net (mk_tx 30 [] []) eq_refl Hn Hr false net_outs (λ _, []) (λ _, true) net_ids
    net_searchable net_ids_NoDup all_pass note_id (λ v a, a ++ [v]) net_asks net_visits 6 0 []) as (g' & order & E & _ & _ & Hnd & Hin).
  - left.
  - vm_compute. lia.
  - exists g', order. split; [|split; [exact Hnd|]].
    + rewrite E. assert (∀ l a, foldl (λ (a : list Z) v, a ++ [v]) a l = a ++ l) as Hf.
      { intros l. induction l as [|v l IH]; intros a; [by rewrite app_nil_r|]. cbn [foldl]. by rewrite IH, <-app_assoc. }
      by rewrite (Hf order []).
    + apply Hin. apply (rtc_l _ _ 1); [|apply (rtc_l _ _ 2); [|apply rtc_refl]]; unfold edge; apply (bool_decide_unpack _); vm_compute; reflexivity.
Defined.

Lemma unweighted_finds_shortest_witness : ∃ g' a' it,
  unweighted_shortest_path 5 0 2 false all_pass note_path new_path_item (gdb_net, []) = ((g', a'), Val (true, it)) ∧ hops_ it ≤ 2.
Proof.
  destruct net_rd as [Hn Hr].
  assert (nsteps (edge gdb_net (mk_tx 30 [] []) false net_outs (λ _, []) (λ _, true)) 2 0 2) as Hw.
  { apply (nsteps_l _ _ _ 1); [|apply (nsteps_l _ _ _ 2); [|apply nsteps_O]];
      unfold edge; apply (bool_decide_unpack _); vm_compute; reflexivity. }
  destruct (unweighted_finds_shortest gdb_net (mk_tx 30 [] []) eq_refl Hn Hr eq_refl false net_outs (λ _, []) (λ _, true)
    net_ids net_searchable net_ids_NoDup all_pass note_path (λ v _ a, a ++ [v]) net_asks (λ _, net_visits) 0 2 new_path_item 5 [])
    as (g' & a' & it & b & E & _ & Hb & Hres & _).
  - left.
  - vm_compute. lia.
  - assert (b = true) as ->.
    { apply Hb. split; [discriminate|]. apply rtc_nsteps; by exists 2%nat. }
    exists g', a', it. split; [exact E|]. destruct Hres as (_ & _ & Hmin). by apply (Hmin 2%nat).
Defined.

(** ** A search for two paths *)
Definition one_weight (r : oref) : M (demo_gdb * list Z) double := mret (int_to_sf 1).
Definition k_then_bfs : res (bool * list path_item) * res unit :=
  let '(s, r) := k_weighted_shortest_path no_date no_date 0 0 2 2 false all_pass one_weight (gdb_net, []) in
  (r, (bfs 20 0 false all_pass note_id s).2).
Definition bfs_before : res unit := (bfs 20 0 false all_pass note_id (gdb_net, [])).2.

(** A search for the first two paths that finds only one returns [false] and
    leaves the relationship it has deleted for the search of the second path
    deleted; from then on the transaction cannot go through the relationships
    of its node: the traversal ends with the exception for unknown ids. *)
Theorem k_search_leaves_deleted :
  bfs_before = Val tt ∧
  k_then_bfs = (Val (false, [mk_path_item [0; 1; 2] 0 (int_to_sf 2)]), Exn unknown_id).
Proof. split; vm_compute; reflexivity. Qed.

(** ** Operators that call algorithms *)
Definition results : Type := list qr_tuple * bool.
Definition pass_any (r : oref) : M (demo_gdb * results) bool := mret true.
Lemma net_asks_any : asks gdb_net (mk_tx 30 [] []) (λ _, true) pass_any.
Proof. intros id r o g1 a _ R. by exists g1. Qed.
Definition two_nodes_tuple : qr_tuple := [qr_node (Some (0, Main)); qr_node (Some (2, Main))].
Lemma shortest_path_op_delivers_witness : ∃ g' p,
  consume (shortest_path_op 0 1 false pass_any 5 false collect_result) two_nodes_tuple (gdb_net, ([], false))
    = ((g', ([two_nodes_tuple ++ [qr_array p]], false)), Val tt)
  ∧ last p = Some 2.
Proof.
  destruct net_rd as [Hn Hr].
  assert (nsteps (edge gdb_net (mk_tx 30 [] []) false net_outs (λ _, []) (λ _, true)) 2 0 2) as Hw.
  { apply (nsteps_l _ _ _ 1); [|apply (nsteps_l _ _ _ 2); [|apply nsteps_O]];
      unfold edge; apply (bool_decide_unpack _); vm_compute; reflexivity. }
  destruct (shortest_path_op_delivers gdb_net (mk_tx 30 [] []) false net_outs (λ _, []) (λ _, true) net_ids pass_any two_nodes_tuple 0 1
    0 Main (main_ (fetched 30 (old_obj (net_node 0 3 4) INF))) 2 Main (main_ (fetched 30 (old_obj (net_node 2 2 1) INF))) 5 collect_result ([], false) eq_refl Hn Hr)
    as (g' & _ & [(_ & _ & p & E & [_ Hlast _] & _)|[Hno _]]).
  - vm_compute. reflexivity.
  - exact net_searchable.
  - exact net_ids_NoDup.
  - exact net_asks_any.
  - reflexivity.
  - vm_compute. reflexivity.
  - reflexivity.
  - vm_compute. reflexivity.
  - left.
  - vm_compute. lia.
  - exists g', p. split; [etransitivity; [exact E|reflexivity]|exact Hlast].
  - exfalso. apply Hno. split; [discriminate|]. apply rtc_nsteps. by exists 2%nat.
Defined.

Lemma num_links_counts_witness : ∃ g',
  num_links two_nodes_tuple [] (gdb_net, ([], false) : results) = ((g', ([], false)), Val [[qr_int 1; qr_int 1]]).
Proof.
  destruct net_rd as [Hn Hr].
  destruct (num_links_counts gdb_net (mk_tx 30 [] []) two_nodes_tuple 2 Main (main_ (fetched 30 (old_obj (net_node 2 2 1) INF)))
    [2] [1] [] (([], false) : results) eq_refl Hn Hr) as (g' & E & _).
  - reflexivity.
  - vm_compute. reflexivity.
  - apply vlist_b_ok. vm_compute. reflexivity.
  - apply vlist_b_ok. vm_compute. reflexivity.
  - reflexivity.
  - reflexivity.
  - exists g'. etransitivity; [exact E|]. vm_compute. reflexivity.
Defined.

(** The algorithm that gives the number of its tuples, and one that is not there. *)
Definition count_all : set_algorithm_func (V:=mem_chunked_vec) (D:=dict string_pool) (X:=index_map) (A:=results) :=
  λ input args, mret [[qr_int (Z.of_nat (length input))]].
Definition counter (name : str) : algorithm :=
  new_algorithm (register_set_algorithm s_name count_all (builtin_algorithms 5)) name m_set [].
Lemma algorithm_set_mode_witness :
  (for_each (consume (algorithm_op (counter s_name) collect_result)) [two_nodes_tuple; []];; finish (algorithm_op (counter s_name) collect_result))
    (gdb_net, ([], ([], false))) = ((gdb_net, ([two_nodes_tuple; []], ([[qr_int 2]], true))), Val tt)
  ∧ (finish (algorithm_op (counter s_age) collect_result) (gdb_net, ([], ([], false)))).2 = Exn bad_function_call.
Proof.
  split.
  - etransitivity; [exact (algorithm_set_mode (counter s_name) [two_nodes_tuple; []] collect_result gdb_net ([], false) [] eq_refl eq_refl)|reflexivity].
  - destruct (algorithm_set_mode (counter s_age) [] collect_result gdb_net ([], false) [] eq_refl eq_refl) as [[_ E]|[H _]]; [exact E|].
    exfalso. by apply H.
Defined.

#[export] Instance demo_used : VecUsed mem_chunked_vec := chunked_vec_Used 2 two_pos two_small.

(** ** Testing that the lists of all nodes are seen *)
Section test.
Variables (x : Z) (g : demo_gdb) (outs ins : Z → list Z).
Definition lists_seen_b : bool :=
  forallb (λ nid, match vec_get (nodes_ g) nid, sees x (nodes_ g) nid with
    | None, _ => true
    | Some _, Some (_, o) => vlist_b x g next_src_rship (from_rship_list (body_ o)) (outs nid)
                             && vlist_b x g next_dest_rship (to_rship_list (body_ o)) (ins nid)
    | Some _, None => false
    end) (seqZ 0 (vec_capacity (nodes_ g))).
Lemma lists_seen_b_ok : vec_rd (nodes_ g) → lists_seen_b = true → lists_seen x g outs ins.
Proof.
  intros Hrd. unfold lists_seen_b. rewrite forallb_forall. intros H nid Hu.
  specialize (H nid). rewrite <-list_elem_of_In, elem_of_seqZ in H. destruct Hu as [t Ht].
  pose proof (vec_get_bounds _ _ _ Hrd Ht). specialize (H ltac:(lia)). rewrite Ht in H. destruct (sees x (nodes_ g) nid) as [[r o]|]; [|done].
  apply andb_true_iff in H as [H1%vlist_b_ok H2%vlist_b_ok]. by exists r, o.
Qed.
End test.

Definition weight1 (r : relationship) : double := int_to_sf 1.
Definition one : float := to_float (int_to_sf 1).
Definition net_ins (nid : Z) : list Z :=
  if bool_decide (nid = 0) then [4; 2] else if bool_decide (nid = 1) then [0]
  else if bool_decide (nid = 2) then [1] else if bool_decide (nid = 3) then [3] else [].
Lemma net_lists : lists_seen 30 gdb_net net_outs net_ins.
Proof. apply lists_seen_b_ok; [apply net_rd|]. vm_compute. reflexivity. Qed.
Definition net_rows : list row := seen_rows weight1 30 gdb_net false net_outs net_ins.
Lemma net_rows_are : net_rows = [([3; 1], [one; one]); ([2], [one]); ([0], [one]); ([], []); ([0], [one])].
Proof. vm_compute. reflexivity. Qed.

Lemma csr_build_neighbours_witness :
  lists_seen 30 gdb_net net_outs net_ins ∧
  ∃ g' c, host_csr_build weight1 false (gdb_net, new_csr) = ((g', c), Val tt) ∧ ∃ lo hi,
    elem (row_offsets c) 0 = Val lo ∧ elem (row_offsets c) 1 = Val hi ∧ range_of (col_indices c) lo (hi - lo) = Val [3; 1].
Proof.
  split; [exact net_lists|].
  destruct (csr_build_neighbours gdb_net (mk_tx 30 [] []) weight1 false net_outs net_ins eq_refl (proj1 net_rd) (proj2 net_rd))
    as (g' & c & E & _ & H).
  - vm_compute. discriminate.
  - exact net_lists.
  - vm_compute. reflexivity.
  - exists g', c. split; [exact E|]. destruct (H 0) as (lo & hi & E1 & E2 & E3 & _); [vm_compute; split; [discriminate|reflexivity]|].
    exists lo, hi. split; [exact E1|]. split; [exact E2|]. rewrite E3. vm_compute. reflexivity.
Defined.
Lemma csr_build_bounds_witness :
  ∃ g' c, host_csr_build weight1 true (gdb_net, new_csr) = ((g', c), Val tt) ∧ Z.of_nat (length (row_offsets c)) = max_num_nodes gdb_net + 1
    ∧ back (row_offsets c) = Val (Z.of_nat (length (col_indices c))).
Proof.
  destruct (csr_build_bounds gdb_net (mk_tx 30 [] []) weight1 true net_outs net_ins eq_refl (proj1 net_rd) (proj2 net_rd))
    as (g' & c & E & H1 & _ & _ & H2 & _).
  - vm_compute. discriminate.
  - exact net_lists.
  - vm_compute. reflexivity.
  - exists g', c. split; [exact E|]. split; [exact H1|exact H2].
Defined.

(** ** An update

    The arrays of the graph before transaction 25, which made the relationship
    from 2 to 0. *)
Definition old_rows : list row := [([3; 1], [one; one]); ([2], [one]); ([], []); ([], []); ([0], [one])].
Definition old_store : delta_store adj_rec adj_data :=
  store_delta 25 2 [0] [int_to_sf 1] (set_csr 20 (csr_of old_rows) (new_delta_store false (mk_adata [] [] 0))).
Definition rec25 : adj_rec := mk_adj 25 2 0 1 false.
Lemma new_store_ok b : store_ok (new_delta_store b (mk_adata [] [] 0)).
Proof. split; [done|done|done|]. by intros r ?%elem_of_nil. Qed.
Lemma set_csr_ok x c d : store_ok d → store_ok (set_csr x c d).
Proof. intros []. by split. Qed.
Lemma old_store_ok : store_ok old_store.
Proof. apply store_delta_ok; [apply set_csr_ok, new_store_ok|done..]. Qed.
Lemma old_recs r : r ∈ delta_recs_ old_store ↔ r = rec25.
Proof. apply list_elem_of_singleton. Qed.

Lemma store_delta_roundtrip_witness :
  ∃ r, delta_recs_ old_store = [r] ∧ adj_content (delta_data old_store) r = Val ([0], [int_to_sf 1]).
Proof.
  destruct (store_delta_roundtrip 25 2 [0] [int_to_sf 1] (set_csr 20 (csr_of old_rows) (new_delta_store false (mk_adata [] [] 0))))
    as (_ & (r & E & _ & _ & _ & Hc) & _).
  - apply set_csr_ok, new_store_ok.
  - reflexivity.
  - reflexivity.
  - reflexivity.
  - exists r. split; [exact E|exact Hc].
Defined.
Lemma adj_merge_newest_witness : ∃ d' m,
  adj_merge_deltas 30 old_store = Val (d', m) ∧ (m !! 0 = None) ∧ delta_recs_ d' = [].
Proof.
  destruct (adj_merge_newest 30 old_store old_store_ok) as (d' & m & E & H1 & _ & H2 & _).
  exists d', m. split; [exact E|]. split.
  - apply H1. intros r Hr _. apply old_recs in Hr as ->. discriminate.
  - apply H2. intros r Hr. apply old_recs in Hr as ->. vm_compute. discriminate.
Defined.
Lemma rec25_newest : newest 20 30 (delta_recs_ old_store) rec25.
Proof.
  split; [by apply old_recs|]. split; [split; [vm_compute; discriminate|by intros [_ ?]]|].
  intros r Hr _ _. by apply old_recs in Hr as ->.
Qed.
Lemma old_tells : records_tell weight1 30 gdb_net net_outs net_ins old_store old_rows.
Proof.
  split.
  - reflexivity.
  - split; [done|]. split; [by repeat constructor|by split].
  - reflexivity.
  - intros r (Hr & _). apply old_recs in Hr as ->. split; [vm_compute; split; [discriminate|reflexivity]|].
    intros c Hc. vm_compute in Hc. injection Hc as <-. vm_compute. reflexivity.
  - intros nid Hid Hno. assert (nid ≠ 2) as Hne.
    { intros ->. apply (Hno rec25); [by apply old_recs|apply rec25_newest|done]. }
    assert (max_num_nodes gdb_net = 5) as E by (vm_compute; reflexivity). rewrite E in Hid.
    assert (nid = 0 ∨ nid = 1 ∨ nid = 3 ∨ nid = 4) as [->|[->|[->| ->]]] by lia; vm_compute; reflexivity.
  - exists rec25. split; [by apply old_recs|apply rec25_newest].
  - split; [vm_compute; discriminate|left; vm_compute; reflexivity].
Qed.
Lemma csr_update_is_build_witness : ∃ g' csr d',
  host_csr_build weight1 false (gdb_net, new_csr) = ((g', csr), Val tt)
  ∧ host_csr_update_with_delta weight1 ar_txid adj_set_merged adj_merge_deltas adj_update (old_store, (gdb_net, new_csr)) = ((d', (gdb_net, csr)), Val tt).
Proof.
  destruct (csr_update_is_build gdb_net (mk_tx 30 [] []) weight1 net_outs net_ins old_store old_rows eq_refl (proj1 net_rd) (proj2 net_rd))
    as (g' & csr & d' & E1 & E2 & _).
  - vm_compute. discriminate.
  - exact net_lists.
  - vm_compute. reflexivity.
  - exact old_store_ok.
  - vm_compute. discriminate.
  - vm_compute. discriminate.
  - exact old_tells.
  - exists g', csr, d'. split; [exact E1|exact E2].
Defined.

(** Nothing to merge. *)
Definition quiet_store : delta_store adj_rec adj_data := set_csr 20 (csr_of old_rows) (new_delta_store false (mk_adata [] [] 0)).
Lemma csr_update_delivers_nothing_witness : ∃ d',
  host_csr_update_with_delta weight1 ar_txid adj_set_merged adj_merge_deltas adj_update (quiet_store, (gdb_net, new_csr)) = ((d', (gdb_net, new_csr)), Val tt)
  ∧ col_indices (current_csr d') = [3; 1; 2; 0].
Proof.
  destruct (csr_update_delivers_nothing gdb_net (mk_tx 30 [] []) weight1 quiet_store eq_refl) as (d' & E & Ec).
  - vm_compute. discriminate.
  - vm_compute. discriminate.
  - apply set_csr_ok, new_store_ok.
  - intros r Hr. by apply elem_of_nil in Hr.
  - exists d'. split; [exact E|]. rewrite Ec. vm_compute. reflexivity.
Defined.

(** A node that loses the neighbour 1 and gets 4, and two nodes behind the old
    ones. *)
Definition demo_diff : gmap Z diff_delta :=
  {[ 0 := mk_ddelta false [1] [4] [int_to_sf 1]; 6 := mk_ddelta false [] [0] [int_to_sf 1] ]}.
Lemma diff_update_rows_witness : ∃ T,
  diff_update 4 (csr_of old_rows) demo_diff new_csr = (csr_of T, Val tt)
  ∧ T !! 0%nat = Some ([3; 4], [one; one]) ∧ T !! 5%nat = Some ([], []) ∧ T !! 6%nat = Some ([0], [one]).
Proof.
  assert (∀ i d, demo_diff !! i = Some d → (i = 0 ∨ i = 6) ∧ length (inserts_ d) = length (weights_ d)) as Hm.
  { intros i d. unfold demo_diff. rewrite lookup_insert_Some, lookup_singleton_Some. intros [[<- <-]|[_ [<- <-]]]; by auto. }
  destruct (diff_update_rows old_rows demo_diff 7) as (T & E & _ & HT).
  - discriminate.
  - split; [by repeat constructor|split; reflexivity].
  - split; [vm_compute; lia|]. split; [|right; by exists (mk_ddelta false [] [0] [int_to_sf 1])].
    intros i [d Hd]. destruct (Hm _ _ Hd) as [[->| ->] _]; lia.
  - split; [|split; reflexivity]. vm_compute. by repeat constructor.
  - intros i d Hd. by apply (Hm _ _ Hd).
  - exists T. split; [exact E|]. rewrite !HT by lia. repeat split; vm_compute; reflexivity.
Defined.

(** ** What goes wrong *)
Definition with_tx (x : Z) (g : demo_gdb) : demo_gdb := set_current (Some (mk_tx x [] [])) g.
Notation demo_st := (delta_store adj_rec adj_data * (demo_gdb * csr_arrays))%type.
(** An analytics transaction, which gets new arrays. *)
Definition analyse (x : Z) (s : demo_st) : demo_st * res unit :=
  poseidon_to_csr weight1 ar_txid adj_set_merged adj_merge_deltas adj_update weight1 false (s.1, (with_tx x s.2.1, new_csr)).

(** Transaction 25 gave node 2 its relationship; as it touched the node three
    times its commit left three equal records.  Transaction 40 committed before
    30 analyses the graph, so that no merge of the older ones clears the records. *)
Definition triple_store : delta_store adj_rec adj_data :=
  store_delta 40 1 [2] [int_to_sf 1] (store_delta 25 2 [0] [int_to_sf 1] (store_delta 25 2 [0] [int_to_sf 1] old_store)).
(** 30 analyses the graph; then 32 commits another row of node 2; 38 and 39
    analyse the graph. *)
Definition after_30 : demo_st := (analyse 30 (triple_store, (gdb_net, new_csr))).1.
Definition after_32 : demo_st := (store_delta 32 2 [0; 4] [int_to_sf 1; int_to_sf 1] after_30.1, after_30.2).
Definition after_38 : demo_st := (analyse 38 after_32).1.
Definition after_39 : demo_st := (analyse 39 after_38).1.
Definition row_in (c : csr_arrays) (nid : Z) : res (list Z) :=
  lo ← elem (row_offsets c) nid; hi ← elem (row_offsets c) (nid + 1); range_of (col_indices c) lo (hi - lo).

(** A merge marks only the record whose content it takes, so further records
    of the same transaction and node count again in a later merge; by then a
    newer record may have been merged and no longer count, and the node gets its
    old neighbours back: the arrays of transaction 39 lack the neighbour that
    those of transaction 38 have. *)
Theorem merge_reverts_row :
  row_in after_30.2.2 2 = Val [0] ∧ row_in after_38.2.2 2 = Val [0; 4] ∧ row_in after_39.2.2 2 = Val [0].
Proof. repeat split; vm_compute; reflexivity. Qed.

(** The neighbours a commit leaves in the store are those on the lists in the
    tables, without the relationships the transaction itself deleted only: a
    relationship that another transaction deleted before, and that is still on
    the list, is stored as a neighbour, while a build for the same transaction
    ends with the exception for unknown ids at it. *)
Theorem commit_stores_deleted :
  (adj_of_node weight1 false (mk_aids [0] ∅ ∅) 0 (gdb_linked (Some (mk_tx 30 [] [])), ([], []))).1.2.1 = [1; 1]
  ∧ (host_csr_build weight1 false (gdb_linked (Some (mk_tx 30 [] [])), new_csr)).2 = Exn unknown_id.
Proof. split; vm_compute; reflexivity. Qed.

(** Arrays of a graph without nodes leave a last node that is no node: after
    the first node was added an update reads behind the end of the old arrays. *)
Theorem update_after_empty_build :
  let d := (analyse 20 (new_delta_store false (mk_adata [] [] 0), (empty_gdb, new_csr))).1 in
  last_node_id_ d.1 = UNKNOWN
  ∧ (analyse 30 (store_delta 25 0 [] [] d.1, d.2)).2 = Exn undefined_behaviour.
Proof. split; vm_compute; reflexivity. Qed.
