(* ===== verification/QueryPlan.v ===== *)
(** * QueryPlan: from the parse tree of a query to its pipelines
      (src/query/parser/query_planner.cpp, src/query/plan_op/query_pipeline.cpp,
      query_batch.cpp, src/query/interp/qinterp.cpp, plan_visitors/prepare_plan_visitor.cpp)

    Parse trees are those of the grammar src/query/parser/poseidon.g4; tokens
    are their texts.  The planner builds operators in a heap; each knows its
    subscriber.  A producer is the head of a pipeline that runs along the
    subscribers; a batch starts its pipelines in the order of their
    priorities. *)

From Stdlib Require Import Ascii.
From S2P Require Import Prelude VecSpec Txn DictSpec IndexSpec Literals Property PropertyList GraphState GraphOps QueryCtx QResult Expr Qop QopAggregates QopUpdates GraphIndex GraphCommit GraphImport QopAlgorithms.

(** ** Parse trees *)

(** [value], [type_spec], [variable], [function_call] *)
Inductive value : Type := v_INTEGER (t : str) | v_LONG_INTEGER (t : str) | v_FLOAT (t : str) | v_STRING (t : str).
Inductive type_spec : Type := t_int | t_double | t_uint64 | t_string | t_datetime | t_node | t_rship.
Record var_spec : Type := mk_var_spec { vs_Var : str; vs_Identifier : option str; vs_type : type_spec }.
Inductive param : Type := param_value (v : value) | param_var (v : var_spec).
Inductive fct_prefix : Type := BUILTIN_ | UDF_.
Record function_call : Type := mk_fct { fc_prefix : fct_prefix; fc_name : str; fc_params : option (list param) }.

(** [a (op a)*] *)
Inductive op_chain (Op A : Type) : Type := mk_chain (first : A) (rest : list (Op * A)).
Arguments mk_chain {Op A}.
Inductive eq_tok : Type := tok_EQUALS | tok_NOTEQUALS.
Inductive rel_tok : Type := tok_LT | tok_LTEQ | tok_GT | tok_GTEQ | tok_REGEX.
Inductive add_tok : Type := tok_PLUS | tok_MINUS.
Inductive mult_tok : Type := tok_MULT | tok_DIV | tok_MOD.
#[export] Instance eq_tok_eq_dec : EqDecision eq_tok. Proof. solve_decision. Defined.
#[export] Instance rel_tok_eq_dec : EqDecision rel_tok. Proof. solve_decision. Defined.
#[export] Instance add_tok_eq_dec : EqDecision add_tok. Proof. solve_decision. Defined.
#[export] Instance mult_tok_eq_dec : EqDecision mult_tok. Proof. solve_decision. Defined.

Inductive logical_expr : Type := Logical (c : op_chain unit boolean_expr)
with boolean_expr : Type := Boolean (c : op_chain unit equality_expr)
with equality_expr : Type := Equality (c : op_chain eq_tok relational_expr)
with relational_expr : Type := Relational (c : op_chain rel_tok additive_expr)
with additive_expr : Type := Additive (c : op_chain add_tok multiplicative_expr)
with multiplicative_expr : Type := Multiplicative (c : op_chain mult_tok unary_expr)
with unary_expr : Type := Unary (NOT : bool) (p : primary_expr)
with primary_expr : Type :=
  | Prim_paren (e : logical_expr) | Prim_call (f : function_call) | Prim_value (v : value) | Prim_variable (v : var_spec).

(** Patterns and lists *)
Inductive scan_param : Type := no_param | one_string (s : str) | string_list (l : list str).
Inductive prop_rhs : Type := rhs_value (v : value) | rhs_expr (e : additive_expr).
Notation property_list := (list (str * prop_rhs)).
Record node_pattern : Type := mk_node_pattern { np_label : str; np_props : option property_list }.
Inductive dir_spec : Type := left_dir | right_dir | no_dir.
Record rship_pattern : Type := mk_rship_pattern {
  rp_left : dir_spec; rp_label : str; rp_cardinality : option (str * option str); rp_right : dir_spec }.
Inductive case_result : Type := cr_variable (v : var_spec) | cr_value (v : value).
Inductive proj_expr : Type :=
  | pe_call (f : function_call) | pe_variable (v : var_spec) | pe_additive (e : additive_expr)
  | pe_case (e : logical_expr) (r1 r2 : case_result).
Inductive rship_dir : Type := FromDir | ToDir | AllDir.
Inductive expand_dir : Type := InExpandDir | OutExpandDir.
Record sort_expr : Type := mk_sort { se_Var : str; se_type : type_spec; se_desc : bool }.
Inductive create_spec : Type :=
  | cs_node (label : str) (props : option property_list)
  | cs_rship (from : str) (label : str) (props : option property_list) (to : str).

Inductive query_operator : Type :=
  | NodeScan (p : scan_param) | RelationshipScan (p : scan_param)
  | IndexScan (label property : str) (v : value) | NodeById (i : str)
  | Match (n : node_pattern) (path : list (rship_pattern * node_pattern))
  | Filter (e : logical_expr) (q : query_operator)
  | Project (l : list proj_expr) (q : query_operator)
  | Limit (i : str) (q : query_operator)
  | CrossJoin (q1 q2 : query_operator)
  | HashJoin (v1 v2 : var_spec) (q1 q2 : query_operator)
  | LeftOuterJoin (e : logical_expr) (q1 q2 : query_operator)
  | ForeachRelationship (dir : rship_dir) (label : str) (card : option (str * str)) (src : option str) (q : option query_operator)
  | Expand (dir : expand_dir) (label : str) (q : query_operator)
  | Aggregate (l : list (func_t * var_spec)) (q : query_operator)
  | GroupBy (g : list var_spec) (l : list (func_t * var_spec)) (q : query_operator)
  | Union (q1 q2 : query_operator)
  | Except (v1 v2 : var_spec) (q1 q2 : query_operator)
  | Exists (is_not : bool) (q1 q2 : query_operator)
  | Sort (l : list sort_expr) (q : query_operator)
  | Distinct (q : query_operator)
  | Create (c : create_spec) (q : option query_operator)
  | RemoveNode (q : query_operator) | DetachNode (q : query_operator) | RemoveRelationship (q : query_operator)
  | Update (var : str) (props : property_list) (q : query_operator)
  | Algorithm (name : str) (tuple_mode : bool) (args : option (list value)) (q : query_operator).

(** ** Text *)

(** [std::stoi(var_name.substr(1, dot_pos - 1))] of a [Var] token, which has no
    dot. *)
Definition extract_tuple_id (var : str) : res Z := i ← stoi (drop 1 var); Val (u32 i).
(** The quotes around a string. *)
Definition trim_string (s : str) : str :=
  match s with
  | c :: _ => if bool_decide (c = "'"%char) || bool_decide (c = "034"%char) then take (length s - 2) (drop 1 s) else s
  | [] => s
  end.
Definition trim_param (p : scan_param) : scan_param :=
  match p with no_param => no_param | one_string s => one_string (trim_string s) | string_list l => string_list (trim_string <$> l) end.

(** [ctx->TOKEN(i) != nullptr]: there are more than [i] tokens of this kind. *)
Definition token_at {Op} `{EqDecision Op} (t : Op) (l : list Op) (i : nat) : bool :=
  bool_decide (i < length (filter (t =.) l))%nat.

Section planner.
Context {V : Type → Type} `{!Vec V} `{!VecScan V} {D : Type} `{!Dictionary D} {X : Type} `{!Indexes X}.
(** [std::stof], the patterns [std::regex] accepts, the functions of the UDF
    library ([None] without one), boost's [to_iso_extended_string], and the
    [std::any] that holds an [unsigned long long]: a [uint64_t] only where that
    is the same type. *)
Variables (stof : str → res Z) (valid_regex : str → bool).
Notation db := (gdb V D X).
Notation expr := (expr db).
Notation fn1 := (query_result → M db query_result).
Variables (udf_lib : option (str → res fn1)) (to_iso : Z → str) (ull_any : Z → any).

(** ** Expressions *)
Definition typespec_to_exprtype (t : type_spec) : expr_type :=
  match t with
  | t_int => ty_INT | t_double => ty_DOUBLE | t_uint64 => ty_UINT64 | t_string => ty_STRING
  | t_datetime => ty_DATETIME | t_node => ty_NODE | t_rship => ty_RELATIONSHIP
  end.
Definition visitVariable (v : var_spec) : M db expr :=
  var_id ← lift_res (extract_tuple_id (vs_Var v));
  let ty := typespec_to_exprtype (vs_type v) in
  match vs_Identifier v with
  | Some attr => pcode ← get_code attr; mret (variable var_id attr pcode ty)
  | None => mret (variable var_id [] UNKNOWN_CODE ty)
  end.
(** [stoi], and [stoull] when that is out of range. *)
Definition int_or_uint64 {St B} (t : str) (f g : Z → B) : M St B :=
  try_catch (i ← lift_res (stoi t); mret (f i)) out_of_range_std (u ← lift_res (stoull t); mret (g u)).
Definition visitValue (v : value) : M db expr :=
  match v with
  | v_INTEGER t => int_or_uint64 t Int UInt64
  | v_LONG_INTEGER t => u ← lift_res (stoull t); mret (UInt64 u)
  | v_FLOAT t => d ← lift_res (stod t); mret (Float d)
  | v_STRING t => mret (string_literal (trim_string t))
  end.

Definition prefix_text (p : fct_prefix) : str := String.list_ascii_of_string (match p with BUILTIN_ => "pb" | UDF_ => "udf" end).
Definition visit_param (p : param) : M db expr :=
  match p with
  | param_value (v_STRING t) => mret (string_literal (trim_string t))
  | param_value (v_INTEGER t) => i ← lift_res (stoi t); mret (Int i)
  | param_value (v_LONG_INTEGER t) => u ← lift_res (stoull t); mret (UInt64 u)
  | param_value (v_FLOAT t) => d ← lift_res (stof t); mret (Float d)
  | param_var v =>
    p_idx ← lift_res (extract_tuple_id (vs_Var v));
    mret (variable p_idx (default [] (vs_Identifier v)) UNKNOWN_CODE (typespec_to_exprtype (vs_type v)))
  end.
Definition visit_function_call (fc : function_call) : M db expr :=
  params ← mapM visit_param (default [] (fc_params fc));
  mret (func_call (prefix_text (fc_prefix fc)) (fc_name fc) params ty_INT None None).

(** The loop over the operands; the test of the operator at [i] looks at all
    the operators of the context. *)
Definition visit_chain {Op A} (visit : A → M db expr) (combine : list Op → nat → expr → expr → M db expr) (c : op_chain Op A) : M db expr :=
  match c with
  | mk_chain a rest =>
    e ← visit a;
    (fix loop (i : nat) (lhs : expr) (l : list (Op * A)) {struct l} : M db expr :=
       match l with
       | [] => mret lhs
       | (_, b) :: l' => rhs ← visit b; lhs' ← combine (fst <$> rest) i lhs rhs; loop (S i) lhs' l'
       end) O e rest
  end.
Definition AND (l r : expr) : expr := binary and_predicate l r.
Definition math (op : expr_op) (l r : expr) : expr := binary (math_expression op) l r.
(** [ftype_] *)
Definition ftype (e : expr) : res expr_type :=
  match e with
  | null_expr => Exn undefined_behaviour
  | Int _ => Val ty_INT | UInt64 _ => Val ty_UINT64 | Float _ => Val ty_DOUBLE
  | variable _ _ _ ty => Val ty
  | string_literal _ | qparam_token _ => Val ty_STRING
  | time_literal _ => Val ty_DATETIME
  | func_call _ _ _ ty _ _ => Val ty
  | binary (math_expression _) _ _ => Val ty_UNKNOWN
  | binary _ _ _ => Val ty_OP
  end.
(** [RE]: the pattern is that of a string literal. *)
Definition RE (l r : expr) : res expr :=
  match r with
  | string_literal s => if valid_regex s then Val (binary (regex_predicate s) l r) else Exn regex_error
  | _ => Exn undefined_behaviour
  end.

Definition combine_or (_ : list unit) (_ : nat) (l r : expr) : M db expr := mret (OR l r).
Definition combine_and (_ : list unit) (_ : nat) (l r : expr) : M db expr := mret (AND l r).
Definition combine_equality (ops : list eq_tok) (i : nat) (l r : expr) : M db expr :=
  mret (if token_at tok_EQUALS ops i then EQ l r else binary neq_predicate l r).
Definition combine_relational (ops : list rel_tok) (i : nat) (l r : expr) : M db expr :=
  if token_at tok_LT ops i then mret (binary lt_predicate l r)
  else if token_at tok_LTEQ ops i then mret (binary le_predicate l r)
  else if token_at tok_GT ops i then mret (binary gt_predicate l r)
  else if token_at tok_GTEQ ops i then mret (binary ge_predicate l r)
  else if token_at tok_REGEX ops i then
    ty ← lift_res (ftype r);
    if bool_decide (ty ≠ ty_STRING) then throw query_processing_error else lift_res (RE l r)
  else mret l.
Definition combine_additive (ops : list add_tok) (i : nat) (l r : expr) : M db expr :=
  mret (if token_at tok_PLUS ops i then PLUS l r else math op_MINUS l r).
Definition combine_multiplicative (ops : list mult_tok) (i : nat) (l r : expr) : M db expr :=
  mret (if token_at tok_MULT ops i then math op_MULT l r
        else if token_at tok_DIV ops i then math op_DIV l r
        else if token_at tok_MOD ops i then math op_MOD l r
        else l).

(** [NOT] is not applied. *)
Fixpoint visitLogical_expr (e : logical_expr) : M db expr :=
  match e with Logical c => visit_chain visitBoolean_expr combine_or c end
with visitBoolean_expr (e : boolean_expr) : M db expr :=
  match e with Boolean c => visit_chain visitEquality_expr combine_and c end
with visitEquality_expr (e : equality_expr) : M db expr :=
  match e with Equality c => visit_chain visitRelational_expr combine_equality c end
with visitRelational_expr (e : relational_expr) : M db expr :=
  match e with Relational c => visit_chain visitAdditive_expr combine_relational c end
with visitAdditive_expr (e : additive_expr) : M db expr :=
  match e with Additive c => visit_chain visitMultiplicative_expr combine_additive c end
with visitMultiplicative_expr (e : multiplicative_expr) : M db expr :=
  match e with Multiplicative c => visit_chain visitUnary_expr combine_multiplicative c end
with visitUnary_expr (e : unary_expr) : M db expr :=
  match e with Unary _ p => visitPrimary_expr p end
with visitPrimary_expr (e : primary_expr) : M db expr :=
  match e with
  | Prim_paren e => visitLogical_expr e
  | Prim_value v => visitValue v
  | Prim_variable v => visitVariable v
  | Prim_call f => visit_function_call f
  end.

(** ** Operators

    The arguments of an operator's constructor. *)
Notation prop_value := (prop_value (V:=V) (D:=D) (X:=X)).
Notation op_props := (list (str * prop_value)).
Notation pexpr := (pexpr (V:=V) (D:=D) (X:=X)).
Inductive qop_kind : Type :=
  | k_node_scan (p : scan_param) | k_relationship_scan (p : scan_param)
  | k_index_scan (idx : nat) (key : Z) | k_node_by_id (id : Z) | k_start
  | k_filter (ex : expr) | k_projection (exprs : list pexpr) | k_limit (num : Z) | k_distinct | k_order_by (spec : list sort_spec)
  | k_foreach (dir : rship_dir) (label : str) (hops : option (Z * Z)) (npos : Z)
  | k_get_from_node | k_get_to_node | k_node_has_label (label : str)
  | k_cross_join | k_left_outer_join (ex : expr) | k_hash_join (lhs rhs : expr)
  | k_union_all | k_except (lhs rhs : expr) | k_exists (subquery : nat) (is_not : bool)
  | k_aggregate (l : list aggr_expr) | k_group_by (g : list group) (l : list aggr_expr)
  | k_create_node (label : str) (props : op_props) | k_create_relationship (label : str) (props : op_props) (nodes : Z * Z)
  | k_update_node (var : Z) (props : op_props) | k_remove_node | k_remove_relationship | k_detach_node
  | k_algorithm (name : str) (mode : mode_t) (args : list any)
  | k_collect (as_string : bool) | k_printer.

(** The method of an operator that [consume_] calls. *)
Inductive port : Type := to_process | to_left | to_right | to_build | to_probe | to_count.
(** [finish_] calls the operator's own [finish] or [default_finish]. *)
Record qop : Type := mk_qop {
  kind : qop_kind;
  subscriber_ : option nat;
  parent_ : option nat;
  consume_ : option (nat * port);
  finish_ : option (nat * bool);
  priority_ : Z
}.
Record planner : Type := mk_planner { ops : list qop; sources_ : list nat; roots_ : list nat; globals_ : sort_globals }.
Notation st := (db * planner)%type.

Definition set_ops (f : list qop → list qop) (p : planner) : planner := mk_planner (f (ops p)) (sources_ p) (roots_ p) (globals_ p).
Definition new_op (k : qop_kind) : M st nat :=
  s ← get_st; modify (λ s, (s.1, set_ops (λ l, l ++ [mk_qop k None None None None 0]) s.2));; mret (length (ops s.2)).
Definition push_source (o : nat) : M st unit := modify (λ s, (s.1, mk_planner (ops s.2) (sources_ s.2 ++ [o]) (roots_ s.2) (globals_ s.2))).
Definition push_root (o : nat) : M st unit := modify (λ s, (s.1, mk_planner (ops s.2) (sources_ s.2) (roots_ s.2 ++ [o]) (globals_ s.2))).
Definition set_parent (q : nat) (o : qop) : qop := mk_qop (kind o) (subscriber_ o) (Some q) (consume_ o) (finish_ o) (priority_ o).
Definition set_subscriber (sub : nat) (pt : port) (own : bool) (o : qop) : qop :=
  mk_qop (kind o) (Some sub) (parent_ o) (Some (sub, pt)) (Some (sub, own)) (priority_ o).
Definition set_consume (c : nat * port) (o : qop) : qop := mk_qop (kind o) (subscriber_ o) (parent_ o) (Some c) (finish_ o) (priority_ o).
Definition set_priority (n : Z) (o : qop) : qop := mk_qop (kind o) (subscriber_ o) (parent_ o) (consume_ o) (finish_ o) n.
Definition on_op (o : nat) (f : qop → qop) : M st unit := modify (λ s, (s.1, set_ops (alter f o) s.2)).
(** [q->connect(o, ...)] *)
Definition connect (q o : nat) (pt : port) (own : bool) : M st unit := on_op o (set_parent q);; on_op q (set_subscriber o pt own).
(** [qop_append], [qop_append2]; the child may be null. *)
Definition qop_append (child : option nat) (o : nat) : M st nat :=
  match child with Some q => connect q o to_process false | None => mret tt end;; mret o.
Definition qop_append2 (child : option nat) (o : nat) : M st nat :=
  match child with Some q => connect q o to_process true | None => mret tt end;; mret o.
Definition add_source (k : qop_kind) : M st nat := o ← new_op k; push_source o;; mret o.
Definition append_new (child : nat) (k : qop_kind) : M st nat := o ← new_op k; qop_append (Some child) o.
Definition append_new2 (child : nat) (k : qop_kind) : M st nat := o ← new_op k; qop_append2 (Some child) o.

(** ** Projections *)
Fixpoint before_char (c : ascii) (s : str) : str :=
  match s with [] => [] | d :: s' => if bool_decide (d = c) then [] else d :: before_char c s' end.
(** [builtin::pr_year] *)
Definition pr_year (key : str) (pv : query_result) : res query_result :=
  if has_property pv key then
    v ← typed_property ty_DATETIME pv key;
    match v with qr_ptime t => i ← stoi (before_char "-" (to_iso t)); Val (qr_int i) | _ => Val qr_null end
  else Val qr_null.

Notation prj := (prj (V:=V) (D:=D) (X:=X)).
Definition property_prj (t : type_spec) : option prj :=
  match t with
  | t_string => Some prj_string_property | t_int => Some prj_int_property | t_double => Some prj_double_property
  | t_uint64 => Some prj_uint64_property | t_datetime => Some prj_date_property | _ => None
  end.
Definition visit_case_result (r : case_result) : M db expr :=
  match r with cr_variable v => visitVariable v | cr_value v => visitValue v end.
Definition param_Var (p : option param) : res var_spec :=
  match p with Some (param_var v) => Val v | _ => Exn undefined_behaviour end.
Definition param_INTEGER (p : option param) : res str :=
  match p with Some (param_value (v_INTEGER t)) => Val t | _ => Exn undefined_behaviour end.
Definition s_year : str := String.list_ascii_of_string "year".
Definition s_substr : str := String.list_ascii_of_string "substr".
(** Calls: the first parameter is a variable.  A start or a length that is not
    negative is given by the grammar. *)
Definition visit_builtin (name : str) (params : list param) : M db pexpr :=
  v ← lift_res (param_Var (params !! 0%nat));
  p_idx ← lift_res (extract_tuple_id (vs_Var v));
  let prop_name := default [] (vs_Identifier v) in
  if bool_decide (name = s_label) then
    assert_ (bool_decide (length params = 1%nat));; mret (mk_pexpr (Z.to_nat p_idx) [] prj_label)
  else if bool_decide (name = s_year) then
    assert_ (bool_decide (length params = 1%nat));;
    mret (mk_pexpr (Z.to_nat p_idx) prop_name (prj_function (λ v, lift_res (pr_year prop_name v))))
  else if bool_decide (name = s_substr) then
    assert_ (bool_decide (length params = 3%nat));;
    t1 ← lift_res (param_INTEGER (params !! 1%nat)); start ← lift_res (stoi t1);
    t2 ← lift_res (param_INTEGER (params !! 2%nat)); len ← lift_res (stoi t2);
    mret (mk_pexpr (Z.to_nat p_idx) prop_name (prj_function (λ v, lift_res (substring v prop_name (Z.to_nat start) (Z.to_nat len)))))
  else throw query_processing_error.
(** [abort()] for a value. *)
Definition visit_udf (name : str) (params : list param) : M db pexpr :=
  match udf_lib with
  | None => throw udf_not_found
  | Some lib =>
    f ← lift_res (lib name);
    match params !! 0%nat with
    | None => throw undefined_behaviour
    | Some (param_value _) => throw assertion_failed
    | Some (param_var v) => p_idx ← lift_res (extract_tuple_id (vs_Var v)); mret (mk_pexpr (Z.to_nat p_idx) [] (prj_function f))
    end
  end.
(** A property of a node or relationship type adds no expression. *)
Definition visit_proj_expr (pe : proj_expr) : M db (list pexpr) :=
  match pe with
  | pe_variable v =>
    var_id ← lift_res (extract_tuple_id (vs_Var v));
    mret (match default [] (vs_Identifier v) with
          | [] => [mk_pexpr (Z.to_nat var_id) [] prj_forward]
          | attr => match property_prj (vs_type v) with Some f => [mk_pexpr (Z.to_nat var_id) attr f] | None => [] end
          end)
  | pe_additive e => ex ← visitAdditive_expr e; mret [mk_pexpr 0 [] (prj_arithmetic_expr ex)]
  | pe_case e r1 r2 =>
    ex ← visitLogical_expr e; e1 ← visit_case_result r1; e2 ← visit_case_result r2;
    mret [mk_pexpr 0 [] (prj_case_expr ex e1 e2)]
  | pe_call fc =>
    match fc_params fc with
    | None => throw undefined_behaviour
    | Some params =>
      pe ← match fc_prefix fc with BUILTIN_ => visit_builtin (fc_name fc) params | UDF_ => visit_udf (fc_name fc) params end;
      mret [pe]
    end
  end.

(** ** Properties *)
(** [props.insert({pname, pval})] leaves an entry of that name alone. *)
Fixpoint props_insert (k : str) (v : prop_value) (m : op_props) : op_props :=
  match m with
  | [] => [(k, v)]
  | (k', v') :: m' =>
    if bool_decide (k = k') then m
    else if str_lt k k' then (k, v) :: m else (k', v') :: props_insert k v m'
  end.
Definition visit_prop_rhs (p : prop_rhs) : M db prop_value :=
  match p with
  | rhs_value (v_INTEGER t) => i ← lift_res (stoi t); mret (p_any (any_int i))
  | rhs_value (v_LONG_INTEGER t) => u ← lift_res (stoull t); mret (p_any (ull_any u))
  | rhs_value (v_FLOAT t) => d ← lift_res (stod t); mret (p_any (any_double d))
  | rhs_value (v_STRING t) => mret (p_any (any_string (trim_string t)))
  | rhs_expr e => ex ← visitAdditive_expr e; mret (p_expr ex)
  end.
Fixpoint visit_properties (props : op_props) (l : property_list) : M db op_props :=
  match l with
  | [] => mret props
  | (pname, p) :: l' => pval ← visit_prop_rhs p; visit_properties (props_insert pname pval props) l'
  end.
Definition visitProperty_list (l : property_list) : M db op_props := visit_properties [] l.
Definition visit_optional_properties (l : option property_list) : M db op_props :=
  match l with Some l => visitProperty_list l | None => mret [] end.

(** The literal of a property, and the type of its variable; [typeid(long)] is
    the type of no value. *)
Definition rhs_of_value (v : prop_value) : expr * expr_type :=
  match v with
  | p_any (any_int i) => (Int i, ty_INT)
  | p_any (any_double d) => (Float d, ty_DOUBLE)
  | p_any (any_string s) => (string_literal s, ty_STRING)
  | _ => (null_expr, ty_UNKNOWN)
  end.
Fixpoint conjunction (var_offset : Z) (ex : option expr) (plist : op_props) : M db expr :=
  match plist with
  | [] => mret (default null_expr ex)
  | (pname, v) :: plist' =>
    pcode ← get_code pname;
    let ex2 := EQ (variable var_offset pname pcode (rhs_of_value v).2) (rhs_of_value v).1 in
    conjunction var_offset (Some (match ex with Some ex => AND ex ex2 | None => ex2 end)) plist'
  end.
Definition property_list_to_expr (plist : op_props) (var_offset : Z) : M db expr := conjunction var_offset None plist.

(** ** Sources *)
Definition visitNode_scan_op (p : scan_param) : M st nat := add_source (k_node_scan (trim_param p)).
Definition visitRship_scan_op (p : scan_param) : M st nat := add_source (k_relationship_scan (trim_param p)).
Definition visitNode_by_id (i : str) : M st nat := node_id ← lift_res (stoi i); add_source (k_node_by_id (u64 node_id)).
(** A string is looked up with its quotes; the key of a [FLOAT] stays zero. *)
Definition index_key (v : value) : M db Z :=
  match v with
  | v_INTEGER t => i ← lift_res (stoi t); mret (u64 i)
  | v_LONG_INTEGER t => lift_res (stoull t)
  | v_STRING t => get_code t
  | v_FLOAT _ => mret 0
  end.
Definition visitIndex_scan_op (label property : str) (v : value) : M st nat :=
  let label := trim_string label in let property := trim_string property in
  b ← on_fst (has_index label property);
  if (b : bool) then
    key ← on_fst (index_key v); idx_id ← on_fst (get_index label property); add_source (k_index_scan idx_id key)
  else throw unknown_index.

(** *** Patterns *)
Definition any_cast_int (v : prop_value) : res Z :=
  match v with p_any (any_int i) => Val i | _ => Exn bad_any_cast end.
Definition scan_and_filter (label : str) (props : op_props) : M st nat :=
  o ← add_source (k_node_scan (one_string (trim_string label)));
  ex ← on_fst (property_list_to_expr props 0);
  append_new o (k_filter ex).
Definition visitNode_pattern (n : node_pattern) : M st nat :=
  let label := np_label n in
  match np_props n with
  | None => add_source (k_node_scan (one_string (trim_string label)))
  | Some pl =>
    props ← on_fst (visitProperty_list pl);
    match props with
    | [(pname, val)] =>
      b ← on_fst (has_index label pname);
      if (b : bool) then
        idx_id ← on_fst (get_index label pname);
        key ← lift_res (any_cast_int val);
        add_source (k_index_scan idx_id (u64 key))
      else scan_and_filter label props
    | _ => scan_and_filter label props
    end
  end.
Definition cardinality (c : option (str * option str)) : res (option (Z * Z)) :=
  match c with
  | None => Val None
  | Some (t1, t2) =>
    m1 ← stoi t1;
    m2 ← match t2 with Some t => stoi t | None => Val (two32 - 1) end;
    Val (Some (u32 m1, u32 m2))
  end.
(** The operators of a direction: relationships, and the node at their end. *)
Definition pattern_dir (l r : dir_spec) : res (rship_dir * qop_kind) :=
  match l, r with
  | no_dir, right_dir => Val (FromDir, k_get_to_node)
  | left_dir, no_dir => Val (ToDir, k_get_from_node)
  | no_dir, no_dir => Val (AllDir, k_get_to_node)
  | _, _ => Exn query_processing_error
  end.
Definition path_step (node_op : nat) (origin_idx : Z) (p : rship_pattern * node_pattern) : M st nat :=
  hops ← lift_res (cardinality (rp_cardinality p.1));
  d ← lift_res (pattern_dir (rp_left p.1) (rp_right p.1));
  o1 ← append_new node_op (k_foreach d.1 (rp_label p.1) hops origin_idx);
  o2 ← append_new o1 d.2;
  o3 ← append_new o2 (k_node_has_label (trim_string (np_label p.2)));
  match np_props p.2 with
  | None => mret o3
  | Some pl =>
    props ← on_fst (visitProperty_list pl);
    ex ← on_fst (property_list_to_expr props (origin_idx + 2));
    append_new o3 (k_filter ex)
  end.
Fixpoint path_components (node_op : nat) (origin_idx : Z) (l : list (rship_pattern * node_pattern)) : M st nat :=
  match l with
  | [] => mret node_op
  | p :: l' => node_op' ← path_step node_op origin_idx p; path_components node_op' (origin_idx + 2) l'
  end.
Definition visitPath_pattern (n : node_pattern) (path : list (rship_pattern * node_pattern)) : M st nat :=
  node_op ← visitNode_pattern n; path_components node_op 0 path.


(** ** Arguments of the other operators *)
Definition identifier (v : var_spec) : str := default [] (vs_Identifier v).
(** The type of an aggregate: [int] when no type matches; [GroupBy] has no case
    for [uint64]. *)
Definition aggr_type_of (group_by : bool) (t : type_spec) : qr_type :=
  match t with
  | t_double => double_type | t_string => string_type
  | t_uint64 => if group_by then int_type else uint64_type
  | _ => int_type
  end.
Definition grp_type_of (t : type_spec) : qr_type :=
  match t with
  | t_double => double_type | t_string => string_type | t_uint64 => uint64_type | t_datetime => ptime_type | _ => int_type
  end.
Definition aggr_of (group_by : bool) (a : func_t * var_spec) : res aggr_expr :=
  v_id ← extract_tuple_id (vs_Var a.2);
  Val (mk_aggr a.1 (Z.to_nat v_id) (identifier a.2) UNKNOWN_CODE (aggr_type_of group_by (vs_type a.2))).
Definition grp_of (v : var_spec) : res group :=
  var_id ← extract_tuple_id (vs_Var v);
  Val (mk_group (Z.to_nat var_id) (identifier v) UNKNOWN_CODE (grp_type_of (vs_type v))).
Definition sort_type_of (t : type_spec) : qr_type :=
  match t with
  | t_int => int_type | t_double => double_type | t_uint64 => uint64_type | t_string => string_type | t_datetime => ptime_type
  | t_node | t_rship => node_ptr_type
  end.
Definition sort_of (e : sort_expr) : res sort_spec :=
  vidx ← extract_tuple_id (se_Var e);
  Val (mk_spec (if se_desc e then sort_Desc else sort_Asc) (Z.to_nat vidx) UNKNOWN_CODE (sort_type_of (se_type e))).
Definition algo_param (v : value) : M db any :=
  match v with
  | v_INTEGER t => int_or_uint64 t any_int any_uint64
  | v_LONG_INTEGER t => u ← lift_res (stoull t); mret (any_uint64 u)
  | v_FLOAT t => d ← lift_res (stod t); mret (any_double d)
  | v_STRING t => mret (any_string (trim_string t))
  end.
Definition int_max : Z := 2 ^ 31 - 1.
Definition origin (src : option str) : res Z :=
  match src with Some t => i ← extract_tuple_id t; Val (s32 i) | None => Val int_max end.
Definition hops_of (card : option (str * str)) : res (option (Z * Z)) :=
  match card with
  | Some (t1, t2) => m1 ← stoi t1; m2 ← stoi t2; Val (Some (u64 m1, u64 m2))
  | None => Val None
  end.

(** ** Operators with children *)

(** [child1] and [child2] become the inputs of [o]; the one named first is
    connected first. *)
Definition join (o : nat) (in1 in2 : nat * port) : M st unit := connect in1.1 o in1.2 true;; connect in2.1 o in2.2 true.
Definition priorities (first second : nat) : M st unit := on_op first (set_priority 1);; on_op second (set_priority 0).

(** Without an input, [FROM] relationships begin a pipeline of their own; other
    directions stay without a producer. *)
Definition foreach_input (dir : rship_dir) (child : option nat) (o : nat) : M st nat :=
  match dir, child with
  | FromDir, None => start ← new_op k_start; push_root start;; qop_append (Some start) o
  | _, _ => qop_append child o
  end.
Definition create_kind (c : create_spec) : M db qop_kind :=
  match c with
  | cs_node label pl => props ← visit_optional_properties pl; mret (k_create_node (trim_string label) props)
  | cs_rship from label pl to =>
    props ← visit_optional_properties pl;
    from ← lift_res (extract_tuple_id from); to ← lift_res (extract_tuple_id to);
    mret (k_create_relationship (trim_string label) props (s32 from, s32 to))
  end.

(** The head of the nested query: along [parent_], at most once through every
    operator. *)
Fixpoint find_head (fuel : nat) (l : list qop) (o : nat) : option nat :=
  match fuel, parent_ <$> l !! o with
  | S fuel', Some (Some q) => find_head fuel' l q
  | S _, Some None => Some o
  | _, _ => None
  end.
(** Along [subscriber_]. *)
Fixpoint find_tail (fuel : nat) (l : list qop) (o : nat) : option nat :=
  match fuel, subscriber_ <$> l !! o with
  | S fuel', Some (Some q) => find_tail fuel' l q
  | S _, Some None => Some o
  | _, _ => None
  end.
Definition or_loop (o : option nat) : M st nat := match o with Some o => mret o | None => throw no_return end.
Definition is_start (l : list qop) (o : nat) : bool := match kind <$> l !! o with Some k_start => true | _ => false end.
(** The constructor of [exists_op] has the last operator of the subquery count. *)
Definition new_exists (head : nat) (is_not : bool) : M st nat :=
  s ← get_st;
  tail ← or_loop (find_tail (length (ops s.2)) (ops s.2) head);
  o ← new_op (k_exists head is_not); on_op tail (set_consume (o, to_count));; mret o.
Definition visit_subquery (sub_ops : nat) : M st nat :=
  s ← get_st;
  head ← or_loop (find_head (length (ops s.2)) (ops s.2) sub_ops);
  if is_start (ops s.2) head then mret head else throw query_processing_error.
Definition new_order_by (spec : list sort_spec) : M st nat :=
  modify (λ s, (s.1, mk_planner (ops s.2) (sources_ s.2) (roots_ s.2) (order_by_spec spec (globals_ s.2))));;
  new_op (k_order_by spec).

Definition visit_projections (l : list proj_expr) : M db (list pexpr) := pexs ← mapM visit_proj_expr l; mret (concat pexs).
Definition resolved_aggrs (l : list aggr_expr) : M db (list aggr_expr) := g ← get_st; mret (resolve_aggr (dict_ g) <$> l).
Definition resolved_groups (l : list group) : M db (list group) := g ← get_st; mret (resolve_group (dict_ g) <$> l).

(** Each takes the visits of its inputs. *)
Definition visitFilter_op (e : logical_expr) (visit : M st nat) : M st nat :=
  child ← visit; ex ← on_fst (visitLogical_expr e); append_new child (k_filter ex).
Definition visitProject_op (l : list proj_expr) (visit : M st nat) : M st nat :=
  pex_list ← on_fst (visit_projections l); qp ← new_op (k_projection pex_list);
  child ← visit; qop_append (Some child) qp.
Definition visitLimit_op (param : str) (visit : M st nat) : M st nat :=
  limit ← lift_res (stoi param); qp ← new_op (k_limit (u64 limit)); child ← visit; qop_append (Some child) qp.
Definition visitExpand_op (dir : expand_dir) (label : str) (visit : M st nat) : M st nat :=
  child ← visit;
  o ← append_new child (match dir with InExpandDir => k_get_from_node | OutExpandDir => k_get_to_node end);
  append_new o (k_node_has_label (trim_string label)).
Definition visitSort_op (l : list sort_expr) (visit : M st nat) : M st nat :=
  sort_list ← lift_res (mapM sort_of l); child ← visit;
  o ← new_order_by sort_list; qop_append2 (Some child) o.
(** An input may be missing. *)
Definition visit_some (visit : option (M st nat)) : M st (option nat) :=
  match visit with Some m => c ← m; mret (Some c) | None => mret None end.
Definition visitForeach_relationship_op (dir : rship_dir) (label : str) (card : option (str * str)) (src : option str)
    (visit : option (M st nat)) : M st nat :=
  child ← visit_some visit;
  hops ← lift_res (hops_of card); origin_idx ← lift_res (origin src);
  o ← new_op (k_foreach dir (trim_string label) hops origin_idx);
  foreach_input dir child o.
Definition visitCrossjoin_op (visit1 visit2 : M st nat) : M st nat :=
  o ← new_op k_cross_join;
  child1 ← visit1; child2 ← visit2;
  join o (child1, to_right) (child2, to_left);; priorities child1 child2;; mret o.
Definition visitLeftouterjoin_op (e : logical_expr) (visit1 visit2 : M st nat) : M st nat :=
  ex ← on_fst (visitLogical_expr e); o ← new_op (k_left_outer_join ex);
  child1 ← visit1; child2 ← visit2;
  join o (child2, to_right) (child1, to_left);; priorities child2 child1;; mret o.
Definition visitHashjoin_op (v1 v2 : var_spec) (visit1 visit2 : M st nat) : M st nat :=
  child1 ← visit1; child2 ← visit2;
  lhs ← on_fst (visitVariable v1); rhs ← on_fst (visitVariable v2); o ← new_op (k_hash_join lhs rhs);
  join o (child1, to_build) (child2, to_probe);; priorities child1 child2;; mret o.
Definition visitAggregate_op (l : list (func_t * var_spec)) (visit : M st nat) : M st nat :=
  child ← visit; aggrs ← lift_res (mapM (aggr_of false) l);
  aggrs' ← on_fst (resolved_aggrs aggrs); append_new2 child (k_aggregate aggrs').
Definition visitUnion_op (visit1 visit2 : M st nat) : M st nat :=
  o ← new_op k_union_all;
  child1 ← visit1; child2 ← visit2;
  join o (child1, to_right) (child2, to_left);; mret o.
Definition visitExcept_op (v1 v2 : var_spec) (visit1 visit2 : M st nat) : M st nat :=
  child1 ← visit1; child2 ← visit2;
  lhs ← on_fst (visitVariable v1); rhs ← on_fst (visitVariable v2); o ← new_op (k_except lhs rhs);
  join o (child1, to_left) (child2, to_right);; priorities child2 child1;; mret o.
Definition visitExists_op (is_not : bool) (visit1 visit2 : M st nat) : M st nat :=
  child ← visit1; sub_ops ← visit2;
  head ← visit_subquery sub_ops;
  o ← new_exists head is_not; qop_append (Some child) o.
Definition visitGroup_by_op (g : list var_spec) (l : list (func_t * var_spec)) (visit : M st nat) : M st nat :=
  child ← visit; grps ← lift_res (mapM grp_of g); aggrs ← lift_res (mapM (aggr_of true) l);
  grps' ← on_fst (resolved_groups grps); aggrs' ← on_fst (resolved_aggrs aggrs);
  append_new2 child (k_group_by grps' aggrs').
Definition visitDistinct_op (visit : M st nat) : M st nat :=
  qp ← new_op k_distinct; child ← visit; qop_append (Some child) qp.
Definition visitCreate_op (c : create_spec) (visit : option (M st nat)) : M st nat :=
  child ← visit_some visit;
  k ← on_fst (create_kind c); o ← new_op k; qop_append child o;;
  match child with None => push_source o | Some _ => mret tt end;; mret o.
Definition visitUpdate_op (var : str) (pl : property_list) (visit : M st nat) : M st nat :=
  child ← visit; var_id ← lift_res (extract_tuple_id var); props ← on_fst (visitProperty_list pl);
  append_new child (k_update_node var_id props).
Definition visitRemove_node_op (visit : M st nat) : M st nat := child ← visit; append_new child k_remove_node.
Definition visitRemove_relationship_op (visit : M st nat) : M st nat := child ← visit; append_new child k_remove_relationship.
Definition visitDetach_node_op (visit : M st nat) : M st nat := child ← visit; append_new child k_detach_node.
Definition visitAlgo_param_list (l : option (list value)) : M db (list any) := mapM algo_param (default [] l).
Definition visitAlgorithm_op (name : str) (tuple_mode : bool) (params : option (list value)) (visit : M st nat) : M st nat :=
  child ← visit; args ← on_fst (visitAlgo_param_list params);
  append_new child (k_algorithm name (if tuple_mode then m_tuple else m_set) args).

Fixpoint visit_op (q : query_operator) : M st nat :=
  match q with
  | NodeScan p => visitNode_scan_op p
  | RelationshipScan p => visitRship_scan_op p
  | IndexScan label property v => visitIndex_scan_op label property v
  | NodeById i => visitNode_by_id i
  | Match n path => visitPath_pattern n path
  | Filter e q => visitFilter_op e (visit_op q)
  | Project l q => visitProject_op l (visit_op q)
  | Limit i q => visitLimit_op i (visit_op q)
  | CrossJoin q1 q2 => visitCrossjoin_op (visit_op q1) (visit_op q2)
  | HashJoin v1 v2 q1 q2 => visitHashjoin_op v1 v2 (visit_op q1) (visit_op q2)
  | LeftOuterJoin e q1 q2 => visitLeftouterjoin_op e (visit_op q1) (visit_op q2)
  | ForeachRelationship dir label card src q =>
    visitForeach_relationship_op dir label card src (match q with Some q => Some (visit_op q) | None => None end)
  | Expand dir label q => visitExpand_op dir label (visit_op q)
  | Aggregate l q => visitAggregate_op l (visit_op q)
  | GroupBy g l q => visitGroup_by_op g l (visit_op q)
  | Union q1 q2 => visitUnion_op (visit_op q1) (visit_op q2)
  | Except v1 v2 q1 q2 => visitExcept_op v1 v2 (visit_op q1) (visit_op q2)
  | Exists is_not q1 q2 => visitExists_op is_not (visit_op q1) (visit_op q2)
  | Sort l q => visitSort_op l (visit_op q)
  | Distinct q => visitDistinct_op (visit_op q)
  | Create c q => visitCreate_op c (match q with Some q => Some (visit_op q) | None => None end)
  | RemoveNode q => visitRemove_node_op (visit_op q)
  | DetachNode q => visitDetach_node_op (visit_op q)
  | RemoveRelationship q => visitRemove_relationship_op (visit_op q)
  | Update var pl q => visitUpdate_op var pl (visit_op q)
  | Algorithm name tuple_mode args q => visitAlgorithm_op name tuple_mode args (visit_op q)
  end.

(** [visitQuery] for a planner that may have planned before. *)
Definition visitQuery (q : query_operator) : M st nat :=
  modify (λ s, (s.1, mk_planner (ops s.2) [] (roots_ s.2) (globals_ s.2)));; visit_op q.

(** ** Pipelines

    The default constructor leaves [priority_] unset; [operator=] does not copy
    it. *)
Record query_pipeline : Type := mk_pipeline { plan_head_ : option nat; plan_tail_ : option nat; pl_priority_ : Z }.
(** The tail, and the largest priority in front of it. *)
Fixpoint walk_tail (fuel : nat) (l : list qop) (prio : Z) (o : nat) : res (nat * Z) :=
  match fuel, l !! o with
  | S fuel', Some x =>
    match subscriber_ x with
    | Some q => walk_tail fuel' l (Z.max prio (priority_ x)) q
    | None => Val (o, prio)
    end
  | _, _ => Exn no_return
  end.
Definition new_pipeline (l : list qop) (o : nat) : res query_pipeline :=
  t ← walk_tail (length l) l 0 o; Val (mk_pipeline (Some o) (Some t.1) t.2).
Definition assign_pipeline (this q : query_pipeline) : query_pipeline :=
  mk_pipeline (plan_head_ q) (plan_tail_ q) (pl_priority_ this).
Definition append_op (p : query_pipeline) (o : nat) (pt : port) (own : bool) : M st query_pipeline :=
  match plan_head_ p, plan_tail_ p with
  | None, _ => mret (mk_pipeline (Some o) (Some o) (pl_priority_ p))
  | Some _, None => throw undefined_behaviour
  | Some h, Some t => connect t o pt own;; mret (mk_pipeline (Some h) (Some o) (pl_priority_ p))
  end.

(** ** Batches *)
Record query_batch : Type := mk_batch { query_pipelines_ : list query_pipeline; pipeline_seq_ : list nat }.
Definition get_query_plan : M st query_batch :=
  s ← get_st; pls ← lift_res (mapM (new_pipeline (ops s.2)) (sources_ s.2)); mret (mk_batch pls []).

(** [std::sort] by descending priority. *)
Variable std_sort : list (nat * Z) → list (nat * Z).
Definition schedule_pipelines (b : query_batch) : query_batch :=
  if bool_decide (length (query_pipelines_ b) < 2)%nat then b
  else mk_batch (query_pipelines_ b) (std_sort (imap (λ i p, (i, pl_priority_ p)) (query_pipelines_ b))).*1.
Definition run_order (b : query_batch) : list nat :=
  match pipeline_seq_ b with [] => seq 0 (length (query_pipelines_ b)) | l => l end.

Definition append_last (b : query_batch) (k : qop_kind) : M st nat :=
  match query_pipelines_ b with
  | [] => throw out_of_range_std
  | p :: _ =>
    o ← new_op k;
    match plan_tail_ p with Some t => connect t o to_process true;; mret o | None => throw undefined_behaviour end
  end.
Definition append_printer (b : query_batch) : M st nat := append_last b k_printer.
Definition append_collect (b : query_batch) (as_string : bool) : M st nat := append_last b (k_collect as_string).

(** ** Preparing a plan

    [prep] is the visitor of expressions.  Only these operators have one the
    visitor looks at. *)
Definition prepare_value (prep : expr → M db expr) (kv : str * prop_value) : M db (str * prop_value) :=
  match kv.2 with p_expr e => e' ← prep e; mret (kv.1, p_expr e') | p_any _ => mret kv end.
Definition prepare_present (prep : expr → M db expr) (e : expr) : M db expr :=
  match e with null_expr => mret null_expr | _ => prep e end.
Definition prepare_kind (prep : expr → M db expr) (k : qop_kind) : M db qop_kind :=
  match k with
  | k_filter ex => ex' ← prepare_present prep ex; mret (k_filter ex')
  | k_left_outer_join ex => ex' ← prepare_present prep ex; mret (k_left_outer_join ex')
  | k_create_node label props => props' ← mapM (prepare_value prep) props; mret (k_create_node label props')
  | k_create_relationship label props nodes =>
    props' ← mapM (prepare_value prep) props; mret (k_create_relationship label props' nodes)
  | _ => mret k
  end.
Definition set_kind (k : qop_kind) (o : qop) : qop := mk_qop k (subscriber_ o) (parent_ o) (consume_ o) (finish_ o) (priority_ o).
(** [accept]: the operator, and then its subscriber. *)
Fixpoint accept_ops (fuel : nat) (prep : expr → M db expr) (o : nat) : M st unit :=
  match fuel with
  | O => throw no_return
  | S fuel' =>
    s ← get_st;
    match ops s.2 !! o with
    | None => throw undefined_behaviour
    | Some x =>
      k ← on_fst (prepare_kind prep (kind x)); on_op o (set_kind k);;
      match subscriber_ x with Some q => accept_ops fuel' prep q | None => mret tt end
    end
  end.
Definition accept_pipeline (prep : expr → M db expr) (p : query_pipeline) : M st unit :=
  match plan_head_ p with
  | Some h => s ← get_st; accept_ops (length (ops s.2)) prep h
  | None => throw undefined_behaviour
  end.
Definition prepare_plan (prep : expr → M db expr) (b : query_batch) : M st unit :=
  for_each (accept_pipeline prep) (query_pipelines_ b).

(** ** Running

    [A] is the state of the operators, [start_op] what [start] of an operator of
    the plan does to it and to the database. *)
Section running.
Context {A : Type}.
Variables (junk : Z) (start_op : list qop → nat → M (db * A) unit).

Definition pipeline_start (l : list qop) (p : query_pipeline) : M (db * A) unit :=
  match plan_head_ p with Some h => start_op l h | None => throw undefined_behaviour end.
Definition start_nth (l : list qop) (b : query_batch) (i : nat) : M (db * A) unit :=
  match query_pipelines_ b !! i with Some p => pipeline_start l p | None => throw undefined_behaviour end.
Definition batch_start (l : list qop) (b : query_batch) : M (db * A) unit :=
  let b' := schedule_pipelines b in for_each (start_nth l b') (run_order b').

(** [qinterp::execute]: [run_transaction], with a body that returns true. *)
Definition execute (auto_commit : bool) (xid : Z) (start : M (db * A) unit) : M (db * A) unit :=
  if auto_commit
  then on_fst (begin_transaction xid);; start;; _ ← on_fst (commit_transaction junk); mret tt
  else start.

(** [query_proc], behind the parser. *)
Definition prepare_query (q : query_operator) : M st query_batch := _ ← visitQuery q; get_query_plan.
Definition no_plan (gl : sort_globals) : planner := mk_planner [] [] [] gl.
Definition plan_query (prep : expr → M db expr) (q : query_operator) (as_string : bool) : M st query_batch :=
  b ← prepare_query q; _ ← append_collect b as_string; prepare_plan prep b;; mret b.
(** [catch(std::exception&)] *)
Definition has_error {St} (m : M St unit) : M St bool := catch_std (m;; mret false) (mret true).
(** The result set is part of [A]; the specification of [order_by] outlives the
    query. *)
Definition execute_query (auto_commit : bool) (xid : Z) (prep : expr → M db expr) (q : query_operator) (as_string : bool) :
    M (db * A * sort_globals) bool :=
  has_error (λ s,
    let '((g, a), gl) := s in
    match plan_query prep q as_string (g, no_plan gl) with
    | ((g', p), Exn e) => ((g', a, globals_ p), Exn e)
    | ((g', p), Val b) =>
      let '(s', r) := execute auto_commit xid (batch_start (ops p) b) (g', a) in ((s', globals_ p), r)
    end).
End running.
End planner.
