(* ===== verification/PlanFacts.v ===== *)
(** * PlanFacts: what the planner guarantees

    Every producer of a plan leads, along the subscribers, to the operator at
    the root of the query; the priorities of the pipelines are a function of
    the query ([prios]).  From them follows the order in which a batch starts
    its pipelines.  Chains of additions and of multiplications are planned by
    the number of their operators of each kind. *)

From Stdlib Require Import Ascii Sorted.
From stdpp Require Import sorting.
From S2P Require Import Prelude VecSpec Chunk ChunkedVec VecIter Txn DictSpec IndexSpec BTreeTree IndexMap StringPool Dict Literals Property PropertyList Demo.
From S2P Require Import Mvto GraphState GraphOps QueryCtx QResult Expr Qop QopAggregates QopUpdates GraphIndex GraphCommit QopScans QopAlgorithms GraphDemo QueryPlan.

(** ** Queries *)

(** No operator has a nested query. *)
Fixpoint exists_free (q : query_operator) : bool :=
  match q with
  | NodeScan _ | RelationshipScan _ | IndexScan _ _ _ | NodeById _ | Match _ _ => true
  | Filter _ q | Project _ q | Limit _ q | Expand _ _ q | Aggregate _ q | GroupBy _ _ q | Sort _ q | Distinct q
  | RemoveNode q | DetachNode q | RemoveRelationship q | Update _ _ q | Algorithm _ _ _ q => exists_free q
  | ForeachRelationship _ _ _ _ q | Create _ q => match q with Some q => exists_free q | None => true end
  | CrossJoin q1 q2 | HashJoin _ _ q1 q2 | LeftOuterJoin _ q1 q2 | Union q1 q2 | Except _ _ q1 q2 => exists_free q1 && exists_free q2
  | Exists _ _ _ => false
  end.
(** The priorities of the pipelines, in the order of their producers. *)
Fixpoint prios (q : query_operator) : list Z :=
  match q with
  | NodeScan _ | RelationshipScan _ | IndexScan _ _ _ | NodeById _ | Match _ _ => [0]
  | Filter _ q | Project _ q | Limit _ q | Expand _ _ q | Aggregate _ q | GroupBy _ _ q | Sort _ q | Distinct q
  | RemoveNode q | DetachNode q | RemoveRelationship q | Update _ _ q | Algorithm _ _ _ q => prios q
  | ForeachRelationship _ _ _ _ q => match q with Some q => prios q | None => [] end
  | Create _ q => match q with Some q => prios q | None => [0] end
  | CrossJoin q1 q2 | HashJoin _ _ q1 q2 => (Z.max 1 <$> prios q1) ++ prios q2
  | LeftOuterJoin _ q1 q2 | Except _ _ q1 q2 => prios q1 ++ (Z.max 1 <$> prios q2)
  | Union q1 q2 | Exists _ q1 q2 => prios q1 ++ prios q2
  end.

(** Only joins whose left input comes first, and a producer at every leaf. *)
Fixpoint left_first (q : query_operator) : bool :=
  match q with
  | NodeScan _ | RelationshipScan _ | IndexScan _ _ _ | NodeById _ | Match _ _ => true
  | Filter _ q | Project _ q | Limit _ q | Expand _ _ q | Aggregate _ q | GroupBy _ _ q | Sort _ q | Distinct q
  | RemoveNode q | DetachNode q | RemoveRelationship q | Update _ _ q | Algorithm _ _ _ q => left_first q
  | ForeachRelationship _ _ _ _ q => match q with Some q => left_first q | None => false end
  | Create _ q => match q with Some q => left_first q | None => true end
  | CrossJoin q1 q2 | HashJoin _ _ q1 q2 => left_first q1 && left_first q2
  | LeftOuterJoin _ _ _ | Except _ _ _ _ | Union _ _ | Exists _ _ _ => false
  end.
Lemma left_first_prios q : left_first q = true → exists_free q = true ∧ ∃ n, prios q = replicate n 1 ++ [0].
Proof.
  assert (∀ n q, (Z.max 1 <$> replicate n 1 ++ [0]) ++ q = replicate (S n) 1 ++ q) as Hmax.
  { intros n p. f_equal. rewrite fmap_app, fmap_replicate. symmetry. apply replicate_S_end. }
  revert q. fix IH 1. intros q Hq. destruct q; simpl in *; try discriminate Hq; try (apply IH; exact Hq); try (split; [done|by exists 0%nat]).
  1,2: apply andb_true_iff in Hq as [[H1 [n1 Hn1]]%IH [H2 [n2 Hn2]]%IH]; rewrite H1, H2, Hn1, Hn2, Hmax;
    split; [done|]; exists (S n1 + n2)%nat; by rewrite app_assoc, replicate_add.
  all: destruct q as [q|]; [by apply IH|try discriminate Hq].
  split; [done|by exists 0%nat].
Qed.

(** ** Sorting by priority *)

(** A stable sort by descending priority. *)
Fixpoint place_by_prio (x : nat * Z) (l : list (nat * Z)) : list (nat * Z) :=
  match l with [] => [x] | y :: l' => if bool_decide (y.2 ≤ x.2) then x :: l else y :: place_by_prio x l' end.
Definition stable_sort : list (nat * Z) → list (nat * Z) := foldr place_by_prio [].
Notation falling := (StronglySorted (λ x y : nat * Z, y.2 ≤ x.2)).
Lemma place_perm x l : place_by_prio x l ≡ₚ x :: l.
Proof. induction l as [|y l IH]; simpl; [done|]. case_bool_decide; [done|]. rewrite IH. apply Permutation_swap. Qed.
Lemma place_falling x l : falling l → falling (place_by_prio x l).
Proof.
  induction 1 as [|y l Hs IH Hf]; simpl; [repeat constructor|]. case_bool_decide.
  - constructor; [by constructor|]. constructor; [done|]. eapply Forall_impl; [done|]. simpl. lia.
  - constructor; [done|]. rewrite place_perm. constructor; [lia|done].
Qed.
Lemma stable_sort_ok l : stable_sort l ≡ₚ l ∧ falling (stable_sort l).
Proof.
  induction l as [|x l [Hp Hs]]; simpl; [split; [done|constructor]|]. split; [by rewrite place_perm, Hp|by apply place_falling].
Qed.
Lemma stable_sort_falling l : falling l → stable_sort l = l.
Proof.
  induction 1 as [|x l Hs IH Hf]; simpl; [done|]. rewrite IH. destruct Hf; simpl; [done|]. by rewrite bool_decide_true.
Qed.

(** ** Chains of references *)

(** From [i] one gets to [t], which has none, in [k] steps; [m] is the largest
    number on the way. *)
Inductive leads (S : list (option nat * Z)) : nat → nat → nat → Z → Prop :=
  | leads_here i p : S !! i = Some (None, p) → leads S i i 0 0
  | leads_next i j t k p m : S !! i = Some (Some j, p) → leads S j t k m → leads S i t (1 + k) (Z.max p m).

Section chains.
Implicit Types S : list (option nat * Z).

Lemma leads_nonneg S i t k m : leads S i t k m → 0 ≤ m.
Proof. induction 1; lia. Qed.
Lemma leads_end S i t k m : leads S i t k m → ∃ p, S !! t = Some (None, p).
Proof. induction 1; eauto. Qed.
Lemma leads_start S i t k m : leads S i t k m → (i < length S)%nat.
Proof. destruct 1; by eapply lookup_lt_Some. Qed.
Lemma leads_fun S i t k m t' k' m' : leads S i t k m → leads S i t' k' m' → t = t' ∧ k = k' ∧ m = m'.
Proof.
  intros H; revert t' k' m'. induction H as [i p Hi|i j t k p m Hi _ IH]; intros t' k' m' H'; inversion H'; simplify_eq; [done|].
  edestruct IH as (-> & -> & ->); [done|]. done.
Qed.
(** No operator is met twice, so there are less steps than operators. *)
Lemma leads_short S i t k m : leads S i t k m → (k < length S)%nat.
Proof.
  intros H. enough (∃ l, length l = 1 + k ∧ NoDup l ∧ ∀ j, j ∈ l → ∃ k' m', leads S j t k' m' ∧ k' ≤ k)%nat as (l & Hl & Hnd & Hin).
  { assert (l ⊆+ seq 0 (length S)) as Hsub.
    { apply NoDup_submseteq; [done|]. intros j Hj. destruct (Hin _ Hj) as (k' & m' & Hj' & _).
      apply elem_of_seq. apply leads_start in Hj'. lia. }
    apply submseteq_length in Hsub. rewrite length_seq in Hsub. lia. }
  induction H as [i p Hi|i j t k p m Hi Hj IH].
  - exists [i]. split; [done|]. split; [apply NoDup_singleton|]. intros j ->%list_elem_of_singleton.
    exists 0%nat, 0. split; [by econstructor|lia].
  - destruct IH as (l & Hl & Hnd & Hin). exists (i :: l). split; [simpl; lia|]. split.
    + apply NoDup_cons. split; [|done]. intros (k' & m' & Hi' & ?)%Hin.
      destruct (leads_fun _ _ _ _ _ _ _ _ (leads_next _ _ _ _ _ _ _ Hi Hj) Hi') as (_ & <- & _). lia.
    + intros j' [->|Hj']%elem_of_cons; [exists (1 + k)%nat, (Z.max p m); split; [by econstructor|lia]|].
      destruct (Hin _ Hj') as (k' & m' & ? & ?). exists k', m'. split; [done|lia].
Qed.

Lemma leads_keep S S' i t k m : leads S i t k m → (∀ j, (j < length S)%nat → S' !! j = S !! j) → leads S' i t k m.
Proof.
  intros H Hk. induction H as [i p Hi|i j t k p m Hi _ IH].
  - econstructor. rewrite Hk; [done|by eapply lookup_lt_Some].
  - econstructor; [|done]. rewrite Hk; [done|by eapply lookup_lt_Some].
Qed.
(** The end [c] of chains gets a reference to [o]: the chains to [c] go on to
    [o], the others stay. *)
Lemma leads_through S i c k m o p q :
  leads S i c k m → S !! o = Some (None, q) → o ≠ c → leads (<[c := (Some o, p)]> S) i o (1 + k) (Z.max m p).
Proof.
  intros H Ho Hne. induction H as [i p' Hi|i j c k p' m Hi Hj IH].
  - rewrite Z.max_comm. econstructor; [by apply list_lookup_insert_eq; eapply lookup_lt_Some|].
    econstructor. rewrite list_lookup_insert_ne; done.
  - rewrite <- Z.max_assoc. econstructor; [|by apply IH].
    rewrite list_lookup_insert_ne; [done|]. intros ->. apply leads_end in Hj as [??]. simplify_eq.
Qed.
Lemma leads_other S i t k m c p v : leads S i t k m → S !! c = Some (None, p) → t ≠ c → leads (<[c := v]> S) i t k m.
Proof.
  intros H Hc Hne. induction H as [i p' Hi|i j t k p' m Hi Hj IH].
  - econstructor. rewrite list_lookup_insert_ne; done.
  - econstructor; [|by apply IH]. rewrite list_lookup_insert_ne; [done|]. intros ->. simplify_eq.
Qed.
End chains.

(** ** What a visit adds to the plan *)
Section plans.
Context {V : Type → Type} `{!Vec V} `{!VecScan V} {D : Type} `{!Dictionary D} {X : Type} `{!Indexes X}.
Variables (stof : str → res Z) (valid_regex : str → bool).
Notation db := (gdb V D X).
Notation expr := (expr db).
Notation fn1 := (query_result → M db query_result).
Variables (udf_lib : option (str → res fn1)) (to_iso : Z → str) (ull_any : Z → any).
Notation qop := (qop (V:=V) (D:=D) (X:=X)).
Notation planner := (planner (V:=V) (D:=D) (X:=X)).
Notation st := (db * planner)%type.
Notation visit_op := (visit_op stof valid_regex udf_lib to_iso ull_any).
Implicit Types (l : list qop) (s : st).

(** The plan as references: subscribers with priorities, and parents. *)
Definition subs l : list (option nat * Z) := (λ x, (subscriber_ x, priority_ x)) <$> l.
Definition pars l : list (option nat * Z) := (λ x, (parent_ x, 0)) <$> l.
(** Chains of subscribers end. *)
Definition chains_end (n : nat) (S : list (option nat * Z)) : Prop :=
  ∀ i, (n ≤ i < length S)%nat → ∃ t k m, (n ≤ t)%nat ∧ leads S i t k m.
Definition lead_to (S : list (option nat * Z)) (r : nat) (new : list nat) (pr : list Z) : Prop :=
  Forall2 (λ i m, ∃ k, leads S i r k m) new pr.
(** The plan [l] with its producers [so] has grown; [r] is the root of what is
    new, and when [b] holds all new producers lead to it with priorities [pr]. *)
Record planned (b : bool) (pr : list Z) l (so : list nat) l' (so' : list nat) (r : nat) : Prop := mk_planned {
  p_new : (length l ≤ r < length l')%nat;
  p_subs : ∀ i, (i < length l)%nat → subs l' !! i = subs l !! i;
  p_pars : ∀ i, (i < length l)%nat → pars l' !! i = pars l !! i;
  p_root : subs l' !! r = Some (None, 0);
  p_head : ∃ h k m, (length l ≤ h)%nat ∧ leads (pars l') r h k m;
  p_ends : chains_end (length l) (subs l');
  p_sources : ∃ new, so' = so ++ new ∧ Forall (λ i, (length l ≤ i < length l')%nat) new ∧ (b = true → lead_to (subs l') r new pr)
}.
Definition plans (b : bool) (pr : list Z) (m : M st nat) : Prop :=
  ∀ s s' r, m s = (s', Val r) → planned b pr (ops s.2) (sources_ s.2) (ops s'.2) (sources_ s'.2) r.
(** A step that goes on from the root of what is planned. *)
Definition extends (f : nat → M st nat) : Prop :=
  ∀ b pr l so s s' c r, planned b pr l so (ops s.2) (sources_ s.2) c → f c s = (s', Val r) →
    planned b pr l so (ops s'.2) (sources_ s'.2) r.

Lemma length_subs l : length (subs l) = length l.
Proof. apply length_fmap. Qed.
Lemma length_pars l : length (pars l) = length l.
Proof. apply length_fmap. Qed.
Definition fresh (k : qop_kind) : qop := mk_qop k None None None None 0.
Lemma subs_app l k : subs (l ++ [fresh k]) = subs l ++ [(None, 0)].
Proof. unfold subs. by rewrite fmap_app. Qed.
Lemma pars_app l k : pars (l ++ [fresh k]) = pars l ++ [(None, 0)].
Proof. unfold pars. by rewrite fmap_app. Qed.
Lemma subs_alter f q l (F : option nat * Z → option nat * Z) :
  (∀ x, (subscriber_ (f x), priority_ (f x)) = F (subscriber_ x, priority_ x)) → subs (alter f q l) = alter F q (subs l).
Proof.
  intros HF. apply list_eq. intros i. unfold subs. rewrite list_lookup_fmap.
  destruct (decide (i = q)) as [->|].
  - rewrite !list_lookup_alter_eq, list_lookup_fmap. destruct (l !! q); simpl; [by rewrite HF|done].
  - rewrite !list_lookup_alter_ne, list_lookup_fmap; done.
Qed.
Lemma pars_alter f q l (F : option nat * Z → option nat * Z) :
  (∀ x, (parent_ (f x), 0) = F (parent_ x, 0)) → pars (alter f q l) = alter F q (pars l).
Proof.
  intros HF. apply list_eq. intros i. unfold pars. rewrite list_lookup_fmap.
  destruct (decide (i = q)) as [->|].
  - rewrite !list_lookup_alter_eq, list_lookup_fmap. destruct (l !! q); simpl; [by rewrite HF|done].
  - rewrite !list_lookup_alter_ne, list_lookup_fmap; done.
Qed.
Lemma alter_same {A} (f : A → A) i (l : list A) x : l !! i = Some x → alter f i l = <[i := f x]> l.
Proof.
  intros Hi. apply list_eq. intros j. destruct (decide (j = i)) as [->|].
  - rewrite list_lookup_alter_eq, list_lookup_insert_eq by (by eapply lookup_lt_Some). by rewrite Hi.
  - by rewrite list_lookup_alter_ne, list_lookup_insert_ne.
Qed.
Lemma alter_id_list {A} (f : A → A) i (l : list A) : (∀ x, f x = x) → alter f i l = l.
Proof.
  intros Hf. apply list_eq. intros j. destruct (decide (j = i)) as [->|].
  - rewrite list_lookup_alter_eq. destruct (l !! i); simpl; [by rewrite Hf|done].
  - by rewrite list_lookup_alter_ne.
Qed.

(** *** Connecting *)
Definition conn (q o : nat) (pt : port) (own : bool) l : list qop := alter (set_subscriber o pt own) q (alter (set_parent q) o l).
Lemma subs_conn q o pt own l p : subs l !! q = Some (None, p) → subs (conn q o pt own l) = <[q := (Some o, p)]> (subs l).
Proof.
  intros Hq. unfold conn. rewrite (subs_alter _ _ _ (λ x, (Some o, x.2))) by done.
  rewrite (subs_alter _ _ _ (λ x, x)) by done. rewrite (alter_id_list (λ x, x)) by done.
  by rewrite (alter_same _ _ _ _ Hq).
Qed.
Lemma pars_conn q o pt own l : (o < length l)%nat → pars (conn q o pt own l) = <[o := (Some q, 0)]> (pars l).
Proof.
  intros Ho. unfold conn. rewrite (pars_alter _ _ _ (λ x, x)) by (by intros [? []]).
  rewrite (alter_id_list (λ x, x)) by done. rewrite (pars_alter _ _ _ (λ _, (Some q, 0))) by done.
  rewrite <- (length_pars l) in Ho. apply lookup_lt_is_Some_2 in Ho as [x Hx]. by rewrite (alter_same _ _ _ _ Hx).
Qed.
Lemma length_conn q o pt own l : length (conn q o pt own l) = length l.
Proof. unfold conn. by rewrite !length_alter. Qed.
(** Priorities. *)
Lemma subs_prio n q l : subs (alter (set_priority n) q l) = alter (λ x, (x.1, n)) q (subs l).
Proof. by apply subs_alter. Qed.
Lemma pars_prio n q l : pars (alter (set_priority n) q l) = pars l.
Proof. rewrite (pars_alter _ _ _ (λ x, x)) by done. by apply alter_id_list. Qed.
Lemma subs_consume c q l : subs (alter (set_consume c) q l) = subs l.
Proof. rewrite (subs_alter _ _ _ (λ x, x)) by (by intros []). by apply alter_id_list. Qed.
Lemma pars_consume c q l : pars (alter (set_consume c) q l) = pars l.
Proof. rewrite (pars_alter _ _ _ (λ x, x)) by (by intros []). by apply alter_id_list. Qed.

(** *** An operator gets its inputs *)

(** The operator [o] has been allocated, and has no input yet. *)
Record allocated l l1 (o : nat) : Prop := mk_base {
  b_new : (length l ≤ o < length l1)%nat;
  b_subs : ∀ i, (i < length l)%nat → subs l1 !! i = subs l !! i;
  b_pars : ∀ i, (i < length l)%nat → pars l1 !! i = pars l !! i;
  b_fresh : subs l1 !! o = Some (None, 0);
  b_orphan : pars l1 !! o = Some (None, 0);
  b_ends : chains_end (length l) (subs l1)
}.
(** The root [c] of an input of [o], with its producers. *)
Record input (b : bool) (pr : list Z) l l1 (o c : nat) (new : list nat) : Prop := mk_input {
  i_root : subs l1 !! c = Some (None, 0);
  i_other : (length l ≤ c)%nat ∧ c ≠ o;
  i_head : ∃ h k m, (length l ≤ h)%nat ∧ h ≠ o ∧ leads (pars l1) c h k m;
  i_sources : Forall (λ i, (length l ≤ i < length l1)%nat) new;
  i_lead : b = true → lead_to (subs l1) c new pr
}.

Lemma same_length l1 l2 : length (subs l2) = length (subs l1) → length l2 = length l1.
Proof. by rewrite !length_subs. Qed.
Lemma chains_end_conn n S o c p q v :
  chains_end n S → S !! o = Some (None, q) → S !! c = Some (None, p) → o ≠ c → (n ≤ o)%nat →
  chains_end n (<[c := (Some o, v)]> S).
Proof.
  intros He Ho Hc Hne Hn i Hi. rewrite length_insert in Hi.
  destruct (He i Hi) as (t & k & m & Ht & Hl). destruct (decide (t = c)) as [->|Htc].
  - exists o, (1 + k)%nat, (Z.max m v). split; [done|]. by eapply leads_through.
  - exists t, k, m. split; [done|]. by eapply leads_other.
Qed.
Lemma lead_to_through S o c new pr p q :
  lead_to S c new pr → S !! o = Some (None, p) → o ≠ c → lead_to (<[c := (Some o, q)]> S) o new ((λ m, Z.max m q) <$> pr).
Proof.
  intros Hl Ho Hne. unfold lead_to. apply Forall2_fmap_r. eapply Forall2_impl; [exact Hl|].
  intros i m [k Hk]. exists (1 + k)%nat. by eapply leads_through.
Qed.
Lemma lead_to_other S r c new pr p v :
  lead_to S r new pr → S !! c = Some (None, p) → r ≠ c → lead_to (<[c := v]> S) r new pr.
Proof. intros Hl Hc Hne. eapply Forall2_impl; [exact Hl|]. intros i m [k Hk]. exists k. by eapply leads_other. Qed.
Lemma head_conn l l1 o c v :
  (∃ h k m, (length l ≤ h)%nat ∧ h ≠ o ∧ leads (pars l1) c h k m) → pars l1 !! o = Some (None, 0) → c ≠ o →
  ∃ h k m, (length l ≤ h)%nat ∧ leads (<[o := (Some c, 0)]> (<[o := v]> (pars l1))) o h k m.
Proof.
  intros (h & k & m & Hh & Hne & Hl) Ho Hco. exists h, (1 + k)%nat, (Z.max 0 m). split; [done|].
  rewrite list_insert_insert_eq. econstructor; [apply list_lookup_insert_eq; by eapply lookup_lt_Some|].
  by eapply leads_other.
Qed.

Lemma keeps_conn (n c : nat) (v : option nat * Z) (L L1 : list (option nat * Z)) :
  (∀ i, (i < n)%nat → L1 !! i = L !! i) → (n ≤ c)%nat → ∀ i, (i < n)%nat → <[c := v]> L1 !! i = L !! i.
Proof. intros Hk Hc i Hi. rewrite list_lookup_insert_ne by lia. by apply Hk. Qed.

Lemma close1 b pr l so l1 l2 o c new q :
  allocated l l1 o → input b pr l l1 o c new →
  subs l2 = <[c := (Some o, q)]> (subs l1) → pars l2 = <[o := (Some c, 0)]> (pars l1) →
  planned b ((λ m, Z.max m q) <$> pr) l so l2 (so ++ new) o.
Proof.
  intros [Hn Hs Hp Hf Ho He] [Hr [Hc Hne] Hh Hso Hl] Hs2 Hp2.
  assert (length l2 = length l1) as Hlen by (apply same_length; by rewrite Hs2, length_insert).
  split.
  - lia.
  - rewrite Hs2. by apply keeps_conn.
  - rewrite Hp2. apply keeps_conn; [done|lia].
  - rewrite Hs2, list_lookup_insert_ne; done.
  - rewrite Hp2. rewrite <- (list_insert_insert_eq (pars l1) o (Some c, 0) (None, 0)). by eapply head_conn.
  - rewrite Hs2. by eapply chains_end_conn; [..|lia].
  - exists new. split; [done|]. split; [by rewrite Hlen|]. intros Hb. rewrite Hs2. eapply lead_to_through; eauto.
Qed.
Lemma close2 b pr1 pr2 l so l1 l2 o c1 c2 new1 new2 q1 q2 c :
  allocated l l1 o → input b pr1 l l1 o c1 new1 → input b pr2 l l1 o c2 new2 → c1 ≠ c2 → c = c1 ∨ c = c2 →
  subs l2 = <[c2 := (Some o, q2)]> (<[c1 := (Some o, q1)]> (subs l1)) →
  (∃ v, pars l2 = <[o := (Some c, 0)]> (<[o := v]> (pars l1))) →
  planned b (((λ m, Z.max m q1) <$> pr1) ++ ((λ m, Z.max m q2) <$> pr2)) l so l2 (so ++ new1 ++ new2) o.
Proof.
  intros [Hn Hs Hp Hf Ho He] [Hr1 [Hc1 Hne1] Hh1 Hso1 Hl1] [Hr2 [Hc2 Hne2] Hh2 Hso2 Hl2] Hcc Hcor Hs2 [v Hp2].
  assert (length l2 = length l1) as Hlen by (apply same_length; by rewrite Hs2, !length_insert).
  assert (<[c1 := (Some o, q1)]> (subs l1) !! o = Some (None, 0)) as Hf' by (rewrite list_lookup_insert_ne; done).
  assert (<[c1 := (Some o, q1)]> (subs l1) !! c2 = Some (None, 0)) as Hr2' by (rewrite list_lookup_insert_ne; done).
  split.
  - lia.
  - rewrite Hs2. apply keeps_conn; [by apply keeps_conn|done].
  - rewrite Hp2. apply keeps_conn; [apply keeps_conn; [done|lia]|lia].
  - rewrite Hs2, list_lookup_insert_ne; done.
  - rewrite Hp2. destruct Hcor as [-> | ->]; by eapply head_conn.
  - rewrite Hs2. eapply chains_end_conn; [by eapply chains_end_conn; [..|lia]|done|done|done|lia].
  - exists (new1 ++ new2). split; [done|]. split; [rewrite Hlen; by apply Forall_app|]. intros Hb. rewrite Hs2.
    apply Forall2_app.
    + eapply lead_to_other; [|exact Hr2'|by apply not_eq_sym]. eapply lead_to_through; eauto.
    + eapply lead_to_through; [|exact Hf'|by apply not_eq_sym]. eapply lead_to_other; eauto.
Qed.

(** *** Growing *)
Record grown l l1 : Prop := mk_grown {
  g_length : (length l ≤ length l1)%nat;
  g_subs : ∀ i, (i < length l)%nat → subs l1 !! i = subs l !! i;
  g_pars : ∀ i, (i < length l)%nat → pars l1 !! i = pars l !! i;
  g_ends : chains_end (length l) (subs l1)
}.
Lemma grown_refl l : grown l l.
Proof. split; [done..|]. intros i Hi. rewrite length_subs in Hi. lia. Qed.
Lemma chains_end_keep n S S1 :
  (∀ i, (i < length S)%nat → S1 !! i = S !! i) → chains_end n S → chains_end (length S) S1 → (n ≤ length S)%nat → chains_end n S1.
Proof.
  intros Hk He He1 Hn i Hi. destruct (decide (i < length S)%nat).
  - destruct (He i) as (t & k & m & ? & ?); [lia|]. exists t, k, m. split; [done|]. by eapply leads_keep.
  - destruct (He1 i) as (t & k & m & ? & ?); [lia|]. exists t, k, m. split; [lia|done].
Qed.
Lemma grown_trans l l1 l2 : grown l l1 → grown l1 l2 → grown l l2.
Proof.
  intros [Hn Hs Hp He] [Hn1 Hs1 Hp1 He1]. split; [lia|..].
  - intros i Hi. rewrite Hs1 by lia. by apply Hs.
  - intros i Hi. rewrite Hp1 by lia. by apply Hp.
  - eapply chains_end_keep; rewrite ?length_subs; [|done..]. done.
Qed.
Lemma grown_planned b pr l so l1 so1 c : planned b pr l so l1 so1 c → grown l l1.
Proof. intros []. split; [lia|done..]. Qed.
Lemma grown_new l k : grown l (l ++ [fresh k]).
Proof.
  split; [rewrite length_app; lia|..].
  - intros i Hi. by rewrite subs_app, lookup_app_l by (by rewrite length_subs).
  - intros i Hi. by rewrite pars_app, lookup_app_l by (by rewrite length_pars).
  - intros i Hi. rewrite subs_app, length_app, length_subs in Hi. simpl in Hi. replace i with (length l) by lia.
    exists (length l), 0%nat, 0. split; [done|]. econstructor. rewrite subs_app, lookup_app_r; rewrite length_subs; [|done].
    by rewrite Nat.sub_diag.
Qed.
Lemma allocated_new l l1 k : grown l l1 → allocated l (l1 ++ [fresh k]) (length l1).
Proof.
  intros Hg. destruct (grown_trans _ _ _ Hg (grown_new l1 k)) as [Hn Hs Hp He]. destruct Hg as [Hn1 _ _ _].
  split; [rewrite length_app in *; simpl; lia|done|done|..|done].
  - rewrite subs_app, lookup_app_r; rewrite length_subs; [by rewrite Nat.sub_diag|done].
  - rewrite pars_app, lookup_app_r; rewrite length_pars; [by rewrite Nat.sub_diag|done].
Qed.
Lemma allocated_grown l l1 l2 o : allocated l l1 o → grown l1 l2 → allocated l l2 o.
Proof.
  intros [Hn Hs Hp Hf Ho He] Hg.
  assert (grown l l2) as [Hn2 Hs2 Hp2 He2] by (eapply grown_trans; [|exact Hg]; by split; [lia|..]).
  destruct Hg as [Hn1 Hs1 Hp1 _]. split; [lia|done|done|..|done].
  - by rewrite Hs1 by lia.
  - by rewrite Hp1 by lia.
Qed.
Lemma input_here b pr l l1 so l2 so2 o c :
  planned b pr l1 so l2 so2 c → (length l ≤ length l1)%nat → (o < length l1 ∨ length l2 ≤ o)%nat →
  ∃ new, so2 = so ++ new ∧ input b pr l l2 o c new.
Proof.
  intros [Hn Hs Hp Hr (h & k & m & Hh & Hl) He (new & -> & Hso & Hlead)] Hle Ho. exists new. split; [done|].
  split; [done|lia|..].
  - exists h, k, m. split; [lia|]. split; [|done].
    apply leads_end in Hl as [? ?%lookup_lt_Some]. rewrite length_pars in *. lia.
  - eapply Forall_impl; [done|]. simpl. lia.
  - done.
Qed.
Lemma input_grown b pr l l1 l2 o c new : input b pr l l1 o c new → grown l1 l2 → input b pr l l2 o c new.
Proof.
  intros [Hr Hc (h & k & m & Hh & Hne & Hl) Hso Hlead] [Hn Hs Hp _].
  assert (c < length l1)%nat as Hcl by (rewrite <- length_subs; by eapply lookup_lt_Some).
  split; [by rewrite Hs|done|..].
  - exists h, k, m. split; [done|]. split; [done|]. eapply leads_keep; [done|]. intros j. rewrite length_pars. apply Hp.
  - eapply Forall_impl; [done|]. simpl. lia.
  - intros Hb. eapply Forall2_impl; [by apply Hlead|]. intros i m' [k' Hk]. exists k'.
    eapply leads_keep; [done|]. intros j. rewrite length_subs. apply Hs.
Qed.
Lemma max_zero_leads S r new pr : lead_to S r new pr → (λ m, Z.max m 0) <$> pr = pr.
Proof.
  intros Hl. induction Hl as [|i m new pr [k Hk] _ IH]; [done|]. simpl. f_equal; [|done].
  apply leads_nonneg in Hk. lia.
Qed.
Lemma planned_eq b pr pr' l so l1 so1 r : planned b pr l so l1 so1 r → (b = true → pr = pr') → planned b pr' l so l1 so1 r.
Proof.
  intros [? ? ? ? ? ? (new & ? & ? & Hl)] He. split; [done..|]. exists new. split; [done|]. split; [done|].
  intros Hb. rewrite <- He by done. by apply Hl.
Qed.
(** A producer of its own. *)
Lemma planned_source b l so k : planned b [0] l so (l ++ [fresh k]) (so ++ [length l]) (length l).
Proof.
  destruct (allocated_new l l k (grown_refl l)) as [Hn Hs Hp Hf Ho He]. split; [lia|done|done|done|..|done|].
  - exists (length l), 0%nat, 0. split; [done|]. by econstructor.
  - exists [length l]. split; [done|]. split; [apply Forall_singleton; lia|]. intros _.
    constructor; [|constructor]. exists 0%nat. by econstructor.
Qed.
(** An operator without input. *)
Lemma planned_alone b l so k : planned b [] l so (l ++ [fresh k]) so (length l).
Proof.
  destruct (planned_source b l so k) as [? ? ? ? ? ? _]. split; [done..|]. exists []. rewrite app_nil_r. repeat constructor.
Qed.

Lemma unary_close b pr l so l1 o c new pt own :
  allocated l l1 o → input b pr l l1 o c new → planned b pr l so (conn c o pt own l1) (so ++ new) o.
Proof.
  intros Hb Hi. pose proof (b_new _ _ _ Hb). eapply planned_eq.
  - eapply close1; [exact Hb|exact Hi|apply subs_conn, Hi|apply pars_conn; lia].
  - intros Ht. eapply max_zero_leads. by apply (i_lead _ _ _ _ _ _ _ Hi).
Qed.
Lemma unary_after b pr l so l1 so1 c k pt own :
  planned b pr l so l1 so1 c → planned b pr l so (conn c (length l1) pt own (l1 ++ [fresh k])) so1 (length l1).
Proof.
  intros Hp. destruct (input_here _ _ l l so l1 so1 (length l1) c Hp) as (new & -> & Hi); [done|by right|].
  apply unary_close; [by eapply allocated_new, grown_planned|eapply input_grown; [done|apply grown_new]].
Qed.
Lemma unary_before b pr l so l1 so1 c k pt own :
  planned b pr (l ++ [fresh k]) so l1 so1 c → planned b pr l so (conn c (length l) pt own l1) so1 (length l).
Proof.
  intros Hp. destruct (input_here _ _ l (l ++ [fresh k]) so l1 so1 (length l) c Hp) as (new & -> & Hi).
  1,2: rewrite length_app; simpl; lia.
  apply unary_close; [|done]. eapply allocated_grown; [by apply allocated_new, grown_refl|by eapply grown_planned].
Qed.

Definition joined (o : nat) (in1 in2 : nat * port) l : list qop := conn in2.1 o in2.2 true (conn in1.1 o in1.2 true l).
Lemma subs_joined o in1 in2 l p1 p2 :
  subs l !! in1.1 = Some (None, p1) → subs l !! in2.1 = Some (None, p2) → in1.1 ≠ in2.1 →
  subs (joined o in1 in2 l) = <[in2.1 := (Some o, p2)]> (<[in1.1 := (Some o, p1)]> (subs l)).
Proof.
  intros H1 H2 Hne. unfold joined. rewrite (subs_conn _ _ _ _ _ p2).
  - by rewrite (subs_conn _ _ _ _ _ p1).
  - rewrite (subs_conn _ _ _ _ _ p1) by done. by rewrite list_lookup_insert_ne.
Qed.
Lemma pars_joined o in1 in2 l : (o < length l)%nat →
  pars (joined o in1 in2 l) = <[o := (Some in2.1, 0)]> (<[o := (Some in1.1, 0)]> (pars l)).
Proof. intros Ho. unfold joined. rewrite !pars_conn; rewrite ?length_conn; done. Qed.
Definition with_priorities (first second : nat) l : list qop := alter (set_priority 0) second (alter (set_priority 1) first l).
Lemma pars_priorities first second l : pars (with_priorities first second l) = pars l.
Proof. unfold with_priorities. by rewrite !pars_prio. Qed.
Lemma subs_priorities first second l :
  subs (with_priorities first second l) = alter (λ x, (x.1, 0)) second (alter (λ x, (x.1, 1)) first (subs l)).
Proof. unfold with_priorities. by rewrite !subs_prio. Qed.
Lemma insert_prio (S : list (option nat * Z)) c o p n :
  (c < length S)%nat → alter (λ x, (x.1, n)) c (<[c := (Some o, p)]> S) = <[c := (Some o, n)]> S.
Proof. intros Hc. erewrite alter_same by (by apply list_lookup_insert_eq). by rewrite list_insert_insert_eq. Qed.
Lemma subs_prioritized o in1 in2 l :
  subs l !! in1.1 = Some (None, 0) → subs l !! in2.1 = Some (None, 0) → in1.1 ≠ in2.1 →
  subs (with_priorities in1.1 in2.1 (joined o in1 in2 l)) = <[in2.1 := (Some o, 0)]> (<[in1.1 := (Some o, 1)]> (subs l)).
Proof.
  intros H1 H2 Hne. rewrite subs_priorities, (subs_joined _ _ _ _ 0 0) by done.
  rewrite (list_insert_insert_ne _ in2.1 in1.1) by done.
  rewrite insert_prio by (rewrite length_insert; by eapply lookup_lt_Some).
  rewrite list_insert_insert_ne by done. rewrite insert_prio; [done|]. rewrite length_insert. by eapply lookup_lt_Some.
Qed.

Lemma max_one (pr : list Z) : (λ m, Z.max m 1) <$> pr = Z.max 1 <$> pr.
Proof. apply list_fmap_ext. intros. apply Z.max_comm. Qed.
(** The inputs of a join: allocated after them, or before. *)
Lemma joins_union b pr1 pr2 l so l1 o c1 c2 new1 new2 p1 p2 :
  allocated l l1 o → input b pr1 l l1 o c1 new1 → input b pr2 l l1 o c2 new2 → c1 ≠ c2 →
  planned b (pr1 ++ pr2) l so (joined o (c1, p1) (c2, p2) l1) (so ++ new1 ++ new2) o.
Proof.
  intros Hb H1 H2 Hne. pose proof (b_new _ _ _ Hb). eapply planned_eq.
  - eapply (close2 _ pr1 pr2 _ _ _ _ _ c1 c2 _ _ 0 0 c2); eauto.
    + apply subs_joined; [apply H1|apply H2|done].
    + eexists. apply pars_joined; lia.
  - intros Ht. f_equal; eapply max_zero_leads; [by apply (i_lead _ _ _ _ _ _ _ H1)|by apply (i_lead _ _ _ _ _ _ _ H2)].
Qed.
Lemma joins_left b pr1 pr2 l so l1 o c1 c2 new1 new2 p1 p2 :
  allocated l l1 o → input b pr1 l l1 o c1 new1 → input b pr2 l l1 o c2 new2 → c1 ≠ c2 →
  planned b ((Z.max 1 <$> pr1) ++ pr2) l so (with_priorities c1 c2 (joined o (c1, p1) (c2, p2) l1)) (so ++ new1 ++ new2) o.
Proof.
  intros Hb H1 H2 Hne. pose proof (b_new _ _ _ Hb). eapply planned_eq.
  - eapply (close2 _ pr1 pr2 _ _ _ _ _ c1 c2 _ _ 1 0 c2); eauto.
    + apply (subs_prioritized o (c1, p1) (c2, p2)); [apply H1|apply H2|done].
    + eexists. rewrite pars_priorities. apply pars_joined; lia.
  - intros Ht. f_equal; [apply max_one|]. eapply max_zero_leads. by apply (i_lead _ _ _ _ _ _ _ H2).
Qed.
Lemma joins_right b pr1 pr2 l so l1 o c1 c2 new1 new2 p1 p2 :
  allocated l l1 o → input b pr1 l l1 o c1 new1 → input b pr2 l l1 o c2 new2 → c1 ≠ c2 →
  planned b (pr1 ++ (Z.max 1 <$> pr2)) l so (with_priorities c2 c1 (joined o (c2, p2) (c1, p1) l1)) (so ++ new1 ++ new2) o.
Proof.
  intros Hb H1 H2 Hne. pose proof (b_new _ _ _ Hb). eapply planned_eq.
  - eapply (close2 _ pr1 pr2 _ _ _ _ _ c1 c2 _ _ 0 1 c1); eauto.
    + rewrite list_insert_insert_ne by done.
      apply (subs_prioritized o (c2, p2) (c1, p1)); [apply H2|apply H1|by apply not_eq_sym].
    + eexists. rewrite pars_priorities. apply pars_joined; lia.
  - intros Ht. f_equal; [|apply max_one]. eapply max_zero_leads. by apply (i_lead _ _ _ _ _ _ _ H1).
Qed.

Lemma joins_last b pr1 pr2 l so l1 o c1 c2 new1 new2 p1 p2 :
  allocated l l1 o → input b pr1 l l1 o c1 new1 → input b pr2 l l1 o c2 new2 → c1 ≠ c2 →
  planned b (pr1 ++ (Z.max 1 <$> pr2)) l so (with_priorities c2 c1 (joined o (c1, p1) (c2, p2) l1)) (so ++ new1 ++ new2) o.
Proof.
  intros Hb H1 H2 Hne. pose proof (b_new _ _ _ Hb). eapply planned_eq.
  - eapply (close2 _ pr1 pr2 _ _ _ _ _ c1 c2 _ _ 0 1 c2); eauto.
    + rewrite list_insert_insert_ne by done.
      rewrite <- (subs_prioritized o (c2, p2) (c1, p1)); [|apply H2|apply H1|by apply not_eq_sym].
      rewrite !subs_priorities, !(subs_joined _ _ _ _ 0 0); try apply H1; try apply H2; try done.
      simpl. by rewrite list_insert_insert_ne.
    + eexists. rewrite pars_priorities. apply pars_joined; lia.
  - intros Ht. f_equal; [|apply max_one]. eapply max_zero_leads. by apply (i_lead _ _ _ _ _ _ _ H1).
Qed.
Definition inputs (b : bool) pr1 pr2 l so l2 so2 (o c1 c2 : nat) : Prop :=
  allocated l l2 o ∧ c1 ≠ c2 ∧ ∃ new1 new2, so2 = so ++ new1 ++ new2 ∧ input b pr1 l l2 o c1 new1 ∧ input b pr2 l l2 o c2 new2.
Lemma planned_roots b1 pr1 b2 pr2 l so l1 so1 l2 so2 c1 c2 :
  planned b1 pr1 l so l1 so1 c1 → planned b2 pr2 l1 so1 l2 so2 c2 → c1 ≠ c2.
Proof. intros [] []. lia. Qed.
Lemma join_after b pr1 pr2 l so l1 so1 l2 so2 c1 c2 k :
  planned b pr1 l so l1 so1 c1 → planned b pr2 l1 so1 l2 so2 c2 →
  inputs b pr1 pr2 l so (l2 ++ [fresh k]) so2 (length l2) c1 c2.
Proof.
  intros H1 H2. pose proof (grown_planned _ _ _ _ _ _ _ H1) as G1. pose proof (grown_planned _ _ _ _ _ _ _ H2) as G2.
  pose proof (g_length _ _ G1). pose proof (g_length _ _ G2).
  destruct (input_here _ _ l l so l1 so1 (length l2) c1 H1) as (new1 & -> & I1); [done|lia|].
  destruct (input_here _ _ l l1 (so ++ new1) l2 so2 (length l2) c2 H2) as (new2 & -> & I2); [done|lia|].
  split; [apply allocated_new; by eapply grown_trans|]. split; [by eapply planned_roots|].
  exists new1, new2. split; [by rewrite app_assoc|]. pose proof (grown_new l2 k).
  split; [|by eapply input_grown]. by do 2 (eapply input_grown; [|done]).
Qed.
Lemma join_before b pr1 pr2 l so l1 so1 l2 so2 c1 c2 k :
  planned b pr1 (l ++ [fresh k]) so l1 so1 c1 → planned b pr2 l1 so1 l2 so2 c2 →
  inputs b pr1 pr2 l so l2 so2 (length l) c1 c2.
Proof.
  intros H1 H2. pose proof (grown_planned _ _ _ _ _ _ _ H1) as G1. pose proof (grown_planned _ _ _ _ _ _ _ H2) as G2.
  pose proof (g_length _ _ G1) as L1. pose proof (g_length _ _ G2). rewrite length_app in L1. simpl in L1.
  destruct (input_here _ _ l (l ++ [fresh k]) so l1 so1 (length l) c1 H1) as (new1 & -> & I1); [rewrite length_app; simpl; lia..|].
  destruct (input_here _ _ l l1 (so ++ new1) l2 so2 (length l) c2 H2) as (new2 & -> & I2); [lia..|].
  split; [by do 2 (eapply allocated_grown; [|done]); apply allocated_new, grown_refl|]. split; [by eapply planned_roots|].
  exists new1, new2. split; [by rewrite app_assoc|]. split; [by eapply input_grown|done].
Qed.
Lemma planned_weaken b b' pr l so l1 so1 r : (b' = true → b = true) → planned b pr l so l1 so1 r → planned b' pr l so l1 so1 r.
Proof.
  intros Hb [? ? ? ? ? ? (new & ? & ? & Hl)]. split; [done..|]. exists new. split; [done|]. split; [done|]. auto.
Qed.

(** *** Visits *)

(** The plan is not touched. *)
Definition keeps_plan {A} (m : M st A) : Prop := ∀ s s' a, m s = (s', Val a) → s'.2 = s.2.
Lemma keeps_on_fst {A} (m : M db A) : keeps_plan (on_fst m).
Proof. intros s s' a H. unfold on_fst in H. destruct (m s.1). by simplify_eq. Qed.
Lemma keeps_lift {A} (r : res A) : keeps_plan (lift_res r).
Proof. intros s s' a H. unfold lift_res in H. by simplify_eq. Qed.
Lemma keeps_plan_ret {A} (a : A) : keeps_plan (mret a).
Proof. intros s s' a' H. by injection H as <- _. Qed.

Lemma plans_source b k : plans b [0] (add_source k).
Proof. intros s s' r H. injection H as <- <-. apply planned_source. Qed.
Lemma plans_db {A} b pr (m : M st A) f : keeps_plan m → (∀ a, plans b pr (f a)) → plans b pr (m ≫= f).
Proof.
  intros Hm Hf s s' r H. apply bind_inv in H as (s1 & a & H1 & H2). apply Hf in H2. by rewrite (Hm _ _ _ H1) in H2.
Qed.
Lemma plans_throw b pr e : plans b pr (throw e).
Proof. by intros s s' r H. Qed.
Lemma plans_then b pr m f : plans b pr m → extends f → plans b pr (m ≫= f).
Proof. intros Hm Hf s s' r H. apply bind_inv in H as (s1 & a & H1 & H2). eapply Hf; [by apply Hm|done]. Qed.
Lemma extends_db {A} (m : M st A) (f : A → nat → M st nat) :
  keeps_plan m → (∀ a, extends (f a)) → extends (λ c, m ≫= λ a, f a c).
Proof.
  intros Hm Hf b pr l so s s' c r Hp H. apply bind_inv in H as (s1 & a & H1 & H2).
  eapply Hf; [|done]. by rewrite (Hm _ _ _ H1).
Qed.
Lemma extends_then f g : extends f → extends g → extends (λ c, f c ≫= g).
Proof. intros Hf Hg b pr l so s s' c r Hp H. apply bind_inv in H as (s1 & a & H1 & H2). eapply Hg; [by eapply Hf|done]. Qed.
Lemma extends_ret : extends mret.
Proof. intros b pr l so s s' c r Hp H. injection H as <- <-. done. Qed.
Lemma extends_append k : extends (λ c, append_new c k).
Proof. intros b pr l so s s' c r Hp H. injection H as <- <-. by apply (unary_after _ _ _ _ _ _ _ k to_process false). Qed.
Lemma extends_append2 k : extends (λ c, append_new2 c k).
Proof. intros b pr l so s s' c r Hp H. injection H as <- <-. by apply (unary_after _ _ _ _ _ _ _ k to_process true). Qed.
Lemma plans_before b pr k m : plans b pr m → plans b pr (o ← new_op k; child ← m; qop_append (Some child) o).
Proof.
  intros Hm s s' r H. apply bind_inv in H as (s1 & o & H1 & H2). injection H1 as <- <-.
  apply bind_inv in H2 as (s2 & c & H2 & H3). apply Hm in H2. injection H3 as <- <-.
  by apply (unary_before _ _ _ _ _ _ _ k to_process false).
Qed.

Create HintDb planned.
Hint Resolve keeps_on_fst keeps_lift keeps_plan_ret plans_source plans_throw extends_append extends_append2 extends_ret : planned.

Lemma visitNode_pattern_plans b n : plans b [0] (visitNode_pattern stof valid_regex ull_any n).
Proof.
  unfold visitNode_pattern. destruct (np_props n) as [pl|]; [|apply plans_source].
  apply plans_db; [auto with planned|]. intros props.
  assert (∀ props, plans b [0] (scan_and_filter (V:=V) (D:=D) (X:=X) (np_label n) props)) as Hs.
  { intros props'. apply plans_then; [apply plans_source|]. apply (extends_db _ (λ ex c, _)); auto with planned. }
  destruct props as [|[pname val] [|]]; [auto..|auto].
  apply plans_db; [auto with planned|]. intros [|]; [|auto].
  do 2 (apply plans_db; [auto with planned|intros ?]). auto with planned.
Qed.
Lemma path_components_extends path i : extends (λ c, path_components stof valid_regex ull_any c i path).
Proof.
  revert i. induction path as [|p path IH]; intros i; simpl; [apply extends_ret|].
  apply (extends_then (λ c, _)); [|apply IH]. unfold path_step.
  apply (extends_db _ (λ hops c, _)); [auto with planned|]. intros hops.
  apply (extends_db _ (λ d c, _)); [auto with planned|]. intros d.
  do 2 (apply (extends_then (λ c, _)); [apply extends_append|]).
  apply (extends_then (λ c, _)); [apply extends_append|]. destruct (np_props p.2); [|apply extends_ret].
  apply (extends_db _ (λ props c, _)); [auto with planned|]. intros props.
  apply (extends_db _ (λ ex c, _)); auto with planned.
Qed.

(** *** Ends of chains are found *)
Lemma subs_lookup l i v : subs l !! i = Some v → ∃ x, l !! i = Some x ∧ v = (subscriber_ x, priority_ x).
Proof. unfold subs. rewrite list_lookup_fmap. intros (x & ? & ?)%fmap_Some. eauto. Qed.
Lemma pars_lookup l i v : pars l !! i = Some v → ∃ x, l !! i = Some x ∧ v = (parent_ x, 0).
Proof. unfold pars. rewrite list_lookup_fmap. intros (x & ? & ?)%fmap_Some. eauto. Qed.
Lemma find_head_leads l i h k m fuel : leads (pars l) i h k m → (k < fuel)%nat → find_head fuel l i = Some h.
Proof.
  intros H. revert fuel. induction H as [i p (x & Hx & Heq)%pars_lookup|i j h k p m (x & Hx & Heq)%pars_lookup _ IH];
    intros [|fuel] Hf; try lia; simpl; rewrite Hx; destruct x; simplify_eq/=; [done|]. apply IH. lia.
Qed.
Lemma find_tail_leads l i t k m fuel : leads (subs l) i t k m → (k < fuel)%nat → find_tail fuel l i = Some t.
Proof.
  intros H. revert fuel. induction H as [i p (x & Hx & Heq)%subs_lookup|i j h k p m (x & Hx & Heq)%subs_lookup _ IH];
    intros [|fuel] Hf; try lia; simpl; rewrite Hx; destruct x; simplify_eq/=; [done|]. apply IH. lia.
Qed.
Lemma walk_leads l i t k m fuel prio : leads (subs l) i t k m → (k < fuel)%nat → 0 ≤ prio → walk_tail fuel l prio i = Val (t, Z.max prio m).
Proof.
  intros H. revert fuel prio. induction H as [i p (x & Hx & Heq)%subs_lookup|i j h k p m (x & Hx & Heq)%subs_lookup _ IH];
    intros [|fuel] prio Hf Hp; try lia; simpl; rewrite Hx; destruct x; simplify_eq/=.
  - by rewrite Z.max_l by lia.
  - rewrite IH by lia. by rewrite Z.max_assoc.
Qed.

Lemma planned_same b pr l so l1 l2 so1 r :
  subs l2 = subs l1 → pars l2 = pars l1 → planned b pr l so l1 so1 r → planned b pr l so l2 so1 r.
Proof.
  intros Hs Hp [? ? ? ? ? ? (new & ? & ? & ?)]. assert (length l2 = length l1) as Hlen by (by apply same_length; rewrite Hs).
  split; rewrite ?Hs, ?Hp, ?Hlen; [done..|]. by exists new.
Qed.
(** A nested query: it begins with [start], and its last operator is told to
    count. *)
Lemma exists_planned pr1 pr2 l so s1 s2 s' c1 c2 is_not r :
  planned false pr1 l so (ops s1.2) (sources_ s1.2) c1 →
  planned false pr2 (ops s1.2) (sources_ s1.2) (ops s2.2) (sources_ s2.2) c2 →
  (head ← visit_subquery c2; o ← new_exists head is_not; qop_append (Some c1) o) s2 = (s', Val r) →
  planned false [] l so (ops s'.2) (sources_ s'.2) r.
Proof.
  intros H1 H2 H. apply bind_inv in H as (s3 & head & Hh & H). apply bind_inv in H as (s4 & o & Ho & H).
  assert (s3 = s2) as ->.
  { unfold visit_subquery in Hh. apply bind_inv in Hh as (? & ? & E1 & Hh). injection E1 as <- <-.
    apply bind_inv in Hh as (? & ? & E2 & Hh). destruct (find_head _ _ _); [|done]. injection E2 as <- <-.
    destruct (is_start _ _); [by injection Hh as <- _|done]. }
  unfold new_exists in Ho. apply bind_inv in Ho as (? & ? & E1 & Ho). injection E1 as <- <-.
  apply bind_inv in Ho as (? & tail & E2 & Ho). destruct (find_tail _ _ _); [|done]. injection E2 as <- <-.
  injection Ho as <- <-. injection H as <- <-.
  destruct (join_after false pr1 pr2 l so _ _ _ _ c1 c2 (k_exists head is_not) H1 H2) as (Hb & Hne & new1 & new2 & Hso & I1 & I2).
  assert (input false [] l (ops s2.2 ++ [fresh (k_exists head is_not)]) (length (ops s2.2)) c1 (new1 ++ new2)) as I.
  { destruct I1 as [? ? ? Hf1 _], I2 as [_ _ _ Hf2 _]. split; [done..| |done]. by apply Forall_app. }
  pose proof (unary_close _ _ l so _ _ _ _ to_process false Hb I) as Hp. simpl. rewrite Hso.
  pose proof (b_new _ _ _ Hb). pose proof (i_root _ _ _ _ _ _ _ I) as Hr.
  fold (fresh (k_exists head is_not)).
  eapply planned_same; [..|exact Hp]; fold (conn c1 (length (ops s2.2)) to_process false (alter (set_consume (length (ops s2.2), to_count)) n (ops s2.2 ++ [fresh (k_exists head is_not)]))).
  - rewrite !(subs_conn _ _ _ _ _ 0); rewrite ?subs_consume; done.
  - rewrite !pars_conn; rewrite ?pars_consume, ?length_alter; [done|lia..].
Qed.

Ltac db_steps :=
  repeat first [apply plans_db; [by auto with planned|intros ?]
               |apply (extends_db _ (λ x c, _)); [by auto with planned|intros ?]].
(** One input; the operator is allocated after it. *)
Ltac after_input IH := apply plans_then; [apply IH|]; db_steps; auto with planned.

Lemma visitIndex_scan_op_plans b label property v : plans b [0] (visitIndex_scan_op (V:=V) (D:=D) (X:=X) label property v).
Proof. unfold visitIndex_scan_op. db_steps. case_match; db_steps; auto with planned. Qed.
Lemma new_order_by_extends spec : extends (λ c, o ← new_order_by spec; qop_append2 (Some c) o).
Proof. intros b pr l so s s' c r Hp H. injection H as <- <-. by apply (unary_after _ _ _ _ _ _ _ (k_order_by spec) to_process true). Qed.
Lemma foreach_alone b dir k : plans b [] (o ← new_op k; foreach_input dir None o).
Proof.
  destruct dir; intros s s' r H; injection H as <- <-; try apply planned_alone.
  set (l1 := (ops s.2 ++ [fresh k]) ++ [fresh k_start]). set (c := length (ops s.2 ++ [fresh k])).
  assert (allocated (ops s.2) l1 (length (ops s.2))) as Hb
    by (eapply allocated_grown; [apply allocated_new, grown_refl|apply grown_new]).
  pose proof (planned_alone b (ops s.2 ++ [fresh k]) (sources_ s.2) k_start) as Hp.
  destruct (input_here _ _ (ops s.2) _ _ _ _ (length (ops s.2)) _ Hp) as (new & Heq & Hi).
  1,2: rewrite length_app; simpl; lia.
  assert (new = []) as -> by (apply (app_inv_head (sources_ s.2)); by rewrite app_nil_r).
  pose proof (unary_close _ _ _ (sources_ s.2) _ _ _ _ to_process false Hb Hi) as Hc. by rewrite app_nil_r in Hc.
Qed.
Lemma foreach_extends dir k : extends (λ c, o ← new_op k; foreach_input dir (Some c) o).
Proof.
  intros b pr l so s s' c r Hp H. destruct dir; injection H as <- <-; by apply (unary_after _ _ _ _ _ _ _ k to_process false).
Qed.

(** Connecting the inputs of a join. *)
Definition finishes (prf : list Z → list Z → list Z) (fin : nat → nat → nat → M st nat) : Prop :=
  ∀ b pr1 pr2 l so s s' o c1 c2 r, inputs b pr1 pr2 l so (ops s.2) (sources_ s.2) o c1 c2 →
    fin o c1 c2 s = (s', Val r) → planned b (prf pr1 pr2) l so (ops s'.2) (sources_ s'.2) r.
Lemma finishes_union p1 p2 : finishes app (λ o c1 c2, join o (c1, p1) (c2, p2);; mret o).
Proof.
  intros b pr1 pr2 l so s s' o c1 c2 r (Hb & Hne & new1 & new2 & Hso & I1 & I2) H. injection H as <- <-. simpl. rewrite Hso.
  by apply joins_union.
Qed.
Lemma finishes_left p1 p2 :
  finishes (λ pr1 pr2, (Z.max 1 <$> pr1) ++ pr2) (λ o c1 c2, join o (c1, p1) (c2, p2);; priorities c1 c2;; mret o).
Proof.
  intros b pr1 pr2 l so s s' o c1 c2 r (Hb & Hne & new1 & new2 & Hso & I1 & I2) H. injection H as <- <-. simpl. rewrite Hso.
  by apply joins_left.
Qed.
Lemma finishes_right p1 p2 :
  finishes (λ pr1 pr2, pr1 ++ (Z.max 1 <$> pr2)) (λ o c1 c2, join o (c2, p2) (c1, p1);; priorities c2 c1;; mret o).
Proof.
  intros b pr1 pr2 l so s s' o c1 c2 r (Hb & Hne & new1 & new2 & Hso & I1 & I2) H. injection H as <- <-. simpl. rewrite Hso.
  by apply joins_right.
Qed.
Lemma finishes_last p1 p2 :
  finishes (λ pr1 pr2, pr1 ++ (Z.max 1 <$> pr2)) (λ o c1 c2, join o (c1, p1) (c2, p2);; priorities c2 c1;; mret o).
Proof.
  intros b pr1 pr2 l so s s' o c1 c2 r (Hb & Hne & new1 & new2 & Hso & I1 & I2) H. injection H as <- <-. simpl. rewrite Hso.
  by apply joins_last.
Qed.
Section joins.
Context (b1 b2 : bool) (pr1 pr2 : list Z) (m1 m2 : M st nat) (prf : list Z → list Z → list Z) (fin : nat → nat → nat → M st nat).
Hypotheses (H1 : plans b1 pr1 m1) (H2 : plans b2 pr2 m2) (Hfin : finishes prf fin).
Lemma plans_join_before k : plans (b1 && b2) (prf pr1 pr2) (o ← new_op k; c1 ← m1; c2 ← m2; fin o c1 c2).
Proof.
  intros s s' r H. apply bind_inv in H as (s0 & o & E & H). injection E as <- <-.
  apply bind_inv in H as (s1 & c1 & E1%H1 & H). apply bind_inv in H as (s2 & c2 & E2%H2 & H).
  eapply Hfin; [|exact H].
  eapply (join_before _ _ _ _ _ _ _ _ _ _ _ k); (eapply planned_weaken; [|eassumption]); by intros [??]%andb_true_iff.
Qed.
Lemma plans_join_after (rest : nat → nat → M st nat) :
  (∀ c1 c2 s s' r, rest c1 c2 s = (s', Val r) → ∃ k s1, s1.2 = s.2 ∧ (o ← new_op k; fin o c1 c2) s1 = (s', Val r)) →
  plans (b1 && b2) (prf pr1 pr2) (c1 ← m1; c2 ← m2; rest c1 c2).
Proof.
  intros Hm s s' r H.
  apply bind_inv in H as (s1 & c1 & E1%H1 & H). apply bind_inv in H as (s2 & c2 & E2%H2 & H).
  apply Hm in H as (k & s3 & E3 & H). apply bind_inv in H as (s4 & o & E4 & H). injection E4 as <- <-.
  eapply Hfin; [|exact H]. simpl. rewrite E3.
  eapply (join_after _ _ _ _ _ _ _ _ _ _ _ k); (eapply planned_weaken; [|eassumption]); by intros [??]%andb_true_iff.
Qed.
(** The variables of the join are visited first. *)
Lemma plans_join_vars {B C} (e1 : M st B) (e2 : M st C) (k : B → C → qop_kind) :
  keeps_plan e1 → keeps_plan e2 →
  plans (b1 && b2) (prf pr1 pr2) (c1 ← m1; c2 ← m2; x ← e1; y ← e2; o ← new_op (k x y); fin o c1 c2).
Proof.
  intros He1 He2. apply plans_join_after. intros c1 c2 s s' r H.
  apply bind_inv in H as (s1 & x & E1%He1 & H). apply bind_inv in H as (s2 & y & E2%He2 & H).
  exists (k x y), s2. by rewrite E2, E1.
Qed.
End joins.

(** An input that may be missing. *)
Lemma plans_some b pr m (g : option nat → M st nat) :
  plans b pr m → extends (λ c, g (Some c)) → plans b pr ((c ← m; mret (Some c)) ≫= g).
Proof.
  intros Hm Hg s s' r H. apply bind_inv in H as (s1 & c & H1 & H). apply bind_inv in H1 as (s2 & c' & H1 & H2).
  injection H2 as <- <-. eapply Hg; [by apply Hm|done].
Qed.
Lemma plans_none b pr (g : option nat → M st nat) : plans b pr (g None) → plans b pr (mret None ≫= g).
Proof. done. Qed.
Lemma create_extends b (c : M db qop_kind) :
  extends (λ q, k ← on_fst c; o ← new_op k; qop_append (Some q) o;; mret tt;; mret o) ∧
  plans b [0] (k ← on_fst c; o ← new_op k; qop_append None o;; push_source o;; mret o).
Proof.
  split; db_steps.
  - intros b' pr l so s s' q r Hp H. injection H as <- <-. by apply (unary_after _ _ _ _ _ _ _ a to_process false).
  - intros s s' r H. injection H as <- <-. apply planned_source.
Qed.

Lemma visit_op_plans q : plans (exists_free q) (prios q) (visit_op q).
Proof.
  revert q. fix IH 1. intros q. destruct q; simpl.
  - apply plans_source.
  - apply plans_source.
  - apply visitIndex_scan_op_plans.
  - unfold visitNode_by_id. db_steps. apply plans_source.
  - apply plans_then; [apply visitNode_pattern_plans|apply path_components_extends].
  - after_input IH.
  - db_steps. apply plans_before, IH.
  - db_steps. apply plans_before, IH.
  - apply (plans_join_before _ _ _ _ _ _ _ _ (IH q1) (IH q2) (finishes_left to_right to_left)).
  - apply (plans_join_vars _ _ _ _ _ _ _ _ (IH q1) (IH q2) (finishes_left to_build to_probe)); auto with planned.
  - db_steps. apply (plans_join_before _ _ _ _ _ _ _ _ (IH q1) (IH q2) (finishes_right to_left to_right)).
  - destruct q as [q|].
    + apply (plans_some _ _ _ (λ child, _) (IH q)). db_steps. apply foreach_extends.
    + apply plans_none. db_steps. apply foreach_alone.
  - apply plans_then; [apply IH|]. apply (extends_then (λ c, _)); apply extends_append.
  - after_input IH.
  - after_input IH.
  - apply (plans_join_before _ _ _ _ _ _ _ _ (IH q1) (IH q2) (finishes_union to_right to_left)).
  - apply (plans_join_vars _ _ _ _ _ _ _ _ (IH q1) (IH q2) (finishes_last to_left to_right)); auto with planned.
  - intros s s' r H. apply bind_inv in H as (s1 & c1 & H1%IH & H). apply bind_inv in H as (s2 & c2 & H2%IH & H).
    apply (planned_eq _ []); [|done].
    by eapply exists_planned; [eapply planned_weaken; [|exact H1]|eapply planned_weaken; [|exact H2]|exact H].
  - db_steps. apply plans_then; [apply IH|]. apply new_order_by_extends.
  - apply plans_before, IH.
  - destruct q as [q|].
    + apply (plans_some _ _ _ (λ child, _) (IH q)). apply (create_extends true).
    + apply plans_none. apply create_extends.
  - after_input IH.
  - after_input IH.
  - after_input IH.
  - after_input IH.
  - after_input IH.
Qed.

(** ** The pipelines of a plan *)
Notation visitQuery := (visitQuery stof valid_regex udf_lib to_iso ull_any).

Lemma new_pipeline_leads l i t k m : leads (subs l) i t k m → new_pipeline l i = Val (mk_pipeline (Some i) (Some t) m).
Proof.
  intros Hl. unfold new_pipeline. pose proof (leads_nonneg _ _ _ _ _ Hl). apply leads_short in Hl as Hs. rewrite length_subs in Hs.
  rewrite (walk_leads _ _ _ _ _ _ 0 Hl) by (done || lia). simpl. by rewrite Z.max_r by lia.
Qed.
Lemma visitQuery_planned q s s' r : visitQuery q s = (s', Val r) →
  planned (exists_free q) (prios q) (ops s.2) [] (ops s'.2) (sources_ s'.2) r.
Proof. intros (s1 & [] & H1 & H2)%bind_inv. apply visit_op_plans in H2. by injection H1 as <-. Qed.

Lemma mapM_val {A B} (f : A → res B) (l : list A) (k : list B) : Forall2 (λ x y, f x = Val y) l k → mapM f l = Val k.
Proof. induction 1 as [|x y l k Hx _ IH]; [done|]. simpl. by rewrite Hx, IH. Qed.
Lemma get_query_plan_val s pls : Forall2 (λ i p, new_pipeline (ops s.2) i = Val p) (sources_ s.2) pls →
  get_query_plan s = (s, Val (mk_batch pls [])).
Proof. intros Hf. unfold get_query_plan, mbind, M_bind, get_st, lift_res. by rewrite (mapM_val _ _ _ Hf). Qed.

Lemma planned_pipelines pr l s' r :
  planned true pr l [] (ops s'.2) (sources_ s'.2) r →
  get_query_plan s' = (s', Val (mk_batch (zip_with (λ i m, mk_pipeline (Some i) (Some r) m) (sources_ s'.2) pr) [])) ∧
  length (sources_ s'.2) = length pr.
Proof.
  intros [_ _ _ _ _ _ (new & Hso & _ & Hl)].
  specialize (Hl eq_refl). rewrite app_nil_l in Hso. rewrite Hso. split; [|by eapply Forall2_length].
  apply get_query_plan_val. rewrite Hso. clear Hso.
  induction Hl as [|i m new pr [k Hk] _ IH]; [constructor|]. simpl. constructor; [by eapply new_pipeline_leads|done].
Qed.

(** C11: the plan of a query without nested queries has a pipeline for every
    producer, in the order of the query; each ends at the root of the query, and
    its priority is the one the joins above the producer give it. *)
Theorem plan_pipelines q s s' r :
  exists_free q = true → visitQuery q s = (s', Val r) →
  get_query_plan s' =
    (s', Val (mk_batch (zip_with (λ i m, mk_pipeline (Some i) (Some r) m) (sources_ s'.2) (prios q)) [])) ∧
  length (sources_ s'.2) = length (prios q).
Proof. intros Hq H%visitQuery_planned. rewrite Hq in H. by eapply planned_pipelines. Qed.

(** C13: the walks along the operators of a plan end, with any query: the plan
    has a pipeline for every producer, which ends at an operator without
    subscriber, and the search for the head of a nested query finds an operator
    without parent. *)
Theorem plan_walks_end q s s' r :
  visitQuery q s = (s', Val r) →
  (∃ pls, get_query_plan s' = (s', Val (mk_batch pls [])) ∧
    Forall2 (λ i p, plan_head_ p = Some i ∧ ∃ t x, plan_tail_ p = Some t ∧ ops s'.2 !! t = Some x ∧ subscriber_ x = None)
      (sources_ s'.2) pls) ∧
  ∃ h x, find_head (length (ops s'.2)) (ops s'.2) r = Some h ∧ ops s'.2 !! h = Some x ∧ parent_ x = None.
Proof.
  intros H. destruct (visitQuery_planned _ _ _ _ H) as [_ _ _ _ (h & k & m & _ & Hh) He (new & Hso & Hin & _)].
  rewrite app_nil_l in Hso. split.
  - enough (∃ pls, Forall2 (λ i p, new_pipeline (ops s'.2) i = Val p ∧ plan_head_ p = Some i
      ∧ ∃ t x, plan_tail_ p = Some t ∧ ops s'.2 !! t = Some x ∧ subscriber_ x = None) new pls) as [pls Hp].
    { exists pls. rewrite Hso. split; [apply get_query_plan_val; rewrite Hso|]; (eapply Forall2_impl; [exact Hp|]); naive_solver. }
    clear Hso. induction Hin as [|i new Hi _ [pls IH]]; [by exists []; constructor|].
    destruct (He i) as (t & k' & m' & _ & Hl); [by rewrite length_subs|].
    exists (mk_pipeline (Some i) (Some t) m' :: pls). constructor; [|done]. split; [by eapply new_pipeline_leads|]. split; [done|].
    destruct (leads_end _ _ _ _ _ Hl) as (p & (x & ? & ?)%subs_lookup). simplify_eq. by exists t, x.
  - destruct (leads_end _ _ _ _ _ Hh) as (p & (x & ? & ?)%pars_lookup). simplify_eq. exists h, x. split; [|done].
    eapply find_head_leads; [done|]. apply leads_short in Hh. by rewrite length_pars in Hh.
Qed.

(** ** The order of the pipelines *)
Section order.
Variable (std_sort : list (nat * Z) → list (nat * Z)).
(** [std::sort] by descending priority; the order of equal elements is
    unspecified. *)
Hypothesis Hsort : ∀ p, std_sort p ≡ₚ p ∧ falling (std_sort p).

Definition pipelines_of (so : list nat) (r : nat) (pr : list Z) : query_batch :=
  mk_batch (zip_with (λ i m, mk_pipeline (Some i) (Some r) m) so pr) [].
Definition with_index (n : nat) (pr : list Z) : list (nat * Z) := imap (λ i m, ((n + i)%nat, m)) pr.
Lemma with_index_cons n x pr : with_index n (x :: pr) = (n, x) :: with_index (S n) pr.
Proof. unfold with_index. simpl. rewrite Nat.add_0_r. f_equal. apply imap_ext. intros i y _. simpl. by rewrite Nat.add_succ_r. Qed.
Lemma priorities_indexed so r pr : length so = length pr →
  imap (λ i p, (i, pl_priority_ p)) (query_pipelines_ (pipelines_of so r pr)) = with_index 0 pr.
Proof.
  intros Hl. simpl. unfold with_index. simpl. generalize (λ n : nat, n) as g. revert so Hl.
  enough (∀ (g : nat → nat) so, length so = length pr →
    imap (λ i p, (g i, pl_priority_ p)) (zip_with (λ i m, mk_pipeline (Some i) (Some r) m) so pr) = imap (λ i m, (g i, m)) pr) as He.
  { intros so Hl g. by apply (He id). }
  induction pr as [|x pr IH]; intros g [|i so] Hl; try done. simpl. f_equal. by apply (IH (g ∘ S)); simplify_eq/=.
Qed.
Lemma indexes n pr : (with_index n pr).*1 = seq n (length pr).
Proof. revert n. induction pr as [|x pr IH]; intros n; [done|]. rewrite with_index_cons. simpl. by rewrite IH. Qed.
Lemma with_index_snd n pr : (with_index n pr).*2 = pr.
Proof. revert n. induction pr as [|x pr IH]; intros n; [done|]. rewrite with_index_cons. simpl. by rewrite IH. Qed.
Lemma with_index_at n pr i m : (i, m) ∈ with_index n pr → pr !! (i - n)%nat = Some m.
Proof.
  unfold with_index. intros (j & x & [= -> ->] & Hx)%elem_of_lookup_imap. by replace (n + j - n)%nat with j by lia.
Qed.

(** The priority of the [i]-th producer. *)
Definition prio_at (pr : list Z) (i : nat) : Z := default 0 (pr !! i).
Lemma started_by_priority pr : (std_sort (with_index 0 pr)).*1 ≡ₚ seq 0 (length pr)
  ∧ StronglySorted (λ i j, prio_at pr j ≤ prio_at pr i) (std_sort (with_index 0 pr)).*1.
Proof.
  destruct (Hsort (with_index 0 pr)) as [Hp Hs]. split; [by rewrite Hp, indexes|].
  assert (Forall (λ x, x.2 = prio_at pr x.1) (std_sort (with_index 0 pr))) as Hat.
  { rewrite Hp. apply Forall_forall. intros [i m] Hi%with_index_at. rewrite Nat.sub_0_r in Hi. unfold prio_at. simpl. by rewrite Hi. }
  clear Hp. induction Hs as [|x k Hs IH Hx]; simpl; [constructor|]. apply Forall_cons in Hat as [Ex Hat].
  constructor; [by apply IH|]. apply Forall_fmap. rewrite Forall_forall in *. intros y Hy. simpl.
  rewrite <- Ex, <- (Hat y Hy). by apply Hx.
Qed.
(** One producer of priority 0, the last one, behind producers of priority 1. *)
Lemma last_started n o : o ≡ₚ seq 0 (S n) →
  StronglySorted (λ i j, prio_at (replicate n 1 ++ [0]) j ≤ prio_at (replicate n 1 ++ [0]) i) o →
  ∃ o', o = o' ++ [n] ∧ o' ≡ₚ seq 0 n.
Proof.
  intros Hp Hs. destruct o as [|x o' _] using rev_ind; [by apply Permutation_length in Hp|].
  assert (x = n) as ->.
  { destruct (decide (x = n)) as [|Hx]; [done|].
    assert (x ∈ seq 0 (S n)) as Hxin by (rewrite <- Hp; set_solver). rewrite elem_of_seq in Hxin.
    assert (n ∈ o' ++ [x]) as Hn by (rewrite Hp, elem_of_seq; lia).
    apply elem_of_app in Hn as [Hn|Hn%list_elem_of_singleton]; [|lia].
    pose proof (StronglySorted_app_1_elem_of _ _ _ _ _ Hs Hn (proj2 (list_elem_of_singleton x x) eq_refl)) as Hle. simpl in Hle.
    unfold prio_at in Hle. rewrite lookup_app_l, lookup_replicate_2 in Hle by (rewrite ?length_replicate; lia).
    rewrite lookup_app_r, length_replicate, Nat.sub_diag in Hle by (rewrite length_replicate; lia). simpl in Hle. lia. }
  exists o'. split; [done|]. rewrite seq_S, !(comm (++) _ [_]) in Hp. by apply Permutation_cons_inv in Hp.
Qed.

(** The order in which the pipelines of a query are started. *)
Lemma query_order q s s' r b :
  exists_free q = true → visitQuery q s = (s', Val r) → get_query_plan s' = (s', Val b) →
  length (sources_ s'.2) = length (prios q) ∧
  let order := run_order (schedule_pipelines std_sort b) in
  order ≡ₚ seq 0 (length (prios q)) ∧ StronglySorted (λ i j, prio_at (prios q) j ≤ prio_at (prios q) i) order.
Proof.
  intros Hq H Hb. apply visitQuery_planned in H. rewrite Hq in H. apply planned_pipelines in H as [Hp Hl].
  rewrite Hp in Hb. injection Hb as <-. fold (pipelines_of (sources_ s'.2) r (prios q)). split; [done|].
  unfold schedule_pipelines.
  assert (length (query_pipelines_ (pipelines_of (sources_ s'.2) r (prios q))) = length (prios q)) as Hk
    by (simpl; rewrite length_zip_with; lia).
  rewrite Hk. case_bool_decide as Hn.
  - unfold run_order. change (pipeline_seq_ _) with (@nil nat). rewrite Hk. simpl.
    destruct (length (prios q)) as [|[|]]; [split; [done|constructor]|split; [done|repeat constructor]|lia].
  - rewrite priorities_indexed by done. destruct (started_by_priority (prios q)) as [Ho Hs]. unfold run_order. simpl.
    destruct (std_sort (with_index 0 (prios q))).*1 as [|x o]; [|done].
    apply Permutation_length in Ho. rewrite length_seq in Ho. simpl in Ho. lia.
Qed.

(** C12: the pipelines of a query are all started, in the order of falling
    priority.  When its joins are cross and hash joins, the producers of the
    collected or built inputs have priority 1 and the last producer, which
    drives the probe of the outermost join, has priority 0: its pipeline is
    started last, behind all the others.  (Among the others [std::sort] is free
    to choose.) *)
Theorem joins_run_left_first q s s' r b :
  left_first q = true → visitQuery q s = (s', Val r) → get_query_plan s' = (s', Val b) →
  let order := run_order (schedule_pipelines std_sort b) in
  ∃ first, order = first ++ [(length (sources_ s'.2) - 1)%nat] ∧ first ≡ₚ seq 0 (length (sources_ s'.2) - 1)
    ∧ StronglySorted (λ i j, prio_at (prios q) j ≤ prio_at (prios q) i) order.
Proof.
  intros [Hq [n Hn]]%left_first_prios H Hb. destruct (query_order q s s' r b Hq H Hb) as (Hl & Ho & Hs). cbv zeta in *.
  rewrite Hn, length_app, length_replicate in Hl, Ho. simpl in Hl, Ho. rewrite Nat.add_1_r in Hl, Ho. rewrite Hl, Nat.sub_1_r. simpl Nat.pred.
  pose proof Hs as Hs'. rewrite Hn in Hs'. destruct (last_started n _ Ho Hs') as (o' & E & Hp). by exists o'.
Qed.

(** A query with one pipeline. *)
Definition single (q : query_operator) : Prop := exists_free q = true ∧ prios q = [0].
Definition starts (q : query_operator) (order : list nat) : Prop :=
  ∀ s s' r b, visitQuery q s = (s', Val r) → get_query_plan s' = (s', Val b) →
    run_order (schedule_pipelines std_sort b) = order.
Lemma starts_sorted q order : exists_free q = true → (2 ≤ length (prios q))%nat → order ≠ [] →
  (std_sort (with_index 0 (prios q))).*1 = order → starts q order.
Proof.
  intros Hq Hlen Hne Ho s s' r b H Hb.
  apply visitQuery_planned in H. rewrite Hq in H. apply planned_pipelines in H as [Hp Hl]. rewrite Hp in Hb. injection Hb as <-.
  fold (pipelines_of (sources_ s'.2) r (prios q)). unfold schedule_pipelines.
  rewrite bool_decide_false by (simpl; rewrite length_zip_with; lia).
  rewrite priorities_indexed by done. unfold run_order. simpl. rewrite Ho. by destruct order.
Qed.

(** A left outer join reads its right input, which it needs, before the left one. *)
Theorem outer_join_order e q1 q2 : single q1 → single q2 → starts (LeftOuterJoin e q1 q2) [1; 0]%nat.
Proof.
  intros [H1 P1] [H2 P2]. apply starts_sorted; simpl; rewrite ?H1, ?H2, ?P1, ?P2; simpl; try done; try lia.
  destruct (Hsort [(0%nat, 0); (1%nat, 1)]) as [Hp Hs]. symmetry in Hp.
  change (with_index 0 _) with [(0%nat, 0); (1%nat, 1)].
  apply Permutation_length_2_inv in Hp as [Hp|Hp]; rewrite Hp; [|done].
  rewrite Hp in Hs. apply StronglySorted_inv in Hs as [_ Hs]. rewrite Forall_singleton in Hs. simpl in Hs. lia.
Qed.
End order.

(** As the first input of a hash join all its pipelines have the same priority:
    a sort that keeps the order of equal elements starts the left one first. *)
Theorem nested_outer_join_order e v1 v2 q1 q2 q3 :
  single q1 → single q2 → single q3 →
  starts stable_sort (HashJoin v1 v2 (LeftOuterJoin e q1 q2) q3) [0; 1; 2]%nat.
Proof.
  intros [H1 P1] [H2 P2] [H3 P3]. apply starts_sorted; simpl; rewrite ?H1, ?H2, ?H3, ?P1, ?P2, ?P3; simpl; try done; lia.
Qed.

(** ** Chains of operators *)
Notation visitAdditive_expr := (visitAdditive_expr (V:=V) (D:=D) (X:=X) stof valid_regex).
Notation visitMultiplicative_expr := (visitMultiplicative_expr (V:=V) (D:=D) (X:=X) stof valid_regex).
Notation visitUnary_expr := (visitUnary_expr (V:=V) (D:=D) (X:=X) stof valid_regex).

(** The tokens with their right operands, from left to right. *)
Definition fold_ops {Op} (f : Op → expr → expr → expr) (e : expr) (toks : list Op) (es : list expr) : expr :=
  foldl (λ acc te, f te.1 acc te.2) e (zip toks es).
Definition sum_op (t : add_tok) : expr → expr → expr := match t with tok_PLUS => PLUS | tok_MINUS => math op_MINUS end.
Definition mult_op (t : mult_tok) : expr → expr → expr :=
  math (match t with tok_MULT => op_MULT | tok_DIV => op_DIV | tok_MOD => op_MOD end).
Definition count {Op} `{EqDecision Op} (t : Op) (l : list Op) : nat := length (filter (t =.) l).

(** A loop whose step depends on the position. *)
Lemma visit_chain_val {Op A} (visit : A → M db expr) (step : nat → expr → expr → expr) combine a (rest : list (Op * A)) g g1 g2 e es :
  visit a g = (g1, Val e) → mapM visit rest.*2 g1 = (g2, Val es) →
  (∀ i acc r, combine rest.*1 i acc r = mret (step i acc r)) →
  visit_chain visit combine (mk_chain a rest) g = (g2, Val (foldl (λ acc ix, step ix.1 acc ix.2) e (zip (seq 0 (length es)) es))).
Proof.
  intros Ha Hes Hc. unfold visit_chain. rewrite (bind_val _ _ _ _ _ Ha). revert Hc. generalize (rest.*1) as toks. intros toks Hc.
  generalize 0%nat as i. clear Ha. revert g1 e es Hes. induction rest as [|[t b] rest IH]; intros g1 e es Hes i.
  - injection Hes as <- <-. done.
  - apply bind_inv in Hes as (g3 & y & Hy & Hes). apply bind_inv in Hes as (g4 & ys & Hys & Hes). injection Hes as <- <-.
    rewrite (bind_val _ _ _ _ _ Hy), Hc. rewrite bind_ret. by rewrite (IH _ _ _ Hys).
Qed.
(** From position [m] on the operands are dropped. *)
Lemma foldl_choice {Op} (f : Op → expr → expr → expr) (step : nat → expr → expr → expr) (toks : nat → Op) m i e es :
  (∀ j acc r, (j < m)%nat → step j acc r = f (toks j) acc r) → (∀ j acc r, (m ≤ j < i + length es)%nat → step j acc r = acc) →
  foldl (λ acc ix, step ix.1 acc ix.2) e (zip (seq i (length es)) es) = fold_ops f e (toks <$> seq i (m - i)) es.
Proof.
  intros Hs. unfold fold_ops. revert i e. induction es as [|x es IH]; intros i e Hd; simpl in *.
  - by destruct (toks <$> seq i (m - i)).
  - destruct (decide (i < m)%nat).
    + replace (m - i)%nat with (S (m - S i)) by lia. simpl. rewrite Hs by done. apply IH. intros; apply Hd; lia.
    + rewrite Hd by lia. rewrite IH by (intros; apply Hd; lia). replace (m - S i)%nat with 0%nat by lia. by replace (m - i)%nat with 0%nat by lia.
Qed.
Lemma seq_const {B} (f : nat → B) c i k : (∀ j, (i ≤ j < i + k)%nat → f j = c) → f <$> seq i k = replicate k c.
Proof. revert i. induction k as [|k IH]; intros i Hf; [done|]. simpl. rewrite Hf by lia. f_equal. apply IH. intros; apply Hf; lia. Qed.
Lemma mapM_length {St A B} (f : A → M St B) (xs : list A) (u u' : St) ys : mapM f xs u = (u', Val ys) → length ys = length xs.
Proof.
  revert u ys. induction xs as [|x xs IH]; intros u ys H; [by injection H as _ <-|].
  apply bind_inv in H as (u1 & y & _ & H). apply bind_inv in H as (u2 & ys' & Hys & H). injection H as <- <-. simpl.
  by rewrite (IH _ _ Hys).
Qed.
Lemma count_sum (ts : list add_tok) : (count tok_PLUS ts + count tok_MINUS ts = length ts)%nat.
Proof.
  unfold count. induction ts as [|t ts IH]; [done|].
  rewrite !filter_cons. destruct t; repeat case_decide; simplify_eq; simpl; lia.
Qed.
Lemma fold_ops_inj {Op} (f : Op → expr → expr → expr) e e' toks toks' es :
  (∀ t t' x x' r, f t x r = f t' x' r → t = t' ∧ x = x') → length toks = length es → length toks' = length es →
  fold_ops f e toks es = fold_ops f e' toks' es → toks = toks' ∧ e = e'.
Proof.
  intros Hf. unfold fold_ops. revert e e' toks toks'. induction es as [|x es IH]; intros e e' [|t toks] [|t' toks'] H H' He; try done.
  simpl in *. apply IH in He as [-> He]; [|lia..]. apply Hf in He as [-> ->]. done.
Qed.

(** C14: a sum is planned with all its plus signs in front of its minus signs,
    however they are written; so it is planned as it is written just when all
    plus signs come first. *)
Theorem additive_plus_first a rest g g1 g2 e es :
  visitMultiplicative_expr a g = (g1, Val e) → mapM visitMultiplicative_expr rest.*2 g1 = (g2, Val es) →
  let planned := replicate (count tok_PLUS rest.*1) tok_PLUS ++ replicate (count tok_MINUS rest.*1) tok_MINUS in
  visitAdditive_expr (Additive (mk_chain a rest)) g = (g2, Val (fold_ops sum_op e planned es)) ∧
  (fold_ops sum_op e planned es = fold_ops sum_op e rest.*1 es ↔ rest.*1 = planned).
Proof.
  intros Ha Hes planned. pose proof (mapM_length _ _ _ _ _ Hes) as Hlen. rewrite length_fmap in Hlen.
  pose proof (count_sum rest.*1) as Hc. rewrite length_fmap in Hc. split.
  - change (visitAdditive_expr (Additive (mk_chain a rest)) g)
      with (visit_chain visitMultiplicative_expr combine_additive (mk_chain a rest) g).
    set (toks i := if token_at tok_PLUS rest.*1 i then tok_PLUS else tok_MINUS). set (step i := sum_op (toks i)).
    rewrite (visit_chain_val _ step _ _ _ _ _ _ _ _ Ha Hes)
      by (intros; unfold combine_additive, step, toks; by case_match).
    do 2 f_equal. rewrite (foldl_choice sum_op step toks (length es)) by (done || lia).
    rewrite Nat.sub_0_r, Hlen, <- Hc, seq_app, fmap_app. unfold planned. f_equal; f_equal; apply seq_const; intros j Hj; unfold toks, token_at.
    + rewrite bool_decide_true; [done|]. unfold count in *. lia.
    + rewrite bool_decide_false; [done|]. unfold count in *. lia.
  - split; [|by intros ->]. intros He. symmetry. eapply (fold_ops_inj sum_op); [|..|exact He].
    + intros [] [] x x' r; intros; by simplify_eq.
    + unfold planned. rewrite length_app, !length_replicate. lia.
    + rewrite length_fmap. lia.
Qed.

(** The operators of a product are planned by kind: as many
    multiplications as there are, then divisions as far as they are more, then
    remainders.  Operands behind that are dropped: a product of several kinds of
    operators loses some. *)
Theorem multiplicative_by_kind a rest g g1 g2 e es :
  visitUnary_expr a g = (g1, Val e) → mapM visitUnary_expr rest.*2 g1 = (g2, Val es) →
  let m := count tok_MULT rest.*1 in let d := count tok_DIV rest.*1 in let r := count tok_MOD rest.*1 in
  visitMultiplicative_expr (Multiplicative (mk_chain a rest)) g =
    (g2, Val (fold_ops mult_op e (replicate m tok_MULT ++ replicate (d - m) tok_DIV ++ replicate (r - m `max` d) tok_MOD) es)).
Proof.
  intros Ha Hes m d r.
  change (visitMultiplicative_expr (Multiplicative (mk_chain a rest)) g)
    with (visit_chain visitUnary_expr combine_multiplicative (mk_chain a rest) g).
  set (kind i := if token_at tok_MULT rest.*1 i then tok_MULT else if token_at tok_DIV rest.*1 i then tok_DIV else tok_MOD).
  set (step i acc x := if bool_decide (i < m `max` d `max` r)%nat then mult_op (kind i) acc x else acc).
  rewrite (visit_chain_val _ step _ _ _ _ _ _ _ _ Ha Hes).
  - do 2 f_equal. rewrite (foldl_choice mult_op step kind (m `max` d `max` r)).
    + f_equal. rewrite Nat.sub_0_r. replace (m `max` d `max` r)%nat with (m + ((d - m) + (r - m `max` d)))%nat by lia.
      rewrite !seq_app, !fmap_app. repeat f_equal; apply seq_const; intros j Hj; 
        unfold kind, token_at; unfold m, d, r, count in *; repeat case_bool_decide; try done; lia.
    + intros j acc x Hj. unfold step. by rewrite bool_decide_true.
    + intros j acc x Hj. unfold step. by rewrite bool_decide_false by lia.
  - intros i acc x. unfold combine_multiplicative, step, kind, token_at, m, d, r, count. repeat case_bool_decide; try done; lia.
Qed.

(** ** Transactions around queries *)
Section running.
Context {A : Type}.
Variable (junk : Z).

(** In auto-commit mode a query for a node that does not exist fails and leaves
    its transaction the current one of the thread: no later query of the thread
    can begin one, and none of them starts. *)
Theorem failed_node_by_id_blocks id (next : op (V:=V) (D:=D) (X:=X) A) xid (g : db) (a : A) e :
  current_transaction_ g = None → tab_get (nodes_ g) id = Exn e →
  ∃ g', execute junk true xid (node_by_id_op id next) (g, a) = ((g', a), Exn e)
    ∧ ∀ xid' (start' : M (db * A) unit), execute junk true xid' start' (g', a) = ((g', a), Exn invalid_nested_transaction).
Proof.
  intros Hc Hid. set (g' := set_active (insert_xid xid (active_tx_ g)) (set_current (Some (new_transaction xid)) g)).
  assert (begin_transaction xid g = (g', Val tt)) as Eb by (unfold begin_transaction, mbind, M_bind, get_st; by rewrite Hc).
  assert (node_by_id id g' = (g', Exn e)) as En.
  { assert (at_node id (fetch xid) g' = (g', Exn e)) as E by (unfold at_node, on_nodes, tab_do; simpl nodes_; by rewrite Hid).
    unfold node_by_id. rewrite (bind_val _ _ _ g' tt) by done. rewrite (bind_val _ _ _ g' xid) by done.
    unfold mbind, M_bind. by rewrite E. }
  exists g'. split.
  - unfold execute. rewrite (bind_val _ _ _ (g', a) tt) by (unfold on_fst; cbn [fst snd]; by rewrite Eb).
    unfold node_by_id_op, mbind, M_bind, on_fst. cbn [fst snd]. by rewrite En.
  - intros xid' start'. unfold execute, mbind, M_bind, on_fst. by cbn.
Qed.
End running.
End plans.

(** ** Concrete queries *)

Notation demo_planner := (planner (V:=mem_chunked_vec) (D:=dict string_pool) (X:=index_map)).
Definition demo_stof (_ : str) : res Z := Val 0.
Notation demo_visit := (visitQuery (V:=mem_chunked_vec) (D:=dict string_pool) (X:=index_map) demo_stof (λ _, true) None (λ _, []) (λ _, any_other)).
Definition plan_st : demo_gdb * demo_planner := (empty_gdb, no_plan (mk_globals [] None)).
Definition d0 : var_spec := mk_var_spec ["$"; "0"]%char None t_int.
Definition scan_all : query_operator := NodeScan no_param.
(** A cross join as the build side of a hash join. *)
Definition demo_join : query_operator :=
  HashJoin d0 d0 (CrossJoin scan_all (Limit ["5"]%char scan_all)) (Distinct scan_all).

Definition demo_plan : demo_gdb * demo_planner := (demo_visit demo_join plan_st).1.
Lemma demo_join_planned : demo_visit demo_join plan_st = (demo_plan, Val 6%nat).
Proof. vm_compute. reflexivity. Qed.

Lemma plan_pipelines_witness :
  exists_free demo_join = true ∧ prios demo_join = [1; 1; 0] ∧
  get_query_plan demo_plan =
    (demo_plan,
     Val (mk_batch (zip_with (λ i m, mk_pipeline (Some i) (Some 6%nat) m) (sources_ demo_plan.2) (prios demo_join)) [])).
Proof.
  split; [reflexivity|]. split; [reflexivity|].
  exact (proj1 (plan_pipelines demo_stof (λ _, true) None (λ _, []) (λ _, any_other) demo_join plan_st demo_plan 6%nat eq_refl demo_join_planned)).
Defined.
Lemma joins_run_left_first_witness :
  left_first demo_join = true ∧ ∃ b first, get_query_plan demo_plan = (demo_plan, Val b) ∧
  run_order (schedule_pipelines stable_sort b) = first ++ [2%nat] ∧ first ≡ₚ [0; 1]%nat.
Proof.
  split; [reflexivity|].
  edestruct (joins_run_left_first demo_stof (λ _, true) None (λ _, []) (λ _, any_other) stable_sort stable_sort_ok
    demo_join plan_st demo_plan 6%nat) as (first & E & Hp & _); [reflexivity|apply demo_join_planned|vm_compute; reflexivity|].
  eexists _, first. split; [vm_compute; reflexivity|]. split; [exact E|exact Hp].
Defined.
Definition is_true_expr : logical_expr :=
  Logical (mk_chain (Boolean (mk_chain (Equality (mk_chain (Relational (mk_chain (Additive (mk_chain
    (Multiplicative (mk_chain (Unary false (Prim_value (v_INTEGER ["1"]%char))) [])) [])) [])) [])) [])) []).
Lemma nested_outer_join_order_witness :
  single scan_all ∧
  starts (V:=mem_chunked_vec) (D:=dict string_pool) (X:=index_map) demo_stof (λ _, true) None (λ _, []) (λ _, any_other) stable_sort
    (HashJoin d0 d0 (LeftOuterJoin is_true_expr scan_all scan_all) scan_all) [0; 1; 2]%nat.
Proof.
  split; [done|].
  apply (nested_outer_join_order demo_stof (λ _, true) None (λ _, []) (λ _, any_other) is_true_expr d0 d0 scan_all scan_all scan_all);
    done.
Defined.
Lemma plan_walks_end_witness :
  demo_visit demo_join plan_st = (demo_plan, Val 6%nat) ∧
  ∃ h x, find_head (length (ops demo_plan.2)) (ops demo_plan.2) 6 = Some h
    ∧ ops demo_plan.2 !! h = Some x ∧ parent_ x = None.
Proof.
  split; [apply demo_join_planned|].
  exact (proj2 (plan_walks_end demo_stof (λ _, true) None (λ _, []) (λ _, any_other) demo_join plan_st demo_plan 6%nat demo_join_planned)).
Defined.

(** [5 - 3 + 1] is planned as [5 + 3 - 1], [8 * 4 / 2] as [8 * 4]. *)
Definition num (c : ascii) : unary_expr := Unary false (Prim_value (v_INTEGER [c])).
Definition num_sum (c : ascii) : multiplicative_expr := Multiplicative (mk_chain (num c) []).
Notation demo_sum := (visitAdditive_expr (V:=mem_chunked_vec) (D:=dict string_pool) (X:=index_map) demo_stof (λ _, true)).
Notation demo_product := (visitMultiplicative_expr (V:=mem_chunked_vec) (D:=dict string_pool) (X:=index_map) demo_stof (λ _, true)).
Definition minus_plus : list (add_tok * multiplicative_expr) := [(tok_MINUS, num_sum "3"); (tok_PLUS, num_sum "1")].
Definition times_over : list (mult_tok * unary_expr) := [(tok_MULT, num "4"); (tok_DIV, num "2")].
Lemma additive_plus_first_witness :
  demo_sum (Additive (mk_chain (num_sum "5") minus_plus)) empty_gdb =
    (empty_gdb, Val (math op_MINUS (PLUS (Int 5) (Int 3)) (Int 1))).
Proof.
  refine (proj1 (additive_plus_first demo_stof (λ _, true) (num_sum "5") minus_plus empty_gdb empty_gdb empty_gdb (Int 5) [Int 3; Int 1] _ _));
    reflexivity.
Defined.
Lemma multiplicative_by_kind_witness :
  demo_product (Multiplicative (mk_chain (num "8") times_over)) empty_gdb = (empty_gdb, Val (math op_MULT (Int 8) (Int 4))).
Proof.
  refine (multiplicative_by_kind demo_stof (λ _, true) (num "8") times_over empty_gdb empty_gdb empty_gdb (Int 8) [Int 4; Int 2] _ _);
    reflexivity.
Defined.

(** [NodeById(7)] on an empty database. *)
Definition node_7 : M (demo_gdb * (list qr_tuple * bool)) unit := node_by_id_op 7 collect_result.
Lemma failed_node_by_id_blocks_witness :
  ∃ g', execute 0 true 10 node_7 (empty_gdb, (@nil qr_tuple, false)) = ((g', ([], false)), Exn unknown_id)
    ∧ ∀ xid' start', execute 0 true xid' start' (g', (@nil qr_tuple, false)) = ((g', ([], false)), Exn invalid_nested_transaction).
Proof. apply (failed_node_by_id_blocks 0 7 collect_result 10 empty_gdb (@nil qr_tuple, false) unknown_id); reflexivity. Defined.
